(* ===== verification/_CoqProject ===== *)
-Q . S2P
Prelude.v
Digest.v
Sha256.v
Json.v
Canonical.v
Hashing.v
Text.v
Models.v
Llm.v
Claims.v
Verify.v
Extraction.v
Cas.v
Ingest.v
Contracts.v
Policy.v
CommandGateway.v
QueryGateway.v
Events.v
Projections.v
ControlPlane.v
Search.v
Signing.v
Git.v
Mirror.v
Assembler.v
Generation.v
Publish.v
Workspace.v
ModelWorkspace.v
ChangeSet.v
Timestamps.v
RuntimeContracts.v
OperationStore.v
StageResults.v
Orchestrator.v
RunAlone.v
OperabilityContracts.v
Backpressure.v
BackpressureInvariants.v
BackpressureSample.v
BackpressureTheorems.v
Operability.v
OperabilityTheorems.v
Calendar.v
TimeZones.v
Temporal.v
TemporalTheorems.v
Registries.v
Plugins.v
LedgerGraph.v
LedgerContracts.v
Decimals.v
Ledger.v
LedgerHistory.v
LedgerInvariants.v
LedgerSample.v
LedgerTheorems.v
LedgerTimeline.v
LedgerRecall.v
LedgerServing.v
LedgerPaging.v
