(* ===== verification/Prelude.v ===== *)
(** * wiki-spike: a verified model of the knowledge publisher and its memory core

    wiki-spike compiles sources into claims, publishes accepted claims as signed,
    content-addressed generations in a git repository, activates them in a SQLite control
    plane, and serves them; beside it stands a storage-independent memory core (gateways,
    policy, events, projections, registries, plugins).  This development models that code
    (under src/src/wiki_spike/) as executable definitions and proves what makes it correct.
    File names without a directory below are in src/src/wiki_spike/ or its memory_core/.

    ** How the parts interact

    A source is received and stored (Ingest, Cas), its claims are extracted with quotes
    as evidence (Claims, Extraction, Verify, Llm), the claims accepted so far are rendered
    with a citation index and a snapshot (Assembler) into a candidate commit with a signed
    manifest (Generation, Signing, Git), the candidate is registered and activated by one
    database transaction under a fencing token (ControlPlane, Publish), a change set can
    be published the same way (ChangeSet), an outbox event asks for the commit to be
    mirrored (Mirror), and the index follows (Search).  Workspace wires this together.
    The memory core speaks in validated envelopes (Contracts): commands pass the command
    gateway (CommandGateway) and queries the query gateway (QueryGateway), both under the
    policy engine (Policy); events are consumed and replayed (Events), projections are
    rebuilt behind pointers (Projections), stored artifacts migrate between schema
    versions (Registries), plugins run out of process (Plugins).  The phase 4 runtime drives
    an operation through its stages (Orchestrator) over a store that leases operations to
    workers (OperationStore) and one that keeps the first result of each stage
    (StageResults), speaking the runtime's own contracts (RuntimeContracts); what a request
    means by "last week" is resolved against a time zone (TimeZones, Temporal).  Work is admitted
    through a bounded queue, a retry budget and a circuit breaker (Backpressure); what happens is
    told in hashed audit records and aggregate telemetry, and exports leave as audited jobs
    (Operability).  The second
    brain keeps reviewed candidates in a bitemporal ledger: sealed commands under verified
    provenance append revisions, closures, edges and receipts in one transaction each
    (LedgerContracts, Ledger), and a recall reads the candidates visible at a committed cut,
    in pages of whole connected components (LedgerRecall, LedgerGraph).  Everything is identified
    by hashes of canonical bytes (Canonical, Json, Hashing, Digest, Sha256, Models).

    ** The files

    - Prelude: results, the state-and-exception monad [st], association lists as Python
      dicts, sorting, decimal text, UTF-8 as characters, the tactics and the hint
      databases [wiki] and [wiki_rw].
    - Digest, Sha256: the class of the hash function and SHA-256 as its instance.
    - Json, Canonical (canonical.py), Hashing (hashing.py): JSON text, the canonical
      encoder and its profile, the Merkle root.
    - Text: the [str] and [re] operations the program uses, on lists of characters.
    - Models (models.py): the source manifest's state machine, claims and their ids.
    - Llm (llm.py), Claims (claims.py), Verify (verify.py), Extraction (extraction.py):
      model clients, the mock extractor, the verification layers, the model extractor.
    - Cas (cas.py), Ingest (ingest.py): the object store as maps of file names to bytes,
      and the service over it with its manifests and representations.
    - Contracts (contracts.py, errors.py), Policy (policy.py), CommandGateway
      (command_gateway.py, ports.py), QueryGateway (query_gateway.py), Events (events.py),
      Projections (projections.py), Registries (registries.py), Plugins (plugins.py),
      ChangeSet (changeset_publication.py): one file of the memory core each.  The
      in-memory stores are records of maps; where the code takes a protocol, the model
      has a class, with a [Laws] class where a client's theorem needs a contract and the
      in-memory store as an instance that meets it.
    - Timestamps: instants as microseconds since the year 1 and the UTC texts the runtime
      parses and prints.  RuntimeContracts (memory_runtime/contracts.py and errors.py):
      the operation request, status, job and result contracts.  OperationStore,
      StageResults, Orchestrator (memory_runtime/orchestrator.py): the two in-memory stores
      and the [RuntimeOrchestrator] over them; RunAlone: its run when nothing interferes.
      Calendar: months and years as ranges of days; TimeZones: zones, local times and
      [_localize_strict]; Temporal, TemporalTheorems (memory_runtime/temporal.py): the
      resolution contract and the resolver of temporal expressions.
    - OperabilityContracts, Backpressure, Operability (memory_core/operability.py): the five
      records with content-derived identifiers; the queue, budget, circuit and controller; the
      bounded stores, telemetry and the export gateway with the interfaces of its ports.
      BackpressureInvariants: what the counters stand for, and the steps that keep it;
      BackpressureTheorems, OperabilityTheorems: the properties; BackpressureSample: two items.
    - LedgerContracts (second_brain_ledger_contracts.py): the commands, edges, intervals,
      provenance and receipts of the ledger and the authority that verifies provenance.
      LedgerGraph: the reachability search and the paging of components of
      infrastructure/second_brain_ledger.py; Decimals: its comparison of decimal texts.
      Ledger: the tables as the record [ledger_db] and [LifecycleLedgerAuthority]'s
      operations; LedgerRecall: its recall path.  LedgerHistory: what each operation writes;
      LedgerInvariants: the step relation of committed [transaction]s, what all of them keep
      and what every operation does; LedgerTimeline: each candidate's versions in the order
      of their cuts; LedgerSample: a concrete script; LedgerTheorems and LedgerServing: the
      properties of the history and of the recalls; LedgerPaging: recalls that carry on from
      page to page through the cursors of the ledger.
    - ControlPlane (controlplane.py): the database [db], one field per table, one
      definition per method with the SQL statements written out.
    - Search (search.py), Signing (signing.py), Git (gitrepo.py as an interface),
      Assembler (assembler.py), Generation (generation.py), Publish (publish.py), Mirror
      (mirror.py), Workspace (workspace.py), ModelWorkspace (the workspace over the model
      extractor).  The state of publication is a pair of repository and database; the
      workspace adds the ingest service.

    An exception is the [Err] of a [result]; a method that changes state and may raise is
    of type [st S E A] and keeps the changes made before the exception.  Python's own
    exceptions that a caller cannot distinguish are one constructor.  Strings are byte
    strings holding UTF-8; where the code counts characters the model does too (Text).

    ** What the theorems show

    - Encodings: exactly the representable values have canonical bytes, these parse back,
      the contract encoder agrees on every value without a mapping that is no dict, and takes
      such a mapping for the dict of its items where the canonical encoder refuses it; identifiers of claims, events, change sets, plugins and
      generations bind the fields they are computed from.
    - Evidence: claims of either extractor are grounded in the stored representation, with
      a quote that stands there verbatim and with the source's hedges kept; a received
      source compiles to such claims.
    - Publication: a verified generation identifier determines its content; activation is
      atomic, compare-and-swap and fenced by leases; publishing under contention is bounded,
      preserves the database invariant and adds exactly the new claims minus the revoked ones;
      an untrusted source revokes nothing; a change set moves the pointer once; the outbox is
      marked only after mirroring.
    - Admission: policy decisions are exactly the granted ones with the first failing check
      as reason; commands and plugins run only when admitted and at most once per key;
      queries answer only authorized live records.
    - Concurrency: event consumption and projection rebuilds under arbitrary interference
      between their store calls; a poison event is dead-lettered; replays catch up.
    - Runtime: a write needs the unexpired claim with its token and fence; the records of
      the operation store stay consistent and terminal ones final; a cancellation is never
      overtaken by a completion; a stage keeps its first result; a run answers under any
      interference, never by its transition limit, and completes when undisturbed.
    - Time: a local time becomes the one instant that shows it, and an expression for a day,
      week, month or year the local midnights around exactly its days; what the resolver
      answers reads back from its mapping.
    - Operability: the work queue answers as a plain list would, and with the retry budget and
      the circuit keeps its limits under any interleaving; a submission takes effect in all
      three or in none, and giving it up gives back the item, the charge and the probe - but an
      open circuit whose time has passed stays half open; a tripped circuit lets one call through;
      telemetry is bounded; an export job stays only when it is allowed and on record.
    - Ledger: whatever commands run, from whatever clients, a candidate has one open version,
      active support never cycles, the cuts of a workspace are numbered without gaps by its
      commands, a command commits once, every operation moves the tables by committed
      transactions alone, and a revocation reaches exactly what the revoked candidate
      supported.  What a recall reads at a committed cut never changes; recalls that carry on
      from page to page show every visible candidate once and end, whatever is committed in
      between, resume where the page before recorded, and are refused once the cursor has
      expired; a page satisfies the display rules of the snapshot contract.
    - Totality: loops end within the stated fuel; errors are exactly the stated ones.

    ** Collisions

    No theorem assumes that a hash is injective.  Where the code relies on collision
    resistance the conclusion reads "equal, or [collision K]", K being the explicit list of
    byte strings hashed on the way ([Digest.collision]): two different members of K with
    one digest.  Witnesses compute with [sha256_digest] or with the toy digest [pad_digest].

    ** Fuel and bounds

    [Hashing.merkle_loop] takes the number of nodes, each round leaves about half of them
    ([merkle_loop_total]); [Json.json_parse] takes the length of the text
    ([json_parse_dumps] covers what was printed); [Publish.publish_loop] takes
    the number of retries left, which is what bounds the code's loop; [Registries.migrate_loop]
    takes one more than the number of registered migrations, enough because no version is
    visited twice; [Orchestrator.turns] takes the number of turns, two more than the stages,
    of which no run needs the last.  In the ledger, [reachable_loop] and [cascade_loop] take one
    step per node taken from their queue, of which there are at most one more than the edges
    ([targets] enter once, being marked seen); [uf_find] takes one more than the nodes, as a
    root is at most that many parents away.  Integers are unbounded as in Python; where CPython refuses to print one
    ([INT_MAX_STR_DIGITS]) the model refuses too.

    ** Interference

    Methods that hold a lock, and statements inside a transaction, are atomic.  Everywhere
    else other threads or connections act in between: [race] and [races] in Publish,
    [others] in Cas, Events and Projections are arbitrary functions on the shared state,
    restricted only in theorems that say how (other publishers that follow the protocol,
    writers that only add objects).  [Backpressure.meanwhile] lets other threads act between the
    steps of the admission controller: in the invariant theorem any sequence of [atomic] methods of
    the three objects; the all-or-nothing theorem says what a submission does to whatever state
    those leave it ([outcome]), and its whole effect when nobody is there ([quiet]).  Around the orchestrator they are [Surroundings.others],
    any sequence of the stores' own methods ([op_step], [result_step]).  Around each
    transaction of the ledger other connections commit transactions of their own
    ([Ledger.Surroundings], [honest] when these are the modelled ones, [steady] when they also
    keep the recall cursors).  The export gateway and its ports run with nobody in between, and
    a handler does not call back into the command gateway that runs it, whose lock is
    re-entrant.

    ** Parameters and what is assumed of them

    [Unicode] (NFC: idempotent, the identity on ASCII; [NfcLaws] adds that parts of
    a normalized text are normalized, where evidence spans are cut out of one), [UnicodeCase], [UnicodeWord] and [UnicodeDecimal] (lower case,
    word characters and digits beyond ASCII), [TimezoneProvider] and [ZoneInfo] with [ZoneLaws] (what
    [datetime] documents of a zone; met by any zone given by its transitions), [PyRepr] ([str] of floats and containers),
    [Digest] (32 bytes out), [Ed25519] (what was signed verifies), [JsonReader] ([json.loads]
    inverts [json.dumps]), [GitRepo] with [GitLaws] (writing objects and
    anchors succeeds, a commit holds its files, references move only by update), [GitRemote] with [RemoteLaws], [LLMClient], [CommandPorts], [QueryPorts],
    [PluginPorts], [ProjectionPorts], [EventHandler], [ChangeObjectResolver]
    (arbitrary), [AuditSink] and [TelemetrySink] (arbitrary), [ProjectionJobSubmitter] with
    [SubmitterLaws] (met by the bounded store), [Surroundings] (clock, stage handlers and other workers; [Lawful]: the clock
    reads a date of Python's range and the stores are changed only through their
    methods; [Calm]: nobody else acts and handlers succeed in time), [Ledger.Surroundings] (clock,
    content availability and other connections of the ledger), [TrustVerifier] (the signature
    check of provenance, arbitrary), and validators and
    migrations as functions.  Each class has a concrete
    instance, with which the witnesses evaluate.

    ** Not modelled

    - I/O around the modelled code: opening files, directories, locks and databases, key
      files, HTTP model clients, subprocesses (git, plugins), the command line, composition
      roots, scripts and user interface.
    - Floats: the fractions and thresholds of the golden evaluation, retry delays and costs
      of runtime.py.
    - workspace_format.py: a migration of directories with fsync and renames.
    - The ledger's triggers, which refuse what its own operations never do; the purge of expired
      cursors; the contract checks and the sealing of the recall snapshot beyond the display
      rules of [LedgerServing.selected_page_is_displayable].
    - Left out for their size: the historical key registry, the other engines of
      the phase 4 runtime, the deletion state machine, floor protocol and the rest of the lifecycle
      database of infrastructure/, the other second-brain services, recovery.py, identity authorization v2, and the unified-db
      and snapshot contracts, which are mostly closed parsers in the style of Contracts. *)
From Stdlib Require Export Ascii DecimalString DecimalN NArith ZArith Lia.
From stdpp Require Export base gmap list strings sorting option.

(** ** Results: Python's "return or raise" as a sum type. *)

Inductive result (E A : Type) : Type :=
| Ok (a : A)
| Err (e : E).
Arguments Ok {E A} a.
Arguments Err {E A} e.

#[export] Instance result_ret {E} : MRet (result E) := fun A a => Ok a.
#[export] Instance result_bind {E} : MBind (result E) :=
  fun A B f m => match m with Ok a => f a | Err e => Err e end.
#[export] Instance result_fmap {E} : FMap (result E) :=
  fun A B f m => match m with Ok a => Ok (f a) | Err e => Err e end.

#[export] Instance result_eq_dec {E A} `{EqDecision E} `{EqDecision A} : EqDecision (result E A).
Proof. solve_decision. Defined.

(** [if not b: raise e]. *)
Definition ensure {E} (b : bool) (e : E) : result E unit :=
  if b then Ok tt else Err e.

(** [except Exc as exc: raise e from exc]. *)
Definition reraise {E E' A} (e : E') (m : result E A) : result E' A :=
  match m with Ok a => Ok a | Err _ => Err e end.

(** Errors of a callee as errors of the caller. *)
Definition map_err {E E' A} (f : E -> E') (m : result E A) : result E' A :=
  match m with Ok a => Ok a | Err e => Err (f e) end.

Definition of_option {E A} (e : E) (o : option A) : result E A :=
  match o with Some a => Ok a | None => Err e end.

Definition is_ok {E A} (m : result E A) : bool :=
  match m with Ok _ => true | Err _ => false end.

(** A list comprehension whose body may raise. *)
Fixpoint map_result {E A B} (f : A -> result E B) (l : list A) : result E (list B) :=
  match l with
  | [] => Ok []
  | x :: l => y ← f x; ys ← map_result f l; Ok (y :: ys)
  end.

(** ** State and exceptions: a raised exception keeps the effects made before it. *)

Definition st (S E A : Type) : Type := S -> S * result E A.

#[export] Instance st_ret {S E} : MRet (st S E) := fun A a s => (s, Ok a).
#[export] Instance st_bind {S E} : MBind (st S E) :=
  fun A B f m s => match m s with
                   | (s', Ok a) => f a s'
                   | (s', Err e) => (s', Err e)
                   end.

Definition st_get {S E} : st S E S := fun s => (s, Ok s).
Definition st_put {S E} (s : S) : st S E unit := fun _ => (s, Ok tt).
Definition st_modify {S E} (f : S -> S) : st S E unit := fun s => (f s, Ok tt).
Definition st_gets {S E A} (f : S -> A) : st S E A := fun s => (s, Ok (f s)).
Definition st_throw {S E A} (e : E) : st S E A := fun s => (s, Err e).
Definition st_lift {S E A} (m : result E A) : st S E A := fun s => (s, m).

Fixpoint st_iter {S E A} (f : A -> st S E unit) (l : list A) : st S E unit :=
  match l with
  | [] => mret tt
  | x :: l => _ ← f x; st_iter f l
  end.

(** [[f x for x in l]] with effects *)
Fixpoint st_map {S E A B} (f : A -> st S E B) (l : list A) : st S E (list B) :=
  match l with
  | [] => mret []
  | x :: l => y ← f x; ys ← st_map f l; mret (y :: ys)
  end.

(** ** Tactics *)

Create HintDb wiki.
Create HintDb wiki_rw.

(** Case analysis on every bind, guard and match of a hypothesis about a result. *)
Ltac inv_result_step H :=
  match type of H with
  | Ok _ = Ok _ => injection H as H
  | Err _ = Err _ => injection H as H
  | Ok _ = Err _ => discriminate H
  | Err _ = Ok _ => discriminate H
  | context [mbind _ ?m] =>
      let E := fresh "E" in
      destruct m eqn:E; cbn [mbind result_bind] in H; try discriminate H
  | context [ensure ?b _] =>
      let E := fresh "E" in
      destruct b eqn:E; cbn [ensure mbind result_bind] in H; try discriminate H
  end.
Ltac inv_result H := repeat (inv_result_step H).

(** Runs a chain whose steps are known to succeed. *)
Ltac replay :=
  repeat match goal with
  | |- mbind _ ?m = _ => match goal with E : m = Ok _ |- _ => rewrite E; cbn [mbind result_bind fst snd] end
  end.

Ltac split_and_bool :=
  repeat match goal with
  | H : (_ && _) = true |- _ => apply andb_true_iff in H as [? ?]
  | H : negb _ = true |- _ => apply negb_true_iff in H
  | H : negb _ = false |- _ => apply negb_false_iff in H
  | H : bool_decide _ = true |- _ => apply bool_decide_eq_true in H
  | H : bool_decide _ = false |- _ => apply bool_decide_eq_false in H
  end.

Lemma ensure_ok {E} (b : bool) (e : E) u : ensure b e = Ok u <-> b = true.
Proof. destruct b, u; cbn; naive_solver. Qed.

Lemma bind_ok {E A B} (m : result E A) (f : A -> result E B) b :
  (m ≫= f) = Ok b <-> exists a, m = Ok a /\ f a = Ok b.
Proof. destruct m; cbn; naive_solver. Qed.

(** Splits a chain of checks into its steps. *)
Ltac inv_checks H :=
  inv_result H; repeat match goal with E : ensure _ _ = Ok _ |- _ => apply ensure_ok in E end.

Lemma reraise_ok {E E' A} (e : E') (m : result E A) a :
  reraise e m = Ok a <-> m = Ok a.
Proof. destruct m; cbn; naive_solver. Qed.

Lemma map_err_ok {E E' A} (f : E -> E') (m : result E A) a : map_err f m = Ok a <-> m = Ok a.
Proof. destruct m; cbn; naive_solver. Qed.

Lemma map_result_ok {E A B} (f : A -> result E B) l ys :
  map_result f l = Ok ys <-> Forall2 (fun x y => f x = Ok y) l ys.
Proof.
  revert ys; induction l as [|x l IH]; intros ys; cbn [map_result].
  - split; [intros [= <-]; constructor | intros H; inversion H; auto].
  - rewrite bind_ok; split.
    + intros (y & Hy & H). apply bind_ok in H as (ys' & Hys & [= <-]).
      constructor; [done | by apply IH].
    + intros H; inversion H as [|? y ? ys' Hy Hys]; subst.
      exists y; split; [done|]. apply bind_ok; exists ys'; split; [by apply IH | done].
Qed.

Lemma st_bind_ok {S E A B} (m : st S E A) (f : A -> st S E B) (s s' : S) b :
  (m ≫= f) s = (s', Ok b) <-> exists s1 a, m s = (s1, Ok a) /\ f a s1 = (s', Ok b).
Proof. unfold mbind, st_bind. destruct (m s) as [s1 [a|e]]; naive_solver. Qed.

(** One step whose outcome is known. *)
Lemma st_bind_run {S E A B} (m : st S E A) (f : A -> st S E B) s s1 a :
  m s = (s1, Ok a) -> (m ≫= f) s = f a s1.
Proof. unfold mbind, st_bind. by intros ->. Qed.

Lemma st_bind_err {S E A B} (m : st S E A) (f : A -> st S E B) s s1 e :
  m s = (s1, Err e) -> (m ≫= f) s = (s1, Err e).
Proof. unfold mbind, st_bind. by intros ->. Qed.

Lemma of_option_ok {E A} (e : E) (o : option A) a : of_option e o = Ok a <-> o = Some a.
Proof. destruct o; cbn; naive_solver. Qed.

Lemma NoDup_filtered {A} (p : A -> bool) l : NoDup l -> NoDup (List.filter p l).
Proof. rewrite !NoDup_ListNoDup. apply List.NoDup_filter. Qed.

Lemma st_lift_ok {S E A} (m : result E A) (s s' : S) a : st_lift m s = (s', Ok a) <-> s' = s /\ m = Ok a.
Proof. unfold st_lift. naive_solver. Qed.

(** What each step returns, all the returned values satisfy. *)
Lemma st_map_all {S E A B} (Q : A -> B -> Prop) (f : A -> st S E B) l s s' ys :
  (forall x s s' y, x ∈ l -> f x s = (s', Ok y) -> Q x y) -> st_map f l s = (s', Ok ys) -> Forall2 Q l ys.
Proof.
  revert s ys; induction l as [|x l IH]; intros s ys Hf; cbn [st_map].
  - intros [= <- <-]. constructor.
  - rewrite st_bind_ok. intros (s1 & y & Hy & H). apply st_bind_ok in H as (s2 & ys' & Hys & [= <- <-]).
    constructor; [eapply Hf; [by left | done]|]. eapply IH; [|done]. intros x' s3 s4 y' Hx. apply Hf. by right.
Qed.

(** The errors a computation may raise. *)
Definition errs {E A} (P : E -> Prop) (m : result E A) : Prop := forall e, m = Err e -> P e.

Lemma errs_ok {E A} (P : E -> Prop) (a : A) : errs P (Ok a).
Proof. done. Qed.
Lemma errs_err {E A} (P : E -> Prop) e : P e -> errs (A := A) P (Err e).
Proof. by intros ? ? [= <-]. Qed.
Lemma errs_bind {E A B} (P : E -> Prop) (m : result E A) (f : A -> result E B) :
  errs P m -> (forall a, m = Ok a -> errs P (f a)) -> errs P (m ≫= f).
Proof. unfold errs. destruct m; cbn; [eauto | naive_solver]. Qed.
Lemma errs_ensure {E} (P : E -> Prop) c e : P e -> errs P (ensure c e).
Proof. unfold errs. destruct c; cbn; [done | by intros ? ? [= <-]]. Qed.
Lemma errs_option {E A} (P : E -> Prop) (o : option A) e : P e -> errs P (of_option e o).
Proof. unfold errs. destruct o; cbn; [done | by intros ? ? [= <-]]. Qed.
Lemma errs_reraise {E E' A} (P : E -> Prop) (m : result E' A) e : P e -> errs P (reraise e m).
Proof. unfold errs. destruct m; cbn; [done | by intros ? ? [= <-]]. Qed.
#[export] Hint Resolve errs_ok errs_err errs_bind errs_ensure errs_option errs_reraise : wiki.

(** Computations whose effects, errors included, stay within a preorder on states. *)
Section Keeps.
Context {S E : Type} (P : S -> S -> Prop) `{!PreOrder P}.

Definition keeps {A} (m : st S E A) : Prop := forall s, P s (m s).1.

Lemma keeps_at_bind {A B} (m : st S E A) (f : A -> st S E B) s :
  P s (m s).1 -> (forall s1 a, m s = (s1, Ok a) -> P s1 (f a s1).1) -> P s ((m ≫= f) s).1.
Proof using PreOrder0.
  intros Hm Hf. unfold mbind, st_bind. destruct (m s) as [s1 [a|e]] eqn:Em; cbn in *; [|done].
  etrans; [exact Hm | by apply Hf].
Qed.

Lemma keeps_bind {A B} (m : st S E A) (f : A -> st S E B) :
  keeps m -> (forall a, keeps (f a)) -> keeps (m ≫= f).
Proof using PreOrder0. intros Hm Hf s. apply keeps_at_bind; [apply Hm | intros s1 a _; apply Hf]. Qed.

Lemma keeps_pure {A} (m : st S E A) : (forall s, (m s).1 = s) -> keeps m.
Proof using PreOrder0. intros Hm s. by rewrite Hm. Qed.

Lemma keeps_iter {A} (f : A -> st S E unit) l : (forall a, keeps (f a)) -> keeps (st_iter f l).
Proof using PreOrder0.
  intros Hf. induction l as [|x l IH]; [by apply keeps_pure|]. cbn. by apply keeps_bind.
Qed.
End Keeps.

(** ** Python strings.

    A [str] is represented by its UTF-8 encoding, so that [.encode("utf-8")] is the
    identity and Python's code point order is the lexicographic order of the bytes. *)

Definition str_leb (s t : string) : bool := String.leb s t.
Definition str_ltb (s t : string) : bool := negb (String.leb t s).

Lemma str_leb_le s t : str_leb s t = true <-> (s ≤ t)%string.
Proof. unfold str_leb, String.le. by rewrite Is_true_true. Qed.

Lemma str_leb_refl s : str_leb s s = true.
Proof. by apply str_leb_le. Qed.

Lemma str_leb_trans s t u : str_leb s t = true -> str_leb t u = true -> str_leb s u = true.
Proof. rewrite !str_leb_le. by intros; etrans. Qed.

Lemma str_leb_total s t : str_leb s t = true \/ str_leb t s = true.
Proof. rewrite !str_leb_le. apply total, _. Qed.

Lemma str_leb_antisym s t : str_leb s t = true -> str_leb t s = true -> s = t.
Proof. rewrite !str_leb_le. intros; by apply (anti_symm (String.le)). Qed.

#[export] Hint Resolve str_leb_refl str_leb_trans str_leb_total str_leb_antisym : wiki.

Definition str_nonempty (s : string) : bool := negb (String.eqb s "").

Fixpoint str_mem (x : string) (l : list string) : bool :=
  match l with [] => false | y :: l => String.eqb x y || str_mem x l end.

Lemma str_mem_spec x l : str_mem x l = true <-> x ∈ l.
Proof.
  induction l as [|y l IH]; cbn.
  - split; [done | by intros ?%not_elem_of_nil].
  - rewrite orb_true_iff, IH, String.eqb_eq, elem_of_cons. done.
Qed.

(** ** Python's [sorted]: a stable sort, here an insertion sort over a boolean order. *)
Section Sort.
Context {A : Type} (leb : A -> A -> bool).

Fixpoint sort_insert (x : A) (l : list A) : list A :=
  match l with
  | [] => [x]
  | y :: l' => if leb x y then x :: y :: l' else y :: sort_insert x l'
  end.

Fixpoint py_sort (l : list A) : list A :=
  match l with [] => [] | x :: l => sort_insert x (py_sort l) end.

Lemma sort_insert_perm x l : sort_insert x l ≡ₚ x :: l.
Proof.
  induction l as [|y l IH]; cbn; [done|].
  destruct (leb x y); [done|]. rewrite IH. by constructor.
Qed.

Lemma py_sort_perm l : py_sort l ≡ₚ l.
Proof. induction l as [|x l IH]; cbn; [done|]. by rewrite sort_insert_perm, IH. Qed.

Lemma py_sort_length l : length (py_sort l) = length l.
Proof. apply Permutation_length, py_sort_perm. Qed.

Lemma py_sort_elem x l : x ∈ py_sort l <-> x ∈ l.
Proof. by rewrite py_sort_perm. Qed.

Definition ordered : list A -> Prop := StronglySorted (fun x y => leb x y = true).

Hypothesis leb_total : forall x y, leb x y = true \/ leb y x = true.
Hypothesis leb_trans : forall x y z, leb x y = true -> leb y z = true -> leb x z = true.

Lemma sort_insert_ordered x l : ordered l -> ordered (sort_insert x l).
Proof using leb_total leb_trans.
  unfold ordered. induction 1 as [|y l Hl IH Hy]; cbn; [by repeat constructor|].
  destruct (leb x y) eqn:E.
  - constructor; [by constructor|]. constructor; [done|].
    rewrite list.Forall_forall in Hy |- *. eauto.
  - constructor; [done|]. rewrite list.Forall_forall in Hy |- *.
    intros z Hz. rewrite sort_insert_perm in Hz. apply elem_of_cons in Hz as [->|Hz].
    + destruct (leb_total x y); congruence.
    + by apply Hy.
Qed.

Lemma py_sort_ordered l : ordered (py_sort l).
Proof using leb_total leb_trans.
  induction l as [|x l IH]; [constructor|]. by apply sort_insert_ordered.
Qed.

Lemma sort_insert_head x l : Forall (fun y => leb x y = true) l -> sort_insert x l = x :: l.
Proof. destruct 1 as [|y l Hy Hl]; cbn; [done|]. by rewrite Hy. Qed.

Lemma py_sort_id l : ordered l -> py_sort l = l.
Proof.
  induction 1 as [|x l Hl IH Hx]; cbn; [done|]. rewrite IH. by apply sort_insert_head.
Qed.

Lemma py_sort_idem l : py_sort (py_sort l) = py_sort l.
Proof using leb_total leb_trans. apply py_sort_id, py_sort_ordered. Qed.

(** Two ordered permutations coincide when ties are equal elements. *)
Lemma ordered_unique l l' :
  (forall x y, x ∈ l -> y ∈ l -> leb x y = true -> leb y x = true -> x = y) ->
  ordered l -> ordered l' -> l ≡ₚ l' -> l = l'.
Proof using leb_total.
  assert (Hr : forall x, leb x x = true) by (intros x; destruct (leb_total x x); done).
  intros Ha Hl; revert l' Ha.
  induction Hl as [|x l Hl IH Hx]; intros l' Ha Hl' Hp.
  - symmetry. by apply Permutation_nil.
  - destruct Hl' as [|y l' Hl' Hy]; [by apply Permutation_sym, Permutation_nil in Hp|].
    assert (x = y) as <-.
    { assert (Hxin : x ∈ y :: l') by (rewrite <- Hp; left).
      assert (Hyin : y ∈ x :: l) by (rewrite Hp; left).
      rewrite list.Forall_forall in Hx, Hy.
      apply Ha; [left | done | |].
      - apply elem_of_cons in Hyin as [->|]; auto.
      - apply elem_of_cons in Hxin as [->|]; auto. }
    f_equal. apply IH; [|done|by apply Permutation_cons_inv in Hp].
    intros a b ??. apply Ha; by right.
Qed.

Lemma py_sort_unique l l' :
  (forall x y, x ∈ l -> y ∈ l -> leb x y = true -> leb y x = true -> x = y) ->
  l ≡ₚ l' -> py_sort l = py_sort l'.
Proof using leb_total leb_trans.
  intros Ha Hp. apply ordered_unique; try apply py_sort_ordered.
  - intros x y. rewrite !py_sort_elem. apply Ha.
  - by rewrite !py_sort_perm.
Qed.
End Sort.

(** [sorted(values)] on strings and [sorted(values, key=...)] on a string key. *)
Definition sort_str : list string -> list string := py_sort str_leb.
Definition sort_on {A} (key : A -> string) : list A -> list A :=
  py_sort (fun x y => str_leb (key x) (key y)).

(** [tuple(sorted(set(l)))] *)
Definition sorted_unique (l : list string) : list string := sort_str (elements (list_to_set l : gset string)).

Lemma sorted_unique_elem x l : x ∈ sorted_unique l <-> x ∈ l.
Proof. unfold sorted_unique, sort_str. by rewrite py_sort_elem, elem_of_elements, elem_of_list_to_set. Qed.

Lemma sorted_unique_NoDup l : NoDup (sorted_unique l).
Proof. unfold sorted_unique, sort_str. rewrite py_sort_perm. apply NoDup_elements. Qed.

Lemma sorted_unique_idem l : sorted_unique (sorted_unique l) = sorted_unique l.
Proof.
  unfold sorted_unique at 1 3. apply py_sort_unique; [eauto with wiki..|].
  apply NoDup_Permutation; [apply NoDup_elements..|]. intros x.
  by rewrite !elem_of_elements, !elem_of_list_to_set, sorted_unique_elem.
Qed.

(** The order of pairs of strings: Python's tuple comparison. *)
Definition pair_leb (p q : string * string) : bool :=
  if String.eqb p.1 q.1 then str_leb p.2 q.2 else str_leb p.1 q.1.

Lemma sort_str_perm l l' : l ≡ₚ l' -> sort_str l = sort_str l'.
Proof. intros; apply py_sort_unique; eauto with wiki. Qed.

Lemma sort_str_ordered l : ordered str_leb (sort_str l).
Proof. apply py_sort_ordered; eauto with wiki. Qed.

Lemma sort_on_perm {A} (key : A -> string) l l' :
  (forall x y, x ∈ l -> y ∈ l -> key x = key y -> x = y) ->
  l ≡ₚ l' -> sort_on key l = sort_on key l'.
Proof.
  intros Hk Hp. apply py_sort_unique; [eauto with wiki|eauto with wiki| |done].
  intros x y Hx Hy ? ?. apply Hk; eauto with wiki.
Qed.

Lemma pair_leb_total p q : pair_leb p q = true \/ pair_leb q p = true.
Proof.
  destruct p as [a b], q as [c d]; unfold pair_leb; cbn.
  destruct (String.eqb_spec a c) as [->|Hn].
  - rewrite String.eqb_refl. eauto with wiki.
  - destruct (String.eqb_spec c a); [congruence|]. eauto with wiki.
Qed.

Lemma pair_leb_antisym p q : pair_leb p q = true -> pair_leb q p = true -> p = q.
Proof.
  destruct p as [a b], q as [c d]; unfold pair_leb; cbn.
  destruct (String.eqb_spec a c) as [->|Hn].
  - rewrite String.eqb_refl. intros; f_equal; eauto with wiki.
  - destruct (String.eqb_spec c a); [congruence|]. intros; exfalso; eauto with wiki.
Qed.

Lemma pair_leb_trans p q r : pair_leb p q = true -> pair_leb q r = true -> pair_leb p r = true.
Proof.
  destruct p as [a b], q as [c d], r as [e f]; unfold pair_leb; cbn.
  destruct (String.eqb_spec a c), (String.eqb_spec c e), (String.eqb_spec a e);
    subst; try congruence; eauto with wiki.
Qed.
#[export] Hint Resolve pair_leb_total pair_leb_antisym pair_leb_trans : wiki.

(** ** Canonical decimal numbers: [str(n)] and [int(s)] on digit strings. *)

Definition str_of_N (n : N) : string := NilZero.string_of_uint (N.to_uint n).
Definition str_of_nat (n : nat) : string := str_of_N (N.of_nat n).
Definition int_of_str (s : string) : option N := N.of_uint <$> NilZero.uint_of_string s.

(** [int] refuses longer digit strings. *)
Definition INT_MAX_STR_DIGITS : nat := 4300.

Lemma to_uint_nonnil n : N.to_uint n <> Decimal.Nil.
Proof.
  destruct n as [|p]; cbn; [done|]. intros H.
  pose proof (DecimalN.Unsigned.of_to (Npos p)) as Hp. cbn in Hp. rewrite H in Hp. done.
Qed.

Lemma int_of_str_of_N n : int_of_str (str_of_N n) = Some n.
Proof.
  unfold int_of_str, str_of_N. rewrite NilZero.usu by apply to_uint_nonnil.
  cbn. f_equal. apply DecimalN.Unsigned.of_to.
Qed.

Lemma str_of_N_inj n m : str_of_N n = str_of_N m -> n = m.
Proof. intros H. pose proof (int_of_str_of_N n) as Hn. rewrite H, int_of_str_of_N in Hn. congruence. Qed.

(** A digit string that does not start with "0" is at least 1. *)
Lemma int_of_str_positive c s n :
  ((49 <=? N_of_ascii c) && (N_of_ascii c <=? 57))%N = true -> int_of_str (String c s) = Some n -> (1 <= n)%N.
Proof.
  unfold int_of_str. cbn [NilZero.uint_of_string]. intros Hc Hn. apply fmap_Some in Hn as (d & Hd & ->).
  cbn [NilEmpty.uint_of_string] in Hd. destruct (NilEmpty.uint_of_string s) as [u|].
  2:{ destruct c as [[] [] [] [] [] [] [] []]; discriminate Hd. }
  enough (N.of_uint d <> 0%N) by lia. intros H0.
  pose proof (DecimalN.Unsigned.to_of d) as Hu. rewrite H0 in Hu.
  destruct c as [[] [] [] [] [] [] [] []]; try discriminate Hc; injection Hd as <-; discriminate Hu.
Qed.

(** ** Association lists: Python dicts whose insertion order is observable. *)
Section Assoc.
Context {V : Type}.

Fixpoint assoc (k : string) (l : list (string * V)) : option V :=
  match l with
  | [] => None
  | (k', v) :: l => if String.eqb k k' then Some v else assoc k l
  end.

Fixpoint assoc_set (k : string) (v : V) (l : list (string * V)) : list (string * V) :=
  match l with
  | [] => [(k, v)]
  | (k', v') :: l => if String.eqb k k' then (k', v) :: l else (k', v') :: assoc_set k v l
  end.

Lemma assoc_set_eq k v l : assoc k (assoc_set k v l) = Some v.
Proof.
  induction l as [|[k' v'] l IH]; cbn; [by rewrite String.eqb_refl|].
  destruct (String.eqb_spec k k') as [->|Hn]; cbn; [by rewrite String.eqb_refl|].
  destruct (String.eqb_spec k k'); [congruence | done].
Qed.

Lemma assoc_set_ne k k' v l : k <> k' -> assoc k' (assoc_set k v l) = assoc k' l.
Proof.
  intros Hn. induction l as [|[k0 v0] l IH]; cbn.
  - destruct (String.eqb_spec k' k); [congruence | done].
  - destruct (String.eqb_spec k k0) as [->|]; cbn; destruct (String.eqb_spec k' k0); congruence.
Qed.

Lemma assoc_None k l : assoc k l = None <-> k ∉ l.*1.
Proof.
  induction l as [|[k' v] l IH]; cbn; [split; [intros _; apply not_elem_of_nil | done]|].
  rewrite not_elem_of_cons. destruct (String.eqb_spec k k'); naive_solver.
Qed.

Lemma assoc_Some_elem k v l : assoc k l = Some v -> (k, v) ∈ l.
Proof.
  induction l as [|[k' v'] l IH]; cbn; [done|].
  destruct (String.eqb_spec k k') as [->|]; [intros [= ->]; left | intros; right; auto].
Qed.

Lemma elem_assoc k v l : NoDup l.*1 -> (k, v) ∈ l -> assoc k l = Some v.
Proof.
  induction l as [|[k' v'] l IH]; cbn; intros Hnd Hin; [by apply elem_of_nil in Hin|].
  apply list.NoDup_cons in Hnd as [Hk Hnd]. apply elem_of_cons in Hin as [[= -> ->]|Hin].
  - by rewrite String.eqb_refl.
  - destruct (String.eqb_spec k k') as [->|]; [|auto].
    exfalso; apply Hk, list_elem_of_fmap. exists (k', v); auto.
Qed.

Lemma assoc_set_keys k (v : V) l k' :
  k' ∈ (assoc_set k v l).*1 <-> k' = k \/ k' ∈ l.*1.
Proof.
  induction l as [|[k0 v0] l IH]; cbn [assoc_set].
  - cbn. rewrite list_elem_of_singleton, elem_of_nil. tauto.
  - destruct (String.eqb_spec k k0) as [->|]; cbn; rewrite !elem_of_cons; [tauto|]. rewrite IH. tauto.
Qed.

Lemma assoc_set_NoDup k (v : V) l : NoDup l.*1 -> NoDup (assoc_set k v l).*1.
Proof.
  induction l as [|[k0 v0] l IH]; cbn [assoc_set]; intros Hnd; [cbn; apply NoDup_singleton|].
  cbn in Hnd. apply list.NoDup_cons in Hnd as [Hn Hnd].
  destruct (String.eqb_spec k k0) as [->|Hk]; cbn; apply list.NoDup_cons; split; auto.
  rewrite assoc_set_keys. intros [->|?]; done.
Qed.
End Assoc.

Lemma assoc_perm {A} (l l' : list (string * A)) k :
  NoDup l.*1 -> l ≡ₚ l' -> assoc k l = assoc k l'.
Proof.
  intros Hnd Hp. assert (Hnd' : NoDup l'.*1) by by rewrite <- Hp.
  destruct (assoc k l) as [v|] eqn:E.
  - symmetry. apply elem_assoc; [done|]. rewrite <- Hp. by apply assoc_Some_elem.
  - symmetry. apply assoc_None. apply assoc_None in E. by rewrite <- Hp.
Qed.

Lemma sort_on_perm_self {A} (key : A -> string) l : sort_on key l ≡ₚ l.
Proof. apply py_sort_perm. Qed.

(** [len(set(l)) == len(l)]. *)
Definition str_unique (l : list string) : bool := bool_decide (NoDup l).

(** ** [str.strip]: the whitespace characters of Unicode, on their UTF-8 bytes *)

Definition ws1 (a : ascii) : bool :=
  let n := N_of_ascii a in
  ((9 <=? n) && (n <=? 13) || (28 <=? n) && (n <=? 32))%N.
Definition ws2 (a b : ascii) : bool :=
  (N_of_ascii a =? 194)%N && ((N_of_ascii b =? 133) || (N_of_ascii b =? 160))%N.
Definition ws3 (a b c : ascii) : bool :=
  let '(a, b, c) := (N_of_ascii a, N_of_ascii b, N_of_ascii c) in
  ((a =? 225) && (b =? 154) && (c =? 128)
   || (a =? 226) && (b =? 128) && ((128 <=? c) && (c <=? 138) || (c =? 168) || (c =? 169) || (c =? 175))
   || (a =? 226) && (b =? 129) && (c =? 159)
   || (a =? 227) && (b =? 128) && (c =? 128))%N.

Fixpoint py_lstrip (s : string) : string :=
  match s with
  | EmptyString => s
  | String a s1 =>
      if ws1 a then py_lstrip s1
      else match s1 with
           | EmptyString => s
           | String b s2 =>
               if ws2 a b then py_lstrip s2
               else match s2 with
                    | EmptyString => s
                    | String c s3 => if ws3 a b c then py_lstrip s3 else s
                    end
           end
  end.

Fixpoint py_rstrip (s : string) : string :=
  match s with
  | EmptyString => EmptyString
  | String a s1 => if str_nonempty (py_lstrip s) then String a (py_rstrip s1) else EmptyString
  end.

Definition py_strip (s : string) : string := py_rstrip (py_lstrip s).

(** ** Tuples of strings as sort keys: Python's lexicographic comparison *)

Fixpoint lex_leb (s t : list string) : bool :=
  match s, t with
  | [], _ => true
  | _, [] => false
  | x :: s, y :: t => if String.eqb x y then lex_leb s t else str_leb x y
  end.

Lemma lex_leb_total s t : lex_leb s t = true \/ lex_leb t s = true.
Proof.
  revert t; induction s as [|x s IH]; intros [|y t]; cbn; auto.
  rewrite (String.eqb_sym y x). destruct (String.eqb_spec x y); [apply IH | apply str_leb_total].
Qed.

Lemma lex_leb_antisym s t : lex_leb s t = true -> lex_leb t s = true -> s = t.
Proof.
  revert t; induction s as [|x s IH]; intros [|y t]; cbn; try done.
  rewrite (String.eqb_sym y x). destruct (String.eqb_spec x y) as [->|Hn].
  - intros; f_equal; eauto.
  - intros; exfalso; eauto with wiki.
Qed.

Lemma lex_leb_trans s t u : lex_leb s t = true -> lex_leb t u = true -> lex_leb s u = true.
Proof.
  revert t u; induction s as [|x s IH]; intros [|y t] [|z u]; cbn; try done.
  destruct (String.eqb_spec x y), (String.eqb_spec y z), (String.eqb_spec x z);
    subst; try congruence; eauto with wiki.
Qed.
#[export] Hint Resolve lex_leb_total lex_leb_antisym lex_leb_trans : wiki.

(** [sorted(values, key=...)] on a tuple of strings. *)
Definition sort_on_tuple {A} (key : A -> list string) : list A -> list A :=
  py_sort (fun x y => lex_leb (key x) (key y)).

Lemma sort_on_tuple_perm {A} (key : A -> list string) l l' :
  (forall x y, x ∈ l -> y ∈ l -> key x = key y -> x = y) ->
  l ≡ₚ l' -> sort_on_tuple key l = sort_on_tuple key l'.
Proof.
  intros Hk Hp. apply py_sort_unique; [eauto with wiki|eauto with wiki| |done].
  intros x y Hx Hy ? ?. apply Hk; eauto with wiki.
Qed.

(** ** Substrings and characters *)

(** [k in s] *)
Fixpoint str_contains (k s : string) : bool :=
  String.prefix k s || match s with EmptyString => false | String _ s => str_contains k s end.

Definition is_continuation (c : ascii) : bool :=
  (128 <=? N_of_ascii c)%N && (N_of_ascii c <? 192)%N.

(** The characters of a [str]: its UTF-8 bytes, grouped. *)
Fixpoint chars (s : string) : list string :=
  match s with
  | EmptyString => []
  | String c s =>
      let rest := chars s in
      match s, rest with
      | String d _, x :: xs => if is_continuation d then String c x :: xs else String c "" :: rest
      | _, _ => [String c ""]
      end
  end.

Definition starts_char (s : string) : bool :=
  match s with EmptyString => true | String c _ => negb (is_continuation c) end.

Lemma chars_two c d s :
  chars (String c (String d s)) =
  match chars (String d s) with
  | x :: xs => if is_continuation d then String c x :: xs else String c "" :: x :: xs
  | [] => [String c ""]
  end.
Proof.
  change (chars (String c (String d s))) with
    (match chars (String d s) with
     | x :: xs => if is_continuation d then String c x :: xs else String c "" :: chars (String d s)
     | [] => [String c ""]
     end).
  by destruct (chars (String d s)).
Qed.

Lemma chars_nonempty d s : exists x xs, chars (String d s) = x :: xs.
Proof.
  revert d; induction s as [|e s IH]; intros d; [by eexists _, _|].
  rewrite chars_two. destruct (IH e) as (x & xs & ->). destruct (is_continuation e); by eexists _, _.
Qed.

Lemma chars_cons c s : starts_char s = true -> chars (String c s) = String c "" :: chars s.
Proof.
  destruct s as [|d s]; [done|]. cbn [starts_char]. intros Hs%negb_true_iff.
  rewrite chars_two. destruct (chars_nonempty d s) as (x & xs & ->). by rewrite Hs.
Qed.

Lemma chars_app s t : starts_char t = true -> chars (s +:+ t) = (chars s ++ chars t)%list.
Proof.
  intros Ht. induction s as [|c s IH]; [done|].
  change (String c s +:+ t) with (String c (s +:+ t)). destruct s as [|d s].
  - change ("" +:+ t)%string with t. by rewrite chars_cons.
  - change (String d s +:+ t) with (String d (s +:+ t)) in *. rewrite !chars_two, IH.
    destruct (chars_nonempty d s) as (x & xs & ->). cbn [app]. by destruct (is_continuation d).
Qed.
