(* ===== verification/Digest.v ===== *)
(** * The digest the code relies on

    [hashlib.sha256] enters the development through the class [Digest]: a total function
    from bytes to 32 raw bytes.  No theorem assumes that it is injective, which no function
    to 32 bytes is; statements that rest on collision resistance say "equal inputs, or two of
    the byte strings hashed on the way collide" ([collision]), with those strings listed.
    [Sha256.sha256_digest] is the concrete instance. *)
From S2P Require Import Prelude.

Class Digest : Type := {
  sha256 : string -> string;
  sha256_length : forall s, String.length (sha256 s) = 32;
}.

(** Among the byte strings [K], which a computation hashed, two distinct ones have the same
    digest.  The list matters: somewhere among all byte strings every such function has
    collisions, but a few given strings collide only if one was found. *)
Definition collision {D : Digest} (K : list string) : Prop :=
  exists a b : string, a ∈ K /\ b ∈ K /\ a <> b /\ sha256 a = sha256 b.

#[export] Instance collision_dec {D : Digest} K : Decision (collision K).
Proof.
  refine (cast_if (decide (Exists (fun a => Exists (fun b => a <> b /\ sha256 a = sha256 b) K) K)));
    [rename e into H | rename n into H]; rewrite list.Exists_exists in H; setoid_rewrite list.Exists_exists in H;
    unfold collision; naive_solver.
Defined.

#[export] Instance collision_proper {D : Digest} : Proper ((⊆) ==> impl) collision.
Proof. intros K K' HK (a & b & Ha & Hb & H). exists a, b. auto. Qed.

Lemma collision_sub {D : Digest} K K' : collision K -> K ⊆ K' -> collision K'.
Proof. intros Hc HK. by rewrite <- HK. Qed.

Lemma collision_2 {D : Digest} a b : a <> b -> sha256 a = sha256 b -> collision [a; b].
Proof. intros Hn E. exists a, b. split; [|split]; [left | right; left | done]. Qed.

Lemma sha256_inj_in {D : Digest} K a b : a ∈ K -> b ∈ K -> sha256 a = sha256 b -> a = b \/ collision K.
Proof. destruct (decide (a = b)); [by left | right; by exists a, b]. Qed.

Lemma sha256_inj_or {D : Digest} a b : sha256 a = sha256 b -> a = b \/ collision [a; b].
Proof. destruct (decide (a = b)); [by left | right; by apply collision_2]. Qed.

(** ** Lowercase hexadecimal, as [bytes.hex] and [hexdigest] print it. *)

Definition hex_digit (n : N) : ascii :=
  ascii_of_N (if (n <? 10)%N then 48 + n else 87 + n).

Definition is_hex_char (c : ascii) : bool :=
  let n := N_of_ascii c in
  ((48 <=? n)%N && (n <=? 57)%N) || ((97 <=? n)%N && (n <=? 102)%N).

Fixpoint hex (s : string) : string :=
  match s with
  | EmptyString => EmptyString
  | String c s =>
      let n := N_of_ascii c in
      String (hex_digit (n / 16)) (String (hex_digit (n mod 16)) (hex s))
  end.

Fixpoint str_forall (p : ascii -> bool) (s : string) : bool :=
  match s with EmptyString => true | String c s => p c && str_forall p s end.

(** [re.fullmatch(r"[0-9a-f]{64}", s)]. *)
Definition is_hex64 (s : string) : bool :=
  (String.length s =? 64)%nat && str_forall is_hex_char s.

(** [sha256(data).hexdigest()]. *)
Definition sha256_hex {D : Digest} (data : string) : string := hex (sha256 data).

Lemma hex_digit_inj n m :
  (n < 16)%N -> (m < 16)%N -> hex_digit n = hex_digit m -> n = m.
Proof.
  intros Hn Hm He. apply (f_equal N_of_ascii) in He. unfold hex_digit in He.
  destruct (N.ltb_spec n 10), (N.ltb_spec m 10);
    rewrite !N_ascii_embedding in He by lia; lia.
Qed.

Lemma hex_digit_is_hex n : (n < 16)%N -> is_hex_char (hex_digit n) = true.
Proof.
  intros Hn. unfold is_hex_char, hex_digit. destruct (N.ltb_spec n 10);
    rewrite N_ascii_embedding by lia; rewrite orb_true_iff, !andb_true_iff, !N.leb_le; lia.
Qed.

Lemma N_of_ascii_lt c : (N_of_ascii c < 256)%N.
Proof. destruct c as [[] [] [] [] [] [] [] []]; vm_compute; reflexivity. Qed.

Lemma hex_inj s t : hex s = hex t -> s = t.
Proof.
  revert t; induction s as [|c s IH]; intros [|d t]; cbn; try done.
  intros [= H1 H2 H3]. f_equal; [|by apply IH].
  pose proof (N_of_ascii_lt c); pose proof (N_of_ascii_lt d).
  apply hex_digit_inj in H1; [|apply N.Div0.div_lt_upper_bound; lia..].
  apply hex_digit_inj in H2; [|apply N.mod_lt; lia..].
  rewrite <- (ascii_N_embedding c), <- (ascii_N_embedding d). f_equal.
  rewrite (N.div_mod (N_of_ascii c) 16), (N.div_mod (N_of_ascii d) 16) by lia.
  by rewrite H1, H2.
Qed.

Lemma hex_length s : String.length (hex s) = 2 * String.length s.
Proof. induction s as [|c s IH]; cbn; [done|]. rewrite IH. lia. Qed.

Lemma hex_forall s : str_forall is_hex_char (hex s) = true.
Proof.
  induction s as [|c s IH]; cbn; [done|]. pose proof (N_of_ascii_lt c).
  rewrite !hex_digit_is_hex, IH; [done|apply N.mod_lt; lia|apply N.Div0.div_lt_upper_bound; lia].
Qed.

Lemma sha256_hex_is_hex64 {D : Digest} s : is_hex64 (sha256_hex s) = true.
Proof.
  unfold is_hex64, sha256_hex. by rewrite hex_length, sha256_length, hex_forall.
Qed.

Lemma sha256_hex_inj_or {D : Digest} a b : sha256_hex a = sha256_hex b -> a = b \/ collision [a; b].
Proof. intros H1%hex_inj. by apply sha256_inj_or. Qed.

Lemma sha256_hex_nonempty {D : Digest} s : str_nonempty (sha256_hex s) = true.
Proof.
  pose proof (hex_length (sha256 s)) as Hl. rewrite sha256_length in Hl.
  unfold str_nonempty, sha256_hex. destruct (hex (sha256 s)); done.
Qed.

#[export] Hint Resolve sha256_hex_is_hex64 sha256_hex_nonempty : wiki.
#[export] Hint Rewrite @sha256_length @hex_length @hex_forall : wiki_rw.

(** ** A small concrete digest, for evaluating examples by hand

    It pads or truncates to 32 bytes: collisions are easy to exhibit, which is what the
    "or a collision" statements must allow for. *)

Fixpoint str_fit (n : nat) (s : string) : string :=
  match n, s with
  | 0, _ => ""
  | S n, EmptyString => String "000"%char (str_fit n "")
  | S n, String c s => String c (str_fit n s)
  end.

Lemma str_fit_length n s : String.length (str_fit n s) = n.
Proof. revert s; induction n as [|n IH]; intros [|c s]; cbn; congruence. Qed.

Definition pad_digest : Digest :=
  {| sha256 := fun s => str_fit 32 s; sha256_length := str_fit_length 32 |}.
