(* ===== verification/Sha256.v ===== *)
(** * SHA-256 (FIPS 180-4) as an executable instance of [Digest]

    The standard library's [hashlib.sha256], written out on 32-bit words in [N]. *)
From S2P Require Import Prelude Digest.
Local Open Scope N_scope.

Definition w32 (n : N) : N := n mod 4294967296.
Definition add32 (a b : N) : N := w32 (a + b).
Definition rotr (k x : N) : N := N.lor (N.shiftr x k) (w32 (N.shiftl x (32 - k))).
Definition ch (x y z : N) : N := N.lxor (N.land x y) (N.land (N.lxor x 4294967295) z).
Definition maj (x y z : N) : N := N.lxor (N.lxor (N.land x y) (N.land x z)) (N.land y z).
Definition bsig0 (x : N) : N := N.lxor (N.lxor (rotr 2 x) (rotr 13 x)) (rotr 22 x).
Definition bsig1 (x : N) : N := N.lxor (N.lxor (rotr 6 x) (rotr 11 x)) (rotr 25 x).
Definition ssig0 (x : N) : N := N.lxor (N.lxor (rotr 7 x) (rotr 18 x)) (N.shiftr x 3).
Definition ssig1 (x : N) : N := N.lxor (N.lxor (rotr 17 x) (rotr 19 x)) (N.shiftr x 10).

(** The constants are the first 32 fractional bits of the square and cube roots of the first
    primes; the cube root by bits, highest first. *)
Definition is_prime (n : nat) : bool :=
  (1 <? n)%nat && forallb (fun d => negb (n mod d =? 0)%nat) (seq 2 (n - 2)).

Definition primes : list N := N.of_nat <$> filter (fun n => is_prime n = true) (seq 2 310).

Fixpoint cube_root (bit : nat) (r n : N) : N :=
  let r' := r + 2 ^ N.of_nat bit in
  let r'' := if r' * r' * r' <=? n then r' else r in
  match bit with O => r'' | S bit => cube_root bit r'' n end.

Definition round_constants : list N :=
  Eval vm_compute in (fun p => w32 (cube_root 36 0 (p * 2 ^ 96))) <$> primes.

Definition hash_state : Type := N * N * N * N * N * N * N * N.

Definition initial_words : list N :=
  Eval vm_compute in (fun p => w32 (N.sqrt (p * 2 ^ 64))) <$> take 8 primes.

Definition initial_state : hash_state :=
  let w i := nth i initial_words 0 in (w 0%nat, w 1%nat, w 2%nat, w 3%nat, w 4%nat, w 5%nat, w 6%nat, w 7%nat).

(** The message schedule: [window] holds the last sixteen words, oldest first. *)
Fixpoint schedule (k : nat) (window : list N) : list N :=
  match k with
  | O => []
  | S k =>
      let w := add32 (add32 (ssig1 (nth 14 window 0)) (nth 9 window 0))
                     (add32 (ssig0 (nth 1 window 0)) (nth 0 window 0)) in
      w :: schedule k (tail window ++ [w])
  end.

Definition sha_round (s : hash_state) (kw : N * N) : hash_state :=
  let '(a, b, c, d, e, f, g, h) := s in
  let t1 := add32 (add32 h (bsig1 e)) (add32 (ch e f g) (add32 kw.1 kw.2)) in
  let t2 := add32 (bsig0 a) (maj a b c) in
  (add32 t1 t2, a, b, c, add32 d t1, e, f, g).

Definition state_add (s t : hash_state) : hash_state :=
  let '(a, b, c, d, e, f, g, h) := s in
  let '(a', b', c', d', e', f', g', h') := t in
  (add32 a a', add32 b b', add32 c c', add32 d d', add32 e e', add32 f f', add32 g g', add32 h h').

Definition compress (s : hash_state) (block : list N) : hash_state :=
  let ws := block ++ schedule 48 block in
  state_add s (foldl sha_round s (zip round_constants ws)).

(** Bytes to big-endian words, and sixteen words to a block. *)
Fixpoint to_words (bytes : list N) : list N :=
  match bytes with
  | a :: b :: c :: d :: rest => (a * 16777216 + b * 65536 + c * 256 + d) :: to_words rest
  | _ => []
  end.

Fixpoint blocks (fuel : nat) (ws : list N) : list (list N) :=
  match fuel, ws with
  | S fuel, _ :: _ => take 16 ws :: blocks fuel (drop 16 ws)
  | _, _ => []
  end.

Fixpoint bytes_of (s : string) : list N :=
  match s with EmptyString => [] | String c s => N_of_ascii c :: bytes_of s end.

Definition be_bytes (count : nat) (n : N) : list N :=
  (fun i => N.shiftr n (8 * N.of_nat i) mod 256) <$> rev (seq 0 count).

(** One bit, zeroes up to 56 modulo 64 bytes, then the bit length on 64 bits. *)
Definition pad_message (bytes : list N) : list N :=
  let len := N.of_nat (length bytes) in
  let zeroes := (119 - len mod 64) mod 64 in
  bytes ++ 128 :: replicate (N.to_nat zeroes) 0 ++ be_bytes 8 (8 * len).

Definition state_words (s : hash_state) : list N :=
  let '(a, b, c, d, e, f, g, h) := s in [a; b; c; d; e; f; g; h].

Definition string_of_bytes (l : list N) : string :=
  foldr (fun b s => String (ascii_of_N b) s) EmptyString l.

Definition sha256_raw (s : string) : string :=
  let msg := pad_message (bytes_of s) in
  let final := foldl compress initial_state (blocks (length msg) (to_words msg)) in
  string_of_bytes (state_words final ≫= be_bytes 4).

Lemma string_of_bytes_length l : String.length (string_of_bytes l) = length l.
Proof. unfold string_of_bytes. induction l as [|b l IH]; cbn; [done|]. by rewrite IH. Qed.

Lemma sha256_raw_length s : String.length (sha256_raw s) = 32%nat.
Proof.
  unfold sha256_raw. rewrite string_of_bytes_length.
  destruct (foldl compress _ _) as [[[[[[[? ?] ?] ?] ?] ?] ?] ?]. reflexivity.
Qed.

#[export] Instance sha256_digest : Digest :=
  {| sha256 := sha256_raw; sha256_length := sha256_raw_length |}.

(** The FIPS 180-4 test vector. *)
Example sha256_abc :
  sha256_hex "abc" = "ba7816bf8f01cfea414140de5dae2223b00361a396177a9cb410ff61f20015ad"%string.
Proof. vm_compute. reflexivity. Qed.
