(* ===== verification/Json.v ===== *)
(** * Canonical JSON text

    [json] is the JSON data without numbers that the code's canonical encoders produce
    ([JsonValue] of memory_core/contracts.py), an object being its list of members in
    insertion order.  [json_dumps] is
    [json.dumps(v, sort_keys=True, ensure_ascii=False, separators=(",", ":"))], written
    out from the standard library; [json_parse] reads such texts back. *)
From S2P Require Import Prelude Digest.
Open Scope string_scope.

Inductive json : Type :=
| JNull
| JBool (b : bool)
| JStr (s : string)
| JArr (l : list json)
| JObj (kvs : list (string * json)).

Section json_induction.
Variable P : json -> Prop.
Hypothesis Hnull : P JNull.
Hypothesis Hbool : forall b, P (JBool b).
Hypothesis Hstr : forall s, P (JStr s).
Hypothesis Harr : forall l, Forall P l -> P (JArr l).
Hypothesis Hobj : forall kvs, Forall (fun kv => P kv.2) kvs -> P (JObj kvs).

Fixpoint json_rect_nested (j : json) : P j :=
  match j with
  | JNull => Hnull
  | JBool b => Hbool b
  | JStr s => Hstr s
  | JArr l =>
      Harr l ((fix go l := match l return Forall P l with
               | [] => Forall_nil _
               | x :: l => Forall_cons _ _ _ (json_rect_nested x) (go l)
               end) l)
  | JObj kvs =>
      Hobj kvs ((fix go kvs := match kvs return Forall (fun kv => P kv.2) kvs with
                 | [] => Forall_nil _
                 | kv :: kvs => Forall_cons _ _ _ (json_rect_nested kv.2) (go kvs)
                 end) kvs)
  end.
End json_induction.

Fixpoint json_eqb (a b : json) {struct a} : bool :=
  match a, b with
  | JNull, JNull => true
  | JBool x, JBool y => Bool.eqb x y
  | JStr x, JStr y => String.eqb x y
  | JArr l, JArr l' =>
      (fix go l l' := match l, l' with
       | [], [] => true
       | x :: l, y :: l' => json_eqb x y && go l l'
       | _, _ => false
       end) l l'
  | JObj l, JObj l' =>
      (fix go (l l' : list (string * json)) := match l, l' with
       | [], [] => true
       | (k, x) :: l, (k', y) :: l' => String.eqb k k' && json_eqb x y && go l l'
       | _, _ => false
       end) l l'
  | _, _ => false
  end.

Lemma json_eqb_eq a b : json_eqb a b = true <-> a = b.
Proof.
  revert b; induction a as [|x|x|l IH|kvs IH] using json_rect_nested; intros b;
    destruct b as [|y|y|l'|l']; cbn; try (split; congruence).
  - rewrite Bool.eqb_true_iff. split; congruence.
  - rewrite String.eqb_eq. split; congruence.
  - trans (l = l'); [|split; congruence].
    revert l'; induction IH as [|x l Hx _ IH]; intros [|y l']; try (split; congruence).
    rewrite andb_true_iff, Hx, IH. split; [intros [-> ->]; done | by intros [= -> ->]].
  - trans (kvs = l'); [|split; congruence].
    revert l'; induction IH as [|[k x] l Hx _ IH]; intros [|[k' y] l']; try (split; congruence).
    cbn in Hx. rewrite !andb_true_iff, String.eqb_eq, Hx, IH.
    split; [intros [[-> ->] ->]; done | by intros [= -> -> ->]].
Qed.

#[export] Instance json_eq_dec : EqDecision json.
Proof.
  intros a b. destruct (json_eqb a b) eqn:E; [left; by apply json_eqb_eq|].
  right. intros H%json_eqb_eq. congruence.
Defined.

(** ** Key order *)

Fixpoint sort_json (j : json) : json :=
  match j with
  | JArr l => JArr (map sort_json l)
  | JObj kvs => JObj (sort_on fst (map (fun kv => (kv.1, sort_json kv.2)) kvs))
  | j => j
  end.

(** Every object has distinct keys, as a Python dict does. *)
Fixpoint json_wf (j : json) : bool :=
  match j with
  | JArr l => forallb json_wf l
  | JObj kvs => str_unique (map fst kvs) && forallb (fun kv => json_wf kv.2) kvs
  | _ => true
  end.

(** ** Printing *)

Definition chr_quote : ascii := ascii_of_nat 34.
Definition chr_backslash : ascii := ascii_of_nat 92.

(** [json.encoder.py_encode_basestring]: the control characters, the quote and the
    backslash are escaped, everything else (bytes above 127 included) is copied. *)
Definition escape_char (c : ascii) : string :=
  let esc (d : ascii) := String chr_backslash (String d "") in
  if Ascii.eqb c chr_quote then esc chr_quote
  else if Ascii.eqb c chr_backslash then esc chr_backslash
  else match N_of_ascii c with
       | 8%N => esc "b"%char
       | 9%N => esc "t"%char
       | 10%N => esc "n"%char
       | 12%N => esc "f"%char
       | 13%N => esc "r"%char
       | n => if (n <? 32)%N
              then String chr_backslash ("u00" +:+ hex (String c ""))
              else String c ""
       end.

Fixpoint escape (s : string) : string :=
  match s with EmptyString => "" | String c s => escape_char c +:+ escape s end.

Definition json_quote (s : string) : string :=
  String chr_quote (escape s +:+ String chr_quote "").

Fixpoint str_join (sep : string) (l : list string) : string :=
  match l with
  | [] => ""
  | [x] => x
  | x :: l => x +:+ sep +:+ str_join sep l
  end.

Definition json_member (kv : string * string) : string := json_quote kv.1 +:+ ":" +:+ kv.2.

Fixpoint json_dumps (j : json) : string :=
  match j with
  | JNull => "null"
  | JBool true => "true"
  | JBool false => "false"
  | JStr s => json_quote s
  | JArr l => "[" +:+ str_join "," (map json_dumps l) +:+ "]"
  | JObj kvs =>
      "{" +:+ str_join "," (map json_member
                (sort_on fst (map (fun kv => (kv.1, json_dumps kv.2)) kvs))) +:+ "}"
  end.

(** ** Reading canonical texts back *)

Definition unhex_digit (c : ascii) : option N :=
  let n := N_of_ascii c in
  if (48 <=? n)%N && (n <=? 57)%N then Some (n - 48)%N
  else if (97 <=? n)%N && (n <=? 102)%N then Some (n - 87)%N else None.

(** [strip p s] is the rest of [s] after the prefix [p]. *)
Fixpoint strip (p s : string) : option string :=
  match p, s with
  | EmptyString, _ => Some s
  | String a p, String b s => if Ascii.eqb a b then strip p s else None
  | String _ _, EmptyString => None
  end.

(** The one-character escapes. *)
Definition unescape_char (e : ascii) : option ascii :=
  if Ascii.eqb e chr_quote then Some chr_quote
  else if Ascii.eqb e chr_backslash then Some chr_backslash
  else if Ascii.eqb e "b"%char then Some (ascii_of_nat 8)
  else if Ascii.eqb e "t"%char then Some (ascii_of_nat 9)
  else if Ascii.eqb e "n"%char then Some (ascii_of_nat 10)
  else if Ascii.eqb e "f"%char then Some (ascii_of_nat 12)
  else if Ascii.eqb e "r"%char then Some (ascii_of_nat 13)
  else None.

(** The body of a string literal, after its opening quote. *)
Fixpoint parse_chars (s : string) : option (string * string) :=
  match s with
  | EmptyString => None
  | String c s =>
      if Ascii.eqb c chr_quote then Some ("", s)
      else if Ascii.eqb c chr_backslash then
        match s with
        | String e s' =>
            if Ascii.eqb e "u"%char then
              match s' with
              | String z0 (String z1 (String x (String y s''))) =>
                  if Ascii.eqb z0 "0"%char && Ascii.eqb z1 "0"%char then
                    a ← unhex_digit x; b ← unhex_digit y;
                    p ← parse_chars s''; Some (String (ascii_of_N (16 * a + b)) p.1, p.2)
                  else None
              | _ => None
              end
            else d ← unescape_char e; p ← parse_chars s'; Some (String d p.1, p.2)
        | EmptyString => None
        end
      else p ← parse_chars s; Some (String c p.1, p.2)
  end.

Definition quote_str : string := String chr_quote "".

Definition parse_key (s : string) : option (string * string) :=
  s ← strip quote_str s; parse_chars s.

Fixpoint parse_value (fuel : nat) (s : string) : option (json * string) :=
  match fuel with
  | O => None
  | S fuel =>
      if strip "null" s is Some r then Some (JNull, r)
      else if strip "true" s is Some r then Some (JBool true, r)
      else if strip "false" s is Some r then Some (JBool false, r)
      else if strip "[]" s is Some r then Some (JArr [], r)
      else if strip "{}" s is Some r then Some (JObj [], r)
      else if strip "[" s is Some r then p ← parse_items fuel r; Some (JArr p.1, p.2)
      else if strip "{" s is Some r then p ← parse_members fuel r; Some (JObj p.1, p.2)
      else p ← parse_key s; Some (JStr p.1, p.2)
  end
with parse_items (fuel : nat) (s : string) : option (list json * string) :=
  match fuel with
  | O => None
  | S fuel =>
      p ← parse_value fuel s;
      if strip "," p.2 is Some r then q ← parse_items fuel r; Some (p.1 :: q.1, q.2)
      else r ← strip "]" p.2; Some ([p.1], r)
  end
with parse_members (fuel : nat) (s : string) : option (list (string * json) * string) :=
  match fuel with
  | O => None
  | S fuel =>
      k ← parse_key s;
      r ← strip ":" k.2;
      p ← parse_value fuel r;
      if strip "," p.2 is Some r then q ← parse_members fuel r; Some ((k.1, p.1) :: q.1, q.2)
      else r ← strip "}" p.2; Some ([(k.1, p.1)], r)
  end.

(** The fuel is the length of the text: every call consumes a character. *)
Definition json_parse (s : string) : option json :=
  match parse_value (S (String.length s)) s with
  | Some (j, EmptyString) => Some j
  | _ => None
  end.

(** ** Strings *)

Lemma str_app_cons c s t : String c s +:+ t = String c (s +:+ t).
Proof. reflexivity. Qed.

Lemma str_app_nil_l s : "" +:+ s = s.
Proof. reflexivity. Qed.

Lemma str_app_assoc (a b c : string) : (a +:+ b) +:+ c = a +:+ (b +:+ c).
Proof. induction a as [|x a IH]; [done|]. rewrite !str_app_cons. by rewrite IH. Qed.

Lemma str_app_nil_r s : s +:+ "" = s.
Proof. induction s as [|c s IH]; [done|]. rewrite str_app_cons. by rewrite IH. Qed.

Lemma str_app_length s t : String.length (s +:+ t) = String.length s + String.length t.
Proof. induction s as [|c s IH]; [done|]. rewrite str_app_cons. cbn. by rewrite IH. Qed.

#[export] Hint Rewrite str_app_assoc str_app_cons str_app_nil_l str_app_nil_r : str_rw.

Lemma strip_app p s : strip p (p +:+ s) = Some s.
Proof. induction p as [|c p IH]; [done|]. rewrite str_app_cons. cbn. by rewrite Ascii.eqb_refl. Qed.

Lemma strip_head c d p s : c <> d -> strip (String c p) (String d s) = None.
Proof. intros H. cbn. by rewrite (proj2 (Ascii.eqb_neq c d) H). Qed.

Lemma strip_self p : strip p p = Some "".
Proof. rewrite <- (str_app_nil_r p) at 2. apply strip_app. Qed.

(** ** Round trip of string literals *)

Lemma parse_escape_char c t :
  parse_chars (escape_char c +:+ t) = p ← parse_chars t; Some (String c p.1, p.2).
Proof. destruct c as [[] [] [] [] [] [] [] []]; reflexivity. Qed.

Lemma parse_escape s rest :
  parse_chars (escape s +:+ String chr_quote rest) = Some (s, rest).
Proof.
  induction s as [|c s IH]; [reflexivity|].
  cbn [escape]. rewrite str_app_assoc, parse_escape_char, IH. reflexivity.
Qed.

Lemma json_quote_app s rest :
  json_quote s +:+ rest = quote_str +:+ (escape s +:+ String chr_quote rest).
Proof. unfold json_quote, quote_str. by autorewrite with str_rw. Qed.

Lemma parse_key_quote s rest : parse_key (json_quote s +:+ rest) = Some (s, rest).
Proof. rewrite json_quote_app. unfold parse_key. rewrite strip_app. apply parse_escape. Qed.

(** ** Sorting members commutes with mapping their values *)

Lemma sort_insert_map {A B} (leb : B -> B -> bool) (leb' : A -> A -> bool) (f : A -> B) x l :
  (forall a b, leb (f a) (f b) = leb' a b) ->
  sort_insert leb (f x) (map f l) = map f (sort_insert leb' x l).
Proof.
  intros H. induction l as [|y l IH]; cbn; [done|]. rewrite H.
  destruct (leb' x y); cbn; [done|]. by rewrite IH.
Qed.

Lemma py_sort_map {A B} (leb : B -> B -> bool) (leb' : A -> A -> bool) (f : A -> B) l :
  (forall a b, leb (f a) (f b) = leb' a b) ->
  py_sort leb (map f l) = map f (py_sort leb' l).
Proof.
  intros H. induction l as [|x l IH]; cbn; [done|]. rewrite IH. by apply sort_insert_map.
Qed.

Lemma sort_on_map_snd {A B} (f : A -> B) (l : list (string * A)) :
  sort_on fst (map (fun kv => (kv.1, f kv.2)) l) =
  map (fun kv => (kv.1, f kv.2)) (sort_on fst l).
Proof. unfold sort_on. by apply py_sort_map. Qed.

Lemma sort_on_idem {A} (key : A -> string) l : sort_on key (sort_on key l) = sort_on key l.
Proof. apply py_sort_idem; eauto with wiki. Qed.

Definition dump_member (kv : string * json) : string :=
  json_quote kv.1 +:+ ":" +:+ json_dumps kv.2.

Lemma json_dumps_obj kvs :
  json_dumps (JObj kvs) = "{" +:+ str_join "," (map dump_member (sort_on fst kvs)) +:+ "}".
Proof. cbn [json_dumps]. rewrite sort_on_map_snd, map_map. reflexivity. Qed.

Lemma sort_json_obj kvs :
  sort_json (JObj kvs) = JObj (map (fun kv => (kv.1, sort_json kv.2)) (sort_on fst kvs)).
Proof. cbn [sort_json]. by rewrite sort_on_map_snd. Qed.

(** ** Sizes: the fuel that reading a printed value needs *)

Fixpoint json_size (j : json) : nat :=
  match j with
  | JArr l => S (sum_list_with (fun x => S (json_size x)) l)
  | JObj kvs => S (sum_list_with (fun kv => S (json_size kv.2)) kvs)
  | _ => 1
  end.

Lemma str_join_length sep l :
  sum_list_with String.length l <= String.length (str_join sep l) /\
  (String.length sep = 1 ->
   length l + sum_list_with String.length l <= S (String.length (str_join sep l))).
Proof.
  induction l as [|x [|y l] IH]; [cbn; lia | cbn; lia|].
  change (str_join sep (x :: y :: l)) with (x +:+ (sep +:+ str_join sep (y :: l))).
  cbn [sum_list_with length] in *. rewrite !str_app_length. lia.
Qed.

Lemma sum_list_with_le {A} (f g : A -> nat) l :
  Forall (fun x => f x <= g x) l -> sum_list_with f l <= sum_list_with g l.
Proof. induction 1; cbn; lia. Qed.

Lemma sum_list_with_map {A B} (f : B -> nat) (g : A -> B) l :
  sum_list_with f (map g l) = sum_list_with (fun x => f (g x)) l.
Proof. induction l as [|x l IH]; cbn; [done|]. by rewrite IH. Qed.

Lemma sum_list_with_S {A} (f : A -> nat) l :
  sum_list_with (fun x => S (f x)) l = length l + sum_list_with f l.
Proof. induction l as [|x l IH]; cbn; [done|]. rewrite IH. lia. Qed.

Lemma json_quote_length s : 2 <= String.length (json_quote s).
Proof. unfold json_quote. cbn. rewrite str_app_length. cbn. lia. Qed.

Lemma json_size_length j : json_size j <= String.length (json_dumps j).
Proof.
  induction j as [|b|s|l IH|kvs IH] using json_rect_nested; cbn [json_size].
  - cbn. lia.
  - destruct b; cbn; lia.
  - pose proof (json_quote_length s). cbn [json_dumps]. lia.
  - cbn [json_dumps]. rewrite !str_app_length, sum_list_with_S. cbn [String.length].
    pose proof (proj2 (str_join_length "," (map json_dumps l)) eq_refl) as H.
    rewrite length_map, sum_list_with_map in H.
    apply sum_list_with_le in IH. lia.
  - rewrite json_dumps_obj, !str_app_length, sum_list_with_S. cbn [String.length].
    pose proof (proj2 (str_join_length "," (map dump_member (sort_on fst kvs))) eq_refl) as H.
    rewrite length_map, sum_list_with_map in H.
    pose proof (py_sort_perm (fun x y => str_leb x.1 y.1) kvs) as Hp.
    pose proof (sum_list_with_Permutation_proper
                  (fun kv => String.length (dump_member kv)) _ _ Hp) as Hs.
    apply Permutation_length in Hp. unfold sort_on in *. rewrite Hs, Hp in H.
    assert (sum_list_with (fun kv => json_size kv.2) kvs <=
            sum_list_with (fun kv => String.length (dump_member kv)) kvs); [|lia].
    apply sum_list_with_le. eapply Forall_impl; [|exact IH]. intros [k x] Hx. cbn in *.
    unfold dump_member. rewrite !str_app_length. cbn. lia.
Qed.


(** ** Round trip *)

(** The first character of a printed value: never a closing bracket. *)
Lemma json_dumps_head j :
  exists c s, json_dumps j = String c s /\ c <> "]"%char /\ c <> "}"%char.
Proof.
  destruct j as [|[]|s|l|kvs]; cbn [json_dumps]; eexists _, _; (split; [reflexivity | done]).
Qed.

Lemma json_quote_head s : exists t, json_quote s = String chr_quote t.
Proof. by eexists. Qed.

Definition parses (j : json) : Prop :=
  forall fuel rest, json_size j <= fuel ->
    parse_value fuel (json_dumps j +:+ rest) = Some (sort_json j, rest).

Lemma parse_items_dumps l fuel rest :
  l <> [] -> Forall parses l -> sum_list_with (fun x => S (json_size x)) l <= fuel ->
  parse_items fuel (str_join "," (map json_dumps l) +:+ "]" +:+ rest) =
  Some (map sort_json l, rest).
Proof.
  intros Hne Hl. revert fuel Hne.
  induction Hl as [|x l Hx Hl IH]; intros fuel Hne Hf; [done|].
  cbn [sum_list_with] in Hf. destruct fuel as [|fuel]; [lia|]. destruct l as [|y l].
  - cbn [map str_join parse_items]. rewrite Hx by lia. cbn. done.
  - change (str_join "," (map json_dumps (x :: y :: l)))
      with (json_dumps x +:+ ("," +:+ str_join "," (map json_dumps (y :: l)))).
    rewrite !str_app_assoc. cbn [parse_items]. rewrite Hx by lia. cbn [mbind option_bind fst snd].
    rewrite strip_app, IH by (done || lia). reflexivity.
Qed.

Lemma parse_members_dumps l fuel rest :
  l <> [] -> Forall (fun kv => parses kv.2) l ->
  sum_list_with (fun kv => S (json_size kv.2)) l <= fuel ->
  parse_members fuel (str_join "," (map dump_member l) +:+ "}" +:+ rest) =
  Some (map (fun kv => (kv.1, sort_json kv.2)) l, rest).
Proof.
  intros Hne Hl. revert fuel Hne.
  induction Hl as [|[k x] l Hx Hl IH]; intros fuel Hne Hf; [done|]. cbn in Hx.
  cbn [sum_list_with snd] in Hf. destruct fuel as [|fuel]; [lia|]. destruct l as [|y l].
  - cbn [map str_join parse_members]. unfold dump_member; cbn [fst snd].
    rewrite !str_app_assoc, parse_key_quote. cbn [mbind option_bind fst snd].
    rewrite strip_app. cbn [mbind option_bind]. rewrite Hx by lia. reflexivity.
  - change (str_join "," (map dump_member ((k, x) :: y :: l)))
      with (dump_member (k, x) +:+ ("," +:+ str_join "," (map dump_member (y :: l)))).
    cbn [parse_members]. unfold dump_member at 1; cbn [fst snd].
    rewrite !str_app_assoc, parse_key_quote. cbn [mbind option_bind fst snd].
    rewrite strip_app. cbn [mbind option_bind]. rewrite Hx by lia.
    cbn [mbind option_bind fst snd]. rewrite strip_app, IH by (done || lia). reflexivity.
Qed.

Lemma str_join_head {A} (f : A -> string) sep x l :
  exists t, str_join sep (map f (x :: l)) = f x +:+ t.
Proof.
  destruct l as [|y l]; [exists ""; cbn; by rewrite str_app_nil_r|]. by eexists.
Qed.

Lemma parse_value_arr fuel c s :
  c <> "]"%char ->
  parse_value (S fuel) (String "[" (String c s)) =
  p ← parse_items fuel (String c s); Some (JArr p.1, p.2).
Proof.
  intros Hc. cbn [parse_value].
  assert (strip "[]" (String "[" (String c s)) = None) as ->
    by (apply (strip_head "]" c "" s); congruence).
  reflexivity.
Qed.

Lemma parse_value_obj fuel s :
  parse_value (S fuel) (String "{" (String chr_quote s)) =
  p ← parse_members fuel (String chr_quote s); Some (JObj p.1, p.2).
Proof. reflexivity. Qed.

Lemma parses_all j : parses j.
Proof.
  induction j as [|b|s|l IH|kvs IH] using json_rect_nested; intros fuel rest Hf;
    cbn [json_size] in Hf; (destruct fuel as [|fuel]; [lia|]).
  - reflexivity.
  - destruct b; reflexivity.
  - cbn [parse_value json_dumps sort_json]. destruct (json_quote_head s) as [t Ht].
    rewrite (parse_key_quote s rest), Ht. reflexivity.
  - destruct l as [|x l]; [reflexivity|].
    pose proof (parse_items_dumps (x :: l) fuel rest ltac:(done) IH ltac:(lia)) as Hp.
    cbn [json_dumps]. rewrite !str_app_assoc.
    destruct (str_join_head json_dumps "," x l) as [t Ht].
    destruct (json_dumps_head x) as (c & u & Hc & Hne & _). rewrite Ht, Hc, !str_app_cons, ?str_app_nil_l in *.
    rewrite parse_value_arr, Hp by done. reflexivity.
  - rewrite json_dumps_obj, sort_json_obj, !str_app_assoc.
    pose proof (py_sort_perm (fun x y => str_leb x.1 y.1) kvs) as Hp.
    fold (sort_on (A:=string * json) fst kvs) in Hp.
    rewrite <- Hp in IH, Hf. destruct (sort_on fst kvs) as [|x l]; [reflexivity|].
    pose proof (parse_members_dumps (x :: l) fuel rest ltac:(done) IH ltac:(lia)) as Hm.
    destruct (str_join_head dump_member "," x l) as [t Ht].
    assert (Hq : exists u, dump_member x = String chr_quote u) by (by eexists).
    destruct Hq as [u Hu]. rewrite Ht, Hu, !str_app_cons, ?str_app_nil_l in *.
    rewrite parse_value_obj, Hm. reflexivity.
Qed.

Lemma json_parse_dumps j : json_parse (json_dumps j) = Some (sort_json j).
Proof.
  unfold json_parse. pose proof (json_size_length j).
  pose proof (parses_all j (S (String.length (json_dumps j))) "" ltac:(lia)) as Hp.
  rewrite str_app_nil_r in Hp. by rewrite Hp.
Qed.

Lemma sort_json_idem j : sort_json (sort_json j) = sort_json j.
Proof.
  induction j as [| | |l IH|kvs IH] using json_rect_nested; cbn [sort_json]; try done.
  - f_equal. rewrite map_map. apply map_ext_in. intros x Hx.
    rewrite List.Forall_forall in IH. auto.
  - f_equal. rewrite <- sort_on_map_snd, map_map, sort_on_idem. unfold sort_on at 1 2. f_equal.
    apply map_ext_in. intros x Hx. rewrite List.Forall_forall in IH. cbn. f_equal. auto.
Qed.

(** ** Equality up to the order of object members: a setoid *)

#[export] Instance json_equiv : Equiv json := fun a b => sort_json a = sort_json b.

#[export] Instance json_equiv_equivalence : Equivalence (≡@{json}).
Proof.
  split.
  - intros a. reflexivity.
  - intros a b H. exact (eq_sym H).
  - intros a b c H1 H2. exact (eq_trans H1 H2).
Qed.

Lemma sort_json_equiv j : sort_json j ≡ j.
Proof. apply sort_json_idem. Qed.

Lemma json_dumps_sort j : json_dumps (sort_json j) = json_dumps j.
Proof.
  induction j as [| | |l IH|kvs IH] using json_rect_nested; try done.
  - cbn [sort_json json_dumps]. do 2 f_equal. rewrite map_map. f_equal.
    apply map_ext_in. rewrite List.Forall_forall in IH. exact IH.
  - rewrite sort_json_obj, !json_dumps_obj, <- sort_on_map_snd, sort_on_idem, sort_on_map_snd.
    do 3 f_equal. rewrite map_map. apply map_ext_in. intros x Hx.
    assert (Hx' : x ∈ kvs).
    { rewrite <- (py_sort_perm (fun x y => str_leb x.1 y.1)). by apply list_elem_of_In. }
    rewrite list.Forall_forall in IH. unfold dump_member; cbn. do 2 f_equal. by apply IH.
Qed.

#[export] Instance json_dumps_proper : Proper ((≡) ==> eq) json_dumps.
Proof.
  intros a b H. rewrite <- (json_dumps_sort a), <- (json_dumps_sort b). exact (f_equal _ H).
Qed.

(** The canonical text determines the value, up to member order. *)
Lemma json_dumps_inj a b : json_dumps a = json_dumps b -> a ≡ b.
Proof.
  intros H. pose proof (json_parse_dumps a) as Ha. rewrite H, json_parse_dumps in Ha.
  injection Ha as Ha. exact (eq_sym Ha).
Qed.

Lemma json_obj_perm kvs kvs' : NoDup kvs.*1 -> kvs ≡ₚ kvs' -> JObj kvs ≡ JObj kvs'.
Proof.
  intros Hnd Hp. unfold equiv, json_equiv. rewrite !sort_json_obj. do 2 f_equal.
  apply sort_on_perm; [|done]. intros [k x] [k' y] Hx Hy Hk. cbn in Hk; subst k'. f_equal.
  apply (elem_assoc _ _ _ Hnd) in Hx. apply (elem_assoc _ _ _ Hnd) in Hy. congruence.
Qed.

Lemma sort_json_inj_str s j : JStr s ≡ j -> j = JStr s.
Proof. intros H. destruct j; cbv [equiv json_equiv sort_json] in H; congruence. Qed.

#[export] Hint Resolve json_dumps_inj sort_json_equiv : wiki.

(** ** [json.loads]

    Reading arbitrary text is the standard library's; what is used of it is that it reads
    back what [json.dumps] wrote. *)
Class JsonReader : Type := {
  json_loads : string -> option json;
  json_loads_dumps : forall j, json_wf j = true -> json_loads (json_dumps j) = Some (sort_json j);
}.

(** The reader of Json.v is one. *)
#[export] Instance canonical_reader : JsonReader :=
  {| json_loads := json_parse; json_loads_dumps := fun j _ => json_parse_dumps j |}.
