(* ===== verification/Canonical.v ===== *)
(** * Canonicalization profile (canonical.py)

    [pyval] is the data a caller may hand to the encoder: any Python value, of which only
    some are representable.  [normalize] is [_normalize], [canonical_bytes] is
    [canonical_bytes].  Unicode NFC is [unicodedata.normalize("NFC", s)], reached through
    the class [Unicode]; the code relies on its idempotence and on ASCII text, such as its
    own field names, being unchanged. *)
From S2P Require Import Prelude Digest Json.
Open Scope string_scope.

(** Python values.  A float carries nothing (no code path reads it), [PMap] is a [Mapping]
    that is not a [dict], such as a mapping proxy, with the items it iterates over, and
    [POther] is any object of another type. *)
Inductive pykey : Type := KStr (s : string) | KOther.

Inductive pyval : Type :=
| PNone
| PBool (b : bool)
| PInt (z : Z)
| PFloat
| PStr (s : string)
| PList (l : list pyval)
| PTuple (l : list pyval)
| PDict (kvs : list (pykey * pyval))
| PMap (kvs : list (pykey * pyval))
| POther.

Section pyval_induction.
Variable P : pyval -> Prop.
Hypothesis Hnone : P PNone.
Hypothesis Hbool : forall b, P (PBool b).
Hypothesis Hint' : forall z, P (PInt z).
Hypothesis Hfloat : P PFloat.
Hypothesis Hstr : forall s, P (PStr s).
Hypothesis Hlist : forall l, Forall P l -> P (PList l).
Hypothesis Htuple : forall l, Forall P l -> P (PTuple l).
Hypothesis Hdict : forall kvs, Forall (fun kv => P kv.2) kvs -> P (PDict kvs).
Hypothesis Hmap : forall kvs, Forall (fun kv => P kv.2) kvs -> P (PMap kvs).
Hypothesis Hother : P POther.

Fixpoint pyval_rect_nested (v : pyval) : P v :=
  let fix go l : Forall P l :=
    match l with [] => Forall_nil _ | x :: l => Forall_cons _ _ _ (pyval_rect_nested x) (go l) end in
  let fix go' kvs : Forall (fun kv => P kv.2) kvs :=
    match kvs with [] => Forall_nil _ | kv :: kvs => Forall_cons _ _ _ (pyval_rect_nested kv.2) (go' kvs) end in
  match v with
  | PNone => Hnone
  | PBool b => Hbool b
  | PInt z => Hint' z
  | PFloat => Hfloat
  | PStr s => Hstr s
  | PList l => Hlist l (go l)
  | PTuple l => Htuple l (go l)
  | PDict kvs => Hdict kvs (go' kvs)
  | PMap kvs => Hmap kvs (go' kvs)
  | POther => Hother
  end.
End pyval_induction.

(** JSON data as Python values. *)
Fixpoint of_json (j : json) : pyval :=
  match j with
  | JNull => PNone
  | JBool b => PBool b
  | JStr s => PStr s
  | JArr l => PList (map of_json l)
  | JObj kvs => PDict (map (fun kv => (KStr kv.1, of_json kv.2)) kvs)
  end.

(** Whether [hash] has a value: lists and mappings are unhashable. *)
Fixpoint hashable (v : pyval) : bool :=
  match v with PList _ | PDict _ | PMap _ => false | PTuple l => forallb hashable l | _ => true end.

Definition is_ascii (s : string) : bool := str_forall (fun c => (N_of_ascii c <? 128)%N) s.

Lemma hex_chars_ascii s : str_forall is_hex_char s = true -> is_ascii s = true.
Proof.
  induction s as [|c t IH]; [done|]. unfold is_ascii in *. cbn [str_forall].
  intros [Hc Ht]%andb_true_iff. rewrite (IH Ht), andb_true_r. unfold is_hex_char in Hc.
  apply orb_true_iff in Hc as [[_ Hc]%andb_true_iff|[_ Hc]%andb_true_iff]; apply N.leb_le in Hc; apply N.ltb_lt; lia.
Qed.

Lemma hex_ascii s : is_ascii (hex s) = true.
Proof. apply hex_chars_ascii, hex_forall. Qed.

(** [unicodedata.normalize("NFC", _)]: the Unicode standard makes it idempotent and the
    identity on ASCII text. *)
Class Unicode : Type := {
  nfc : string -> string;
  nfc_idem : forall s, nfc (nfc s) = nfc s;
  nfc_ascii : forall s, is_ascii s = true -> nfc s = s;
}.
#[export] Hint Resolve nfc_idem nfc_ascii : wiki.

(** A concrete instance for evaluating examples: it composes the two-character text "e"
    with a combining acute accent (bytes 65 CC 81) into the letter (bytes C3 A9). *)
Definition e_combining : string :=
  String (ascii_of_N 101) (String (ascii_of_N 204) (String (ascii_of_N 129) "")).
Definition e_acute : string := String (ascii_of_N 195) (String (ascii_of_N 169) "").
Definition nfc_sample (s : string) : string := if String.eqb s e_combining then e_acute else s.

Lemma nfc_sample_idem s : nfc_sample (nfc_sample s) = nfc_sample s.
Proof. unfold nfc_sample. destruct (String.eqb s e_combining) eqn:E; [done|]. by rewrite E. Qed.

Lemma nfc_sample_ascii s : is_ascii s = true -> nfc_sample s = s.
Proof.
  unfold nfc_sample. intros Hs. destruct (String.eqb_spec s e_combining) as [->|]; [|done].
  discriminate Hs.
Qed.

Definition unicode_sample : Unicode :=
  {| nfc := nfc_sample; nfc_idem := nfc_sample_idem; nfc_ascii := nfc_sample_ascii |}.

(** CanonicalizationError, one constructor per [raise]. *)
Inductive canon_error : Type :=
| RawNumber
| NonStringKey
| KeyCollision
| UnsupportedType.

#[export] Instance canon_error_eq_dec : EqDecision canon_error.
Proof. solve_decision. Defined.

Definition str_in_keys {A} (k : string) (out : list (string * A)) : bool :=
  str_mem k (map fst out).

Section Canonical.
Context {U : Unicode}.

Fixpoint normalize (value : pyval) : result canon_error json :=
  match value with
  | PBool b => Ok (JBool b)
  | PInt _ | PFloat => Err RawNumber
  | PNone => Ok JNull
  | PStr s => Ok (JStr (nfc s))
  | PDict kvs =>
      let fix entries (kvs : list (pykey * pyval)) (out : list (string * json)) :=
        match kvs with
        | [] => Ok (JObj out)
        | (KOther, _) :: _ => Err NonStringKey
        | (KStr k, v) :: kvs =>
            let nk := nfc k in
            if str_in_keys nk out then Err KeyCollision
            else v' ← normalize v; entries kvs (out ++ [(nk, v')])%list
        end in
      entries kvs []
  | PList l | PTuple l =>
      let fix items (l : list pyval) :=
        match l with
        | [] => Ok []
        | v :: l => v' ← normalize v; l' ← items l; Ok (v' :: l')
        end in
      l' ← items l; Ok (JArr l')
  | PMap _ | POther => Err UnsupportedType
  end.

Definition canonical_bytes (value : pyval) : result canon_error string :=
  normalized ← normalize value; Ok (json_dumps normalized).
End Canonical.

(** ** The two loops of [normalize], named *)
Section Loops.
Context {U : Unicode}.

Fixpoint normalize_items (l : list pyval) : result canon_error (list json) :=
  match l with
  | [] => Ok []
  | v :: l => v' ← normalize v; l' ← normalize_items l; Ok (v' :: l')
  end.

Fixpoint normalize_entries (kvs : list (pykey * pyval)) (out : list (string * json))
    : result canon_error json :=
  match kvs with
  | [] => Ok (JObj out)
  | (KOther, _) :: _ => Err NonStringKey
  | (KStr k, v) :: kvs =>
      if str_in_keys (nfc k) out then Err KeyCollision
      else v' ← normalize v; normalize_entries kvs (out ++ [(nfc k, v')])%list
  end.

Lemma normalize_list l : normalize (PList l) = l' ← normalize_items l; Ok (JArr l').
Proof. reflexivity. Qed.

Lemma normalize_tuple l : normalize (PTuple l) = l' ← normalize_items l; Ok (JArr l').
Proof. reflexivity. Qed.

Lemma normalize_dict kvs : normalize (PDict kvs) = normalize_entries kvs [].
Proof.
  cbn [normalize]. generalize (@nil (string * json)) at 2 3.
  induction kvs as [|[[k|] v] kvs IH]; intros out; cbn [normalize_entries]; [done| |done].
  destruct (str_in_keys _ out); [done|]. destruct (normalize v); cbn; [|done]. apply IH.
Qed.

Lemma normalize_items_map l : normalize_items l = map_result normalize l.
Proof. induction l as [|v l IH]; cbn; [done|]. by rewrite IH. Qed.

Lemma normalize_items_ok l js :
  normalize_items l = Ok js <-> Forall2 (fun v j => normalize v = Ok j) l js.
Proof. rewrite normalize_items_map. apply map_result_ok. Qed.

(** One entry of a normalized dict: its NFC key and its normalized value. *)
Definition entry_ok (e : pykey * pyval) (m : string * json) : Prop :=
  exists k, e.1 = KStr k /\ m.1 = nfc k /\ normalize e.2 = Ok m.2.

Lemma str_in_keys_spec {A} k (out : list (string * A)) :
  str_in_keys k out = true <-> k ∈ out.*1.
Proof. unfold str_in_keys. apply str_mem_spec. Qed.

Lemma normalize_entries_ok kvs out j :
  NoDup out.*1 ->
  normalize_entries kvs out = Ok j <->
  exists ms, Forall2 entry_ok kvs ms /\ NoDup (out ++ ms)%list.*1 /\ j = JObj (out ++ ms).
Proof.
  revert out; induction kvs as [|[[k|] v] kvs IH]; intros out Hout; cbn [normalize_entries].
  - split.
    + intros [= <-]. exists []. rewrite app_nil_r. by repeat constructor.
    + intros (ms & H1 & _ & ->). inversion H1; subst. by rewrite app_nil_r.
  - destruct (str_in_keys _ out) eqn:E.
    { split; [done|]. intros (ms & H1 & Hnd & _). exfalso.
      inversion H1 as [|? m ? ms' (k' & Hk & Hm & _)]; subst. injection Hk as <-.
      apply str_in_keys_spec in E. rewrite fmap_app in Hnd. cbn in Hnd. rewrite Hm in Hnd.
      apply list.NoDup_app in Hnd as (_ & Hd & _). apply (Hd _ E). by left. }
    rewrite bind_ok. split.
    + intros (v' & Hv & Hj). apply IH in Hj as (ms & H1 & H2 & ->).
      * exists ((nfc k, v') :: ms). rewrite <- app_assoc in *. cbn [app] in *.
        repeat split; [|done]. constructor; [|done]. by exists k.
      * rewrite fmap_app. apply list.NoDup_app. split; [done|]. split; [|apply NoDup_singleton].
        intros x Hx [->|[]%elem_of_nil]%elem_of_cons.
        apply str_in_keys_spec in Hx. cbn in Hx. congruence.
    + intros (ms & H1 & H2 & ->). inversion H1 as [|? [mk mv] ? ms' (k' & Hk & Hm & Hv)]; subst.
      cbn in *. injection Hk as <-. subst mk. exists mv. split; [done|].
      assert (Hd : NoDup ((out ++ [(nfc k, mv)]) ++ ms')%list.*1) by by rewrite <- app_assoc.
      apply IH; [|by exists ms'; rewrite <- app_assoc].
      rewrite fmap_app in Hd. by apply list.NoDup_app in Hd as (? & _ & _).
  - split; [done|]. intros (ms & H1 & _). inversion H1 as [|? m ? ms' (k' & Hk & _)]; subst. done.
Qed.

Lemma normalize_dict_ok kvs j :
  normalize (PDict kvs) = Ok j <->
  exists ms, Forall2 entry_ok kvs ms /\ NoDup ms.*1 /\ j = JObj ms.
Proof. rewrite normalize_dict. apply (normalize_entries_ok kvs [] j). constructor. Qed.
End Loops.

(** ** Properties *)
Section Properties.
Context {U : Unicode}.

(** What a normalized value is: NFC strings and keys, distinct keys, at every depth. *)
Fixpoint json_normal (j : json) : Prop :=
  match j with
  | JStr s => nfc s = s
  | JArr l => (fix go l := match l with [] => True | x :: l => json_normal x /\ go l end) l
  | JObj kvs =>
      NoDup kvs.*1 /\
      (fix go (kvs : list (string * json)) := match kvs with
       | [] => True
       | (k, x) :: kvs => nfc k = k /\ json_normal x /\ go kvs
       end) kvs
  | _ => True
  end.

Lemma json_normal_arr l : json_normal (JArr l) <-> Forall json_normal l.
Proof. cbn. induction l as [|x l IH]; [done|]. by rewrite Forall_cons_iff, IH. Qed.

Lemma json_normal_obj kvs :
  json_normal (JObj kvs) <->
  NoDup kvs.*1 /\ Forall (fun kv => nfc kv.1 = kv.1 /\ json_normal kv.2) kvs.
Proof.
  cbn. apply and_iff_compat_l.
  induction kvs as [|[k x] l IH]; [done|]. rewrite Forall_cons_iff, IH. cbn. tauto.
Qed.

Lemma Forall2_impl_Forall {A B} (P : A -> Prop) (R : A -> B -> Prop) (Q : B -> Prop) l l' :
  (forall x y, P x -> R x y -> Q y) -> Forall P l -> Forall2 R l l' -> Forall Q l'.
Proof. intros HP Hl H2; induction H2; inversion Hl; subst; constructor; eauto. Qed.

(** Every normalized value is in normal form. *)
Lemma normalize_normal v j : normalize v = Ok j -> json_normal j.
Proof.
  revert j; induction v as [| | | |s|l IH|l IH|kvs IH|kvs IH|] using pyval_rect_nested; intros j Hn;
    try (cbn in Hn; injection Hn as <-; cbn; done || apply nfc_idem); try done.
  - rewrite normalize_list in Hn. apply bind_ok in Hn as (js & Hjs & [= <-]).
    apply normalize_items_ok in Hjs. apply json_normal_arr.
    eapply Forall2_impl_Forall; [|exact IH|exact Hjs]. cbn; auto.
  - rewrite normalize_tuple in Hn. apply bind_ok in Hn as (js & Hjs & [= <-]).
    apply normalize_items_ok in Hjs. apply json_normal_arr.
    eapply Forall2_impl_Forall; [|exact IH|exact Hjs]. cbn; auto.
  - apply normalize_dict_ok in Hn as (ms & Hms & Hnd & ->). apply json_normal_obj.
    split; [done|]. eapply Forall2_impl_Forall; [|exact IH|exact Hms].
    intros [k x] [mk mv] Hx (k' & Hk & Hm & Hv). cbn in *. subst. split; [apply nfc_idem|auto].
Qed.

(** Values in normal form are fixed points. *)
Lemma normalize_of_json j : json_normal j -> normalize (of_json j) = Ok j.
Proof.
  induction j as [|b|s|l IH|kvs IH] using json_rect_nested; intros Hj; try done.
  - cbn in *. by rewrite Hj.
  - apply json_normal_arr in Hj. cbn [of_json]. rewrite normalize_list.
    apply bind_ok. exists l. split; [|done]. apply normalize_items_ok.
    induction Hj; inversion IH; subst; constructor; auto.
  - apply json_normal_obj in Hj as [Hnd Hj]. apply normalize_dict_ok.
    exists kvs. split; [|done]. clear Hnd.
    induction Hj as [|[k x] l [Hk Hx] Hj IHl]; inversion IH; subst; constructor; auto.
    exists k. cbn in *. auto.
Qed.

Lemma normalize_idem v j : normalize v = Ok j -> normalize (of_json j) = Ok j.
Proof. intros Hn. apply normalize_of_json. by eapply normalize_normal. Qed.

Lemma canonical_bytes_ok v b :
  canonical_bytes v = Ok b <-> exists j, normalize v = Ok j /\ b = json_dumps j.
Proof.
  unfold canonical_bytes. rewrite bind_ok. split; intros (j & Hj & E); exists j; split; congruence.
Qed.

(** Values Python's callers may swap: another order of dict entries, a tuple for a
    list, at any depth. *)
Inductive same_value : pyval -> pyval -> Prop :=
| same_refl v : same_value v v
| same_trans a b c : same_value a b -> same_value b c -> same_value a c
| same_tuple l : same_value (PTuple l) (PList l)
| same_untuple l : same_value (PList l) (PTuple l)
| same_item l1 l2 v v' :
    same_value v v' -> same_value (PList (l1 ++ v :: l2)) (PList (l1 ++ v' :: l2))
| same_order kvs kvs' : kvs ≡ₚ kvs' -> same_value (PDict kvs) (PDict kvs')
| same_entry k1 k2 k v v' :
    same_value v v' -> same_value (PDict (k1 ++ (k, v) :: k2)) (PDict (k1 ++ (k, v') :: k2)).

Lemma json_arr_equiv l1 l2 x y : x ≡ y -> JArr (l1 ++ x :: l2) ≡ JArr (l1 ++ y :: l2).
Proof.
  intros Hxy. unfold equiv, json_equiv in *. cbn [sort_json]. rewrite !map_app; cbn [map].
  by rewrite Hxy.
Qed.

Lemma json_obj_equiv l1 l2 k x y :
  x ≡ y -> JObj (l1 ++ (k, x) :: l2) ≡ JObj (l1 ++ (k, y) :: l2).
Proof.
  intros Hxy. unfold equiv, json_equiv in *. cbn [sort_json]. rewrite !map_app; cbn [map fst snd].
  by rewrite Hxy.
Qed.

Lemma normalize_same v v' j :
  same_value v v' -> normalize v = Ok j -> exists j', normalize v' = Ok j' /\ j' ≡ j.
Proof.
  intros Hs; revert j.
  induction Hs as [v|a b c _ IH1 _ IH2|l|l|l1 l2 v v' _ IH|kvs kvs' Hp|k1 k2 k v v' _ IH];
    intros j Hj.
  - by exists j.
  - apply IH1 in Hj as (j1 & Hj1 & E1). apply IH2 in Hj1 as (j2 & Hj2 & E2).
    exists j2. split; [done|]. by rewrite E2.
  - by exists j.
  - by exists j.
  - rewrite normalize_list in Hj. apply bind_ok in Hj as (js & Hjs & [= <-]).
    apply normalize_items_ok in Hjs.
    apply Forall2_app_inv_l in Hjs as (js1 & js2' & H1 & H2 & ->).
    apply Forall2_cons_inv_l in H2 as (x & js2 & Hx & H2 & ->).
    apply IH in Hx as (x' & Hx' & E). exists (JArr (js1 ++ x' :: js2)).
    split; [|by apply json_arr_equiv]. rewrite normalize_list. apply bind_ok.
    eexists; split; [|done]. apply normalize_items_ok. apply Forall2_app; [done|]. by constructor.
  - apply normalize_dict_ok in Hj as (ms & Hms & Hnd & ->).
    destruct (Permutation_Forall2 Hp Hms) as (ms' & Hpm & Hms').
    exists (JObj ms'). split; [|by apply json_obj_perm; [rewrite <- Hpm|symmetry]].
    apply normalize_dict_ok. exists ms'. split; [done|]. split; [by rewrite <- Hpm | done].
  - apply normalize_dict_ok in Hj as (ms & Hms & Hnd & ->).
    apply Forall2_app_inv_l in Hms as (m1 & m2' & H1 & H2 & ->).
    apply Forall2_cons_inv_l in H2 as ([mk mv] & m2 & Hm & H2 & ->).
    destruct Hm as (k' & Hk & Hmk & Hx). cbn in *. apply IH in Hx as (x' & Hx' & E).
    exists (JObj (m1 ++ (mk, x') :: m2)). split; [|by apply json_obj_equiv].
    apply normalize_dict_ok. eexists; split; [|split; [|done]].
    + apply Forall2_app; [done|]. constructor; [by exists k' | done].
    + rewrite fmap_app in *. exact Hnd.
Qed.

Lemma same_sym v v' : same_value v v' -> same_value v' v.
Proof.
  induction 1 as [v|a b c _ IH1 _ IH2|l|l|l1 l2 v v' _ IH|kvs kvs' Hp|k1 k2 k v v' _ IH].
  - apply same_refl.
  - by apply same_trans with b.
  - apply same_untuple.
  - apply same_tuple.
  - by apply same_item.
  - apply same_order. by symmetry.
  - by apply same_entry.
Qed.

(** Which values have a canonical form. *)
Fixpoint representable (v : pyval) : bool :=
  match v with
  | PNone | PBool _ | PStr _ => true
  | PInt _ | PFloat | PMap _ | POther => false
  | PList l | PTuple l => forallb representable l
  | PDict kvs =>
      forallb (fun kv => (if kv.1 is KStr _ then true else false) && representable kv.2) kvs &&
      str_unique (map (fun kv => if kv.1 is KStr k then nfc k else "") kvs)
  end.

Lemma normalize_items_total l :
  Forall (fun v => representable v = true <-> exists j, normalize v = Ok j) l ->
  forallb representable l = true <-> exists js, normalize_items l = Ok js.
Proof.
  setoid_rewrite normalize_items_ok. rewrite forallb_forall. intros Hl. split.
  - intros Hf. induction Hl as [|v l Hv Hl IH]; [by exists []|].
    destruct IH as [js Hjs]; [intros; apply Hf; by right|].
    destruct (proj1 Hv) as [j Hj]; [apply Hf; by left|]. exists (j :: js). by constructor.
  - intros [js Hjs] v Hv. rewrite List.Forall_forall in Hl. apply Hl; [done|].
    apply list_elem_of_In, list_elem_of_lookup in Hv as [i Hi].
    destruct (Forall2_lookup_l _ _ _ _ _ Hjs Hi) as (j & _ & Hj). by exists j.
Qed.

Lemma entries_total kvs :
  Forall (fun kv => representable kv.2 = true <-> exists j, normalize kv.2 = Ok j) kvs ->
  forallb (fun kv => (if kv.1 is KStr _ then true else false) && representable kv.2) kvs = true <->
  exists ms, Forall2 entry_ok kvs ms.
Proof.
  induction 1 as [|[k v] kvs Hv _ IH]; cbn [forallb fst snd].
  - split; [intros _; exists []; constructor | done].
  - rewrite !andb_true_iff, IH, Hv. cbn. split.
    + intros [[Hk [j Hj]] [ms Hms]]. destruct k as [k|]; [|done].
      exists ((nfc k, j) :: ms). constructor; [by exists k | done].
    + intros [ms Hms]. inversion Hms as [|? [mk mv] ? ms' (k' & Hk & _ & Hj)]; subst. cbn in *.
      subst k. eauto.
Qed.

Lemma entry_ok_keys kvs ms :
  Forall2 entry_ok kvs ms -> ms.*1 = map (fun kv => if kv.1 is KStr k then nfc k else "") kvs.
Proof.
  induction 1 as [|[k v] [mk mv] kvs ms (k' & Hk & Hm & _) _ IH]; [done|].
  cbn in *. subst. by rewrite IH.
Qed.

Lemma normalize_total v : representable v = true <-> exists j, normalize v = Ok j.
Proof.
  induction v as [| | | |s|l IH|l IH|kvs IH|kvs IH|] using pyval_rect_nested;
    try (split; [intros _; eexists; reflexivity | done]);
    try (split; [done | intros [j Hj]; discriminate Hj]).
  - setoid_rewrite normalize_list. cbn [representable].
    rewrite (normalize_items_total l IH). setoid_rewrite bind_ok. naive_solver.
  - setoid_rewrite normalize_tuple. cbn [representable].
    rewrite (normalize_items_total l IH). setoid_rewrite bind_ok. naive_solver.
  - setoid_rewrite normalize_dict_ok. cbn [representable].
    rewrite andb_true_iff, (entries_total kvs IH). unfold str_unique. rewrite bool_decide_eq_true.
    split.
    + intros [[ms Hms] Hnd]. exists (JObj ms), ms. by rewrite (entry_ok_keys _ _ Hms).
    + intros (j & ms & Hms & Hnd & _). rewrite <- (entry_ok_keys _ _ Hms). eauto.
Qed.

(** Values made of texts only: their one normalization error is a key collision. *)
Fixpoint textual (v : pyval) : bool :=
  match v with
  | PNone | PBool _ | PStr _ => true
  | PList l | PTuple l => forallb textual l
  | PDict kvs => forallb (fun kv => (if kv.1 is KStr _ then true else false) && textual kv.2) kvs
  | _ => false
  end.

Lemma normalize_textual_err v : textual v = true -> errs (eq KeyCollision) (normalize v).
Proof.
  assert (Hitems : forall l, Forall (fun x => textual x = true -> errs (eq KeyCollision) (normalize x)) l ->
            forallb textual l = true -> errs (eq KeyCollision) (normalize_items l)).
  { induction 1 as [|x l Hv _ IH]; [done|]. cbn [forallb normalize_items]. intros [H1 H2]%andb_true_iff.
    apply errs_bind; [by apply Hv|]. intros ? _. apply errs_bind; [by apply IH | done]. }
  assert (Hentries : forall kvs out, Forall (fun kv => textual kv.2 = true -> errs (eq KeyCollision) (normalize kv.2)) kvs ->
            forallb (fun kv => (if kv.1 is KStr _ then true else false) && textual kv.2) kvs = true ->
            errs (eq KeyCollision) (normalize_entries kvs out)).
  { intros kvs out H. revert out. induction H as [|[k x] kvs Hv _ IH]; intros out; [done|].
    cbn [forallb normalize_entries fst snd]. intros [[Hk H1]%andb_true_iff H2]%andb_true_iff. destruct k; [|done].
    destruct (str_in_keys _ out); [by apply errs_err|]. apply errs_bind; [by apply Hv|]. intros ? _. by apply IH. }
  induction v as [| | | |s|l IH|l IH|kvs IH|kvs IH|] using pyval_rect_nested; intros Ht; try done.
  - rewrite normalize_list. apply errs_bind; [by apply Hitems | done].
  - rewrite normalize_tuple. apply errs_bind; [by apply Hitems | done].
  - rewrite normalize_dict. by apply Hentries.
Qed.

Lemma keys_map_snd {A B} (f : A -> B) (l : list (string * A)) :
  (map (fun kv => (kv.1, f kv.2)) l).*1 = l.*1.
Proof. induction l as [|x l IHl]; cbn; [done|]. f_equal. exact IHl. Qed.

Lemma json_normal_sort j : json_normal j -> json_normal (sort_json j).
Proof.
  induction j as [|b|s|l IH|kvs IH] using json_rect_nested; try done.
  - rewrite json_normal_arr. cbn [sort_json]. intros Hl. apply json_normal_arr.
    apply Forall_map. rewrite list.Forall_forall in *. auto.
  - rewrite sort_json_obj, !json_normal_obj. intros [Hnd Hk].
    pose proof (py_sort_perm (fun x y => str_leb x.1 y.1) kvs) as Hp.
    fold (sort_on (A:=string * json) fst kvs) in Hp. split.
    + rewrite keys_map_snd. by rewrite Hp.
    + apply Forall_map. rewrite Hp. rewrite list.Forall_forall in *. intros x Hx.
      destruct (Hk x Hx). split; [done|]. by apply IH.
Qed.
End Properties.

(** ** Records: dicts whose keys are ASCII literals of the code *)

Definition py_record (fields : list (string * pyval)) : pyval :=
  PDict (map (fun f => (KStr f.1, f.2)) fields).

Definition py_strs (l : list string) : pyval := PList (map PStr l).
Definition py_opt (o : option string) : pyval := if o is Some s then PStr s else PNone.
Definition py_str_dict (l : list (string * string)) : pyval :=
  PDict (map (fun kv => (KStr kv.1, PStr kv.2)) l).

Definition record_keys (keys : list string) : bool := forallb is_ascii keys && str_unique keys.

Section Records.
Context {U : Unicode}.

Definition normalize_field (f : string * pyval) : result canon_error (string * json) :=
  v ← normalize f.2; Ok (f.1, v).

Lemma normalize_record fields ms :
  record_keys fields.*1 = true ->
  normalize (py_record fields) = Ok (JObj ms) <-> map_result normalize_field fields = Ok ms.
Proof.
  unfold record_keys. rewrite andb_true_iff. intros [Ha Hu].
  unfold str_unique in Hu. apply bool_decide_eq_true in Hu.
  rewrite forallb_forall in Ha. unfold py_record. rewrite normalize_dict_ok, map_result_ok.
  assert (Hf : forall ms, Forall2 entry_ok (map (fun f => (KStr f.1, f.2)) fields) ms <->
                     Forall2 (fun f m => normalize_field f = Ok m) fields ms).
  { clear Hu ms. induction fields as [|[k v] fields IH]; intros ms; cbn [map].
    - split; intros Hm; inversion Hm; constructor.
    - assert (Hk : nfc k = k) by (apply nfc_ascii, Ha; by left).
      assert (IH' := IH ltac:(intros; apply Ha; by right)). split; intros Hm.
      + inversion Hm as [|? [mk mv] ? ms' (k' & Ek & Em & Hv) Hm']; subst. cbn in *.
        injection Ek as <-. subst mk. constructor; [|by apply IH'].
        unfold normalize_field; cbn. rewrite Hv. cbn. by rewrite Hk.
      + inversion Hm as [|? [mk mv] ? ms' Hv Hm']; subst. constructor; [|by apply IH'].
        unfold normalize_field in Hv; cbn in Hv. apply bind_ok in Hv as (x & Hx & [= <- <-]).
        exists k. by rewrite Hk. }
  setoid_rewrite Hf. split.
  - intros (ms' & Hm & _ & [= ->]). done.
  - intros Hm. exists ms. repeat split; [done|]. enough (ms.*1 = fields.*1) as -> by done.
    clear -Hm. induction Hm as [|[k v] m fields ms Hv _ IH]; [done|]. cbn. f_equal; [|done].
    unfold normalize_field in Hv. apply bind_ok in Hv as (x & _ & [= <-]). done.
Qed.

Lemma normalize_record_obj fields j :
  normalize (py_record fields) = Ok j -> exists ms, j = JObj ms.
Proof. intros (ms & _ & _ & ->)%normalize_dict_ok. by exists ms. Qed.

Lemma normalize_strs l : normalize (py_strs l) = Ok (JArr (map (fun s => JStr (nfc s)) l)).
Proof.
  unfold py_strs. rewrite normalize_list.
  assert (normalize_items (map PStr l) = Ok (map (fun s => JStr (nfc s)) l)) as ->; [|done].
  induction l as [|s l IH]; [done|]. cbn [map normalize_items normalize mbind result_bind].
  by rewrite IH.
Qed.

Definition json_opt (o : option string) : json := if o is Some s then JStr (nfc s) else JNull.

Lemma normalize_opt o : normalize (py_opt o) = Ok (json_opt o).
Proof. by destruct o. Qed.
End Records.

Lemma normalize_str {U : Unicode} s : normalize (PStr s) = Ok (JStr (nfc s)).
Proof. reflexivity. Qed.

Lemma normalize_bool {U : Unicode} b : normalize (PBool b) = Ok (JBool b).
Proof. reflexivity. Qed.

Lemma normalize_none {U : Unicode} : normalize PNone = Ok JNull.
Proof. reflexivity. Qed.

#[export] Hint Rewrite @normalize_str @normalize_bool @normalize_none @normalize_strs
  @normalize_opt : normalize_rw.

(** Reads [normalize (py_record [...]) = Ok (JObj ms)] as the list of members. *)
Ltac norm_record H :=
  apply normalize_record in H; [|reflexivity];
  unfold normalize_field in H; cbn [map_result fst snd] in H;
  autorewrite with normalize_rw in H; cbn [mbind result_bind] in H.

(** The same on a goal. *)
Ltac norm_record_goal :=
  apply normalize_record; [reflexivity|];
  unfold normalize_field; cbn [map_result fst snd];
  autorewrite with normalize_rw; cbn [mbind result_bind].

Lemma normalize_obj_keys {U : Unicode} v ms : normalize v = Ok (JObj ms) -> NoDup ms.*1.
Proof. intros [Hnd _]%normalize_normal. exact Hnd. Qed.

Lemma json_normal_wf {U : Unicode} j : json_normal j -> json_wf j = true.
Proof.
  induction j as [|b|s|l IH|kvs IH] using json_rect_nested; try done.
  - rewrite json_normal_arr. cbn [json_wf]. intros Hl. apply forallb_forall. intros x Hx%list_elem_of_In.
    rewrite list.Forall_forall in IH, Hl. by apply IH, Hl.
  - rewrite json_normal_obj. intros [Hnd Hl]. cbn [json_wf]. apply andb_true_iff. split.
    + by apply bool_decide_eq_true.
    + apply forallb_forall. intros x Hx%list_elem_of_In. rewrite list.Forall_forall in IH, Hl.
      apply IH; [done|]. by apply Hl.
Qed.

(** Members of equivalent objects agree key by key. *)
Lemma json_equiv_assoc ms ms' k :
  NoDup ms.*1 -> JObj ms ≡ JObj ms' -> sort_json <$> assoc k ms = sort_json <$> assoc k ms'.
Proof.
  intros Hnd. unfold equiv, json_equiv. cbn [sort_json]. intros [= E].
  set (f := fun kv : string * json => (kv.1, sort_json kv.2)) in *.
  assert (Hp : map f ms ≡ₚ map f ms').
  { rewrite <- (py_sort_perm (fun x y => str_leb x.1 y.1) (map f ms)).
    rewrite <- (py_sort_perm (fun x y => str_leb x.1 y.1) (map f ms')).
    fold (sort_on (A:=string * json) fst (map f ms)). rewrite E. done. }
  assert (Hk : forall l, (map f l).*1 = l.*1).
  { intros l. induction l as [|x l IH]; cbn; [done|]. f_equal. exact IH. }
  assert (Ha : forall l, assoc k (map f l) = sort_json <$> assoc k l).
  { intros l. induction l as [|[k' x] l IH]; cbn; [done|]. destruct (String.eqb k k'); done. }
  rewrite <- !Ha. assert (Hnd' : NoDup (map f ms').*1) by by rewrite <- Hp, Hk.
  destruct (assoc k (map f ms)) as [x|] eqn:E1.
  - symmetry. apply elem_assoc; [done|]. rewrite <- Hp. by apply assoc_Some_elem.
  - symmetry. apply assoc_None. rewrite <- Hp. by apply assoc_None.
Qed.

Lemma json_members ms ms' :
  JObj ms ≡ JObj ms' -> str_unique (map fst ms) = true ->
  forall k, sort_json <$> assoc k ms = sort_json <$> assoc k ms'.
Proof. intros E Hu k. apply json_equiv_assoc; [|done]. by apply bool_decide_eq_true in Hu. Qed.

Lemma map_JStr_inj {U : Unicode} (l l' : list string) :
  map (fun s => JStr (nfc s)) l = map (fun s => JStr (nfc s)) l' -> map nfc l = map nfc l'.
Proof.
  revert l'; induction l as [|s l IH]; intros [|s' l']; cbn; try done.
  intros [= -> E]. f_equal. auto.
Qed.

Lemma json_strs_equiv {U : Unicode} (l l' : list string) :
  sort_json (JArr (map (fun s => JStr (nfc s)) l)) = sort_json (JArr (map (fun s => JStr (nfc s)) l')) ->
  map nfc l = map nfc l'.
Proof.
  cbn [sort_json]. rewrite !map_map. cbn [sort_json]. intros [= E]. by apply map_JStr_inj.
Qed.

(** ** Claims *)
Section Claims.
Context {U : Unicode}.

(** Two canonicalizable values have the same canonical bytes exactly when their
    normalized forms agree up to the order of object members: the encoding is injective
    and insensitive to member order. *)
Theorem canonical_bytes_binding v v' j j' :
  normalize v = Ok j -> normalize v' = Ok j' ->
  canonical_bytes v = canonical_bytes v' <-> j ≡ j'.
Proof.
  intros Hj Hj'. unfold canonical_bytes. rewrite Hj, Hj'. cbn. split.
  - intros [= E]. by apply json_dumps_inj.
  - intros ->. done.
Qed.

(** Reordering dict entries, or passing a tuple for a list, at any depth, changes
    neither whether a value is accepted nor its canonical bytes. *)
Theorem canonical_bytes_order_independent v v' b :
  same_value v v' -> canonical_bytes v = Ok b <-> canonical_bytes v' = Ok b.
Proof.
  intros Hs. split; intros Hb; apply canonical_bytes_ok in Hb as (j & Hj & ->);
    apply canonical_bytes_ok.
  - destruct (normalize_same v v' j Hs Hj) as (j' & Hj' & E). exists j'.
    split; [done|]. symmetry. by apply json_dumps_proper.
  - destruct (normalize_same v' v j (same_sym _ _ Hs) Hj) as (j' & Hj' & E).
    exists j'. split; [done|]. symmetry. by apply json_dumps_proper.
Qed.

(** C35: canonical bytes read back as the normalized value (with sorted members), which
    is in normal form, NFC strings and distinct keys at every depth, and re-encoding
    what was read gives the same bytes. *)
Theorem canonical_bytes_roundtrip v b :
  canonical_bytes v = Ok b ->
  exists j j', normalize v = Ok j /\ json_parse b = Some j' /\ j' ≡ j /\ json_normal j' /\
               canonical_bytes (of_json j') = Ok b.
Proof.
  intros (j & Hj & ->)%canonical_bytes_ok. exists j, (sort_json j).
  split; [done|]. split; [apply json_parse_dumps|]. split; [apply sort_json_equiv|]. split.
  - by apply json_normal_sort, (normalize_normal v).
  - apply canonical_bytes_ok. exists (sort_json j). split; [|symmetry; apply json_dumps_sort].
    by apply normalize_of_json, json_normal_sort, (normalize_normal v).
Qed.

(** C36: a value has canonical bytes exactly when it contains no number and no foreign
    object, its dict keys are strings, and no two keys of a dict collide after NFC. *)
Theorem canonical_bytes_accepts v :
  is_ok (canonical_bytes v) = representable v.
Proof.
  destruct (canonical_bytes v) as [b|e] eqn:Hb; cbn; symmetry.
  - apply canonical_bytes_ok in Hb as (j & Hj & _). apply normalize_total. by exists j.
  - apply not_true_iff_false. intros [j Hj]%normalize_total.
    unfold canonical_bytes in Hb. rewrite Hj in Hb. done.
Qed.
End Claims.

(** ** Evaluations *)

Definition sample_pair (k1 k2 : string) : pyval :=
  PDict [(KStr k1, PStr "x"); (KStr k2, PTuple [PBool true; PNone])].

Lemma canonical_bytes_binding_witness :
  normalize (U := unicode_sample) (sample_pair "a" "b") =
    Ok (JObj [("a", JStr "x"); ("b", JArr [JBool true; JNull])]) /\
  (canonical_bytes (U := unicode_sample) (sample_pair "a" "b") =
   canonical_bytes (U := unicode_sample) (PDict [(KStr "b", PList [PBool true; PNone]); (KStr "a", PStr "x")])
   <-> JObj [("a", JStr "x"); ("b", JArr [JBool true; JNull])] ≡
       JObj [("b", JArr [JBool true; JNull]); ("a", JStr "x")]).
Proof.
  split; [reflexivity|]. apply (canonical_bytes_binding (U := unicode_sample)); reflexivity.
Defined.

Lemma canonical_bytes_order_independent_witness :
  canonical_bytes (U := unicode_sample) (PTuple [PStr "x"]) = Ok (json_dumps (JArr [JStr "x"])) <->
  canonical_bytes (U := unicode_sample) (PList [PStr "x"]) = Ok (json_dumps (JArr [JStr "x"])).
Proof. apply (canonical_bytes_order_independent (U := unicode_sample)). apply same_tuple. Defined.

Lemma canonical_bytes_roundtrip_witness :
  exists j j', normalize (U := unicode_sample) (sample_pair "b" "a") = Ok j /\
    json_parse (json_dumps j) = Some j' /\ j' ≡ j /\ json_normal (U := unicode_sample) j' /\
    canonical_bytes (U := unicode_sample) (of_json j') = Ok (json_dumps j).
Proof.
  destruct (canonical_bytes_roundtrip (U := unicode_sample) (sample_pair "b" "a")
              (json_dumps (JObj [("b", JStr "x"); ("a", JArr [JBool true; JNull])])) eq_refl)
    as (j & j' & Hj & H1 & H2 & H3 & H4).
  injection Hj as <-. eexists _, j'. split; [reflexivity|]. auto.
Defined.

(** The composed and the decomposed spelling collide as dict keys. *)
Example nfc_key_collision :
  canonical_bytes (U := unicode_sample) (sample_pair e_combining e_acute) = Err KeyCollision.
Proof. reflexivity. Qed.

Example number_refused :
  canonical_bytes (U := unicode_sample) (PDict [(KStr "n", PInt 1)]) = Err RawNumber.
Proof. reflexivity. Qed.
