(* ===== verification/Hashing.v ===== *)
(** * Hashing primitives (hashing.py)

    [canonical_hash] and the sorted-leaf, domain-separated Merkle root.  The [while] loop
    of [merkle_root] runs on fuel; [merkle_loop_total] shows that the number of nodes is
    enough. *)
From S2P Require Import Prelude Digest Sha256 Json Canonical.
Open Scope string_scope.

Definition LEAF : string := String "000" "".
Definition NODE : string := String "001" "".
Definition EMPTY : string := "wiki.merkle.empty.v1".

Section Hashing.
Context {U : Unicode} {D : Digest}.

Definition canonical_hash (value : pyval) : result canon_error string :=
  data ← canonical_bytes value; Ok (sha256_hex data).

(** One pass of the loop body: pairs from the left, an odd last node with itself. *)
Fixpoint pair_level (nodes : list string) : list string :=
  match nodes with
  | [] => []
  | [left_] => [sha256 (NODE +:+ left_ +:+ left_)]
  | left_ :: right_ :: nodes => sha256 (NODE +:+ left_ +:+ right_) :: pair_level nodes
  end.

(** [while len(nodes) > 1: ...; return nodes[0]]. *)
Fixpoint merkle_loop (fuel : nat) (nodes : list string) : option string :=
  match nodes with
  | [] => None
  | [root] => Some root
  | _ => match fuel with
         | O => None
         | S fuel => merkle_loop fuel (pair_level nodes)
         end
  end.

Definition leaf_digest (leaf : string) : string := sha256 (LEAF +:+ leaf).

Definition merkle_root (leaves : list string) : option string :=
  match leaves with
  | [] => Some (sha256_hex EMPTY)
  | _ =>
      let nodes := sort_str (map leaf_digest leaves) in
      hex <$> merkle_loop (length nodes) nodes
  end.

(** ** The loop terminates *)

Lemma pair_level_ind (P : list string -> Prop) :
  P [] -> (forall x, P [x]) -> (forall x y l, P l -> P (x :: y :: l)) -> forall l, P l.
Proof.
  intros P0 P1 P2 l. enough (P l /\ forall x, P (x :: l)) by tauto.
  induction l as [|y l [IHl IHx]]; split; auto.
Qed.

Lemma pair_level_length l : 2 * length (pair_level l) <= S (length l).
Proof. induction l using pair_level_ind; cbn in *; lia. Qed.

Lemma pair_level_nonempty x l : pair_level (x :: l) <> [].
Proof. destruct l; done. Qed.

Lemma merkle_loop_total fuel l : l <> [] -> length l <= fuel -> exists r, merkle_loop fuel l = Some r.
Proof.
  revert l; induction fuel as [|fuel IH]; intros [|x [|y l]] Hne Hl; try done; try (by eexists).
  - cbn in Hl; lia.
  - cbn [merkle_loop]. apply IH; [apply pair_level_nonempty|].
    pose proof (pair_level_length (x :: y :: l)). cbn [length] in *. lia.
Qed.

Lemma merkle_root_total leaves : exists r, merkle_root leaves = Some r.
Proof.
  destruct leaves as [|x l]; [by eexists|]. unfold merkle_root.
  set (nodes := sort_str _).
  destruct (merkle_loop_total (length nodes) nodes) as [r Hr]; [|lia|].
  - intros Hn. pose proof (py_sort_length str_leb (map leaf_digest (x :: l))) as Hl.
    fold sort_str nodes in Hl. rewrite Hn in Hl. done.
  - exists (hex r). by rewrite Hr.
Qed.

(** The byte strings hashed on the way to the root. *)
Definition node_input (p : string * string) : string := NODE +:+ p.1 +:+ p.2.

(** The nodes of a pass are the digests of the adjacent pairs. *)
Fixpoint pairs (l : list string) : list (string * string) :=
  match l with
  | [] => []
  | [x] => [(x, x)]
  | x :: y :: l => (x, y) :: pairs l
  end.

Fixpoint merkle_loop_inputs (fuel : nat) (nodes : list string) : list string :=
  match nodes with
  | [] | [_] => []
  | _ => match fuel with
         | O => []
         | S fuel => map node_input (pairs nodes) ++ merkle_loop_inputs fuel (pair_level nodes)
         end
  end%list.

Definition merkle_inputs (leaves : list string) : list string :=
  match leaves with
  | [] => [EMPTY]
  | _ =>
      let nodes := sort_str (map leaf_digest leaves) in
      map (String.append LEAF) leaves ++ merkle_loop_inputs (length nodes) nodes
  end%list.

(** ** What a root commits to *)

Definition digests (l : list string) : Prop := Forall (fun x => String.length x = 32) l.

Lemma pair_level_digests l : digests (pair_level l).
Proof. induction l using pair_level_ind; repeat constructor; auto using sha256_length. Qed.

Definition node_digest (p : string * string) : string := sha256 (node_input p).

Lemma pair_level_pairs l : pair_level l = map node_digest (pairs l).
Proof. induction l using pair_level_ind; cbn; try done. by f_equal. Qed.

Lemma pairs_elem l x : x ∈ l <-> exists p, p ∈ pairs l /\ (x = p.1 \/ x = p.2).
Proof.
  induction l as [|y|y z l IH] using pair_level_ind; cbn [pairs].
  - split; [by intros ?%elem_of_nil | by intros (p & ?%elem_of_nil & _)].
  - setoid_rewrite list_elem_of_singleton. naive_solver.
  - setoid_rewrite elem_of_cons. rewrite elem_of_cons, IH. naive_solver.
Qed.

Lemma str_app_inj_length a b c d :
  String.length a = String.length c -> a +:+ b = c +:+ d -> a = c /\ b = d.
Proof.
  revert c; induction a as [|x a IH]; intros [|y c]; cbn; try done.
  intros [= Hl]. rewrite !str_app_cons. intros [= -> [-> ->]%IH]; auto.
Qed.

Lemma Forall_or_const {A} (P : A -> Prop) (C : Prop) l :
  Forall (fun x => P x \/ C) l -> Forall P l \/ C.
Proof. induction 1 as [|x l [?|?] _ [?|?]]; auto. Qed.

Lemma digests_pairs l p : digests l -> p ∈ pairs l -> String.length p.1 = 32.
Proof.
  intros Hl Hp. unfold digests in Hl. rewrite list.Forall_forall in Hl.
  apply Hl, pairs_elem. exists p; auto.
Qed.

(** From here on [K] holds every byte string hashed. *)
Section Levels.
Context (K : list string).

(** Every pair of [l] was hashed. *)
Definition hashed_pairs (l : list string) : Prop := forall p, p ∈ pairs l -> node_input p ∈ K.

(** [levels k l r]: [k] passes over [l] leave the single node [r]. *)
Inductive levels : nat -> list string -> string -> Prop :=
| levels_done r : levels 0 [r] r
| levels_pass k l r : hashed_pairs l -> levels k (pair_level l) r -> levels (S k) l r.

Lemma merkle_loop_levels fuel l r :
  merkle_loop fuel l = Some r -> merkle_loop_inputs fuel l ⊆ K -> exists k, levels k l r.
Proof.
  revert l; induction fuel as [|fuel IH]; intros [|x [|y l]]; cbn [merkle_loop merkle_loop_inputs]; try done.
  1, 2: intros [= <-]; exists 0; constructor.
  intros Hr [Hp Hi]%list_subseteq_app_iff_l. destruct (IH _ Hr Hi) as [k Hk]. exists (S k). constructor; [|done].
  intros p Hin. apply Hp, list_elem_of_fmap. by exists p.
Qed.

Lemma levels_split d k l r :
  levels (S d + k) l r ->
  hashed_pairs (Nat.iter d pair_level l) /\ levels k (pair_level (Nat.iter d pair_level l)) r.
Proof.
  revert l; induction d as [|d IH]; intros l Hl; inversion Hl as [|? ? ? Hp Hl']; subst; [done|].
  apply IH in Hl'. by rewrite Nat.iter_succ_r.
Qed.

Lemma node_digest_inj p q :
  node_input p ∈ K -> node_input q ∈ K -> String.length p.1 = 32 -> String.length q.1 = 32 ->
  node_digest p = node_digest q -> p = q \/ collision K.
Proof.
  intros Kp Kq Hp Hq [E|?]%(sha256_inj_in K); [left|by right|done..].
  apply (inj (String.append NODE)) in E.
  apply str_app_inj_length in E as [E1 E2]; [|congruence].
  destruct p, q; cbn in *; congruence.
Qed.

Lemma pass_incl A B :
  hashed_pairs A -> hashed_pairs B -> digests A -> digests B ->
  pair_level A ⊆ pair_level B -> A ⊆ B \/ collision K.
Proof.
  intros KA KB HA HB Hincl.
  assert (Hp : Forall (fun p => p ∈ pairs B \/ collision K) (pairs A)).
  { apply list.Forall_forall. intros p Hp.
    assert (Hq : node_digest p ∈ pair_level B).
    { apply Hincl. rewrite pair_level_pairs. apply list_elem_of_fmap. by exists p. }
    rewrite pair_level_pairs in Hq. apply list_elem_of_fmap in Hq as (q & E & Hq).
    destruct (node_digest_inj p q) as [->|?]; eauto using digests_pairs. }
  apply Forall_or_const in Hp as [Hp|?]; [left|by right].
  intros x. rewrite !pairs_elem. intros (p & Hpin & Hx). exists p. split; [|done].
  rewrite list.Forall_forall in Hp. auto.
Qed.

Lemma same_depth_binding k A B r :
  digests A -> digests B -> levels k A r -> levels k B r ->
  (forall x, x ∈ A <-> x ∈ B) \/ collision K.
Proof.
  revert A B; induction k as [|k IH]; intros A B HA HB H1 H2;
    inversion H1 as [|? ? ? K1 L1]; inversion H2 as [|? ? ? K2 L2]; subst; [by left|].
  destruct (IH _ _ (pair_level_digests A) (pair_level_digests B) L1 L2) as [E|?]; [|by right].
  destruct (pass_incl A B K1 K2 HA HB) as [I1|?]; [intros x; by rewrite E | |by right].
  destruct (pass_incl B A K2 K1 HB HA) as [I2|?]; [intros x; by rewrite E | |by right].
  left. intros x; split; [apply I1|apply I2].
Qed.

Lemma domain_separated l p :
  LEAF +:+ l ∈ K -> node_input p ∈ K -> leaf_digest l = node_digest p -> collision K.
Proof. intros Hl Hp E. by exists (LEAF +:+ l), (node_input p). Qed.

Lemma levels_nonempty k A r : levels k A r -> exists x, x ∈ A.
Proof.
  destruct 1 as [r|k l r _ Hl]; [exists r; by left|].
  destruct l as [|x l]; [|exists x; by left]. cbn in Hl. exfalso.
  remember [] as e eqn:E. induction Hl; subst; [done|auto].
Qed.

Definition leaf_nodes (A : list string) : Prop :=
  forall x, x ∈ A -> exists l, x = leaf_digest l /\ LEAF +:+ l ∈ K.

(** Roots at different depths: a leaf digest is also a node digest. *)
Lemma depth_binding k d A B r :
  digests A -> leaf_nodes A -> digests B ->
  levels k A r -> levels (S d + k) B r -> collision K.
Proof.
  intros HA HlA HB H1 [Kp H2]%levels_split.
  destruct (same_depth_binding k A _ r HA (pair_level_digests _) H1 H2) as [E|?]; [|done].
  destruct (levels_nonempty _ _ _ H1) as [x Hx]. destruct (HlA x Hx) as (l & -> & Hl).
  apply E in Hx. rewrite pair_level_pairs in Hx. apply list_elem_of_fmap in Hx as (p & Ep & Hp).
  apply (domain_separated l p); auto.
Qed.

Lemma levels_binding k m A B r :
  digests A -> leaf_nodes A -> digests B -> leaf_nodes B ->
  levels k A r -> levels m B r -> (forall x, x ∈ A <-> x ∈ B) \/ collision K.
Proof.
  intros HA HlA HB HlB H1 H2. destruct (Nat.lt_trichotomy k m) as [Hlt|[->|Hlt]].
  - right. replace m with (S (m - S k) + k) in H2 by lia. eauto using depth_binding.
  - eauto using same_depth_binding.
  - right. replace k with (S (k - S m) + m) in H1 by lia. eauto using depth_binding.
Qed.

Lemma sorted_leaves_elem leaves x :
  x ∈ sort_str (map leaf_digest leaves) <-> exists l, x = leaf_digest l /\ l ∈ leaves.
Proof. unfold sort_str. rewrite py_sort_elem. apply list_elem_of_fmap. Qed.

Lemma sorted_leaves_ok leaves :
  (forall l, l ∈ leaves -> LEAF +:+ l ∈ K) ->
  digests (sort_str (map leaf_digest leaves)) /\ leaf_nodes (sort_str (map leaf_digest leaves)).
Proof.
  intros HK. split.
  - apply list.Forall_forall. intros x (l & -> & _)%sorted_leaves_elem. apply sha256_length.
  - intros x (l & -> & ?)%sorted_leaves_elem. exists l. auto.
Qed.

Lemma leaves_incl l1 l2 :
  (forall l, l ∈ l1 -> LEAF +:+ l ∈ K) -> (forall l, l ∈ l2 -> LEAF +:+ l ∈ K) ->
  (forall x, x ∈ sort_str (map leaf_digest l1) -> x ∈ sort_str (map leaf_digest l2)) ->
  (forall x, x ∈ l1 -> x ∈ l2) \/ collision K.
Proof.
  intros K1 K2 Hi. assert (HF : Forall (fun x => x ∈ l2 \/ collision K) l1).
  { apply list.Forall_forall. intros x Hx.
    destruct (proj1 (sorted_leaves_elem l2 (leaf_digest x))) as (y & E & Hy).
    - apply Hi, sorted_leaves_elem. eauto.
    - apply (sha256_inj_in K) in E as [E|?]; [|by right|auto..].
      apply (inj (String.append LEAF)) in E. subst y. by left. }
  apply Forall_or_const in HF as [HF|?]; [left|by right].
  by rewrite list.Forall_forall in HF.
Qed.

Lemma levels_zero l r : levels 0 l r -> r ∈ l.
Proof. inversion 1; subst. by left. Qed.

(** No leaf set has the root of the empty set. *)
Lemma empty_root_levels k leaves r :
  EMPTY ∈ K -> (forall l, l ∈ leaves -> LEAF +:+ l ∈ K) ->
  levels k (sort_str (map leaf_digest leaves)) r -> sha256 EMPTY = r -> collision K.
Proof.
  intros K0 KL Hl <-. destruct k as [|k].
  - apply levels_zero, sorted_leaves_elem in Hl as (l & E & Hl). exists EMPTY, (LEAF +:+ l). auto.
  - rewrite <- (Nat.add_0_r (S k)) in Hl. apply levels_split in Hl as [Kp Hl]. apply levels_zero in Hl.
    rewrite pair_level_pairs in Hl. apply list_elem_of_fmap in Hl as (p & E & Hp).
    exists EMPTY, (node_input p). auto.
Qed.

Lemma merkle_root_levels x l r :
  merkle_root (x :: l) = Some r -> merkle_inputs (x :: l) ⊆ K ->
  (forall y, y ∈ x :: l -> LEAF +:+ y ∈ K) /\
  exists r' k, r = hex r' /\ levels k (sort_str (map leaf_digest (x :: l))) r'.
Proof.
  unfold merkle_root, merkle_inputs. intros (r' & Hr & ->)%fmap_Some [Hl Hi]%list_subseteq_app_iff_l. split.
  - intros y Hy. apply Hl, list_elem_of_fmap. by exists y.
  - destruct (merkle_loop_levels _ _ _ Hr Hi) as [k Hk]. eauto.
Qed.

Lemma root_leaves l1 l2 :
  merkle_inputs l1 ⊆ K -> merkle_inputs l2 ⊆ K ->
  merkle_root l1 = merkle_root l2 -> (forall x, x ∈ l1 <-> x ∈ l2) \/ collision K.
Proof.
  intros K1 K2 E. destruct (merkle_root_total l1) as [r Hr1]. pose proof Hr1 as Hr2. rewrite E in Hr2.
  assert (K0 : merkle_inputs [] ⊆ K -> EMPTY ∈ K) by (intros HK; apply HK; by left).
  destruct l1 as [|x l1], l2 as [|y l2]; [by left| | |].
  - apply merkle_root_levels in Hr2 as (KL & r' & k & -> & Hl); [|done]. injection Hr1 as E1%hex_inj.
    right. eapply empty_root_levels; eauto.
  - apply merkle_root_levels in Hr1 as (KL & r' & k & -> & Hl); [|done]. injection Hr2 as E1%hex_inj.
    right. eapply empty_root_levels; eauto.
  - apply merkle_root_levels in Hr1 as (KL1 & r1 & k & -> & Hl1); [|done].
    apply merkle_root_levels in Hr2 as (KL2 & r2 & m & E2%hex_inj & Hl2); [|done]. subst r2.
    destruct (sorted_leaves_ok _ KL1) as [D1 N1], (sorted_leaves_ok _ KL2) as [D2 N2].
    destruct (levels_binding k m _ _ r1 D1 N1 D2 N2 Hl1 Hl2) as [Es|?]; [|by right].
    destruct (leaves_incl _ _ KL1 KL2) as [I1|?]; [intros z; apply Es| |by right].
    destruct (leaves_incl _ _ KL2 KL1) as [I2|?]; [intros z; apply Es| |by right].
    left. intros z; split; [apply I1|apply I2].
Qed.
End Levels.

Lemma merkle_root_perm l l' : l ≡ₚ l' -> merkle_root l = merkle_root l'.
Proof.
  intros Hp. unfold merkle_root.
  assert (E : sort_str (map leaf_digest l) = sort_str (map leaf_digest l'))
    by by apply sort_str_perm, Permutation_map.
  rewrite E. destruct l as [|x l], l' as [|y l']; try done.
  - by apply Permutation_nil_cons in Hp.
  - by apply Permutation_sym, Permutation_nil_cons in Hp.
Qed.

(** The Merkle root is a commitment to the set of leaves.  Every list of leaves has a
    root, which does not depend on the order of the leaves; and two lists with the same
    root have the same elements, or two of the byte strings hashed on the way to the roots
    collide. *)
Theorem merkle_root_binding l1 l2 :
  (exists r, merkle_root l1 = Some r) /\
  (l1 ≡ₚ l2 -> merkle_root l1 = merkle_root l2) /\
  (merkle_root l1 = merkle_root l2 ->
     (forall x, x ∈ l1 <-> x ∈ l2) \/ collision (merkle_inputs l1 ++ merkle_inputs l2)).
Proof.
  split; [apply merkle_root_total|]. split; [apply merkle_root_perm|].
  apply root_leaves; set_solver.
Qed.

Lemma canonical_hash_ok v h :
  canonical_hash v = Ok h <-> exists j, normalize v = Ok j /\ h = sha256_hex (json_dumps j).
Proof.
  unfold canonical_hash. rewrite bind_ok. setoid_rewrite canonical_bytes_ok. split.
  - intros (b & (j & Hj & ->) & [= <-]). eauto.
  - intros (j & Hj & ->). eauto.
Qed.

(** The bytes [canonical_hash] hashes. *)
Definition preimage (value : pyval) : list string :=
  match canonical_bytes value with Ok data => [data] | Err _ => [] end.

Lemma preimage_ok v j : normalize v = Ok j -> preimage v = [json_dumps j].
Proof. intros Hj. unfold preimage. by rewrite (proj2 (canonical_bytes_ok v (json_dumps j))) by eauto. Qed.

Lemma preimage_same v v' : same_value v v' -> preimage v = preimage v'.
Proof.
  intros Hs. destruct (normalize v) as [j|e] eqn:Hj.
  - destruct (normalize_same _ _ _ Hs Hj) as (j' & Hj' & E).
    by rewrite (preimage_ok _ _ Hj), (preimage_ok _ _ Hj'), (json_dumps_proper _ _ E).
  - destruct (normalize v') as [j'|e'] eqn:Hj'.
    + destruct (normalize_same _ _ _ (same_sym _ _ Hs) Hj') as (j & Hn & _). congruence.
    + unfold preimage, canonical_bytes. by rewrite Hj, Hj'.
Qed.

(** Equal canonical hashes: equal normal forms, or the hashed bytes collide. *)
Lemma canonical_hash_binding v v' h :
  canonical_hash v = Ok h -> canonical_hash v' = Ok h ->
  (exists j j', normalize v = Ok j /\ normalize v' = Ok j' /\ j ≡ j') \/ collision (preimage v ++ preimage v').
Proof.
  intros (j & Hj & ->)%canonical_hash_ok (j' & Hj' & E)%canonical_hash_ok.
  rewrite (preimage_ok _ _ Hj), (preimage_ok _ _ Hj').
  apply sha256_hex_inj_or in E as [E|?]; [|by right]. left. exists j, j'.
  repeat split; try done. by apply json_dumps_inj.
Qed.

Lemma canonical_hash_hex v h : canonical_hash v = Ok h -> is_hex64 h = true.
Proof. intros (j & _ & ->)%canonical_hash_ok. auto with wiki. Qed.
End Hashing.

(** ** Evaluations *)

(** With the truncating digest two long leaves share their root, through a collision. *)
Definition long_leaf (c : ascii) : string := "0123456789012345678901234567890123456789" +:+ String c "".

Lemma merkle_root_binding_witness :
  merkle_root (D := pad_digest) ["a"; "b"; "c"] = merkle_root (D := pad_digest) ["c"; "a"; "b"] /\
  ((forall x, x ∈ [long_leaf "a"] <-> x ∈ [long_leaf "b"]) \/
   collision (D := pad_digest)
     (merkle_inputs (D := pad_digest) [long_leaf "a"] ++ merkle_inputs (D := pad_digest) [long_leaf "b"])).
Proof.
  split.
  - apply (merkle_root_binding (D := pad_digest)).
    change (["a"; "b"] ++ ["c"] ≡ₚ ["c"] ++ ["a"; "b"])%list. apply Permutation_app_comm.
  - apply (merkle_root_binding (D := pad_digest)). reflexivity.
Defined.

(** With SHA-256 itself, the strings hashed for two small trees do not collide. *)
Example merkle_sample_no_collision :
  ~ collision (D := sha256_digest)
      (merkle_inputs (D := sha256_digest) ["a"; "b"] ++ merkle_inputs (D := sha256_digest) ["a"]).
Proof. apply (bool_decide_unpack _). vm_compute. exact I. Qed.

(** An odd level pairs its last node with itself, so the root does not determine how often
    the last leaf occurs: it commits to the set of leaves, not to the multiset. *)
Example merkle_root_last_repeated :
  merkle_root (D := pad_digest) ["a"; "b"; "c"] = merkle_root (D := pad_digest) ["a"; "b"; "c"; "c"].
Proof. reflexivity. Qed.
