(* ===== verification/Text.v ===== *)
(** * Texts as sequences of characters

    Python's [str] operations that count characters, on the list of a text's characters
    ([Prelude.chars]): slices, search, [splitlines], [split], [strip], and the part of [re]
    the program uses.  What the Unicode character database says beyond ASCII (lower case,
    which characters are alphanumeric) is the classes [UnicodeCase] and [UnicodeWord]. *)
From S2P Require Import Prelude Digest Json Canonical.
Open Scope string_scope.

(** [str.lower] beyond ASCII is the Unicode standard's. *)
Class UnicodeCase : Type := {
  py_lower : string -> string;
  py_lower_ascii : forall s, is_ascii s = true -> is_ascii (py_lower s) = true;
}.

(** [str.isalnum] of one character. *)
Class UnicodeWord : Type := { char_isalnum : string -> bool }.

Notation text := (list string).

Definition str_concat (l : text) : string := foldr String.append "" l.
(** [s[:n]] *)
Definition str_prefix (n : nat) (s : string) : string := str_concat (take n (chars s)).

(** [t[i:j]] for [0 <= i <= j <= len(t)]. *)
Definition slice (i j : nat) (t : text) : text := take (j - i) (drop i t).

(** ** Search *)

(** What follows [k] at the start of [t]. *)
Fixpoint after_prefix (k t : text) : option text :=
  match k, t with
  | [], _ => Some t
  | x :: k, y :: t => if String.eqb x y then after_prefix k t else None
  | _ :: _, [] => None
  end.

(** [t.find(k)], [t.index(k)]: the first occurrence. *)
Fixpoint find_sub (k t : text) : option nat :=
  match after_prefix k t with
  | Some _ => Some 0
  | None => match t with [] => None | _ :: t => S <$> find_sub k t end
  end.

(** [t.count(k)] for a non-empty [k]: after an occurrence the search goes on behind it. *)
Fixpoint count_from (skip : nat) (k t : text) : nat :=
  match t with
  | [] => 0
  | _ :: t' =>
      match skip with
      | S n => count_from n k t'
      | 0 => match after_prefix k t with
             | Some _ => S (count_from (length k - 1) k t')
             | None => count_from 0 k t'
             end
      end
  end.
Definition count_sub (k t : text) : nat := count_from 0 k t.

(** ** Lines, fields and blanks *)

Definition char_of (n : N) : string := String (ascii_of_N n) "".

(** The characters of [str.isspace]; [\s] in a pattern on text. *)
Definition is_space (c : string) : bool :=
  match c with
  | String a EmptyString => ws1 a
  | String a (String b EmptyString) => ws2 a b
  | String a (String b (String d EmptyString)) => ws3 a b d
  | _ => false
  end.

(** Line boundaries of [str.splitlines] other than "\r\n": \n \v \f \r, U+001C to U+001E,
    U+0085, U+2028 and U+2029. *)
Definition is_linebreak (c : string) : bool :=
  match c with
  | String a EmptyString =>
      let n := N_of_ascii a in ((10 <=? n) && (n <=? 13) || (28 <=? n) && (n <=? 30))%N
  | String a (String b EmptyString) => ((N_of_ascii a =? 194) && (N_of_ascii b =? 133))%N
  | String a (String b (String d EmptyString)) =>
      ((N_of_ascii a =? 226) && (N_of_ascii b =? 128) && ((N_of_ascii d =? 168) || (N_of_ascii d =? 169)))%N
  | _ => false
  end.

Definition CR : string := char_of 13.
Definition LF : string := char_of 10.

(** [t.splitlines(keepends=True)] *)
Fixpoint splitlines (t : text) : list text :=
  match t with
  | [] => []
  | c :: t' =>
      let rest := splitlines t' in
      let joins := match t' with
                   | d :: _ => if String.eqb c CR then String.eqb d LF else negb (is_linebreak c)
                   | [] => negb (is_linebreak c)
                   end in
      match rest with
      | l :: ls => if joins then (c :: l) :: ls else [c] :: rest
      | [] => [[c]]
      end
  end.

(** [t.split(c)] *)
Fixpoint split_on (c : string) (t : text) : list text :=
  match t with
  | [] => [[]]
  | x :: t =>
      let rest := split_on c t in
      if String.eqb x c then [] :: rest
      else match rest with f :: fs => (x :: f) :: fs | [] => [[x]] end
  end.

(** [t.split(c, 1)], when [c] occurs: what is before and after the first one. *)
Fixpoint split_once (c : string) (t : text) : option (text * text) :=
  match t with
  | [] => None
  | x :: t => if String.eqb x c then Some ([], t)
              else p ← split_once c t; Some (x :: p.1, p.2)
  end.

(** [t.count(c)] *)
Definition count_char (c : string) (t : text) : nat := length (List.filter (String.eqb c) t).

Fixpoint lstrip (t : text) : text :=
  match t with c :: t' => if is_space c then lstrip t' else t | [] => [] end.
Fixpoint rstrip (t : text) : text :=
  match t with
  | [] => []
  | c :: t' => match lstrip t with [] => [] | _ => c :: rstrip t' end
  end.
Definition strip (t : text) : text := rstrip (lstrip t).

(** [t.replace("\r\n", "\n").replace("\r", "\n")] *)
Fixpoint replace_crlf (t : text) : text :=
  match t with
  | c :: (d :: t'') as t' =>
      if String.eqb c CR && String.eqb d LF then LF :: replace_crlf t'' else c :: replace_crlf t'
  | _ => t
  end.
Definition replace_cr (t : text) : text := map (fun c => if String.eqb c CR then LF else c) t.
Definition newlines (t : text) : text := replace_cr (replace_crlf t).

(** ** [int] of a text *)

Definition digit_of (c : ascii) : option N :=
  let n := N_of_ascii c in if ((48 <=? n) && (n <=? 57))%N then Some (n - 48)%N else None.

(** Decimal digits; an underscore may stand between two of them. *)
Fixpoint int_digits (acc : N) (s : string) : option N :=
  match s with
  | EmptyString => Some acc
  | String c s' =>
      match digit_of c with
      | Some d => int_digits (d + 10 * acc)%N s'
      | None =>
          if Ascii.eqb c "_"
          then match s' with
               | String c' s'' => d ← digit_of c'; int_digits (d + 10 * acc)%N s''
               | EmptyString => None
               end
          else None
      end
  end.

Definition int_unsigned (s : string) : option N :=
  match s with String c s' => d ← digit_of c; int_digits d s' | EmptyString => None end.

Fixpoint digit_count (s : string) : nat :=
  match s with
  | EmptyString => 0
  | String c s => (if digit_of c then 1 else 0) + digit_count s
  end.

(** [int(s)]; digits of other scripts than ASCII are not read. *)
Definition int_text (s : string) : option Z :=
  if (INT_MAX_STR_DIGITS <? digit_count s)%nat then None
  else match py_strip s with
       | String "-" s => n ← int_unsigned s; Some (- Z.of_N n)%Z
       | String "+" s => n ← int_unsigned s; Some (Z.of_N n)
       | s => n ← int_unsigned s; Some (Z.of_N n)
       end.

(** ** Patterns: the part of [re] used on text *)

(** Literal text, a word boundary, blanks [\s*], an optional text, one of some texts. *)
Inductive re_item : Type :=
| Lit (s : string) | Boundary | Spaces | Opt (s : string) | OneOf (alts : list string).
Notation pattern := (list re_item).

Section Patterns.
Context {W : UnicodeWord}.

(** [\w] *)
Definition is_word (c : string) : bool := char_isalnum c || String.eqb c "_".

(** Whether the last character of [k], or of what was before it, is a word character. *)
Definition word_after (before : bool) (k : text) : bool := foldl (fun _ c => is_word c) before k.
Definition word_next (t : text) : bool := match t with c :: _ => is_word c | [] => false end.

(** A match of the items at the start of [t]; [before] says whether the character before
    is a word character. *)
Fixpoint re_match (p : pattern) (before : bool) (t : text) : bool :=
  let lit k rest :=
    match after_prefix k t with Some t' => re_match rest (word_after before k) t' | None => false end in
  match p with
  | [] => true
  | Lit s :: p => lit (chars s) p
  | Boundary :: p => xorb before (word_next t) && re_match p before t
  | Spaces :: p =>
      (fix blanks (before : bool) (t : text) : bool :=
         re_match p before t ||
         match t with c :: t' => is_space c && blanks (is_word c) t' | [] => false end) before t
  | Opt s :: p => lit (chars s) p || re_match p before t
  | OneOf alts :: p => existsb (fun s => lit (chars s) p) alts
  end.

Fixpoint re_search_from (p : pattern) (before : bool) (t : text) : bool :=
  re_match p before t || match t with c :: t' => re_search_from p (is_word c) t' | [] => false end.

(** [re.search(p, t)] *)
Definition re_search (p : pattern) (t : text) : bool := re_search_from p false t.
End Patterns.

(** ** Lemmas *)

Lemma str_concat_chars s : str_concat (chars s) = s.
Proof.
  induction s as [|c s IH]; [done|]. destruct s as [|d s]; [done|]. rewrite chars_two.
  destruct (chars_nonempty d s) as (x & xs & E). rewrite E in *. cbn in IH.
  destruct (is_continuation d); cbn; by rewrite <- IH.
Qed.

Lemma chars_nil s : chars s = [] -> s = "".
Proof. destruct s as [|c s]; [done|]. destruct (chars_nonempty c s) as (x & xs & ->). done. Qed.

Lemma after_prefix_spec k t t' : after_prefix k t = Some t' <-> t = (k ++ t')%list.
Proof.
  revert t; induction k as [|x k IH]; intros [|y t]; cbn; try (split; [done | naive_solver]); [naive_solver..|].
  destruct (String.eqb_spec x y) as [->|]; [rewrite IH|]; naive_solver.
Qed.

Lemma after_prefix_app k t : after_prefix k (k ++ t) = Some t.
Proof. by apply after_prefix_spec. Qed.

Lemma slice_app a k b : slice (length a) (length a + length k) (a ++ k ++ b) = k.
Proof.
  unfold slice. rewrite drop_app_length. replace (length a + length k - length a) with (length k) by lia.
  by rewrite take_app_length.
Qed.

(** A slice of a part, seen from the whole. *)
Lemma slice_inside a l b i j :
  j <= length l -> slice (length a + i) (length a + j) (a ++ l ++ b) = slice i j l.
Proof.
  intros Hj. unfold slice. replace (length a + j - (length a + i)) with (j - i) by lia.
  rewrite <- drop_drop, drop_app_length. destruct (decide (i <= j)).
  - rewrite drop_app_le by lia. by rewrite take_app_le by (rewrite length_drop; lia).
  - by replace (j - i) with 0 by lia.
Qed.

Lemma slice_length i j t : i <= j -> j <= length t -> length (slice i j t) = j - i.
Proof. intros. unfold slice. rewrite length_take, length_drop. lia. Qed.

Lemma slice_split i j t : i <= j -> j <= length t -> t = (take i t ++ slice i j t ++ drop j t)%list.
Proof.
  intros Hi Hj. unfold slice. rewrite <- (take_drop i t) at 1. f_equal.
  rewrite <- (take_drop (j - i) (drop i t)) at 1. f_equal. rewrite drop_drop. f_equal. lia.
Qed.

(** [k] stands at position [i] of [t]. *)
Definition occurs_at (k t : text) (i : nat) : Prop := i + length k <= length t /\ slice i (i + length k) t = k.

Lemma occurs_at_spec k t i : occurs_at k t i <-> exists a b, t = (a ++ k ++ b)%list /\ length a = i.
Proof.
  split.
  - intros [Hl Hk]. exists (take i t), (drop (i + length k) t). rewrite <- Hk at 1. split.
    + apply slice_split; lia.
    + apply length_take_le. lia.
  - intros (a & b & -> & <-). split; [rewrite !length_app; lia | apply slice_app].
Qed.

Lemma occurs_cons k c t i : occurs_at k (c :: t) (S i) <-> occurs_at k t i.
Proof. unfold occurs_at, slice. cbn. by rewrite <- Nat.succ_le_mono. Qed.

Lemma occurs_here k t : occurs_at k t 0 <-> is_Some (after_prefix k t).
Proof.
  rewrite occurs_at_spec. split.
  - intros ([|? ?] & b & -> & Hl); [|done]. exists b. exact (after_prefix_app k b).
  - intros [b ->%after_prefix_spec]. by exists [], b.
Qed.

(** [find] gives the first occurrence, and [None] when there is none. *)
Lemma find_sub_spec k t :
  match find_sub k t with
  | Some i => occurs_at k t i /\ forall j, occurs_at k t j -> i <= j
  | None => forall j, ~ occurs_at k t j
  end.
Proof.
  induction t as [|c t IH].
  - cbn. pose proof (occurs_here k []) as H0. destruct (after_prefix k []) as [r|].
    + split; [by apply H0 | lia].
    + intros j Hj. destruct Hj as [Hl Hk]. destruct j; [|cbn in Hl; lia].
      destruct (proj1 H0 (conj Hl Hk)) as [? [=]].
  - cbn [find_sub]. pose proof (occurs_here k (c :: t)) as H0. destruct (after_prefix k (c :: t)) as [r|].
    + split; [by apply H0 | lia].
    + assert (Hno : ~ occurs_at k (c :: t) 0) by (intros [? [=]]%H0).
      destruct (find_sub k t) as [i|]; cbn.
      * destruct IH as [Hi Hmin]. split; [by apply occurs_cons|]. intros [|j] Hj; [done|].
        apply le_n_S, Hmin. by apply occurs_cons in Hj.
      * intros [|j] Hj; [done|]. apply occurs_cons in Hj. by apply (IH j).
Qed.

Lemma count_from_find n k t : count_from n k t <> 0 -> is_Some (find_sub k t).
Proof.
  revert n; induction t as [|c t IH]; intros n; [done|]. cbn [count_from find_sub].
  destruct n as [|n].
  - destruct (after_prefix k (c :: t)); [by intros _; eexists|]. intros H. apply IH in H as [i ->]. by eexists.
  - intros H. apply IH in H as [i Hi]. rewrite Hi. destruct (after_prefix k (c :: t)); by eexists.
Qed.

Lemma splitlines_concat t : concat (splitlines t) = t.
Proof.
  induction t as [|c t IH]; [done|]. cbn [splitlines].
  destruct (splitlines t) as [|l ls] eqn:E; cbn in *.
  - destruct t as [|d t]; [done|]. discriminate IH.
  - destruct (match t with [] => _ | _ => _ end); cbn; by rewrite <- IH.
Qed.

Lemma lstrip_split t : exists a, t = (a ++ lstrip t)%list.
Proof.
  induction t as [|c t [a IH]]; cbn; [by exists []|]. destruct (is_space c); [|by exists []].
  exists (c :: a). cbn. by rewrite <- IH.
Qed.

Lemma rstrip_split t : exists b, t = (rstrip t ++ b)%list.
Proof.
  induction t as [|c t [b IH]]; [by exists []|]. cbn [rstrip].
  destruct (lstrip (c :: t)); [by exists (c :: t)|]. exists b. cbn. by rewrite <- IH.
Qed.

Lemma strip_split t : exists a b, t = (a ++ strip t ++ b)%list.
Proof.
  destruct (lstrip_split t) as [a Ha], (rstrip_split (lstrip t)) as [b Hb]. exists a, b.
  unfold strip. by rewrite <- Hb.
Qed.

(** A stripped line can be found in the line. *)
Lemma find_strip t : exists i, find_sub (strip t) t = Some i /\ occurs_at (strip t) t i.
Proof.
  pose proof (find_sub_spec (strip t) t) as H. destruct (find_sub (strip t) t) as [i|].
  - exists i. split; [done | apply H].
  - destruct (strip_split t) as (a & b & E). destruct (H (length a)). apply occurs_at_spec. by exists a, b.
Qed.

(** ** [int(str(n))] *)

Definition is_digit (c : ascii) : bool := if digit_of c then true else false.

Lemma digits_no_space s : str_forall is_digit s = true -> py_strip s = s.
Proof.
  assert (Hd : forall c, is_digit c = true -> ws1 c = false /\ (forall b, ws2 c b = false) /\ forall b d, ws3 c b d = false).
  { intros c. unfold is_digit, digit_of, ws1, ws2, ws3.
    destruct (((48 <=? N_of_ascii c) && (N_of_ascii c <=? 57))%N) eqn:E; [intros _|done].
    apply andb_true_iff in E as [E1%N.leb_le E2%N.leb_le].
    repeat split; intros; repeat match goal with |- context [(?a =? ?b)%N] => destruct (N.eqb_spec a b); [lia|] end;
      cbn; try done.
    destruct (N.leb_spec (N_of_ascii c) 13), (N.leb_spec (N_of_ascii c) 32), (N.leb_spec 9 (N_of_ascii c)); done || lia. }
  assert (Hl : forall s, str_forall is_digit s = true -> py_lstrip s = s).
  { intros [|c t]; [done|]. cbn [str_forall]. intros [Hc _]%andb_true_iff.
    destruct (Hd c Hc) as (H1 & H2 & H3). cbn [py_lstrip]. rewrite H1. destruct t as [|b [|d t]]; [done|..].
    - by rewrite H2.
    - by rewrite H2, H3. }
  intros Hs. unfold py_strip. rewrite (Hl s Hs). revert Hs. induction s as [|c s IH]; [done|].
  intros Hs. cbn [py_rstrip]. rewrite (Hl _ Hs). cbn in Hs. apply andb_true_iff in Hs as [_ Hs]. cbn. by rewrite IH.
Qed.

Lemma string_of_uint_digits u : str_forall is_digit (NilEmpty.string_of_uint u) = true.
Proof. induction u as [|u IH|u IH|u IH|u IH|u IH|u IH|u IH|u IH|u IH|u IH]; cbn; done. Qed.

Lemma digit_count_uint u : digit_count (NilEmpty.string_of_uint u) = Decimal.nb_digits u.
Proof. induction u as [|u IH|u IH|u IH|u IH|u IH|u IH|u IH|u IH|u IH|u IH]; cbn; [done|by f_equal..]. Qed.

Lemma int_digits_uint u acc :
  int_digits (Npos acc) (NilEmpty.string_of_uint u) = Some (Npos (Pos.of_uint_acc u acc)).
Proof.
  revert acc; induction u as [|u IH|u IH|u IH|u IH|u IH|u IH|u IH|u IH|u IH|u IH]; intros acc; [done|..];
    cbn [NilEmpty.string_of_uint int_digits]; (etransitivity; [|apply IH]); reflexivity.
Qed.

Lemma int_digits_zero u : int_digits 0 (NilEmpty.string_of_uint u) = Some (Pos.of_uint u).
Proof.
  induction u as [|u IH|u IH|u IH|u IH|u IH|u IH|u IH|u IH|u IH|u IH]; [done|exact IH|..];
    (etransitivity; [|apply int_digits_uint]); reflexivity.
Qed.

Lemma int_unsigned_uint u : u <> Decimal.Nil -> int_unsigned (NilZero.string_of_uint u) = Some (N.of_uint u).
Proof. destruct u as [|u|u|u|u|u|u|u|u|u|u]; intros Hn; [done | exact (int_digits_zero u) | exact (int_digits_uint u _) ..]. Qed.

Lemma of_uint_acc_large u acc : (Npos acc * 10 ^ N.of_nat (Decimal.nb_digits u) <= Npos (Pos.of_uint_acc u acc))%N.
Proof.
  assert (Hs : forall n a b c, (10 * b <= a -> a * 10 ^ N.of_nat n <= c -> b * 10 ^ N.of_nat (S n) <= c)%N).
  { intros n a b c. rewrite Nat2N.inj_succ, N.pow_succ_r'. nia. }
  revert acc; induction u as [|u IH|u IH|u IH|u IH|u IH|u IH|u IH|u IH|u IH|u IH]; intros acc;
    [cbn; lia | (eapply Hs; [|apply IH]; lia)..].
Qed.

(** A number below 10^k has at most k digits. *)
Lemma str_of_N_digits n k : (0 < k)%nat -> (n < 10 ^ N.of_nat k)%N -> digit_count (str_of_N n) <= k.
Proof.
  intros Hk Hn. unfold str_of_N. pose proof (DecimalN.Unsigned.of_to n) as Hof.
  pose proof (DecimalN.Unsigned.to_of (N.to_uint n)) as Hto. rewrite Hof in Hto.
  destruct (N.to_uint n) as [|u|u|u|u|u|u|u|u|u|u] eqn:E; [by apply to_uint_nonnil in E|..];
    cbn [NilZero.string_of_uint]; rewrite digit_count_uint; cbn [Decimal.nb_digits].
  1: { unfold Decimal.unorm in Hto. cbn [Decimal.nzhead] in Hto. destruct (Decimal.nzhead u) eqn:Eu; try discriminate Hto.
       - injection Hto as ->. cbn. lia.
       - by destruct (DecimalFacts.nzhead_nonzero u u0). }
  all: apply Nat.lt_nge; intros Hlt; apply (N.lt_irrefl n); eapply N.lt_le_trans; [exact Hn|];
    rewrite <- Hof; cbn [N.of_uint Pos.of_uint];
    (etransitivity; [|apply of_uint_acc_large]);
    (etransitivity; [|apply N.mul_le_mono_r with (n := 1%N); lia]);
    rewrite N.mul_1_l; apply N.pow_le_mono_r; lia.
Qed.

(** Sizes in memory are below [sys.maxsize]. *)
Definition maxsize : N := 2 ^ 63.

Lemma int_text_of_N n : (n < maxsize)%N -> int_text (str_of_N n) = Some (Z.of_N n).
Proof.
  intros Hn. pose proof (str_of_N_digits n 19 ltac:(lia)) as Hd. unfold int_text.
  destruct (Nat.ltb_spec INT_MAX_STR_DIGITS (digit_count (str_of_N n))) as [Hl|_].
  { unfold INT_MAX_STR_DIGITS, maxsize in *. assert (n < 10 ^ N.of_nat 19)%N by (cbn; lia).
    specialize (Hd ltac:(done)). lia. }
  unfold str_of_N. rewrite <- (DecimalN.Unsigned.of_to n) at 2. pose proof (to_uint_nonnil n) as Hnil.
  rewrite digits_no_space by (destruct (N.to_uint n); [done | apply string_of_uint_digits ..]).
  pose proof (int_unsigned_uint _ Hnil) as Hu. destruct (N.to_uint n); [done|..]; cbn iota;
    (etransitivity; [exact (f_equal (fun o => x ← o; Some (Z.of_N x)) Hu) | reflexivity]).
Qed.

(** ** What a pattern matches *)
Section PatternLemmas.
Context {W : UnicodeWord}.

(** [matches p before t t']: the items match a prefix of [t] and leave [t']. *)
Inductive matches : pattern -> bool -> text -> text -> Prop :=
| match_end before t : matches [] before t t
| match_lit s p before t t' :
    matches p (word_after before (chars s)) t t' -> matches (Lit s :: p) before (chars s ++ t) t'
| match_boundary p before t t' :
    before <> word_next t -> matches p before t t' -> matches (Boundary :: p) before t t'
| match_spaces k p before t t' :
    Forall (fun c => is_space c = true) k -> matches p (word_after before k) t t' ->
    matches (Spaces :: p) before (k ++ t) t'
| match_opt_one s p before t t' :
    matches p (word_after before (chars s)) t t' -> matches (Opt s :: p) before (chars s ++ t) t'
| match_opt_none s p before t t' : matches p before t t' -> matches (Opt s :: p) before t t'
| match_one_of s alts p before t t' :
    s ∈ alts -> matches p (word_after before (chars s)) t t' -> matches (OneOf alts :: p) before (chars s ++ t) t'.
Hint Constructors matches : wiki.

Lemma lit_spec k (f : bool -> text -> bool) before t :
  match after_prefix k t with Some t' => f (word_after before k) t' | None => false end = true <->
  exists t1, t = (k ++ t1)%list /\ f (word_after before k) t1 = true.
Proof.
  pose proof (after_prefix_spec k t) as H. destruct (after_prefix k t) as [t'|].
  - specialize (proj1 (H t') eq_refl) as Ht. split; [by exists t'|]. intros (t1 & Ht1 & Hf).
    assert (t1 = t') as -> by (rewrite Ht in Ht1; by apply app_inv_head in Ht1). done.
  - split; [done|]. intros (t1 & Ht1 & _). by apply H in Ht1.
Qed.

Lemma blanks_spec (f : bool -> text -> bool) before t :
  (fix blanks (before : bool) (t : text) : bool :=
     f before t || match t with c :: t' => is_space c && blanks (is_word c) t' | [] => false end) before t = true <->
  exists k t1, t = (k ++ t1)%list /\ Forall (fun c => is_space c = true) k /\ f (word_after before k) t1 = true.
Proof.
  revert before; induction t as [|c t IH]; intros before; rewrite orb_true_iff.
  - split; [intros [Hf|[=]]; by exists [], []|]. intros ([|? ?] & t1 & E & _ & Hf); [|done]. cbn in E. subst. by left.
  - rewrite andb_true_iff, IH. split.
    + intros [Hf|(Hc & k & t1 & -> & Hk & Hf)]; [by exists [], (c :: t)|].
      exists (c :: k), t1. split; [done|]. split; [by constructor | done].
    + intros ([|c' k] & t1 & E & Hk & Hf); [left; cbn in E; by subst|]. injection E as <- ->. right.
      apply list.Forall_cons in Hk as [Hc Hk]. split; [done|]. by exists k, t1.
Qed.

Lemma re_match_spec p before t : re_match p before t = true <-> exists t', matches p before t t'.
Proof.
  revert before t; induction p as [|i p IH]; intros before t; [split; eauto with wiki|].
  destruct i as [s| | |s|alts]; cbn [re_match].
  - rewrite lit_spec. setoid_rewrite IH. split.
    + intros (t1 & -> & t' & H). eauto with wiki.
    + intros (t' & H). inversion H; subst. eauto.
  - rewrite andb_true_iff, IH. split.
    + intros (Hb & t' & H). exists t'. constructor; [|done]. by destruct before, (word_next t).
    + intros (t' & H). inversion H; subst. split; [by destruct before, (word_next t) | eauto].
  - rewrite blanks_spec. setoid_rewrite IH. split.
    + intros (k & t1 & -> & Hk & t' & H). eauto with wiki.
    + intros (t' & H). inversion H; subst. eauto 6.
  - rewrite orb_true_iff, lit_spec, IH. setoid_rewrite IH. split.
    + intros [(t1 & -> & t' & H)|[t' H]]; eauto with wiki.
    + intros (t' & H). inversion H; subst; eauto.
  - rewrite existsb_exists. setoid_rewrite lit_spec. setoid_rewrite IH. setoid_rewrite <- list_elem_of_In. split.
    + intros (s & Hs & t1 & -> & t' & H). eauto with wiki.
    + intros (t' & H). inversion H; subst. eauto 6.
Qed.

(** [re.search] finds the pattern just when it matches somewhere in the text. *)
Lemma re_search_spec p t :
  re_search p t = true <-> exists a t1 t2, t = (a ++ t1)%list /\ matches p (word_after false a) t1 t2.
Proof.
  unfold re_search. generalize false. induction t as [|c t IH]; intros before; cbn [re_search_from];
    rewrite orb_true_iff, re_match_spec.
  - split; [intros [[t' H]|[=]]; by exists [], [], t'|]. intros ([|? ?] & t1 & t2 & E & H); [|done]. cbn in E. subst. eauto.
  - rewrite IH. split.
    + intros [[t' H]|(a & t1 & t2 & -> & H)]; [by exists [], (c :: t), t' | by exists (c :: a), t1, t2].
    + intros ([|x a] & t1 & t2 & E & H); [cbn in E; subst; eauto|]. injection E as <- ->. right. eauto 6.
Qed.
End PatternLemmas.

(** ** Normalization and parts of texts

    The Unicode standard: a part of a normalized text is normalized (UAX 15), and line ends
    take no part in composition. *)
Class NfcLaws `{U : Unicode} : Prop := {
  nfc_part : forall s a l b, nfc s = s -> chars s = (a ++ l ++ b)%list -> nfc (str_concat l) = str_concat l;
  nfc_line_ends : forall s, nfc (str_concat (newlines (chars (nfc s)))) = str_concat (newlines (chars (nfc s)));
}.

(** [l] is a contiguous part of [t]. *)
Definition part (l t : text) : Prop := exists a b, t = (a ++ l ++ b)%list.

#[export] Instance part_preorder : PreOrder part.
Proof.
  split.
  - intros t. exists [], []. by rewrite app_nil_r.
  - intros l t u (a & b & ->) (c & d & ->). exists (c ++ a)%list, (b ++ d)%list. by rewrite <- !app_assoc.
Qed.

Lemma strip_part t : part (strip t) t.
Proof. destruct (strip_split t) as (a & b & E). by exists a, b. Qed.

Lemma concat_part l ls : l ∈ ls -> part l (concat ls).
Proof.
  intros (ls1 & ls2 & ->)%list_elem_of_split. exists (concat ls1), (concat ls2). by rewrite concat_app.
Qed.

Lemma part_cons l x t : part l t -> part l (x :: t).
Proof. intros (a & b & ->). by exists (x :: a), b. Qed.

Lemma split_on_parts c t : Forall (fun f => part f t) (split_on c t) /\
  forall f fs, split_on c t = f :: fs -> exists b, t = (f ++ b)%list.
Proof.
  induction t as [|x t [IH1 IH2]]; cbn [split_on].
  - split; [constructor; [reflexivity|constructor]|]. intros f fs [= <- <-]. by exists [].
  - assert (IH : Forall (fun f => part f (x :: t)) (split_on c t)).
    { eapply list.Forall_impl; [exact IH1|]. intros f. apply part_cons. }
    destruct (String.eqb x c).
    + split; [constructor; [by exists [], (x :: t)|done]|]. intros f fs [= <- <-]. by exists (x :: t).
    + destruct (split_on c t) as [|f fs] eqn:E.
      * split; [constructor; [by exists [], t|constructor]|]. intros f fs [= <- <-]. by exists t.
      * destruct (IH2 f fs eq_refl) as [b ->]. apply list.Forall_cons in IH as [_ IH].
        split; [constructor; [by exists [], b|done]|]. intros f' fs' [= <- <-]. by exists b.
Qed.

Lemma split_once_parts c t p : split_once c t = Some p -> part p.1 t /\ part p.2 t.
Proof.
  revert p; induction t as [|x t IH]; intros p; [done|]. cbn [split_once].
  destruct (String.eqb_spec x c) as [->|].
  - intros [= <-]. split; [by exists [], (c :: t)|]. exists [c], []. cbn. by rewrite app_nil_r.
  - destruct (split_once c t) as [q|] eqn:E; [|done]. intros [= <-]. cbn [fst snd].
    assert (Hq : exists b, t = (q.1 ++ b)%list).
    { clear IH. revert q E. induction t as [|y t IHt]; [done|]. intros q. cbn [split_once].
      destruct (String.eqb y c); [intros [= <-]; by exists (y :: t)|].
      destruct (split_once c t) as [q'|]; [|done]. intros [= <-]. destruct (IHt q' eq_refl) as [b ->]. by exists b. }
    destruct Hq as [b Hb]. split; [exists [], b; cbn; by rewrite <- Hb|]. apply part_cons. by apply (IH q).
Qed.

(** ** ASCII instances, for evaluating examples *)

Definition lower_char (c : ascii) : ascii :=
  let n := N_of_ascii c in if ((65 <=? n) && (n <=? 90))%N then ascii_of_N (n + 32) else c.
Fixpoint ascii_lower (s : string) : string :=
  match s with EmptyString => "" | String c s => String (lower_char c) (ascii_lower s) end.

Lemma lower_char_ascii c : (N_of_ascii c <? 128)%N = true -> (N_of_ascii (lower_char c) <? 128)%N = true.
Proof.
  unfold lower_char. destruct ((65 <=? N_of_ascii c) && (N_of_ascii c <=? 90))%N eqn:E; [|done].
  apply andb_true_iff in E as [_ E%N.leb_le]. intros _. rewrite N_ascii_embedding by lia. apply N.ltb_lt. lia.
Qed.

Lemma ascii_lower_ascii s : is_ascii s = true -> is_ascii (ascii_lower s) = true.
Proof.
  unfold is_ascii. induction s as [|c s IH]; [done|]. cbn [str_forall ascii_lower].
  intros [Hc Hs]%andb_true_iff. apply andb_true_iff. split; [by apply lower_char_ascii | by apply IH].
Qed.

Definition case_sample : UnicodeCase := {| py_lower := ascii_lower; py_lower_ascii := ascii_lower_ascii |}.

Definition ascii_alnum (c : string) : bool :=
  match c with
  | String a EmptyString =>
      let n := N_of_ascii a in
      ((48 <=? n) && (n <=? 57) || (65 <=? n) && (n <=? 90) || (97 <=? n) && (n <=? 122))%N
  | _ => false
  end.
Definition word_sample : UnicodeWord := {| char_isalnum := ascii_alnum |}.

Example re_sample :
  re_search (W := word_sample) [Boundary; Lit "potential"; Opt "ly"; Boundary] (chars "it potentially is") = true /\
  re_search (W := word_sample) [Boundary; Lit "may"; Boundary] (chars "dismay") = false /\
  splitlines (chars ("a" +:+ CR +:+ LF +:+ "b" +:+ CR)) = [["a"; CR; LF]; ["b"; CR]] /\
  str_concat (strip (chars "  a b ")) = "a b" /\ int_text " -1_0 " = Some (-10)%Z /\
  count_sub ["a"; "a"] (chars "aaa") = 1.
Proof. vm_compute. done. Qed.
