(* ===== verification/Models.v ===== *)
(** * Data models (models.py)

    The source manifest state machine, the claim IR records, content-derived claim ids
    and the accepted-claim-set root.  A Python dict of strings is its list of entries in
    insertion order. *)
From S2P Require Import Prelude Digest Json Canonical Hashing.
Open Scope string_scope.

Definition IDENTITY_SCHEMA_VERSION : string := "1".

(** ** Source manifest state machine *)

Definition _LEGAL_TRANSITIONS : list (string * list string) :=
  [("received", ["staged"; "quarantined"]);
   ("staged", ["validated"; "quarantined"]);
   ("validated", ["accepted"; "quarantined"]);
   ("accepted", ["revoked"]);
   ("quarantined", []);
   ("revoked", [])].

Inductive StateError : Type := IllegalTransition (from_ to : string).

Record SourceManifest : Type := {
  source_id : string;
  content_hash : string;
  license : string;
  duplicate_cluster_id : option string;
  status : string;
  temporal_provenance : list (string * string);
  lineage : list string;
}.

(** [SourceManifest(source_id=..., content_hash=...)] with the field defaults. *)
Definition new_manifest (sid chash : string) : SourceManifest :=
  {| source_id := sid; content_hash := chash; license := "unspecified";
     duplicate_cluster_id := None; status := "received";
     temporal_provenance := []; lineage := [] |}.

Definition set_status (m : SourceManifest) (to : string) : SourceManifest :=
  {| source_id := source_id m; content_hash := content_hash m; license := license m;
     duplicate_cluster_id := duplicate_cluster_id m; status := to;
     temporal_provenance := temporal_provenance m; lineage := lineage m |}.

Definition allowed_from (s : string) : list string := default [] (assoc s _LEGAL_TRANSITIONS).

Definition transition (m : SourceManifest) (to : string) : result StateError SourceManifest :=
  if str_mem to (allowed_from (status m)) then Ok (set_status m to)
  else Err (IllegalTransition (status m) to).

(** ** Claim IR *)

Record Evidence : Type := {
  evidence_id : string;
  source_object_hash : string;
  representation_hash : string;
  quote_hash : string;
  locators : list (list (string * string));
}.

Record ClaimIdentity : Type := {
  claim_id : string;
  subject_id : string;
  predicate_id : string;
  obj : string;
  polarity : string;
  scope : list (string * string);
}.

Record ClaimAssertion : Type := {
  assertion_id : string;
  assertion_claim_id : string;
  assertion_source_id : string;
  evidence_ids : list string;
  modality : string;
}.

Record ResolutionDecision : Type := {
  decision_claim_id : string;
  decision_state : string;
  assertion_ids : list string;
  policy_version : string;
  rationale_code : string;
}.

Inductive claim_error : Type :=
| BadPolarity
| NotCanonical (e : canon_error).

Section Models.
Context {U : Unicode} {D : Digest}.

Definition claim_payload (subject predicate object pol : string) (scp : list (string * string))
    : pyval :=
  py_record
    [("identity_schema_version", PStr IDENTITY_SCHEMA_VERSION);
     ("canonical_subject_id", PStr subject);
     ("predicate_id", PStr predicate);
     ("canonical_object", PStr object);
     ("polarity", PStr pol);
     ("normalized_scope", py_str_dict scp)].

Definition compute_claim_id (subject predicate object pol : string) (scp : list (string * string))
    : result claim_error string :=
  _ ← ensure (str_mem pol ["positive"; "negative"]) BadPolarity;
  map_err NotCanonical (canonical_hash (claim_payload subject predicate object pol scp)).

(** [ClaimIdentity.create] *)
Definition create_identity (subject predicate object pol : string) (scp : list (string * string))
    : result claim_error ClaimIdentity :=
  cid ← compute_claim_id subject predicate object pol scp;
  Ok {| claim_id := cid; subject_id := subject; predicate_id := predicate; obj := object;
        polarity := pol; scope := scp |}.

(** [ResolutionDecision.canonical] *)
Definition decision_canonical (d : ResolutionDecision) : pyval :=
  py_record
    [("claim_id", PStr (decision_claim_id d));
     ("state", PStr (decision_state d));
     ("assertion_ids", py_strs (assertion_ids d));
     ("policy_version", PStr (policy_version d));
     ("rationale_code", PStr (rationale_code d))].

Definition accepted_claim_set_root (decisions : list ResolutionDecision)
    : result canon_error (option string) :=
  leaves ← map_result (fun d => canonical_bytes (decision_canonical d)) decisions;
  Ok (merkle_root leaves).
End Models.

(** ** The manifest's lifecycle *)

(** [manifest_trace l m]: [l] lists the statuses a fresh manifest went through, newest
    first, ending in the state [m]. *)
Inductive manifest_trace (sid chash : string) : list string -> SourceManifest -> Prop :=
| trace_new : manifest_trace sid chash ["received"] (new_manifest sid chash)
| trace_step l m m' to :
    manifest_trace sid chash l m -> transition m to = Ok m' ->
    manifest_trace sid chash (to :: l) m'.

Lemma transition_ok m to m' :
  transition m to = Ok m' <-> str_mem to (allowed_from (status m)) = true /\ m' = set_status m to.
Proof. unfold transition. destruct (str_mem _ _); naive_solver. Qed.

(** The histories of a manifest, newest status first. *)
Definition manifest_histories : list (list string) :=
  [["received"];
   ["quarantined"; "received"];
   ["staged"; "received"];
   ["quarantined"; "staged"; "received"];
   ["validated"; "staged"; "received"];
   ["quarantined"; "validated"; "staged"; "received"];
   ["accepted"; "validated"; "staged"; "received"];
   ["revoked"; "accepted"; "validated"; "staged"; "received"]].

Lemma manifest_trace_status sid chash l m :
  manifest_trace sid chash l m -> head l = Some (status m).
Proof. destruct 1 as [|l m m' to _ Ht]; [done|]. by apply transition_ok in Ht as [_ ->]. Qed.

Lemma allowed_history l s to :
  l ∈ manifest_histories -> head l = Some s -> str_mem to (allowed_from s) = true ->
  (to :: l) ∈ manifest_histories.
Proof.
  intros Hl Hs Hto. apply str_mem_spec in Hto.
  repeat (apply elem_of_cons in Hl as [->|Hl]; [injection Hs as <-; cbn in Hto;
    repeat (apply elem_of_cons in Hto as [->|Hto]; [by apply (bool_decide_unpack _); vm_compute|]);
    by apply elem_of_nil in Hto|]).
  by apply elem_of_nil in Hl.
Qed.

Lemma trace_in_histories sid chash l m : manifest_trace sid chash l m -> l ∈ manifest_histories.
Proof.
  induction 1 as [|l m m' to Ht IH Hto]; [by left|]. apply transition_ok in Hto as [Hto _].
  exact (allowed_history l _ to IH (manifest_trace_status _ _ _ _ Ht) Hto).
Qed.

Lemma trace_identity sid chash l m :
  manifest_trace sid chash l m -> source_id m = sid /\ content_hash m = chash.
Proof. induction 1 as [|l m m' to _ IH Hto]; [done|]. by apply transition_ok in Hto as [_ ->]. Qed.

Lemma terminal_no_transition s : str_mem s ["quarantined"; "revoked"] = true -> allowed_from s = [].
Proof.
  intros Hs. apply str_mem_spec in Hs.
  repeat (apply elem_of_cons in Hs as [->|Hs]; [reflexivity|]). by apply elem_of_nil in Hs.
Qed.

Lemma accepted_history l :
  l ∈ manifest_histories -> head l = Some "accepted" ->
  l = ["accepted"; "validated"; "staged"; "received"].
Proof.
  intros Hl Hh. repeat (apply elem_of_cons in Hl as [->|Hl]; [by first [done | discriminate Hh]|]).
  by apply elem_of_nil in Hl.
Qed.

(** ** Claim ids *)

Definition nfc_dict {U : Unicode} (l : list (string * string)) : list (string * string) :=
  map (fun kv => (nfc kv.1, nfc kv.2)) l.

Section ModelLemmas.
Context {U : Unicode} {D : Digest}.

Definition json_str_dict (l : list (string * string)) : json :=
  JObj (map (fun kv => (kv.1, JStr kv.2)) (nfc_dict l)).

Lemma normalize_str_dict l j :
  normalize (py_str_dict l) = Ok j <-> NoDup (nfc_dict l).*1 /\ j = json_str_dict l.
Proof.
  unfold py_str_dict. rewrite normalize_dict_ok.
  assert (Hf : forall ms, Forall2 entry_ok (map (fun kv => (KStr kv.1, PStr kv.2)) l) ms <->
                     ms = map (fun kv => (kv.1, JStr kv.2)) (nfc_dict l)).
  { induction l as [|[k v] l IH]; intros ms; cbn.
    - split; [by inversion 1 | intros ->; constructor].
    - split.
      + inversion 1 as [|? [mk mv] ? ms' (k' & Ek & Em & Hv) Hm]; subst. cbn in *.
        injection Ek as <-. injection Hv as <-. subst mk. f_equal. by apply IH.
      + intros ->. constructor; [by exists k | by apply IH]. }
  setoid_rewrite Hf.
  assert (Hk : (map (fun kv => (kv.1, JStr kv.2)) (nfc_dict l)).*1 = (nfc_dict l).*1)
    by apply (keys_map_snd (fun v : string => JStr v)).
  split.
  - intros (ms & -> & Hnd & ->). by rewrite Hk in Hnd.
  - intros [Hnd ->]. eexists; split; [reflexivity|]. by rewrite Hk.
Qed.

Lemma json_str_dict_equiv l l' :
  NoDup (nfc_dict l).*1 -> json_str_dict l ≡ json_str_dict l' ->
  forall k, assoc k (nfc_dict l) = assoc k (nfc_dict l').
Proof.
  intros Hnd E k. apply (json_equiv_assoc _ _ k) in E;
    [|by rewrite (keys_map_snd (fun v : string => JStr v))].
  assert (Ha : forall d : list (string * string),
             assoc k (map (fun kv => (kv.1, JStr kv.2)) d) = JStr <$> assoc k d).
  { induction d as [|[k' v] d IH]; cbn; [done|]. destruct (String.eqb k k'); done. }
  rewrite !Ha in E. destruct (assoc k (nfc_dict l)), (assoc k (nfc_dict l')); naive_solver.
Qed.

Definition claim_json (subject predicate object pol : string) (scp : json) : json :=
  JObj [("identity_schema_version", JStr (nfc IDENTITY_SCHEMA_VERSION));
        ("canonical_subject_id", JStr (nfc subject));
        ("predicate_id", JStr (nfc predicate));
        ("canonical_object", JStr (nfc object));
        ("polarity", JStr (nfc pol));
        ("normalized_scope", scp)].

Lemma normalize_claim_payload s p o pol scp j :
  normalize (claim_payload s p o pol scp) = Ok j ->
  NoDup (nfc_dict scp).*1 /\ j = claim_json s p o pol (json_str_dict scp).
Proof.
  intros Hj. destruct (normalize_record_obj _ _ Hj) as [ms ->]. norm_record Hj.
  destruct (normalize (py_str_dict scp)) as [x|] eqn:Hx; [|discriminate Hj].
  apply normalize_str_dict in Hx as [Hnd ->]. injection Hj as <-. done.
Qed.

Lemma compute_claim_id_ok s p o pol scp h :
  compute_claim_id s p o pol scp = Ok h ->
  str_mem pol ["positive"; "negative"] = true /\ NoDup (nfc_dict scp).*1 /\
  h = sha256_hex (json_dumps (claim_json s p o pol (json_str_dict scp))) /\
  preimage (claim_payload s p o pol scp) = [json_dumps (claim_json s p o pol (json_str_dict scp))].
Proof.
  unfold compute_claim_id. intros H. apply bind_ok in H as (u & Hu%ensure_ok & H).
  apply map_err_ok, canonical_hash_ok in H as (j & Hj & ->). pose proof (preimage_ok _ _ Hj) as Hp.
  apply normalize_claim_payload in Hj as [? ->]. done.
Qed.

Lemma nfc_polarity pol : str_mem pol ["positive"; "negative"] = true -> nfc pol = pol.
Proof.
  intros Hs. apply str_mem_spec in Hs. apply nfc_ascii.
  repeat (apply elem_of_cons in Hs as [->|Hs]; [reflexivity|]). by apply elem_of_nil in Hs.
Qed.

Lemma claim_id_fields s p o pol scp s' p' o' pol' scp' h :
  compute_claim_id s p o pol scp = Ok h -> compute_claim_id s' p' o' pol' scp' = Ok h ->
  (nfc s = nfc s' /\ nfc p = nfc p' /\ nfc o = nfc o' /\ pol = pol' /\
   forall k, assoc k (nfc_dict scp) = assoc k (nfc_dict scp')) \/
  collision (preimage (claim_payload s p o pol scp) ++ preimage (claim_payload s' p' o' pol' scp')).
Proof.
  intros (Hp & Hnd & -> & ->)%compute_claim_id_ok (Hp' & _ & E & ->)%compute_claim_id_ok.
  apply sha256_hex_inj_or in E as [E%json_dumps_inj|?]; [left|by right].
  pose proof (json_members _ _ E eq_refl) as Hk.
  pose proof (Hk "canonical_subject_id") as H1. pose proof (Hk "predicate_id") as H2.
  pose proof (Hk "canonical_object") as H3. pose proof (Hk "polarity") as H4.
  pose proof (Hk "normalized_scope") as H5. cbn in H1, H2, H3, H4.
  rewrite (nfc_polarity _ Hp), (nfc_polarity _ Hp') in H4.
  injection H1 as H1. injection H2 as H2. injection H3 as H3. injection H4 as H4.
  repeat split; try done. apply json_str_dict_equiv; [done|].
  unfold equiv, json_equiv. cbn in H5 |- *. congruence.
Qed.

(** Decisions equal up to the NFC form of their texts. *)
Definition same_decision (d d' : ResolutionDecision) : Prop :=
  nfc (decision_claim_id d) = nfc (decision_claim_id d') /\
  nfc (decision_state d) = nfc (decision_state d') /\
  map nfc (assertion_ids d) = map nfc (assertion_ids d') /\
  nfc (policy_version d) = nfc (policy_version d') /\
  nfc (rationale_code d) = nfc (rationale_code d').

Definition decision_json (d : ResolutionDecision) : json :=
  JObj [("claim_id", JStr (nfc (decision_claim_id d)));
        ("state", JStr (nfc (decision_state d)));
        ("assertion_ids", JArr (map (fun s => JStr (nfc s)) (assertion_ids d)));
        ("policy_version", JStr (nfc (policy_version d)));
        ("rationale_code", JStr (nfc (rationale_code d)))].

(** The leaf of a decision. *)
Definition decision_data (d : ResolutionDecision) : string := json_dumps (decision_json d).

Lemma decision_bytes d : canonical_bytes (decision_canonical d) = Ok (decision_data d).
Proof.
  apply canonical_bytes_ok. exists (decision_json d). split; [|done].
  unfold decision_canonical. norm_record_goal. reflexivity.
Qed.

Lemma decision_json_equiv d d' : decision_json d ≡ decision_json d' -> same_decision d d'.
Proof.
  intros E. pose proof (json_members _ _ E eq_refl) as Hk.
  pose proof (Hk "claim_id") as H1. pose proof (Hk "state") as H2.
  pose proof (Hk "assertion_ids") as H3. pose proof (Hk "policy_version") as H4.
  pose proof (Hk "rationale_code") as H5. cbn in H1, H2, H4, H5.
  injection H1 as H1. injection H2 as H2. injection H4 as H4. injection H5 as H5.
  unfold same_decision. repeat split; try done.
  apply json_strs_equiv. cbn in H3 |- *. congruence.
Qed.

Lemma accepted_root_ok ds :
  accepted_claim_set_root ds = Ok (merkle_root (map decision_data ds)).
Proof.
  unfold accepted_claim_set_root.
  assert (map_result (fun d => canonical_bytes (decision_canonical d)) ds =
          Ok (map decision_data ds)) as ->; [|done].
  induction ds as [|d ds IH]; [done|]. cbn [map_result map]. by rewrite decision_bytes, IH.
Qed.
End ModelLemmas.

Section ModelClaims.
Context {U : Unicode} {D : Digest}.

(** A manifest that starts fresh and only changes through [transition] follows one
    of the eight legal histories and keeps its identity fields; it is accepted only
    after being staged and validated, and never leaves quarantine or revocation. *)
Theorem manifest_lifecycle sid chash l m :
  manifest_trace sid chash l m ->
  l ∈ manifest_histories /\ source_id m = sid /\ content_hash m = chash /\
  (status m = "accepted" -> l = ["accepted"; "validated"; "staged"; "received"]) /\
  (str_mem (status m) ["quarantined"; "revoked"] = true ->
     forall to, transition m to = Err (IllegalTransition (status m) to)).
Proof.
  intros Ht. pose proof (trace_in_histories _ _ _ _ Ht) as Hl.
  destruct (trace_identity _ _ _ _ Ht) as [Hs Hc]. repeat split; try done.
  - intros Ha. apply accepted_history; [done|]. rewrite <- Ha. exact (manifest_trace_status _ _ _ _ Ht).
  - intros Hq to. unfold transition. by rewrite (terminal_no_transition _ Hq).
Qed.

(** A claim id binds every identity field: two identities with the same id agree up
    to NFC on subject, predicate, object and scope and have the same polarity, or the
    canonical bytes of the two payloads collide.  In particular a positive and a negative
    claim never share their id short of that. *)
Theorem claim_id_binding s p o pol scp s' p' o' pol' scp' h :
  compute_claim_id s p o pol scp = Ok h -> compute_claim_id s' p' o' pol' scp' = Ok h ->
  (nfc s = nfc s' /\ nfc p = nfc p' /\ nfc o = nfc o' /\ pol = pol' /\
   forall k, assoc k (nfc_dict scp) = assoc k (nfc_dict scp')) \/
  collision (preimage (claim_payload s p o pol scp) ++ preimage (claim_payload s' p' o' pol' scp')).
Proof. apply claim_id_fields. Qed.

(** The accepted-claim-set root is defined for every list of decisions, does not
    depend on their order, and commits to the set of decisions up to NFC, short of a
    collision among the byte strings hashed for the two roots. *)
Theorem accepted_claim_set_root_spec ds :
  (exists r, accepted_claim_set_root ds = Ok (Some r)) /\
  (forall ds', ds ≡ₚ ds' -> accepted_claim_set_root ds = accepted_claim_set_root ds') /\
  (forall ds', accepted_claim_set_root ds = accepted_claim_set_root ds' ->
     (forall d, d ∈ ds -> exists d', d' ∈ ds' /\ same_decision d d') \/
     collision (merkle_inputs (map decision_data ds) ++ merkle_inputs (map decision_data ds'))).
Proof.
  split; [|split].
  - rewrite accepted_root_ok.
    destruct (merkle_root_total (map decision_data ds)) as [r ->]. eauto.
  - intros ds' Hp. rewrite !accepted_root_ok. f_equal.
    by apply merkle_root_perm, Permutation_map.
  - intros ds'. rewrite !accepted_root_ok. intros [= E].
    apply (root_leaves (merkle_inputs (map decision_data ds) ++ merkle_inputs (map decision_data ds'))) in E
      as [E|?]; [left | by right | set_solver..]. intros d Hd.
    assert (Hin : decision_data d ∈ map decision_data ds').
    { apply E, list_elem_of_fmap. by exists d. }
    apply list_elem_of_fmap in Hin as (d' & E' & Hd'). exists d'. split; [done|].
    by apply decision_json_equiv, json_dumps_inj.
Qed.
End ModelClaims.

(** ** Evaluations *)

Definition accepted_manifest : SourceManifest := set_status (new_manifest "s" "h") "accepted".

Lemma manifest_lifecycle_witness :
  ["accepted"; "validated"; "staged"; "received"] ∈ manifest_histories /\
  source_id accepted_manifest = "s" /\ content_hash accepted_manifest = "h" /\
  (status accepted_manifest = "accepted" ->
     ["accepted"; "validated"; "staged"; "received"] = ["accepted"; "validated"; "staged"; "received"]) /\
  (str_mem (status accepted_manifest) ["quarantined"; "revoked"] = true ->
     forall to, transition accepted_manifest to = Err (IllegalTransition (status accepted_manifest) to)).
Proof.
  apply manifest_lifecycle.
  apply trace_step with (m := set_status (new_manifest "s" "h") "validated"); [|reflexivity].
  apply trace_step with (m := set_status (new_manifest "s" "h") "staged"); [|reflexivity].
  apply trace_step with (m := new_manifest "s" "h"); [|reflexivity].
  apply trace_new.
Defined.

Lemma claim_id_binding_witness :
  exists h,
    compute_claim_id (U := unicode_sample) (D := pad_digest) "a" "p" e_combining "positive" [("k", "v"); ("l", "w")] = Ok h /\
    ((nfc (Unicode := unicode_sample) "a" = nfc (Unicode := unicode_sample) "a" /\
      nfc (Unicode := unicode_sample) "p" = nfc (Unicode := unicode_sample) "p" /\
      nfc (Unicode := unicode_sample) e_combining = nfc (Unicode := unicode_sample) e_acute /\
      "positive" = "positive" /\
      forall k, assoc k (nfc_dict (U := unicode_sample) [("k", "v"); ("l", "w")]) =
                assoc k (nfc_dict (U := unicode_sample) [("l", "w"); ("k", "v")])) \/
     collision (D := pad_digest)
       (preimage (U := unicode_sample) (claim_payload "a" "p" e_combining "positive" [("k", "v"); ("l", "w")]) ++
        preimage (U := unicode_sample) (claim_payload "a" "p" e_acute "positive" [("l", "w"); ("k", "v")]))).
Proof.
  eexists. split; [vm_compute; reflexivity|].
  apply (claim_id_binding (U := unicode_sample) (D := pad_digest)) with
    (h := default "" (if compute_claim_id (U := unicode_sample) (D := pad_digest)
                          "a" "p" e_combining "positive" [("k", "v"); ("l", "w")] is Ok h
                      then Some h else None)); vm_compute; reflexivity.
Defined.
