(* ===== verification/Llm.v ===== *)
(** * Model clients (llm.py)

    [jval] is what [json.loads] returns, numbers included; the clients are the class
    [LLMClient], the scripted [MockLLMClient] is an instance.  The HTTP clients are not
    modelled: a client may answer anything and raise any of the errors. *)
From S2P Require Import Prelude.
Open Scope string_scope.

(** What is used of a float: whether it is zero, and its integer part ([None]: nan, inf). *)
Record wire_float : Type := { is_zero : bool; truncated : option Z }.

Inductive jval : Type :=
| VNull | VBool (b : bool) | VInt (z : Z) | VFloat (f : wire_float) | VStr (s : string)
| VList (l : list jval) | VDict (kvs : list (string * jval)).

(** [bool(v)] *)
Definition truthy (v : jval) : bool :=
  match v with
  | VNull => false
  | VBool b => b
  | VInt z => negb (z =? 0)%Z
  | VFloat f => negb (is_zero f)
  | VStr s => str_nonempty s
  | VList l => bool_decide (l <> [])
  | VDict kvs => bool_decide (kvs <> [])
  end.

(** [d.get(k, default)] *)
Definition jget (kvs : list (string * jval)) (k : string) (default : jval) : jval :=
  match assoc k kvs with Some v => v | None => default end.

(** The exceptions of the clients and of the runtime around them (runtime.py). *)
Inductive llm_error : Type :=
| LLMError | TransientLLMError | FatalLLMError | BudgetExceededError | CallBudgetExceededError
| SourceBudgetExceededError | ClientRuntimeError | ClientValueError.

#[export] Instance llm_error_eq_dec : EqDecision llm_error.
Proof. solve_decision. Defined.

Record LLMConfig : Type := {
  extraction_model_id : string;
  verification_model_id : string;
  render_model_id : string;
}.

(** A client in a world [W]: a model id, the system and the user text. *)
Class LLMClient (W : Type) : Type :=
  complete_json : string -> string -> string -> st W llm_error jval.

#[export] Hint Mode LLMClient ! : typeclass_instances.

Record MockLLMClient : Type := {
  _responses : list (string * jval);
  last_usage : list (string * jval);
  _fail_times : Z;
  _fail_error : option llm_error;
  calls : nat;
}.

Definition mock_register (key : string) (response : jval) (c : MockLLMClient) : MockLLMClient :=
  {| _responses := assoc_set key response (_responses c); last_usage := last_usage c;
     _fail_times := _fail_times c; _fail_error := _fail_error c; calls := calls c |}.

(** The first response whose key occurs in the user text. *)
Definition mock_response (responses : list (string * jval)) (user : string) : jval :=
  match list_find (fun kv => str_contains kv.1 user = true) responses with
  | Some (_, (_, v)) => v
  | None => VDict [("claims", VList []); ("abstain", VBool true)]
  end.

Definition mock_complete (_model _system user : string) : st MockLLMClient llm_error jval := fun c =>
  let called n := {| _responses := _responses c; last_usage := last_usage c; _fail_times := n;
                     _fail_error := _fail_error c; calls := S (calls c) |} in
  if (0 <? _fail_times c)%Z
  then (called (_fail_times c - 1)%Z, Err (default ClientRuntimeError (_fail_error c)))
  else (called (_fail_times c), Ok (mock_response (_responses c) user)).

#[export] Instance mock_client : LLMClient MockLLMClient := mock_complete.
