(* ===== verification/Claims.v ===== *)
(** * Compiled claims and the mock extractor (claims.py)

    The extractor reads a text line by line; offsets count characters.  [extract_line]
    is the body of the loop.  Every claim it emits is [grounded]: its evidence names a
    span of the text and carries that span's hash. *)
From S2P Require Import Prelude Digest Json Canonical Hashing Text Models Llm.
Open Scope string_scope.

Definition _MODALITY : list string := ["asserted"; "likely"; "possible"].

Record CompiledClaim : Type := {
  identity : ClaimIdentity;
  assertion : ClaimAssertion;
  evidence : Evidence;
}.

Record ExtractResult : Type := {
  claims : list CompiledClaim;
  revokes : list string;
}.

(** What extraction can raise. *)
Inductive extract_error : Type :=
| ExClaim (e : claim_error) | ExValueError | ExTypeError | ExAttributeError | ExClient (e : llm_error).

Definition parse_part (scope : list (string * string)) (part : text) : list (string * string) :=
  match strip part with
  | [] => scope
  | part => match split_once "=" part with
            | Some (k, v) => assoc_set (str_concat (strip k)) (str_concat (strip v)) scope
            | None => scope
            end
  end.

Definition _parse_scope (raw : text) : list (string * string) := foldl parse_part [] (split_on ";" raw).

Section Claims.
Context {U : Unicode} {D : Digest}.

Definition text_span (first last : nat) : list (string * string) :=
  [("type", "text_span"); ("offset_unit", "unicode_codepoint");
   ("start", str_of_nat first); ("end", str_of_nat last)].

(** The evidence for characters [first] to [last] of the text. *)
Definition span_evidence (t : text) (source_id representation_hash : string) (first last : nat) : Evidence :=
  {| evidence_id := sha256_hex (source_id +:+ ":" +:+ str_of_nat first +:+ ":" +:+ str_of_nat last);
     source_object_hash := source_id; Models.representation_hash := representation_hash;
     quote_hash := sha256_hex (str_concat (slice first last t));
     locators := [text_span first last] |}.

Definition assertion_payload (claim_id source_id evidence_id : string) : pyval :=
  py_record [("claim_id", PStr claim_id); ("source_id", PStr source_id); ("evidence_id", PStr evidence_id)].

(** A claim with its assertion: [assertion_id] is the hash of the three ids. *)
Definition compile_claim (source_id : string) (e : Evidence) (modality : string) (i : ClaimIdentity)
    : result extract_error CompiledClaim :=
  a ← map_err (fun x => ExClaim (NotCanonical x))
        (canonical_hash (assertion_payload (claim_id i) source_id (evidence_id e)));
  Ok {| identity := i;
        assertion := {| assertion_id := a; assertion_claim_id := claim_id i; assertion_source_id := source_id;
                        evidence_ids := [evidence_id e]; Models.modality := modality |};
        evidence := e |}.

Section MockExtractor.
Variables (t : text) (source_id representation_hash : string).

(** The loop body on the line that starts at character [start]: the claims and the
    tombstones the line gives. *)
Definition extract_line (start : nat) (line : text) : result extract_error (list CompiledClaim * list string) :=
  let stripped := strip line in
  match stripped, split_once "|" stripped with
  | c :: _, Some (head, tail) =>
      if String.eqb c "#" then Ok ([], [])
      else if String.eqb (str_concat (strip head)) "REVOKE" then Ok ([], [str_concat (strip tail)])
      else match map strip (split_on "|" stripped) with
           | subject :: predicate :: object :: polarity :: scope_raw :: more =>
               let modality := match more with
                               | m :: _ => if str_mem (str_concat (strip m)) _MODALITY
                                           then str_concat (strip m) else "asserted"
                               | [] => "asserted"
                               end in
               if negb (str_mem (str_concat polarity) ["positive"; "negative"]) then Ok ([], [])
               else
                 idx ← of_option ExValueError (find_sub stripped line);
                 let span_start := start + idx in
                 let e := span_evidence t source_id representation_hash span_start (span_start + length stripped) in
                 i ← map_err ExClaim (create_identity (str_concat subject) (str_concat predicate)
                       (str_concat object) (str_concat polarity) (_parse_scope scope_raw));
                 c ← compile_claim source_id e modality i;
                 Ok ([c], [])
           | _ => Ok ([], [])
           end
  | _, _ => Ok ([], [])
  end.

Fixpoint extract_lines (offset : nat) (lines : list text) : result extract_error ExtractResult :=
  match lines with
  | [] => Ok {| claims := []; revokes := [] |}
  | line :: lines =>
      x ← extract_line offset line;
      r ← extract_lines (offset + length line) lines;
      Ok {| claims := x.1 ++ claims r; revokes := x.2 ++ revokes r |}
  end.
End MockExtractor.

(** [DeterministicMockExtractor.extract] *)
Definition mock_extract (s source_id representation_hash : string) : result extract_error ExtractResult :=
  extract_lines (chars s) source_id representation_hash 0 (splitlines (chars s)).

(** ** What a claim of an extractor is *)

(** The claim rests on the non-empty span of [t] that its evidence names. *)
Record grounded (t : text) (source_id representation_hash : string) (span : nat * nat) (c : CompiledClaim) : Prop := {
  gr_span : span.1 < span.2 <= length t;
  gr_evidence : evidence c = span_evidence t source_id representation_hash span.1 span.2;
  gr_identity : exists s p o pol scp, create_identity s p o pol scp = Ok (identity c);
  gr_assertion : canonical_hash (assertion_payload (claim_id (identity c)) source_id (evidence_id (evidence c))) =
                 Ok (assertion_id (assertion c));
  gr_claim : assertion_claim_id (assertion c) = claim_id (identity c);
  gr_source : assertion_source_id (assertion c) = source_id;
  gr_evidence_ids : evidence_ids (assertion c) = [evidence_id (evidence c)];
  gr_modality : modality (assertion c) ∈ _MODALITY;
}.

Lemma compile_claim_ok source_id e m i :
  exists a, canonical_hash (assertion_payload (claim_id i) source_id (evidence_id e)) = Ok a /\
    compile_claim source_id e m i =
    Ok {| identity := i;
          assertion := {| assertion_id := a; assertion_claim_id := claim_id i; assertion_source_id := source_id;
                          evidence_ids := [evidence_id e]; Models.modality := m |};
          evidence := e |}.
Proof.
  unfold compile_claim. eassert (canonical_hash (assertion_payload (claim_id i) source_id (evidence_id e)) = Ok _) as Hh.
  { apply canonical_hash_ok. eexists. split; [|reflexivity]. unfold assertion_payload. norm_record_goal. reflexivity. }
  eexists. split; [exact Hh|]. by rewrite Hh.
Qed.

Lemma compile_claim_noerr (P : extract_error -> Prop) sid e m i : errs P (compile_claim sid e m i).
Proof. destruct (compile_claim_ok sid e m i) as (a & _ & ->). done. Qed.

Lemma compile_grounded t sid rep i j s p o pol scp m c x :
  i < j <= length t -> create_identity s p o pol scp = Ok x -> m ∈ _MODALITY ->
  compile_claim sid (span_evidence t sid rep i j) m x = Ok c ->
  grounded t sid rep (i, j) c /\ identity c = x /\ modality (assertion c) = m.
Proof.
  intros Hij Hx Hm. destruct (compile_claim_ok sid (span_evidence t sid rep i j) m x) as (a & Ha & ->). intros [= <-].
  split; [|done]. split; try done. by exists s, p, o, pol, scp.
Qed.

(** The identity of a claim exists just when the polarity is one of the two and no two
    scope keys have one NFC form. *)
Lemma create_identity_total s p o pol scp :
  (exists x, create_identity s p o pol scp = Ok x) <->
  str_mem pol ["positive"; "negative"] = true /\ NoDup (nfc_dict scp).*1.
Proof.
  unfold create_identity. setoid_rewrite bind_ok. split.
  - intros (x & h & (Hp & Hnd & _)%compute_claim_id_ok & _). done.
  - intros [Hp Hnd]. eexists _, _. split; [|done]. unfold compute_claim_id. rewrite Hp. cbn [ensure mbind result_bind].
    apply map_err_ok, canonical_hash_ok. eexists. split; [|reflexivity]. norm_record_goal.
    rewrite (proj2 (normalize_str_dict scp _) (conj Hnd eq_refl)). reflexivity.
Qed.

Definition identity_error (e : claim_error) : Prop := e = BadPolarity \/ e = NotCanonical KeyCollision.

Lemma create_identity_err s p o pol scp : errs identity_error (create_identity s p o pol scp).
Proof.
  apply errs_bind; [|done]. apply errs_bind; [apply errs_ensure; by left|]. intros _ _ e.
  unfold canonical_hash, canonical_bytes, map_err.
  destruct (normalize _) as [j|x] eqn:Hx; cbn; [done|]. intros [= <-]. right. f_equal. symmetry.
  revert Hx. apply normalize_textual_err. cbn. rewrite andb_true_r. apply forallb_forall.
  by intros ? (kv & <- & _)%in_map_iff.
Qed.
Lemma line_grounded t sid rep pre line post cs rs :
  t = (pre ++ line ++ post)%list -> extract_line t sid rep (length pre) line = Ok (cs, rs) ->
  cs = [] \/ exists c span, cs = [c] /\ grounded t sid rep span c /\
    length pre <= span.1 /\ span.2 <= length pre + length line /\ slice span.1 span.2 t = strip line.
Proof.
  intros Ht. unfold extract_line. destruct (strip line) as [|x rest] eqn:Es; [intros [= <- <-]; by left|].
  rewrite <- Es. destruct (split_once "|" (strip line)) as [[head tail]|]; [|intros [= <- <-]; by left].
  destruct (String.eqb x "#"); [intros [= <- <-]; by left|].
  destruct (String.eqb _ "REVOKE"); [intros [= <- <-]; by left|].
  destruct (map strip _) as [|subj [|pred [|ob [|pol [|scp more]]]]]; try (intros [= <- <-]; by left).
  destruct (str_mem (str_concat pol) _); cbn [negb]; [|intros [= <- <-]; by left].
  set (m := match more with [] => "asserted" | f :: _ => _ end).
  assert (Hm : m ∈ _MODALITY).
  { unfold m. destruct more as [|f more]; [by left|]. destruct (str_mem _ _MODALITY) eqn:E; [by apply str_mem_spec | by left]. }
  destruct (find_strip line) as (i & -> & Hl & Hi). cbn [of_option mbind result_bind].
  intros H1. apply bind_ok in H1 as (y & Hy%map_err_ok & H1). apply bind_ok in H1 as (c & Hc & [= <- <-]).
  right. exists c, (length pre + i, length pre + i + length (strip line)). split; [done|]. cbn [fst snd].
  rewrite <- Nat.add_assoc in Hc. assert (Hn : length (strip line) <> 0) by (rewrite Es; done).
  eapply compile_grounded in Hc as [Hg _]; [|rewrite Ht, !length_app; lia|exact Hy|exact Hm].
  rewrite <- Nat.add_assoc. split; [exact Hg|]. split; [lia|]. split; [lia|].
  rewrite Ht. rewrite slice_inside by done. exact Hi.
Qed.

(** Spans one after the other. *)
Definition in_order : list (nat * nat) -> Prop := StronglySorted (fun a b => a.2 <= b.1).

Lemma lines_grounded t sid rep lines pre r :
  t = (pre ++ concat lines)%list -> extract_lines t sid rep (length pre) lines = Ok r ->
  exists spans, Forall2 (grounded t sid rep) spans (claims r) /\ in_order spans /\
    Forall (fun sp => length pre <= sp.1 /\ exists line, line ∈ lines /\ slice sp.1 sp.2 t = strip line) spans.
Proof.
  revert pre r; induction lines as [|line lines IH]; intros pre r Ht.
  - intros [= <-]. exists []. repeat constructor.
  - cbn [extract_lines]. intros H1. apply bind_ok in H1 as ([cs rs] & Hx & H1).
    apply bind_ok in H1 as (r' & Hr & [= <-]). cbn [fst snd claims].
    rewrite <- length_app in Hr. apply IH in Hr as (spans & Hg & Ho & Hin); [|by rewrite <- app_assoc].
    apply line_grounded with (post := concat lines) in Hx; [|done].
    assert (Hin' : Forall (fun sp => length (pre ++ line) <= sp.1 /\ exists l, l ∈ line :: lines /\ slice sp.1 sp.2 t = strip l) spans).
    { eapply list.Forall_impl; [exact Hin|]. intros sp (H1 & l & Hl & Hs). split; [done|]. exists l. by rewrite elem_of_cons; auto. }
    rewrite length_app in Hin'. destruct Hx as [->|(c & span & -> & Hc & Hle & Hend & Hs)].
    + exists spans. split; [done|]. split; [done|]. eapply list.Forall_impl; [exact Hin'|]. intros sp (? & ?). split; [lia|done].
    + exists (span :: spans). split; [by constructor|]. split.
      * constructor; [done|]. eapply list.Forall_impl; [exact Hin'|]. intros sp (? & ?). lia.
      * constructor.
        -- split; [done|]. exists line. by rewrite elem_of_cons; auto.
        -- eapply list.Forall_impl; [exact Hin'|]. intros sp (? & ?). split; [lia|done].
Qed.

Definition scope_collision (e : extract_error) : Prop := e = ExClaim (NotCanonical KeyCollision).

Lemma line_errors t sid rep start line : errs scope_collision (extract_line t sid rep start line).
Proof.
  unfold extract_line. destruct (strip line) as [|x rest] eqn:Es; [done|]. rewrite <- Es.
  destruct (split_once "|" (strip line)) as [[head tail]|]; [|done].
  destruct (String.eqb x "#"); [done|]. destruct (String.eqb _ "REVOKE"); [done|].
  destruct (map strip _) as [|subj [|pred [|ob [|pol [|scp more]]]]]; try done.
  destruct (str_mem (str_concat pol) _) eqn:Hpol; cbn [negb]; [|done].
  destruct (find_strip line) as (i & -> & _). apply errs_bind; [done|]. intros ? _. apply errs_bind.
  - intros e He. unfold map_err in He. destruct (create_identity _ _ _ _ _) as [y|e'] eqn:Hy; [done|]. injection He as <-.
    destruct (create_identity_err _ _ _ _ _ _ Hy) as [-> | ->]; [|done].
    unfold create_identity, compute_claim_id in Hy. rewrite Hpol in Hy. cbn [ensure mbind result_bind] in Hy.
    destruct (canonical_hash _); discriminate Hy.
  - intros y _. apply errs_bind; [apply compile_claim_noerr | done].
Qed.

Lemma lines_errors t sid rep offset lines : errs scope_collision (extract_lines t sid rep offset lines).
Proof.
  revert offset; induction lines as [|line lines IH]; intros offset; [done|]. cbn [extract_lines].
  apply errs_bind; [apply line_errors|]. intros x _. apply errs_bind; [apply IH|]. done.
Qed.

(** ** What the claims of a text are made of *)

(** The text [x] is part of [t]. *)
Definition from_text (t : text) (x : string) : Prop := exists l, part l t /\ x = str_concat l.

Lemma from_text_part t u x : part t u -> from_text t x -> from_text u x.
Proof. intros Hp (l & Hl & ->). exists l. split; [by etrans|done]. Qed.

Lemma strip_from t l : part l t -> from_text t (str_concat (strip l)).
Proof. intros Hl. exists (strip l). split; [etrans; [apply strip_part|done]|done]. Qed.

Lemma parse_scope_from raw :
  NoDup (_parse_scope raw).*1 /\ Forall (fun kv => from_text raw kv.1 /\ from_text raw kv.2) (_parse_scope raw).
Proof.
  unfold _parse_scope. destruct (split_on_parts ";" raw) as [Hparts _].
  assert (H0 : NoDup ([] : list (string * string)).*1 /\
    Forall (fun kv => from_text raw kv.1 /\ from_text raw kv.2) ([] : list (string * string))) by (split; constructor).
  revert H0. generalize ([] : list (string * string)). induction Hparts as [|p ps Hp _ IH]; intros d Hd; [done|].
  cbn [foldl]. apply IH. clear IH. unfold parse_part.
  destruct (strip p) as [|x rest] eqn:Es; [done|]. rewrite <- Es.
  destruct (split_once "=" (strip p)) as [[k v]|] eqn:Ek; [|done]. apply split_once_parts in Ek as [Hk Hv]. cbn [fst snd] in *.
  assert (Hsp : part (strip p) raw) by (etrans; [apply strip_part|done]).
  destruct Hd as [Hnd Hall]. split; [by apply assoc_set_NoDup|].
  assert (Hkv : from_text raw (str_concat (strip k)) /\ from_text raw (str_concat (strip v)))
    by (split; apply strip_from; by etrans).
  clear Hnd. induction Hall as [|[k0 v0] d Hd Hrest IH]; cbn [assoc_set]; [constructor; [exact Hkv|constructor]|].
  destruct (String.eqb _ k0); constructor; try done. split; [apply Hd | apply Hkv].
Qed.

(** The texts of a claim's identity are parts of the text, the scope's keys are distinct. *)
Record made_of (t : text) (i : ClaimIdentity) : Prop := {
  mo_subject : from_text t (subject_id i);
  mo_predicate : from_text t (predicate_id i);
  mo_object : from_text t (obj i);
  mo_polarity : str_mem (polarity i) ["positive"; "negative"] = true;
  mo_keys : NoDup (scope i).*1;
  mo_scope : Forall (fun kv => from_text t kv.1 /\ from_text t kv.2) (scope i);
}.

Lemma line_made_of t sid rep start line u cs rs :
  part line u -> extract_line t sid rep start line = Ok (cs, rs) -> Forall (fun c => made_of u (identity c)) cs.
Proof.
  intros Hline. unfold extract_line. destruct (strip line) as [|x rest] eqn:Es; [intros [= <- <-]; constructor|].
  rewrite <- Es. destruct (split_once "|" (strip line)) as [[head tail]|]; [|intros [= <- <-]; constructor].
  destruct (String.eqb x "#"); [intros [= <- <-]; constructor|].
  destruct (String.eqb _ "REVOKE"); [intros [= <- <-]; constructor|].
  assert (Hfields : Forall (fun f => part f u) (map strip (split_on "|" (strip line)))).
  { apply Forall_map. destruct (split_on_parts "|" (strip line)) as [Hp _]. eapply list.Forall_impl; [exact Hp|].
    intros f Hf. etrans; [apply strip_part|]. etrans; [exact Hf|]. etrans; [apply strip_part|done]. }
  destruct (map strip _) as [|subj [|pred [|ob [|pol [|scp more]]]]]; try (intros [= <- <-]; constructor).
  destruct (str_mem (str_concat pol) _) eqn:Hpol; cbn [negb]; [|intros [= <- <-]; constructor].
  intros H1. apply bind_ok in H1 as (idx & _ & H1). apply bind_ok in H1 as (i & Hi%map_err_ok & H1).
  apply bind_ok in H1 as (c & Hc & [= <- <-]). constructor; [|constructor].
  match type of Hc with compile_claim ?sid ?e ?m ?i = _ => destruct (compile_claim_ok sid e m i) as (a & _ & Ha); rewrite Ha in Hc end.
  injection Hc as <-. cbn [identity]. unfold create_identity in Hi. apply bind_ok in Hi as (h & _ & [= <-]).
  do 5 (apply list.Forall_cons in Hfields as [? Hfields]). destruct (parse_scope_from scp) as [Hnd Hsc].
  split; cbn; try done; try (eexists; split; [|reflexivity]; done).
  eapply list.Forall_impl; [exact Hsc|]. intros kv [? ?]. split; by eapply from_text_part.
Qed.

Lemma lines_made_of t sid rep u lines offset r :
  (forall l, l ∈ lines -> part l u) -> extract_lines t sid rep offset lines = Ok r ->
  Forall (fun c => made_of u (identity c)) (claims r).
Proof.
  revert offset r; induction lines as [|line lines IH]; intros offset r Hp; cbn [extract_lines].
  - intros [= <-]. constructor.
  - intros H1. apply bind_ok in H1 as ([cs rs] & Hx & H1). apply bind_ok in H1 as (r' & Hr & [= <-]). cbn [fst claims].
    apply Forall_app. split; [eapply line_made_of; [|exact Hx]; apply Hp; by left|].
    eapply IH; [|exact Hr]. intros l Hl. apply Hp. by right.
Qed.

Lemma mock_made_of s sid rep r :
  mock_extract s sid rep = Ok r -> Forall (fun c => made_of (chars s) (identity c)) (claims r).
Proof.
  unfold mock_extract. intros Hr. eapply lines_made_of; [|exact Hr]. intros l Hl. rewrite <- (splitlines_concat (chars s)). by apply concat_part.
Qed.

(** The mock extractor grounds every claim in its own line.  When it returns, each claim
    names a non-empty span of the text by character offsets, carries the hash of exactly
    that span, has an identity and a legal modality; the span is a line of the text without
    the blanks around it, and the spans follow one another.  It can only fail because two
    scope keys of a line have one NFC form. *)
Theorem mock_claims_grounded s source_id rep :
  (forall e, mock_extract s source_id rep = Err e -> e = ExClaim (NotCanonical KeyCollision)) /\
  (forall r, mock_extract s source_id rep = Ok r -> exists spans,
     Forall2 (grounded (chars s) source_id rep) spans (claims r) /\
     StronglySorted (fun a b => a.2 <= b.1) spans /\
     Forall (fun sp => exists line, line ∈ splitlines (chars s) /\ slice sp.1 sp.2 (chars s) = strip line) spans).
Proof.
  unfold mock_extract. split; [intros e He; by apply lines_errors in He|]. intros r Hr.
  destruct (lines_grounded (chars s) source_id rep (splitlines (chars s)) [] r) as (spans & Hg & Ho & Hin);
    [by rewrite splitlines_concat | exact Hr|].
  exists spans. split; [done|]. split; [done|]. eapply list.Forall_impl; [exact Hin|]. by intros sp [_ ?].
Qed.
End Claims.

(** ** Evaluations *)

Definition sample_text : string :=
  "# notes" +:+ LF +:+ "  pump | rated | 40 kW | positive | site=A; unit = 2 | likely " +:+ CR +:+ LF +:+ "REVOKE | abc" +:+ LF.

Definition sample_extract : result extract_error ExtractResult :=
  mock_extract (U := unicode_sample) (D := pad_digest) sample_text "src" "rep".

Example mock_extract_sample :
  match sample_extract with
  | Ok r => (map (fun c => (subject_id (identity c), obj (identity c), scope (identity c), modality (assertion c),
                            locators (evidence c))) (claims r), revokes r)
  | Err _ => ([], [])
  end = ([("pump", "40 kW", [("site", "A"); ("unit", "2")], "likely", [text_span 10 69])], ["abc"]).
Proof. vm_compute. reflexivity. Qed.

Lemma mock_claims_grounded_witness :
  match sample_extract with
  | Ok r => exists spans, Forall2 (grounded (U := unicode_sample) (D := pad_digest) (chars sample_text) "src" "rep") spans (claims r)
  | Err _ => False
  end.
Proof.
  destruct (mock_claims_grounded (U := unicode_sample) (D := pad_digest) sample_text "src" "rep") as [_ H].
  unfold sample_extract in *. destruct (mock_extract (U := unicode_sample) (D := pad_digest) sample_text "src" "rep") as [r|e] eqn:E.
  - destruct (H r eq_refl) as (spans & Hg & _). exists spans. exact Hg.
  - vm_compute in E. discriminate E.
Defined.
