(* ===== verification/Verify.v ===== *)
(** * Verification layers (verify.py)

    Layer D compares a claim's quote hash with the span its locator names; the modality
    layer keeps hedged spans hedged; Layer P asks an entailment checker, whose failures
    count as "unresolved".  The golden evaluations are their counters. *)
From S2P Require Import Prelude Digest Json Canonical Hashing Text Models Llm Claims.
Open Scope string_scope.

(** ** Layer D *)

(** [claim.evidence.locators[0]] and the two offsets; [None]: one of them raises. *)
Definition locator_span (c : CompiledClaim) : option (Z * Z) :=
  loc ← head (locators (evidence c));
  start ← assoc "start" loc ≫= int_text;
  last ← assoc "end" loc ≫= int_text;
  Some (start, last).

Section LayerD.
Context {D : Digest}.

Definition layer_d_ok (c : CompiledClaim) (source_text : string) : option bool :=
  sp ← locator_span c;
  let t := chars source_text in
  if ((0 <=? sp.1) && (sp.1 <? sp.2) && (sp.2 <=? Z.of_nat (length t)))%Z
  then Some (String.eqb (sha256_hex (str_concat (slice (Z.to_nat sp.1) (Z.to_nat sp.2) t))) (quote_hash (evidence c)))
  else Some false.
End LayerD.

(** ** Modality *)

Definition _MODALITY_RANK : list (string * nat) := [("possible", 0); ("likely", 1); ("asserted", 2)].

Definition word (s : string) : pattern := [Boundary; Lit s; Boundary].
Definition word_opt (s suffix : string) : pattern := [Boundary; Lit s; Opt suffix; Boundary].

Definition _LIKELY_PATTERNS : list pattern :=
  [word "likely"; word "probably"; word_opt "appear" "s"; word_opt "seem" "s";
   word_opt "suggest" "s"; [Lit "가능성이"; Spaces; OneOf ["높"; "크"]]; [Lit "것으로"; Spaces; Lit "보인다"]].
Definition _POSSIBLE_PATTERNS : list pattern :=
  [word "may"; word "might"; word "could"; word "possibly";
   word "perhaps"; word_opt "potential" "ly"; [Lit "수"; Spaces; Lit "있"]; [Lit "일"; Spaces; Lit "수"];
   [Lit "가능성"]; [Lit "아마"]; [Lit "인"; Spaces; Lit "듯"]; [Lit "듯하다"]].

Section Modality.
Context {L : UnicodeCase} {W : UnicodeWord}.

Definition infer_source_modality (span : text) : string :=
  let s := chars (py_lower (str_concat span)) in
  if existsb (fun p => re_search p s) _POSSIBLE_PATTERNS then "possible"
  else if existsb (fun p => re_search p s) _LIKELY_PATTERNS then "likely"
  else "asserted".

Definition detect_hedge (span : text) : bool := negb (String.eqb (infer_source_modality span) "asserted").

Definition modality_rank (m : string) : nat := default 2 (assoc m _MODALITY_RANK).

(** [min] of the two by rank, the first of equals. *)
Definition preserve_modality (source_span : text) (proposed_modality : string) : string :=
  let proposed := if assoc proposed_modality _MODALITY_RANK then proposed_modality else "asserted" in
  let source := infer_source_modality source_span in
  if (modality_rank proposed <? modality_rank source)%nat then proposed else source.

(** [source_text[a:b]] for any integers. *)
Definition py_index (n : nat) (z : Z) : nat :=
  if (z <? 0)%Z then Z.to_nat (Z.of_nat n + z) else Z.to_nat z.
Definition py_slice (a b : Z) (t : text) : text := slice (py_index (length t) a) (py_index (length t) b) t.

Definition modality_preserved (c : CompiledClaim) (source_text : string) : option bool :=
  sp ← locator_span c;
  let source := infer_source_modality (py_slice sp.1 sp.2 (chars source_text)) in
  Some (modality_rank (modality (assertion c)) <=? modality_rank source)%nat.
End Modality.

(** ** Layer P *)

Inductive LayerPDecision : Type := ENTAILED | UNRESOLVED | CONTRADICTED.

#[export] Instance layer_p_eq_dec : EqDecision LayerPDecision.
Proof. solve_decision. Defined.

Definition decision_value (d : LayerPDecision) : string :=
  match d with ENTAILED => "entailed" | UNRESOLVED => "unresolved" | CONTRADICTED => "contradicted" end.

(** [EntailmentChecker] in a world [W]. *)
Definition EntailmentChecker (W : Type) : Type := CompiledClaim -> string -> st W extract_error LayerPDecision.

Definition mock_checker {D : Digest} {W} (c : CompiledClaim) (t : string) : st W extract_error LayerPDecision :=
  ok ← st_lift (of_option ExValueError (layer_d_ok c t));
  mret (if ok : bool then ENTAILED else UNRESOLVED).

Definition dq : string := char_of 34.
Definition VERIFICATION_SYSTEM : string :=
  "You are a strict entailment judge. Given SOURCE, a CLAIM, and the EVIDENCE span, "
  +:+ "decide whether the evidence supports the claim. Return STRICT JSON only: "
  +:+ "{" +:+ dq +:+ "decision" +:+ dq +:+ ":" +:+ dq +:+ "entailed|unresolved|contradicted" +:+ dq +:+ "}. "
  +:+ "Use 'entailed' ONLY if the evidence clearly supports the claim; 'contradicted' if it "
  +:+ "opposes; 'unresolved' if the evidence is insufficient. Never guess.".

(** The checker's own state beside the client's world. *)
Record CheckerState (W : Type) : Type := { client_world : W; last_raw : option jval }.
Arguments client_world {W}.
Arguments last_raw {W}.

#[export] Instance client_beside_checker {W} `{LLMClient W} : LLMClient (CheckerState W) := fun model system user s =>
  let '(w, r) := complete_json (W := W) model system user (client_world s) in
  ({| client_world := w; last_raw := last_raw s |}, r).

Definition entailment_prompt (c : CompiledClaim) (source_text : string) (span : text) : string :=
  let i := identity c in
  "SOURCE:" +:+ LF +:+ source_text +:+ LF +:+ LF
  +:+ "CLAIM: " +:+ subject_id i +:+ " " +:+ predicate_id i +:+ " " +:+ obj i
  +:+ " (polarity=" +:+ polarity i +:+ ")" +:+ LF +:+ "EVIDENCE: " +:+ str_concat span.

(** The decision in a response: anything but the two words is "unresolved". *)
Definition decision_of (resp : jval) : LayerPDecision :=
  match resp with
  | VDict kvs => match jget kvs "decision" VNull with
                 | VStr "entailed" => ENTAILED
                 | VStr "contradicted" => CONTRADICTED
                 | _ => UNRESOLVED
                 end
  | _ => UNRESOLVED
  end.

(** One question to the judge; a client that raises means "unresolved". *)
Definition ask_judge {W} `{LLMClient W} (config : LLMConfig) (user : string)
    : st (CheckerState W) extract_error LayerPDecision := fun s =>
  match complete_json (W := CheckerState W) (verification_model_id config) VERIFICATION_SYSTEM user s with
  | (s, Err _) => (s, Ok UNRESOLVED)
  | (s, Ok resp) =>
      ({| client_world := client_world s; last_raw := match resp with VDict _ => Some resp | _ => None end |},
       Ok (decision_of resp))
  end.

(** [LLMEntailmentChecker.check] *)
Definition llm_checker {W} `{LLMClient W} (config : LLMConfig) (c : CompiledClaim) (source_text : string)
    : st (CheckerState W) extract_error LayerPDecision :=
  sp ← st_lift (of_option ExValueError (locator_span c));
  ask_judge config (entailment_prompt c source_text (py_slice sp.1 sp.2 (chars source_text))).

(** ** The golden evaluation's counters *)

Definition claim_key : Type := string * string * string * string.
Definition _key (c : CompiledClaim) : claim_key :=
  (subject_id (identity c), predicate_id (identity c), obj (identity c), polarity (identity c)).

Record GoldenExample : Type := { source : string; expected_claims : gset claim_key }.

Record golden_counts : Type := {
  tp : nat; fp : nat; fn : nat; abst : nat;
  accepted_total : nat; hedge_ok : nat; unsupported : nat; parsed_ok : nat;
}.

Definition no_counts : golden_counts :=
  {| tp := 0; fp := 0; fn := 0; abst := 0; accepted_total := 0; hedge_ok := 0; unsupported := 0; parsed_ok := 0 |}.

Section Golden.
Context {D : Digest} {L : UnicodeCase} {W : UnicodeWord}.

(** One accepted claim; [None]: a check raises. *)
Definition count_claim (src : string) (g : golden_counts * gset claim_key) (c : CompiledClaim)
    : option (golden_counts * gset claim_key) :=
  let '(n, got) := g in
  supported ← layer_d_ok c src;
  if supported : bool then
    preserved ← modality_preserved c src;
    Some ({| tp := tp n; fp := fp n; fn := fn n; abst := abst n; accepted_total := S (accepted_total n);
             hedge_ok := hedge_ok n + (if preserved : bool then 1 else 0); unsupported := unsupported n;
             parsed_ok := parsed_ok n |}, {[_key c]} ∪ got)
  else
    Some ({| tp := tp n; fp := fp n; fn := fn n; abst := abst n; accepted_total := S (accepted_total n);
             hedge_ok := hedge_ok n; unsupported := S (unsupported n); parsed_ok := parsed_ok n |}, got).

Fixpoint count_claims (src : string) (cs : list CompiledClaim) (g : golden_counts * gset claim_key)
    : option (golden_counts * gset claim_key) :=
  match cs with [] => Some g | c :: cs => g ← count_claim src g c; count_claims src cs g end.

(** One example, given what the extractor returned ([None]: it raised) and whether its
    output was well structured. *)
Definition count_example (ex : GoldenExample) (extracted : option (list CompiledClaim)) (structured : bool)
    (n : golden_counts) : option golden_counts :=
  let parsed := if extracted then structured else false in
  g ← count_claims (source ex) (default [] extracted)
        ({| tp := tp n; fp := fp n; fn := fn n; abst := abst n; accepted_total := accepted_total n; hedge_ok := hedge_ok n;
            unsupported := unsupported n; parsed_ok := parsed_ok n + (if parsed then 1 else 0) |}, ∅);
  let '(n, got) := g in
  Some {| tp := tp n + size (got ∩ expected_claims ex); fp := fp n + size (got ∖ expected_claims ex);
          fn := fn n + size (expected_claims ex ∖ got);
          abst := abst n + (if bool_decide (expected_claims ex = ∅) && bool_decide (got = ∅) then 1 else 0);
          accepted_total := accepted_total n; hedge_ok := hedge_ok n; unsupported := unsupported n;
          parsed_ok := parsed_ok n |}.

(** [run_golden] up to its fractions; the extractor runs in a state [S], [structured] reads
    its [last_structured_output_ok]. *)
Fixpoint run_golden {S E} (extract : string -> st S E ExtractResult) (structured : S -> bool)
    (examples : list GoldenExample) (n : golden_counts) (s : S) : S * option golden_counts :=
  match examples with
  | [] => (s, Some n)
  | ex :: examples =>
      let '(s, r) := extract (source ex) s in
      match count_example ex (match r with Ok x => Some (claims x) | Err _ => None end) (structured s) n with
      | Some n => run_golden extract structured examples n s
      | None => (s, None)
      end
  end.
End Golden.

(** ** Lemmas *)
Section VerifyLemmas.
Context {U : Unicode} {D : Digest} {L : UnicodeCase} {W : UnicodeWord}.

(** A text that fits in memory. *)
Definition fits (s : string) : Prop := (N.of_nat (length (chars s)) < maxsize)%N.

Lemma grounded_locator src sid rep span c :
  fits src -> grounded (chars src) sid rep span c ->
  locator_span c = Some (Z.of_nat span.1, Z.of_nat span.2).
Proof.
  intros Hf [Hs He _ _ _ _ _ _]. unfold locator_span. rewrite He. cbn [span_evidence locators head option_bind mbind].
  assert (forall n, n <= length (chars src) -> int_text (str_of_nat n) = Some (Z.of_nat n)) as Hi.
  { intros n Hn. unfold str_of_nat. rewrite int_text_of_N; [by rewrite nat_N_Z|]. unfold fits in Hf. lia. }
  cbn -[int_text str_of_nat]. rewrite !Hi by lia. done.
Qed.

(** Layer D accepts what is grounded. *)
Lemma grounded_layer_d src sid rep span c :
  fits src -> grounded (chars src) sid rep span c -> layer_d_ok c src = Some true.
Proof.
  intros Hf Hg. unfold layer_d_ok. rewrite (grounded_locator _ _ _ _ _ Hf Hg). cbn [option_bind mbind fst snd].
  destruct Hg as [Hs He _ _ _ _ _ _]. rewrite He. cbn [span_evidence quote_hash]. rewrite !Nat2Z.id.
  destruct (Z.leb_spec 0 (Z.of_nat span.1)), (Z.ltb_spec (Z.of_nat span.1) (Z.of_nat span.2)),
    (Z.leb_spec (Z.of_nat span.2) (Z.of_nat (length (chars src)))); try lia. cbn [andb]. by rewrite String.eqb_refl.
Qed.

Lemma py_slice_nat i j t : py_slice (Z.of_nat i) (Z.of_nat j) t = slice i j t.
Proof.
  unfold py_slice, py_index. destruct (Z.ltb_spec (Z.of_nat i) 0), (Z.ltb_spec (Z.of_nat j) 0); try lia.
  by rewrite !Nat2Z.id.
Qed.

Lemma grounded_modality src sid rep span c :
  fits src -> grounded (chars src) sid rep span c ->
  modality_preserved c src =
    Some (modality_rank (modality (assertion c)) <=? modality_rank (infer_source_modality (slice span.1 span.2 (chars src))))%nat.
Proof.
  intros Hf Hg. unfold modality_preserved. rewrite (grounded_locator _ _ _ _ _ Hf Hg). cbn [option_bind mbind fst snd].
  by rewrite py_slice_nat.
Qed.

Lemma infer_legal span : infer_source_modality span ∈ _MODALITY.
Proof.
  unfold infer_source_modality, _MODALITY. rewrite !elem_of_cons.
  destruct (existsb _ _); [auto|]. destruct (existsb _ _); auto.
Qed.

Lemma preserve_cases span m :
  preserve_modality span m ∈ _MODALITY /\
  modality_rank (preserve_modality span m) <= modality_rank (infer_source_modality span) /\
  (m ∈ _MODALITY -> modality_rank (preserve_modality span m) <= modality_rank m /\
     (preserve_modality span m = m \/ preserve_modality span m = infer_source_modality span)).
Proof.
  unfold preserve_modality. pose proof (infer_legal span) as Hl.
  set (p := if assoc m _MODALITY_RANK then m else "asserted").
  assert (Hp : p ∈ _MODALITY /\ (m ∈ _MODALITY -> p = m)).
  { unfold p. destruct (assoc m _MODALITY_RANK) as [n|] eqn:E.
    - split; [|done]. apply assoc_Some_elem in E. unfold _MODALITY_RANK in E. unfold _MODALITY. set_solver.
    - split; [by left|]. intros Hm. apply assoc_None in E. destruct E. unfold _MODALITY, _MODALITY_RANK in *. cbn. set_solver. }
  destruct Hp as [Hp Hpm]. destruct (Nat.ltb_spec (modality_rank p) (modality_rank (infer_source_modality span))).
  - split; [done|]. split; [lia|]. intros Hm. rewrite (Hpm Hm). auto.
  - split; [done|]. split; [lia|]. intros Hm. rewrite <- (Hpm Hm). auto.
Qed.

(** A pattern of the list matches somewhere in the lowered span. *)
Definition hedged (patterns : list pattern) (span : text) : Prop :=
  exists p a t1 t2, p ∈ patterns /\ chars (py_lower (str_concat span)) = (a ++ t1)%list /\
    matches p (word_after false a) t1 t2.

Lemma hedged_spec patterns span :
  existsb (fun p => re_search p (chars (py_lower (str_concat span)))) patterns = true <-> hedged patterns span.
Proof.
  unfold hedged. rewrite existsb_exists. setoid_rewrite re_search_spec. setoid_rewrite <- list_elem_of_In.
  split; [intros (p & Hp & a & t1 & t2 & ? & ?); by exists p, a, t1, t2 | intros (p & a & t1 & t2 & ? & ? & ?); eauto 8].
Qed.

(** The certainty of a claim is the least that its source and its proposal support.  The
    certainty of a span is "possible" just when one of the possibility patterns matches
    somewhere in its lower-case text, otherwise "likely" just when one of the likelihood
    patterns does, otherwise "asserted"; what is kept of a proposed modality is a legal
    modality that ranks no higher than the span's and no higher than the proposal, and is
    one of the two. *)
Theorem modality_least_certain span m :
  (infer_source_modality span = "possible" <-> hedged _POSSIBLE_PATTERNS span) /\
  (infer_source_modality span = "likely" <-> ~ hedged _POSSIBLE_PATTERNS span /\ hedged _LIKELY_PATTERNS span) /\
  (detect_hedge span = true <-> hedged (_POSSIBLE_PATTERNS ++ _LIKELY_PATTERNS) span) /\
  preserve_modality span m ∈ _MODALITY /\
  modality_rank (preserve_modality span m) <= modality_rank (infer_source_modality span) /\
  (m ∈ _MODALITY -> modality_rank (preserve_modality span m) <= modality_rank m /\
     (preserve_modality span m = m \/ preserve_modality span m = infer_source_modality span)).
Proof.
  assert (hedged (_POSSIBLE_PATTERNS ++ _LIKELY_PATTERNS) span <-> hedged _POSSIBLE_PATTERNS span \/ hedged _LIKELY_PATTERNS span) as ->.
  { rewrite <- !hedged_spec, existsb_app. by rewrite orb_true_iff. }
  rewrite <- !hedged_spec. unfold detect_hedge, infer_source_modality at 1 2 3.
  split; [|split; [|split; [|apply preserve_cases]]];
    repeat match goal with |- context [existsb ?f ?l] => destruct (existsb f l) end; cbn; naive_solver.
Qed.
End VerifyLemmas.

(** ** Evaluations *)

Example infer_sample :
  map (fun s => infer_source_modality (L := case_sample) (W := word_sample) (chars s))
    ["It is Perhaps so"; "Dismay seems large"; "The seam is closed"; "지원할 수  있다"; "가능성이 높"] =
  ["possible"; "likely"; "asserted"; "possible"; "possible"].
Proof. vm_compute. reflexivity. Qed.

Lemma modality_least_certain_witness :
  preserve_modality (L := case_sample) (W := word_sample) (chars "it may") "likely" = "possible" /\
  modality_rank (preserve_modality (L := case_sample) (W := word_sample) (chars "it may") "likely") <= modality_rank "likely".
Proof.
  split; [vm_compute; reflexivity|].
  apply (modality_least_certain (L := case_sample) (W := word_sample) (chars "it may") "likely").
  right. left.
Defined.
