(* ===== verification/Extraction.v ===== *)
(** * Extraction by a model (extraction.py)

    The client proposes claims as JSON; a proposal becomes a claim only with a quote that
    stands in the normalized source.  [locate] is the deterministic gate, [compile_raw] the
    part of the loop body between the gate and the entailment checker, [extract_raw] the
    loop body. *)
From S2P Require Import Prelude Digest Json Canonical Hashing Text Models Llm Claims Verify.
Open Scope string_scope.

(** [str] of the values whose text the program does not fix: floats, lists and dicts. *)
Class PyRepr : Type := { repr_value : jval -> string }.

Definition EXTRACTION_SYSTEM : string :=
  "You extract atomic factual claims from the SOURCE. Return STRICT JSON only:" +:+ LF
  +:+ "{" +:+ dq +:+ "claims" +:+ dq +:+ ":[{" +:+ dq +:+ "subject" +:+ dq +:+ "," +:+ dq +:+ "predicate" +:+ dq
  +:+ "," +:+ dq +:+ "object" +:+ dq +:+ "," +:+ dq +:+ "polarity" +:+ dq +:+ ":" +:+ dq +:+ "positive|negative" +:+ dq
  +:+ "," +:+ dq +:+ "modality" +:+ dq +:+ ":" +:+ dq +:+ "asserted|likely|possible" +:+ dq +:+ ","
  +:+ dq +:+ "scope" +:+ dq +:+ ":{}," +:+ dq +:+ "evidence_quote" +:+ dq +:+ "," +:+ dq +:+ "offset" +:+ dq
  +:+ ":[start,end]}]," +:+ LF +:+ dq +:+ "abstain" +:+ dq +:+ ":false}" +:+ LF
  +:+ "Rules: use ONLY facts present in the SOURCE; evidence_quote MUST be an exact substring "
  +:+ "of the SOURCE; never raise the certainty of a hedged statement; if nothing is supported, "
  +:+ "return {" +:+ dq +:+ "claims" +:+ dq +:+ ":[]," +:+ dq +:+ "abstain" +:+ dq +:+ ":true}.".

Definition _REQUIRED : list string := ["subject"; "predicate"; "object"; "polarity"; "evidence_quote"; "offset"].

(** Whether [_validate_claim] accepts: it raises [SchemaError] otherwise. *)
Definition _validate_claim (obj : list (string * jval)) : bool :=
  forallb (fun k => bool_decide (is_Some (assoc k obj))) _REQUIRED
  && match jget obj "polarity" VNull with VStr p => str_mem p ["positive"; "negative"] | _ => false end
  && match jget obj "offset" VNull with VList off => (length off =? 2)%nat | _ => false end.

(** [int(v)] *)
Definition int_of (v : jval) : result extract_error Z :=
  match v with
  | VInt z => Ok z
  | VBool b => Ok (if b then 1 else 0)%Z
  | VFloat f => of_option ExValueError (truncated f)
  | VStr s => of_option ExValueError (int_text s)
  | _ => Err ExTypeError
  end.

Definition str_of_Z (z : Z) : string :=
  if (z <? 0)%Z then "-" +:+ str_of_N (Z.to_N (- z)) else str_of_N (Z.to_N z).

(** [str(v)] *)
Definition str_of {P : PyRepr} (v : jval) : string :=
  match v with
  | VStr s => s
  | VNull => "None"
  | VBool b => if b then "True" else "False"
  | VInt z => str_of_Z z
  | _ => repr_value v
  end.

(** [{str(k): str(v) for k, v in (raw.get("scope") or {}).items()}] *)
Definition scope_of {P : PyRepr} (raw : list (string * jval)) : result extract_error (list (string * string)) :=
  let v := jget raw "scope" VNull in
  if truthy v
  then match v with
       | VDict kvs => Ok (foldl (fun d kv => assoc_set kv.1 (str_of kv.2) d) [] kvs)
       | _ => Err ExAttributeError
       end
  else Ok [].

(** Layer D's gate: the span of the quote.  At the stated offset, or where the quote occurs
    when [count] finds it once; otherwise the proposal is dropped. *)
Definition locate (norm : text) (start last : Z) (quote : jval) : option (nat * nat) :=
  let span := (Z.to_nat start, Z.to_nat last) in
  if ((0 <=? start) && (start <? last) && (last <=? Z.of_nat (length norm)))%Z
     && match quote with VStr q => String.eqb (str_concat (slice span.1 span.2 norm)) q | _ => false end
  then Some span
  else match quote with
       | VStr q =>
           if str_nonempty q && (count_sub (chars q) norm =? 1)%nat
           then idx ← find_sub (chars q) norm; Some (idx, idx + length (chars q))
           else None
       | _ => None
       end.

Definition legal_modality (v : jval) : string :=
  match v with VStr m => if str_mem m _MODALITY then m else "asserted" | _ => "asserted" end.

Section Extractor.
Context {U : Unicode} {D : Digest} {L : UnicodeCase} {Wd : UnicodeWord} {P : PyRepr}.

(** The claim of a well-formed proposal; [None]: refused. *)
Definition compile_raw (norm : text) (source_id representation_hash : string) (raw : list (string * jval))
    : result extract_error (option CompiledClaim) :=
  match jget raw "offset" VNull with
  | VList [a; b] =>
      start ← int_of a;
      last ← int_of b;
      match locate norm start last (jget raw "evidence_quote" VNull) with
      | None => Ok None
      | Some (i, j) =>
          let modality := preserve_modality (slice i j norm) (legal_modality (jget raw "modality" (VStr "asserted"))) in
          scope ← scope_of raw;
          let e := span_evidence norm source_id representation_hash i j in
          ident ← map_err ExClaim
            (create_identity (str_of (jget raw "subject" VNull)) (str_of (jget raw "predicate" VNull))
               (str_of (jget raw "object" VNull)) (str_of (jget raw "polarity" VNull)) scope);
          c ← compile_claim source_id e modality ident;
          Ok (Some c)
      end
  | _ => Ok None
  end.

Context {W : Type} `{LLMClient W}.

(** The extractor's attributes, and the world of its client and checker. *)
Record ExtractorState : Type := {
  world : W;
  last_structured_output_ok : bool;
  last_layer_p_decisions : list string;
}.

Definition set_structured (b : bool) (s : ExtractorState) : ExtractorState :=
  {| world := world s; last_structured_output_ok := b; last_layer_p_decisions := last_layer_p_decisions s |}.
Definition clear_decisions (s : ExtractorState) : ExtractorState :=
  {| world := world s; last_structured_output_ok := last_structured_output_ok s; last_layer_p_decisions := [] |}.
Definition add_decision (d : string) (s : ExtractorState) : ExtractorState :=
  {| world := world s; last_structured_output_ok := last_structured_output_ok s;
     last_layer_p_decisions := last_layer_p_decisions s ++ [d] |}.

(** A computation of the client or the checker, run in the extractor's state. *)
Definition in_world {E A} (f : E -> extract_error) (m : st W E A) : st ExtractorState extract_error A := fun s =>
  let '(w, r) := m (world s) in
  ({| world := w; last_structured_output_ok := last_structured_output_ok s;
      last_layer_p_decisions := last_layer_p_decisions s |}, map_err f r).

Definition schema_failure {A} (a : A) : st ExtractorState extract_error A :=
  _ ← st_modify (set_structured false); mret a.

Variables (config : LLMConfig) (entailment_checker : option (EntailmentChecker W)).

Definition extract_raw (norm : string) (source_id representation_hash : string) (raw : jval)
    : st ExtractorState extract_error (list CompiledClaim) :=
  match raw with
  | VDict raw =>
      if _validate_claim raw then
        o ← st_lift (compile_raw (chars norm) source_id representation_hash raw);
        match o, entailment_checker with
        | None, _ => mret []
        | Some compiled, None => mret [compiled]
        | Some compiled, Some check =>
            decision ← in_world id (check compiled norm);
            _ ← st_modify (add_decision (decision_value decision));
            mret (if bool_decide (decision = ENTAILED) then [compiled] else [])
        end
      else schema_failure []
  | _ => schema_failure []
  end.

(** The proposals of a response, when it has the expected shape. *)
Definition proposals (resp : jval) : option (list jval) :=
  match resp with
  | VDict kvs => match jget kvs "claims" (VList []) with VList raws => Some raws | _ => None end
  | _ => None
  end.

(** [LLMExtractor.extract] *)
Definition llm_extract (s source_id representation_hash : string) : st ExtractorState extract_error ExtractResult :=
  let norm := nfc s in
  resp ← in_world ExClient
    (complete_json (extraction_model_id config) EXTRACTION_SYSTEM ("SOURCE:" +:+ LF +:+ norm));
  _ ← st_modify (set_structured match resp with VDict _ => true | _ => false end);
  _ ← st_modify clear_decisions;
  match proposals resp with
  | None => schema_failure {| claims := []; revokes := [] |}
  | Some raws =>
      cs ← st_map (extract_raw norm source_id representation_hash) raws;
      mret {| claims := concat cs; revokes := [] |}
  end.
End Extractor.

(** ** Lemmas *)
Section ExtractionLemmas.
Context {U : Unicode} {D : Digest} {L : UnicodeCase} {Wd : UnicodeWord} {P : PyRepr}.

(** The quote [q] is the text of characters [i] to [j]. *)
Definition stands (norm : text) (q : string) (i j : nat) : Prop :=
  i < j <= length norm /\ str_concat (slice i j norm) = q.

Lemma once_stands norm q i :
  str_nonempty q = true -> find_sub (chars q) norm = Some i -> stands norm q i (i + length (chars q)).
Proof.
  intros Hq Hi. pose proof (find_sub_spec (chars q) norm) as H. rewrite Hi in H. destruct H as [[Hl Hs] _].
  assert (length (chars q) <> 0).
  { intros H0%length_zero_iff_nil%chars_nil. by subst q. }
  split; [lia|]. by rewrite Hs, str_concat_chars.
Qed.

Lemma locate_stands norm a b v i j :
  locate norm a b v = Some (i, j) -> exists q, v = VStr q /\ stands norm q i j.
Proof.
  unfold locate. cbn [fst snd].
  assert (Hrec : forall o, (match v with
            | VStr q => if str_nonempty q && (count_sub (chars q) norm =? 1)%nat
                        then idx ← find_sub (chars q) norm; Some (idx, idx + length (chars q)) else None
            | _ => None end : option (nat * nat)) = o -> o = Some (i, j) -> exists q, v = VStr q /\ stands norm q i j).
  { intros o <- Ho. destruct v as [| | | |q| |]; try done. exists q. split; [done|].
    destruct (str_nonempty q) eqn:Hq; [|done]. destruct (_ =? 1)%nat; [|done]. cbn [andb] in Ho.
    destruct (find_sub _ _) as [idx|] eqn:Hf; [|done]. injection Ho as <- <-. by apply once_stands. }
  destruct ((0 <=? a) && (a <? b) && (b <=? Z.of_nat (length norm)))%Z eqn:Hb; cbn [andb]; [|by apply Hrec].
  apply andb_true_iff in Hb as [[H1%Z.leb_le H2%Z.ltb_lt]%andb_true_iff H3%Z.leb_le].
  destruct v as [| | | |q| |]; try by apply Hrec.
  destruct (String.eqb_spec (str_concat (slice (Z.to_nat a) (Z.to_nat b) norm)) q) as [Hq|]; [|by apply Hrec].
  intros [= <- <-]. exists q. split; [done|]. split; [lia|done].
Qed.

(** A quote at the stated offset, or that [count] finds once, is located. *)
Lemma locate_total norm a b q :
  (stands norm q (Z.to_nat a) (Z.to_nat b) /\ (0 <= a)%Z) \/ (str_nonempty q = true /\ count_sub (chars q) norm = 1) ->
  is_Some (locate norm a b (VStr q)).
Proof.
  unfold locate. cbn [fst snd]. destruct (_ && String.eqb _ q) eqn:E; [by eexists|].
  intros [[[Hb Hq] Ha]|[Hq Hc]].
  - rewrite Hq, String.eqb_refl, andb_true_r in E.
    destruct (Z.leb_spec 0 a), (Z.ltb_spec a b), (Z.leb_spec b (Z.of_nat (length norm))); done || lia.
  - rewrite Hq, Hc. cbn [andb Nat.eqb]. destruct (count_from_find 0 (chars q) norm) as [i ->]; [unfold count_sub in Hc; lia|].
    by eexists.
Qed.

Lemma legal_modality_ok v : legal_modality v ∈ _MODALITY.
Proof.
  destruct v as [| | | |m| |]; try by left. cbn [legal_modality]. destruct (str_mem m _MODALITY) eqn:E; [by apply str_mem_spec | by left].
Qed.

(** What a claim made of a proposal owes to it: the proposal's quote stands in the source
    at the claim's span, and the claim states what the proposal states. *)
Record supported (norm source_id representation_hash : string) (raw : list (string * jval)) (c : CompiledClaim) : Prop := {
  su_grounded : exists i j q, grounded (chars norm) source_id representation_hash (i, j) c /\
    stands (chars norm) q i j /\ jget raw "evidence_quote" VNull = VStr q /\
    modality (assertion c) = preserve_modality (slice i j (chars norm)) (legal_modality (jget raw "modality" (VStr "asserted")));
  su_fields : subject_id (identity c) = str_of (jget raw "subject" VNull) /\
    predicate_id (identity c) = str_of (jget raw "predicate" VNull) /\ obj (identity c) = str_of (jget raw "object" VNull) /\
    polarity (identity c) = str_of (jget raw "polarity" VNull) /\ scope_of raw = Ok (scope (identity c));
}.

Lemma create_identity_fields s p o pol scp x :
  create_identity s p o pol scp = Ok x ->
  subject_id x = s /\ predicate_id x = p /\ obj x = o /\ polarity x = pol /\ scope x = scp.
Proof. unfold create_identity. intros H. by apply bind_ok in H as (h & _ & [= <-]). Qed.

Lemma compile_raw_supported norm sid rep raw c :
  compile_raw (chars norm) sid rep raw = Ok (Some c) -> supported norm sid rep raw c.
Proof.
  unfold compile_raw. destruct (jget raw "offset" VNull) as [| | | | |[|a [|b [|]]]|]; try done.
  intros H1. apply bind_ok in H1 as (start & _ & H1). apply bind_ok in H1 as (last & _ & H1).
  destruct (locate _ _ _ _) as [[i j]|] eqn:Hl; [|done]. apply bind_ok in H1 as (scp & Hs & H1).
  apply bind_ok in H1 as (x & Hx%map_err_ok & H1). apply bind_ok in H1 as (c' & Hc & [= <-]).
  apply locate_stands in Hl as (q & Hv & Hst).
  destruct (preserve_cases (slice i j (chars norm)) (legal_modality (jget raw "modality" (VStr "asserted")))) as [Hm _].
  eapply compile_grounded in Hc as (Hg & Hi & Hmod); [|apply Hst|exact Hx|exact Hm].
  split.
  - by exists i, j, q.
  - rewrite Hi. destruct (create_identity_fields _ _ _ _ _ _ Hx) as (-> & -> & -> & -> & ->). done.
Qed.

(** A well-formed proposal whose quote is located is not refused. *)
Lemma compile_raw_kept norm sid rep raw a b va vb q :
  jget raw "offset" VNull = VList [va; vb] -> int_of va = Ok a -> int_of vb = Ok b ->
  jget raw "evidence_quote" VNull = VStr q ->
  (stands (chars norm) q (Z.to_nat a) (Z.to_nat b) /\ (0 <= a)%Z) \/
  (str_nonempty q = true /\ count_sub (chars q) (chars norm) = 1) ->
  compile_raw (chars norm) sid rep raw <> Ok None.
Proof.
  intros Ho Ha Hb Hq Hs%(locate_total _ a b). unfold compile_raw. rewrite Ho, Ha, Hb, Hq. cbn [mbind result_bind].
  destruct Hs as [[i j] ->]. intros H1. apply bind_ok in H1 as (scp & _ & H1). apply bind_ok in H1 as (x & _ & H1).
  by apply bind_ok in H1 as (c & _ & [=]).
Qed.

Lemma supported_layer_d norm sid rep raw c :
  fits norm -> supported norm sid rep raw c ->
  layer_d_ok c norm = Some true /\ modality_preserved c norm = Some true.
Proof.
  intros Hf [(i & j & q & Hg & _ & _ & Hm) _]. split; [by eapply grounded_layer_d|].
  rewrite (grounded_modality _ _ _ _ _ Hf Hg), Hm. cbn [fst snd]. f_equal. apply Nat.leb_le.
  by destruct (preserve_cases (slice i j (chars norm)) (legal_modality (jget raw "modality" (VStr "asserted")))) as (_ & ? & _).
Qed.

Context {W : Type} `{LLMClient W}.
Variables (config : LLMConfig) (checker : option (EntailmentChecker W)).

(** The checker, when there is one, judged the claim entailed. *)
Definition entailed (norm : string) (c : CompiledClaim) : Prop :=
  match checker with Some check => exists w w', check c norm w = (w', Ok ENTAILED) | None => True end.

(** What one proposal gives. *)
Definition judged (norm sid rep : string) (raw : jval) (cs : list CompiledClaim) : Prop :=
  match raw with
  | VDict obj =>
      if _validate_claim obj
      then exists o, compile_raw (chars norm) sid rep obj = Ok o /\
             (cs = [] /\ (o = None \/ checker <> None) \/ exists c, o = Some c /\ cs = [c] /\ entailed norm c)
      else cs = []
  | _ => cs = []
  end.

Lemma extract_raw_judged norm sid rep raw s s' cs :
  extract_raw checker norm sid rep raw s = (s', Ok cs) -> judged norm sid rep raw cs.
Proof.
  unfold extract_raw, judged. destruct raw as [| | | | | |obj]; try by intros [= <- <-].
  destruct (_validate_claim obj); [|by intros [= <- <-]].
  rewrite st_bind_ok. intros (s1 & o & [-> Ho]%st_lift_ok & H1). exists o. split; [done|].
  destruct o as [c|]; [|injection H1 as <- <-; by auto]. unfold entailed.
  destruct checker as [check|]; [|injection H1 as <- <-; right; by exists c].
  apply st_bind_ok in H1 as (s2 & d & Hd & H1). apply st_bind_ok in H1 as (s3 & ? & _ & [= <- <-]).
  unfold in_world in Hd. destruct (check c norm (world s)) as [w [d'|e]] eqn:Ec; [|discriminate Hd].
  injection Hd as <- <-. case_bool_decide as Hent; [|by left; split; [done|right]].
  subst d'. right. exists c. split; [done|]. split; [done|]. by exists (world s), w.
Qed.

Lemma llm_extract_judged s sid rep st st' r w resp :
  complete_json (extraction_model_id config) EXTRACTION_SYSTEM ("SOURCE:" +:+ LF +:+ nfc s) (world st) = (w, Ok resp) ->
  llm_extract config checker s sid rep st = (st', Ok r) ->
  revokes r = [] /\ exists css, claims r = concat css /\
    Forall2 (judged (nfc s) sid rep) (default [] (proposals resp)) css.
Proof.
  intros Hresp. unfold llm_extract. rewrite st_bind_ok. intros (s1 & resp' & Hw & H1).
  unfold in_world in Hw. rewrite Hresp in Hw. injection Hw as <- <-.
  apply st_bind_ok in H1 as (s2 & ? & _ & H1). apply st_bind_ok in H1 as (s3 & ? & _ & H1).
  destruct (proposals resp) as [raws|].
  - apply st_bind_ok in H1 as (s4 & css & Hc & [= <- <-]). split; [done|]. exists css. split; [done|].
    eapply st_map_all; [|exact Hc]. intros raw s5 s6 cs _. apply extract_raw_judged.
  - injection H1 as <- <-. split; [done|]. exists []. split; [done|constructor].
Qed.

(** The claims are supported by proposals of the response. *)
Lemma judged_supported norm sid rep raws css c :
  Forall2 (judged norm sid rep) raws css -> c ∈ concat css ->
  exists raw, VDict raw ∈ raws /\ _validate_claim raw = true /\ supported norm sid rep raw c /\ entailed norm c.
Proof.
  induction 1 as [|raw cs raws css Hj _ IH]; cbn; [by intros ?%elem_of_nil|].
  intros [Hc|Hc]%elem_of_app.
  - unfold judged in Hj. destruct raw as [| | | | | |obj]; try (subst cs; by apply elem_of_nil in Hc).
    destruct (_validate_claim obj) eqn:Hv; [|subst cs; by apply elem_of_nil in Hc].
    destruct Hj as (o & Ho & [[-> _]|(c' & -> & -> & He)]); [by apply elem_of_nil in Hc|].
    apply list_elem_of_singleton in Hc as ->. exists obj. split; [by left|]. split; [done|]. split; [|done].
    by apply compile_raw_supported.
  - destruct (IH Hc) as (obj & ? & ?). exists obj. split; [by right|done].
Qed.

Lemma judged_kept norm sid rep raws css raw :
  Forall2 (judged norm sid rep) raws css -> checker = None -> VDict raw ∈ raws -> _validate_claim raw = true ->
  compile_raw (chars norm) sid rep raw <> Ok None -> exists c, c ∈ concat css /\ supported norm sid rep raw c.
Proof.
  intros Hf Hck Hin Hv Hn. apply list_elem_of_lookup in Hin as [i Hi].
  destruct (Forall2_lookup_l _ _ _ _ _ Hf Hi) as (cs & Hcs & Hj). cbn in Hj. rewrite Hv in Hj.
  destruct Hj as (o & Ho & [[-> [->|?]]|(c & -> & -> & _)]); [done..|].
  exists c. split; [|by apply compile_raw_supported]. apply list_elem_of_In, in_concat. exists [c].
  split; [|by left]. apply list_elem_of_In. by apply list_elem_of_lookup_2 in Hcs.
Qed.

Lemma extract_supported s sid rep st st' r :
  llm_extract config checker s sid rep st = (st', Ok r) ->
  Forall (fun c => exists raw, supported (nfc s) sid rep raw c) (claims r).
Proof.
  intros He. destruct (complete_json (extraction_model_id config) EXTRACTION_SYSTEM ("SOURCE:" +:+ LF +:+ nfc s) (world st))
    as [w [resp|e]] eqn:Hresp.
  - destruct (llm_extract_judged _ _ _ _ _ _ _ _ Hresp He) as (_ & css & -> & Hj).
    apply list.Forall_forall. intros c Hc. destruct (judged_supported _ _ _ _ _ _ Hj Hc) as (raw & _ & _ & Hs & _). by exists raw.
  - unfold llm_extract in He. apply st_bind_ok in He as (s1 & x & Hw & _). unfold in_world in Hw.
    rewrite Hresp in Hw. discriminate Hw.
Qed.

Lemma extract_spans s sid rep st st' r :
  llm_extract config checker s sid rep st = (st', Ok r) ->
  Forall (fun c => exists span, grounded (chars (nfc s)) sid rep span c) (claims r).
Proof.
  intros He%extract_supported. eapply list.Forall_impl; [exact He|]. intros c (raw & [(i & j & q & Hg & _) _]).
  by exists (i, j).
Qed.
End ExtractionLemmas.

(** ** Properties *)
Section ExtractionProperties.
Context {U : Unicode} {D : Digest} {L : UnicodeCase} {Wd : UnicodeWord} {P : PyRepr}.
Context {W : Type} `{LLMClient W}.

(** C2: a model cannot introduce unsupported claims.  Whatever the client answers, a claim
    that extraction returns comes from a well-formed proposal of the answer whose evidence
    quote stands, character for character, in the normalized source at the span the claim
    names; it states the proposal's fields, passes Layer D and keeps a hedged span hedged,
    and a configured entailment checker judged it entailed; nothing is revoked.  Conversely,
    without a checker, a well-formed proposal whose quote stands at its offset, or occurs
    in the source exactly once as [count] counts, gives a claim. *)
Theorem llm_claims_supported config (checker : option (EntailmentChecker W)) s source_id rep
    (st st' : ExtractorState (W := W)) r w resp :
  fits (nfc s) ->
  complete_json (extraction_model_id config) EXTRACTION_SYSTEM ("SOURCE:" +:+ LF +:+ nfc s) (world st) = (w, Ok resp) ->
  llm_extract config checker s source_id rep st = (st', Ok r) ->
  revokes r = [] /\
  (forall c, c ∈ claims r ->
     (exists raw, VDict raw ∈ default [] (proposals resp) /\ _validate_claim raw = true /\
                  supported (nfc s) source_id rep raw c) /\
     entailed checker (nfc s) c /\ layer_d_ok c (nfc s) = Some true /\ modality_preserved c (nfc s) = Some true) /\
  (forall raw va vb a b q, checker = None -> VDict raw ∈ default [] (proposals resp) -> _validate_claim raw = true ->
     jget raw "offset" VNull = VList [va; vb] -> int_of va = Ok a -> int_of vb = Ok b ->
     jget raw "evidence_quote" VNull = VStr q ->
     (stands (chars (nfc s)) q (Z.to_nat a) (Z.to_nat b) /\ (0 <= a)%Z) \/
     (str_nonempty q = true /\ count_sub (chars q) (chars (nfc s)) = 1) ->
     exists c, c ∈ claims r /\ supported (nfc s) source_id rep raw c).
Proof.
  intros Hf Hresp He. destruct (llm_extract_judged _ _ _ _ _ _ _ _ _ _ Hresp He) as (Hr & css & -> & Hj).
  split; [done|]. split.
  - intros c Hc. destruct (judged_supported _ _ _ _ _ _ _ Hj Hc) as (raw & Hin & Hv & Hs & Hent).
    split; [by exists raw|]. split; [done|]. by apply (supported_layer_d _ _ _ _ _ Hf Hs).
  - intros raw va vb a b q Hck Hin Hv Ho Ha Hb Hq Hs. apply (judged_kept _ _ _ _ _ _ _ Hj Hck Hin Hv).
    by eapply compile_raw_kept.
Qed.

Lemma count_supported src cs n got :
  Forall (fun c => layer_d_ok c src = Some true /\ modality_preserved c src = Some true) cs ->
  exists n' got', count_claims src cs (n, got) = Some (n', got') /\ unsupported n' = unsupported n /\
    accepted_total n' = accepted_total n + length cs /\ hedge_ok n' = hedge_ok n + length cs.
Proof.
  revert n got; induction cs as [|c cs IH]; intros n got; [intros _; exists n, got; cbn; by rewrite !Nat.add_0_r|].
  intros [[Hd Hm] Hcs]%list.Forall_cons. cbn [count_claims]. unfold count_claim. rewrite Hd. cbn [option_bind mbind].
  rewrite Hm. cbn [option_bind mbind]. destruct (IH {| tp := tp n; fp := fp n; fn := fn n; abst := abst n;
    accepted_total := S (accepted_total n); hedge_ok := hedge_ok n + 1; unsupported := unsupported n;
    parsed_ok := parsed_ok n |} ({[_key c]} ∪ got) Hcs) as (n' & got' & -> & H1 & H2 & H3).
  exists n', got'. cbn in *. split; [done|]. split; [done|]. lia.
Qed.

(** The golden evaluation of the model extractor always counts, and counts no unsupported
    claim: on sources in NFC it never raises, no accepted claim fails Layer D, and every
    accepted claim preserves its span's modality, whatever the client and the checker do. *)
Theorem golden_never_unsupported config (checker : option (EntailmentChecker W)) examples (st : ExtractorState (W := W)) :
  Forall (fun ex => nfc (source ex) = source ex /\ fits (source ex)) examples ->
  exists n, (run_golden (fun src => llm_extract config checker src "golden" "rep") last_structured_output_ok
               examples no_counts st).2 = Some n /\
    unsupported n = 0 /\ hedge_ok n = accepted_total n.
Proof.
  intros Hex. assert (H0 : unsupported no_counts = 0 /\ hedge_ok no_counts = accepted_total no_counts) by done.
  revert H0. generalize no_counts. revert st.
  induction Hex as [|ex examples [Hn Hf] _ IH]; intros st n [H1 H2]; [by exists n|]. cbn [run_golden].
  destruct (llm_extract config checker (source ex) "golden" "rep" st) as [st1 r] eqn:He.
  assert (Hc : Forall (fun c => layer_d_ok c (source ex) = Some true /\ modality_preserved c (source ex) = Some true)
            (default [] match r with Ok x => Some (claims x) | Err _ => None end)).
  { destruct r as [r|e]; [|constructor]. apply extract_supported in He. rewrite Hn in He.
    eapply list.Forall_impl; [exact He|]. intros c [raw Hs]. by eapply supported_layer_d. }
  unfold count_example. match goal with |- context [count_claims ?src ?cs (?m, ?got)] =>
    destruct (count_supported src cs m got Hc) as (n' & got' & -> & Hu & Ha & Hh) end.
  cbn [option_bind mbind]. apply IH. cbn in *. lia.
Qed.
End ExtractionProperties.

(** ** Evaluations *)

Definition sample_proposal (quote : string) (first last : jval) : jval :=
  VDict [("subject", VStr "pump"); ("predicate", VStr "may be"); ("object", VInt 7); ("polarity", VStr "positive");
         ("evidence_quote", VStr quote); ("offset", VList [first; last])].

(** The source below; the first quote is at its offset, the second is found, the third is
    not in the source. *)
Definition sample_source : string := "the pump may be red; it is old".
Definition sample_client : MockLLMClient :=
  {| _responses := [("the pump", VDict [("claims", VList
        [sample_proposal "pump may" (VStr "4") (VInt 12); sample_proposal "is old" (VInt 0) (VInt 3);
         sample_proposal "is new" (VInt 0) (VInt 3); VNull])])];
     last_usage := []; _fail_times := 0; _fail_error := None; calls := 0 |}.
Definition sample_repr : PyRepr := {| repr_value := fun _ => "" |}.
Definition sample_config : LLMConfig := {| extraction_model_id := "m"; verification_model_id := ""; render_model_id := "" |}.
Definition sample_state : ExtractorState (W := MockLLMClient) :=
  {| world := sample_client; last_structured_output_ok := true; last_layer_p_decisions := [] |}.

Definition sample_llm (checker : option (EntailmentChecker MockLLMClient)) :=
  llm_extract (U := unicode_sample) (D := pad_digest) (L := case_sample) (Wd := word_sample) (P := sample_repr)
    sample_config checker sample_source "src" "rep" sample_state.

Example llm_extract_sample :
  match sample_llm None with
  | (st, Ok r) => (map (fun c => (obj (identity c), modality (assertion c), locators (evidence c))) (claims r),
                   last_structured_output_ok st)
  | _ => ([], true)
  end = ([("7", "possible", [text_span 4 12]); ("7", "asserted", [text_span 24 30])], false).
Proof. vm_compute. reflexivity. Qed.

(** "aa" stands twice in "aaa"; [count] sees it once. *)
Example overlapping_quote : locate (chars "aaa") 5 6 (VStr "aa") = Some (0, 2).
Proof. vm_compute. reflexivity. Qed.

Lemma sample_response :
  complete_json (extraction_model_id sample_config) EXTRACTION_SYSTEM
    ("SOURCE:" +:+ LF +:+ nfc (Unicode := unicode_sample) sample_source) (world sample_state) =
  (world (sample_llm None).1, Ok (mock_response (_responses sample_client) sample_source)).
Proof. vm_compute. reflexivity. Qed.

Lemma llm_claims_supported_witness :
  match sample_llm None with
  | (_, Ok r) => forall c, c ∈ claims r -> layer_d_ok (D := pad_digest) c sample_source = Some true
  | (_, Err _) => False
  end.
Proof.
  destruct (sample_llm None) as [st' [r|e]] eqn:E; [|vm_compute in E; discriminate E].
  destruct (llm_claims_supported (U := unicode_sample) (D := pad_digest) (L := case_sample) (Wd := word_sample)
    (P := sample_repr) sample_config None sample_source "src" "rep" sample_state st' r _ _
    ltac:(vm_compute; reflexivity) sample_response E) as (_ & H & _).
  intros c Hc. exact (proj1 (proj2 (proj2 (H c Hc)))).
Defined.

Lemma golden_never_unsupported_witness :
  exists n, (run_golden (D := pad_digest) (L := case_sample) (W := word_sample)
    (fun src => llm_extract (U := unicode_sample) (D := pad_digest) (L := case_sample) (Wd := word_sample) (P := sample_repr)
                  sample_config None src "golden" "rep") last_structured_output_ok
    [{| source := sample_source; expected_claims := {[("pump", "may be", "7", "positive")]} |}] no_counts sample_state).2
    = Some n /\ unsupported n = 0 /\ hedge_ok n = accepted_total n.
Proof.
  apply (golden_never_unsupported (U := unicode_sample) (D := pad_digest) (L := case_sample) (Wd := word_sample)
    (P := sample_repr)).
  constructor; [split; [vm_compute; reflexivity | vm_compute; reflexivity] | constructor].
Defined.
