(* ===== verification/Cas.v ===== *)
(** * The content-addressed store (cas.py)

    The directories [objects] and [tombstones] as maps from file names to contents; a
    writer's temporary file is gone when [put] returns.  Between the check that an object
    is absent and the create-only link other writers may act: [others] is what they do. *)
From S2P Require Import Prelude Digest.
Open Scope string_scope.

Inductive cas_error : Type := CasIntegrity (digest : string) | CasNotFound (digest : string).

Record ContentAddressedStore : Type := {
  objects : gmap string string;
  tombstones : gmap string string;
}.

Definition empty_cas : ContentAddressedStore := {| objects := ∅; tombstones := ∅ |}.

Section Cas.
Context {D : Digest}.

(** [os.link(tmp, path)]: create-only, losing the race is fine. *)
Definition link (digest data : string) (s : ContentAddressedStore) : ContentAddressedStore :=
  match objects s !! digest with
  | Some _ => s
  | None => {| objects := <[digest := data]> (objects s); tombstones := tombstones s |}
  end.

Definition put_racing (others : ContentAddressedStore -> ContentAddressedStore) (data : string)
    : st ContentAddressedStore cas_error string := fun s =>
  let digest := sha256_hex data in
  match objects s !! digest with
  | Some old => if String.eqb (sha256_hex old) digest then (s, Ok digest) else (s, Err (CasIntegrity digest))
  | None => (link digest data (others s), Ok digest)
  end.

Definition put : string -> st ContentAddressedStore cas_error string := put_racing id.

Definition exists_ (digest : string) (s : ContentAddressedStore) : bool := bool_decide (is_Some (objects s !! digest)).

Definition get (digest : string) (s : ContentAddressedStore) : result cas_error string :=
  match objects s !! digest with
  | None => Err (CasNotFound digest)
  | Some data => if String.eqb (sha256_hex data) digest then Ok data else Err (CasIntegrity digest)
  end.

Definition is_tombstoned (digest : string) (s : ContentAddressedStore) : bool :=
  bool_decide (is_Some (tombstones s !! digest)).

Definition tombstone (digest reason : string) (s : ContentAddressedStore) : ContentAddressedStore :=
  {| objects := objects s; tombstones := <[digest := reason]> (tombstones s) |}.

(** [scan]: the objects whose bytes no longer match their name. *)
Definition scan (s : ContentAddressedStore) : list string :=
  (List.filter (fun o => negb (String.eqb (sha256_hex o.2) o.1)) (map_to_list (objects s))).*1.

(** ** Lemmas *)

Definition intact (s : ContentAddressedStore) : Prop :=
  map_Forall (fun digest data => sha256_hex data = digest) (objects s).

(** What other writers, and later operations, do to a store: objects are only added. *)
Definition grows (s s' : ContentAddressedStore) : Prop := objects s ⊆ objects s'.

#[export] Instance grows_preorder : PreOrder grows.
Proof. split; [intros s; unfold grows; done | intros s s' s''; unfold grows; by etrans]. Qed.

Lemma scan_intact s : scan s = [] <-> intact s.
Proof.
  unfold scan, intact, map_Forall. split.
  - intros Hs k v Hk%elem_of_map_to_list. destruct (String.eqb_spec (sha256_hex v) k) as [|Hn]; [done|].
    exfalso. assert (Hin : (k, v) ∈ List.filter (fun o => negb (String.eqb (sha256_hex o.2) o.1)) (map_to_list (objects s))).
    { apply list_elem_of_In, filter_In. split; [by apply list_elem_of_In|]. cbn. by apply negb_true_iff, String.eqb_neq. }
    apply fmap_nil_inv in Hs. rewrite Hs in Hin. by apply elem_of_nil in Hin.
  - intros Hi. destruct (List.filter _ _) as [|[k v] l] eqn:E; [done|].
    assert (Hin : (k, v) ∈ (k, v) :: l) by left. rewrite <- E in Hin.
    apply list_elem_of_In, filter_In in Hin as [Hin Hn]. apply list_elem_of_In, elem_of_map_to_list in Hin.
    cbn in Hn. rewrite (Hi _ _ Hin), String.eqb_refl in Hn. done.
Qed.

Lemma link_grows digest data s : grows s (link digest data s).
Proof. unfold link, grows. destruct (objects s !! digest) eqn:E; [done|]. by apply insert_subseteq. Qed.

Lemma put_grows others data s :
  grows s (others s) -> grows s (put_racing others data s).1.
Proof.
  intros Ho. unfold put_racing. destruct (objects s !! sha256_hex data) as [old|] eqn:E.
  - by destruct (String.eqb _ _).
  - cbn. etrans; [exact Ho|]. apply link_grows.
Qed.

Lemma put_intact others data s :
  intact s -> (intact s -> intact (others s)) -> intact (put_racing others data s).1.
Proof.
  intros Hi Ho. unfold put_racing. destruct (objects s !! sha256_hex data) as [old|] eqn:E.
  - by destruct (String.eqb _ _).
  - cbn. unfold link. destruct (objects (others s) !! _); [by apply Ho|]. apply map_Forall_insert_2; [done|by apply Ho].
Qed.

Lemma put_returns others data s : intact s -> (put_racing others data s).2 = Ok (sha256_hex data).
Proof.
  intros Hi. unfold put_racing. destruct (objects s !! sha256_hex data) as [old|] eqn:E; [|done].
  by rewrite (Hi _ _ E), String.eqb_refl.
Qed.

Lemma put_stored others data s :
  exists v, objects (put_racing others data s).1 !! sha256_hex data = Some v.
Proof.
  unfold put_racing. destruct (objects s !! sha256_hex data) as [old|] eqn:E.
  - exists old. by destruct (String.eqb _ _).
  - cbn. unfold link. destruct (objects (others s) !! sha256_hex data) as [v|] eqn:Ev; [by exists v|].
    exists data. cbn. by rewrite lookup_insert_eq.
Qed.

Lemma get_intact digest s : intact s ->
  get digest s = match objects s !! digest with Some v => Ok v | None => Err (CasNotFound digest) end.
Proof. intros Hi. unfold get. destruct (objects s !! digest) eqn:E; [|done]. by rewrite (Hi _ _ E), String.eqb_refl. Qed.

(** ** The store as a set of byte strings *)

(** [represents s A]: the store holds exactly the byte strings of [A], each under its hash. *)
Definition represents (s : ContentAddressedStore) (A : gset string) : Prop :=
  intact s /\ forall data, data ∈ A <-> exists digest, objects s !! digest = Some data.

Lemma empty_represents : represents empty_cas ∅.
Proof.
  split; [apply map_Forall_empty|]. intros x. split; [intros []%elem_of_empty|]. intros [d Hd].
  cbn in Hd. by rewrite lookup_empty in Hd.
Qed.

(** C31: the store implements a growing set of byte strings.  [put] cannot fail on an intact
    store and returns the hash; the bytes are in the set afterwards, whatever other writers add
    between its check and its link, and what they added stays, unless other bytes with that
    hash are there: a collision; no object is lost; [get] returns the bytes of the set with that hash and
    [exists] says whether there are any; a tombstone changes no object; and the integrity
    scan finds nothing. *)
Theorem cas_implements_set s A :
  represents s A ->
  scan s = [] /\
  (forall digest, get digest s = Err (CasNotFound digest) <-> forall data, data ∈ A -> sha256_hex data <> digest) /\
  (forall digest data, get digest s = Ok data <-> data ∈ A /\ sha256_hex data = digest) /\
  (forall digest, exists_ digest s = true <-> exists data, data ∈ A /\ sha256_hex data = digest) /\
  (forall digest reason, represents (tombstone digest reason s) A /\ is_tombstoned digest (tombstone digest reason s) = true) /\
  (forall others data B,
     represents (others s) B -> A ⊆ B ->
     exists s', put_racing others data s = (s', Ok (sha256_hex data)) /\ grows s s' /\
       let final := if exists_ (sha256_hex data) s then A else {[data]} ∪ B in
       (represents s' final /\ data ∈ final \/ exists other, other ∈ B /\ collision [data; other])).
Proof.
  intros [Hi HA]. split; [by apply scan_intact|].
  assert (Hget : forall digest data, objects s !! digest = Some data <-> data ∈ A /\ sha256_hex data = digest).
  { intros digest data. split.
    - intros Hd. split; [apply HA; by exists digest | by apply (Hi _ _ Hd)].
    - intros [(d' & Hd')%HA <-]. by rewrite (Hi _ _ Hd'). }
  split.
  { intros digest. rewrite get_intact by done. destruct (objects s !! digest) as [v|] eqn:E.
    - split; [done|]. intros H. apply Hget in E as [Hv Hd]. by destruct (H v Hv).
    - split; [|done]. intros _ data Hd Hs. assert (Hx : objects s !! digest = Some data) by by apply Hget. congruence. }
  split.
  { intros digest data. rewrite get_intact by done. rewrite <- Hget. destruct (objects s !! digest); naive_solver. }
  split.
  { intros digest. unfold exists_. rewrite bool_decide_eq_true. setoid_rewrite <- Hget. done. }
  split.
  { intros digest reason. split; [done|]. unfold is_tombstoned. apply bool_decide_eq_true. eexists.
    apply lookup_insert_eq. }
  intros others data B HB Hsub. destruct HB as [HiB HB].
  exists (put_racing others data s).1. split; [|split].
  - rewrite <- (put_returns others data s Hi). by destruct (put_racing others data s).
  - apply put_grows. intros k. unfold grows. destruct (objects s !! k) as [v|] eqn:E; cbn; [|by destruct (objects (others s) !! k)].
    assert (Hv : v ∈ B) by (apply Hsub, HA; by exists k). apply HB in Hv as [k' Hk'].
    assert (k' = k) as -> by (rewrite <- (HiB _ _ Hk'); exact (Hi _ _ E)). by rewrite Hk'.
  - unfold put_racing, exists_. destruct (objects s !! sha256_hex data) as [old|] eqn:E.
    + rewrite bool_decide_eq_true_2 by by eexists. apply Hget in E as [Ho Hs]. rewrite Hs, String.eqb_refl. cbn.
      destruct (sha256_hex_inj_or _ _ (eq_sym Hs)) as [->|Hc]; [by left|]. right. exists old. split; [by apply Hsub|done].
    + rewrite bool_decide_eq_false_2 by (by intros [? [=]]). cbn. unfold link.
      destruct (objects (others s) !! sha256_hex data) as [other|] eqn:Eo.
      * assert (HoB : other ∈ B) by (apply HB; by exists (sha256_hex data)).
        destruct (sha256_hex_inj_or _ _ (eq_sym (HiB _ _ Eo))) as [->|Hc]; [left|right; by exists other].
        split; [|set_solver]. split; [done|]. intros x. rewrite <- HB. set_solver.
      * left. split; [|set_solver]. split; [by apply map_Forall_insert_2|].
        intros x. rewrite elem_of_union, elem_of_singleton, HB. split.
        -- intros [->|[k Hk]]; [exists (sha256_hex data); apply lookup_insert_eq|]. exists k.
           cbn; rewrite lookup_insert_ne; [done|]. cbn in *. congruence.
        -- cbn. intros [k Hk]. apply lookup_insert_Some in Hk as [[_ <-]|[_ Hk]]; [by left|right; by exists k].
Qed.
End Cas.

Lemma cas_implements_set_witness :
  represents (D := pad_digest) (put (D := pad_digest) "a" empty_cas).1 {["a"]} \/
  exists other, other ∈ (∅ : gset string) /\ collision (D := pad_digest) ["a"; other].
Proof.
  destruct (cas_implements_set (D := pad_digest) empty_cas ∅ (empty_represents (D := pad_digest))) as (_ & _ & _ & _ & _ & H).
  destruct (H id "a" ∅ (empty_represents (D := pad_digest)) ltac:(done)) as (s' & Hp & _ & Hr).
  unfold put. rewrite Hp. cbn. destruct Hr as [[Hr _]|Hr]; [left | by right].
  change (exists_ (sha256_hex (D := pad_digest) "a") empty_cas) with false in Hr. by rewrite union_empty_r_L in Hr.
Defined.
