(* ===== verification/Ingest.v ===== *)
(** * The ingest service (ingest.py)

    [receive] stores a file's bytes and its representation in the content-addressed store,
    [compile] reads them back and runs the extractor.  The extractor is the interface
    [Extractor]; the mock extractor and the model extractor implement it. *)
From stdpp Require Import relations.
From S2P Require Import Prelude Digest Json Canonical Hashing Text Models Llm Claims Verify Extraction Cas.
Open Scope string_scope.

(** ** UTF-8 *)

Definition byte_in (lo hi : N) (c : ascii) : bool := ((lo <=? N_of_ascii c) && (N_of_ascii c <=? hi))%N.
Definition continuation : ascii -> bool := byte_in 128 191.

(** [bytes.decode("utf-8", errors="strict")] succeeds; the text is then the same bytes. *)
Fixpoint utf8_valid (s : string) : bool :=
  match s with
  | EmptyString => true
  | String a s1 =>
      if byte_in 0 127 a then utf8_valid s1
      else match s1 with
      | String b s2 =>
          if byte_in 194 223 a then continuation b && utf8_valid s2
          else match s2 with
          | String c s3 =>
              if byte_in 224 239 a
              then (if byte_in 224 224 a then byte_in 160 191 b
                    else if byte_in 237 237 a then byte_in 128 159 b else continuation b)
                   && continuation c && utf8_valid s3
              else match s3 with
              | String d s4 =>
                  byte_in 240 244 a
                  && (if byte_in 240 240 a then byte_in 144 191 b
                      else if byte_in 244 244 a then byte_in 128 143 b else continuation b)
                  && continuation c && continuation d && utf8_valid s4
              | EmptyString => false
              end
          | EmptyString => false
          end
      | EmptyString => false
      end
  end.

(** ** The extractor's contract *)

Class Extractor (X : Type) : Type :=
  extract : string -> string -> string -> st X extract_error ExtractResult.
#[export] Hint Mode Extractor ! : typeclass_instances.

(** On a text in NFC, every claim is grounded in the text. *)
Class ExtractorLaws (X : Type) {U : Unicode} {D : Digest} `{Extractor X} : Prop :=
  extract_grounded : forall s source_id representation_hash (x x' : X) r,
    nfc s = s -> extract s source_id representation_hash x = (x', Ok r) ->
    Forall (fun c => exists span, grounded (chars s) source_id representation_hash span c) (claims r).

#[export] Instance mock_extractor {U : Unicode} {D : Digest} : Extractor unit :=
  fun s source_id representation_hash x => (x, mock_extract s source_id representation_hash).

#[export] Instance mock_extractor_laws {U : Unicode} {D : Digest} : ExtractorLaws unit.
Proof.
  intros s sid rep x x' r _ [= <- Hr].
  destruct (lines_grounded (chars s) sid rep (splitlines (chars s)) [] r) as (spans & Hg & _);
    [by rewrite splitlines_concat | exact Hr|].
  clear Hr. induction Hg; constructor; eauto.
Qed.

(** The model extractor with its client, configuration and checker. *)
Definition model_extractor {U : Unicode} {D : Digest} {L : UnicodeCase} {Wd : UnicodeWord} {P : PyRepr} {W} `{LLMClient W}
    (config : LLMConfig) (checker : option (EntailmentChecker W)) : Extractor (ExtractorState (W := W)) :=
  llm_extract config checker.

Lemma model_extractor_laws {U : Unicode} {D : Digest} {L : UnicodeCase} {Wd : UnicodeWord} {P : PyRepr} {W} `{LLMClient W}
    config (checker : option (EntailmentChecker W)) :
  ExtractorLaws (ExtractorState (W := W)) (H := model_extractor config checker).
Proof.
  intros s sid rep x x' r Hn He. apply extract_spans in He. by rewrite Hn in He.
Qed.

(** ** The service *)

Inductive ingest_error : Type :=
| IngestCas (e : cas_error) | IngestUnicodeDecodeError | IngestKeyError (source_id : string)
| IngestRuntimeError (status : string) | IngestState (e : StateError) | IngestExtract (e : extract_error).

Record ReceiveResult : Type := {
  rr_source_id : string; rr_content_hash : string; rr_representation_hash : string;
  rr_status : string; rr_idempotent : bool;
}.

Record CompileResult : Type := {
  cr_source_id : string; cr_claims : list CompiledClaim; cr_revokes : list string; cr_status : string;
}.

Section Ingest.
Context {U : Unicode} {D : Digest} {X : Type} `{Extractor X}.

(** [IngestService]: its store, the manifests and representations it remembers, its extractor. *)
Record IngestService : Type := {
  cas : ContentAddressedStore;
  _manifests : gmap string SourceManifest;
  _representations : gmap string string;
  extractor : X;
}.

(** The representation's bytes and their hash. *)
Definition rep_bytes (text : string) : string := str_concat (newlines (chars (nfc text))).
Definition _representation (text : string) : string * string := (sha256_hex (rep_bytes text), rep_bytes text).

Definition set_cas (c : ContentAddressedStore) (s : IngestService) : IngestService :=
  {| cas := c; _manifests := _manifests s; _representations := _representations s; extractor := extractor s |}.
Definition set_manifest (sid : string) (m : SourceManifest) (s : IngestService) : IngestService :=
  {| cas := cas s; _manifests := <[sid := m]> (_manifests s); _representations := _representations s; extractor := extractor s |}.
Definition set_representation (sid rep : string) (s : IngestService) : IngestService :=
  {| cas := cas s; _manifests := _manifests s; _representations := <[sid := rep]> (_representations s); extractor := extractor s |}.

Definition on_cas {A} (m : st ContentAddressedStore cas_error A) : st IngestService ingest_error A := fun s =>
  let '(c, r) := m (cas s) in (set_cas c s, map_err IngestCas r).

Definition on_extractor {A} (m : st X extract_error A) : st IngestService ingest_error A := fun s =>
  let '(x, r) := m (extractor s) in
  ({| cas := cas s; _manifests := _manifests s; _representations := _representations s; extractor := x |},
   map_err IngestExtract r).

(** [self._manifests.get(source_id)], or a new manifest, staged and remembered. *)
Definition staged_manifest (sid chash : string) : st IngestService ingest_error SourceManifest :=
  known ← st_gets (fun s => _manifests s !! sid);
  match known with
  | Some m => mret m
  | None =>
      m ← st_lift (map_err IngestState (transition (new_manifest sid chash) "staged"));
      _ ← st_modify (set_manifest sid m);
      mret m
  end.

(** [receive] on the file's bytes. *)
Definition receive (raw : string) : st IngestService ingest_error ReceiveResult :=
  already ← st_gets (fun s => exists_ (sha256_hex raw) (cas s));
  content ← on_cas (put raw);
  _ ← st_lift (ensure (utf8_valid raw) IngestUnicodeDecodeError);
  let '(rep_hash, bytes) := _representation raw in
  _ ← on_cas (put bytes);
  _ ← st_modify (set_representation content rep_hash);
  m ← staged_manifest content content;
  mret {| rr_source_id := content; rr_content_hash := content; rr_representation_hash := rep_hash;
          rr_status := status m; rr_idempotent := already |}.

Definition compile (sid : string) : st IngestService ingest_error CompileResult :=
  present ← st_gets (fun s => exists_ sid (cas s));
  _ ← st_lift (ensure present (IngestKeyError sid));
  m ← staged_manifest sid sid;
  _ ← st_lift (ensure (str_mem (status m) ["staged"; "validated"]) (IngestRuntimeError (status m)));
  c ← st_gets cas;
  raw ← st_lift (map_err IngestCas (get sid c));
  _ ← st_lift (ensure (utf8_valid raw) IngestUnicodeDecodeError);
  let '(rep_hash, bytes) := _representation raw in
  _ ← st_lift (ensure (utf8_valid bytes) IngestUnicodeDecodeError);
  r ← on_extractor (extract (X := X) bytes sid rep_hash);
  m ← (if String.eqb (status m) "staged"
       then m ← st_lift (map_err IngestState (transition m "validated"));
            _ ← st_modify (set_manifest sid m); mret m
       else mret m);
  mret {| cr_source_id := sid; cr_claims := claims r; cr_revokes := revokes r; cr_status := status m |}.
End Ingest.
Arguments IngestService X : clear implicits.

(** ** Lemmas *)
Section IngestLemmas.
Context {U : Unicode} {D : Digest} {X : Type} `{!Extractor X}.
Implicit Types s : IngestService X.

(** The remembered manifests: each for its own source, staged or validated. *)
Definition manifests_ok s : Prop :=
  map_Forall (fun sid m => source_id m = sid /\ content_hash m = sid /\ (status m = "staged" \/ status m = "validated"))
    (_manifests s).

(** What the service keeps: an intact store and legal manifests. *)
Definition service_ok s : Prop := intact (cas s) /\ manifests_ok s.

(** A later state: the store grew, and no manifest went back. *)
Definition later s s' : Prop :=
  grows (cas s) (cas s') /\
  (forall sid m, _manifests s !! sid = Some m -> exists m', _manifests s' !! sid = Some m' /\
     (m' = m \/ transition m "validated" = Ok m')).

Lemma staged_ok sid : transition (new_manifest sid sid) "staged" = Ok (set_status (new_manifest sid sid) "staged").
Proof. reflexivity. Qed.

(** [staged_manifest] on legal manifests: the known manifest, or a new staged one. *)
Lemma staged_manifest_spec sid s :
  manifests_ok s ->
  exists m, source_id m = sid /\ content_hash m = sid /\ (status m = "staged" \/ status m = "validated") /\
    ((_manifests s !! sid = Some m /\ staged_manifest sid sid s = (s, Ok m)) \/
     (_manifests s !! sid = None /\ status m = "staged" /\
      staged_manifest sid sid s = (set_manifest sid m s, Ok m))).
Proof.
  intros Hm. destruct (_manifests s !! sid) as [m|] eqn:E.
  - exists m. destruct (Hm _ _ E) as (? & ? & ?). split; [done|]. split; [done|]. split; [done|]. left. split; [done|].
    unfold staged_manifest, mbind, st_bind, st_gets. by rewrite E.
  - exists (set_status (new_manifest sid sid) "staged"). split; [done|]. split; [done|]. split; [by left|]. right.
    split; [done|]. split; [done|]. unfold staged_manifest, mbind, st_bind, st_gets. by rewrite E.
Qed.

Lemma put_twice data c c' digest : put data c = (c', Ok digest) -> put data c' = (c', Ok digest) /\ digest = sha256_hex data.
Proof.
  unfold put, put_racing, id. destruct (objects c !! sha256_hex data) as [old|] eqn:E.
  - destruct (String.eqb_spec (sha256_hex old) (sha256_hex data)) as [Ho|]; [|done]. intros [= <- <-].
    rewrite E, Ho, String.eqb_refl. done.
  - intros [= <- <-]. unfold link. rewrite E. cbn [objects]. rewrite lookup_insert_eq, String.eqb_refl. done.
Qed.

(** What [receive] does to a service that is in order. *)
Lemma receive_spec raw s :
  service_ok s ->
  let s1 := set_cas (put raw (cas s)).1 s in
  let s2 := set_representation (sha256_hex raw) (sha256_hex (rep_bytes raw))
              (set_cas (put (rep_bytes raw) (cas s1)).1 s1) in
  (utf8_valid raw = false -> receive raw s = (s1, Err IngestUnicodeDecodeError)) /\
  (utf8_valid raw = true -> exists m s3,
     staged_manifest (sha256_hex raw) (sha256_hex raw) s2 = (s3, Ok m) /\
     receive raw s = (s3, Ok {| rr_source_id := sha256_hex raw; rr_content_hash := sha256_hex raw;
                                rr_representation_hash := sha256_hex (rep_bytes raw); rr_status := status m;
                                rr_idempotent := exists_ (sha256_hex raw) (cas s) |})).
Proof.
  intros [Hi Hm] s1 s2. pose proof (put_returns id raw (cas s) Hi) as Hp. fold put in Hp.
  assert (Hi1 : intact (cas s1)) by (by apply put_intact).
  pose proof (put_returns id (rep_bytes raw) (cas s1) Hi1) as Hp2. fold put in Hp2.
  unfold receive, mbind, st_bind, st_gets, on_cas, st_lift, st_modify. cbn beta iota.
  unfold s2, s1 in *. destruct (put raw (cas s)) as [c1 r1]. cbn [fst snd] in *. subst r1. cbn [map_err].
  split; intros ->; cbn [ensure]; [done|]. cbn [_representation].
  destruct (put (rep_bytes raw) (cas (set_cas c1 s))) as [c2 r2]. cbn [fst snd] in *. subst r2. cbn [map_err].
  destruct (staged_manifest_spec (sha256_hex raw)
    (set_representation (sha256_hex raw) (sha256_hex (rep_bytes raw)) (set_cas c2 (set_cas c1 s))) Hm)
    as (m & _ & _ & _ & [[_ ->]|(_ & _ & ->)]); by eexists _, _.
Qed.

#[export] Instance later_preorder : PreOrder later.
Proof.
  split.
  - intros s. split; [done|]. intros sid m Hm. exists m. auto.
  - intros s s' s'' [H1 H2] [H3 H4]. split; [by etrans|]. intros sid m Hm.
    destruct (H2 _ _ Hm) as (m' & Hm' & Ht). destruct (H4 _ _ Hm') as (m'' & Hm'' & Ht').
    exists m''. split; [done|]. destruct Ht as [->|Ht]; [done|]. destruct Ht' as [->|Ht']; [by right|].
    apply transition_ok in Ht as [_ ->]. apply transition_ok in Ht' as [Hbad _]. discriminate Hbad.
Qed.

Lemma staged_later sid s :
  manifests_ok s -> manifests_ok (staged_manifest sid sid s).1 /\ later s (staged_manifest sid sid s).1 /\
  cas (staged_manifest sid sid s).1 = cas s.
Proof.
  intros Hm. destruct (staged_manifest_spec sid s Hm) as (m & Hid & Hch & Hst & [[Hl ->]|(Hn & Hst' & ->)]); cbn [fst].
  - split; [done|]. by split.
  - split; [by apply map_Forall_insert_2|]. split; [|done]. split; [done|]. intros sid' m' Hm'. exists m'. split; [|by left].
    cbn. rewrite lookup_insert_ne; [done|]. congruence.
Qed.

Lemma receive_keeps raw s : service_ok s -> service_ok (receive raw s).1 /\ later s (receive raw s).1.
Proof.
  intros Hs. pose proof (receive_spec raw s Hs) as [Hbad Hgood]. destruct Hs as [Hi Hm]. cbn zeta in *.
  set (s1 := set_cas (put raw (cas s)).1 s) in *.
  assert (Hi1 : intact (cas s1)) by by apply put_intact. assert (Hg1 : grows (cas s) (cas s1)) by by apply put_grows.
  destruct (utf8_valid raw).
  2: { rewrite Hbad by done. cbn [fst]. split; [by split|]. split; [done|]. intros sid m Hl. exists m. auto. }
  destruct (Hgood eq_refl) as (m & s3 & Hst & ->). clear Hbad Hgood. cbn [fst].
  set (s2 := set_representation _ _ _) in *.
  assert (Hi2 : intact (cas s2)) by (by apply put_intact). assert (Hg2 : grows (cas s1) (cas s2)) by by apply put_grows.
  destruct (staged_later (sha256_hex raw) s2 Hm) as (Hm3 & [Hg3 Hl3] & Hc3). rewrite Hst in *. cbn [fst] in *.
  split; [split; [by rewrite Hc3 | done]|]. split; [|exact Hl3]. rewrite Hc3. by etrans.
Qed.

(** What [compile] does to a service that is in order. *)
Lemma compile_spec sid s :
  service_ok s ->
  (objects (cas s) !! sid = None -> compile sid s = (s, Err (IngestKeyError sid))) /\
  (forall raw, objects (cas s) !! sid = Some raw ->
     exists m s1, staged_manifest sid sid s = (s1, Ok m) /\
       (utf8_valid raw && utf8_valid (rep_bytes raw) = false -> compile sid s = (s1, Err IngestUnicodeDecodeError)) /\
       (utf8_valid raw && utf8_valid (rep_bytes raw) = true -> forall s2 r,
          on_extractor (extract (X := X) (rep_bytes raw) sid (sha256_hex (rep_bytes raw))) s1 = (s2, r) ->
          (forall e, r = Err e -> compile sid s = (s2, Err e)) /\
          (forall x, r = Ok x -> compile sid s =
             (if String.eqb (status m) "staged" then set_manifest sid (set_status m "validated") s2 else s2,
              Ok {| cr_source_id := sid; cr_claims := claims x; cr_revokes := revokes x; cr_status := "validated" |})))).
Proof.
  intros [Hi Hm]. unfold compile, mbind, st_bind, st_gets, st_lift, st_modify, exists_. cbn beta iota. split.
  - intros Hn. by rewrite bool_decide_eq_false_2 by (rewrite Hn; intros [? [=]]).
  - intros raw Hraw. rewrite bool_decide_eq_true_2 by by eexists. cbn [ensure].
    destruct (staged_manifest_spec sid s Hm) as (m & Hid & Hch & Hst & Hcase).
    assert (exists s1, staged_manifest sid sid s = (s1, Ok m) /\ cas s1 = cas s) as (s1 & Hs1 & Hc).
    { destruct Hcase as [[_ H1]|(_ & _ & H1)]; rewrite H1; by eexists. }
    exists m, s1. split; [done|]. rewrite Hs1.
    assert (str_mem (status m) ["staged"; "validated"] = true) as -> by (destruct Hst as [-> | ->]; done).
    cbn [ensure]. rewrite Hc, get_intact, Hraw by done. cbn [map_err]. destruct (utf8_valid raw); cbn [andb ensure]; [|done].
    cbn [_representation]. destruct (utf8_valid (rep_bytes raw)); cbn [ensure]; [|done]. split; [done|]. intros _ s2 r ->.
    split; [by intros e ->|]. intros x ->. destruct Hst as [Hst|Hst]; rewrite Hst; [|cbn; by rewrite ?Hst].
    unfold transition. rewrite Hst. reflexivity.
Qed.

Lemma on_extractor_same {A} (m : st X extract_error A) s s' r :
  on_extractor m s = (s', r) -> cas s' = cas s /\ _manifests s' = _manifests s.
Proof. unfold on_extractor. destruct (m (extractor s)). by intros [= <- <-]. Qed.

Lemma compile_keeps sid s : service_ok s -> service_ok (compile sid s).1 /\ later s (compile sid s).1 /\ cas (compile sid s).1 = cas s.
Proof.
  intros Hs. pose proof (compile_spec sid s Hs) as [Hnone Hsome]. destruct Hs as [Hi Hm].
  destruct (objects (cas s) !! sid) as [raw|]; [|by rewrite Hnone by done].
  destruct (Hsome raw eq_refl) as (m & s1 & Hst & Hbad & Hgood).
  pose proof (staged_later sid s Hm) as (Hm1 & Hl1 & Hc1). rewrite Hst in *. cbn [fst] in *.
  destruct (utf8_valid raw && utf8_valid (rep_bytes raw)).
  2: { rewrite Hbad by done. cbn [fst]. split; [|done]. split; [by rewrite Hc1|done]. }
  destruct (on_extractor (extract (X := X) (rep_bytes raw) sid (sha256_hex (rep_bytes raw))) s1) as [s2 r] eqn:Eo.
  destruct (Hgood eq_refl s2 r eq_refl) as [Herr Hok]. apply on_extractor_same in Eo as [Hc2 Hm2].
  assert (Hs2 : service_ok s2 /\ later s s2 /\ cas s2 = cas s).
  { split; [split; [by rewrite Hc2, Hc1 | unfold manifests_ok; by rewrite Hm2]|]. split; [|congruence].
    etrans; [exact Hl1|]. split; [by rewrite Hc2|]. rewrite Hm2. intros ? m' ?. exists m'. auto. }
  destruct r as [x|e]; [|by rewrite (Herr e eq_refl)]. rewrite (Hok x eq_refl). cbn [fst].
  destruct (String.eqb_spec (status m) "staged") as [Hstaged|]; [|done].
  destruct Hs2 as ([Hi2 Hm2'] & Hl2 & Hc). assert (Hknown : _manifests s2 !! sid = Some m /\ source_id m = sid /\ content_hash m = sid).
  { destruct (staged_manifest_spec sid s Hm) as (m' & ? & ? & _ & [[Hk He]|(Hk & _ & He)]); rewrite He in Hst;
      injection Hst as <- <-; rewrite Hm2; [done|]. cbn. by rewrite lookup_insert_eq. }
  destruct Hknown as (Hk & Hid & Hch). split; [split; [done|]|].
  - apply map_Forall_insert_2; [by auto|done].
  - split; [|done]. etrans; [exact Hl2|]. split; [done|]. intros sid' m' Hm'. cbn.
    destruct (decide (sid' = sid)) as [->|Hne]; [|exists m'; rewrite lookup_insert_ne by done; auto].
    rewrite lookup_insert_eq. eexists. split; [done|]. right. assert (m' = m) as -> by congruence.
    apply transition_ok. by rewrite Hstaged.
Qed.

(** A compilation that returns read the source and returns what the extractor gave. *)
Lemma compile_extracts sid s s' r :
  service_ok s -> compile sid s = (s', Ok r) ->
  exists raw x x' y, get sid (cas s) = Ok raw /\ cas s' = cas s /\ cr_source_id r = sid /\ cr_status r = "validated" /\
    extract (X := X) (rep_bytes raw) sid (sha256_hex (rep_bytes raw)) x = (x', Ok y) /\
    cr_claims r = claims y /\ cr_revokes r = revokes y.
Proof.
  intros Hs Hc. pose proof (compile_spec sid s Hs) as [Hnone Hsome].
  destruct (compile_keeps sid s Hs) as (_ & _ & Hcas). rewrite Hc in Hcas. cbn [fst] in Hcas.
  destruct (objects (cas s) !! sid) as [raw|] eqn:Hraw; [|rewrite Hnone in Hc by done; discriminate Hc].
  destruct (Hsome raw eq_refl) as (m & s1 & _ & Hbad & Hgood).
  destruct (utf8_valid raw && utf8_valid (rep_bytes raw)); [|rewrite Hbad in Hc by done; discriminate Hc].
  destruct (on_extractor (extract (X := X) (rep_bytes raw) sid (sha256_hex (rep_bytes raw))) s1) as [s2 o] eqn:Eo.
  destruct (Hgood eq_refl s2 o eq_refl) as [Herr Hok].
  destruct o as [x|e]; [|rewrite (Herr e eq_refl) in Hc; discriminate Hc].
  rewrite (Hok x eq_refl) in Hc. injection Hc as _ <-.
  unfold on_extractor in Eo. destruct (extract _ _ _ (extractor s1)) as [x' [x2|e]] eqn:Ex; [|discriminate Eo].
  injection Eo as _ <-. exists raw, (extractor s1), x', x2. rewrite get_intact, Hraw by apply Hs. done.
Qed.

(** One call to the service. *)
Inductive ingest_step : IngestService X -> IngestService X -> Prop :=
| step_receive raw s : ingest_step s (receive raw s).1
| step_compile sid s : ingest_step s (compile sid s).1.

Lemma ingest_steps_keep s s' : rtc ingest_step s s' -> service_ok s -> service_ok s' /\ later s s'.
Proof.
  induction 1 as [s|s s1 s2 Hstep _ IH]; [by auto|]. intros Hs.
  assert (service_ok s1 /\ later s s1) as [Hs1 Hl1].
  { destruct Hstep; [by apply receive_keeps|]. split; by apply compile_keeps. }
  destruct (IH Hs1). split; [done|]. by etrans.
Qed.
End IngestLemmas.

(** ** Properties *)
Section IngestProperties.
Context {U : Unicode} {NL : NfcLaws} {D : Digest} {X : Type} `{!Extractor X} {EL : ExtractorLaws X}.
Implicit Types s : IngestService X.

Lemma stored_bytes s digest data :
  intact (cas s) -> is_Some (objects (cas s) !! digest) -> digest = sha256_hex data ->
  get digest (cas s) = Ok data \/ exists k other, objects (cas s) !! k = Some other /\ collision [data; other].
Proof.
  intros Hi [v Hv] ->. rewrite get_intact, Hv by done. pose proof (Hi _ _ Hv) as Hd. cbn in Hd.
  destruct (sha256_hex_inj_or _ _ (eq_sym Hd)) as [<-|Hc]; [by left|]. right. by exists (sha256_hex data), v.
Qed.

Lemma received_stored raw s s1 rr :
  service_ok s -> receive raw s = (s1, Ok rr) ->
  utf8_valid raw = true /\ rr_source_id rr = sha256_hex raw /\ rr_representation_hash rr = sha256_hex (rep_bytes raw) /\
  is_Some (objects (cas s1) !! sha256_hex raw) /\ is_Some (objects (cas s1) !! sha256_hex (rep_bytes raw)).
Proof.
  intros Hs Hr. pose proof (receive_spec raw s Hs) as [Hbad Hgood]. destruct Hs as [Hi Hm]. cbn zeta in *.
  destruct (utf8_valid raw); [|rewrite Hbad in Hr by done; discriminate Hr].
  destruct (Hgood eq_refl) as (m & s3 & Hst & Hr'). rewrite Hr' in Hr. injection Hr as <- <-.
  set (s1 := set_cas (put raw (cas s)).1 s) in *. set (s2 := set_representation _ _ _) in *.
  destruct (staged_later (sha256_hex raw) s2 Hm) as (_ & _ & Hc). rewrite Hst in Hc. cbn [fst] in Hc.
  split; [done|]. split; [done|]. split; [done|]. rewrite Hc. split.
  - destruct (put_stored id raw (cas s)) as [v Hv]. exists v.
    assert (Hg : grows (cas s1) (cas s2)) by by apply put_grows. by eapply lookup_weaken.
  - destruct (put_stored id (rep_bytes raw) (cas s1)) as [v Hv]. by exists v.
Qed.

Lemma compile_claims sid s s' r :
  service_ok s -> compile sid s = (s', Ok r) ->
  exists raw, get sid (cas s) = Ok raw /\ cas s' = cas s /\ cr_source_id r = sid /\ cr_status r = "validated" /\
    Forall (fun c => exists span, grounded (chars (rep_bytes raw)) sid (sha256_hex (rep_bytes raw)) span c) (cr_claims r).
Proof using EL NL.
  intros Hs Hc. destruct (compile_extracts _ _ _ _ Hs Hc) as (raw & x & x' & y & Hg & Hcas & Hid & Hst & Ex & -> & _).
  exists raw. do 4 (split; [done|]). by apply (extract_grounded _ _ _ _ _ _ (nfc_line_ends raw) Ex).
Qed.

(** C12: from a file's bytes to grounded claims.  After a source was received, whatever other
    calls the service served in between, compiling it validates it and returns claims whose
    evidence names the received bytes and their representation, both in the store, and is a
    non-empty span of that representation with the span's hash; or the store holds other
    bytes with the hash of one of the two. *)
Theorem ingest_grounds_claims raw s s1 rr s2 s3 r :
  service_ok s -> receive raw s = (s1, Ok rr) -> rtc ingest_step s1 s2 ->
  compile (rr_source_id rr) s2 = (s3, Ok r) ->
  (cr_status r = "validated" /\ get (rr_source_id rr) (cas s3) = Ok raw /\
   get (rr_representation_hash rr) (cas s3) = Ok (rep_bytes raw) /\
   Forall (fun c => exists span,
     grounded (chars (rep_bytes raw)) (rr_source_id rr) (rr_representation_hash rr) span c) (cr_claims r)) \/
  exists digest other, objects (cas s3) !! digest = Some other /\ (collision [raw; other] \/ collision [rep_bytes raw; other]).
Proof using EL NL.
  intros Hs Hr Hsteps Hc. destruct (received_stored _ _ _ _ Hs Hr) as (_ & Hsid & Hrep & Hin1 & Hin2).
  pose proof (receive_keeps raw s Hs) as [Hs1 _]. rewrite Hr in Hs1. cbn [fst] in Hs1.
  destruct (ingest_steps_keep _ _ Hsteps Hs1) as [Hs2 [Hg _]].
  destruct (compile_claims _ _ _ _ Hs2 Hc) as (raw' & Hget & Hcas & _ & Hst & Hcl). rewrite Hcas.
  assert (Hkeep : forall k, is_Some (objects (cas s1) !! k) -> is_Some (objects (cas s2) !! k)).
  { intros k [v Hv]. exists v. by eapply lookup_weaken. }
  destruct (stored_bytes s2 _ _ (proj1 Hs2) (Hkeep _ Hin1) eq_refl) as [H1|(k & o & ? & ?)]; [|right; exists k, o; auto].
  destruct (stored_bytes s2 _ _ (proj1 Hs2) (Hkeep _ Hin2) eq_refl) as [H2|(k & o & ? & ?)]; [|right; exists k, o; auto].
  rewrite Hsid in *. rewrite Hrep. rewrite H1 in Hget. injection Hget as <-. left. done.
Qed.

(** The service stays in order.  Over any sequence of calls the store stays intact and
    only grows, every remembered manifest is staged or validated and is only ever validated;
    receiving can only fail on bytes that are not UTF-8, and compiling only on an unknown
    source, on such bytes, or in the extractor. *)
Theorem ingest_keeps_order s s' :
  service_ok s -> rtc ingest_step s s' ->
  service_ok s' /\ later s s' /\
  (forall raw, (utf8_valid raw = true -> exists rr, (receive raw s').2 = Ok rr) /\
               (utf8_valid raw = false -> (receive raw s').2 = Err IngestUnicodeDecodeError)) /\
  (forall sid e, (compile sid s').2 = Err e ->
     e = IngestKeyError sid /\ objects (cas s') !! sid = None \/
     e = IngestUnicodeDecodeError \/ exists x, e = IngestExtract x).
Proof.
  intros Hs Hsteps. destruct (ingest_steps_keep _ _ Hsteps Hs) as [Hs' Hl]. split; [done|]. split; [done|]. split.
  - intros raw. destruct (receive_spec raw s' Hs') as [Hbad Hgood]. split.
    + intros Hv. destruct (Hgood Hv) as (m & s3 & _ & ->). by eexists.
    + intros Hv. by rewrite Hbad.
  - intros sid e He. destruct (compile_spec sid s' Hs') as [Hnone Hsome].
    destruct (objects (cas s') !! sid) as [raw|]; [|rewrite Hnone in He by done; injection He as <-; auto].
    destruct (Hsome raw eq_refl) as (m & s1 & _ & Hbad & Hgood).
    destruct (utf8_valid raw && utf8_valid (rep_bytes raw)); [|rewrite Hbad in He by done; injection He as <-; auto].
    destruct (on_extractor (extract (X := X) (rep_bytes raw) sid (sha256_hex (rep_bytes raw))) s1) as [s2 o] eqn:Eo.
    destruct (Hgood eq_refl s2 o eq_refl) as [Herr Hok].
    destruct o as [x|e']; [rewrite (Hok x eq_refl) in He; discriminate He|].
    rewrite (Herr e' eq_refl) in He. injection He as <-. right; right.
    unfold on_extractor in Eo. destruct (extract _ _ _ (extractor s1)) as [x' [x2|x2]]; [discriminate Eo|].
    injection Eo as _ <-. by exists x2.
Qed.

Lemma put_present data c v : intact c -> objects c !! sha256_hex data = Some v -> put data c = (c, Ok (sha256_hex data)).
Proof. intros Hi Hv. unfold put, put_racing. by rewrite Hv, (Hi _ _ Hv), String.eqb_refl. Qed.

Lemma received_remembered raw s s1 rr :
  service_ok s -> receive raw s = (s1, Ok rr) -> exists m,
  _manifests s1 !! sha256_hex raw = Some m /\
  _representations s1 !! sha256_hex raw = Some (sha256_hex (rep_bytes raw)) /\
  rr = {| rr_source_id := sha256_hex raw; rr_content_hash := sha256_hex raw;
          rr_representation_hash := sha256_hex (rep_bytes raw); rr_status := status m;
          rr_idempotent := exists_ (sha256_hex raw) (cas s) |}.
Proof.
  intros Hs Hr. pose proof (receive_spec raw s Hs) as [Hbad Hgood]. destruct Hs as [Hi Hm]. cbn zeta in *.
  destruct (utf8_valid raw); [|rewrite Hbad in Hr by done; discriminate Hr].
  destruct (Hgood eq_refl) as (m & s3 & Hst & Hr'). rewrite Hr' in Hr. injection Hr as <- <-.
  set (s2 := set_representation _ _ _) in *. exists m.
  assert (Hrep : _representations s2 !! sha256_hex raw = Some (sha256_hex (rep_bytes raw))) by apply lookup_insert_eq.
  destruct (staged_manifest_spec (sha256_hex raw) s2 Hm) as (m' & _ & _ & _ & [[Hk He]|(_ & _ & He)]);
    rewrite He in Hst; injection Hst as <- <-; [done|]. split; [apply lookup_insert_eq|done].
Qed.

(** Receiving is idempotent: receiving the same bytes again returns the same result,
    now marked idempotent, and leaves the service as it is. *)
Theorem receive_idempotent raw s s1 rr :
  service_ok s -> receive raw s = (s1, Ok rr) ->
  receive raw s1 = (s1, Ok {| rr_source_id := rr_source_id rr; rr_content_hash := rr_content_hash rr;
                              rr_representation_hash := rr_representation_hash rr; rr_status := rr_status rr;
                              rr_idempotent := true |}).
Proof.
  intros Hs Hr. destruct (received_stored _ _ _ _ Hs Hr) as (Hv & _ & _ & [v1 Hin1] & [v2 Hin2]).
  destruct (received_remembered _ _ _ _ Hs Hr) as (m & Hm & Hrep & Heq).
  pose proof (receive_keeps raw s Hs) as [Hs1 _]. rewrite Hr in Hs1. cbn [fst] in Hs1.
  pose proof (receive_spec raw s1 Hs1) as [_ Hgood]. cbn zeta in Hgood.
  rewrite (put_present _ _ _ (proj1 Hs1) Hin1) in Hgood. cbn [fst] in Hgood.
  replace (set_cas (cas s1) s1) with s1 in Hgood by by destruct s1.
  rewrite (put_present _ _ _ (proj1 Hs1) Hin2) in Hgood. cbn [fst] in Hgood.
  replace (set_cas (cas s1) s1) with s1 in Hgood by by destruct s1.
  replace (set_representation (sha256_hex raw) (sha256_hex (rep_bytes raw)) s1) with s1 in Hgood
    by (destruct s1; unfold set_representation; cbn in *; by rewrite insert_id).
  destruct (Hgood Hv) as (m' & s3 & Hst & ->).
  unfold staged_manifest, mbind, st_bind, st_gets in Hst. rewrite Hm in Hst. injection Hst as <- <-.
  rewrite Heq. unfold exists_. by rewrite bool_decide_eq_true_2 by by eexists.
Qed.
End IngestProperties.

(** ** Evaluations *)

Definition no_cr_sample : Unicode :=
  {| nfc := fun s => s; nfc_idem := fun _ => eq_refl; nfc_ascii := fun _ _ => eq_refl |}.

#[local] Instance sample_extractor : Extractor unit := mock_extractor (U := no_cr_sample) (D := pad_digest).
#[local] Instance sample_extractor_laws : ExtractorLaws unit (U := no_cr_sample) (D := pad_digest).
Proof. apply (mock_extractor_laws (U := no_cr_sample) (D := pad_digest)). Qed.

#[local] Instance no_cr_laws : NfcLaws (U := no_cr_sample).
Proof. by split. Qed.

Definition new_service : IngestService unit :=
  {| cas := empty_cas; _manifests := ∅; _representations := ∅; extractor := tt |}.

Definition note : string := "pump | is | red | positive |" +:+ CR +:+ LF +:+ "prose".

Definition after_receive := receive (U := no_cr_sample) (D := pad_digest) note new_service.
Definition after_compile := compile (U := no_cr_sample) (D := pad_digest) (sha256_hex (D := pad_digest) note) after_receive.1.

Lemma new_service_ok : service_ok (D := pad_digest) new_service.
Proof. split; apply map_Forall_empty. Qed.

Example compile_sample :
  match after_compile.2 with Ok r => map (fun c => locators (evidence c)) (cr_claims r) | Err _ => [] end = [[text_span 0 28]].
Proof. vm_compute. reflexivity. Qed.

Lemma ingest_grounds_claims_witness :
  match after_receive.2, after_compile.2 with
  | Ok rr, Ok r =>
      cr_status r = "validated" \/
      exists digest other, objects (cas after_compile.1) !! digest = Some other /\
        (collision (D := pad_digest) [note; other] \/ collision (D := pad_digest) [rep_bytes (U := no_cr_sample) note; other])
  | _, _ => False
  end.
Proof.
  destruct (after_receive.2) as [rr|e] eqn:Er; [|vm_compute in Er; discriminate Er].
  destruct (after_compile.2) as [r|e] eqn:Ec; [|vm_compute in Ec; discriminate Ec].
  destruct (ingest_grounds_claims (U := no_cr_sample) (D := pad_digest) note new_service after_receive.1 rr
    after_receive.1 after_compile.1 r new_service_ok) as [(H & _)|H].
  - by rewrite <- Er, <- surjective_pairing.
  - apply rtc_refl.
  - assert (rr_source_id rr = sha256_hex (D := pad_digest) note) as ->.
    { vm_compute in Er. injection Er as <-. vm_compute. reflexivity. }
    by rewrite <- Ec, <- surjective_pairing.
  - by left.
  - by right.
Defined.

Lemma ingest_keeps_order_witness : service_ok (D := pad_digest) after_receive.1.
Proof.
  apply (ingest_keeps_order (U := no_cr_sample) (D := pad_digest) new_service); [exact new_service_ok|].
  apply rtc_once. exact (step_receive note new_service).
Defined.

Lemma receive_idempotent_witness :
  match after_receive.2 with
  | Ok rr => receive (U := no_cr_sample) (D := pad_digest) note after_receive.1 =
      (after_receive.1, Ok {| rr_source_id := rr_source_id rr; rr_content_hash := rr_content_hash rr;
         rr_representation_hash := rr_representation_hash rr; rr_status := rr_status rr; rr_idempotent := true |})
  | Err _ => False
  end.
Proof.
  destruct (after_receive.2) as [rr|e] eqn:Er; [|vm_compute in Er; discriminate Er].
  apply (receive_idempotent (U := no_cr_sample) (D := pad_digest) note new_service); [exact new_service_ok|].
  by rewrite <- Er, <- surjective_pairing.
Defined.
