(* ===== verification/Contracts.v ===== *)
(** * Phase 3 contracts (memory_core/contracts.py, memory_core/errors.py)

    The strict contract encoder, the command, query, result and event envelopes with
    their validating constructors, and the accepted change set.  A [Mapping[str, Any]]
    argument is an association list of Python values with distinct string keys. *)
From S2P Require Import Prelude Digest Json Canonical Hashing.
Open Scope string_scope.

(** The taxonomy of errors.py: the three subclasses of CoreContractError. *)
Inductive core_error : Type :=
| UnsupportedContractVersion
| UnknownContractField
| InvalidContractValue.

#[export] Instance core_error_eq_dec : EqDecision core_error.
Proof. solve_decision. Defined.

Definition CONTRACT_VERSION : string := "phase3-core-v1".
Definition EVENT_SCHEMA_VERSION : string := "phase3-operational-event-v1".

Section Normalize.
Context {U : Unicode}.

(** Unlike the encoder of canonical.py, this one refuses tuples, takes any [Mapping] for an
    object, sorts every object when it normalizes it and raises a single error class. *)
Fixpoint _normalize (value : pyval) : result core_error json :=
  match value with
  | PNone => Ok JNull
  | PBool b => Ok (JBool b)
  | PStr s => Ok (JStr (nfc s))
  | PInt _ | PFloat => Err InvalidContractValue
  | PList l =>
      let fix items (l : list pyval) :=
        match l with
        | [] => Ok []
        | v :: l => v' ← _normalize v; l' ← items l; Ok (v' :: l')
        end in
      l' ← items l; Ok (JArr l')
  | PDict kvs | PMap kvs =>
      let fix entries (kvs : list (pykey * pyval)) (normalized : list (string * json)) :=
        match kvs with
        | [] => Ok (JObj (sort_on fst normalized))
        | (KOther, _) :: _ => Err InvalidContractValue
        | (KStr k, v) :: kvs =>
            let normalized_key := nfc k in
            if str_in_keys normalized_key normalized then Err InvalidContractValue
            else v' ← _normalize v; entries kvs (normalized ++ [(normalized_key, v')])%list
        end in
      entries kvs []
  | PTuple _ | POther => Err InvalidContractValue
  end.

Definition canonical_bytes (value : pyval) : result core_error string :=
  normalized ← _normalize value; Ok (json_dumps normalized).
End Normalize.

(** ** Strict mappings *)

Definition mapping : Type := list (string * pyval).

Definition py_str_eqb (v : pyval) (s : string) : bool :=
  match v with PStr t => String.eqb t s | _ => false end.

Definition keys_within (data : mapping) (allowed : list string) : bool :=
  forallb (fun k => str_mem k allowed) (map fst data).
Definition has_keys (data : mapping) (required : list string) : bool :=
  forallb (fun k => str_mem k (map fst data)) required.

Definition _strict_mapping (data : mapping) (allowed required : list string)
    : result core_error mapping :=
  _ ← ensure (keys_within data allowed) UnknownContractField;
  _ ← ensure (has_keys data required) InvalidContractValue;
  _ ← ensure (match assoc "contract_version" data with
              | Some v => py_str_eqb v CONTRACT_VERSION
              | None => false end) UnsupportedContractVersion;
  Ok data.

(** [values[field]] of a validated mapping: the key is present. *)
Definition field (values : mapping) (k : string) : pyval :=
  match assoc k values with Some v => v | None => PNone end.

(** [isinstance(value, str) and value]. *)
Definition need_str (v : pyval) : result core_error string :=
  match v with
  | PStr s => if str_nonempty s then Ok s else Err InvalidContractValue
  | _ => Err InvalidContractValue
  end.

(** [None] or a non-empty string. *)
Definition need_opt (v : pyval) : result core_error (option string) :=
  match v with
  | PNone => Ok None
  | v => s ← need_str v; Ok (Some s)
  end.

Section Envelopes.
Context {U : Unicode} {D : Digest}.

Definition need_obj (v : pyval) : result core_error (list (string * json)) :=
  j ← _normalize v;
  match j with JObj ms => Ok ms | _ => Err InvalidContractValue end.

(** ** CommandEnvelope *)

Record CommandEnvelope : Type := {
  cmd_contract_version : string;
  command_id : string;
  idempotency_key : string;
  cmd_workspace_id : string;
  cmd_actor_id : string;
  command_type : string;
  expected_generation_id : option string;
  payload : list (string * json);
}.

Definition COMMAND_FIELDS : list string :=
  ["contract_version"; "command_id"; "idempotency_key"; "workspace_id"; "actor_id";
   "command_type"; "expected_generation_id"; "payload"].

Definition command_from_mapping (data : mapping) : result core_error CommandEnvelope :=
  values ← _strict_mapping data COMMAND_FIELDS COMMAND_FIELDS;
  p ← need_obj (field values "payload");
  v ← need_str (field values "contract_version");
  c ← need_str (field values "command_id");
  i ← need_str (field values "idempotency_key");
  w ← need_str (field values "workspace_id");
  a ← need_str (field values "actor_id");
  t ← need_str (field values "command_type");
  e ← need_opt (field values "expected_generation_id");
  Ok {| cmd_contract_version := v; command_id := c; idempotency_key := i; cmd_workspace_id := w;
        cmd_actor_id := a; command_type := t; expected_generation_id := e; payload := p |}.

(** [{"contract_version": CONTRACT_VERSION, **kwargs}] *)
Definition dict_update (base over : mapping) : mapping :=
  foldl (fun d kv => assoc_set kv.1 kv.2 d) base over.

Definition command_create (kwargs : mapping) : result core_error CommandEnvelope :=
  command_from_mapping (dict_update [("contract_version", PStr CONTRACT_VERSION)] kwargs).

Definition command_to_mapping (c : CommandEnvelope) : mapping :=
  [("contract_version", PStr (cmd_contract_version c));
   ("command_id", PStr (command_id c));
   ("idempotency_key", PStr (idempotency_key c));
   ("workspace_id", PStr (cmd_workspace_id c));
   ("actor_id", PStr (cmd_actor_id c));
   ("command_type", PStr (command_type c));
   ("expected_generation_id", py_opt (expected_generation_id c));
   ("payload", of_json (JObj (payload c)))].

Definition command_bytes (c : CommandEnvelope) : result core_error string :=
  canonical_bytes (py_record (command_to_mapping c)).

(** ** QueryEnvelope *)

Record QueryEnvelope : Type := {
  qry_contract_version : string;
  query_id : string;
  qry_workspace_id : string;
  qry_actor_id : string;
  query_type : string;
  as_of_generation_id : string;
  consistency : string;
  parameters : list (string * json);
}.

Definition QUERY_FIELDS : list string :=
  ["contract_version"; "query_id"; "workspace_id"; "actor_id"; "query_type";
   "as_of_generation_id"; "consistency"; "parameters"].

Definition query_from_mapping (data : mapping) : result core_error QueryEnvelope :=
  values ← _strict_mapping data QUERY_FIELDS QUERY_FIELDS;
  p ← need_obj (field values "parameters");
  v ← need_str (field values "contract_version");
  q ← need_str (field values "query_id");
  w ← need_str (field values "workspace_id");
  a ← need_str (field values "actor_id");
  t ← need_str (field values "query_type");
  g ← need_str (field values "as_of_generation_id");
  c ← need_str (field values "consistency");
  _ ← ensure (str_mem c ["authoritative"; "projection_ok"]) InvalidContractValue;
  Ok {| qry_contract_version := v; query_id := q; qry_workspace_id := w; qry_actor_id := a;
        query_type := t; as_of_generation_id := g; consistency := c; parameters := p |}.

Definition query_to_mapping (q : QueryEnvelope) : mapping :=
  [("contract_version", PStr (qry_contract_version q));
   ("query_id", PStr (query_id q));
   ("workspace_id", PStr (qry_workspace_id q));
   ("actor_id", PStr (qry_actor_id q));
   ("query_type", PStr (query_type q));
   ("as_of_generation_id", PStr (as_of_generation_id q));
   ("consistency", PStr (consistency q));
   ("parameters", of_json (JObj (parameters q)))].

Definition query_bytes (q : QueryEnvelope) : result core_error string :=
  canonical_bytes (py_record (query_to_mapping q)).

(** ** CoreResult *)

Record CoreResult : Type := {
  res_contract_version : string;
  request_id : string;
  res_status : string;
  res_generation_id : option string;
  res_result : pyval;
  error_code : option string;
}.

Definition result_to_mapping (r : CoreResult) : result core_error mapping :=
  body ← _normalize (res_result r);
  Ok [("contract_version", PStr (res_contract_version r));
      ("request_id", PStr (request_id r));
      ("status", PStr (res_status r));
      ("generation_id", py_opt (res_generation_id r));
      ("result", of_json body);
      ("error_code", py_opt (error_code r))].

Definition result_bytes (r : CoreResult) : result core_error string :=
  m ← result_to_mapping r; canonical_bytes (py_record m).

(** ** OperationalEvent *)

Record OperationalEvent : Type := {
  event_schema_version : string;
  event_id : string;
  workspace_id : string;
  generation_id : string;
  parent_generation_id : option string;
  generation_seq : string;
  event_type : string;
  causation_id : string;
  correlation_id : string;
  sensitivity : string;
  payload_ref : option string;
  emitted_at : string;
}.

Definition _event_identity_body (e : OperationalEvent) : mapping :=
  [("event_schema_version", PStr (event_schema_version e));
   ("workspace_id", PStr (workspace_id e));
   ("generation_id", PStr (generation_id e));
   ("parent_generation_id", py_opt (parent_generation_id e));
   ("generation_seq", PStr (generation_seq e));
   ("event_type", PStr (event_type e));
   ("causation_id", PStr (causation_id e));
   ("correlation_id", PStr (correlation_id e));
   ("sensitivity", PStr (sensitivity e));
   ("payload_ref", py_opt (payload_ref e));
   ("emitted_at", PStr (emitted_at e))].

Definition event_identity (e : OperationalEvent) : result core_error string :=
  b ← canonical_bytes (py_record (_event_identity_body e)); Ok (sha256_hex b).

(** [re.fullmatch(r"0|[1-9][0-9]*", s)] *)
Definition is_digit (c : ascii) : bool := (48 <=? N_of_ascii c)%N && (N_of_ascii c <=? 57)%N.

Definition is_canonical_int (s : string) : bool :=
  match s with
  | "" => false
  | String c rest =>
      (is_digit c && negb (Ascii.eqb c "0") && str_forall is_digit rest)
      || (Ascii.eqb c "0" && String.eqb rest "")
  end.

(** [re.fullmatch(r"[1-9][0-9]*", s)] *)
Definition is_positive_int (s : string) : bool :=
  match s with
  | EmptyString => false
  | String c s => is_digit c && negb (Ascii.eqb c "0") && str_forall is_digit s
  end.

Definition opt_nonempty (o : option string) : bool :=
  match o with Some s => str_nonempty s | None => true end.

(** [OperationalEvent.__post_init__] on fields of the declared types. *)
Definition event_post_init (e : OperationalEvent) : result core_error OperationalEvent :=
  _ ← ensure (String.eqb (event_schema_version e) EVENT_SCHEMA_VERSION) UnsupportedContractVersion;
  _ ← ensure (forallb str_nonempty
                [event_schema_version e; workspace_id e; generation_id e; generation_seq e;
                 event_type e; causation_id e; correlation_id e; sensitivity e; emitted_at e])
             InvalidContractValue;
  _ ← ensure (opt_nonempty (parent_generation_id e) && opt_nonempty (payload_ref e))
             InvalidContractValue;
  _ ← ensure (is_canonical_int (generation_seq e)) InvalidContractValue;
  _ ← ensure (str_mem (sensitivity e) ["public"; "internal"; "private"; "secret"])
             InvalidContractValue;
  expected ← event_identity e;
  _ ← ensure (String.eqb (event_id e) expected) InvalidContractValue;
  Ok e.

Definition with_event_id (e : OperationalEvent) (i : string) : OperationalEvent :=
  {| event_schema_version := event_schema_version e; event_id := i;
     workspace_id := workspace_id e; generation_id := generation_id e;
     parent_generation_id := parent_generation_id e; generation_seq := generation_seq e;
     event_type := event_type e; causation_id := causation_id e;
     correlation_id := correlation_id e; sensitivity := sensitivity e;
     payload_ref := payload_ref e; emitted_at := emitted_at e |}.

(** [OperationalEvent.create]: the identifier is computed, the schema version defaulted. *)
Definition event_create (workspace generation : string) (parent : option string)
    (seq type causation correlation sens : string) (ref : option string) (at_ : string)
    : result core_error OperationalEvent :=
  let values :=
    {| event_schema_version := EVENT_SCHEMA_VERSION; event_id := ""; workspace_id := workspace;
       generation_id := generation; parent_generation_id := parent; generation_seq := seq;
       event_type := type; causation_id := causation; correlation_id := correlation;
       sensitivity := sens; payload_ref := ref; emitted_at := at_ |} in
  i ← event_identity values;
  event_post_init (with_event_id values i).

Definition EVENT_FIELDS : list string :=
  ["event_schema_version"; "event_id"; "workspace_id"; "generation_id"; "parent_generation_id";
   "generation_seq"; "event_type"; "causation_id"; "correlation_id"; "sensitivity";
   "payload_ref"; "emitted_at"].

Definition event_to_mapping (e : OperationalEvent) : mapping :=
  [("event_schema_version", PStr (event_schema_version e));
   ("event_id", PStr (event_id e));
   ("workspace_id", PStr (workspace_id e));
   ("generation_id", PStr (generation_id e));
   ("parent_generation_id", py_opt (parent_generation_id e));
   ("generation_seq", PStr (generation_seq e));
   ("event_type", PStr (event_type e));
   ("causation_id", PStr (causation_id e));
   ("correlation_id", PStr (correlation_id e));
   ("sensitivity", PStr (sensitivity e));
   ("payload_ref", py_opt (payload_ref e));
   ("emitted_at", PStr (emitted_at e))].

(** [OperationalEvent.from_mapping]: the constructor's [__post_init__] sees the raw values,
    so a wrong schema version is reported before a field of a wrong type. *)
Definition event_from_mapping (data : mapping) : result core_error OperationalEvent :=
  _ ← ensure (keys_within data EVENT_FIELDS) UnknownContractField;
  _ ← ensure (has_keys data EVENT_FIELDS) InvalidContractValue;
  _ ← ensure (py_str_eqb (field data "event_schema_version") EVENT_SCHEMA_VERSION)
             UnsupportedContractVersion;
  i ← need_str (field data "event_id");
  w ← need_str (field data "workspace_id");
  g ← need_str (field data "generation_id");
  p ← need_opt (field data "parent_generation_id");
  s ← need_str (field data "generation_seq");
  t ← need_str (field data "event_type");
  ca ← need_str (field data "causation_id");
  co ← need_str (field data "correlation_id");
  se ← need_str (field data "sensitivity");
  r ← need_opt (field data "payload_ref");
  at_ ← need_str (field data "emitted_at");
  event_post_init
    {| event_schema_version := EVENT_SCHEMA_VERSION; event_id := i; workspace_id := w;
       generation_id := g; parent_generation_id := p; generation_seq := s; event_type := t;
       causation_id := ca; correlation_id := co; sensitivity := se; payload_ref := r;
       emitted_at := at_ |}.

Definition event_bytes (e : OperationalEvent) : result core_error string :=
  canonical_bytes (py_record (event_to_mapping e)).

(** ** AcceptedChangeSet *)

Record AcceptedChangeSet : Type := {
  cs_contract_version : string;
  changeset_id : string;
  cs_workspace_id : string;
  cs_parent_generation_id : option string;
  cs_command_ids : list string;
  cs_object_refs : list string;
  changes_root : string;
}.

Definition changeset_bytes (c : AcceptedChangeSet) : result core_error string :=
  canonical_bytes (py_record
    [("contract_version", PStr (cs_contract_version c));
     ("changeset_id", PStr (changeset_id c));
     ("workspace_id", PStr (cs_workspace_id c));
     ("parent_generation_id", py_opt (cs_parent_generation_id c));
     ("command_ids", py_strs (cs_command_ids c));
     ("object_refs", py_strs (cs_object_refs c));
     ("changes_root", PStr (changes_root c))]).
End Envelopes.

(** ** The contract encoder against the encoder of canonical.py *)

Fixpoint tuple_free (v : pyval) : bool :=
  match v with
  | PTuple _ => false
  | PList l => forallb tuple_free l
  | PDict kvs | PMap kvs => forallb (fun kv => tuple_free kv.2) kvs
  | _ => true
  end.

(** Whether every mapping in a value is a [dict]. *)
Fixpoint map_free (v : pyval) : bool :=
  match v with
  | PMap _ => false
  | PList l | PTuple l => forallb map_free l
  | PDict kvs => forallb (fun kv => map_free kv.2) kvs
  | _ => true
  end.

(** [dict(m)] for every mapping in a value. *)
Fixpoint as_dicts (v : pyval) : pyval :=
  match v with
  | PList l => PList (map as_dicts l)
  | PTuple l => PTuple (map as_dicts l)
  | PDict kvs | PMap kvs => PDict (map (fun kv => (kv.1, as_dicts kv.2)) kvs)
  | _ => v
  end.

Lemma as_dicts_id v : map_free v = true -> as_dicts v = v.
Proof.
  induction v as [| | | |s|l IH|l IH|kvs IH|kvs IH|] using pyval_rect_nested; intros H; try done; cbn [as_dicts map_free] in *; f_equal.
  1,2: induction IH as [|x l Hx _ IH]; [done|]; cbn in H |- *; apply andb_true_iff in H as [H1 H2]; by rewrite Hx, IH.
  induction IH as [|[k x] l Hx _ IH]; [done|]. cbn in H, Hx |- *. apply andb_true_iff in H as [H1 H2]. by rewrite Hx, IH.
Qed.

Lemma map_free_record fields : map_free (py_record fields) = forallb (fun f => map_free f.2) fields.
Proof. unfold py_record. cbn [map_free]. induction fields as [|f fields IH]; [done|]. cbn. by rewrite IH. Qed.

Lemma map_free_list {A} (f : A -> pyval) l : (forall x, map_free (f x) = true) -> map_free (PList (map f l)) = true.
Proof. intros Hf. cbn [map_free]. induction l as [|x l IH]; [done|]. cbn. by rewrite Hf. Qed.

Lemma map_free_strs l : map_free (py_strs l) = true.
Proof. by apply map_free_list. Qed.

Lemma map_free_opt o : map_free (py_opt o) = true.
Proof. by destruct o. Qed.

(** A record of texts, options and lists of texts. *)
Ltac dicts_only := rewrite ?map_free_record; cbn [forallb snd]; rewrite ?map_free_strs, ?map_free_opt; try reflexivity.

Section Encoder.
Context {U : Unicode}.

Lemma representable_map_free v : representable v = true -> map_free v = true.
Proof.
  induction v as [| | | |s|l IH|l IH|kvs IH|kvs IH|] using pyval_rect_nested; intros H; try done; cbn [representable map_free] in *.
  1,2: induction IH as [|x l Hx _ IH]; [done|]; cbn in H |- *; apply andb_true_iff in H as [H1 H2]; by rewrite Hx, IH.
  apply andb_true_iff in H as [H _]. induction IH as [|[k x] l Hx _ IH]; [done|]. cbn in H, Hx |- *.
  apply andb_true_iff in H as [[_ H1]%andb_true_iff H2]. by rewrite Hx, IH.
Qed.

(** A mapping that is no [dict] is refused by the encoder of canonical.py. *)
Lemma canonical_refuses_maps v : map_free v = false -> exists e, Canonical.canonical_bytes v = Err e.
Proof.
  intros Hm. unfold Canonical.canonical_bytes. destruct (normalize v) as [j|e] eqn:Hj; [|by exists e].
  rewrite representable_map_free in Hm; [done|]. apply normalize_total. by exists j.
Qed.

(** Sorted members, and one error class for every error. *)
Definition sorted_result (r : result canon_error json) : result core_error json :=
  match r with Ok j => Ok (sort_json j) | Err _ => Err InvalidContractValue end.

Definition agrees (v : pyval) : Prop :=
  _normalize v = if tuple_free v then sorted_result (normalize (as_dicts v)) else Err InvalidContractValue.

Fixpoint contract_entries (kvs : list (pykey * pyval)) (normalized : list (string * json))
    : result core_error json :=
  match kvs with
  | [] => Ok (JObj (sort_on fst normalized))
  | (KOther, _) :: _ => Err InvalidContractValue
  | (KStr k, v) :: kvs =>
      let normalized_key := nfc k in
      if str_in_keys normalized_key normalized then Err InvalidContractValue
      else v' ← _normalize v; contract_entries kvs (normalized ++ [(normalized_key, v')])%list
  end.

Lemma contract_dict kvs : _normalize (PDict kvs) = contract_entries kvs [].
Proof.
  cbn [_normalize]. generalize (@nil (string * json)) at 2 3.
  induction kvs as [|[[k|] v] kvs IH]; intros out; cbn [contract_entries]; [done| |done].
  destruct (str_in_keys _ _); [done|]. destruct (_normalize v); cbn; [apply IH | done].
Qed.

Lemma contract_map kvs : _normalize (PMap kvs) = _normalize (PDict kvs).
Proof. reflexivity. Qed.

Lemma contract_list l : _normalize (PList l) = l' ← map_result _normalize l; Ok (JArr l').
Proof.
  cbn [_normalize]. apply (f_equal (fun m => l' ← m; Ok (JArr l'))).
  induction l as [|v l IH]; [done|]. cbn [map_result]. by rewrite <- IH.
Qed.

Lemma contract_items l :
  Forall agrees l ->
  map_result _normalize l =
  if forallb tuple_free l
  then match map_result normalize (map as_dicts l) with
       | Ok js => Ok (map sort_json js) | Err _ => Err InvalidContractValue end
  else Err InvalidContractValue.
Proof.
  induction 1 as [|v l Hv Hl IH]; [done|]. cbn [map_result forallb map]. rewrite Hv, IH.
  destruct (tuple_free v), (normalize (as_dicts v)); cbn; try done;
    destruct (forallb tuple_free l), (map_result normalize (map as_dicts l)); done.
Qed.

Lemma str_in_keys_snd (f : json -> json) k out :
  str_in_keys k (map (fun kv => (kv.1, f kv.2)) out) = str_in_keys k out.
Proof. unfold str_in_keys. by rewrite map_map. Qed.

Lemma contract_entries_agree kvs out :
  Forall (fun kv => agrees kv.2) kvs ->
  contract_entries kvs (map (fun kv => (kv.1, sort_json kv.2)) out) =
  if forallb (fun kv => tuple_free kv.2) kvs
  then sorted_result (normalize_entries (map (fun kv => (kv.1, as_dicts kv.2)) kvs) out)
  else Err InvalidContractValue.
Proof.
  intros Hl; revert out; induction Hl as [|[[k|] v] kvs Hv Hl IH]; intros out;
    cbn [contract_entries normalize_entries forallb map fst snd]; [done| |by destruct (_ && _)].
  rewrite str_in_keys_snd. cbn in Hv.
  destruct (str_in_keys (nfc k) out); [by destruct (_ && _)|]. rewrite Hv.
  destruct (tuple_free v), (normalize (as_dicts v)) as [x|]; cbn [sorted_result mbind result_bind andb]; try done.
  - rewrite <- (IH (out ++ [(nfc k, x)])%list). by rewrite map_app.
  - by destruct (forallb _ _).
Qed.

Lemma normalize_agrees v : agrees v.
Proof.
  induction v as [| | | |s|l IH|l IH|kvs IH|kvs IH|] using pyval_rect_nested; try reflexivity; unfold agrees.
  - rewrite contract_list, contract_items by done. cbn [as_dicts]. rewrite normalize_list, normalize_items_map.
    cbn [tuple_free]. by destruct (forallb tuple_free l), (map_result normalize (map as_dicts l)).
  - rewrite contract_dict; cbn [as_dicts]; rewrite normalize_dict; exact (contract_entries_agree kvs [] IH).
  - rewrite contract_map, contract_dict; cbn [as_dicts]; rewrite normalize_dict; exact (contract_entries_agree kvs [] IH).
Qed.

Lemma of_json_tuple_free j : tuple_free (of_json j) = true.
Proof.
  induction j as [| | |l IH|kvs IH] using json_rect_nested; try done; cbn [of_json tuple_free].
  - induction IH as [|x l Hx _ IH]; [done|]. cbn. by rewrite Hx.
  - induction IH as [|[k x] l Hx _ IH]; [done|]. cbn in *. by rewrite Hx.
Qed.

Lemma of_json_map_free j : map_free (of_json j) = true.
Proof.
  induction j as [| | |l IH|kvs IH] using json_rect_nested; try done; cbn [of_json map_free].
  - induction IH as [|x l Hx _ IH]; [done|]. cbn. by rewrite Hx.
  - induction IH as [|[k x] l Hx _ IH]; [done|]. cbn in *. by rewrite Hx.
Qed.

(** What the contract encoder stores is a fixed point of it. *)
Lemma contract_normalize_idem v j : _normalize v = Ok j -> _normalize (of_json j) = Ok j.
Proof.
  rewrite (normalize_agrees v). destruct (tuple_free v); [|done].
  destruct (normalize (as_dicts v)) as [x|] eqn:Hx; [|done]. intros [= <-].
  rewrite (normalize_agrees (of_json (sort_json x))), of_json_tuple_free, as_dicts_id by apply of_json_map_free.
  rewrite normalize_of_json; [cbn; by rewrite sort_json_idem|].
  apply json_normal_sort. by eapply normalize_normal.
Qed.

Lemma contract_bytes_eq v :
  canonical_bytes v =
  if tuple_free v
  then match Canonical.canonical_bytes (as_dicts v) with
       | Ok b => Ok b | Err _ => Err InvalidContractValue end
  else Err InvalidContractValue.
Proof.
  unfold canonical_bytes, Canonical.canonical_bytes. rewrite normalize_agrees.
  destruct (tuple_free v), (normalize (as_dicts v)); cbn; try done. by rewrite json_dumps_sort.
Qed.

Lemma contract_bytes_dicts v : map_free v = true ->
  canonical_bytes v =
  if tuple_free v
  then match Canonical.canonical_bytes v with
       | Ok b => Ok b | Err _ => Err InvalidContractValue end
  else Err InvalidContractValue.
Proof. intros Hm. by rewrite contract_bytes_eq, as_dicts_id. Qed.
End Encoder.

(** ** Records through the contract encoder *)
Section RecordFields.
Context {U : Unicode}.

Definition field_normal (f : string * pyval) (m : string * json) : Prop := m.1 = f.1 /\ _normalize f.2 = Ok m.2.

Lemma contract_entries_record fields out j :
  forallb is_ascii fields.*1 = true -> NoDup (out.*1 ++ fields.*1) ->
  contract_entries (map (fun f => (KStr f.1, f.2)) fields) out = Ok j <->
  exists ms, Forall2 field_normal fields ms /\ j = JObj (sort_on fst (out ++ ms)%list).
Proof.
  revert out; induction fields as [|[k v] fields IH]; intros out Ha Hnd; cbn [map contract_entries].
  - split; [intros [= <-]; exists []; rewrite app_nil_r; split; [constructor | done]|].
    intros (ms & Hm & ->). inversion Hm; subst. by rewrite app_nil_r.
  - cbn in Ha. apply andb_true_iff in Ha as [Hk Ha]. cbn [fst snd]. rewrite (nfc_ascii _ Hk).
    assert (str_in_keys k out = false) as ->.
    { apply not_true_is_false. intros Hx%str_in_keys_spec. apply list.NoDup_app in Hnd as (_ & Hd & _). apply (Hd _ Hx). by left. }
    rewrite bind_ok. setoid_rewrite IH; [|done|by rewrite fmap_app, <- app_assoc]. split.
    + intros (x & Hx & ms & Hm & ->). exists ((k, x) :: ms). split; [by constructor|]. by rewrite <- app_assoc.
    + intros (ms & Hm & ->). inversion Hm as [|? [k' x] ? ms' [E Hx] Hms]; subst. cbn in E, Hx. subst k'.
      exists x. split; [done|]. exists ms'. split; [done|]. by rewrite <- app_assoc.
Qed.

Lemma record_normal fields j : record_keys fields.*1 = true ->
  _normalize (py_record fields) = Ok j <-> exists ms, Forall2 field_normal fields ms /\ j = JObj (sort_on fst ms).
Proof.
  unfold record_keys, str_unique. rewrite andb_true_iff, bool_decide_eq_true. intros [Ha Hn].
  unfold py_record. rewrite contract_dict. by apply contract_entries_record.
Qed.

Lemma field_normal_keys fields ms : Forall2 field_normal fields ms -> ms.*1 = fields.*1.
Proof. induction 1 as [|f m fs ms [E _] _ IH]; [done|]. cbn. by rewrite E, IH. Qed.

(** Two records with the same keys and one normal form agree field by field. *)
Lemma record_fields_agree fields fields' j :
  record_keys fields.*1 = true -> fields.*1 = fields'.*1 ->
  _normalize (py_record fields) = Ok j -> _normalize (py_record fields') = Ok j ->
  Forall2 (fun f f' => exists x, _normalize f.2 = Ok x /\ _normalize f'.2 = Ok x) fields fields'.
Proof.
  intros Hr Hk. rewrite !record_normal by congruence. intros (ms & Hm & ->) (ms' & Hm' & [= E]).
  pose proof (field_normal_keys _ _ Hm) as K. pose proof (field_normal_keys _ _ Hm') as K'.
  assert (ms = ms') as <-.
  { assert (Hp : ms ≡ₚ ms').
    { rewrite <- (py_sort_perm (fun x y => str_leb x.1 y.1) ms), <- (py_sort_perm (fun x y => str_leb x.1 y.1) ms').
      unfold sort_on in E. by rewrite E. }
    assert (Hn : NoDup ms.*1).
    { rewrite K. unfold record_keys in Hr. apply andb_true_iff in Hr as [_ Hr]. by apply bool_decide_eq_true in Hr. }
    clear -Hp Hn K K' Hk. assert (Hkk : ms.*1 = ms'.*1) by congruence. clear K K' Hk.
    revert ms' Hp Hkk. induction ms as [|[k x] ms IH]; intros ms' Hp Hk.
    - symmetry in Hp. by apply Permutation_nil_r in Hp.
    - destruct ms' as [|[k' x'] ms']; [done|]. cbn in Hk. injection Hk as <- Hk.
      apply list.NoDup_cons in Hn as [Hnk Hn].
      assert ((k, x') ∈ (k, x) :: ms) as Hin by (rewrite Hp; left).
      apply elem_of_cons in Hin as [[= ->] | Hin].
      + f_equal. apply IH; [done| |done]. by apply Permutation_cons_inv in Hp.
      + exfalso. apply Hnk, list_elem_of_fmap. by exists (k, x'). }
  clear -Hm Hm'. revert fields' Hm'. induction Hm as [|f m fs ms [_ Hf] _ IH]; intros fs' Hm'; inversion Hm' as [|f' ? fs'' ? [_ Hf'] ?]; subst; constructor; eauto.
Qed.

Lemma normalize_py_strs l : _normalize (py_strs l) = Ok (JArr (map (fun s => JStr (nfc s)) l)).
Proof.
  unfold py_strs. rewrite contract_list.
  assert (map_result _normalize (map PStr l) = Ok (map (fun s => JStr (nfc s)) l)) as ->; [|done].
  induction l as [|s l IH]; [done|]. cbn [map map_result _normalize mbind result_bind]. by rewrite IH.
Qed.

(** A record's normal form depends on its values through theirs. *)
Lemma record_ext fields fields' :
  Forall2 (fun f f' => f.1 = f'.1 /\ _normalize f.2 = _normalize f'.2) fields fields' ->
  _normalize (py_record fields) = _normalize (py_record fields').
Proof.
  unfold py_record. rewrite !contract_dict. generalize (@nil (string * json)). intros out H. revert out.
  induction H as [|[k v] [k' v'] fs fs' [Hk Hv] _ IH]; intros out; [done|]. cbn in Hk, Hv |- *. subst k'. rewrite Hv.
  destruct (str_in_keys _ _); [done|]. destruct (_normalize v'); [apply IH | done].
Qed.
End RecordFields.

(** ** Validation lemmas *)

Lemma need_str_ok v s : need_str v = Ok s <-> v = PStr s /\ str_nonempty s = true.
Proof.
  destruct v; cbn; try (split; [done | by intros [? _]]).
  destruct (str_nonempty s0) eqn:E; split; try done; [by intros [= <-] | by intros [[= <-] _] |].
  intros [[= <-] E']; congruence.
Qed.

Lemma need_opt_ok v o : need_opt v = Ok o <-> v = py_opt o /\ opt_nonempty o = true.
Proof.
  assert (Hs : (s ← need_str v; Ok (Some s)) = Ok o <-> v <> PNone /\ v = py_opt o /\ opt_nonempty o = true).
  { rewrite bind_ok. split.
    - intros (s & [-> Hs]%need_str_ok & [= <-]). done.
    - intros (Hn & -> & Ho). destruct o as [s|]; [|done]. exists s. split; [|done].
      by apply need_str_ok. }
  destruct v; cbn [need_opt]; try (rewrite Hs; split; [by intros (_ & ? & ?) | by intros [? ?]]).
  split; [by intros [= <-]|]. intros [Ho _]. by destruct o.
Qed.

Lemma py_str_eqb_ok v s : py_str_eqb v s = true <-> v = PStr s.
Proof.
  destruct v; cbn; try (split; intros H; discriminate H). rewrite String.eqb_eq. naive_solver.
Qed.

Lemma _strict_mapping_ok data allowed required values :
  _strict_mapping data allowed required = Ok values <->
  values = data /\ keys_within data allowed = true /\ has_keys data required = true /\
  assoc "contract_version" data = Some (PStr CONTRACT_VERSION).
Proof.
  unfold _strict_mapping. rewrite !bind_ok. setoid_rewrite bind_ok. setoid_rewrite bind_ok.
  setoid_rewrite ensure_ok. split.
  - intros (_ & Hk & _ & Hh & _ & Hv & [= <-]). repeat split; try done.
    destruct (assoc _ data); [|done]. by apply py_str_eqb_ok in Hv as ->.
  - intros (-> & Hk & Hh & ->). exists tt. split; [done|]. exists tt. split; [done|].
    exists tt. split; [|done]. by apply py_str_eqb_ok.
Qed.

(** The three refusals of [_strict_mapping], in the order the code checks them. *)
Lemma _strict_mapping_err data allowed required e :
  _strict_mapping data allowed required = Err e <->
  (keys_within data allowed = false /\ e = UnknownContractField) \/
  (keys_within data allowed = true /\ has_keys data required = false /\ e = InvalidContractValue) \/
  (keys_within data allowed = true /\ has_keys data required = true /\
   assoc "contract_version" data <> Some (PStr CONTRACT_VERSION) /\ e = UnsupportedContractVersion).
Proof.
  unfold _strict_mapping. destruct (keys_within data allowed); cbn; [|naive_solver].
  destruct (has_keys data required); cbn; [|naive_solver].
  destruct (assoc "contract_version" data) as [v|]; [|cbn; naive_solver].
  destruct (py_str_eqb v CONTRACT_VERSION) eqn:E; cbn.
  - apply py_str_eqb_ok in E as ->. naive_solver.
  - assert (Some v <> Some (PStr CONTRACT_VERSION)).
    { intros [= ->]. cbn in E. discriminate E. }
    split; [intros [= <-]; right; right; done | naive_solver].
Qed.

Lemma mem_nonempty s l : str_mem s l = true -> str_mem "" l = false -> str_nonempty s = true.
Proof. destruct s; [congruence | done]. Qed.

Lemma is_canonical_int_nonempty s : is_canonical_int s = true -> str_nonempty s = true.
Proof. by destruct s. Qed.

(** Splits a successful chain of validations into its steps. *)
Ltac steps H :=
  repeat lazymatch type of H with
  | (_ ← _; _) = Ok _ =>
      let a := fresh "a" in let Ha := fresh "Ha" in apply bind_ok in H as (a & Ha & H);
      first [apply need_str_ok in Ha as [? ?] | apply need_opt_ok in Ha as [? ?]
            |apply ensure_ok in Ha | idtac]
  end.

(** Rewrites the successful steps of a chain of validations. *)
Ltac run_steps :=
  repeat first
    [ rewrite (proj2 (need_str_ok _ _)) by (split; [reflexivity | done])
    | rewrite (proj2 (need_opt_ok _ _)) by (split; [reflexivity | done])
    | progress cbn [mbind result_bind] ].

Section EnvelopeLemmas.
Context {U : Unicode} {D : Digest}.

Definition stored (ms : list (string * json)) : Prop :=
  _normalize (of_json (JObj ms)) = Ok (JObj ms).

Lemma need_obj_ok v ms : need_obj v = Ok ms -> _normalize v = Ok (JObj ms) /\ stored ms.
Proof.
  unfold need_obj. intros H. apply bind_ok in H as (j & Hj & H).
  destruct j; try discriminate H. injection H as ->. split; [done|].
  by apply (contract_normalize_idem v).
Qed.

Lemma need_obj_stored ms : stored ms -> need_obj (of_json (JObj ms)) = Ok ms.
Proof. unfold need_obj. by intros ->. Qed.

Definition command_valid (c : CommandEnvelope) : Prop :=
  cmd_contract_version c = CONTRACT_VERSION /\
  forallb str_nonempty [command_id c; idempotency_key c; cmd_workspace_id c; cmd_actor_id c;
                        command_type c] = true /\
  opt_nonempty (expected_generation_id c) = true /\ stored (payload c).

Definition query_valid (q : QueryEnvelope) : Prop :=
  qry_contract_version q = CONTRACT_VERSION /\
  forallb str_nonempty [query_id q; qry_workspace_id q; qry_actor_id q; query_type q;
                        as_of_generation_id q] = true /\
  str_mem (consistency q) ["authoritative"; "projection_ok"] = true /\ stored (parameters q).

Lemma command_from_mapping_valid data c : command_from_mapping data = Ok c -> command_valid c.
Proof.
  unfold command_from_mapping. intros H. steps H. injection H as <-.
  apply _strict_mapping_ok in Ha as (-> & _ & _ & Hv). apply need_obj_ok in Ha0 as [_ Hs].
  unfold command_valid; cbn -[str_nonempty]. unfold field in *. rewrite Hv in *.
  repeat split; try done; [congruence|]. cbn -[str_nonempty].
  repeat match goal with H : str_nonempty _ = true |- _ => rewrite H; clear H end. done.
Qed.

Lemma query_from_mapping_valid data q : query_from_mapping data = Ok q -> query_valid q.
Proof.
  unfold query_from_mapping. intros H. steps H. injection H as <-.
  apply _strict_mapping_ok in Ha as (-> & _ & _ & Hv). apply need_obj_ok in Ha0 as [_ Hs].
  unfold query_valid; cbn -[str_nonempty str_mem]. unfold field in *. rewrite Hv in *.
  repeat split; try done; [congruence|]. cbn -[str_nonempty].
  repeat match goal with H : str_nonempty _ = true |- _ => rewrite H; clear H end. done.
Qed.

Lemma command_reparse c : command_valid c -> command_from_mapping (command_to_mapping c) = Ok c.
Proof.
  intros (Hv & Hs & He & Hp). destruct c as [v i k w a t e p]. cbn in Hv, Hp, He; subst v.
  cbn -[str_nonempty] in Hs. split_and_bool. unfold command_from_mapping.
  rewrite (proj2 (_strict_mapping_ok _ _ _ _)) by (repeat split; reflexivity).
  cbn [mbind result_bind]. change (field _ "payload") with (of_json (JObj p)).
  rewrite (need_obj_stored _ Hp). cbn [mbind result_bind]. run_steps. reflexivity.
Qed.

Lemma query_reparse q : query_valid q -> query_from_mapping (query_to_mapping q) = Ok q.
Proof.
  intros (Hv & Hs & He & Hp). destruct q as [v i w a t g c p]. cbn in Hv, Hp; subst v.
  cbn -[str_nonempty] in Hs. cbn [consistency] in He. split_and_bool. unfold query_from_mapping.
  rewrite (proj2 (_strict_mapping_ok _ _ _ _)) by (repeat split; reflexivity).
  cbn [mbind result_bind]. change (field _ "parameters") with (of_json (JObj p)).
  rewrite (need_obj_stored _ Hp). cbn [mbind result_bind].
  assert (str_nonempty c = true) by (by destruct c).
  run_steps. cbn [consistency]. rewrite He. reflexivity.
Qed.

Lemma event_post_init_ok e e' :
  event_post_init e = Ok e' <->
  e' = e /\ event_schema_version e = EVENT_SCHEMA_VERSION /\
  forallb str_nonempty [workspace_id e; generation_id e; event_type e; causation_id e;
                        correlation_id e; emitted_at e] = true /\
  opt_nonempty (parent_generation_id e) = true /\ opt_nonempty (payload_ref e) = true /\
  is_canonical_int (generation_seq e) = true /\
  str_mem (sensitivity e) ["public"; "internal"; "private"; "secret"] = true /\
  event_identity e = Ok (event_id e).
Proof.
  unfold event_post_init. split.
  - intros H. steps H. injection H as <-. split; [done|]. rewrite String.eqb_eq in *. subst.
    cbn -[str_nonempty] in *. split_and_bool. repeat split; try done.
    repeat match goal with H : str_nonempty _ = true |- _ => rewrite H; clear H end. done.
  - intros (-> & Hv & Hs & Hp & Hr & Hi & He & Hid). rewrite Hv, String.eqb_refl, Hp, Hr, Hi, He, Hid.
    cbn [ensure mbind result_bind]. rewrite String.eqb_refl.
    cbn -[str_nonempty] in Hs |- *. split_and_bool.
    rewrite (is_canonical_int_nonempty _ Hi).
    rewrite (mem_nonempty _ _ He eq_refl).
    repeat match goal with H : str_nonempty _ = true |- _ => rewrite H; clear H end. done.
Qed.

Definition identity_json (e : OperationalEvent) : json :=
  JObj [("event_schema_version", JStr (nfc (event_schema_version e)));
        ("workspace_id", JStr (nfc (workspace_id e)));
        ("generation_id", JStr (nfc (generation_id e)));
        ("parent_generation_id", json_opt (parent_generation_id e));
        ("generation_seq", JStr (nfc (generation_seq e)));
        ("event_type", JStr (nfc (event_type e)));
        ("causation_id", JStr (nfc (causation_id e)));
        ("correlation_id", JStr (nfc (correlation_id e)));
        ("sensitivity", JStr (nfc (sensitivity e)));
        ("payload_ref", json_opt (payload_ref e));
        ("emitted_at", JStr (nfc (emitted_at e)))].

(** The bytes whose digest identifies an event. *)
Definition event_preimage (e : OperationalEvent) : list string := preimage (py_record (_event_identity_body e)).

Lemma event_identity_ok e :
  event_identity e = Ok (sha256_hex (json_dumps (identity_json e))) /\ event_preimage e = [json_dumps (identity_json e)].
Proof.
  unfold event_preimage, preimage, event_identity. rewrite contract_bytes_dicts by (unfold _event_identity_body; dicts_only).
  assert (Ht : tuple_free (py_record (_event_identity_body e)) = true)
    by (destruct (parent_generation_id e) eqn:E1, (payload_ref e) eqn:E2;
        unfold _event_identity_body; rewrite E1, E2; reflexivity).
  assert (Hb : Canonical.canonical_bytes (py_record (_event_identity_body e)) =
               Ok (json_dumps (identity_json e))).
  { apply canonical_bytes_ok. exists (identity_json e). split; [|done].
    unfold _event_identity_body. norm_record_goal. reflexivity. }
  unfold Hashing.preimage. by rewrite Ht, Hb.
Qed.

(** The identity fields of two events, up to NFC. *)
Definition same_identity (e e' : OperationalEvent) : Prop :=
  nfc (workspace_id e) = nfc (workspace_id e') /\ nfc (generation_id e) = nfc (generation_id e') /\
  nfc <$> parent_generation_id e = nfc <$> parent_generation_id e' /\
  nfc (generation_seq e) = nfc (generation_seq e') /\ nfc (event_type e) = nfc (event_type e') /\
  nfc (causation_id e) = nfc (causation_id e') /\ nfc (correlation_id e) = nfc (correlation_id e') /\
  nfc (sensitivity e) = nfc (sensitivity e') /\
  nfc <$> payload_ref e = nfc <$> payload_ref e' /\ nfc (emitted_at e) = nfc (emitted_at e').

Lemma json_opt_sort o : sort_json (json_opt o) = json_opt o.
Proof. by destruct o. Qed.

Lemma json_opt_inj o o' : json_opt o = json_opt o' -> nfc <$> o = nfc <$> o'.
Proof. destruct o, o'; cbn; congruence. Qed.

Lemma identity_json_equiv e e' : identity_json e ≡ identity_json e' -> same_identity e e'.
Proof.
  intros E. pose proof (json_members _ _ E eq_refl) as Hk.
  pose proof (Hk "workspace_id") as H1. pose proof (Hk "generation_id") as H2.
  pose proof (Hk "parent_generation_id") as H3. pose proof (Hk "generation_seq") as H4.
  pose proof (Hk "event_type") as H5. pose proof (Hk "causation_id") as H6.
  pose proof (Hk "correlation_id") as H7. pose proof (Hk "sensitivity") as H8.
  pose proof (Hk "payload_ref") as H9. pose proof (Hk "emitted_at") as H10. clear Hk E.
  cbn -[sort_json] in *. rewrite !json_opt_sort in *. cbn [sort_json] in *.
  unfold same_identity. repeat split; try (apply json_opt_inj); congruence.
Qed.
Lemma event_reparse e :
  event_post_init e = Ok e -> event_from_mapping (event_to_mapping e) = Ok e.
Proof.
  intros H. pose proof H as (_ & Hv & Hs & Hp & Hr & Hc & Hse & Hid)%event_post_init_ok.
  assert (Hi : str_nonempty (event_id e) = true).
  { rewrite (proj1 (event_identity_ok _)) in Hid. injection Hid as <-. apply sha256_hex_nonempty. }
  pose proof (mem_nonempty _ _ Hse eq_refl). pose proof (is_canonical_int_nonempty _ Hc).
  cbn -[str_nonempty] in Hs. split_and_bool. destruct e as [v i w g p s t ca co se r a].
  cbn [event_schema_version event_id workspace_id generation_id parent_generation_id generation_seq
       event_type causation_id correlation_id sensitivity payload_ref emitted_at] in *. subst v.
  unfold event_from_mapping.
  change (ensure _ UnknownContractField) with (@Ok core_error unit tt).
  change (ensure (has_keys _ _) InvalidContractValue) with (@Ok core_error unit tt).
  change (ensure _ UnsupportedContractVersion) with (@Ok core_error unit tt).
  run_steps. exact H.
Qed.

Lemma event_from_mapping_ok data e :
  event_from_mapping data = Ok e -> event_post_init e = Ok e.
Proof.
  unfold event_from_mapping. intros H. steps H.
  pose proof H as (-> & _)%event_post_init_ok. exact H.
Qed.

Lemma event_id_inj e e' :
  event_post_init e = Ok e -> event_post_init e' = Ok e' ->
  event_id e = event_id e' -> same_identity e e' \/ collision (event_preimage e ++ event_preimage e').
Proof.
  intros (_ & _ & _ & _ & _ & _ & _ & H1)%event_post_init_ok
         (_ & _ & _ & _ & _ & _ & _ & H2)%event_post_init_ok Hid.
  rewrite (proj1 (event_identity_ok _)) in H1. rewrite (proj1 (event_identity_ok _)) in H2.
  rewrite !(proj2 (event_identity_ok _)).
  assert (E : sha256_hex (json_dumps (identity_json e)) = sha256_hex (json_dumps (identity_json e')))
    by congruence.
  apply sha256_hex_inj_or in E as [E%json_dumps_inj|?]; [left|by right]. by apply identity_json_equiv.
Qed.
End EnvelopeLemmas.

Lemma contract_bytes_ok {U : Unicode} v b : map_free v = true ->
  canonical_bytes v = Ok b ->
  tuple_free v = true /\ exists j, normalize v = Ok j /\ b = json_dumps j.
Proof.
  intros Hm. rewrite contract_bytes_dicts by done. destruct (tuple_free v); [|done].
  destruct (Canonical.canonical_bytes v) eqn:E; [|done]. intros [= ->].
  by apply canonical_bytes_ok in E.
Qed.

(** What the contract encoder normalizes to is well formed and sorted. *)
Lemma contract_normal {U : Unicode} v j : _normalize v = Ok j -> json_wf j = true /\ sort_json j = j.
Proof.
  rewrite (normalize_agrees v). destruct (tuple_free v); [|done].
  destruct (normalize (as_dicts v)) as [x|] eqn:Hx; [|done]. intros [= <-].
  split; [|apply sort_json_idem]. by eapply json_normal_wf, json_normal_sort, normalize_normal.
Qed.

(** Equal digests of two encoded values. *)
Lemma contract_digest_inj {U : Unicode} {D : Digest} v v' b b' : map_free v = true -> map_free v' = true ->
  canonical_bytes v = Ok b -> canonical_bytes v' = Ok b' -> sha256_hex b = sha256_hex b' ->
  (exists j j', normalize v = Ok j /\ normalize v' = Ok j' /\ j ≡ j') \/ collision (preimage v ++ preimage v').
Proof.
  intros Hm Hm' (_ & j & Hj & ->)%(contract_bytes_ok _ _ Hm) (_ & j' & Hj' & ->)%(contract_bytes_ok _ _ Hm').
  rewrite (preimage_ok _ _ Hj), (preimage_ok _ _ Hj').
  intros [E%json_dumps_inj|?]%sha256_hex_inj_or; [left; by exists j, j' | by right].
Qed.

(** ** Claims *)
Section ContractClaims.
Context {U : Unicode} {D : Digest}.

(** C40: how the contract encoder and the encoder of canonical.py differ, on every value: for
    a value whose mappings are all dicts they produce the same bytes, unless it holds a
    tuple, which only the contract encoder refuses; a mapping that is no dict only the
    encoder of canonical.py refuses, where the contract encoder writes the bytes of the
    dicts with the same items.  [InvalidContractValue] is the contract encoder's only error. *)
Theorem contract_bytes_agree v :
  canonical_bytes v =
    (if tuple_free v
     then match Canonical.canonical_bytes (as_dicts v) with
          | Ok b => Ok b | Err _ => Err InvalidContractValue end
     else Err InvalidContractValue) /\
  (if map_free v then as_dicts v = v else exists e, Canonical.canonical_bytes v = Err e).
Proof.
  split; [apply contract_bytes_eq|]. destruct (map_free v) eqn:Hm; [by apply as_dicts_id | by apply canonical_refuses_maps].
Qed.

(** Every command and query envelope the parsers accept is valid, and survives
    serialization: parsing its own mapping gives it back unchanged. *)
Theorem envelope_roundtrip :
  (forall data c, command_from_mapping data = Ok c ->
     command_valid c /\ command_from_mapping (command_to_mapping c) = Ok c) /\
  (forall data q, query_from_mapping data = Ok q ->
     query_valid q /\ query_from_mapping (query_to_mapping q) = Ok q).
Proof.
  split.
  - intros data c Hc%command_from_mapping_valid. by auto using command_reparse.
  - intros data q Hq%query_from_mapping_valid. by auto using query_reparse.
Qed.

(** The command parser fails closed, in this order: any field outside the schema is
    [UnknownContractField]; else any missing field is [InvalidContractValue]; else any
    version but the supported one is [UnsupportedContractVersion]; every later refusal is
    [InvalidContractValue]. *)
Theorem command_error_order data :
  (keys_within data COMMAND_FIELDS = false ->
     command_from_mapping data = Err UnknownContractField) /\
  (keys_within data COMMAND_FIELDS = true -> has_keys data COMMAND_FIELDS = false ->
     command_from_mapping data = Err InvalidContractValue) /\
  (keys_within data COMMAND_FIELDS = true -> has_keys data COMMAND_FIELDS = true ->
     assoc "contract_version" data <> Some (PStr CONTRACT_VERSION) ->
     command_from_mapping data = Err UnsupportedContractVersion) /\
  (forall e, keys_within data COMMAND_FIELDS = true -> has_keys data COMMAND_FIELDS = true ->
     assoc "contract_version" data = Some (PStr CONTRACT_VERSION) ->
     command_from_mapping data = Err e -> e = InvalidContractValue).
Proof.
  assert (Hstr : forall v e, need_str v = Err e -> e = InvalidContractValue).
  { intros v e. destruct v; cbn; try congruence. destruct (str_nonempty _); congruence. }
  assert (Hopt : forall v e, need_opt v = Err e -> e = InvalidContractValue).
  { intros v e H. destruct v; try done; cbn [need_opt] in H;
      (destruct (need_str _) eqn:E in H; [done|]; injection H as <-; by eapply Hstr). }
  assert (Hobj : forall v e, need_obj v = Err e -> e = InvalidContractValue).
  { intros v e H. unfold need_obj in H. rewrite (normalize_agrees v) in H.
    destruct (tuple_free v), (normalize (as_dicts v)) as [[]|]; cbn in H; congruence. }
  unfold command_from_mapping. repeat split.
  - intros Hk. rewrite (proj2 (_strict_mapping_err _ _ _ UnknownContractField)) by auto. done.
  - intros Hk Hh. rewrite (proj2 (_strict_mapping_err _ _ _ InvalidContractValue)) by auto. done.
  - intros Hk Hh Hv.
    rewrite (proj2 (_strict_mapping_err _ _ _ UnsupportedContractVersion)) by (right; right; done). done.
  - intros e Hk Hh Hv. rewrite (proj2 (_strict_mapping_ok _ _ _ _)) by done.
    cbn [mbind result_bind]. intros H.
    repeat lazymatch type of H with
    | mbind _ ?m = Err _ => let E := fresh "E" in
        destruct m eqn:E; cbn [mbind result_bind] in H;
        [|injection H as <-; first [by eapply Hobj | by eapply Hstr | by eapply Hopt]]
    | Ok _ = Err _ => discriminate H
    end.
Qed.

(** An operational event is identified by its contents: [create] always gives the
    event the identifier its validation demands, an accepted event survives
    serialization, and two accepted events with one identifier agree on every identity
    field up to NFC, or the bytes hashed for the two identifiers collide. *)
Theorem event_identity_binding :
  (forall w g p s t ca co se r a e,
     event_create w g p s t ca co se r a = Ok e ->
     event_identity e = Ok (event_id e) /\ event_post_init e = Ok e /\
     event_from_mapping (event_to_mapping e) = Ok e) /\
  (forall data data' e e',
     event_from_mapping data = Ok e -> event_from_mapping data' = Ok e' ->
     event_id e = event_id e' -> same_identity e e' \/ collision (event_preimage e ++ event_preimage e')).
Proof.
  split.
  - intros w g p s t ca co se r a e. unfold event_create. intros H. apply bind_ok in H as (i & Hi & H).
    pose proof H as (-> & _ & _ & _ & _ & _ & _ & Hid)%event_post_init_ok.
    by auto using event_reparse.
  - intros data data' e e' He%event_from_mapping_ok He'%event_from_mapping_ok. by apply event_id_inj.
Qed.
End ContractClaims.

(** ** Evaluations *)

Definition sample_command : mapping :=
  [("command_id", PStr "cmd-1"); ("idempotency_key", PStr "k-1"); ("workspace_id", PStr "ws");
   ("actor_id", PStr "alice"); ("command_type", PStr "propose"); ("expected_generation_id", PNone);
   ("payload", PDict [(KStr "b", PStr "2"); (KStr "a", PList [PBool true])])].

Example command_sample :
  command_create (U := unicode_sample) sample_command =
  Ok {| cmd_contract_version := CONTRACT_VERSION; command_id := "cmd-1"; idempotency_key := "k-1";
        cmd_workspace_id := "ws"; cmd_actor_id := "alice"; command_type := "propose";
        expected_generation_id := None;
        payload := [("a", JArr [JBool true]); ("b", JStr "2")] |}.
Proof. reflexivity. Qed.

Lemma envelope_roundtrip_witness :
  exists c, command_create (U := unicode_sample) sample_command = Ok c /\
            command_from_mapping (U := unicode_sample) (command_to_mapping c) = Ok c.
Proof.
  eexists. split; [reflexivity|].
  apply (proj1 (envelope_roundtrip (U := unicode_sample))
    (dict_update [("contract_version", PStr CONTRACT_VERSION)] sample_command)). reflexivity.
Defined.

Lemma command_error_order_witness :
  command_from_mapping (U := unicode_sample) [("unexpected", PNone)] = Err UnknownContractField.
Proof. apply (command_error_order (U := unicode_sample)). reflexivity. Defined.

Lemma event_identity_binding_witness :
  exists e, event_create (U := unicode_sample) (D := pad_digest) "ws" "g-1" None "1" "published" "c" "c"
              "internal" None "2026-01-01T00:00:00Z" = Ok e /\
            event_from_mapping (U := unicode_sample) (D := pad_digest) (event_to_mapping e) = Ok e.
Proof.
  eexists. split; [vm_compute; reflexivity|].
  apply (proj1 (event_identity_binding (U := unicode_sample) (D := pad_digest))
    "ws" "g-1" None "1" "published" "c" "c" "internal" None "2026-01-01T00:00:00Z").
  vm_compute. reflexivity.
Defined.
