(* ===== verification/Policy.v ===== *)
(** * The policy engine (memory_core/policy.py)

    Capability tokens, the fail-closed order of the authorization checks, and the rules
    for provenance promotion and declassification. *)
From S2P Require Import Prelude.
Open Scope string_scope.

(** The enums' members; [.value] is the string each is written as. *)
Inductive Sensitivity : Type := PUBLIC | INTERNAL | PRIVATE | SECRET_DATA.
Inductive ProvenanceMode : Type :=
| EVIDENCE_BACKED | SELF_AUTHORED | SYSTEM_INFERRED | IMPORTED_UNVERIFIED.
Inductive PolicyReason : Type :=
| ALLOW | WORKSPACE_MISMATCH | CAPABILITY_MISSING | CAPABILITY_EXPIRED | SENSITIVITY_EXCEEDED
| PROVENANCE_PROMOTION_DENIED | DECLASSIFICATION_DENIED | INVALID_REQUEST.

#[export] Instance Sensitivity_eq_dec : EqDecision Sensitivity.
Proof. solve_decision. Defined.
#[export] Instance ProvenanceMode_eq_dec : EqDecision ProvenanceMode.
Proof. solve_decision. Defined.
#[export] Instance PolicyReason_eq_dec : EqDecision PolicyReason.
Proof. solve_decision. Defined.

Definition rank (s : Sensitivity) : nat :=
  match s with PUBLIC => 0 | INTERNAL => 1 | PRIVATE => 2 | SECRET_DATA => 3 end.

Definition sensitivity_value (s : Sensitivity) : string :=
  match s with
  | PUBLIC => "public" | INTERNAL => "internal" | PRIVATE => "private" | SECRET_DATA => "secret"
  end.

(** [Sensitivity(text)], which raises ValueError on any other text. *)
Definition sensitivity_of (text : string) : option Sensitivity :=
  list_find (fun s => sensitivity_value s = text) [PUBLIC; INTERNAL; PRIVATE; SECRET_DATA]
    ≫= fun p => Some p.2.

Definition reason_value (r : PolicyReason) : string :=
  match r with
  | ALLOW => "allow" | WORKSPACE_MISMATCH => "workspace_mismatch"
  | CAPABILITY_MISSING => "capability_missing" | CAPABILITY_EXPIRED => "capability_expired"
  | SENSITIVITY_EXCEEDED => "sensitivity_exceeded"
  | PROVENANCE_PROMOTION_DENIED => "provenance_promotion_denied"
  | DECLASSIFICATION_DENIED => "declassification_denied" | INVALID_REQUEST => "invalid_request"
  end.

Record CapabilityToken : Type := {
  token_id : string;
  token_workspace_id : string;
  token_actor_id : string;
  actions : list string;
  max_sensitivity : Sensitivity;
  expires_at : string;
}.

Record PolicyDecision : Type := { allowed : bool; reason : PolicyReason }.

Record PolicyRequest : Type := {
  request_workspace_id : string;
  request_actor_id : string;
  action : string;
  now : string;
  object_sensitivity : Sensitivity;
}.

Definition deny (r : PolicyReason) : PolicyDecision := {| allowed := false; reason := r |}.
Definition allow : PolicyDecision := {| allowed := true; reason := ALLOW |}.

Definition authorize (token : CapabilityToken) (request : PolicyRequest) : PolicyDecision :=
  if negb (String.eqb (token_workspace_id token) (request_workspace_id request))
     || negb (String.eqb (token_actor_id token) (request_actor_id request))
  then deny WORKSPACE_MISMATCH
  else if str_leb (expires_at token) (now request) then deny CAPABILITY_EXPIRED
  else if negb (str_mem (action request) (actions token)) then deny CAPABILITY_MISSING
  else if (rank (max_sensitivity token) <? rank (object_sensitivity request))%nat
  then deny SENSITIVITY_EXCEEDED
  else allow.

Definition authorize_provenance_transition (token : CapabilityToken) (request : PolicyRequest)
    (source target : ProvenanceMode) (evidence_refs : list string) : PolicyDecision :=
  let base := authorize token request in
  if negb (allowed base) then base
  else if bool_decide (source = target) then allow
  else if bool_decide (target = EVIDENCE_BACKED)
          && (negb (String.eqb (action request) "provenance.attest")
              || negb (existsb str_nonempty evidence_refs))
  then deny PROVENANCE_PROMOTION_DENIED
  else allow.

Definition authorize_declassification (token : CapabilityToken) (request : PolicyRequest)
    (source target : Sensitivity) (why : string) : PolicyDecision :=
  let base := authorize token request in
  if negb (allowed base) then base
  else if (rank source <=? rank target)%nat then allow
  else if negb (String.eqb (action request) "sensitivity.declassify")
          || negb (str_nonempty (py_strip why))
  then deny DECLASSIFICATION_DENIED
  else allow.

(** [max(values, key=...)]: the first of the greatest. *)
Definition derived_sensitivity (inputs : list Sensitivity) : Sensitivity :=
  match inputs with
  | [] => PUBLIC
  | x :: l => foldl (fun m y => if (rank m <? rank y)%nat then y else m) x l
  end.

(** ** The meaning of a grant *)

Record granted (token : CapabilityToken) (request : PolicyRequest) : Prop := {
  granted_workspace : token_workspace_id token = request_workspace_id request;
  granted_actor : token_actor_id token = request_actor_id request;
  granted_now : str_ltb (now request) (expires_at token) = true;
  granted_action : action request ∈ actions token;
  granted_rank : rank (object_sensitivity request) <= rank (max_sensitivity token);
}.

Lemma authorize_granted token request :
  allowed (authorize token request) = true <-> granted token request.
Proof.
  unfold authorize, str_ltb, str_leb.
  destruct (String.eqb_spec (token_workspace_id token) (request_workspace_id request)) as [Hw|Hw];
    [|split; [done | by intros []]].
  destruct (String.eqb_spec (token_actor_id token) (request_actor_id request)) as [Ha|Ha];
    [|split; [done | by intros []]]. cbn [negb orb].
  destruct (String.leb (expires_at token) (now request)) eqn:He; [split; [done|]|].
  { intros [_ _ H _ _]. unfold str_ltb in H. by rewrite He in H. }
  destruct (str_mem (action request) (actions token)) eqn:Hm; cbn [negb].
  2: { split; [done|]. intros [_ _ _ H _]. apply str_mem_spec in H. congruence. }
  apply str_mem_spec in Hm.
  destruct (Nat.ltb_spec (rank (max_sensitivity token)) (rank (object_sensitivity request))).
  - split; [done|]. intros [_ _ _ _ ?]. lia.
  - split; [|done]. intros _. constructor; try done. unfold str_ltb. by rewrite He.
Qed.

Lemma authorize_reason token request :
  allowed (authorize token request) = true <-> reason (authorize token request) = ALLOW.
Proof. unfold authorize. repeat case_match; done. Qed.

Lemma sensitivity_of_value s : sensitivity_of (sensitivity_value s) = Some s.
Proof. by destruct s. Qed.

Lemma sensitivity_of_ok text s : sensitivity_of text = Some s <-> text = sensitivity_value s.
Proof.
  split; [|by intros ->; apply sensitivity_of_value]. unfold sensitivity_of.
  destruct (list_find _ _) as [[i x]|] eqn:E; [|done]. cbn. intros [= ->].
  by apply list_find_Some in E as (_ & -> & _).
Qed.

Lemma rank_inj s t : rank s = rank t -> s = t.
Proof. by destruct s, t. Qed.

(** ** Claims *)

(** A request is allowed exactly when the capability is for its workspace and actor,
    has not expired, lists the action and covers the object's sensitivity; otherwise the
    reason reported is the first failing check in that order. *)
Theorem authorize_spec token request :
  (allowed (authorize token request) = true <-> granted token request) /\
  (reason (authorize token request) =
     if bool_decide (token_workspace_id token = request_workspace_id request /\
                     token_actor_id token = request_actor_id request)
     then if str_leb (expires_at token) (now request) then CAPABILITY_EXPIRED
          else if bool_decide (action request ∈ actions token)
               then if bool_decide (rank (object_sensitivity request) <= rank (max_sensitivity token))
                    then ALLOW else SENSITIVITY_EXCEEDED
               else CAPABILITY_MISSING
     else WORKSPACE_MISMATCH).
Proof.
  split; [apply authorize_granted|]. unfold authorize.
  destruct (String.eqb_spec (token_workspace_id token) (request_workspace_id request)),
    (String.eqb_spec (token_actor_id token) (request_actor_id request)); cbn [negb orb];
    [rewrite bool_decide_eq_true_2 by done | rewrite bool_decide_eq_false_2 by tauto ..]; try done.
  destruct (str_leb _ _); [done|]. destruct (str_mem _ _) eqn:Hm; cbn [negb].
  - rewrite bool_decide_eq_true_2 by by apply str_mem_spec.
    destruct (Nat.ltb_spec (rank (max_sensitivity token)) (rank (object_sensitivity request)));
      [rewrite bool_decide_eq_false_2 by lia | rewrite bool_decide_eq_true_2 by lia]; done.
  - rewrite bool_decide_eq_false_2; [done|]. intros Hin%str_mem_spec. congruence.
Qed.

(** No label is lowered and no claim promoted without its own authority.  An allowed
    change of sensitivity either does not lower the rank or is a granted
    [sensitivity.declassify] with a reason that is not blank; an allowed change of
    provenance into evidence-backed from another mode is a granted [provenance.attest]
    with some non-empty evidence reference. *)
Theorem label_changes_need_authority token request :
  (forall source target why,
     allowed (authorize_declassification token request source target why) = true <->
     granted token request /\
     (rank source <= rank target \/
      action request = "sensitivity.declassify" /\ py_strip why <> "")) /\
  (forall source target refs,
     allowed (authorize_provenance_transition token request source target refs) = true <->
     granted token request /\
     (source = target \/ target <> EVIDENCE_BACKED \/
      action request = "provenance.attest" /\ exists r, r ∈ refs /\ r <> "")).
Proof.
  split; intros source target x; rewrite <- authorize_granted.
  - unfold authorize_declassification. destruct (allowed (authorize token request)) eqn:Ha; cbn [negb].
    2: { rewrite Ha. split; [done | by intros [? _]]. }
    destruct (Nat.leb_spec (rank source) (rank target)) as [Hr|Hr]; [by (split; auto)|].
    destruct (String.eqb_spec (action request) "sensitivity.declassify") as [->|Hn]; cbn [negb orb].
    + unfold str_nonempty. destruct (String.eqb_spec (py_strip x) "") as [->|Hx]; cbn.
      * split; [done|]. intros [_ [?|[_ ?]]]; [lia | done].
      * split; [|done]. intros _. split; [done|]. by right.
    + split; [done|]. intros [_ [?|[? _]]]; [lia | done].
  - unfold authorize_provenance_transition.
    destruct (allowed (authorize token request)) eqn:Ha; cbn [negb].
    2: { rewrite Ha. split; [done | by intros [? _]]. }
    case_bool_decide as Hst; [by (split; auto)|]. case_bool_decide as Ht; cbn [andb]; [|by (split; auto)].
    assert (He : existsb str_nonempty x = true <-> exists r, r ∈ x /\ r <> "").
    { rewrite existsb_exists. setoid_rewrite <- list_elem_of_In. unfold str_nonempty.
      setoid_rewrite negb_true_iff. setoid_rewrite String.eqb_neq. done. }
    destruct (String.eqb_spec (action request) "provenance.attest") as [->|Hn]; cbn [negb orb].
    + destruct (existsb str_nonempty x) eqn:E; cbn.
      * split; [|done]. intros _. split; [done|]. right; right. split; [done|]. by apply He.
      * split; [done|]. intros [_ [?|[?|[_ H%He]]]]; done.
    + split; [done|]. intros [_ [?|[?|[? _]]]]; done.
Qed.

(** A value derived from several inputs gets the least sensitivity that covers them
    all: no input exceeds it, and it is one of them (public when there are none). *)
Theorem derived_sensitivity_max inputs :
  (forall s, s ∈ inputs -> rank s <= rank (derived_sensitivity inputs)) /\
  (forall t, (forall s, s ∈ inputs -> rank s <= rank t) -> rank (derived_sensitivity inputs) <= rank t) /\
  (inputs <> [] -> derived_sensitivity inputs ∈ inputs).
Proof.
  set (pick m y := if (rank m <? rank y)%nat then y else m).
  assert (Hf : forall l x, (forall s, s ∈ x :: l -> rank s <= rank (foldl pick x l)) /\
                      foldl pick x l ∈ x :: l).
  { induction l as [|y l IH]; intros x; cbn.
    - split; [|by left]. by intros s [->|[]%elem_of_nil]%elem_of_cons.
    - destruct (IH (pick x y)) as [H1 H2].
      assert (Hp : rank x <= rank (pick x y) /\ rank y <= rank (pick x y) /\ pick x y ∈ [x; y]).
      { unfold pick. destruct (Nat.ltb_spec (rank x) (rank y));
          repeat split; try lia; rewrite !elem_of_cons; auto. }
      destruct Hp as (Hx & Hy & Hxy). pose proof (H1 (pick x y) ltac:(by left)) as Hp. split.
      + intros s [->|[->|Hs]%elem_of_cons]%elem_of_cons; [lia | lia |]. apply H1. by right.
      + apply elem_of_cons in H2 as [H2|H2]; [rewrite H2|by rewrite !elem_of_cons; auto].
        rewrite !elem_of_cons in *. set_solver. }
  destruct inputs as [|x l]; cbn.
  - split; [by intros s ?%elem_of_nil | split; [lia | done]].
  - destruct (Hf l x) as [H1 H2]. split; [exact H1|]. split; [|intros _; exact H2].
    intros t Ht. by apply Ht.
Qed.

(** ** Evaluations *)

Definition sample_token : CapabilityToken :=
  {| token_id := "t"; token_workspace_id := "ws"; token_actor_id := "alice";
     actions := ["propose"; "search"]; max_sensitivity := INTERNAL; expires_at := "2027" |}.

Definition sample_request (act : string) (s : Sensitivity) : PolicyRequest :=
  {| request_workspace_id := "ws"; request_actor_id := "alice"; action := act; now := "2026";
     object_sensitivity := s |}.

Example authorize_sample :
  reason <$> [authorize sample_token (sample_request "propose" INTERNAL);
              authorize sample_token (sample_request "propose" PRIVATE);
              authorize sample_token (sample_request "publish" PUBLIC)]
  = [ALLOW; SENSITIVITY_EXCEEDED; CAPABILITY_MISSING].
Proof. reflexivity. Qed.
