(* ===== verification/CommandGateway.v ===== *)
(** * The command gateway (memory_core/command_gateway.py)

    The gateway's protocols are the class [CommandPorts] over a world the handler may
    change; its own state is the idempotency store.  [execute] holds the gateway's lock
    from its first line to its last, so executions follow one another. *)
From S2P Require Import Prelude Digest Json Canonical Contracts Policy.
Open Scope string_scope.

(** GenerationReader, CapabilityResolver and CommandHandler.  The two readers read; the
    handler acts on the world, and keeps what it did before an exception ([None]). *)
Class CommandPorts (W : Type) : Type := {
  current_generation_id : W -> string -> option string;
  resolve : W -> string -> string -> option CapabilityToken;
  handle : CommandEnvelope -> W -> W * option CoreResult;
}.

Record IdempotencyRecord : Type := { request_digest : string; record_result : CoreResult }.

(** InMemoryIdempotencyStore: a dict keyed by workspace and idempotency key. *)
Notation IdempotencyStore := (gmap (string * string) IdempotencyRecord).

Definition idem_get (records : IdempotencyStore) (ws key : string) : option IdempotencyRecord :=
  records !! (ws, key).
Definition idem_put (ws key : string) (r : IdempotencyRecord) (records : IdempotencyStore)
    : IdempotencyStore := <[(ws, key) := r]> records.

Definition _result (rid st : string) (gen : option string) (code : string) : CoreResult :=
  {| res_contract_version := CONTRACT_VERSION; request_id := rid; res_status := st;
     res_generation_id := gen; res_result := PDict []; error_code := Some code |}.

(** [Sensitivity(str(payload.get("sensitivity", "public")))]: the [str] of null, of a
    boolean, of a list or of a dict is the value of no sensitivity. *)
Definition payload_sensitivity (p : list (string * json)) : option Sensitivity :=
  match assoc "sensitivity" p with
  | None => Some PUBLIC
  | Some (JStr s) => sensitivity_of s
  | Some _ => None
  end.

Section Gateway.
Context {U : Unicode} {D : Digest} {W : Type} {P : CommandPorts W}.
Variable clock : string.

Record gateway : Type := { idempotency : IdempotencyStore; world : W }.

Definition command_request (c : CommandEnvelope) (s : Sensitivity) : PolicyRequest :=
  {| request_workspace_id := cmd_workspace_id c; request_actor_id := cmd_actor_id c;
     action := command_type c; now := clock; object_sensitivity := s |}.

Definition execute (command : CommandEnvelope) : st gateway core_error CoreResult := fun g =>
  match command_bytes command with
  | Err e => (g, Err e)
  | Ok bytes =>
      let digest := sha256_hex bytes in
      match idem_get (idempotency g) (cmd_workspace_id command) (idempotency_key command) with
      | Some existing =>
          if String.eqb (request_digest existing) digest
          then (g, Ok (record_result existing))
          else (g, Ok (_result (command_id command) "rejected" None "idempotency_payload_mismatch"))
      | None =>
          let current := current_generation_id (world g) (cmd_workspace_id command) in
          let answer st code := (g, Ok (_result (command_id command) st current code)) in
          if negb (bool_decide (expected_generation_id command = current))
          then answer "retry_later" "stale_generation"
          else
            match resolve (world g) (cmd_workspace_id command) (cmd_actor_id command) with
            | None => answer "rejected" "capability_missing"
            | Some token =>
                match payload_sensitivity (payload command) with
                | None => answer "rejected" "invalid_sensitivity"
                | Some sens =>
                    let decision := authorize token (command_request command sens) in
                    if negb (allowed decision)
                    then answer "rejected" (reason_value (reason decision))
                    else
                      match handle command (world g) with
                      | (w, None) =>
                          ({| idempotency := idempotency g; world := w |},
                           Ok (_result (command_id command) "retry_later" current
                                 "handler_unavailable"))
                      | (w, Some result) =>
                          let records :=
                            if String.eqb (res_status result) "retry_later" then idempotency g
                            else idem_put (cmd_workspace_id command) (idempotency_key command)
                                   {| request_digest := digest; record_result := result |}
                                   (idempotency g) in
                          ({| idempotency := records; world := w |}, Ok result)
                      end
                end
            end
      end
  end.

(** ** What an execution does *)

(** Everything the gateway demands before it runs the handler. *)
Record admitted (g : gateway) (c : CommandEnvelope) : Prop := {
  adm_fresh : idem_get (idempotency g) (cmd_workspace_id c) (idempotency_key c) = None;
  adm_current : expected_generation_id c = current_generation_id (world g) (cmd_workspace_id c);
  adm_granted : exists token sens,
    resolve (world g) (cmd_workspace_id c) (cmd_actor_id c) = Some token /\
    payload_sensitivity (payload c) = Some sens /\ granted token (command_request c sens);
}.

(** The effect of running the handler. *)
Definition handled (g : gateway) (c : CommandEnvelope) (bytes : string) : gateway * CoreResult :=
  match handle c (world g) with
  | (w, None) =>
      ({| idempotency := idempotency g; world := w |},
       _result (command_id c) "retry_later" (current_generation_id (world g) (cmd_workspace_id c))
         "handler_unavailable")
  | (w, Some r) =>
      ({| idempotency :=
            if String.eqb (res_status r) "retry_later" then idempotency g
            else idem_put (cmd_workspace_id c) (idempotency_key c)
                   {| request_digest := sha256_hex bytes; record_result := r |} (idempotency g);
          world := w |}, r)
  end.

Lemma execute_admitted g c bytes :
  command_bytes c = Ok bytes -> admitted g c ->
  execute c g = ((handled g c bytes).1, Ok (handled g c bytes).2).
Proof.
  intros Hb [Hf Hc (token & sens & Ht & Hs & Hg)]. unfold execute, handled.
  rewrite Hb, Hf, bool_decide_eq_true_2, Ht, Hs by done. cbn [negb].
  rewrite (proj2 (authorize_granted _ _) Hg). cbn [negb]. by destruct (handle c (world g)) as [w [r|]].
Qed.

Lemma execute_cases g c g' r :
  execute c g = (g', r) ->
  (g' = g /\ ~ admitted g c) \/ (g' = g /\ exists e, command_bytes c = Err e) \/
  (admitted g c /\ exists bytes, command_bytes c = Ok bytes /\ g' = (handled g c bytes).1 /\
                                 r = Ok (handled g c bytes).2).
Proof.
  unfold execute. destruct (command_bytes c) as [bytes|e] eqn:Hb.
  2: { intros [= <- <-]. right; left. split; [done | by exists e]. }
  destruct (idem_get _ _ _) eqn:Hf.
  { destruct (String.eqb _ _); intros [= <- <-]; left; (split; [done|]); intros [? _ _]; congruence. }
  case_bool_decide as Hc; cbn [negb].
  2: { intros [= <- <-]; left; split; [done|]. by intros [_ ? _]. }
  destruct (resolve _ _ _) as [token|] eqn:Ht.
  2: { intros [= <- <-]; left; split; [done|]. intros [_ _ (t & ? & ? & _)]. congruence. }
  destruct (payload_sensitivity _) as [sens|] eqn:Hs.
  2: { intros [= <- <-]; left; split; [done|]. intros [_ _ (t & s & _ & ? & _)]. congruence. }
  destruct (allowed _) eqn:Ha; cbn [negb].
  2: { intros [= <- <-]; left; split; [done|]. intros [_ _ (t & s & Ht' & Hs' & Hg)].
       apply authorize_granted in Hg. congruence. }
  apply authorize_granted in Ha. intros He. right; right.
  split; [constructor; [done | done | by exists token, sens]|]. exists bytes. split; [done|].
  unfold handled. destruct (handle c (world g)) as [w [res|]]; by injection He as <- <-.
Qed.

(** A recorded outcome is never replaced. *)
Lemma execute_keeps_records g c g' r ws key rec :
  execute c g = (g', r) -> idem_get (idempotency g) ws key = Some rec ->
  idem_get (idempotency g') ws key = Some rec.
Proof.
  intros [[-> _]|[[-> _]|([Hf _ _] & bytes & _ & -> & _)]]%execute_cases Hr; [done | done|].
  unfold handled. destruct (handle c (world g)) as [w [res|]]; cbn [fst idempotency]; [|done].
  destruct (String.eqb _ _); [done|]. unfold idem_get, idem_put in *.
  rewrite lookup_insert_ne; [done|]. intros [= <- <-]. congruence.
Qed.

(** A run of the gateway: its executions, in the order they took the lock. *)
Inductive run : gateway -> list CommandEnvelope -> gateway -> Prop :=
| run_nil g : run g [] g
| run_cons g c g1 r l g2 : execute c g = (g1, r) -> run g1 l g2 -> run g (c :: l) g2.

Lemma run_keeps_records g l g' ws key rec :
  run g l g' -> idem_get (idempotency g) ws key = Some rec ->
  idem_get (idempotency g') ws key = Some rec.
Proof. induction 1; eauto using execute_keeps_records. Qed.

Lemma execute_replay g c bytes rec :
  command_bytes c = Ok bytes ->
  idem_get (idempotency g) (cmd_workspace_id c) (idempotency_key c) = Some rec ->
  execute c g =
    (g, Ok (if String.eqb (request_digest rec) (sha256_hex bytes) then record_result rec
            else _result (command_id c) "rejected" None "idempotency_payload_mismatch")).
Proof. intros Hb Hr. unfold execute. rewrite Hb, Hr. by destruct (String.eqb _ _). Qed.
End Gateway.
Arguments gateway : clear implicits.

(** ** Claims *)
Section GatewayClaims.
Context {U : Unicode} {D : Digest} {W : Type} {P : CommandPorts W}.

(** The gateway changes nothing unless the command is admitted: its key is unused,
    its expected generation is the current one, and a resolved capability grants its type
    at the payload's sensitivity.  An admitted command runs the handler exactly once, on
    the current world, and its outcome is recorded unless it is to be retried. *)
Theorem execute_only_admitted clock (g : gateway W) c g' r :
  execute clock c g = (g', r) ->
  (g' = g \/ admitted clock g c) /\
  (admitted clock g c -> forall bytes, command_bytes c = Ok bytes ->
     world g' = (handle c (world g)).1 /\ r = Ok (handled g c bytes).2 /\
     idempotency g' =
       match (handle c (world g)).2 with
       | Some res =>
           if String.eqb (res_status res) "retry_later" then idempotency g
           else <[(cmd_workspace_id c, idempotency_key c) :=
                    {| request_digest := sha256_hex bytes; record_result := res |}]> (idempotency g)
       | None => idempotency g
       end).
Proof.
  intros He. split.
  - by apply execute_cases in He as [[-> _]|[[-> _]|[? _]]]; auto.
  - intros Ha bytes Hb. rewrite (execute_admitted _ _ _ _ Hb Ha) in He. injection He as <- <-.
    unfold handled. by destruct (handle c (world g)) as [w [res|]].
Qed.

(** C15: at most one effect per idempotency key.  Once an admitted command's outcome is
    final, then after any further run of the gateway every command of the same workspace
    and key is answered without running the handler and without a change of state: the
    same command gets the recorded result, and a different one is rejected, unless the bytes
    of the two commands collide. *)
Theorem execute_idempotent clock (g : gateway W) c g1 res bytes l g2 c' bytes' :
  command_bytes c = Ok bytes -> command_bytes c' = Ok bytes' ->
  admitted clock g c -> execute clock c g = (g1, Ok res) -> res_status res <> "retry_later" ->
  run clock g1 l g2 ->
  cmd_workspace_id c' = cmd_workspace_id c -> idempotency_key c' = idempotency_key c ->
  exists answer, execute clock c' g2 = (g2, Ok answer) /\
    (bytes' = bytes -> answer = res) /\
    (bytes' <> bytes ->
       answer = _result (command_id c') "rejected" None "idempotency_payload_mismatch" \/
       collision [bytes; bytes']).
Proof.
  intros Hb Hb' Ha He Hs Hr Hw Hk. rewrite (execute_admitted _ _ _ _ Hb Ha) in He.
  injection He as Hg1 Hres.
  assert (Hrec : idem_get (idempotency g1) (cmd_workspace_id c') (idempotency_key c') =
                 Some {| request_digest := sha256_hex bytes; record_result := res |}).
  { rewrite Hw, Hk, <- Hg1. unfold handled in *. destruct (handle c (world g)) as [w [r|]]; cbn [fst snd idempotency] in *.
    - subst r. destruct (String.eqb_spec (res_status res) "retry_later"); [done|].
      unfold idem_get, idem_put. apply lookup_insert_eq.
    - by subst res. }
  pose proof (run_keeps_records _ _ _ _ _ _ _ Hr Hrec) as Hrec2.
  eexists. split; [by apply execute_replay|]. cbn [request_digest record_result].
  split; [intros ->; by rewrite String.eqb_refl|]. intros Hne.
  destruct (String.eqb_spec (sha256_hex bytes) (sha256_hex bytes')) as [E|]; [right|by left].
  by apply sha256_hex_inj_or in E as [?|?].
Qed.
End GatewayClaims.

(** ** Evaluations: a handler that counts its runs *)

Definition counting_ports : CommandPorts nat :=
  {| current_generation_id := fun _ _ => None;
     resolve := fun _ ws actor => if String.eqb ws "ws" then Some sample_token else None;
     handle := fun c n => (S n, Some (_result (command_id c) "committed" None "none")) |}.

Definition sample_envelope (p : list (string * json)) : CommandEnvelope :=
  {| cmd_contract_version := CONTRACT_VERSION; command_id := "cmd-1"; idempotency_key := "k-1";
     cmd_workspace_id := "ws"; cmd_actor_id := "alice"; command_type := "propose";
     expected_generation_id := None; payload := p |}.

Definition start : gateway nat := {| idempotency := ∅; world := 0 |}.

Lemma start_admits p :
  payload_sensitivity p = Some PUBLIC ->
  admitted (W := nat) (P := counting_ports) "2026" start (sample_envelope p).
Proof.
  intros Hp. constructor; [reflexivity | reflexivity|]. exists sample_token, PUBLIC.
  split; [reflexivity|]. split; [exact Hp|]. apply authorize_granted. reflexivity.
Qed.

Lemma execute_only_admitted_witness :
  exists g' r,
    execute (U := unicode_sample) (D := pad_digest) (W := nat) (P := counting_ports) "2026"
      (sample_envelope []) start = (g', r) /\ world g' = 1.
Proof.
  eexists _, _. split; [reflexivity|].
  edestruct (execute_only_admitted (U := unicode_sample) (D := pad_digest) (W := nat)
    (P := counting_ports) "2026" start (sample_envelope [])) as [_ H]; [reflexivity|].
  apply (H (start_admits [] eq_refl) _ eq_refl).
Defined.

Definition counted : gateway nat :=
  (execute (U := unicode_sample) (D := pad_digest) (W := nat) (P := counting_ports) "2026"
     (sample_envelope []) start).1.
Definition bytes_of_command (c : CommandEnvelope) : string :=
  match command_bytes (U := unicode_sample) c with Ok b => b | Err _ => "" end.

Lemma execute_idempotent_witness :
  world counted = 1 /\
  exists answer,
    execute (U := unicode_sample) (D := pad_digest) (W := nat) (P := counting_ports) "2026"
      (sample_envelope [("x", JNull)]) counted = (counted, Ok answer).
Proof.
  split; [reflexivity|].
  destruct (execute_idempotent (U := unicode_sample) (D := pad_digest) (W := nat)
    (P := counting_ports) "2026" start (sample_envelope []) counted
    (_result "cmd-1" "committed" None "none") (bytes_of_command (sample_envelope []))
    [] counted (sample_envelope [("x", JNull)]) (bytes_of_command (sample_envelope [("x", JNull)]))
    eq_refl eq_refl (start_admits [] eq_refl) eq_refl ltac:(discriminate) (run_nil _ _) eq_refl eq_refl)
    as (answer & H & _).
  exists answer. exact H.
Defined.
