(* ===== verification/QueryGateway.v ===== *)
(** * The query gateway (memory_core/query_gateway.py)

    The backend, the capability resolver and the object state reader are the class
    [QueryPorts]; a query reads only, and filters what the backend returned. *)
From S2P Require Import Prelude Json Canonical Contracts Policy.
Open Scope string_scope.

Record MemoryRecord : Type := {
  object_id : string;
  record_workspace_id : string;
  record_sensitivity : Sensitivity;
  lifecycle_status : string;
  data : list (string * json);
}.

Record QueryBatch : Type := { batch_generation_id : string; records : list MemoryRecord }.

(** QueryBackend ([None] is an exception), QueryCapabilityResolver, ObjectStateReader. *)
Class QueryPorts : Type := {
  read : QueryEnvelope -> bool -> option QueryBatch;
  query_resolve : string -> string -> option CapabilityToken;
  lifecycle_status_at : string -> string -> string -> option string;
}.

Definition query_result (rid st : string) (gen : string) (r : pyval) (code : option string)
    : CoreResult :=
  {| res_contract_version := CONTRACT_VERSION; request_id := rid; res_status := st;
     res_generation_id := Some gen; res_result := r; error_code := code |}.

Section Query.
Context {P : QueryPorts}.
Variable clock : string.

Definition record_request (q : QueryEnvelope) (r : MemoryRecord) : PolicyRequest :=
  {| request_workspace_id := qry_workspace_id q; request_actor_id := qry_actor_id q;
     action := query_type q; now := clock; object_sensitivity := record_sensitivity r |}.

(** The loop over the batch: the records that pass every filter, with their state. *)
Fixpoint visible_records (token : CapabilityToken) (q : QueryEnvelope) (l : list MemoryRecord)
    : list (MemoryRecord * string) :=
  match l with
  | [] => []
  | r :: l =>
      if negb (String.eqb (record_workspace_id r) (qry_workspace_id q))
      then visible_records token q l
      else
        match lifecycle_status_at (qry_workspace_id q) (object_id r) (as_of_generation_id q) with
        | Some current_state =>
            if negb (str_mem current_state ["active"; "accepted"]) then visible_records token q l
            else if negb (allowed (authorize token (record_request q r)))
            then visible_records token q l
            else (r, current_state) :: visible_records token q l
        | None => visible_records token q l
        end
  end.

Definition visible_entry (v : MemoryRecord * string) : pyval :=
  py_record [("object_id", PStr (object_id v.1));
             ("sensitivity", PStr (sensitivity_value (record_sensitivity v.1)));
             ("lifecycle_status", PStr v.2);
             ("data", of_json (JObj (data v.1)))].

Definition query (q : QueryEnvelope) : CoreResult :=
  match query_resolve (qry_workspace_id q) (qry_actor_id q) with
  | None =>
      query_result (query_id q) "rejected" (as_of_generation_id q) (PDict [])
        (Some "capability_missing")
  | Some token =>
      let use_projection := String.eqb (consistency q) "projection_ok" in
      match read q use_projection with
      | None =>
          query_result (query_id q) "retry_later" (as_of_generation_id q) (PDict [])
            (Some "query_backend_unavailable")
      | Some batch =>
          let stale := negb (String.eqb (batch_generation_id batch) (as_of_generation_id q)) in
          if stale && negb use_projection
          then query_result (query_id q) "retry_later" (as_of_generation_id q) (PDict [])
                 (Some "authoritative_generation_mismatch")
          else query_result (query_id q) "ok" (as_of_generation_id q)
                 (py_record
                    [("records", PList (map visible_entry (visible_records token q (records batch))));
                     ("stale", PBool stale);
                     ("source_generation_id", PStr (batch_generation_id batch));
                     ("as_of_generation_id", PStr (as_of_generation_id q))]) None
      end
  end.

(** ** Visibility *)

(** What a record must satisfy to be shown, whatever the backend returned. *)
Record may_see (token : CapabilityToken) (q : QueryEnvelope) (r : MemoryRecord) (s : string)
    : Prop := {
  see_workspace : record_workspace_id r = qry_workspace_id q;
  see_state : lifecycle_status_at (qry_workspace_id q) (object_id r) (as_of_generation_id q) = Some s;
  see_live : s ∈ ["active"; "accepted"];
  see_granted : granted token (record_request q r);
}.

Lemma visible_records_spec token q l r s :
  (r, s) ∈ visible_records token q l <-> r ∈ l /\ may_see token q r s.
Proof.
  assert (Hskip : forall r0 l, (forall s, ~ may_see token q r0 s) ->
            (r, s) ∈ visible_records token q l <-> r ∈ l /\ may_see token q r s ->
            (r, s) ∈ visible_records token q l <-> r ∈ r0 :: l /\ may_see token q r s).
  { intros r0 l' Hn ->. rewrite elem_of_cons. split; [by intros [? ?]; auto|].
    intros [[->|?] Hm]; [by destruct (Hn _ Hm) | done]. }
  induction l as [|r0 l IH]; cbn [visible_records].
  { split; [by intros ?%elem_of_nil | by intros [?%elem_of_nil _]]. }
  destruct (String.eqb_spec (record_workspace_id r0) (qry_workspace_id q)) as [Hw|Hw]; cbn [negb].
  2: { apply Hskip; [|done]. by intros ? []. }
  destruct (lifecycle_status_at _ _ _) as [cur|] eqn:Hc.
  2: { apply Hskip; [|done]. intros ? []. congruence. }
  destruct (str_mem cur _) eqn:Hm; cbn [negb].
  2: { apply Hskip; [|done]. intros s' [_ Hs' Hl _]. apply str_mem_spec in Hl. congruence. }
  destruct (allowed _) eqn:Ha; cbn [negb].
  2: { apply Hskip; [|done]. intros s' [_ _ _ Hg]. apply authorize_granted in Hg. congruence. }
  rewrite !elem_of_cons, IH. apply authorize_granted in Ha. apply str_mem_spec in Hm. split.
  - intros [[= -> ->]|[? ?]]; [split; [by left | by constructor] | by auto].
  - intros [[->|?] Hs]; [left | by auto]. destruct Hs as [_ Hs _ _]. congruence.
Qed.

Lemma visible_records_sublist token q l : (visible_records token q l).*1 `sublist_of` l.
Proof.
  induction l as [|r l IH]; cbn [visible_records]; [constructor|].
  repeat case_match; cbn; by constructor.
Qed.

Definition answerable (q : QueryEnvelope) (token : CapabilityToken) (batch : QueryBatch) : Prop :=
  query_resolve (qry_workspace_id q) (qry_actor_id q) = Some token /\
  read q (String.eqb (consistency q) "projection_ok") = Some batch /\
  (batch_generation_id batch = as_of_generation_id q \/ consistency q = "projection_ok").

Definition answer_body (q : QueryEnvelope) (token : CapabilityToken) (batch : QueryBatch) : pyval :=
  py_record
    [("records", PList (map visible_entry (visible_records token q (records batch))));
     ("stale", PBool (bool_decide (batch_generation_id batch <> as_of_generation_id q)));
     ("source_generation_id", PStr (batch_generation_id batch));
     ("as_of_generation_id", PStr (as_of_generation_id q))].

Lemma query_cases q :
  (exists token batch, answerable q token batch /\
     query q = query_result (query_id q) "ok" (as_of_generation_id q) (answer_body q token batch) None) \/
  ((forall token batch, ~ answerable q token batch) /\
   res_status (query q) <> "ok" /\ res_result (query q) = PDict []).
Proof.
  unfold query, answerable, answer_body. destruct (query_resolve _ _) as [token|].
  2: { right. split; [by intros ?? [? _] | done]. }
  destruct (read q _) as [batch|].
  2: { right. split; [by intros ?? [_ [? _]] | done]. }
  destruct (String.eqb_spec (batch_generation_id batch) (as_of_generation_id q)) as [Hb|Hb].
  { left. exists token, batch. rewrite bool_decide_eq_false_2 by (intros ?; done). by auto. }
  destruct (String.eqb_spec (consistency q) "projection_ok") as [Hc|Hc]; cbn [negb andb].
  - left. exists token, batch. rewrite bool_decide_eq_true_2 by done. by auto.
  - right. split; [|done]. intros t b (_ & [= <-] & [?|?]); done.
Qed.
End Query.

(** ** Claims *)
Section QueryClaims.
Context {P : QueryPorts}.

(** C16: a query answers "ok" exactly when a capability resolves, the backend answers, and
    the batch is of the pinned generation or the query accepts projections; the answer
    then says truthfully whether the batch was stale, and lists, in the batch's order,
    exactly the records of the query's workspace whose current state is active or
    accepted and that the capability covers.  Anything else returns no record. *)
Theorem query_shows_only_authorized clock q :
  (res_status (query clock q) = "ok" <-> exists token batch, answerable q token batch) /\
  (forall token batch, answerable q token batch ->
     exists shown,
       shown.*1 `sublist_of` records batch /\
       (forall r s, (r, s) ∈ shown <-> r ∈ records batch /\ may_see clock token q r s) /\
       res_result (query clock q) =
         py_record [("records", PList (map visible_entry shown));
                    ("stale", PBool (bool_decide (batch_generation_id batch <> as_of_generation_id q)));
                    ("source_generation_id", PStr (batch_generation_id batch));
                    ("as_of_generation_id", PStr (as_of_generation_id q))]) /\
  (res_status (query clock q) <> "ok" -> res_result (query clock q) = PDict []).
Proof.
  destruct (query_cases clock q) as [(token & batch & Ha & ->)|(Hn & Hs & Hr)].
  - split; [split; [intros _; by exists token, batch | done]|]. split; [|done].
    intros token' batch' Ha'.
    assert (token' = token /\ batch' = batch) as [-> ->].
    { destruct Ha as (H1 & H2 & _), Ha' as (H1' & H2' & _). split; congruence. }
    exists (visible_records clock token q (records batch)).
    split; [apply visible_records_sublist|]. split; [apply visible_records_spec | done].
  - split; [split; [done | by intros (t & b & ?%Hn)]|]. split; [by intros t b ?%Hn | done].
Qed.
End QueryClaims.

(** ** Evaluations *)

Definition sample_record (i ws : string) (s : Sensitivity) : MemoryRecord :=
  {| object_id := i; record_workspace_id := ws; record_sensitivity := s;
     lifecycle_status := "active"; data := [] |}.

Definition sample_ports : QueryPorts :=
  {| read := fun _ _ => Some {| batch_generation_id := "g1";
       records := [sample_record "a" "ws" PUBLIC; sample_record "b" "other" PUBLIC;
                   sample_record "c" "ws" SECRET_DATA; sample_record "d" "ws" INTERNAL] |};
     query_resolve := fun _ _ => Some sample_token;
     lifecycle_status_at := fun _ o _ => if String.eqb o "d" then Some "retracted" else Some "active" |}.

Definition sample_query : QueryEnvelope :=
  {| qry_contract_version := CONTRACT_VERSION; query_id := "q"; qry_workspace_id := "ws";
     qry_actor_id := "alice"; query_type := "search"; as_of_generation_id := "g1";
     consistency := "authoritative"; parameters := [] |}.

Example sample_visible :
  res_result (query (P := sample_ports) "2026" sample_query) =
  py_record [("records", PList [visible_entry (sample_record "a" "ws" PUBLIC, "active")]);
             ("stale", PBool false); ("source_generation_id", PStr "g1");
             ("as_of_generation_id", PStr "g1")].
Proof. reflexivity. Qed.

Lemma query_shows_only_authorized_witness :
  exists shown, res_result (query (P := sample_ports) "2026" sample_query) =
    py_record [("records", PList (map visible_entry shown)); ("stale", PBool false);
               ("source_generation_id", PStr "g1"); ("as_of_generation_id", PStr "g1")].
Proof.
  destruct (proj1 (proj2 (query_shows_only_authorized (P := sample_ports) "2026" sample_query))
    sample_token {| batch_generation_id := "g1";
       records := [sample_record "a" "ws" PUBLIC; sample_record "b" "other" PUBLIC;
                   sample_record "c" "ws" SECRET_DATA; sample_record "d" "ws" INTERNAL] |})
    as (shown & _ & _ & H).
  - split; [reflexivity|]. split; [reflexivity|]. left; reflexivity.
  - exists shown. exact H.
Defined.
