(* ===== verification/Events.v ===== *)
(** * Operational events (memory_core/events.py)

    The consumer store as an interface with its laws, the in-memory store that implements
    it, the consumer and the replay coordinator.  The store's methods hold its lock; the
    consumer's do not, so [consume] runs with an arbitrary interference of other threads
    before each of its store calls. *)
From stdpp Require Import relations.
From S2P Require Import Prelude Digest Json Canonical Contracts.
Open Scope string_scope.

(** ** Data *)

Record OutboxEventRecord : Type := {
  ob_workspace_id : string;
  ob_generation_id : string;
  ob_parent_generation_id : option string;
  ob_generation_seq : string;
  ob_event_type : string;
  ob_causation_id : string;
  ob_correlation_id : string;
  ob_sensitivity : string;
  ob_payload_ref : option string;
  ob_emitted_at : string;
}.

Record ConsumerEffect : Type := { effect_digest : string; result_ref : option string }.

Record EventCheckpoint : Type := {
  cp_workspace_id : string;
  cp_consumer_id : string;
  cp_generation_seq : string;
  cp_generation_id : string;
  last_event_id : string;
}.

#[export] Instance EventCheckpoint_eq_dec : EqDecision EventCheckpoint.
Proof. solve_decision. Defined.

Record EventConsumeResult : Type := {
  ecr_status : string;
  ecr_event_id : string;
  ecr_checkpoint : option EventCheckpoint;
  ecr_attempts : string;
  ecr_error_code : option string;
}.

(** ValueError, or the error of a contract. *)
Inductive event_error : Type := EventValueError | EventContract (e : core_error).

Section Factory.
Context {U : Unicode} {D : Digest}.

Definition from_outbox (r : OutboxEventRecord) : result core_error OperationalEvent :=
  event_create (ob_workspace_id r) (ob_generation_id r) (ob_parent_generation_id r)
    (ob_generation_seq r) (ob_event_type r) (ob_causation_id r) (ob_correlation_id r)
    (ob_sensitivity r) (ob_payload_ref r) (ob_emitted_at r).

(** [ConsumerEffect.create]; the metadata dict defaults to the empty one. *)
Definition effect_create (effect_type : string) (ref : option string) (metadata : pyval)
    : result event_error ConsumerEffect :=
  _ ← ensure (str_nonempty effect_type) EventValueError;
  match canonical_bytes (py_record [("effect_type", PStr effect_type);
                                    ("result_ref", py_opt ref); ("metadata", metadata)]) with
  | Ok b => Ok {| effect_digest := sha256_hex b; result_ref := ref |}
  | Err e => Err (EventContract e)
  end.
End Factory.

(** [int(s)]: events and checkpoints hold canonical non-negative integer strings. *)
Definition py_int (s : string) : N := default 0%N (int_of_str s).
Definition seq_of (e : OperationalEvent) : N := py_int (generation_seq e).

Definition expected_sequence (cp : option EventCheckpoint) : N :=
  match cp with None => 1 | Some c => py_int (cp_generation_seq c) + 1 end.
Definition expected_parent (cp : option EventCheckpoint) : option string :=
  cp_generation_id <$> cp.

Definition _next_checkpoint (consumer : string) (e : OperationalEvent) : EventCheckpoint :=
  {| cp_workspace_id := workspace_id e; cp_consumer_id := consumer;
     cp_generation_seq := generation_seq e; cp_generation_id := generation_id e;
     last_event_id := event_id e |}.

Definition key : Type := string * string * string.
Definition _event_key (ws consumer id : string) : key := (ws, consumer, id).
Definition event_key (consumer : string) (e : OperationalEvent) : key :=
  _event_key (workspace_id e) consumer (event_id e).
Definition _checkpoint_key (ws consumer : string) : string * string := (ws, consumer).
Definition checkpoint_key (consumer : string) (e : OperationalEvent) : string * string :=
  _checkpoint_key (workspace_id e) consumer.

(** ** The store's interface: its methods, and what each does to what can be observed *)

Class EventConsumerStore (S : Type) : Type := {
  seen : S -> key -> bool;
  checkpoint : S -> string * string -> option EventCheckpoint;
  effect : S -> key -> option ConsumerEffect;
  dead_letter : S -> key -> option string;
  failures : S -> key -> nat;
  record_failure : key -> S -> S * nat;
  commit : string -> OperationalEvent -> ConsumerEffect -> option EventCheckpoint -> S -> S * bool;
  acknowledge_stale : string -> OperationalEvent -> S -> S;
  dead_letter_and_advance :
    string -> OperationalEvent -> option EventCheckpoint -> string -> S -> S * bool;
}.

Definition upd {K A} `{EqDecision K} (f : K -> A) (k : K) (a : A) (k' : K) : A :=
  if decide (k' = k) then a else f k'.

(** What can be observed of a store. *)
Record view : Type := {
  v_seen : key -> bool;
  v_checkpoint : string * string -> option EventCheckpoint;
  v_effect : key -> option ConsumerEffect;
  v_dead : key -> option string;
  v_failures : key -> nat;
}.

Definition observe {S} `{EventConsumerStore S} (s : S) : view :=
  {| v_seen := seen s; v_checkpoint := checkpoint s; v_effect := effect s;
     v_dead := dead_letter s; v_failures := failures s |}.

(** Views equal at every key. *)
#[export] Instance view_equiv : Equiv view := fun v w =>
  (forall k, v_seen v k = v_seen w k) /\ (forall k, v_checkpoint v k = v_checkpoint w k) /\
  (forall k, v_effect v k = v_effect w k) /\ (forall k, v_dead v k = v_dead w k) /\
  (forall k, v_failures v k = v_failures w k).

#[export] Instance view_equivalence : Equivalence (≡@{view}).
Proof.
  split.
  - intros v. by repeat split.
  - intros v w (H1 & H2 & H3 & H4 & H5). by repeat split; intros k; symmetry.
  - intros u v w (H1 & H2 & H3 & H4 & H5) (G1 & G2 & G3 & G4 & G5).
    repeat split; intros k; [by rewrite H1 | by rewrite H2 | by rewrite H3 | by rewrite H4 | by rewrite H5].
Qed.

(** The atomic transitions of the specification. *)
Definition spec_failure (k : key) (v : view) : view :=
  {| v_seen := v_seen v; v_checkpoint := v_checkpoint v; v_effect := v_effect v;
     v_dead := v_dead v; v_failures := upd (v_failures v) k (S (v_failures v k)) |}.
Definition spec_stale (consumer : string) (e : OperationalEvent) (v : view) : view :=
  {| v_seen := upd (v_seen v) (event_key consumer e) true; v_checkpoint := v_checkpoint v;
     v_effect := v_effect v; v_dead := v_dead v; v_failures := v_failures v |}.
Definition spec_commit (consumer : string) (e : OperationalEvent) (f : ConsumerEffect) (v : view)
    : view :=
  {| v_seen := upd (v_seen v) (event_key consumer e) true;
     v_checkpoint := upd (v_checkpoint v) (checkpoint_key consumer e)
                         (Some (_next_checkpoint consumer e));
     v_effect := upd (v_effect v) (event_key consumer e) (Some f);
     v_dead := v_dead v; v_failures := upd (v_failures v) (event_key consumer e) 0 |}.
Definition spec_dead (consumer : string) (e : OperationalEvent) (code : string) (v : view) : view :=
  {| v_seen := upd (v_seen v) (event_key consumer e) true;
     v_checkpoint := upd (v_checkpoint v) (checkpoint_key consumer e)
                         (Some (_next_checkpoint consumer e));
     v_effect := v_effect v; v_dead := upd (v_dead v) (event_key consumer e) (Some code);
     v_failures := v_failures v |}.

Lemma upd_ext {K A} `{EqDecision K} (f g : K -> A) k a k' :
  (forall k, f k = g k) -> upd f k a k' = upd g k a k'.
Proof. intros E. unfold upd. by rewrite E. Qed.

(** Closes an equivalence of views from the equivalences of its parts. *)
Ltac view_ext :=
  intros v w (E1 & E2 & E3 & E4 & E5); repeat split; intros k'; cbn;
  rewrite ?E1, ?E2, ?E3, ?E4, ?E5; auto using upd_ext.

#[export] Instance spec_failure_proper k : Proper ((≡) ==> (≡)) (spec_failure k).
Proof. view_ext. Qed.
#[export] Instance spec_stale_proper c e : Proper ((≡) ==> (≡)) (spec_stale c e).
Proof. view_ext. Qed.
#[export] Instance spec_commit_proper c e f : Proper ((≡) ==> (≡)) (spec_commit c e f).
Proof. view_ext. Qed.
#[export] Instance spec_dead_proper c e code : Proper ((≡) ==> (≡)) (spec_dead c e code).
Proof. view_ext. Qed.

(** The laws: each method implements its transition, and the compare-and-set methods do
    nothing when the expected checkpoint is not the current one. *)
Class EventStoreLaws (S : Type) `{EventConsumerStore S} : Prop := {
  record_failure_law : forall k s,
    (record_failure k s).2 = Datatypes.S (failures s k) /\
    observe (record_failure k s).1 ≡ spec_failure k (observe s);
  acknowledge_law : forall c e s, observe (acknowledge_stale c e s) ≡ spec_stale c e (observe s);
  commit_law : forall c e f x s,
    if seen s (event_key c e) then commit c e f x s = (s, true)
    else if decide (checkpoint s (checkpoint_key c e) = x)
    then (commit c e f x s).2 = true /\ observe (commit c e f x s).1 ≡ spec_commit c e f (observe s)
    else commit c e f x s = (s, false);
  dead_letter_law : forall c e x code s,
    if decide (checkpoint s (checkpoint_key c e) = x)
    then (dead_letter_and_advance c e x code s).2 = true /\
         observe (dead_letter_and_advance c e x code s).1 ≡ spec_dead c e code (observe s)
    else dead_letter_and_advance c e x code s = (s, false);
}.

(** ** InMemoryEventConsumerStore *)

Record InMemoryEventConsumerStore : Type := {
  _seen : gset key;
  _checkpoints : gmap (string * string) EventCheckpoint;
  _failures : gmap key nat;
  _effects : gmap key ConsumerEffect;
  _dead_letters : gmap key string;
}.

Definition empty_store : InMemoryEventConsumerStore :=
  {| _seen := ∅; _checkpoints := ∅; _failures := ∅; _effects := ∅; _dead_letters := ∅ |}.

Definition mem_seen (s : InMemoryEventConsumerStore) (k : key) : bool := bool_decide (k ∈ _seen s).
Definition mem_checkpoint (s : InMemoryEventConsumerStore) (k : string * string)
    : option EventCheckpoint := _checkpoints s !! k.
Definition mem_effect (s : InMemoryEventConsumerStore) (k : key) : option ConsumerEffect :=
  _effects s !! k.
Definition mem_dead_letter (s : InMemoryEventConsumerStore) (k : key) : option string :=
  _dead_letters s !! k.

Definition mem_record_failure (k : key) (s : InMemoryEventConsumerStore)
    : InMemoryEventConsumerStore * nat :=
  let value := default 0 (_failures s !! k) + 1 in
  ({| _seen := _seen s; _checkpoints := _checkpoints s; _failures := <[k := value]> (_failures s);
      _effects := _effects s; _dead_letters := _dead_letters s |}, value).

Definition mem_commit (consumer : string) (e : OperationalEvent) (f : ConsumerEffect)
    (expected : option EventCheckpoint) (s : InMemoryEventConsumerStore)
    : InMemoryEventConsumerStore * bool :=
  let ek := event_key consumer e in
  let ck := checkpoint_key consumer e in
  if bool_decide (ek ∈ _seen s) then (s, true)
  else if negb (bool_decide (_checkpoints s !! ck = expected)) then (s, false)
  else ({| _seen := {[ek]} ∪ _seen s;
           _checkpoints := <[ck := _next_checkpoint consumer e]> (_checkpoints s);
           _failures := delete ek (_failures s);
           _effects := <[ek := f]> (_effects s);
           _dead_letters := _dead_letters s |}, true).

Definition mem_acknowledge_stale (consumer : string) (e : OperationalEvent)
    (s : InMemoryEventConsumerStore) : InMemoryEventConsumerStore :=
  {| _seen := {[event_key consumer e]} ∪ _seen s; _checkpoints := _checkpoints s;
     _failures := _failures s; _effects := _effects s; _dead_letters := _dead_letters s |}.

Definition mem_dead_letter_and_advance (consumer : string) (e : OperationalEvent)
    (expected : option EventCheckpoint) (code : string) (s : InMemoryEventConsumerStore)
    : InMemoryEventConsumerStore * bool :=
  let ek := event_key consumer e in
  let ck := checkpoint_key consumer e in
  if negb (bool_decide (_checkpoints s !! ck = expected)) then (s, false)
  else ({| _seen := {[ek]} ∪ _seen s;
           _checkpoints := <[ck := _next_checkpoint consumer e]> (_checkpoints s);
           _failures := _failures s; _effects := _effects s;
           _dead_letters := <[ek := code]> (_dead_letters s) |}, true).

#[export] Instance in_memory_store : EventConsumerStore InMemoryEventConsumerStore := {|
  seen := mem_seen; checkpoint := mem_checkpoint; effect := mem_effect;
  dead_letter := mem_dead_letter; failures := fun s k => default 0 (_failures s !! k);
  record_failure := mem_record_failure; commit := mem_commit;
  acknowledge_stale := mem_acknowledge_stale;
  dead_letter_and_advance := mem_dead_letter_and_advance;
|}.

#[export] Instance in_memory_laws : EventStoreLaws InMemoryEventConsumerStore.
Proof.
  split.
  - intros k s. cbn. split; [lia|]. repeat split; try done. intros k'. cbn. unfold upd.
    destruct (decide (k' = k)) as [->|]; [rewrite lookup_insert_eq; cbn; lia|].
    by rewrite lookup_insert_ne.
  - intros c e s. repeat split; try done. intros k. cbn. unfold mem_seen, upd; cbn.
    destruct (decide (k = event_key c e)) as [->|]; [by rewrite bool_decide_eq_true_2 by set_solver|].
    apply bool_decide_ext. set_solver.
  - intros c e f x s. cbn [seen checkpoint commit in_memory_store]. unfold mem_seen, mem_commit.
    case_bool_decide as Hs; [done|]. unfold mem_checkpoint.
    destruct (decide (_checkpoints s !! checkpoint_key c e = x)) as [Hx|Hx];
      [rewrite bool_decide_eq_true_2 by done | by rewrite bool_decide_eq_false_2 by done].
    cbn. split; [done|]. repeat split; intros k; cbn; unfold upd, mem_seen, mem_checkpoint, mem_effect; cbn.
    + destruct (decide (k = event_key c e)) as [->|]; [by rewrite bool_decide_eq_true_2 by set_solver|].
      apply bool_decide_ext. set_solver.
    + destruct (decide (k = _)) as [->|]; [apply lookup_insert_eq | by apply lookup_insert_ne].
    + destruct (decide (k = _)) as [->|]; [apply lookup_insert_eq | by apply lookup_insert_ne].
    + destruct (decide (k = _)) as [->|]; [by rewrite lookup_delete_eq | by rewrite lookup_delete_ne].
  - intros c e x code s. cbn [checkpoint dead_letter_and_advance in_memory_store]. unfold mem_dead_letter_and_advance, mem_checkpoint.
    destruct (decide (_checkpoints s !! checkpoint_key c e = x)) as [Hx|Hx];
      [rewrite bool_decide_eq_true_2 by done | by rewrite bool_decide_eq_false_2 by done].
    cbn. split; [done|]. repeat split; intros k; cbn;
      unfold upd, mem_seen, mem_checkpoint, mem_dead_letter; cbn; try done.
    + destruct (decide (k = event_key c e)) as [->|]; [by rewrite bool_decide_eq_true_2 by set_solver|].
      apply bool_decide_ext. set_solver.
    + destruct (decide (k = _)) as [->|]; [apply lookup_insert_eq | by apply lookup_insert_ne].
    + destruct (decide (k = _)) as [->|]; [apply lookup_insert_eq | by apply lookup_insert_ne].
Qed.

(** ** OperationalEventConsumer *)

(** EventHandler: [prepare] acts on the handler's world and may raise ([None]). *)
Class EventHandler (W : Type) : Type :=
  prepare : OperationalEvent -> W -> W * option ConsumerEffect.

Section Consumer.
Context {S W : Type} `{EventConsumerStore S} `{EventHandler W}.

Record OperationalEventConsumer : Type := { consumer_id : string; max_attempts : nat }.

Definition consumer_new (cid : string) (attempts : nat) : result event_error OperationalEventConsumer :=
  _ ← ensure (str_nonempty cid && (1 <=? attempts)%nat) EventValueError;
  Ok {| consumer_id := cid; max_attempts := attempts |}.

(** What the other threads do to the store before this consumer's [n]-th call of it. *)
Variable others : nat -> S -> S.

Definition answer (st : string) (e : OperationalEvent) (cp : option EventCheckpoint) (tries : string)
    (code : option string) : EventConsumeResult :=
  {| ecr_status := st; ecr_event_id := event_id e; ecr_checkpoint := cp; ecr_attempts := tries;
     ecr_error_code := code |}.

Definition consume (self : OperationalEventConsumer) (e : OperationalEvent) (s : S) (w : W)
    : (S * W) * EventConsumeResult :=
  let cid := consumer_id self in
  let ck := checkpoint_key cid e in
  let s := others 0 s in
  if seen s (event_key cid e)
  then
    let s := others 1 s in
    ((s, w), answer "duplicate" e (checkpoint s ck) "0" None)
  else
    let s := others 1 s in
    let cp := checkpoint s ck in
    if (seq_of e <? expected_sequence cp)%N
    then
      let s := acknowledge_stale cid e (others 2 s) in
      ((s, w), answer "ignored_stale" e cp "0" (Some "event_out_of_order"))
    else if (expected_sequence cp <? seq_of e)%N
    then ((s, w), answer "retry_later" e cp "0" (Some "event_sequence_gap"))
    else if negb (bool_decide (parent_generation_id e = expected_parent cp))
    then ((s, w), answer "retry_later" e cp "0" (Some "event_parent_mismatch"))
    else
      match prepare e w with
      | (w, None) =>
          let '(s, attempts) := record_failure (event_key cid e) (others 2 s) in
          if (attempts <? max_attempts self)%nat
          then ((s, w), answer "retry_later" e cp (str_of_nat attempts) (Some "event_handler_failed"))
          else
            let '(s, ok) := dead_letter_and_advance cid e cp "event_handler_failed" (others 3 s) in
            let s := others 4 s in
            if ok
            then ((s, w), answer "dead_lettered" e (checkpoint s ck) (str_of_nat attempts)
                            (Some "event_handler_failed"))
            else ((s, w), answer "retry_later" e (checkpoint s ck) (str_of_nat attempts)
                            (Some "event_checkpoint_conflict"))
      | (w, Some f) =>
          let '(s, ok) := commit cid e f cp (others 2 s) in
          let s := others 3 s in
          if ok
          then ((s, w), answer "processed" e (checkpoint s ck) "1" None)
          else ((s, w), answer "retry_later" e (checkpoint s ck) "0" (Some "event_checkpoint_conflict"))
      end.
End Consumer.

(** ** InMemoryEventLog and EventReplayCoordinator *)

Definition event_leb (a b : OperationalEvent) : bool :=
  if (seq_of a =? seq_of b)%N then str_leb (event_id a) (event_id b) else (seq_of a <? seq_of b)%N.

Definition log_append (e : OperationalEvent) (events : list OperationalEvent) : list OperationalEvent :=
  (events ++ [e])%list.

Definition events_after (events : list OperationalEvent) (ws : string) (generation_seq : string)
    : list OperationalEvent :=
  let floor := py_int generation_seq in
  py_sort event_leb
    (List.filter (fun e => String.eqb (workspace_id e) ws && (floor <? seq_of e)%N) events).

Section Replay.
Context {S W : Type} `{EventConsumerStore S} `{EventHandler W}.
Variable others : nat -> S -> S.

Fixpoint replay_loop (self : OperationalEventConsumer) (l : list OperationalEvent) (s : S) (w : W)
    : (S * W) * list EventConsumeResult :=
  match l with
  | [] => ((s, w), [])
  | e :: l =>
      let '((s, w), r) := consume others self e s w in
      if String.eqb (ecr_status r) "retry_later" then ((s, w), [r])
      else let '(sw, rs) := replay_loop self l s w in (sw, r :: rs)
  end.

(** [replay], over the events the log returns; [limit] must be positive. *)
Definition replay (self : OperationalEventConsumer) (events : list OperationalEvent) (ws : string)
    (limit : Z) (s : S) (w : W) : result event_error ((S * W) * list EventConsumeResult) :=
  if (limit <? 1)%Z then Err EventValueError
  else
    let floor := match checkpoint s (_checkpoint_key ws (consumer_id self)) with
                 | None => "0" | Some c => cp_generation_seq c end in
    Ok (replay_loop self (take (Z.to_nat limit) (events_after events ws floor)) s w).
End Replay.

(** ** Steps of the store under any interleaving *)

Definition follows (cp : option EventCheckpoint) (e : OperationalEvent) : Prop :=
  seq_of e = expected_sequence cp /\ parent_generation_id e = expected_parent cp.

Section Steps.
Context {S W : Type} `{EventStoreLaws S} `{EventHandler W}.

(** One atomic call, by any consumer, the compare-and-set ones with an expected
    checkpoint that the event follows. *)
Inductive op_step : S -> S -> Prop :=
| op_failure k s : op_step s (record_failure k s).1
| op_stale c e s : op_step s (acknowledge_stale c e s)
| op_commit c e f x s : follows x e -> op_step s (commit c e f x s).1
| op_dead c e x code s : follows x e -> op_step s (dead_letter_and_advance c e x code s).1.

(** The specification's transitions, and the calls that refuse or repeat. *)
Inductive spec_step (v : view) : view -> Prop :=
| sp_none : spec_step v v
| sp_failure k : spec_step v (spec_failure k v)
| sp_stale c e : spec_step v (spec_stale c e v)
| sp_commit c e f :
    v_seen v (event_key c e) = false -> follows (v_checkpoint v (checkpoint_key c e)) e ->
    spec_step v (spec_commit c e f v)
| sp_dead c e code :
    follows (v_checkpoint v (checkpoint_key c e)) e -> spec_step v (spec_dead c e code v).

Lemma op_step_refines s s' : op_step s s' -> exists v, spec_step (observe s) v /\ observe s' ≡ v.
Proof.
  destruct 1 as [k s|c e s|c e f x s Hx|c e x code s Hx].
  - eexists. split; [constructor | apply record_failure_law].
  - eexists. split; [constructor | apply acknowledge_law].
  - pose proof (commit_law c e f x s) as Hl. destruct (seen s (event_key c e)) eqn:Hs.
    { rewrite Hl. exists (observe s). split; [constructor | done]. }
    destruct (decide _) as [Hc|]; [destruct Hl as [_ Hl]|rewrite Hl; exists (observe s); by split; [constructor|]].
    eexists. split; [|exact Hl]. apply sp_commit; [done|]. cbn. by rewrite Hc.
  - pose proof (dead_letter_law c e x code s) as Hl.
    destruct (decide _) as [Hc|]; [destruct Hl as [_ Hl]|rewrite Hl; exists (observe s); by split; [constructor|]].
    eexists. split; [|exact Hl]. apply sp_dead. cbn. by rewrite Hc.
Qed.

(** [consume] is a sequence of atomic calls, whatever the other threads do meanwhile. *)
Lemma consume_steps others self e s w s' w' r :
  (forall n s, rtc op_step s (others n s)) ->
  consume others self e s w = ((s', w'), r) -> rtc op_step s s'.
Proof.
  intros Ho. unfold consume.
  assert (Hone : forall n s t, op_step (others n s) t -> rtc op_step s t).
  { intros n s0 t Ht. etrans; [apply (Ho n) | by apply rtc_once]. }
  assert (H01 : rtc op_step s (others 1 (others 0 s))) by (etrans; apply Ho).
  destruct (seen _ _); [by intros [= <- _ _]|].
  set (s1 := others 1 (others 0 s)) in *. set (cp := checkpoint s1 _).
  destruct (N.ltb_spec (seq_of e) (expected_sequence cp)).
  { intros [= <- _ _]. etrans; [exact H01|]. apply (Hone 2). constructor. }
  destruct (N.ltb_spec (expected_sequence cp) (seq_of e)); [by intros [= <- _ _]|].
  case_bool_decide as Hp; cbn [negb]; [|by intros [= <- _ _]].
  assert (Hf : follows cp e) by (split; [lia | done]).
  destruct (prepare e w) as [w1 [f|]].
  - destruct (commit _ _ _ _ _) as [s2 ok] eqn:Hc. intros Hr.
    assert (Hs' : s' = others 3 s2) by (destruct ok; congruence). subst s'.
    etrans; [exact H01|]. etrans; [|apply Ho]. apply (Hone 2).
    change s2 with (s2, ok).1. rewrite <- Hc. by constructor.
  - destruct (record_failure _ _) as [s2 n] eqn:Hc. intros Hr. etrans; [exact H01|].
    assert (Hfail : rtc op_step s1 s2).
    { apply (Hone 2). change s2 with (s2, n).1. rewrite <- Hc. constructor. }
    etrans; [exact Hfail|]. destruct (n <? max_attempts self)%nat; [by injection Hr as <- _ _|].
    destruct (dead_letter_and_advance _ _ _ _ _) as [s3 ok] eqn:Hd.
    assert (Hs' : s' = others 4 s3) by (destruct ok; congruence). subst s'.
    etrans; [|apply Ho]. apply (Hone 3). change s3 with (s3, ok).1. rewrite <- Hd. by constructor.
Qed.

(** An effect belongs to a seen event. *)
Definition store_ok (s : S) : Prop := forall k f, effect s k = Some f -> seen s k = true.

Lemma op_step_ok s s' :
  op_step s s' -> store_ok s ->
  store_ok s' /\ (forall k f, effect s k = Some f -> effect s' k = Some f) /\
  (forall k, seen s k = true -> seen s' k = true) /\
  (forall k, checkpoint s' k = checkpoint s k \/
             exists c e, follows (checkpoint s k) e /\
                         checkpoint s' k = Some (_next_checkpoint c e)).
Proof.
  intros Hs Hok. apply op_step_refines in Hs as (v & Hv & (E1 & E2 & E3 & E4 & E5)).
  unfold store_ok in *. cbn in E1, E2, E3.
  destruct Hv as [|k0|c e|c e f0 Hun Hfo|c e code Hfo]; cbn in *; unfold upd in *;
    (repeat split; [intros k f|intros k f|intros k|intros k]);
    rewrite ?E1, ?E2, ?E3; eauto.
  - destruct (decide (k = event_key c e)); eauto.
  - destruct (decide (k = event_key c e)); eauto.
  - destruct (decide (k = event_key c e)); eauto.
  - destruct (decide (k = event_key c e)) as [->|]; [|done]. intros Hk%Hok. congruence.
  - destruct (decide (k = event_key c e)); eauto.
  - destruct (decide (k = checkpoint_key c e)) as [->|]; [right; eauto | by left].
  - destruct (decide (k = event_key c e)); eauto.
  - destruct (decide (k = event_key c e)); eauto.
  - destruct (decide (k = checkpoint_key c e)) as [->|]; [right; eauto | by left].
Qed.

(** The checkpoints a consumer may go through: each follows the one before. *)
Definition advance (cp cp' : option EventCheckpoint) : Prop :=
  exists c e, follows cp e /\ cp' = Some (_next_checkpoint c e).

Lemma advance_sequence cp cp' : advance cp cp' -> expected_sequence cp' = (expected_sequence cp + 1)%N.
Proof. intros (c & e & [Hs _] & ->). cbn. unfold seq_of in Hs. lia. Qed.

Lemma advances_sequence cp cp' :
  rtc advance cp cp' -> (expected_sequence cp <= expected_sequence cp')%N.
Proof.
  induction 1 as [cp|x y z Hxy _ IH]; [lia|]. apply advance_sequence in Hxy. lia.
Qed.

Lemma steps_ok s s' :
  rtc op_step s s' -> store_ok s ->
  store_ok s' /\ (forall k f, effect s k = Some f -> effect s' k = Some f) /\
  (forall k, seen s k = true -> seen s' k = true) /\
  (forall k, rtc advance (checkpoint s k) (checkpoint s' k)).
Proof.
  induction 1 as [s|s1 s2 s3 H12 _ IH]; intros Hok; [by repeat split|].
  destruct (op_step_ok _ _ H12 Hok) as (Hok2 & He & Hs & Hc).
  destruct (IH Hok2) as (Hok3 & He' & Hs' & Hc'). repeat split; eauto.
  intros k. etrans; [|apply Hc']. destruct (Hc k) as [->|(c & e & Hf & ->)]; [done|].
  apply rtc_once. by exists c, e.
Qed.
End Steps.

(** ** Runs without interference *)
Section Quiet.
Context {S W : Type} `{EventStoreLaws S} `{EventHandler W}.

Definition quiet : nat -> S -> S := fun _ s => s.

(** The situation in which a consumer prepares an event. *)
Definition due (self : OperationalEventConsumer) (e : OperationalEvent) (s : S) : Prop :=
  seen s (event_key (consumer_id self) e) = false /\
  follows (checkpoint s (checkpoint_key (consumer_id self) e)) e.

Lemma consume_due self e s w :
  due self e s ->
  consume quiet self e s w =
    let cid := consumer_id self in
    let cp := checkpoint s (checkpoint_key cid e) in
    match prepare e w with
    | (w, None) =>
        let '(s, attempts) := record_failure (event_key cid e) s in
        if (attempts <? max_attempts self)%nat
        then ((s, w), answer "retry_later" e cp (str_of_nat attempts) (Some "event_handler_failed"))
        else
          let '(s, ok) := dead_letter_and_advance cid e cp "event_handler_failed" s in
          if ok
          then ((s, w), answer "dead_lettered" e (checkpoint s (checkpoint_key cid e))
                          (str_of_nat attempts) (Some "event_handler_failed"))
          else ((s, w), answer "retry_later" e (checkpoint s (checkpoint_key cid e))
                          (str_of_nat attempts) (Some "event_checkpoint_conflict"))
    | (w, Some f) =>
        let '(s, ok) := commit cid e f cp s in
        if ok
        then ((s, w), answer "processed" e (checkpoint s (checkpoint_key cid e)) "1" None)
        else ((s, w), answer "retry_later" e (checkpoint s (checkpoint_key cid e)) "0"
                        (Some "event_checkpoint_conflict"))
    end.
Proof.
  intros (Hs & Hq & Hp). unfold consume, quiet. rewrite Hs.
  destruct (N.ltb_spec (seq_of e) (expected_sequence (checkpoint s (checkpoint_key (consumer_id self) e))));
    [lia|].
  destruct (N.ltb_spec (expected_sequence (checkpoint s (checkpoint_key (consumer_id self) e))) (seq_of e));
    [lia|].
  by rewrite bool_decide_eq_true_2.
Qed.

Lemma consume_success self e s w w' f :
  due self e s -> prepare e w = (w', Some f) ->
  exists s', consume quiet self e s w =
               ((s', w'), answer "processed" e (Some (_next_checkpoint (consumer_id self) e)) "1" None) /\
             observe s' ≡ spec_commit (consumer_id self) e f (observe s).
Proof.
  intros Hd Hw. rewrite (consume_due _ _ _ _ Hd). cbn zeta. rewrite Hw. destruct Hd as [Hs _].
  pose proof (commit_law (consumer_id self) e f
                (checkpoint s (checkpoint_key (consumer_id self) e)) s) as Hl.
  rewrite Hs in Hl. rewrite decide_True in Hl by done.
  destruct (commit _ _ _ _ _) as [s' ok]. destruct Hl as [Hok Hv]. cbn in Hok, Hv. subst ok.
  exists s'. split; [|exact Hv]. destruct Hv as (_ & Hc & _). cbn in Hc. rewrite Hc. unfold upd.
  by rewrite decide_True.
Qed.

Lemma consume_failure self e s w w' :
  due self e s -> prepare e w = (w', None) ->
  let cid := consumer_id self in
  let n := Datatypes.S (failures s (event_key cid e)) in
  exists s',
    if (n <? max_attempts self)%nat
    then consume quiet self e s w =
           ((s', w'), answer "retry_later" e (checkpoint s (checkpoint_key cid e)) (str_of_nat n)
                        (Some "event_handler_failed")) /\
         observe s' ≡ spec_failure (event_key cid e) (observe s)
    else consume quiet self e s w =
           ((s', w'), answer "dead_lettered" e (Some (_next_checkpoint cid e)) (str_of_nat n)
                        (Some "event_handler_failed")) /\
         observe s' ≡ spec_dead cid e "event_handler_failed"
                        (spec_failure (event_key cid e) (observe s)).
Proof.
  intros Hd Hw cid n. rewrite (consume_due _ _ _ _ Hd). cbn zeta. rewrite Hw. fold cid.
  pose proof (record_failure_law (event_key cid e) s) as Hr.
  destruct (record_failure _ s) as [s1 m]. destruct Hr as [Hm Hv1]. cbn in Hm, Hv1. subst m. fold n.
  destruct (n <? max_attempts self)%nat; [by exists s1|].
  assert (Hc1 : checkpoint s1 (checkpoint_key cid e) = checkpoint s (checkpoint_key cid e))
    by apply Hv1.
  pose proof (dead_letter_law cid e (checkpoint s (checkpoint_key cid e)) "event_handler_failed" s1) as Hl.
  rewrite decide_True in Hl by done.
  destruct (dead_letter_and_advance _ _ _ _ _) as [s2 ok]. destruct Hl as [Hok Hv]. cbn in Hok, Hv.
  subst ok. exists s2. split.
  - destruct Hv as (_ & Hc & _). cbn in Hc. rewrite Hc. unfold upd. by rewrite decide_True.
  - by rewrite Hv, Hv1.
Qed.

(** *** Replay *)

(** Events that follow one another, the first following [cp]. *)
Fixpoint chain (consumer : string) (cp : option EventCheckpoint) (l : list OperationalEvent) : Prop :=
  match l with
  | [] => True
  | e :: l => follows cp e /\ chain consumer (Some (_next_checkpoint consumer e)) l
  end.

Lemma chain_seq consumer cp l e :
  chain consumer cp l -> e ∈ l -> (expected_sequence cp <= seq_of e)%N.
Proof.
  revert cp; induction l as [|e0 l IH]; intros cp; cbn; [by intros _ ?%elem_of_nil|].
  intros [[Hs _] Hc] [->|He]%elem_of_cons; [lia|]. specialize (IH _ Hc He). cbn in IH.
  unfold seq_of in *. lia.
Qed.

Lemma event_leb_total a b : event_leb a b = true \/ event_leb b a = true.
Proof.
  unfold event_leb. rewrite (N.eqb_sym (seq_of b)). destruct (N.eqb_spec (seq_of a) (seq_of b));
    [apply str_leb_total|]. rewrite !N.ltb_lt. lia.
Qed.

Lemma event_leb_trans a b c :
  event_leb a b = true -> event_leb b c = true -> event_leb a c = true.
Proof.
  unfold event_leb. destruct (N.eqb_spec (seq_of a) (seq_of b)), (N.eqb_spec (seq_of b) (seq_of c)),
    (N.eqb_spec (seq_of a) (seq_of c)); rewrite ?N.ltb_lt; try lia; eauto with wiki.
Qed.

Lemma chain_ordered consumer cp l : chain consumer cp l -> ordered event_leb l.
Proof.
  revert cp; induction l as [|e l IH]; intros cp; cbn; [constructor|].
  intros [_ Hc]. constructor; [by eapply IH|]. apply list.Forall_forall. intros x Hx.
  pose proof (chain_seq _ _ _ _ Hc Hx) as Hs. cbn in Hs. unfold event_leb, seq_of in *.
  destruct (N.eqb_spec (py_int (generation_seq e)) (py_int (generation_seq x))); [lia|].
  rewrite N.ltb_lt. lia.
Qed.

Lemma chain_inj consumer cp l x y :
  chain consumer cp l -> x ∈ l -> y ∈ l -> seq_of x = seq_of y -> x = y.
Proof.
  revert cp; induction l as [|e l IH]; intros cp; cbn; [by intros _ ?%elem_of_nil|].
  intros [_ Hc] [->|Hx]%elem_of_cons [->|Hy]%elem_of_cons He; [done | | |by eapply IH].
  - pose proof (chain_seq _ _ _ _ Hc Hy) as Hs. cbn in Hs. unfold seq_of in *. lia.
  - pose proof (chain_seq _ _ _ _ Hc Hx) as Hs. cbn in Hs. unfold seq_of in *. lia.
Qed.

(** Sorting the log's events puts a chain in its order. *)
Lemma sort_chain consumer cp l l' : chain consumer cp l -> l' ≡ₚ l -> py_sort event_leb l' = l.
Proof.
  intros Hc Hp. rewrite (py_sort_unique event_leb event_leb_total event_leb_trans l' l);
    [by eapply py_sort_id, chain_ordered | | done].
  intros x y Hx Hy. rewrite Hp in Hx, Hy. unfold event_leb. rewrite (N.eqb_sym (seq_of y)).
  destruct (N.eqb_spec (seq_of x) (seq_of y)) as [E|]; [by intros; eapply chain_inj|].
  rewrite !N.ltb_lt. lia.
Qed.

Lemma chain_take consumer cp l n : chain consumer cp l -> chain consumer cp (take n l).
Proof.
  revert cp n; induction l as [|e l IH]; intros cp [|n]; cbn; try done. intros [? ?]. eauto.
Qed.

(** What processing a list of events leaves in the store. *)
Definition processed_all (cid ws : string) (l : list OperationalEvent) (s s' : S) : Prop :=
  (forall e, e ∈ l -> seen s' (event_key cid e) = true /\
                      exists f, effect s' (event_key cid e) = Some f) /\
  (forall k, (forall e, e ∈ l -> k <> event_key cid e) ->
             seen s' k = seen s k /\ effect s' k = effect s k) /\
  checkpoint s' (_checkpoint_key ws cid) =
    match list.last l with
    | Some e => Some (_next_checkpoint cid e)
    | None => checkpoint s (_checkpoint_key ws cid)
    end.

Lemma replay_chain (self : OperationalEventConsumer) ws l s w :
  let cid := consumer_id self in
  chain cid (checkpoint s (_checkpoint_key ws cid)) l ->
  (forall e, e ∈ l -> workspace_id e = ws) -> NoDup (event_id <$> l) ->
  (forall e, e ∈ l -> seen s (event_key cid e) = false) ->
  (forall e w, e ∈ l -> exists w' f, prepare e w = (w', Some f)) ->
  exists s' w',
    replay_loop quiet self l s w =
      ((s', w'), map (fun e => answer "processed" e (Some (_next_checkpoint cid e)) "1" None) l) /\
    processed_all cid ws l s s'.
Proof.
  intros cid. revert s w; induction l as [|e l IH]; intros s w Hch Hws Hnd Hun Hok.
  { exists s, w. split; [done|]. split; [by intros e ?%elem_of_nil | done]. }
  destruct Hch as [Hf Hch]. cbn in Hnd. apply list.NoDup_cons in Hnd as [Hni Hnd].
  destruct (Hok e w) as (w1 & f & Hw); [by left|].
  pose proof (Hws e ltac:(by left)) as He.
  assert (Hd : due self e s).
  { split; [apply Hun; by left|]. fold cid. unfold checkpoint_key. by rewrite He. }
  destruct (consume_success self e s w w1 f Hd Hw) as (s1 & Hc & (E1 & E2 & E3 & _)).
  cbn in E1, E2, E3. fold cid in E1, E2, E3, Hc.
  assert (Hkey : forall e', e' ∈ l -> event_key cid e' <> event_key cid e).
  { intros e' He' [= _ Hid]. apply Hni. rewrite <- Hid. by apply list_elem_of_fmap_2. }
  assert (Hcp : checkpoint s1 (_checkpoint_key ws cid) = Some (_next_checkpoint cid e)).
  { rewrite E2. unfold upd, checkpoint_key. by rewrite He, decide_True. }
  destruct (IH s1 w1) as (s2 & w2 & Hr & Hseen & Hframe & Hlast).
  - by rewrite Hcp.
  - intros; apply Hws; by right.
  - done.
  - intros e' He'. rewrite E1. unfold upd. rewrite decide_False by auto. apply Hun. by right.
  - intros; apply Hok; by right.
  - exists s2, w2. cbn [replay_loop map]. rewrite Hc. cbn -[answer]. rewrite Hr. split; [done|].
    repeat split.
    + apply elem_of_cons in H2 as [->|?]; [|by apply Hseen].
      rewrite (proj1 (Hframe _ (fun e' He' => not_eq_sym (Hkey e' He')))), E1. unfold upd.
      by rewrite decide_True.
    + apply elem_of_cons in H2 as [->|?]; [|by apply Hseen].
      rewrite (proj2 (Hframe _ (fun e' He' => not_eq_sym (Hkey e' He')))), E3. unfold upd.
      exists f. by rewrite decide_True.
    + rewrite (proj1 (Hframe k ltac:(intros; apply H2; by right))), E1. unfold upd.
      rewrite decide_False; [done|]. apply H2. by left.
    + rewrite (proj2 (Hframe k ltac:(intros; apply H2; by right))), E3. unfold upd.
      rewrite decide_False; [done|]. apply H2. by left.
    + rewrite Hlast, Hcp. rewrite last_cons. by destruct (list.last l).
Qed.
(** [n] deliveries of one event. *)
Fixpoint deliver (self : OperationalEventConsumer) (e : OperationalEvent) (n : nat) (s : S) (w : W)
    : (S * W) * list EventConsumeResult :=
  match n with
  | O => ((s, w), [])
  | Datatypes.S n =>
      let '((s, w), r) := consume quiet self e s w in
      let '(sw, rs) := deliver self e n s w in (sw, r :: rs)
  end.

Lemma deliver_poison (self : OperationalEventConsumer) e m : forall s w,
  let cid := consumer_id self in
  let cp := checkpoint s (checkpoint_key cid e) in
  failures s (event_key cid e) + Datatypes.S m = max_attempts self -> due self e s ->
  (forall w, exists w', prepare e w = (w', None)) ->
  exists s' w',
    deliver self e (Datatypes.S m) s w =
      ((s', w'),
       (map (fun n => answer "retry_later" e cp (str_of_nat n) (Some "event_handler_failed"))
            (seq (Datatypes.S (failures s (event_key cid e))) m) ++
        [answer "dead_lettered" e (Some (_next_checkpoint cid e)) (str_of_nat (max_attempts self))
           (Some "event_handler_failed")])%list) /\
    seen s' (event_key cid e) = true /\
    dead_letter s' (event_key cid e) = Some "event_handler_failed" /\
    checkpoint s' (checkpoint_key cid e) = Some (_next_checkpoint cid e) /\
    effect s' (event_key cid e) = effect s (event_key cid e).
Proof.
  induction m as [|m IH]; intros s w cid cp Hn Hd Hfail; destruct (Hfail w) as [w1 Hw];
    destruct (consume_failure self e s w w1 Hd Hw) as [s1 Hc]; fold cid cp in Hc;
    cbn [deliver]; set (n := failures s (event_key cid e)) in *.
  - destruct (Nat.ltb_spec (Datatypes.S n) (max_attempts self)); [lia|]. destruct Hc as [-> Hv].
    exists s1, w1. replace (max_attempts self) with (Datatypes.S n) by lia. split; [done|].
    destruct Hv as (E1 & E2 & E3 & E4 & _). cbn in *.
    rewrite E1, E2, E3, E4. unfold upd. by rewrite !decide_True.
  - destruct (Nat.ltb_spec (Datatypes.S n) (max_attempts self)); [|lia].
    destruct Hc as [-> (E1 & E2 & E3 & _ & E5)]. cbn in E1, E2, E3, E5.
    assert (Hf1 : failures s1 (event_key cid e) = Datatypes.S n)
      by (rewrite E5; unfold upd; by rewrite decide_True).
    destruct (IH s1 w1) as (s2 & w2 & Hr & Hs & Hdl & Hcp & He).
    + fold cid. rewrite Hf1. lia.
    + destruct Hd as [Hd1 Hd2]. split; [etrans; [apply E1 | exact Hd1]|].
      change (follows (checkpoint s1 (checkpoint_key cid e)) e). rewrite E2. exact Hd2.
    + done.
    + fold cid in Hr, Hs, Hdl, Hcp, He. exists s2, w2. cbn [deliver] in Hr. rewrite Hr, E2, Hf1.
      split; [done|]. by rewrite <- E3.
Qed.
End Quiet.

(** ** Claims *)
Section EventClaims.
Context {S W : Type} `{EventStoreLaws S} `{EventHandler W}.

(** C34: at most once, under concurrency.  However the calls of other consumers
    interleave with a [consume], an effect that was committed for an event stays the
    effect of that event, a seen event stays seen, effects belong to seen events only,
    and the checkpoint of every consumer moves forward through events each of which
    follows the one before (next sequence number, parent generation), never back. *)
Theorem consume_at_most_once others self e (s s' : S) (w w' : W) r :
  (forall n s, rtc op_step s (others n s)) -> store_ok s ->
  consume others self e s w = ((s', w'), r) ->
  store_ok s' /\
  (forall k f, effect s k = Some f -> effect s' k = Some f) /\
  (forall k, seen s k = true -> seen s' k = true) /\
  (forall k, rtc advance (checkpoint s k) (checkpoint s' k) /\
             (expected_sequence (checkpoint s k) <= expected_sequence (checkpoint s' k))%N).
Proof.
  intros Ho Hok Hc. apply consume_steps in Hc; [|done].
  destruct (steps_ok _ _ Hc Hok) as (H1' & H2' & H3' & H4'). repeat split; auto.
  by apply advances_sequence.
Qed.

(** A replay catches up.  If the events of the workspace after the consumer's
    checkpoint form a chain from it (in whatever order the log holds them), are unseen and
    distinct, and the handler does not raise, then a replay processes exactly the first
    [limit] of them, in chain order, commits each one's effect, and leaves the checkpoint
    at the last of them. *)
Theorem replay_catches_up (self : OperationalEventConsumer) events ws limit (s : S) (w : W) l :
  let cid := consumer_id self in
  let cp := checkpoint s (_checkpoint_key ws cid) in
  let floor := match cp with None => "0" | Some c => cp_generation_seq c end in
  (0 < limit)%Z ->
  List.filter (fun e => String.eqb (workspace_id e) ws && (py_int floor <? seq_of e)%N) events ≡ₚ l ->
  chain cid cp l -> NoDup (event_id <$> l) ->
  (forall e, e ∈ l -> seen s (event_key cid e) = false) ->
  (forall e w, e ∈ l -> exists w' f, prepare e w = (w', Some f)) ->
  let done := take (Z.to_nat limit) l in
  exists s' w' rs,
    replay quiet self events ws limit s w = Ok ((s', w'), rs) /\
    rs = map (fun e => answer "processed" e (Some (_next_checkpoint cid e)) "1" None) done /\
    (forall e, e ∈ done -> seen s' (event_key cid e) = true /\
                           exists f, effect s' (event_key cid e) = Some f) /\
    checkpoint s' (_checkpoint_key ws cid) =
      match list.last done with Some e => Some (_next_checkpoint cid e) | None => cp end.
Proof.
  intros cid cp floor Hl Hperm Hch Hnd Hun Hok done. unfold replay.
  destruct (Z.ltb_spec limit 1); [lia|].
  assert (Hsort : events_after events ws floor = l) by by eapply sort_chain.
  fold cid cp floor. rewrite Hsort. fold done.
  assert (Hin : forall e, e ∈ done -> e ∈ l).
  { intros e He. apply (elem_of_submseteq done l); [done|]. apply sublist_submseteq, sublist_take. }
  destruct (replay_chain self ws done s w) as (s' & w' & Hr & Hs & _ & Hc).
  - by apply chain_take.
  - intros e He%Hin. rewrite <- Hperm in He. apply list_elem_of_In, List.filter_In in He as [_ He].
    apply andb_true_iff in He as [He _]. by apply String.eqb_eq.
  - unfold done. rewrite fmap_take. eapply sublist_NoDup; [exact Hnd | apply sublist_take].
  - auto.
  - auto.
  - eexists s', w', _. rewrite Hr. split; [reflexivity|]. split; [reflexivity|]. split; [exact Hs | exact Hc].
Qed.

(** A poisoned event does not block its workspace.  An unseen event that follows the
    checkpoint and whose handler always raises is retried [max_attempts - 1] times, with
    its attempts counted, and at the next delivery is dead-lettered: the checkpoint
    advances past it, no effect is recorded, and from then on it is a duplicate. *)
Theorem poison_event_dead_lettered (self : OperationalEventConsumer) e (s : S) (w : W) :
  let cid := consumer_id self in
  let cp := checkpoint s (checkpoint_key cid e) in
  1 <= max_attempts self -> due self e s -> failures s (event_key cid e) = 0 ->
  (forall w, exists w', prepare e w = (w', None)) ->
  exists s' w',
    deliver self e (max_attempts self) s w =
      ((s', w'),
       (map (fun n => answer "retry_later" e cp (str_of_nat n) (Some "event_handler_failed"))
            (seq 1 (max_attempts self - 1)) ++
        [answer "dead_lettered" e (Some (_next_checkpoint cid e)) (str_of_nat (max_attempts self))
           (Some "event_handler_failed")])%list) /\
    dead_letter s' (event_key cid e) = Some "event_handler_failed" /\
    checkpoint s' (checkpoint_key cid e) = Some (_next_checkpoint cid e) /\
    effect s' (event_key cid e) = effect s (event_key cid e) /\
    (forall w, (consume quiet self e s' w).1 = (s', w) /\
               ecr_status (consume quiet self e s' w).2 = "duplicate").
Proof.
  intros cid cp Hmax Hd Hf Hfail.
  destruct (deliver_poison self e (max_attempts self - 1) s w) as (s' & w' & Hr & Hs & Hdl & Hcp & He);
    [fold cid; lia | done | done |].
  fold cid cp in Hr, Hs, Hdl, Hcp, He. rewrite Hf in Hr.
  replace (Datatypes.S (max_attempts self - 1)) with (max_attempts self) in Hr by lia.
  exists s', w'. repeat split; try done; unfold consume, quiet; fold cid; by rewrite Hs.
Qed.
End EventClaims.

(** ** Evaluations *)

Definition sample_event (i g : string) (p : option string) (n : string) : OperationalEvent :=
  {| event_schema_version := EVENT_SCHEMA_VERSION; event_id := i; workspace_id := "ws";
     generation_id := g; parent_generation_id := p; generation_seq := n; event_type := "published";
     causation_id := "c"; correlation_id := "c"; sensitivity := "internal"; payload_ref := None;
     emitted_at := "t" |}.

Definition event1 : OperationalEvent := sample_event "e1" "g1" None "1".
Definition event2 : OperationalEvent := sample_event "e2" "g2" (Some "g1") "2".

Definition sample_effect : ConsumerEffect := {| effect_digest := "d"; result_ref := None |}.
(** A handler that counts, one that always raises. *)
Definition counting_handler : EventHandler nat := fun _ n => (S n, Some sample_effect).
Definition failing_handler : EventHandler nat := fun _ n => (S n, None).
Definition sample_consumer : OperationalEventConsumer := {| consumer_id := "c"; max_attempts := 3 |}.

Example replay_sample :
  ecr_status <$> match replay (W := nat) (H0 := counting_handler) quiet sample_consumer
                         [event2; event1] "ws" 10 empty_store 0 with
                 | Ok (_, rs) => rs | Err _ => [] end
  = ["processed"; "processed"].
Proof. vm_compute. reflexivity. Qed.

Lemma consume_at_most_once_witness :
  store_ok (consume (W := nat) (H0 := counting_handler) (fun _ s => s) sample_consumer event1
              empty_store 0).1.1.
Proof.
  destruct (consume_at_most_once (W := nat) (H1 := counting_handler) (fun _ s => s) sample_consumer
    event1 empty_store
    (consume (W := nat) (H0 := counting_handler) (fun _ s => s) sample_consumer event1 empty_store 0).1.1
    0 1
    (consume (W := nat) (H0 := counting_handler) (fun _ s => s) sample_consumer event1 empty_store 0).2)
    as [Hok _].
  - intros n s. apply rtc_refl.
  - intros k f Hk. discriminate Hk.
  - vm_compute. reflexivity.
  - exact Hok.
Defined.

Lemma replay_catches_up_witness :
  exists s' w' rs,
    replay (W := nat) (H0 := counting_handler) quiet sample_consumer [event2; event1] "ws" 10
      empty_store 0 = Ok ((s', w'), rs) /\
    checkpoint s' ("ws", "c") = Some (_next_checkpoint "c" event2).
Proof.
  destruct (replay_catches_up (W := nat) (H1 := counting_handler) sample_consumer [event2; event1]
    "ws" 10 empty_store 0 [event1; event2]) as (s' & w' & rs & Hr & _ & _ & Hc).
  - reflexivity.
  - apply perm_swap.
  - repeat split.
  - apply (bool_decide_unpack _). vm_compute. exact I.
  - intros e _. reflexivity.
  - intros e w _. exists (S w), sample_effect. reflexivity.
  - exists s', w', rs. split; [exact Hr | exact Hc].
Defined.

Lemma poison_event_dead_lettered_witness :
  exists s' w' rs,
    deliver (W := nat) (H1 := failing_handler) sample_consumer event1 3 empty_store 0 =
      ((s', w'), rs) /\ checkpoint s' ("ws", "c") = Some (_next_checkpoint "c" event1).
Proof.
  destruct (poison_event_dead_lettered (W := nat) (H1 := failing_handler) sample_consumer event1
    empty_store 0) as (s' & w' & Hr & _ & Hc & _).
  - apply (bool_decide_unpack _). vm_compute. exact I.
  - repeat split.
  - reflexivity.
  - intros w. exists (S w). reflexivity.
  - eexists s', w', _. split; [exact Hr | exact Hc].
Defined.
