(* ===== verification/Projections.v ===== *)
(** * Projections (memory_core/projections.py)

    Records and artifacts with their digests, the staging manifest, the pointer store with
    its atomic publication of the minimum profile, and the rebuild coordinator.  The store
    is locked per method; [rebuild] is not, so it runs with an arbitrary interference of
    other threads before each of its store calls. *)
From S2P Require Import Prelude Digest Sha256 Json Canonical Hashing Contracts.
Open Scope string_scope.

(** ProjectionContractError, the KeyError of a missing source, an error of a contract. *)
Inductive projection_error : Type :=
| ProjectionContractError
| ProjectionKeyError
| ProjectionValue (e : core_error).

Definition MINIMUM_PROJECTIONS : list string := ["chronology"; "identity"].

Record ProjectionRecord : Type := {
  pr_object_id : string;
  pr_workspace_id : string;
  revision_id : string;
  pr_kind : string;
  pr_lifecycle_status : string;
  captured_at : string;
  occurred_at : option string;
  pr_data : pyval;
}.

Record ProjectionSpec : Type := { name : string; schema_version : string; required : bool }.

Record ProjectionArtifact : Type := {
  projection_name : string;
  art_workspace_id : string;
  source_generation_id : string;
  art_schema_version : string;
  art_required : bool;
  artifact_digest : string;
  records_root : string;
  record_count : string;
}.

#[export] Instance ProjectionArtifact_eq_dec : EqDecision ProjectionArtifact.
Proof. solve_decision. Defined.

Record ProjectionStagingManifest : Type := {
  psm_schema_version : string;
  psm_workspace_id : string;
  psm_source_generation_id : string;
  artifacts : list ProjectionArtifact;
  manifest_digest : string;
}.

#[export] Instance ProjectionStagingManifest_eq_dec : EqDecision ProjectionStagingManifest.
Proof. solve_decision. Defined.

Record ProjectionPointer : Type := {
  ptr_projection_name : string;
  ptr_workspace_id : string;
  ptr_generation_id : string;
  ptr_artifact_digest : string;
  staging_manifest_digest : string;
}.

#[export] Instance ProjectionPointer_eq_dec : EqDecision ProjectionPointer.
Proof. solve_decision. Defined.

Record ProjectionRunResult : Type := {
  run_status : string;
  run_generation_id : string;
  run_manifest_digest : option string;
  advanced : list string;
  failed_required : list string;
  failed_optional : list string;
  run_error_code : option string;
}.

Definition value_err {A} (m : result core_error A) : result projection_error A :=
  match m with Ok a => Ok a | Err e => Err (ProjectionValue e) end.

Lemma value_err_ok {A} (m : result core_error A) a : value_err m = Ok a <-> m = Ok a.
Proof. destruct m; cbn; split; congruence. Qed.

Section Build.
Context {U : Unicode} {D : Digest}.

(** [ProjectionRecord.__post_init__] *)
Definition record_post_init (r : ProjectionRecord) : result projection_error ProjectionRecord :=
  _ ← ensure (forallb str_nonempty [pr_object_id r; pr_workspace_id r; revision_id r; pr_kind r;
                                    pr_lifecycle_status r; captured_at r])
             ProjectionContractError;
  _ ← ensure (opt_nonempty (occurred_at r)) ProjectionContractError;
  _ ← value_err (canonical_bytes (py_record [("data", pr_data r)]));
  Ok r.

Definition spec_post_init (p : ProjectionSpec) : result projection_error ProjectionSpec :=
  _ ← ensure (str_nonempty (name p) && str_nonempty (schema_version p)) ProjectionContractError;
  Ok p.

Definition artifact_to_mapping (a : ProjectionArtifact) : pyval :=
  py_record
    [("projection_name", PStr (projection_name a)); ("workspace_id", PStr (art_workspace_id a));
     ("source_generation_id", PStr (source_generation_id a));
     ("schema_version", PStr (art_schema_version a)); ("required", PBool (art_required a));
     ("artifact_digest", PStr (artifact_digest a)); ("records_root", PStr (records_root a));
     ("record_count", PStr (record_count a))].

(** [ProjectionStagingManifest.create] *)
Definition manifest_create (ws gen : string) (arts : list ProjectionArtifact)
    : result projection_error ProjectionStagingManifest :=
  let ordered := sort_on projection_name arts in
  _ ← ensure (str_nonempty ws && str_nonempty gen && negb (bool_decide (ordered = [])))
             ProjectionContractError;
  _ ← ensure (str_unique (map projection_name ordered)) ProjectionContractError;
  _ ← ensure (forallb (fun a => String.eqb (art_workspace_id a) ws) ordered) ProjectionContractError;
  _ ← ensure (forallb (fun a => String.eqb (source_generation_id a) gen) ordered)
             ProjectionContractError;
  b ← value_err (canonical_bytes (py_record
        [("schema_version", PStr "phase3-projection-staging-v1"); ("workspace_id", PStr ws);
         ("source_generation_id", PStr gen);
         ("artifacts", PList (map artifact_to_mapping ordered))]));
  Ok {| psm_schema_version := "phase3-projection-staging-v1"; psm_workspace_id := ws;
        psm_source_generation_id := gen; artifacts := ordered; manifest_digest := sha256_hex b |}.

Definition manifest_to_mapping (m : ProjectionStagingManifest) : pyval :=
  py_record
    [("schema_version", PStr (psm_schema_version m)); ("workspace_id", PStr (psm_workspace_id m));
     ("source_generation_id", PStr (psm_source_generation_id m));
     ("artifacts", PList (map artifact_to_mapping (artifacts m)));
     ("manifest_digest", PStr (manifest_digest m))].

(** ** DeterministicProjectionBuilder *)

Definition _identity (r : ProjectionRecord) : pyval :=
  py_record
    [("object_id", PStr (pr_object_id r)); ("workspace_id", PStr (pr_workspace_id r));
     ("revision_id", PStr (revision_id r)); ("kind", PStr (pr_kind r));
     ("lifecycle_status", PStr (pr_lifecycle_status r))].

(** [record.occurred_at or record.captured_at] *)
Definition timeline_at (r : ProjectionRecord) : string :=
  match occurred_at r with
  | Some t => if str_nonempty t then t else captured_at r
  | None => captured_at r
  end.

Definition _chronology (r : ProjectionRecord) : pyval :=
  py_record
    [("object_id", PStr (pr_object_id r)); ("workspace_id", PStr (pr_workspace_id r));
     ("revision_id", PStr (revision_id r)); ("timeline_at", PStr (timeline_at r));
     ("captured_at", PStr (captured_at r)); ("lifecycle_status", PStr (pr_lifecycle_status r))].

Definition _full (r : ProjectionRecord) : pyval :=
  py_record
    [("object_id", PStr (pr_object_id r)); ("workspace_id", PStr (pr_workspace_id r));
     ("revision_id", PStr (revision_id r)); ("kind", PStr (pr_kind r));
     ("lifecycle_status", PStr (pr_lifecycle_status r)); ("captured_at", PStr (captured_at r));
     ("occurred_at", py_opt (occurred_at r)); ("data", pr_data r)].

Definition object_key (r : ProjectionRecord) : list string := [pr_object_id r; revision_id r].
Definition timeline_key (r : ProjectionRecord) : list string :=
  [timeline_at r; pr_object_id r; revision_id r].

(** The projected rows: each keyed by the fields its dict is sorted on. *)
Definition projected (projection : string) (l : list ProjectionRecord) : list pyval :=
  if String.eqb projection "identity" then map _identity (sort_on_tuple object_key l)
  else if String.eqb projection "chronology" then map _chronology (sort_on_tuple timeline_key l)
  else map _full (sort_on_tuple object_key l).

Definition records_body (ws : string) (rows : list pyval) : pyval :=
  py_record [("workspace_id", PStr ws); ("records", PList rows)].

Definition artifact_body (p : ProjectionSpec) (ws gen root count : string) : pyval :=
  py_record
    [("projection_name", PStr (name p)); ("workspace_id", PStr ws);
     ("source_generation_id", PStr gen); ("schema_version", PStr (schema_version p));
     ("required", PBool (required p)); ("records_root", PStr root);
     ("record_count", PStr count)].

Definition build (p : ProjectionSpec) (ws gen : string) (l : list ProjectionRecord)
    : result projection_error ProjectionArtifact :=
  _ ← ensure (str_nonempty ws && str_nonempty gen) ProjectionContractError;
  _ ← ensure (forallb (fun r => String.eqb (pr_workspace_id r) ws) l) ProjectionContractError;
  let rows := projected (name p) l in
  rb ← value_err (canonical_bytes (records_body ws rows));
  let root := sha256_hex rb in
  let count := str_of_nat (length rows) in
  ab ← value_err (canonical_bytes (artifact_body p ws gen root count));
  Ok {| projection_name := name p; art_workspace_id := ws; source_generation_id := gen;
        art_schema_version := schema_version p; art_required := required p;
        artifact_digest := sha256_hex ab; records_root := root; record_count := count |}.
End Build.

(** ** InMemoryProjectionSource *)

Notation projection_source := (gmap (string * string) (list ProjectionRecord)).

Definition source_put (ws gen : string) (l : list ProjectionRecord) (s : projection_source)
    : result projection_error projection_source :=
  _ ← ensure (forallb (fun r => String.eqb (pr_workspace_id r) ws) l) ProjectionContractError;
  Ok (<[(ws, gen) := l]> s).

Definition records_at (s : projection_source) (ws gen : string)
    : result projection_error (list ProjectionRecord) :=
  match s !! (ws, gen) with Some l => Ok l | None => Err ProjectionKeyError end.

(** ** InMemoryProjectionPointerStore *)

Record InMemoryProjectionPointerStore : Type := {
  _pointers : gmap (string * string) ProjectionPointer;
  _lkg : gmap (string * string) ProjectionPointer;
  _staged : gmap string ProjectionStagingManifest;
}.

Definition empty_pointers : InMemoryProjectionPointerStore :=
  {| _pointers := ∅; _lkg := ∅; _staged := ∅ |}.

Definition _key (ws projection : string) : string * string := (ws, projection).

Definition current (s : InMemoryProjectionPointerStore) (ws projection : string)
    : option ProjectionPointer := _pointers s !! _key ws projection.
Definition last_known_good (s : InMemoryProjectionPointerStore) (ws projection : string)
    : option ProjectionPointer := _lkg s !! _key ws projection.

Definition stage (m : ProjectionStagingManifest) : st InMemoryProjectionPointerStore projection_error unit :=
  fun s =>
    match _staged s !! manifest_digest m with
    | Some existing =>
        if bool_decide (existing = m)
        then ({| _pointers := _pointers s; _lkg := _lkg s;
                 _staged := <[manifest_digest m := m]> (_staged s) |}, Ok tt)
        else (s, Err ProjectionContractError)
    | None => ({| _pointers := _pointers s; _lkg := _lkg s;
                  _staged := <[manifest_digest m := m]> (_staged s) |}, Ok tt)
    end.

(** [{item.projection_name: item for item in manifest.artifacts}]: the last of a name. *)
Definition artifact_named (arts : list ProjectionArtifact) (n : string) : option ProjectionArtifact :=
  list.last (List.filter (fun a => String.eqb (projection_name a) n) arts).

Definition _assert_staged (s : InMemoryProjectionPointerStore) (ws digest : string)
    (arts : list ProjectionArtifact) : result projection_error ProjectionStagingManifest :=
  m ← of_option ProjectionContractError (_staged s !! digest);
  _ ← ensure (String.eqb (psm_workspace_id m) ws) ProjectionContractError;
  _ ← ensure (forallb (fun a => String.eqb (art_workspace_id a) ws
                                && bool_decide (artifact_named (artifacts m) (projection_name a) = Some a))
                      arts) ProjectionContractError;
  Ok m.

Definition _pointer (digest : string) (a : ProjectionArtifact) : ProjectionPointer :=
  {| ptr_projection_name := projection_name a; ptr_workspace_id := art_workspace_id a;
     ptr_generation_id := source_generation_id a; ptr_artifact_digest := artifact_digest a;
     staging_manifest_digest := digest |}.

(** [set(l) == MINIMUM_PROJECTIONS] *)
Definition is_minimum (l : list string) : bool :=
  forallb (fun n => str_mem n MINIMUM_PROJECTIONS) l && forallb (fun n => str_mem n l) MINIMUM_PROJECTIONS.

Definition put_pointers (ws digest : string) (arts : list ProjectionArtifact)
    (m : gmap (string * string) ProjectionPointer) : gmap (string * string) ProjectionPointer :=
  foldl (fun m a => <[_key ws (projection_name a) := _pointer digest a]> m) m arts.

Definition publish_required (ws digest : string) (expected : list (string * option ProjectionPointer))
    (arts : list ProjectionArtifact) : st InMemoryProjectionPointerStore projection_error bool :=
  fun s =>
    match
      _ ← _assert_staged s ws digest arts;
      _ ← ensure (is_minimum (map projection_name arts) && forallb art_required arts)
                 ProjectionContractError;
      ensure (is_minimum (map fst expected)) ProjectionContractError
    with
    | Err e => (s, Err e)
    | Ok _ =>
        if negb (forallb (fun n => bool_decide (Some (current s ws n) = assoc n expected))
                         MINIMUM_PROJECTIONS)
        then (s, Ok false)
        else ({| _pointers := put_pointers ws digest arts (_pointers s);
                 _lkg := put_pointers ws digest arts (_lkg s); _staged := _staged s |}, Ok true)
    end.

Definition publish_optional (ws digest : string) (expected : option ProjectionPointer)
    (a : ProjectionArtifact) : st InMemoryProjectionPointerStore projection_error bool :=
  fun s =>
    match
      _ ← _assert_staged s ws digest [a];
      ensure (negb (art_required a || str_mem (projection_name a) MINIMUM_PROJECTIONS))
             ProjectionContractError
    with
    | Err e => (s, Err e)
    | Ok _ =>
        if negb (bool_decide (current s ws (projection_name a) = expected)) then (s, Ok false)
        else ({| _pointers := <[_key ws (projection_name a) := _pointer digest a]> (_pointers s);
                 _lkg := <[_key ws (projection_name a) := _pointer digest a]> (_lkg s);
                 _staged := _staged s |}, Ok true)
    end.

(** ** ProjectionCoordinator *)

(** ProjectionSource and ProjectionBuilder; a builder may raise ([None]). *)
Class ProjectionPorts : Type := {
  source_records : string -> string -> option (list ProjectionRecord);
  builder : ProjectionSpec -> string -> string -> list ProjectionRecord -> option ProjectionArtifact;
}.

Definition coordinator_new (specs : list ProjectionSpec) : result projection_error (list ProjectionSpec) :=
  let ordered := sort_on name specs in
  _ ← ensure (negb (bool_decide (ordered = [])) && str_unique (map name ordered)) ProjectionContractError;
  _ ← ensure (is_minimum (map name (List.filter required ordered))) ProjectionContractError;
  Ok ordered.

Section Coordinator.
Context {U : Unicode} {D : Digest} {P : ProjectionPorts}.
(** What the other threads do to the pointer store before the [n]-th call of it. *)
Variable others : nat -> InMemoryProjectionPointerStore -> InMemoryProjectionPointerStore.

Definition run_result (status gen : string) (digest : option string) (adv req opt : list string)
    (code : option string) : ProjectionRunResult :=
  {| run_status := status; run_generation_id := gen; run_manifest_digest := digest; advanced := adv;
     failed_required := req; failed_optional := opt; run_error_code := code |}.

(** The artifacts that could be built, and the names of those that could not. *)
Fixpoint build_all (specs : list ProjectionSpec) (ws gen : string) (l : list ProjectionRecord)
    : list (string * ProjectionArtifact) * list string * list string :=
  match specs with
  | [] => ([], [], [])
  | p :: specs =>
      let '(arts, freq, fopt) := build_all specs ws gen l in
      match builder p ws gen l with
      | Some a => ((name p, a) :: arts, freq, fopt)
      | None => if required p then (arts, name p :: freq, fopt) else (arts, freq, name p :: fopt)
      end
  end.

(** The loop over the optional projections; [n] numbers the store calls. *)
Fixpoint publish_all (n : nat) (ws digest : string) (specs : list ProjectionSpec)
    (arts : list (string * ProjectionArtifact)) (s : InMemoryProjectionPointerStore)
    : InMemoryProjectionPointerStore * (list string * list string) :=
  match specs with
  | [] => (s, ([], []))
  | p :: specs =>
      match required p, assoc (name p) arts with
      | false, Some a =>
          let s := others n s in
          let expected := current s ws (name p) in
          let '(s, published) := publish_optional ws digest expected a (others (S n) s) in
          let '(s, (adv, fail)) := publish_all (S (S n)) ws digest specs arts s in
          match published with
          | Ok true => (s, (name p :: adv, fail))
          | _ => (s, (adv, name p :: fail))
          end
      | _, _ => publish_all n ws digest specs arts s
      end
  end.

(** [sorted(set(l))] *)
Definition sort_set (l : list string) : list string := sort_str (remove_dups l).

Definition rebuild (specs : list ProjectionSpec) (ws gen : string)
    (s : InMemoryProjectionPointerStore)
    : InMemoryProjectionPointerStore * result projection_error ProjectionRunResult :=
  match source_records ws gen with
  | None => (s, Ok (run_result "retry_later" gen None [] MINIMUM_PROJECTIONS []
                      (Some "projection_source_unavailable")))
  | Some l =>
      if negb (forallb (fun r => String.eqb (pr_workspace_id r) ws) l)
      then (s, Ok (run_result "rejected" gen None [] MINIMUM_PROJECTIONS []
                     (Some "projection_workspace_mismatch")))
      else
        let '(arts, freq, fopt) := build_all specs ws gen l in
        if negb (bool_decide (freq = []))
        then (s, Ok (run_result "retry_later" gen None [] (sort_str freq) (sort_str fopt)
                       (Some "required_projection_failed")))
        else
          match manifest_create ws gen (map snd arts) with
          | Err e => (s, Err e)
          | Ok m =>
              match stage m (others 0 s) with
              | (s, Err _) =>
                  (s, Ok (run_result "retry_later" gen None [] [] (sort_str fopt)
                            (Some "projection_staging_failed")))
              | (s, Ok _) =>
                  match mapM (fun n => assoc n arts) MINIMUM_PROJECTIONS with
                  | None => (s, Err ProjectionKeyError)
                  | Some req =>
                      let s := others 1 s in
                      let expected0 := current s ws "chronology" in
                      let s := others 2 s in
                      let expected :=
                        [("chronology", expected0); ("identity", current s ws "identity")] in
                      match publish_required ws (manifest_digest m) expected req (others 3 s) with
                      | (s, Ok true) =>
                          let '(s, (adv, fail)) := publish_all 4 ws (manifest_digest m) specs arts s in
                          (s, Ok (run_result "ok" gen (Some (manifest_digest m))
                                    (sort_str (MINIMUM_PROJECTIONS ++ adv)) []
                                    (sort_set (fopt ++ fail)) None))
                      | (s, _) =>
                          (s, Ok (run_result "retry_later" gen (Some (manifest_digest m)) []
                                    MINIMUM_PROJECTIONS (sort_str fopt)
                                    (Some "required_projection_pointer_conflict")))
                      end
                  end
              end
          end
  end.
End Coordinator.

(** ** The invariant of the pointer store *)

(** A staged manifest as [manifest_create] makes it: one workspace, one generation. *)
Record manifest_ok (digest : string) (m : ProjectionStagingManifest) : Prop := {
  mok_digest : manifest_digest m = digest;
  mok_generation : forall a, a ∈ artifacts m -> source_generation_id a = psm_source_generation_id m;
}.

(** A pointer names an artifact of the manifest it was staged with. *)
Definition pointer_bound (s : InMemoryProjectionPointerStore) (k : string * string)
    (p : ProjectionPointer) : Prop :=
  exists m a, _staged s !! staging_manifest_digest p = Some m /\ a ∈ artifacts m /\
    psm_workspace_id m = k.1 /\ projection_name a = k.2 /\
    p = _pointer (staging_manifest_digest p) a /\ art_workspace_id a = k.1.

Record pointers_ok (s : InMemoryProjectionPointerStore) : Prop := {
  pok_staged : forall d m, _staged s !! d = Some m -> manifest_ok d m;
  pok_lkg : _lkg s = _pointers s;
  pok_bound : forall k p, _pointers s !! k = Some p -> pointer_bound s k p;
  pok_minimum : forall ws,
    staging_manifest_digest <$> current s ws "identity" =
    staging_manifest_digest <$> current s ws "chronology";
}.

Lemma manifest_create_ok {U : Unicode} {D : Digest} ws gen arts m :
  manifest_create ws gen arts = Ok m ->
  manifest_ok (manifest_digest m) m /\ psm_workspace_id m = ws /\ psm_source_generation_id m = gen /\
  artifacts m = sort_on projection_name arts /\ NoDup (projection_name <$> artifacts m).
Proof.
  unfold manifest_create. intros H.
  apply bind_ok in H as (? & _ & H). apply bind_ok in H as (? & Hu & H).
  apply bind_ok in H as (? & _ & H). apply bind_ok in H as (? & Hg & H).
  apply bind_ok in H as (b & _ & [= <-]). apply ensure_ok in Hu, Hg.
  cbn. repeat split; [|by apply bool_decide_eq_true in Hu].
  intros a Ha. cbn in *. rewrite forallb_forall in Hg. apply list_elem_of_In, Hg in Ha.
  by apply String.eqb_eq.
Qed.

Lemma stage_ok m s s' r :
  stage m s = (s', r) -> manifest_ok (manifest_digest m) m -> pointers_ok s -> pointers_ok s'.
Proof.
  intros Hs Hm [H1 H2 H3 H4].
  assert (Hput : (forall x, _staged s !! manifest_digest m = Some x -> x = m) ->
    pointers_ok {| _pointers := _pointers s; _lkg := _lkg s;
                   _staged := <[manifest_digest m := m]> (_staged s) |}).
  { intros Hx. split; cbn; [|done| |done].
    - intros d m'. destruct (decide (d = manifest_digest m)) as [->|].
      + rewrite lookup_insert_eq. by intros [= <-].
      + rewrite lookup_insert_ne by done. apply H1.
    - intros k p Hp. apply H3 in Hp as (m' & a & Hl & Hr). exists m', a. split; [|done]. cbn.
      destruct (decide (staging_manifest_digest p = manifest_digest m)) as [E|].
      + rewrite E in *. rewrite lookup_insert_eq. f_equal. symmetry. by apply Hx.
      + by rewrite lookup_insert_ne. }
  unfold stage in Hs. destruct (_staged s !! manifest_digest m) as [x|] eqn:E.
  - case_bool_decide as Hx; injection Hs as <- _; [apply Hput; congruence | by split].
  - injection Hs as <- _. by apply Hput.
Qed.

Lemma artifact_named_elem arts n a :
  artifact_named arts n = Some a -> a ∈ arts /\ projection_name a = n.
Proof.
  unfold artifact_named. intros Hl%last_Some_elem_of. apply list_elem_of_In, List.filter_In in Hl as [Hl Hn].
  split; [by apply list_elem_of_In | by apply String.eqb_eq].
Qed.

Lemma _assert_staged_ok s ws d arts m :
  _assert_staged s ws d arts = Ok m ->
  _staged s !! d = Some m /\ psm_workspace_id m = ws /\
  forall a, a ∈ arts -> a ∈ artifacts m /\ art_workspace_id a = ws.
Proof.
  unfold _assert_staged. destruct (_staged s !! d) as [x|]; [|done]. cbn [of_option].
  intros H. apply bind_ok in H as (? & [= <-] & H). apply bind_ok in H as (? & Hw & H).
  apply bind_ok in H as (? & Ha & [= <-]). apply ensure_ok in Hw, Ha.
  split; [done|]. split; [by apply String.eqb_eq|]. intros a Hin.
  rewrite forallb_forall in Ha. apply list_elem_of_In, Ha, andb_true_iff in Hin as [H1 H2].
  apply bool_decide_eq_true in H2. split; [by apply artifact_named_elem in H2 as [? _] | by apply String.eqb_eq].
Qed.

Lemma put_pointers_lookup ws d arts m k :
  put_pointers ws d arts m !! k =
    if bool_decide (k.1 = ws)
    then match artifact_named arts k.2 with Some a => Some (_pointer d a) | None => m !! k end
    else m !! k.
Proof.
  unfold put_pointers. revert m; induction arts as [|a arts IH] using rev_ind; intros m.
  { cbn. by case_bool_decide. }
  rewrite foldl_app. cbn. unfold artifact_named. rewrite List.filter_app. cbn.
  destruct k as [w n]. cbn in *. destruct (decide (w = ws)) as [->|Hw].
  - rewrite bool_decide_eq_true_2 by done. destruct (String.eqb_spec (projection_name a) n) as [<-|Hn].
    + rewrite last_snoc. apply lookup_insert_eq.
    + rewrite app_nil_r. rewrite lookup_insert_ne; [|unfold _key; congruence].
      rewrite IH. by rewrite bool_decide_eq_true_2.
  - rewrite bool_decide_eq_false_2 by done. rewrite lookup_insert_ne; [|unfold _key; congruence].
    rewrite IH. by rewrite bool_decide_eq_false_2.
Qed.

Lemma is_minimum_elem l n : is_minimum l = true -> n ∈ MINIMUM_PROJECTIONS <-> n ∈ l.
Proof.
  unfold is_minimum. rewrite andb_true_iff, !forallb_forall. intros [H1 H2]. split.
  - intros Hn%list_elem_of_In%H2. by apply str_mem_spec.
  - intros Hn%list_elem_of_In%H1. by apply str_mem_spec.
Qed.

Lemma artifact_named_some arts n :
  n ∈ map projection_name arts -> exists a, artifact_named arts n = Some a.
Proof.
  intros Hn. apply list_elem_of_fmap in Hn as (a & -> & Ha). unfold artifact_named.
  destruct (List.filter _ arts) as [|x l] eqn:E.
  - exfalso. assert (Hin : In a (List.filter (fun a' => String.eqb (projection_name a') (projection_name a)) arts)).
    { apply List.filter_In. split; [by apply list_elem_of_In | apply String.eqb_refl]. }
    by rewrite E in Hin.
  - rewrite last_cons. destruct (list.last l); eauto.
Qed.

(** What a successful publication of the minimum profile requires. *)
Record can_publish (s : InMemoryProjectionPointerStore) (ws d : string)
    (expected : list (string * option ProjectionPointer)) (arts : list ProjectionArtifact)
    (m : ProjectionStagingManifest) : Prop := {
  cp_staged : _assert_staged s ws d arts = Ok m;
  cp_minimum : is_minimum (map projection_name arts) = true;
  cp_required : forallb art_required arts = true;
  cp_expected : is_minimum (map fst expected) = true;
  cp_current : forall n, n ∈ MINIMUM_PROJECTIONS -> assoc n expected = Some (current s ws n);
}.

Definition published (ws d : string) (arts : list ProjectionArtifact)
    (s : InMemoryProjectionPointerStore) : InMemoryProjectionPointerStore :=
  {| _pointers := put_pointers ws d arts (_pointers s); _lkg := put_pointers ws d arts (_lkg s);
     _staged := _staged s |}.

Lemma publish_required_cases s ws d expected arts s' r :
  publish_required ws d expected arts s = (s', r) ->
  (s' = s /\ r <> Ok true) \/
  (s' = published ws d arts s /\ r = Ok true /\ exists m, can_publish s ws d expected arts m).
Proof.
  unfold publish_required. destruct (_assert_staged s ws d arts) as [m|] eqn:Hm; cbn [mbind result_bind].
  2: { intros [= <- <-]; by left. }
  destruct (is_minimum (map projection_name arts) && forallb art_required arts) eqn:Hn;
    cbn [ensure mbind result_bind]; [|intros [= <- <-]; by left].
  destruct (is_minimum (map fst expected)) eqn:He; cbn [ensure]; [|intros [= <- <-]; by left].
  destruct (forallb _ MINIMUM_PROJECTIONS) eqn:Hc; cbn [negb]; intros [= <- <-]; [right | by left].
  split; [done|]. split; [done|]. exists m. apply andb_true_iff in Hn as [??]. constructor; try done.
  intros n Hn. rewrite forallb_forall in Hc. apply list_elem_of_In, Hc, bool_decide_eq_true in Hn. done.
Qed.

Lemma publish_required_ok s ws d expected arts s' r :
  publish_required ws d expected arts s = (s', r) -> pointers_ok s -> pointers_ok s'.
Proof.
  intros Hp Hok. apply publish_required_cases in Hp as [[-> _]|(-> & _ & m & [Hst Hmin Hreq _ _])]; [done|].
  destruct Hok as [H1 H2 H3 H4]. apply _assert_staged_ok in Hst as (Hst & Hws & Ha).
  split; cbn; [done | by rewrite H2 | |].
  - intros k p. rewrite put_pointers_lookup. case_bool_decide as Hk; [|apply H3].
    destruct (artifact_named arts k.2) as [a|] eqn:E; [|apply H3]. intros [= <-].
    apply artifact_named_elem in E as [Hin Hn]. destruct (Ha a Hin) as [Hm Haw].
    exists m, a. cbn. rewrite Hk. by repeat split.
  - intros ws'. unfold current, published; cbn. rewrite !put_pointers_lookup. cbn.
    case_bool_decide; [|apply H4].
    assert (Hsome : forall n, n ∈ MINIMUM_PROJECTIONS -> exists a, artifact_named arts n = Some a).
    { intros n Hn. apply artifact_named_some. by apply (is_minimum_elem _ _ Hmin). }
    destruct (Hsome "identity") as [a ->]; [by apply str_mem_spec|].
    destruct (Hsome "chronology") as [b ->]; [by apply str_mem_spec|]. done.
Qed.

Lemma publish_optional_cases s ws d expected a s' r :
  publish_optional ws d expected a s = (s', r) ->
  (s' = s /\ r <> Ok true) \/
  (r = Ok true /\ current s ws (projection_name a) = expected /\
   projection_name a ∉ MINIMUM_PROJECTIONS /\ (exists m, _assert_staged s ws d [a] = Ok m) /\
   s' = {| _pointers := <[_key ws (projection_name a) := _pointer d a]> (_pointers s);
           _lkg := <[_key ws (projection_name a) := _pointer d a]> (_lkg s); _staged := _staged s |}).
Proof.
  unfold publish_optional. destruct (_assert_staged s ws d [a]) as [m|] eqn:Hm; cbn [mbind result_bind].
  2: { intros [= <- <-]; by left. }
  destruct (art_required a || str_mem (projection_name a) MINIMUM_PROJECTIONS) eqn:Hn; cbn [negb ensure];
    [intros [= <- <-]; by left|].
  apply orb_false_iff in Hn as [_ Hn].
  case_bool_decide as Hc; cbn [negb]; intros [= <- <-]; [right | by left].
  split; [done|]. split; [done|]. split; [|by eauto]. intros Hin%str_mem_spec. congruence.
Qed.

Lemma publish_optional_ok s ws d expected a s' r :
  publish_optional ws d expected a s = (s', r) -> pointers_ok s -> pointers_ok s'.
Proof.
  intros Hp Hok. apply publish_optional_cases in Hp as [[-> _]|(_ & _ & Hn & [m Hst] & ->)]; [done|].
  destruct Hok as [H1 H2 H3 H4]. apply _assert_staged_ok in Hst as (Hst & Hws & Ha).
  split; cbn; [done | by rewrite H2 | |].
  - intros k p. destruct (decide (k = _key ws (projection_name a))) as [->|Hk].
    + rewrite lookup_insert_eq. intros [= <-]. destruct (Ha a ltac:(by left)) as [Hm Haw].
      by exists m, a.
    + rewrite lookup_insert_ne by done. apply H3.
  - intros ws'. unfold current; cbn. rewrite !lookup_insert_ne; [apply H4| |];
      intros [= _ E]; apply Hn; rewrite E; by apply str_mem_spec.
Qed.

Section Rebuild.
Context {U : Unicode} {D : Digest} {P : ProjectionPorts}.
Variable others : nat -> InMemoryProjectionPointerStore -> InMemoryProjectionPointerStore.
Hypothesis others_ok : forall n s, pointers_ok s -> pointers_ok (others n s).

Lemma publish_all_ok n ws d specs arts s s' r :
  publish_all others n ws d specs arts s = (s', r) -> pointers_ok s -> pointers_ok s'.
Proof using others_ok.
  revert n s s' r; induction specs as [|p specs IH]; intros n s s' r; cbn [publish_all].
  { by intros [= <- _]. }
  destruct (required p); [by apply IH|]. destruct (assoc (name p) arts) as [a|]; [|by apply IH].
  destruct (publish_optional _ _ _ _ _) as [s1 b] eqn:Hp.
  destruct (publish_all others (S (S n)) ws d specs arts s1) as [s2 [adv fail]] eqn:Hr.
  intros Hs' Hok. assert (s' = s2) as -> by (destruct b as [[]|]; congruence).
  eapply IH; [exact Hr|]. eapply publish_optional_ok; [exact Hp|]. auto.
Qed.

Lemma rebuild_pointers_ok specs ws gen s s' r :
  rebuild others specs ws gen s = (s', r) -> pointers_ok s -> pointers_ok s'.
Proof using others_ok.
  unfold rebuild. destruct (source_records ws gen) as [l|]; [|by intros [= <- _]].
  destruct (negb _); [by intros [= <- _]|].
  destruct (build_all specs ws gen l) as [[arts freq] fopt]. destruct (negb _); [by intros [= <- _]|].
  destruct (manifest_create ws gen (map snd arts)) as [m|] eqn:Hm; [|by intros [= <- _]].
  apply manifest_create_ok in Hm as [Hm _].
  destruct (stage m (others 0 s)) as [s1 [u|]] eqn:Hst; intros Hr Hok;
    (assert (Hok1 : pointers_ok s1) by (eapply stage_ok; [exact Hst | done | auto]));
    [|by injection Hr as <- _].
  destruct (mapM _ MINIMUM_PROJECTIONS) as [req|]; [|by injection Hr as <- _].
  destruct (publish_required _ _ _ _ _) as [s2 b] eqn:Hp.
  assert (Hok2 : pointers_ok s2) by (eapply publish_required_ok; [exact Hp | auto]).
  destruct b as [[]|]; [|by injection Hr as <- _..].
  destruct (publish_all others 4 ws (manifest_digest m) specs arts s2) as [s3 [adv fail]] eqn:Hall.
  injection Hr as <- _. by eapply publish_all_ok.
Qed.
End Rebuild.

Section QuietRebuild.
Context {U : Unicode} {D : Digest} {P : ProjectionPorts}.

Definition quiet : nat -> InMemoryProjectionPointerStore -> InMemoryProjectionPointerStore :=
  fun _ s => s.

Definition named (arts : list (string * ProjectionArtifact)) : Prop :=
  forall n a, assoc n arts = Some a -> projection_name a = n.

Lemma publish_all_spec n ws d specs arts s s' adv fail :
  named arts -> publish_all quiet n ws d specs arts s = (s', (adv, fail)) ->
  (forall x, x ∈ adv -> x ∉ MINIMUM_PROJECTIONS /\
     exists a, assoc x arts = Some a /\ current s' ws x = Some (_pointer d a)) /\
  (forall k, k.1 <> ws \/ k.2 ∉ adv -> _pointers s' !! k = _pointers s !! k).
Proof.
  intros Hn. revert n s s' adv fail.
  induction specs as [|p specs IH]; intros n s s' adv fail; cbn [publish_all].
  { intros [= <- <- <-]. split; [by intros x ?%elem_of_nil | done]. }
  destruct (required p); [by apply IH|]. destruct (assoc (name p) arts) as [a|] eqn:Ha; [|by apply IH].
  unfold quiet at 1 2 3. cbn zeta.
  destruct (publish_optional _ _ _ _ _) as [s1 b] eqn:Hp.
  destruct (publish_all quiet (S (S n)) ws d specs arts s1) as [s2 [adv2 fail2]] eqn:Hr.
  apply IH in Hr as [Hadv Hframe]. pose proof (Hn _ _ Ha) as Hname.
  apply publish_optional_cases in Hp as [[-> Hb]|(-> & _ & Hmin & _ & ->)].
  - intros He. assert (s' = s2 /\ adv = adv2) as [-> ->] by (destruct b as [[]|]; naive_solver). done.
  - intros [= <- <- <-]. rewrite Hname in *. split.
    + intros x [->|Hx]%elem_of_cons; [split; [done|]|by apply Hadv].
      exists a. split; [done|]. destruct (decide (name p ∈ adv2)) as [Hin|Hout].
      * destruct (Hadv _ Hin) as (_ & a' & Ha' & Hc). congruence.
      * unfold current. rewrite Hframe by by right. apply lookup_insert_eq.
    + intros k Hk. rewrite Hframe by (rewrite elem_of_cons in Hk; tauto). cbn.
      apply lookup_insert_ne. intros <-. rewrite elem_of_cons in Hk. cbn in Hk. tauto.
Qed.

Lemma build_all_assoc specs ws gen l arts freq fopt n a :
  build_all specs ws gen l = (arts, freq, fopt) -> assoc n arts = Some a ->
  exists p, p ∈ specs /\ name p = n /\ builder p ws gen l = Some a.
Proof.
  revert arts freq fopt; induction specs as [|p specs IH]; intros arts freq fopt; cbn [build_all].
  { by intros [= <- _ _]. }
  destruct (build_all specs ws gen l) as [[arts0 freq0] fopt0] eqn:E.
  assert (Hrec : assoc n arts0 = Some a ->
            exists p0, p0 ∈ p :: specs /\ name p0 = n /\ builder p0 ws gen l = Some a).
  { intros H0. destruct (IH _ _ _ eq_refl H0) as (p0 & ? & ?). exists p0. by rewrite elem_of_cons; auto. }
  destruct (builder p ws gen l) as [a0|] eqn:Hb.
  - intros [= <- _ _]. cbn [assoc]. destruct (String.eqb_spec n (name p)) as [->|]; [|done].
    intros [= <-]. exists p. by rewrite elem_of_cons; auto.
  - destruct (required p); intros [= <- _ _]; done.
Qed.

(** Every built artifact is in the manifest, hence of the manifest's generation. *)
Lemma assoc_manifest ws gen arts m n a :
  manifest_create ws gen (map snd arts) = Ok m -> assoc n arts = Some a ->
  source_generation_id a = gen.
Proof.
  intros Hm Ha. apply manifest_create_ok in Hm as (Hok & _ & <- & Harts & _).
  apply (mok_generation _ _ Hok). rewrite Harts. unfold sort_on. rewrite py_sort_elem.
  apply assoc_Some_elem in Ha. apply list_elem_of_fmap. by exists (n, a).
Qed.

(** The pointers after the minimum profile is published. *)
Lemma minimum_published ws d arts req s :
  named arts -> mapM (fun n => assoc n arts) MINIMUM_PROJECTIONS = Some req ->
  (forall n, n ∈ MINIMUM_PROJECTIONS -> exists a, assoc n arts = Some a /\
     current (published ws d req s) ws n = Some (_pointer d a)) /\
  (forall k, k.1 <> ws \/ k.2 ∉ MINIMUM_PROJECTIONS ->
     _pointers (published ws d req s) !! k = _pointers s !! k).
Proof.
  intros Hn Hreq. apply mapM_Some in Hreq.
  inversion Hreq as [|? a1 ? l1 H1 Hl1]; subst. inversion Hl1 as [|? a2 ? l2 H2 Hl2]; subst.
  inversion Hl2; subst. pose proof (Hn _ _ H1) as N1. pose proof (Hn _ _ H2) as N2. split.
  - intros n Hin. unfold current, published; cbn [_pointers]. rewrite put_pointers_lookup. cbn [_key fst snd].
    rewrite bool_decide_eq_true_2 by done. unfold artifact_named; cbn [List.filter]. rewrite N1, N2.
    apply elem_of_cons in Hin as [->|[->|[]%elem_of_nil]%elem_of_cons]; cbn; eauto.
  - intros [w n] Hk. unfold published; cbn [_pointers]. rewrite put_pointers_lookup. cbn [fst snd] in *.
    case_bool_decide as Hw; [|done]. destruct (artifact_named _ n) as [a|] eqn:E; [|done].
    exfalso. apply artifact_named_elem in E as [Hin Hname]. destruct Hk as [?|Hk]; [done|]. apply Hk.
    apply elem_of_cons in Hin as [->|[->|[]%elem_of_nil]%elem_of_cons]; rewrite <- Hname, ?N1, ?N2;
      by apply str_mem_spec.
Qed.
End QuietRebuild.

(** ** Claims *)
Section ProjectionClaims.
Context {U : Unicode} {D : Digest}.

(** Whatever other threads do to the pointer store between the calls of a rebuild
    (as long as they keep its invariant), the rebuild keeps it: the identity and
    chronology pointers of a workspace always come from one staged manifest, every
    pointer names an artifact of the manifest it was staged with and of that manifest's
    workspace, and the last-known-good pointers are the pointers. *)
Theorem rebuild_keeps_minimum_atomic {P : ProjectionPorts} others specs ws gen s s' r :
  (forall n s, pointers_ok s -> pointers_ok (others n s)) -> pointers_ok s ->
  rebuild others specs ws gen s = (s', r) ->
  pointers_ok s' /\
  (forall ws', staging_manifest_digest <$> current s' ws' "identity" =
               staging_manifest_digest <$> current s' ws' "chronology") /\
  (forall ws' p q, current s' ws' "identity" = Some p -> current s' ws' "chronology" = Some q ->
     ptr_generation_id p = ptr_generation_id q).
Proof.
  intros Ho Hok Hr. assert (Hok' : pointers_ok s') by by eapply rebuild_pointers_ok.
  split; [done|]. destruct Hok' as [H1 H2 H3 H4]. split; [done|].
  intros ws' p q Hp Hq. pose proof (H4 ws') as Heq. rewrite Hp, Hq in Heq. injection Heq as Heq.
  apply H3 in Hp as (m & a & Hm & Ha & _ & _ & -> & _).
  apply H3 in Hq as (m' & b & Hm' & Hb & _ & _ & -> & _). cbn [ptr_generation_id staging_manifest_digest _pointer] in *.
  assert (m' = m) as -> by congruence. apply H1 in Hm as [_ Hg]. by rewrite (Hg a), (Hg b).
Qed.

(** Without interference a rebuild either answers "ok", and then exactly the
    projections it lists as advanced (the minimum profile among them) point at the
    requested generation through the staged manifest, or leaves every pointer and
    last-known-good pointer as it was.  No other workspace's pointer ever changes. *)
Theorem rebuild_all_or_nothing {P : ProjectionPorts} specs ws gen s s' r :
  (forall p ws gen l a, builder p ws gen l = Some a -> projection_name a = name p) ->
  rebuild quiet specs ws gen s = (s', r) ->
  ((forall res, r = Ok res -> run_status res <> "ok") ->
     _pointers s' = _pointers s /\ _lkg s' = _lkg s) /\
  (forall res, r = Ok res -> run_status res = "ok" ->
     MINIMUM_PROJECTIONS ⊆ advanced res /\
     (forall n, n ∈ advanced res -> exists p, current s' ws n = Some p /\
        ptr_generation_id p = gen /\ run_manifest_digest res = Some (staging_manifest_digest p)) /\
     (forall k, k.1 <> ws \/ k.2 ∉ advanced res -> _pointers s' !! k = _pointers s !! k)).
Proof.
  intros Hb. unfold rebuild, quiet.
  destruct (source_records ws gen) as [l|]; [|intros [= <- <-]; split; [done | by intros ? [= <-]]].
  destruct (negb _); [intros [= <- <-]; split; [done | by intros ? [= <-]]|].
  destruct (build_all specs ws gen l) as [[arts freq] fopt] eqn:Hall.
  destruct (negb _); [intros [= <- <-]; split; [done | by intros ? [= <-]]|].
  destruct (manifest_create ws gen (map snd arts)) as [m|] eqn:Hm;
    [|intros [= <- <-]; split; [done | by intros ? [=]]].
  destruct (stage m s) as [s1 [u|]] eqn:Hst.
  2: { intros [= <- <-]. unfold stage in Hst. destruct (_staged s !! _); [|done].
       case_bool_decide; [done|]. injection Hst as <- _. split; [done | by intros ? [= <-]]. }
  assert (Hs1 : _pointers s1 = _pointers s /\ _lkg s1 = _lkg s).
  { unfold stage in Hst. destruct (_staged s !! _); [case_bool_decide|]; by injection Hst as <-. }
  destruct (mapM _ MINIMUM_PROJECTIONS) as [req|] eqn:Hreq;
    [|intros [= <- <-]; split; [done | by intros ? [=]]].
  destruct (publish_required _ _ _ _ _) as [s2 b] eqn:Hp.
  apply publish_required_cases in Hp as [[-> Hbn]|(-> & -> & m' & Hcp)].
  { intros He. assert (s' = s1 /\ exists res, r = Ok res /\ run_status res <> "ok") as (-> & res & -> & Hne).
    { destruct b as [[]|]; [done | |]; injection He as <- <-; by eauto. }
    split; [done|]. by intros res' [= <-]. }
  destruct (publish_all _ 4 ws (manifest_digest m) specs arts _) as [s3 [adv fail]] eqn:Hpub.
  intros [= <- <-]. split; [intros Hno; by destruct (Hno _ eq_refl)|]. intros res [= <-] _.
  assert (Hnamed : named arts).
  { intros n a Ha. destruct (build_all_assoc _ _ _ _ _ _ _ _ _ Hall Ha) as (p & _ & <- & Hbp). eauto. }
  destruct (publish_all_spec _ _ _ _ _ _ _ _ _ Hnamed Hpub) as [Hadv Hframe].
  destruct (minimum_published ws (manifest_digest m) arts req s1 Hnamed Hreq) as [Hmin Hout].
  assert (Hin : forall n, n ∈ sort_str (MINIMUM_PROJECTIONS ++ adv) <-> n ∈ MINIMUM_PROJECTIONS \/ n ∈ adv).
  { intros n. unfold sort_str. rewrite py_sort_elem. apply elem_of_app. }
  cbn [advanced run_result run_manifest_digest]. split; [intros n Hn; apply Hin; by left|]. split.
  - intros n Hn.
    assert (exists a, assoc n arts = Some a /\ current s3 ws n = Some (_pointer (manifest_digest m) a))
      as (a & Ha & Hc).
    { apply Hin in Hn as [Hn|Hn]; [|by apply Hadv]. destruct (Hmin n Hn) as (a & Ha & Hc).
      exists a. split; [done|]. rewrite <- Hc. unfold current. apply Hframe. right.
      intros Hx%Hadv. by destruct Hx. }
    eexists. split; [exact Hc|]. split; [|done]. by eapply assoc_manifest.
  - intros k Hk. destruct Hs1 as [Hs1 _]. rewrite Hin in Hk.
    rewrite Hframe, Hout, Hs1 by tauto. done.
Qed.

(** The reference builder is deterministic up to the order of the records: when the
    records have distinct (object, revision) pairs, any order gives the same artifact.
    Its digests bind: two artifacts it built with one digest agree on the workspace, the
    projection, the generation, the schema, the required flag and the records root up to
    NFC, or the bytes hashed for the two digests collide. *)
Theorem build_deterministic_binding :
  (forall p ws gen l l', l ≡ₚ l' -> NoDup (object_key <$> l) -> build p ws gen l = build p ws gen l') /\
  (forall p ws gen l a p' ws' gen' l' a',
     build p ws gen l = Ok a -> build p' ws' gen' l' = Ok a' ->
     artifact_digest a = artifact_digest a' ->
     (nfc ws = nfc ws' /\ nfc (name p) = nfc (name p') /\ nfc gen = nfc gen' /\
      nfc (schema_version p) = nfc (schema_version p') /\ required p = required p' /\
      nfc (records_root a) = nfc (records_root a')) \/
     collision (preimage (artifact_body p ws gen (records_root a) (record_count a)) ++
                preimage (artifact_body p' ws' gen' (records_root a') (record_count a')))).
Proof.
  split.
  - intros p ws gen l l' Hp Hnd. unfold build.
    assert (Hws : forallb (fun r => String.eqb (pr_workspace_id r) ws) l =
                  forallb (fun r => String.eqb (pr_workspace_id r) ws) l').
    { apply eq_true_iff_eq. rewrite !forallb_forall. setoid_rewrite <- list_elem_of_In.
      split; intros H x Hx; apply H; [by rewrite Hp | by rewrite <- Hp]. }
    assert (Hproj : projected (name p) l = projected (name p) l').
    { assert (Hk : forall x y, x ∈ l -> y ∈ l -> object_key x = object_key y -> x = y).
      { intros x y Hx Hy He. apply list_elem_of_lookup in Hx as [i Hi], Hy as [j Hj].
        assert (i = j) as <-; [|congruence].
        eapply NoDup_lookup; [exact Hnd | |]; rewrite list_lookup_fmap; [by rewrite Hi | by rewrite Hj, He]. }
      unfold projected. rewrite !(sort_on_tuple_perm object_key l l' Hk Hp).
      rewrite (sort_on_tuple_perm timeline_key l l'); [done | | done].
      intros x y Hx Hy [= _ H1 H2]. apply Hk; [done | done|]. unfold object_key. by rewrite H1, H2. }
    by rewrite Hws, Hproj.
  - intros p ws gen l a p' ws' gen' l' a'. unfold build. intros H H' Hd.
    apply bind_ok in H as (? & _ & H), H' as (? & _ & H').
    apply bind_ok in H as (? & _ & H), H' as (? & _ & H').
    cbn zeta in H, H'. apply bind_ok in H as (rb & _ & H), H' as (rb' & _ & H').
    apply bind_ok in H as (ab & Hab & [= <-]), H' as (ab' & Hab' & [= <-]).
    cbn [artifact_digest records_root] in Hd |- *.
    assert (Hf : forall p ws gen root count, map_free (artifact_body p ws gen root count) = true) by done.
    apply value_err_ok in Hab, Hab'. destruct (contract_digest_inj _ _ _ _ (Hf _ _ _ _ _) (Hf _ _ _ _ _) Hab Hab' Hd)
      as [(j & j' & Hj & Hj' & E)|?]; [left | by right].
    destruct (normalize_record_obj _ _ Hj) as [ms ->]. destruct (normalize_record_obj _ _ Hj') as [ms' ->].
    norm_record Hj. norm_record Hj'. injection Hj as <-. injection Hj' as <-.
    pose proof (json_members _ _ E eq_refl) as Hk.
    pose proof (Hk "projection_name") as H1. pose proof (Hk "workspace_id") as H2.
    pose proof (Hk "source_generation_id") as H3. pose proof (Hk "schema_version") as H4.
    pose proof (Hk "required") as H5. pose proof (Hk "records_root") as H6. cbn in H1, H2, H3, H4, H5, H6.
    repeat split; congruence.
Qed.
End ProjectionClaims.

(** ** Evaluations *)

Definition sample_projection_record (o : string) (occurred : option string) : ProjectionRecord :=
  {| pr_object_id := o; pr_workspace_id := "ws"; revision_id := "r1"; pr_kind := "claim";
     pr_lifecycle_status := "active"; captured_at := "2026-01-02"; occurred_at := occurred;
     pr_data := PDict [] |}.

Definition sample_records : list ProjectionRecord :=
  [sample_projection_record "b" None; sample_projection_record "a" (Some "2026-01-01")].

Definition sample_spec (n : string) (r : bool) : ProjectionSpec :=
  {| name := n; schema_version := "v1"; required := r |}.
Definition sample_specs : list ProjectionSpec :=
  [sample_spec "chronology" true; sample_spec "graph" false; sample_spec "identity" true].

(** The reference builder over one source; the optional "broken" projection raises. *)
Definition reference_ports : ProjectionPorts :=
  {| source_records := fun _ gen => if String.eqb gen "g1" then Some sample_records else None;
     builder := fun p ws gen l =>
       if String.eqb (name p) "broken" then None
       else match build (U := unicode_sample) (D := sha256_digest) p ws gen l with
            | Ok a => Some a | Err _ => None end |}.

Lemma reference_builder_named p ws gen l a :
  @builder reference_ports p ws gen l = Some a -> projection_name a = name p.
Proof.
  cbn. destruct (String.eqb _ _); [done|]. destruct (build p ws gen l) as [x|] eqn:E; [|done].
  intros [= <-]. unfold build in E. inv_result E. by subst.
Qed.

Lemma empty_pointers_ok : pointers_ok empty_pointers.
Proof. split; try done; intros ? ? H; rewrite lookup_empty in H; discriminate H. Qed.

Definition sample_rebuild (specs : list ProjectionSpec) :=
  rebuild (U := unicode_sample) (D := sha256_digest) (P := reference_ports) quiet specs "ws" "g1"
    empty_pointers.

Example sample_rebuild_ok :
  match (sample_rebuild (sample_spec "broken" false :: sample_specs)).2 with
  | Ok r => (run_status r, advanced r, failed_optional r) =
            ("ok", ["chronology"; "graph"; "identity"], ["broken"])
  | Err _ => False
  end.
Proof. vm_compute. reflexivity. Qed.

Lemma rebuild_keeps_minimum_atomic_witness :
  pointers_ok (sample_rebuild sample_specs).1.
Proof.
  apply (rebuild_keeps_minimum_atomic (U := unicode_sample) (D := sha256_digest)
    (P := reference_ports) quiet sample_specs "ws" "g1" empty_pointers (sample_rebuild sample_specs).1
    (sample_rebuild sample_specs).2).
  - intros n s Hs. exact Hs.
  - exact empty_pointers_ok.
  - unfold sample_rebuild. destruct (rebuild _ _ _ _ _). reflexivity.
Defined.

Lemma rebuild_all_or_nothing_witness :
  exists res, (sample_rebuild sample_specs).2 = Ok res /\ run_status res = "ok" /\
    MINIMUM_PROJECTIONS ⊆ advanced res.
Proof.
  eexists. split; [vm_compute; reflexivity|]. split; [reflexivity|].
  apply (rebuild_all_or_nothing (U := unicode_sample) (D := sha256_digest) (P := reference_ports)
    sample_specs "ws" "g1" empty_pointers (sample_rebuild sample_specs).1 (sample_rebuild sample_specs).2).
  - exact reference_builder_named.
  - unfold sample_rebuild. destruct (rebuild _ _ _ _ _). reflexivity.
  - vm_compute. reflexivity.
  - reflexivity.
Defined.

Lemma build_deterministic_binding_witness :
  build (U := unicode_sample) (D := pad_digest) (sample_spec "identity" true) "ws" "g1" sample_records =
  build (U := unicode_sample) (D := pad_digest) (sample_spec "identity" true) "ws" "g1" (rev sample_records).
Proof.
  apply (proj1 (build_deterministic_binding (U := unicode_sample) (D := pad_digest))).
  - apply perm_swap.
  - apply (bool_decide_unpack _). vm_compute. exact I.
Defined.
