(* ===== verification/ControlPlane.v ===== *)
(** * The SQLite control plane (controlplane.py)

    The database as a record of tables with the semantics of the SQL statements written
    out: a table with a key is a finite map, [INSERT OR IGNORE] keeps an existing row,
    [INSERT OR REPLACE] overwrites it, a foreign key refuses a row whose generation does
    not exist.  Each method outside a transaction is one autocommitted statement (or a
    sequence of them); [BEGIN IMMEDIATE] excludes other writers until the transaction
    commits or rolls back.  A JSON text column holds the value its text denotes. *)
From stdpp Require Import relations.
From S2P Require Import Prelude Digest Json Canonical Hashing Models Claims.
Open Scope string_scope.

Inductive db_error : Type :=
| CASConflict
| ActivationError
| LeaseError
| IntegrityError
| ManifestTypeError.

#[export] Instance db_error_eq_dec : EqDecision db_error.
Proof. solve_decision. Defined.

(** ** The tables of SCHEMA *)

Record GenerationRow : Type := {
  parent_generation_id : option string;
  candidate_commit_oid : string;
  manifest_hash : string;
  manifest_json : option json;
  release_commit_oid : option string;
  state : string;
  seq : Z;
  created_at : string;
}.

Record IdentityRow : Type := {
  subject : string; predicate : string; object : string; id_polarity : string;
  scope_json : list (string * string);
}.

Record AssertionRow : Type := {
  a_claim_id : string; a_source_id : string; evidence_json : Evidence; a_modality : string;
}.

Record Publication : Type := {
  current_generation_id : option string;
  current_release_commit_oid : option string;
  current_search_generation_id : option string;
}.

Record OutboxRow : Type := {
  ob_event_id : Z; ob_event_type : string; ob_generation_id : string; processed : bool;
}.

Record Lease : Type := { holder : option string; expires_at : Z; fencing_token : Z }.

Record db : Type := {
  generation : gmap string GenerationRow;
  claim_identity : gmap string IdentityRow;
  assertion_table : gmap string AssertionRow;
  generation_assertion : gset (string * string);
  read_model_status : gmap (string * string) (string * string);
  claim_resolution : gmap (string * string) string;
  search_index : gmap (string * string) (string * string * string);
  publication : Publication;
  outbox : list OutboxRow;
  outbox_seq : Z;
  publisher_lease : Lease;
}.

Definition SCHEMA : db :=
  {| generation := ∅; claim_identity := ∅; assertion_table := ∅; generation_assertion := ∅;
     read_model_status := ∅; claim_resolution := ∅; search_index := ∅;
     publication := {| current_generation_id := None; current_release_commit_oid := None;
                       current_search_generation_id := None |};
     outbox := []; outbox_seq := 0;
     publisher_lease := {| holder := None; expires_at := 0; fencing_token := 0 |} |}.

(** Updates of one table. *)
Definition set_generation f (d : db) : db :=
  {| generation := f (generation d); claim_identity := claim_identity d;
     assertion_table := assertion_table d; generation_assertion := generation_assertion d;
     read_model_status := read_model_status d; claim_resolution := claim_resolution d;
     search_index := search_index d; publication := publication d; outbox := outbox d;
     outbox_seq := outbox_seq d; publisher_lease := publisher_lease d |}.
Definition set_claims fi fa (d : db) : db :=
  {| generation := generation d; claim_identity := fi (claim_identity d);
     assertion_table := fa (assertion_table d); generation_assertion := generation_assertion d;
     read_model_status := read_model_status d; claim_resolution := claim_resolution d;
     search_index := search_index d; publication := publication d; outbox := outbox d;
     outbox_seq := outbox_seq d; publisher_lease := publisher_lease d |}.
Definition set_generation_assertion f (d : db) : db :=
  {| generation := generation d; claim_identity := claim_identity d;
     assertion_table := assertion_table d; generation_assertion := f (generation_assertion d);
     read_model_status := read_model_status d; claim_resolution := claim_resolution d;
     search_index := search_index d; publication := publication d; outbox := outbox d;
     outbox_seq := outbox_seq d; publisher_lease := publisher_lease d |}.
Definition set_read_models f (d : db) : db :=
  {| generation := generation d; claim_identity := claim_identity d;
     assertion_table := assertion_table d; generation_assertion := generation_assertion d;
     read_model_status := f (read_model_status d); claim_resolution := claim_resolution d;
     search_index := search_index d; publication := publication d; outbox := outbox d;
     outbox_seq := outbox_seq d; publisher_lease := publisher_lease d |}.
Definition set_resolution f (d : db) : db :=
  {| generation := generation d; claim_identity := claim_identity d;
     assertion_table := assertion_table d; generation_assertion := generation_assertion d;
     read_model_status := read_model_status d; claim_resolution := f (claim_resolution d);
     search_index := search_index d; publication := publication d; outbox := outbox d;
     outbox_seq := outbox_seq d; publisher_lease := publisher_lease d |}.
Definition set_search_index f (d : db) : db :=
  {| generation := generation d; claim_identity := claim_identity d;
     assertion_table := assertion_table d; generation_assertion := generation_assertion d;
     read_model_status := read_model_status d; claim_resolution := claim_resolution d;
     search_index := f (search_index d); publication := publication d; outbox := outbox d;
     outbox_seq := outbox_seq d; publisher_lease := publisher_lease d |}.
Definition set_publication p (d : db) : db :=
  {| generation := generation d; claim_identity := claim_identity d;
     assertion_table := assertion_table d; generation_assertion := generation_assertion d;
     read_model_status := read_model_status d; claim_resolution := claim_resolution d;
     search_index := search_index d; publication := p; outbox := outbox d;
     outbox_seq := outbox_seq d; publisher_lease := publisher_lease d |}.
Definition set_outbox o n (d : db) : db :=
  {| generation := generation d; claim_identity := claim_identity d;
     assertion_table := assertion_table d; generation_assertion := generation_assertion d;
     read_model_status := read_model_status d; claim_resolution := claim_resolution d;
     search_index := search_index d; publication := publication d; outbox := o;
     outbox_seq := n; publisher_lease := publisher_lease d |}.
Definition set_lease l (d : db) : db :=
  {| generation := generation d; claim_identity := claim_identity d;
     assertion_table := assertion_table d; generation_assertion := generation_assertion d;
     read_model_status := read_model_status d; claim_resolution := claim_resolution d;
     search_index := search_index d; publication := publication d; outbox := outbox d;
     outbox_seq := outbox_seq d; publisher_lease := l |}.

(** [INSERT OR IGNORE] *)
Definition insert_or_ignore {A} (k : string) (a : A) (m : gmap string A) : gmap string A :=
  match m !! k with Some _ => m | None => <[k := a]> m end.

(** ** The publisher lease *)

Definition acquire_lease (who : string) (now ttl : Z) (d : db) : db * option Z :=
  let row := publisher_lease d in
  let expired := (expires_at row <=? now)%Z in
  if match holder row with
     | Some h => negb expired && negb (String.eqb h who)
     | None => false end
  then (d, None)
  else
    let new_token :=
      if bool_decide (holder row = Some who) && negb expired then fencing_token row
      else (fencing_token row + 1)%Z in
    (set_lease {| holder := Some who; expires_at := now + ttl; fencing_token := new_token |} d,
     Some new_token).

Definition release_lease (who : string) (d : db) : db :=
  if bool_decide (holder (publisher_lease d) = Some who)
  then set_lease {| holder := None; expires_at := 0;
                    fencing_token := fencing_token (publisher_lease d) |} d
  else d.

Definition lease_holder (now : Z) (d : db) : option string :=
  match holder (publisher_lease d) with
  | Some h => if (now <? expires_at (publisher_lease d))%Z then Some h else None
  | None => None
  end.

(** ** Registration *)

(** [COALESCE(MAX(seq),0)] *)
Definition max_seq (d : db) : Z :=
  match (fun kv => seq kv.2) <$> map_to_list (generation d) with
  | [] => 0
  | x :: l => foldr Z.max x l
  end.

Definition register_generation (gid : string) (parent : option string) (commit mhash : string)
    (mjson : option json) (release : option string) (d : db) : db :=
  let next := (max_seq d + 1)%Z in
  set_generation (insert_or_ignore gid
    {| parent_generation_id := parent; candidate_commit_oid := commit; manifest_hash := mhash;
       manifest_json := mjson; release_commit_oid := release; state := "validated"; seq := next;
       created_at := "2026-07-19T00:00:00Z" |}) d.

Definition with_release (r : option string) (g : GenerationRow) : GenerationRow :=
  {| parent_generation_id := parent_generation_id g; candidate_commit_oid := candidate_commit_oid g;
     manifest_hash := manifest_hash g; manifest_json := manifest_json g; release_commit_oid := r;
     state := state g; seq := seq g; created_at := created_at g |}.
Definition with_state (s : string) (g : GenerationRow) : GenerationRow :=
  {| parent_generation_id := parent_generation_id g; candidate_commit_oid := candidate_commit_oid g;
     manifest_hash := manifest_hash g; manifest_json := manifest_json g;
     release_commit_oid := release_commit_oid g; state := s; seq := seq g; created_at := created_at g |}.

Definition set_release_commit (gid oid : string) (d : db) : db :=
  set_generation (alter (with_release (Some oid)) gid) d.

(** [dict.get], [in] and subscription on a value read from JSON. *)
Definition json_get (k : string) (dflt j : json) : result db_error json :=
  match j with JObj ms => Ok (default dflt (assoc k ms)) | _ => Err ManifestTypeError end.
Definition json_in (k : string) (j : json) : result db_error bool :=
  match j with
  | JObj ms => Ok (str_in_keys k ms)
  | JArr l => Ok (existsb (json_eqb (JStr k)) l)
  | JStr s => Ok (str_contains k s)
  | JNull | JBool _ => Err ManifestTypeError
  end.
Definition json_item (k : string) (j : json) : result db_error json :=
  match j with JObj ms => of_option ManifestTypeError (assoc k ms) | _ => Err ManifestTypeError end.

Definition required_entry (model field : string) (inline : json) : result db_error (list (string * json)) :=
  present ← json_in field inline;
  if (present : bool) then v ← json_item field inline; Ok [(model, v)] else Ok [].

Definition _required_from_manifest (gid : string) (d : db) : result db_error (list (string * json)) :=
  match generation d !! gid ≫= manifest_json with
  | None => Ok []
  | Some manifest =>
      descriptor ← json_get "descriptor" (JObj []) manifest;
      inline ← json_get "inline_artifacts" (JObj []) descriptor;
      wiki ← required_entry "wiki_files" "wiki_files_root" inline;
      citation ← required_entry "citation_index" "citation_index_digest" inline;
      Ok (wiki ++ citation)%list
  end.

(** ** Claims and assertions *)

Definition upsert_claim_and_assertion (c : CompiledClaim) (d : db) : db :=
  let i := identity c in
  let a := assertion c in
  set_claims
    (insert_or_ignore (claim_id i)
       {| subject := subject_id i; predicate := predicate_id i; object := obj i;
          id_polarity := polarity i; scope_json := sort_on fst (scope i) |})
    (insert_or_ignore (assertion_id a)
       {| a_claim_id := claim_id i; a_source_id := assertion_source_id a;
          evidence_json := evidence c; a_modality := modality a |}) d.

Definition add_generation_assertions (gid : string) (ids : list string) (d : db) : db :=
  foldl (fun d aid => set_generation_assertion (fun s => {[(gid, aid)]} ∪ s) d) d ids.

(** An unordered [SELECT]: the rows as a list, in an order SQL leaves open. *)
Definition generation_assertion_ids (gid : string) (d : db) : list string :=
  snd <$> List.filter (fun p => String.eqb p.1 gid) (elements (generation_assertion d)).

Definition get_assertion (aid : string) (d : db) : option CompiledClaim :=
  arow ← assertion_table d !! aid;
  crow ← claim_identity d !! a_claim_id arow;
  let ev := evidence_json arow in
  Some {| identity := {| claim_id := a_claim_id arow; subject_id := subject crow;
                         predicate_id := predicate crow; obj := object crow;
                         polarity := id_polarity crow; scope := scope_json crow |};
          evidence := ev;
          assertion := {| assertion_id := aid; assertion_claim_id := a_claim_id arow;
                          assertion_source_id := a_source_id arow;
                          evidence_ids := [evidence_id ev]; modality := a_modality arow |} |}.

Definition get_assertions (ids : list string) (d : db) : list CompiledClaim :=
  omap (fun aid => get_assertion aid d) (sort_str ids).

(** ** Reads of the generation and publication tables *)

Definition generation_seq (gid : string) (d : db) : Z :=
  match generation d !! gid with Some g => seq g | None => -1 end.
Definition current_pointer (d : db) : option string := current_generation_id (publication d).
Definition current_release_oid (d : db) : option string := current_release_commit_oid (publication d).
Definition generation_state (gid : string) (d : db) : option string := state <$> generation d !! gid.
Definition generation_commit (gid : string) (d : db) : option string :=
  candidate_commit_oid <$> generation d !! gid.

(** ** Read models *)

Definition mark_read_model (gid model digest : string) : st db db_error unit := fun d =>
  match generation d !! gid with
  | None => (d, Err IntegrityError)
  | Some _ => (set_read_models <[(gid, model) := ("ready", digest)]> d, Ok tt)
  end.

Definition set_read_models_ready (gid : string) (d : db) : db :=
  set_generation (alter (fun g => if String.eqb (state g) "validated"
                                  then with_state "read_models_ready" g else g) gid) d.

(** ** Claim resolution and the search read model *)

Definition record_resolution (gid cid new_state : string) : st db db_error unit := fun d =>
  match generation d !! gid with
  | None => (d, Err IntegrityError)
  | Some _ => (set_resolution <[(gid, cid) := new_state]> d, Ok tt)
  end.

Definition resolution_state (gid cid : string) (d : db) : option string :=
  claim_resolution d !! (gid, cid).

Definition accepted_claims (gid : string) (d : db) : list string :=
  (fun kv => kv.1.2) <$>
    List.filter (fun kv => String.eqb kv.1.1 gid && String.eqb kv.2 "accepted")
      (map_to_list (claim_resolution d)).

(** Each entry is a statement of its own: an error keeps the rows before it. *)
Definition build_search_index (gid : string) (entries : list (string * string * string * string))
    : st db db_error unit :=
  st_iter (fun e d =>
    let '(cid, s, p, o) := e in
    match generation d !! gid with
    | None => (d, Err IntegrityError)
    | Some _ => (set_search_index <[(gid, cid) := (s, p, o)]> d, Ok tt)
    end) entries.

(** SQLite's LIKE on characters: [%] any run, [_] one character, ASCII letters up to case. *)
Definition ascii_lower (c : ascii) : ascii :=
  if (65 <=? N_of_ascii c)%N && (N_of_ascii c <=? 90)%N
  then ascii_of_N (N_of_ascii c + 32) else c.
Definition char_lower (c : string) : string :=
  match c with String a EmptyString => String (ascii_lower a) "" | c => c end.

Fixpoint like (pattern text : list string) : bool :=
  match pattern with
  | [] => match text with [] => true | _ => false end
  | p :: pattern =>
      if String.eqb p "%"
      then (fix any (text : list string) : bool :=
              like pattern text || match text with [] => false | _ :: text => any text end) text
      else match text with
           | [] => false
           | c :: text =>
               (String.eqb p "_" || String.eqb (char_lower p) (char_lower c)) && like pattern text
           end
  end.

Definition sql_like (text pattern : string) : bool := like (chars pattern) (chars text).

Definition search_index_lookup (gid term : string) (d : db) : list (string * string * string * string) :=
  let pattern := "%" +:+ term +:+ "%" in
  (fun kv => let '(s, p, o) := kv.2 in (kv.1.2, s, p, o)) <$>
    List.filter (fun kv => let '(s, p, o) := kv.2 in
                           String.eqb kv.1.1 gid
                           && (sql_like s pattern || sql_like p pattern || sql_like o pattern))
      (map_to_list (search_index d)).

Definition set_search_pointer (gid : string) (d : db) : db :=
  set_publication {| current_generation_id := current_generation_id (publication d);
                     current_release_commit_oid := current_release_commit_oid (publication d);
                     current_search_generation_id := Some gid |} d.
Definition current_search_pointer (d : db) : option string :=
  current_search_generation_id (publication d).

(** ** The authoritative activation *)

Definition model_ready (gid : string) (d : db) (req : string * json) : bool :=
  match read_model_status d !! (gid, req.1) with
  | Some (st, digest) => String.eqb st "ready" && json_eqb (JStr digest) req.2
  | None => false
  end.

(** [UPDATE publication SET ... WHERE id=1 AND current_generation_id IS/= expected]: the new
    row and the number of rows changed. *)
Definition move_pointer (gid oid : string) (expected : option string) (d : db) : db * nat :=
  if bool_decide (current_generation_id (publication d) = expected)
  then (set_publication {| current_generation_id := Some gid;
                           current_release_commit_oid := Some oid;
                           current_search_generation_id := current_search_generation_id (publication d) |} d, 1)
  else (d, 0).

(** The transaction; its database is committed on [Ok] and rolled back on [Err]. *)
Definition activate_transaction (required : list (string * json)) (gid : string)
    (expected : option string) (oid : string) (d : db) : result db_error db :=
  let cur := current_pointer d in
  _ ← ensure (bool_decide (cur = expected)) CASConflict;
  _ ← ensure (bool_decide (generation_state gid d = Some "read_models_ready")) ActivationError;
  let rel := generation d !! gid ≫= release_commit_oid in
  _ ← ensure (match rel with Some r => str_nonempty r && String.eqb r oid | None => false end)
             ActivationError;
  _ ← ensure (forallb (model_ready gid d) required) ActivationError;
  let d := set_generation (alter (fun g => if String.eqb (state g) "read_models_ready"
                                           then with_state "published" g else g) gid) d in
  let d := match cur with
           | Some c => set_generation (alter (with_state "superseded") c) d
           | None => d
           end in
  let '(d, changed) := move_pointer gid oid expected d in
  _ ← ensure (changed =? 1)%nat CASConflict;
  Ok (set_outbox (outbox d ++ [{| ob_event_id := outbox_seq d + 1;
                                  ob_event_type := "release_mirror_requested";
                                  ob_generation_id := gid; processed := false |}])%list
        (outbox_seq d + 1) d).

(** The required artifacts are read before the transaction begins: [others] is what other
    writers do in between. *)
Definition activate (others : db -> db) (gid : string) (expected : option string) (oid : string)
    : st db db_error unit := fun d =>
  match _required_from_manifest gid d with
  | Err e => (d, Err e)
  | Ok [] => (d, Err ActivationError)
  | Ok required =>
      let d := others d in
      match activate_transaction required gid expected oid d with
      | Ok d' => (d', Ok tt)
      | Err e => (d, Err e)
      end
  end.

(** ** The outbox *)

Definition pending_outbox (d : db) : list (Z * string * string) :=
  (fun r => (ob_event_id r, ob_event_type r, ob_generation_id r)) <$>
    py_sort (fun a b => (ob_event_id a <=? ob_event_id b)%Z)
      (List.filter (fun r => negb (processed r)) (outbox d)).

Definition mark_outbox_processed (i : Z) (d : db) : db :=
  set_outbox ((fun r => if (ob_event_id r =? i)%Z
                        then {| ob_event_id := ob_event_id r; ob_event_type := ob_event_type r;
                                ob_generation_id := ob_generation_id r; processed := true |}
                        else r) <$> outbox d) (outbox_seq d) d.

Definition orphan_generations (d : db) : list string :=
  fst <$> List.filter (fun kv => str_mem (state kv.2) ["validated"; "read_models_ready"])
            (map_to_list (generation d)).

(** ** The lease: fencing tokens *)

(** A run of the lease's operations and the grants it makes, newest first. *)
Inductive lease_run : list (string * Z) -> db -> Prop :=
| lease_start : lease_run [] SCHEMA
| lease_grant h who now ttl d d' t :
    lease_run h d -> acquire_lease who now ttl d = (d', Some t) -> lease_run ((who, t) :: h) d'
| lease_refused h who now ttl d d' :
    lease_run h d -> acquire_lease who now ttl d = (d', None) -> lease_run h d'
| lease_release h who d : lease_run h d -> lease_run h (release_lease who d).

(** Grants never exceed the current token; those with it went to one holder, the current
    one if there is one. *)
Record lease_ok (h : list (string * Z)) (l : Lease) : Prop := {
  lok_bound : forall w t, (w, t) ∈ h -> (0 < t <= fencing_token l)%Z;
  lok_unique : forall w w' t, (w, t) ∈ h -> (w', t) ∈ h -> w = w';
  lok_holder : forall x, holder l = Some x -> (x, fencing_token l) ∈ h;
  lok_nonneg : (0 <= fencing_token l)%Z;
}.

Lemma acquire_cases who now ttl d d' r :
  acquire_lease who now ttl d = (d', r) ->
  (d' = d /\ r = None /\ exists x, holder (publisher_lease d) = Some x /\ x <> who /\
     (now < expires_at (publisher_lease d))%Z) \/
  exists t,
    d' = set_lease {| holder := Some who; expires_at := now + ttl; fencing_token := t |} d /\ r = Some t /\
    ((holder (publisher_lease d) = Some who /\ t = fencing_token (publisher_lease d)) \/
     t = (fencing_token (publisher_lease d) + 1)%Z).
Proof.
  unfold acquire_lease. destruct (holder (publisher_lease d)) as [x|] eqn:Hh.
  - destruct (Z.leb_spec (expires_at (publisher_lease d)) now), (String.eqb_spec x who); cbn [negb andb];
      intros [= <- <-]; rewrite ?andb_false_r, ?andb_true_r.
    + right. eexists. split; [done|]. split; [done|]. by right.
    + right. eexists. split; [done|]. split; [done|]. by right.
    + right. eexists. split; [done|]. split; [done|]. subst. rewrite bool_decide_eq_true_2 by done. by left.
    + left. split; [done|]. split; [done|]. by exists x.
  - intros [= <- <-]. right. eexists. split; [done|]. split; [done|]. cbn. by right.
Qed.

Lemma lease_run_ok h d : lease_run h d -> lease_ok h (publisher_lease d).
Proof.
  induction 1 as [|h who now ttl d d' t _ IH Ha|h who now ttl d d' _ IH Ha|h who d _ IH].
  - split; cbn; try done; intros; by apply elem_of_nil in H.
  - destruct IH as [I1 I2 I3 I4]. apply acquire_cases in Ha as [(_ & ? & _)|(t' & -> & [= <-] & Ht)]; [done|].
    cbn [publisher_lease set_lease]. destruct Ht as [[Hh Ht]|Ht].
    + pose proof (I3 _ Hh) as Hin. rewrite <- Ht in Hin. split; cbn.
      * intros w u [[= -> ->]|Hw]%elem_of_cons; [specialize (I1 _ _ Hin) | specialize (I1 _ _ Hw)]; lia.
      * intros w w' u [[= -> ->]|Hw]%elem_of_cons [E|Hw']%elem_of_cons; try congruence; eauto.
        injection E as -> ->. eauto.
      * intros x [= <-]. by left.
      * lia.
    + split; cbn.
      * intros w u [[= -> ->]|Hw]%elem_of_cons; [lia | specialize (I1 _ _ Hw); lia].
      * intros w w' u [[= -> ->]|Hw]%elem_of_cons [E|Hw']%elem_of_cons; try congruence; [| |by eapply I2].
        -- specialize (I1 _ _ Hw'). lia.
        -- injection E as -> ->. specialize (I1 _ _ Hw). lia.
      * intros x [= <-]. by left.
      * lia.
  - by apply acquire_cases in Ha as [(-> & _)|(t' & _ & ? & _)].
  - unfold release_lease. case_bool_decide; [|done]. destruct IH as [I1 I2 I3 I4]. by split.
Qed.

(** ** Steps of the database and its invariant *)

(** Every public method, by any connection. *)
Inductive db_step : db -> db -> Prop :=
| step_acquire who now ttl d : db_step d (acquire_lease who now ttl d).1
| step_release who d : db_step d (release_lease who d)
| step_register gid p c m j r d : db_step d (register_generation gid p c m j r d)
| step_set_release gid oid d : db_step d (set_release_commit gid oid d)
| step_upsert c d : db_step d (upsert_claim_and_assertion c d)
| step_add_assertions gid ids d : db_step d (add_generation_assertions gid ids d)
| step_mark gid model digest d : db_step d (mark_read_model gid model digest d).1
| step_ready gid d : db_step d (set_read_models_ready gid d)
| step_resolution gid cid s d : db_step d (record_resolution gid cid s d).1
| step_index gid entries d : db_step d (build_search_index gid entries d).1
| step_search_pointer gid d : db_step d (set_search_pointer gid d)
| step_activate required gid expected oid d d' :
    activate_transaction required gid expected oid d = Ok d' -> db_step d d'
| step_processed i d : db_step d (mark_outbox_processed i d).

(** The life of a generation: the rank of its state. *)
Definition state_rank (s : string) : nat :=
  if String.eqb s "validated" then 0
  else if String.eqb s "read_models_ready" then 1
  else if String.eqb s "published" then 2 else 3.

(** What may become of a registered row: its identity never changes, its state advances. *)
Record evolves (g g' : GenerationRow) : Prop := {
  ev_parent : parent_generation_id g' = parent_generation_id g;
  ev_commit : candidate_commit_oid g' = candidate_commit_oid g;
  ev_hash : manifest_hash g' = manifest_hash g;
  ev_manifest : manifest_json g' = manifest_json g;
  ev_seq : seq g' = seq g;
  ev_created : created_at g' = created_at g;
  ev_rank : state_rank (state g) <= state_rank (state g');
}.

#[export] Instance evolves_preorder : PreOrder evolves.
Proof.
  split; [by intros g; split|]. intros a b c [] []. split; try congruence. lia.
Qed.

Definition rows_evolve (d d' : db) : Prop :=
  forall gid g, generation d !! gid = Some g ->
    exists g', generation d' !! gid = Some g' /\ evolves g g'.

#[export] Instance rows_evolve_preorder : PreOrder rows_evolve.
Proof.
  split.
  - intros d gid g Hg. by exists g.
  - intros a b c Hab Hbc gid g (g' & Hg' & He)%Hab.
    apply Hbc in Hg' as (g'' & Hg'' & He'). exists g''. split; [done|]. by etrans.
Qed.

Definition is_published (g : GenerationRow) : Prop := state g = "published".
Definition was_activated (g : GenerationRow) : Prop := 2 <= state_rank (state g).

(** The activation events: one for each generation that was ever activated. *)
Record db_ok (d : db) : Prop := {
  ok_pointer : forall gid g, generation d !! gid = Some g ->
    is_published g <-> current_pointer d = Some gid;
  ok_exists : forall gid, current_pointer d = Some gid -> is_Some (generation d !! gid);
  ok_outbox : forall gid, gid ∈ ob_generation_id <$> outbox d <->
    exists g, generation d !! gid = Some g /\ was_activated g;
  ok_once : NoDup (ob_generation_id <$> outbox d);
  ok_ids : StronglySorted Z.lt (ob_event_id <$> outbox d);
  ok_last : Forall (fun i => i <= outbox_seq d)%Z (ob_event_id <$> outbox d);
}.

(** Methods that change neither the generation table, the pointer nor the outbox. *)
Definition same_core (d d' : db) : Prop :=
  generation d' = generation d /\ current_pointer d' = current_pointer d /\
  outbox d' = outbox d /\ outbox_seq d' = outbox_seq d.

#[export] Instance same_core_preorder : PreOrder same_core.
Proof. split; [by intros d|]. intros a b c (?&?&?&?) (?&?&?&?). repeat split; congruence. Qed.

Lemma same_core_ok d d' : same_core d d' -> db_ok d -> db_ok d' /\ rows_evolve d d'.
Proof.
  intros (E1 & E2 & E3 & E4) [H1 H2 H3 H4 H5 H6]. split.
  - split; unfold current_pointer in *; rewrite ?E1, ?E2, ?E3, ?E4; done.
  - intros gid g Hg. exists g. by rewrite E1.
Qed.

Lemma build_search_index_core gid entries d : same_core d (build_search_index gid entries d).1.
Proof.
  revert d; induction entries as [|[[[c s] p] o] l IH]; intros d; [reflexivity|].
  unfold build_search_index in *. cbn [st_iter]. unfold mbind, st_bind. cbn beta iota.
  destruct (generation d !! gid) eqn:Hg; [|cbn; reflexivity].
  etrans; [|apply IH]. by repeat split.
Qed.

Lemma add_assertions_core gid ids d : same_core d (add_generation_assertions gid ids d).
Proof.
  unfold add_generation_assertions. revert d; induction ids as [|i l IH]; intros d; [reflexivity|].
  cbn [foldl]. etrans; [|apply IH]. by repeat split.
Qed.

(** A change of one row that keeps its publication state. *)
Lemma alter_ok (f : GenerationRow -> GenerationRow) gid d :
  (forall g, evolves g (f g) /\ (is_published (f g) <-> is_published g) /\
             (was_activated (f g) <-> was_activated g)) ->
  db_ok d -> db_ok (set_generation (alter f gid) d) /\ rows_evolve d (set_generation (alter f gid) d).
Proof.
  intros Hf [H1 H2 H3 H4 H5 H6]. split; [split; cbn; try done|].
  - intros gid' g. destruct (decide (gid' = gid)) as [->|].
    + rewrite lookup_alter_eq. intros (g0 & Hg0 & ->)%fmap_Some. rewrite (proj1 (proj2 (Hf g0))). by apply H1.
    + rewrite lookup_alter_ne by done. apply H1.
  - intros gid' Hp. destruct (H2 gid' Hp) as [g Hg]. destruct (decide (gid' = gid)) as [->|].
    + rewrite lookup_alter_eq, Hg. by eexists.
    + rewrite lookup_alter_ne, Hg by done. by eexists.
  - intros gid'. rewrite H3. destruct (decide (gid' = gid)) as [->|]; [|by rewrite lookup_alter_ne].
    rewrite lookup_alter_eq. split.
    + intros (g & Hg & Ha). rewrite Hg. exists (f g). split; [done|]. by apply Hf.
    + intros (g & (g0 & Hg0 & ->)%fmap_Some & Ha). exists g0. split; [done|]. by apply Hf.
  - intros gid' g Hg. destruct (decide (gid' = gid)) as [->|].
    + exists (f g). cbn. rewrite lookup_alter_eq, Hg. split; [done | apply Hf].
    + exists g. cbn. by rewrite lookup_alter_ne.
Qed.

Lemma register_ok gid p c m j r d :
  db_ok d ->
  db_ok (register_generation gid p c m j r d) /\ rows_evolve d (register_generation gid p c m j r d).
Proof.
  intros Hok. unfold register_generation, insert_or_ignore.
  destruct (generation d !! gid) as [g0|] eqn:Hg0.
  { assert (Hs : same_core d (set_generation (fun m => match m !! gid with Some _ => m | None => m end) d)).
    { repeat split. cbn. by destruct (generation d !! gid). }
    apply (same_core_ok d); [|done]. repeat split. cbn. by rewrite Hg0. }
  destruct Hok as [H1 H2 H3 H4 H5 H6]. split; [split; cbn; try done; rewrite Hg0|].
  - intros gid' g. destruct (decide (gid' = gid)) as [->|].
    + rewrite lookup_insert_eq. intros [= <-]. unfold is_published; cbn. split; [done|].
      intros [x Hx]%H2. congruence.
    + rewrite lookup_insert_ne by done. apply H1.
  - intros gid' [x Hx]%H2. rewrite lookup_insert_ne by congruence. by exists x.
  - intros gid'. rewrite H3. destruct (decide (gid' = gid)) as [->|].
    + rewrite lookup_insert_eq. split; [intros (? & ? & _); congruence|].
      intros (g & [= <-] & Ha). unfold was_activated in Ha. cbn in Ha. lia.
    + by rewrite lookup_insert_ne.
  - intros gid' g Hg. exists g. cbn. rewrite Hg0, lookup_insert_ne by congruence. done.
Qed.

(** ** The activation transaction *)

Record activatable (required : list (string * json)) (gid : string) (expected : option string)
    (oid : string) (d : db) : Prop := {
  can_parent : current_pointer d = expected;
  can_state : generation_state gid d = Some "read_models_ready";
  can_release : generation d !! gid ≫= release_commit_oid = Some oid;
  can_oid : oid <> "";
  can_models : forall m v, (m, v) ∈ required -> exists digest,
    v = JStr digest /\ read_model_status d !! (gid, m) = Some ("ready", digest);
}.

(** What it commits. *)
Definition publish_row (g : GenerationRow) : GenerationRow :=
  if String.eqb (state g) "read_models_ready" then with_state "published" g else g.

Definition activated_rows (gid : string) (cur : option string) (m : gmap string GenerationRow)
    : gmap string GenerationRow :=
  let m := alter publish_row gid m in
  match cur with Some c => alter (with_state "superseded") c m | None => m end.

Definition activated (gid oid : string) (d : db) : db :=
  set_outbox (outbox d ++ [{| ob_event_id := outbox_seq d + 1;
                              ob_event_type := "release_mirror_requested";
                              ob_generation_id := gid; processed := false |}])%list
    (outbox_seq d + 1)
    (set_publication {| current_generation_id := Some gid; current_release_commit_oid := Some oid;
                        current_search_generation_id := current_search_pointer d |}
       (set_generation (activated_rows gid (current_pointer d)) d)).

Lemma model_ready_spec gid d m v :
  model_ready gid d (m, v) = true <->
  exists digest, v = JStr digest /\ read_model_status d !! (gid, m) = Some ("ready", digest).
Proof.
  unfold model_ready. cbn [fst snd]. destruct (read_model_status d !! (gid, m)) as [[s digest]|].
  - rewrite andb_true_iff, String.eqb_eq. split.
    + intros [-> Hj]. exists digest. split; [|done]. symmetry. by apply json_eqb_eq.
    + intros (g & -> & [= -> ->]). split; [done|]. by apply json_eqb_eq.
  - split; [done | by intros (? & _ & ?)].
Qed.

Lemma activate_transaction_ok required gid expected oid d d' :
  activate_transaction required gid expected oid d = Ok d' <->
  activatable required gid expected oid d /\ d' = activated gid oid d.
Proof.
  unfold activate_transaction. cbn zeta. split.
  - intros H. apply bind_ok in H as (? & Hp%ensure_ok%bool_decide_eq_true & H).
    apply bind_ok in H as (? & Hs%ensure_ok%bool_decide_eq_true & H).
    apply bind_ok in H as (? & Hr%ensure_ok & H). apply bind_ok in H as (? & Hm%ensure_ok & H).
    assert (Hact : activatable required gid expected oid d).
    { destruct (generation d !! gid ≫= release_commit_oid) as [r|] eqn:E; [|done].
      apply andb_true_iff in Hr as [Hne Hr%String.eqb_eq]. subst r. split; try done.
      - by intros ->.
      - intros m v Hin. rewrite forallb_forall in Hm. apply list_elem_of_In, Hm in Hin.
        by apply model_ready_spec. }
    split; [done|]. revert H. unfold move_pointer, activated, activated_rows.
    destruct (current_pointer d) as [c|] eqn:Hc; rewrite bool_decide_eq_true_2 by (first [exact Hp | etrans; [exact Hc | exact Hp]]);
      cbn [ensure mbind result_bind Nat.eqb]; intros [= <-]; unfold publish_row; done.
  - intros [[Hp Hs Hr Hne Hm] ->]. rewrite !bool_decide_eq_true_2, Hr by done.
    cbn [ensure mbind result_bind]. rewrite String.eqb_refl.
    assert (str_nonempty oid = true) as -> by (unfold str_nonempty; by apply negb_true_iff, String.eqb_neq).
    cbn [ensure mbind result_bind andb].
    assert (forallb (model_ready gid d) required = true) as ->.
    { apply forallb_forall. intros [m v] Hin%list_elem_of_In. apply model_ready_spec. eauto. }
    cbn [ensure mbind result_bind]. unfold move_pointer, activated, activated_rows.
    destruct (current_pointer d) as [c|] eqn:Hc; rewrite bool_decide_eq_true_2 by (first [exact Hp | etrans; [exact Hc | exact Hp]]); done.
Qed.

Lemma activated_rows_lookup gid cur m k :
  activated_rows gid cur m !! k =
    (fun g => let g := if bool_decide (k = gid) then publish_row g else g in
              if bool_decide (Some k = cur) then with_state "superseded" g else g) <$> m !! k.
Proof.
  unfold activated_rows. destruct cur as [c|].
  - destruct (decide (k = c)) as [->|Hc].
    + rewrite lookup_alter_eq, (bool_decide_eq_true_2 (Some c = Some c)) by done.
      destruct (decide (c = gid)) as [->|Hg].
      * rewrite lookup_alter_eq, bool_decide_eq_true_2 by done. by destruct (m !! gid).
      * rewrite lookup_alter_ne, bool_decide_eq_false_2 by done. by destruct (m !! c).
    + rewrite lookup_alter_ne, (bool_decide_eq_false_2 (Some k = Some c)) by congruence.
      destruct (decide (k = gid)) as [->|Hg].
      * rewrite lookup_alter_eq, bool_decide_eq_true_2 by done. by destruct (m !! gid).
      * rewrite lookup_alter_ne, bool_decide_eq_false_2 by done. by destruct (m !! k).
  - rewrite (bool_decide_eq_false_2 (Some k = None)) by done.
    destruct (decide (k = gid)) as [->|Hg].
    + rewrite lookup_alter_eq, bool_decide_eq_true_2 by done. by destruct (m !! gid).
    + rewrite lookup_alter_ne, bool_decide_eq_false_2 by done. by destruct (m !! k).
Qed.

Lemma with_state_evolves s g : state_rank (state g) <= state_rank s -> evolves g (with_state s g).
Proof. intros H. split; done || exact H. Qed.

(** The rows after an activation: the new generation is published, the old one superseded,
    every other row unchanged. *)
Lemma activated_lookup required gid expected oid d k g :
  activatable required gid expected oid d -> db_ok d -> generation d !! k = Some g ->
  generation (activated gid oid d) !! k =
    Some (if bool_decide (k = gid) then with_state "published" g
          else if bool_decide (Some k = expected) then with_state "superseded" g else g) /\
  (k = gid -> state g = "read_models_ready").
Proof.
  intros [Hp Hs _ _ _] Hok Hg. cbn. rewrite activated_rows_lookup, Hg, Hp. cbn [fmap option_fmap option_map].
  assert (Hst : k = gid -> state g = "read_models_ready").
  { intros ->. unfold generation_state in Hs. rewrite Hg in Hs. injection Hs as Hs. exact Hs. }
  split; [|done]. apply (f_equal Some). cbn zeta beta. destruct (bool_decide_reflect (k = gid)) as [Hk|Hk]; [|done].
  unfold publish_row. rewrite (Hst Hk). cbn [String.eqb]. rewrite bool_decide_eq_false_2; [done|].
  intros He. assert (Hpub : is_published g) by (apply (ok_pointer _ Hok k g Hg); congruence).
  unfold is_published in Hpub. rewrite (Hst Hk) in Hpub. discriminate Hpub.
Qed.

Lemma activated_lookup_inv required gid expected oid d k g' :
  activatable required gid expected oid d -> db_ok d ->
  generation (activated gid oid d) !! k = Some g' ->
  exists g, generation d !! k = Some g /\
    g' = (if bool_decide (k = gid) then with_state "published" g
          else if bool_decide (Some k = expected) then with_state "superseded" g else g).
Proof.
  intros Hact Hok Hg'. destruct (generation d !! k) as [g|] eqn:Hg.
  - destruct (activated_lookup _ _ _ _ _ _ _ Hact Hok Hg) as [E _]. exists g. split; [done|]. congruence.
  - cbn in Hg'. rewrite activated_rows_lookup, Hg in Hg'. done.
Qed.

Lemma activated_exists required gid expected oid d :
  activatable required gid expected oid d -> exists g, generation d !! gid = Some g /\ state g = "read_models_ready".
Proof.
  intros [_ Hs _ _ _]. unfold generation_state in Hs. destruct (generation d !! gid) as [g|]; [|done].
  exists g. split; [done|]. injection Hs as Hs. exact Hs.
Qed.

(** An activated generation was never in the outbox before. *)
Lemma activated_fresh required gid expected oid d :
  activatable required gid expected oid d -> db_ok d -> gid ∉ ob_generation_id <$> outbox d.
Proof.
  intros Hact Hok Hin. destruct (activated_exists _ _ _ _ _ Hact) as (g & Hg & Hs).
  apply (ok_outbox _ Hok) in Hin as (g' & Hg' & Ha). assert (g' = g) as -> by congruence.
  unfold was_activated in Ha. rewrite Hs in Ha. cbn in Ha. lia.
Qed.

Lemma activated_evolve required gid expected oid d :
  activatable required gid expected oid d -> db_ok d -> rows_evolve d (activated gid oid d).
Proof.
  intros Hact Hok k g Hg. destruct (activated_lookup _ _ _ _ _ _ _ Hact Hok Hg) as [E Hst].
  eexists. split; [exact E|]. case_bool_decide as Hk.
  { apply with_state_evolves. rewrite (Hst Hk). cbn. lia. }
  case_bool_decide; [|done]. apply with_state_evolves.
  unfold state_rank at 2. cbn. unfold state_rank. repeat case_match; lia.
Qed.

Lemma activated_pointer required gid expected oid d :
  activatable required gid expected oid d -> db_ok d ->
  forall k g', generation (activated gid oid d) !! k = Some g' -> is_published g' <-> Some gid = Some k.
Proof.
  intros Hact Hok k g' Hg'.
  destruct (activated_lookup_inv _ _ _ _ _ _ _ Hact Hok Hg') as (g & Hg & ->).
  case_bool_decide as Hk; [subst; split; done|].
  split; [|intros [= <-]; done]. intros Hpub. exfalso. case_bool_decide as He; [discriminate Hpub|].
  apply (ok_pointer _ Hok k g Hg) in Hpub. apply He. rewrite <- (can_parent _ _ _ _ _ Hact). done.
Qed.

Lemma rank_was_activated s g : 2 <= state_rank s -> was_activated (with_state s g).
Proof. done. Qed.

Lemma activated_outbox required gid expected oid d :
  activatable required gid expected oid d -> db_ok d ->
  forall k, k ∈ ob_generation_id <$> outbox (activated gid oid d) <->
            exists g, generation (activated gid oid d) !! k = Some g /\ was_activated g.
Proof.
  intros Hact Hok k. cbn [outbox activated set_outbox]. rewrite fmap_app, elem_of_app. cbn.
  rewrite list_elem_of_singleton, (ok_outbox _ Hok). split.
  - intros [(g & Hg & Ha)| ->].
    + destruct (activated_evolve _ _ _ _ _ Hact Hok _ _ Hg) as (g' & Hg' & He). exists g'. split; [done|].
      pose proof (ev_rank _ _ He). unfold was_activated in *. lia.
    + destruct (activated_exists _ _ _ _ _ Hact) as (g & Hg & _).
      destruct (activated_lookup _ _ _ _ _ _ _ Hact Hok Hg) as [E _]. eexists. split; [exact E|].
      rewrite bool_decide_eq_true_2 by done. apply rank_was_activated. cbn. lia.
  - intros (g' & Hg' & Ha).
    destruct (activated_lookup_inv _ _ _ _ _ _ _ Hact Hok Hg') as (g & Hg & ->).
    case_bool_decide as Hk; [by right|]. left. exists g. split; [done|].
    case_bool_decide as He; [|done].
    assert (Hp : is_published g).
    { apply (ok_pointer _ Hok k g Hg). rewrite (can_parent _ _ _ _ _ Hact). done. }
    unfold was_activated. rewrite Hp. cbn. lia.
Qed.

Lemma activated_ok required gid expected oid d :
  activatable required gid expected oid d -> db_ok d ->
  db_ok (activated gid oid d) /\ rows_evolve d (activated gid oid d).
Proof.
  intros Hact Hok. split; [|by eapply activated_evolve]. split.
  - by eapply activated_pointer.
  - intros k [= <-]. destruct (activated_exists _ _ _ _ _ Hact) as (g & Hg & _).
    destruct (activated_lookup _ _ _ _ _ _ _ Hact Hok Hg) as [E _]. by eexists.
  - by eapply activated_outbox.
  - cbn [outbox activated set_outbox]. rewrite fmap_app. apply list.NoDup_app. split; [apply Hok|].
    split; [|apply NoDup_singleton]. intros x Hx ->%list_elem_of_singleton.
    by eapply activated_fresh.
  - cbn [outbox activated set_outbox]. rewrite fmap_app. pose proof (ok_ids _ Hok) as Hs.
    pose proof (ok_last _ Hok) as Hl. induction (ob_event_id <$> outbox d) as [|i l IH]; cbn.
    + repeat constructor.
    + apply StronglySorted_inv in Hs as [Hs Hi]. inversion Hl; subst. constructor; [by apply IH|].
      apply Forall_app. split; [done|]. repeat constructor. lia.
  - cbn [outbox activated set_outbox outbox_seq]. rewrite fmap_app. apply Forall_app. split.
    + eapply Forall_impl; [|apply (ok_last _ Hok)]. cbn. lia.
    + repeat constructor. cbn. lia.
Qed.

Lemma processed_ok i d :
  db_ok d -> db_ok (mark_outbox_processed i d) /\ rows_evolve d (mark_outbox_processed i d).
Proof.
  intros [H1 H2 H3 H4 H5 H6]. unfold mark_outbox_processed.
  set (f := fun r => if (ob_event_id r =? i)%Z then _ else r).
  assert (Hg : ob_generation_id <$> (f <$> outbox d) = ob_generation_id <$> outbox d).
  { rewrite <- list_fmap_compose. apply list_fmap_ext. intros _ r _. unfold f; cbn. by destruct (_ =? _)%Z. }
  assert (Hi : ob_event_id <$> (f <$> outbox d) = ob_event_id <$> outbox d).
  { rewrite <- list_fmap_compose. apply list_fmap_ext. intros _ r _. unfold f; cbn. by destruct (_ =? _)%Z. }
  split; [|intros gid g Hgg; by exists g]. split; cbn [outbox set_outbox outbox_seq]; rewrite ?Hg, ?Hi; done.
Qed.

Lemma db_step_ok d d' : db_step d d' -> db_ok d -> db_ok d' /\ rows_evolve d d'.
Proof.
  destruct 1 as [who now ttl d|who d|gid p c m j r d|gid oid d|c d|gid ids d|gid model digest d|gid d
                |gid cid s d|gid entries d|gid d|required gid expected oid d d' Ha|i d]; intros Hok.
  - apply same_core_ok; [|done]. destruct (acquire_lease who now ttl d) as [d' r] eqn:E.
    apply acquire_cases in E as [(-> & _)|(t & -> & _)]; done.
  - apply same_core_ok; [|done]. unfold release_lease. by case_bool_decide.
  - by apply register_ok.
  - apply alter_ok; [|done]. intros g. repeat split; done.
  - by apply same_core_ok.
  - apply same_core_ok; [|done]. apply add_assertions_core.
  - apply same_core_ok; [|done]. unfold mark_read_model. by destruct (generation d !! gid).
  - apply alter_ok; [|done]. intros g. unfold is_published, was_activated.
    destruct (String.eqb_spec (state g) "validated") as [E|]; [|done].
    rewrite E. repeat split; cbn; try done; try lia; rewrite E; cbn; lia.
  - apply same_core_ok; [|done]. unfold record_resolution. by destruct (generation d !! gid).
  - apply same_core_ok; [|done]. apply build_search_index_core.
  - by apply same_core_ok.
  - apply activate_transaction_ok in Ha as [Ha ->]. by eapply activated_ok.
  - by apply processed_ok.
Qed.

Lemma db_steps_ok d d' : rtc db_step d d' -> db_ok d -> db_ok d' /\ rows_evolve d d'.
Proof.
  induction 1 as [d|a b c Hab _ IH]; intros Hok; [done|].
  apply db_step_ok in Hab as [Hb He]; [|done]. apply IH in Hb as [Hc He']. split; [done|]. by etrans.
Qed.

Lemma SCHEMA_ok : db_ok SCHEMA.
Proof.
  split; cbn; [| | | constructor | constructor | constructor].
  - intros gid g H. by rewrite lookup_empty in H.
  - done.
  - intros gid. split; [by intros ?%elem_of_nil | intros (g & H & _); by rewrite lookup_empty in H].
Qed.

(** ** Claims are written once *)

Definition claims_kept (d d' : db) : Prop :=
  claim_identity d ⊆ claim_identity d' /\ assertion_table d ⊆ assertion_table d'.

#[export] Instance claims_kept_preorder : PreOrder claims_kept.
Proof. split; [by intros d|]. intros a b c [] []. split; by etrans. Qed.

Lemma insert_or_ignore_subseteq {A} k (a : A) m : m ⊆ insert_or_ignore k a m.
Proof.
  unfold insert_or_ignore. destruct (m !! k) eqn:E; [done|]. by apply insert_subseteq.
Qed.

Lemma build_search_index_kept gid entries d : claims_kept d (build_search_index gid entries d).1.
Proof.
  revert d; induction entries as [|[[[c s] p] o] l IH]; intros d; [done|].
  unfold build_search_index in *. cbn [st_iter]. unfold mbind, st_bind. cbn beta iota.
  destruct (generation d !! gid) eqn:Hg; [|done]. by etrans; [|apply IH].
Qed.

Lemma add_assertions_kept gid ids d : claims_kept d (add_generation_assertions gid ids d).
Proof.
  unfold add_generation_assertions. revert d; induction ids as [|i l IH]; intros d; [done|].
  cbn [foldl]. by etrans; [|apply IH].
Qed.

Lemma db_step_kept d d' : db_step d d' -> claims_kept d d'.
Proof.
  destruct 1 as [who now ttl d|who d|gid p c m j r d|gid oid d|c d|gid ids d|gid model digest d|gid d
                |gid cid s d|gid entries d|gid d|required gid expected oid d d' Ha|i d]; try done.
  - unfold acquire_lease. by destruct (match holder _ with Some _ => _ | None => _ end).
  - unfold release_lease. by case_bool_decide.
  - split; apply insert_or_ignore_subseteq.
  - apply add_assertions_kept.
  - unfold mark_read_model. by destruct (generation d !! gid).
  - unfold record_resolution. by destruct (generation d !! gid).
  - apply build_search_index_kept.
  - apply activate_transaction_ok in Ha as [_ ->]. done.
Qed.

Lemma db_steps_kept d d' : rtc db_step d d' -> claims_kept d d'.
Proof. induction 1 as [|a b c Hab _ IH]; [done|]. etrans; [by apply db_step_kept | done]. Qed.

Definition identity_row (c : CompiledClaim) : IdentityRow :=
  {| subject := subject_id (identity c); predicate := predicate_id (identity c);
     object := obj (identity c); id_polarity := polarity (identity c);
     scope_json := sort_on fst (scope (identity c)) |}.

(** What the tables give back of a claim: its own claim and evidence identifiers in the
    assertion, the scope's entries sorted. *)
Definition stored_claim (c : CompiledClaim) : CompiledClaim :=
  {| identity := {| claim_id := claim_id (identity c); subject_id := subject_id (identity c);
                    predicate_id := predicate_id (identity c); obj := obj (identity c);
                    polarity := polarity (identity c); scope := sort_on fst (scope (identity c)) |};
     evidence := evidence c;
     assertion := {| assertion_id := assertion_id (assertion c);
                     assertion_claim_id := claim_id (identity c);
                     assertion_source_id := assertion_source_id (assertion c);
                     evidence_ids := [evidence_id (evidence c)]; modality := modality (assertion c) |} |}.

Lemma upsert_get c d d' :
  assertion_table d !! assertion_id (assertion c) = None ->
  claim_identity d !! claim_id (identity c) = None \/
    claim_identity d !! claim_id (identity c) = Some (identity_row c) ->
  rtc db_step (upsert_claim_and_assertion c d) d' ->
  get_assertion (assertion_id (assertion c)) d' = Some (stored_claim c).
Proof.
  intros Ha Hi [Hk1 Hk2]%db_steps_kept. cbn in Hk1, Hk2. unfold get_assertion.
  assert (E1 : assertion_table d' !! assertion_id (assertion c) =
               Some {| a_claim_id := claim_id (identity c); a_source_id := assertion_source_id (assertion c);
                       evidence_json := evidence c; a_modality := modality (assertion c) |}).
  { eapply lookup_weaken, Hk2. unfold insert_or_ignore. rewrite Ha. apply lookup_insert_eq. }
  assert (E2 : claim_identity d' !! claim_id (identity c) = Some (identity_row c)).
  { eapply lookup_weaken, Hk1. unfold insert_or_ignore.
    destruct Hi as [Hi|Hi]; rewrite Hi; [apply lookup_insert_eq | done]. }
  rewrite E1. cbn [mbind option_bind a_claim_id]. rewrite E2. done.
Qed.

Lemma activate_cases others gid expected oid d d' r :
  (forall d, rtc db_step d (others d)) -> db_ok d ->
  activate others gid expected oid d = (d', r) ->
  (exists required, r = Ok tt /\ _required_from_manifest gid (others d) = Ok required /\ required <> [] /\
     activatable required gid expected oid (others d) /\ d' = activated gid oid (others d)) \/
  (exists e, r = Err e /\ (d' = d \/ d' = others d)).
Proof.
  intros Ho Hok. unfold activate.
  destruct (_required_from_manifest gid d) as [[|x l]|e] eqn:Hr.
  { intros [= <- <-]. right. eauto. }
  2: { intros [= <- <-]. right. eauto. }
  destruct (activate_transaction (x :: l) gid expected oid (others d)) as [d1|e] eqn:Ht;
    intros [= <- <-]; [left | right; eauto].
  apply activate_transaction_ok in Ht as [Hact ->]. exists (x :: l). split; [done|]. split; [|done].
  rewrite <- Hr. unfold _required_from_manifest. destruct (db_steps_ok _ _ (Ho d) Hok) as [_ He].
  unfold _required_from_manifest in Hr. destruct (generation d !! gid) as [g|] eqn:Hg; [|done].
  destruct (He _ _ Hg) as (g' & -> & Hev). cbn. by rewrite (ev_manifest _ _ Hev).
Qed.

(** ** Claims *)

(** A live lease of somebody else: the attempt is refused and changes nothing. *)
Lemma acquire_held who now ttl d x : lease_holder now d = Some x -> x <> who -> acquire_lease who now ttl d = (d, None).
Proof.
  unfold lease_holder, acquire_lease. destruct (holder (publisher_lease d)) as [y|]; [|done].
  destruct (Z.ltb_spec now (expires_at (publisher_lease d))); [|done]. intros [= ->] Hx.
  destruct (Z.leb_spec (expires_at (publisher_lease d)) now); [lia|]. by destruct (String.eqb_spec x who).
Qed.

Lemma acquire_free who now ttl d :
  (forall x, lease_holder now d = Some x -> x = who) -> exists t, acquire_lease who now ttl d =
    (set_lease {| holder := Some who; expires_at := now + ttl; fencing_token := t |} d, Some t).
Proof.
  unfold lease_holder, acquire_lease. intros Hx.
  destruct (holder (publisher_lease d)) as [y|]; [|by eexists].
  destruct (Z.ltb_spec now (expires_at (publisher_lease d))), (Z.leb_spec (expires_at (publisher_lease d)) now);
    try lia; cbn [negb andb]; [|by eexists].
  rewrite (Hx y eq_refl), String.eqb_refl. by eexists.
Qed.

Lemma release_frees who d : holder (publisher_lease (release_lease who d)) <> Some who.
Proof. unfold release_lease. by case_bool_decide. Qed.

(** The publisher lease is a fenced lock.  In any run of acquisitions and releases, with
    any clock readings: a fencing token is only ever granted to one holder; while a lease
    is unexpired nobody else gets one, and a refused attempt changes nothing; a new grant's
    token is at least every earlier one, and larger than all of them unless the same
    holder renews its live lease. *)
Theorem lease_fencing h d :
  lease_run h d ->
  (forall w w' t, (w, t) ∈ h -> (w', t) ∈ h -> w = w') /\
  (forall who now ttl x, lease_holder now d = Some x -> x <> who -> acquire_lease who now ttl d = (d, None)) /\
  (forall who now ttl d' t, acquire_lease who now ttl d = (d', Some t) ->
     lease_holder now d' = (if (0 <? ttl)%Z then Some who else None) /\
     forall w u, (w, u) ∈ h -> (u <= t)%Z /\ (u = t -> lease_holder now d = Some who)).
Proof.
  intros Hrun. pose proof (lease_run_ok _ _ Hrun) as [I1 I2 I3 I4]. split; [exact I2|]. split.
  - intros who now ttl x. apply acquire_held.
  - intros who now ttl d' t Ha.
    assert (Hd' : d' = set_lease {| holder := Some who; expires_at := now + ttl; fencing_token := t |} d).
    { pose proof Ha as [(_ & ? & _)|(t' & -> & [= <-] & _)]%acquire_cases; done. }
    split.
    + subst d'. unfold lease_holder. cbn. destruct (Z.ltb_spec 0 ttl), (Z.ltb_spec now (now + ttl)); done || lia.
    + intros w u Hw. specialize (I1 _ _ Hw). revert Ha. unfold acquire_lease, lease_holder.
      destruct (match holder (publisher_lease d) with Some _ => _ | None => _ end); [done|].
      intros [= _ <-]. case_bool_decide as Hh; cbn [andb]; [|split; [lia|lia]]. rewrite Hh.
      destruct (Z.leb_spec (expires_at (publisher_lease d)) now); cbn [negb].
      * split; lia.
      * split; [lia|]. destruct (Z.ltb_spec now (expires_at (publisher_lease d))); [done | lia].
Qed.

(** The publication invariant.  Whatever methods run on a database that started from
    the schema: a generation is published exactly when it is the current pointer (so at
    most one is), the pointer's generation exists, and the outbox holds exactly one mirror
    request for every generation that was ever activated, with strictly increasing event
    ids.  From then on a registered generation keeps its parent, commit, manifest and
    sequence number, and its state never goes back. *)
Theorem publication_invariant d :
  rtc db_step SCHEMA d ->
  (forall gid g, generation d !! gid = Some g -> state g = "published" <-> current_pointer d = Some gid) /\
  (forall gid, current_pointer d = Some gid -> is_Some (generation d !! gid)) /\
  NoDup (ob_generation_id <$> outbox d) /\ StronglySorted Z.lt (ob_event_id <$> outbox d) /\
  (forall gid, gid ∈ ob_generation_id <$> outbox d <->
     exists g, generation d !! gid = Some g /\ was_activated g) /\
  (forall d' gid g, rtc db_step d d' -> generation d !! gid = Some g ->
     exists g', generation d' !! gid = Some g' /\ evolves g g').
Proof.
  intros Hd. destruct (db_steps_ok _ _ Hd SCHEMA_ok) as [Hok _].
  destruct Hok as [H1 H2 H3 H4 H5 H6] eqn:E. repeat split; try done; try apply H1; try apply H3; try done.
  intros d' gid g Hs Hg. by apply (db_steps_ok _ _ Hs Hok).
Qed.

(** C5: activation is atomic and bound to the registered manifest.  Whatever other writers
    do between reading the required artifacts and the transaction, an activation that
    succeeds found, at its commit, the expected pointer, the generation ready with the
    given non-empty release commit, and every read model that the registered manifest
    requires (at least one) ready with the manifest's digest; it publishes the
    generation, supersedes the previous one, moves the pointer, queues one mirror
    request, and does nothing else.  An activation that fails does nothing. *)
Theorem activation_atomic others gid expected oid d d' r :
  (forall d, rtc db_step d (others d)) -> rtc db_step SCHEMA d ->
  activate others gid expected oid d = (d', r) ->
  (r = Ok tt ->
     exists required, _required_from_manifest gid (others d) = Ok required /\ required <> [] /\
       activatable required gid expected oid (others d) /\
       current_pointer d' = Some gid /\ current_release_oid d' = Some oid /\
       generation_state gid d' = Some "published" /\
       (forall k, k <> gid -> generation d' !! k =
          if bool_decide (Some k = expected) then with_state "superseded" <$> generation (others d) !! k
          else generation (others d) !! k) /\
       outbox d' = (outbox (others d) ++ [{| ob_event_id := outbox_seq (others d) + 1;
          ob_event_type := "release_mirror_requested"; ob_generation_id := gid; processed := false |}])%list) /\
  (r <> Ok tt -> d' = d \/ d' = others d).
Proof.
  intros Ho Hd Ha. destruct (db_steps_ok _ _ Hd SCHEMA_ok) as [Hok _].
  destruct (db_steps_ok _ _ (Ho d) Hok) as [Hok' _].
  destruct (activate_cases _ _ _ _ _ _ _ Ho Hok Ha) as [(req & -> & Hr & Hne & Hact & ->)|(e & -> & He)];
    [|by split].
  split; [intros _|done]. exists req. split; [done|]. split; [done|]. split; [done|].
  split; [done|]. split; [done|]. split.
  - destruct (activated_exists _ _ _ _ _ Hact) as (g & Hg & _).
    destruct (activated_lookup _ _ _ _ _ _ _ Hact Hok' Hg) as [E _].
    unfold generation_state. rewrite E, bool_decide_eq_true_2; done.
  - split; [|done]. intros k Hk. destruct (generation (others d) !! k) as [g|] eqn:Hg.
    + destruct (activated_lookup _ _ _ _ _ _ _ Hact Hok' Hg) as [E _].
      rewrite E, (bool_decide_eq_false_2 (k = gid)) by done. by destruct (bool_decide (Some k = expected)).
    + cbn. rewrite activated_rows_lookup, Hg. by destruct (bool_decide (Some k = expected)).
Qed.

(** A claim is written once.  A claim stored under a fresh assertion id (and a claim id
    that is fresh or already holds the same identity) is read back whole from any later
    state of the database, whatever else is stored or published, and later writes under
    the same ids are ignored. *)
Theorem claims_written_once c d d' :
  assertion_table d !! assertion_id (assertion c) = None ->
  claim_identity d !! claim_id (identity c) = None \/
    claim_identity d !! claim_id (identity c) = Some (identity_row c) ->
  rtc db_step (upsert_claim_and_assertion c d) d' ->
  get_assertions [assertion_id (assertion c)] d' = [stored_claim c] /\
  (forall c', assertion_id (assertion c') = assertion_id (assertion c) ->
     get_assertions [assertion_id (assertion c)] (upsert_claim_and_assertion c' d') = [stored_claim c]).
Proof.
  intros Ha Hi Hs.
  assert (Hget : forall d2, rtc db_step (upsert_claim_and_assertion c d) d2 ->
            get_assertions [assertion_id (assertion c)] d2 = [stored_claim c]).
  { intros d2 H2. unfold get_assertions. cbn. by rewrite (upsert_get c d d2 Ha Hi H2). }
  split; [by apply Hget|]. intros c' _. apply Hget. etrans; [exact Hs|]. apply rtc_once. constructor.
Qed.

(** ** Evaluations *)

Definition sample_manifest : json :=
  JObj [("descriptor", JObj [("inline_artifacts",
          JObj [("citation_index_digest", JStr "c1"); ("wiki_files_root", JStr "w1")])])].

Definition registered : db := register_generation "g1" None "commit1" "h1" (Some sample_manifest) (Some "r1") SCHEMA.
Definition marked : db :=
  (mark_read_model "g1" "citation_index" "c1" (mark_read_model "g1" "wiki_files" "w1" registered).1).1.
Definition ready : db := set_read_models_ready "g1" marked.
Definition sample_activation : db * result db_error unit := activate id "g1" None "r1" ready.

Example activation_sample :
  sample_activation.2 = Ok tt /\ current_pointer sample_activation.1 = Some "g1" /\
  pending_outbox sample_activation.1 = [(1%Z, "release_mirror_requested", "g1")] /\
  (activate id "g1" None "r1" marked).2 = Err ActivationError /\
  (activate id "g1" (Some "g0") "r1" ready).2 = Err CASConflict.
Proof. vm_compute. repeat split. Qed.

Lemma ready_reachable : rtc db_step SCHEMA ready.
Proof.
  apply (rtc_l _ _ registered); [constructor|].
  apply (rtc_l _ _ (mark_read_model "g1" "wiki_files" "w1" registered).1); [constructor|].
  apply (rtc_l _ _ marked); [constructor|]. apply rtc_once. constructor.
Qed.

Lemma lease_fencing_witness :
  acquire_lease "b" 5 10 (acquire_lease "a" 0 10 SCHEMA).1 = ((acquire_lease "a" 0 10 SCHEMA).1, None).
Proof.
  destruct (lease_fencing [("a", 1%Z)] (acquire_lease "a" 0 10 SCHEMA).1) as (_ & H & _).
  - apply (lease_grant [] "a" 0 10 SCHEMA); [apply lease_start | reflexivity].
  - apply (H "b" 5%Z 10%Z "a"); [reflexivity | discriminate].
Defined.

Lemma publication_invariant_witness :
  exists g, generation ready !! "g1" = Some g /\
    (state g = "published" <-> current_pointer ready = Some "g1").
Proof.
  eexists. split; [vm_compute; reflexivity|].
  apply (proj1 (publication_invariant ready ready_reachable)). vm_compute. reflexivity.
Defined.

Lemma activation_atomic_witness : current_pointer sample_activation.1 = Some "g1".
Proof.
  destruct (activation_atomic id "g1" None "r1" ready sample_activation.1 (Ok tt)) as [H _].
  - intros d. apply rtc_refl.
  - exact ready_reachable.
  - vm_compute. reflexivity.
  - destruct (H eq_refl) as (req & _ & _ & _ & Hp & _). exact Hp.
Defined.

Definition sample_claim : CompiledClaim :=
  {| identity := {| claim_id := "c1"; subject_id := "Rocq"; predicate_id := "is"; obj := "a prover";
                    polarity := "positive"; scope := [("b", "2"); ("a", "1")] |};
     assertion := {| assertion_id := "a1"; assertion_claim_id := "c1"; assertion_source_id := "s1";
                     evidence_ids := ["e1"]; modality := "asserted" |};
     evidence := {| evidence_id := "e1"; source_object_hash := "s1"; representation_hash := "r";
                    quote_hash := "q"; locators := [] |} |}.

Lemma claims_written_once_witness :
  get_assertions ["a1"] (upsert_claim_and_assertion sample_claim ready) = [stored_claim sample_claim].
Proof.
  apply (proj1 (claims_written_once sample_claim ready (upsert_claim_and_assertion sample_claim ready)
    ltac:(vm_compute; reflexivity) ltac:(left; vm_compute; reflexivity) (rtc_refl _ _))).
Defined.
