(* ===== verification/Search.v ===== *)
(** * Search with a lagging index (search.py) *)
From S2P Require Import Prelude Digest Json Canonical Hashing Models Claims ControlPlane.
Open Scope string_scope.

Record SearchHit : Type := {
  hit_claim_id : string; hit_subject : string; hit_predicate : string; hit_obj : string;
}.

Record SearchResponse : Type := {
  hits : list SearchHit;
  indexed_generation_id : option string;
  current_wiki_generation_id : option string;
  stale : bool;
  disabled : bool;
}.

Definition hit_of (row : string * string * string * string) : SearchHit :=
  let '(c, s, p, o) := row in
  {| hit_claim_id := c; hit_subject := s; hit_predicate := p; hit_obj := o |}.

(** [SearchService.query] with its [max_generation_lag]. *)
Definition query (max_generation_lag : Z) (term : string) (d : db) : SearchResponse :=
  match current_search_pointer d, current_pointer d with
  | Some s, Some w =>
      let lag := (generation_seq w d - generation_seq s d)%Z in
      if (max_generation_lag <? lag)%Z
      then {| hits := []; indexed_generation_id := Some s; current_wiki_generation_id := Some w;
              stale := true; disabled := true |}
      else {| hits := hit_of <$> List.filter (fun row => let '(c, _, _, _) := row in
                                 bool_decide (resolution_state w c d = Some "accepted"))
                                (search_index_lookup s term d);
              indexed_generation_id := Some s; current_wiki_generation_id := Some w;
              stale := negb (String.eqb s w); disabled := false |}
  | s, w => {| hits := []; indexed_generation_id := s; current_wiki_generation_id := w;
               stale := false; disabled := false |}
  end.

(** ** LIKE *)

Definition no_wildcards (s : list string) : Prop := "%" ∉ s /\ "_" ∉ s.

(** Texts equal up to the case of ASCII letters. *)
Definition same_fold (a b : list string) : Prop := map char_lower a = map char_lower b.

Lemma like_any pattern text :
  like ("%" :: pattern) text = true <-> exists pre post, text = (pre ++ post)%list /\ like pattern post = true.
Proof.
  cbn [like String.eqb]. change (String.eqb "%" "%") with true. cbn iota.
  induction text as [|c text IH].
  - rewrite orb_false_r. split.
    + intros H. by exists [], [].
    + intros (pre & post & E & H). symmetry in E. by apply app_eq_nil in E as [-> ->].
  - cbn -[like]. rewrite orb_true_iff, IH. split.
    + intros [H|(pre & post & -> & H)]; [by exists [], (c :: text) | by exists (c :: pre), post].
    + intros ([|x pre] & post & E & H); [left; cbn in E; by subst|].
      injection E as -> ->. right. by exists pre, post.
Qed.

Lemma like_literal lit pattern text :
  no_wildcards lit ->
  like (lit ++ pattern) text = true <->
  exists pre post, text = (pre ++ post)%list /\ same_fold lit pre /\ like pattern post = true.
Proof.
  revert text; induction lit as [|p lit IH]; intros text [H1 H2]; cbn [app].
  - split; [intros H; by exists [], text|]. intros (pre & post & -> & E & H).
    unfold same_fold in E. destruct pre; [done | discriminate E].
  - apply not_elem_of_cons in H1 as [Hp1 H1], H2 as [Hp2 H2]. cbn [like].
    destruct (String.eqb_spec p "%"); [congruence|]. destruct text as [|c text].
    { split; [done|]. intros (pre & post & E & Hf & _). symmetry in E. apply app_eq_nil in E as [-> _].
      discriminate Hf. }
    destruct (String.eqb_spec p "_"); [congruence|]. cbn [orb].
    rewrite andb_true_iff, String.eqb_eq, IH by done. split.
    + intros [E (pre & post & -> & Hf & H)]. exists (c :: pre), post. split; [done|]. split; [|done].
      unfold same_fold in *. cbn. by f_equal.
    + intros (pre & post & E & Hf & H). destruct pre as [|x pre]; [discriminate Hf|].
      injection E as -> ->. unfold same_fold in Hf. cbn in Hf. injection Hf as E Hf.
      split; [done|]. by exists pre, post.
Qed.

(** The pattern [%term%] of a term without wildcards: the text contains it up to case. *)
Lemma like_contains term text :
  no_wildcards term ->
  like ("%" :: term ++ ["%"]) text = true <->
  exists a b c, text = (a ++ b ++ c)%list /\ same_fold term b.
Proof.
  intros Hn. rewrite like_any. split.
  - intros (a & rest & -> & H). apply like_literal in H as (b & c & -> & Hf & _); [|done].
    by exists a, b, c.
  - intros (a & b & c & -> & Hf). exists a, (b ++ c)%list. split; [done|].
    apply like_literal; [done|]. exists b, c. split; [done|]. split; [done|].
    apply like_any. exists c, []. split; [by rewrite app_nil_r | done].
Qed.

Lemma sql_like_contains term text :
  starts_char term = true -> no_wildcards (chars term) ->
  sql_like text ("%" +:+ term +:+ "%") = true <->
  exists a b c, chars text = (a ++ b ++ c)%list /\ same_fold (chars term) b.
Proof.
  intros Hs Hn. unfold sql_like.
  assert (E : chars ("%" +:+ term +:+ "%") = ("%" :: chars term ++ ["%"])%list).
  { change ("%" +:+ term +:+ "%") with (String "%" (term +:+ "%")).
    rewrite chars_cons; [by rewrite chars_app|]. by destruct term. }
  rewrite E. by apply like_contains.
Qed.

Lemma search_index_lookup_elem gid term d c s p o :
  (c, s, p, o) ∈ search_index_lookup gid term d <->
  search_index d !! (gid, c) = Some (s, p, o) /\
  (sql_like s ("%" +:+ term +:+ "%") = true \/ sql_like p ("%" +:+ term +:+ "%") = true \/
   sql_like o ("%" +:+ term +:+ "%") = true).
Proof.
  unfold search_index_lookup. cbn zeta. rewrite list_elem_of_fmap. split.
  - intros ([[g c'] [[s' p'] o']] & [= -> -> -> ->] & Hin). apply list_elem_of_In, List.filter_In in Hin as [Hin Hf].
    cbn in Hf. apply andb_true_iff in Hf as [->%String.eqb_eq Hf].
    apply list_elem_of_In, elem_of_map_to_list in Hin. split; [done|].
    apply orb_true_iff in Hf as [Hf|Hf]; [|by auto]. apply orb_true_iff in Hf as [Hf|Hf]; auto.
  - intros [Hl Hk]. exists ((gid, c), (s, p, o)). split; [done|].
    apply list_elem_of_In, List.filter_In. split; [by apply list_elem_of_In, elem_of_map_to_list|].
    cbn [fst snd]. rewrite String.eqb_refl. cbn [andb]. destruct Hk as [->|[->| ->]]; cbn;
      by rewrite ?orb_true_r.
Qed.

(** ** Claims *)

(** Search never returns a claim that the current generation does not accept.  Its hits
    are exactly the rows of the indexed generation that match the term and whose claim is
    accepted in the current one, unless the index lags by more than the allowed number of
    generations: then the search is disabled, stale and empty.  It reports both pointers,
    and is not stale exactly when they agree. *)
Theorem search_only_accepted lag term d :
  (forall h, h ∈ hits (query lag term d) <->
     exists s w, current_search_pointer d = Some s /\ current_pointer d = Some w /\
       (generation_seq w d - generation_seq s d <= lag)%Z /\
       search_index d !! (s, hit_claim_id h) = Some (hit_subject h, hit_predicate h, hit_obj h) /\
       (exists f, f ∈ [hit_subject h; hit_predicate h; hit_obj h] /\
                  sql_like f ("%" +:+ term +:+ "%") = true) /\
       resolution_state w (hit_claim_id h) d = Some "accepted") /\
  (disabled (query lag term d) = true ->
     hits (query lag term d) = [] /\ stale (query lag term d) = true) /\
  indexed_generation_id (query lag term d) = current_search_pointer d /\
  current_wiki_generation_id (query lag term d) = current_pointer d /\
  (forall s w, current_search_pointer d = Some s -> current_pointer d = Some w ->
     (disabled (query lag term d) = true <-> (lag < generation_seq w d - generation_seq s d)%Z) /\
     (disabled (query lag term d) = false -> stale (query lag term d) = false <-> s = w)).
Proof.
  unfold query. destruct (current_search_pointer d) as [s|]; destruct (current_pointer d) as [w|];
    try (split; [intros h; split; [by intros ?%elem_of_nil | by intros (? & ? & ? & ? & _)]|];
         split; [done|]; split; [done|]; split; [done|]; done).
  destruct (Z.ltb_spec lag (generation_seq w d - generation_seq s d)); cbn [hits disabled stale
    indexed_generation_id current_wiki_generation_id].
  { split; [intros h; split; [by intros ?%elem_of_nil|]|].
    - intros (? & ? & [= <-] & [= <-] & ? & _). lia.
    - split; [done|]. split; [done|]. split; [done|]. intros ?? [= <-] [= <-]. split; [split; done | done]. }
  split; [|split; [done|]; split; [done|]; split; [done|]].
  - intros h. rewrite list_elem_of_fmap. split.
    + intros ([[[c s'] p] o] & -> & Hin). apply list_elem_of_In, List.filter_In in Hin as [Hin Hr].
      apply list_elem_of_In, search_index_lookup_elem in Hin as [Hl Hk]. apply bool_decide_eq_true in Hr.
      exists s, w. do 4 (split; [done|]). split; [|done]. cbn.
      destruct Hk as [?|[?|?]]; [exists s' | exists p | exists o]; (split; [|done]);
        rewrite !elem_of_cons; auto.
    + destruct h as [c s' p o]. cbn. intros (? & ? & [= <-] & [= <-] & _ & Hl & (f & Hf & Hk) & Hr).
      exists (c, s', p, o). split; [done|]. apply list_elem_of_In, List.filter_In. split.
      * apply list_elem_of_In, search_index_lookup_elem. split; [done|].
        apply elem_of_cons in Hf as [->|[->|[->|[]%elem_of_nil]%elem_of_cons]%elem_of_cons]; auto.
      * by apply bool_decide_eq_true.
  - intros ?? [= <-] [= <-]. split; [split; [done | lia]|]. intros _.
    destruct (String.eqb_spec s w) as [->|]; split; done.
Qed.

(** A term is looked up as text.  A term without LIKE wildcards matches a row of the index
    exactly when its subject, predicate or object contains the term, up to the case of
    ASCII letters. *)
Theorem search_term_is_substring gid term d c s p o :
  starts_char term = true -> no_wildcards (chars term) ->
  (c, s, p, o) ∈ search_index_lookup gid term d <->
  search_index d !! (gid, c) = Some (s, p, o) /\
  exists f pre mid post, f ∈ [s; p; o] /\ chars f = (pre ++ mid ++ post)%list /\
                         same_fold (chars term) mid.
Proof.
  intros Hs Hn. rewrite search_index_lookup_elem, !(sql_like_contains term) by done.
  assert (Hf : forall f, f ∈ [s; p; o] <-> f = s \/ f = p \/ f = o).
  { intros f. rewrite !elem_of_cons, elem_of_nil. tauto. }
  setoid_rewrite Hf. split.
  - intros [Hl [H|[H|H]]]; destruct H as (x & y & z & H); (split; [done|]);
      [exists s | exists p | exists o]; exists x, y, z; auto.
  - intros [Hl (f & x & y & z & [->|[->| ->]] & H)]; (split; [done|]); [left | right; left | right; right]; by exists x, y, z.
Qed.

(** ** Evaluations *)

Definition searchable : db :=
  set_search_pointer "g1"
    (build_search_index "g1" [("c1", "Rocq", "is", "a Prover"); ("c2", "Lean", "is", "a prover")]
      (record_resolution "g1" "c2" "retracted" (record_resolution "g1" "c1" "accepted" sample_activation.1).1).1).1.

Example search_sample :
  hit_claim_id <$> hits (query 5 "PROVER" searchable) = ["c1"] /\
  length (search_index_lookup "g1" "PROVER" searchable) = 2.
Proof. vm_compute. repeat split. Qed.

Lemma search_term_is_substring_witness :
  ("c1", "Rocq", "is", "a Prover") ∈ search_index_lookup "g1" "PROVER" searchable.
Proof.
  apply (search_term_is_substring "g1" "PROVER" searchable).
  - reflexivity.
  - split; intros Hx%str_mem_spec; discriminate Hx.
  - split; [vm_compute; reflexivity|].
    exists "a Prover", ["a"; " "], ["P"; "r"; "o"; "v"; "e"; "r"], [].
    split; [apply str_mem_spec; reflexivity|]. split; reflexivity.
Defined.
