(* ===== verification/Signing.v ===== *)
(** * Signing (signing.py)

    Ed25519 is the class [Ed25519] with the one law the keyring relies on: a signature made
    with a private key verifies under its public key.  Bytes are strings; generating and
    loading keys is I/O and takes the key as an argument. *)
From S2P Require Import Prelude Json.
Open Scope string_scope.

Class Ed25519 : Type := {
  priv_key : Type;
  pub_key : Type;
  public_key : priv_key -> pub_key;
  ed_sign : priv_key -> string -> string;
  ed_verify : pub_key -> string -> string -> bool;
  ed_verify_sign : forall k m, ed_verify (public_key k) (ed_sign k m) m = true;
}.

Definition nul : string := String (ascii_of_N 0) "".
Definition DOMAIN_SEPARATOR : string := "wiki.generation.v1".

Definition framed_domain (domain payload : string) : string := domain +:+ nul +:+ payload.
Definition _framed (payload : string) : string := framed_domain DOMAIN_SEPARATOR payload.

Inductive key_error : Type := KeyringKeyError.

Section Keyring.
Context {E : Ed25519}.

Record Keyring : Type := { _priv : gmap string priv_key; _pub : gmap string pub_key }.

Definition empty_keyring : Keyring := {| _priv := ∅; _pub := ∅ |}.

(** [generate] and [load_or_create], once the private key is drawn or read. *)
Definition add_private (key_id : string) (priv : priv_key) (r : Keyring) : Keyring :=
  {| _priv := <[key_id := priv]> (_priv r); _pub := <[key_id := public_key priv]> (_pub r) |}.

Definition add_public (key_id : string) (pub : pub_key) (r : Keyring) : Keyring :=
  {| _priv := _priv r; _pub := <[key_id := pub]> (_pub r) |}.

Definition sign_domain (r : Keyring) (key_id domain payload : string) : result key_error string :=
  match _priv r !! key_id with
  | Some k => Ok (ed_sign k (framed_domain domain payload))
  | None => Err KeyringKeyError
  end.

Definition sign (r : Keyring) (key_id payload : string) : result key_error string :=
  match _priv r !! key_id with
  | Some k => Ok (ed_sign k (_framed payload))
  | None => Err KeyringKeyError
  end.

Definition verify_domain (r : Keyring) (key_id domain payload signature : string) : bool :=
  match _pub r !! key_id with
  | Some p => ed_verify p signature (framed_domain domain payload)
  | None => false
  end.

Definition verify (r : Keyring) (key_id payload signature : string) : bool :=
  match _pub r !! key_id with
  | Some p => ed_verify p signature (_framed payload)
  | None => false
  end.

(** The public key of an identifier is that of its private key, if it has one. *)
Definition keyring_ok (r : Keyring) : Prop :=
  forall k priv, _priv r !! k = Some priv -> _pub r !! k = Some (public_key priv).

Lemma empty_keyring_ok : keyring_ok empty_keyring.
Proof. intros k p H. cbn in H. by rewrite lookup_empty in H. Qed.

Lemma add_private_ok k priv r : keyring_ok r -> keyring_ok (add_private k priv r).
Proof.
  intros Hr k' p. cbn. destruct (decide (k' = k)) as [->|].
  - rewrite !lookup_insert_eq. by intros [= <-].
  - rewrite !lookup_insert_ne by done. apply Hr.
Qed.

Lemma verify_sign r k payload s : keyring_ok r -> sign r k payload = Ok s -> verify r k payload s = true.
Proof.
  unfold sign, verify. intros Hr. destruct (_priv r !! k) as [p|] eqn:E1; [|done]. intros [= <-].
  rewrite (Hr _ _ E1). apply ed_verify_sign.
Qed.

Lemma verify_sign_domain r k d payload s :
  keyring_ok r -> sign_domain r k d payload = Ok s -> verify_domain r k d payload s = true.
Proof.
  unfold sign_domain, verify_domain. intros Hr. destruct (_priv r !! k) as [p|] eqn:E1; [|done].
  intros [= <-]. rewrite (Hr _ _ E1). apply ed_verify_sign.
Qed.
End Keyring.

(** ** Domain separation *)

Fixpoint nul_free (s : string) : bool :=
  match s with EmptyString => true | String c s => negb (Ascii.eqb c (ascii_of_N 0)) && nul_free s end.

Lemma framed_inj d d' p p' :
  nul_free d = true -> nul_free d' = true ->
  framed_domain d p = framed_domain d' p' -> d = d' /\ p = p'.
Proof.
  unfold framed_domain, nul. revert d'; induction d as [|c d IH]; intros [|c' d'] Hd Hd' E.
  - injection E as E. done.
  - injection E as E _. cbn in Hd'. subst c'. done.
  - injection E as E _. cbn in Hd. subst c. done.
  - cbn [nul_free] in Hd, Hd'. apply andb_true_iff in Hd as [_ Hd], Hd' as [_ Hd'].
    injection E as -> E. destruct (IH d' Hd Hd' E) as [-> ->]. done.
Qed.

(** Signatures are separated by domain.  A signature the keyring makes in a domain
    verifies in it, and the bytes signed in two domains (free of NUL bytes, as the
    generation and release domains are) coincide only for the same domain and payload: a
    generation signature is never a signature of a release. *)
Theorem signing_domains_separated {E : Ed25519} r k d payload s :
  keyring_ok r -> nul_free d = true -> sign_domain r k d payload = Ok s ->
  verify_domain r k d payload s = true /\
  (forall d' payload', nul_free d' = true ->
     framed_domain d' payload' = framed_domain d payload -> d' = d /\ payload' = payload) /\
  (forall payload' payload'', _framed payload' <> framed_domain "wiki.release.v1" payload'').
Proof.
  intros Hr Hd Hs. split; [by eapply verify_sign_domain|]. split.
  - intros d' p' Hd' E'. by apply framed_inj.
  - intros p' p'' E'. apply framed_inj in E' as [E' _]; [discriminate E' | reflexivity | reflexivity].
Qed.

(** ** Evaluations: a scheme whose signature repeats key and message *)

Definition toy_ed25519 : Ed25519 :=
  {| priv_key := string; pub_key := string; public_key := fun k => k;
     ed_sign := fun k m => k +:+ m; ed_verify := fun k s m => String.eqb s (k +:+ m);
     ed_verify_sign := fun k m => String.eqb_refl (k +:+ m) |}.

Definition toy_keyring : Keyring (E := toy_ed25519) :=
  add_private (E := toy_ed25519) "k1" "secret" (empty_keyring (E := toy_ed25519)).

Lemma toy_keyring_ok : keyring_ok (E := toy_ed25519) toy_keyring.
Proof. apply add_private_ok, empty_keyring_ok. Qed.

Lemma signing_domains_separated_witness :
  verify_domain (E := toy_ed25519) toy_keyring "k1" "wiki.release.v1" "payload"
    ("secret" +:+ framed_domain "wiki.release.v1" "payload") = true.
Proof.
  apply (signing_domains_separated (E := toy_ed25519) toy_keyring "k1" "wiki.release.v1" "payload"
    ("secret" +:+ framed_domain "wiki.release.v1" "payload")).
  - exact toy_keyring_ok.
  - reflexivity.
  - reflexivity.
Defined.
