(* ===== verification/Git.v ===== *)
(** * The git repository as an interface (gitrepo.py)

    GitRepo runs the git executable.  Its methods are the operations of the class [GitRepo]
    over a repository state, and [GitLaws] is the behaviour of git the publication code
    relies on: a commit made of a tree of files holds exactly those files, for ever, and a
    reference created once is read back until it is moved.  An in-memory repository
    implements the interface. *)
From S2P Require Import Prelude Json.
Open Scope string_scope.

Inductive git_error : Type := GitError.

Class GitRepo (G : Type) : Type := {
  write_tree_from_files : list (string * string) -> st G git_error string;
  commit_tree : string -> string -> option string -> st G git_error string;
  read_ref : G -> string -> option string;
  create_ref_only : string -> string -> st G git_error unit;
  set_retention_anchor : string -> string -> st G git_error unit;
  (** [cat_file(f"{commit}:{path}")] and [ls_tree(commit)] *)
  cat_file : G -> string -> string -> result git_error string;
  ls_tree : G -> string -> result git_error (list string);
}.

Class GitLaws (G : Type) `{GitRepo G} : Type := {
  (** the files of a tree, the files of a commit *)
  tree_files : G -> string -> gmap string string -> Prop;
  commit_files : G -> string -> gmap string string -> Prop;
  (** what was stored stays stored *)
  later : G -> G -> Prop;
  later_preorder :: PreOrder later;
  later_commit : forall g g' c m, later g g' -> commit_files g c m -> commit_files g' c m;
  write_tree_law : forall files g, exists g' t,
    write_tree_from_files files g = (g', Ok t) /\ later g g' /\
    tree_files g' t (list_to_map (rev files)) /\ forall ref, read_ref g' ref = read_ref g ref;
  commit_tree_law : forall t msg parent g m, tree_files g t m ->
    exists g' c, commit_tree t msg parent g = (g', Ok c) /\ later g g' /\ commit_files g' c m /\
                 c <> "" /\ forall ref, read_ref g' ref = read_ref g ref;
  create_ref_law : forall ref c g, read_ref g ref = None ->
    exists g', create_ref_only ref c g = (g', Ok tt) /\ later g g' /\ read_ref g' ref = Some c /\
               forall ref', ref' <> ref -> read_ref g' ref' = read_ref g ref';
  create_ref_refused : forall ref c g x, read_ref g ref = Some x ->
    create_ref_only ref c g = (g, Err GitError);
  anchor_law : forall ref c g,
    exists g', set_retention_anchor ref c g = (g', Ok tt) /\ later g g' /\ read_ref g' ref = Some c /\
               forall ref', ref' <> ref -> read_ref g' ref' = read_ref g ref';
  cat_file_law : forall g c m p, commit_files g c m ->
    cat_file g c p = match m !! p with Some d => Ok d | None => Err GitError end;
  ls_tree_law : forall g c m, commit_files g c m ->
    exists l, ls_tree g c = Ok l /\ forall p, p ∈ l <-> is_Some (m !! p);
}.

(** ** An in-memory repository

    An object's name is its content, printed: a repository is the set of the names it
    holds, and reading an object parses its name. *)

Record mem_repo : Type := { trees : list string; commits : list string; refs : gmap string string }.

Definition empty_repo : mem_repo := {| trees := []; commits := []; refs := ∅ |}.

Definition tree_entry (kv : string * string) : string * json := (kv.1, JStr kv.2).
Definition entry_data (kv : string * json) : string * string :=
  (kv.1, match kv.2 with JStr d => d | _ => "" end).

Definition tree_name (m : gmap string string) : string :=
  json_dumps (JObj (map tree_entry (map_to_list m))).

Definition tree_content (t : string) : option (gmap string string) :=
  match json_parse t with Some (JObj kvs) => Some (list_to_map (map entry_data kvs)) | _ => None end.

Definition commit_name (tree msg : string) (parent : option string) : string :=
  json_dumps (JArr [JStr tree; JStr msg; match parent with Some p => JStr p | None => JNull end]).

Definition commit_content (c : string) : option (gmap string string) :=
  match json_parse c with Some (JArr (JStr t :: _)) => tree_content t | _ => None end.

Definition mem_write_tree (files : list (string * string)) : st mem_repo git_error string := fun g =>
  let t := tree_name (list_to_map (rev files)) in
  ({| trees := t :: trees g; commits := commits g; refs := refs g |}, Ok t).

Definition mem_commit_tree (tree msg : string) (parent : option string) : st mem_repo git_error string :=
  fun g =>
    if str_mem tree (trees g)
    then let c := commit_name tree msg parent in
         ({| trees := trees g; commits := c :: commits g; refs := refs g |}, Ok c)
    else (g, Err GitError).

Definition mem_create_ref (ref c : string) : st mem_repo git_error unit := fun g =>
  match refs g !! ref with
  | Some _ => (g, Err GitError)
  | None => ({| trees := trees g; commits := commits g; refs := <[ref := c]> (refs g) |}, Ok tt)
  end.

Definition mem_anchor (ref c : string) : st mem_repo git_error unit := fun g =>
  ({| trees := trees g; commits := commits g; refs := <[ref := c]> (refs g) |}, Ok tt).

Definition mem_files (g : mem_repo) (c : string) : option (gmap string string) :=
  if str_mem c (commits g) then commit_content c else None.

#[export] Instance mem_git : GitRepo mem_repo := {|
  write_tree_from_files := mem_write_tree;
  commit_tree := mem_commit_tree;
  read_ref := fun g ref => refs g !! ref;
  create_ref_only := mem_create_ref;
  set_retention_anchor := mem_anchor;
  cat_file := fun g c p => of_option GitError (mem_files g c ≫= fun m => m !! p);
  ls_tree := fun g c => of_option GitError ((fun m => (map_to_list m).*1) <$> mem_files g c);
|}.

Lemma entries_keys (kvs : list (string * json)) : (map entry_data kvs).*1 = kvs.*1.
Proof. induction kvs as [|x l IH]; cbn; [done|]. by f_equal. Qed.

Lemma entry_data_tree l : map entry_data (map tree_entry l) = l.
Proof. rewrite map_map. cbn. induction l as [|[k v] l IH]; cbn; [done|]. by f_equal. Qed.

Lemma tree_content_name m : tree_content (tree_name m) = Some m.
Proof.
  unfold tree_content, tree_name. rewrite json_parse_dumps. cbn [sort_json]. f_equal.
  apply map_eq. intros k.
  assert (Hs : forall l, map (fun kv => (kv.1, sort_json kv.2)) (map tree_entry l) = map tree_entry l).
  { intros l. rewrite map_map. induction l as [|x l IH]; cbn; [done|]. by f_equal. }
  rewrite Hs.
  assert (Hp : map entry_data (sort_on fst (map tree_entry (map_to_list m))) ≡ₚ map_to_list m).
  { rewrite <- (entry_data_tree (map_to_list m)) at 2. apply Permutation_map, py_sort_perm. }
  rewrite (list_to_map_proper (map entry_data (sort_on fst (map tree_entry (map_to_list m))))
             (map_to_list m)); [by rewrite list_to_map_to_list | | done].
  rewrite Hp. apply NoDup_fst_map_to_list.
Qed.

Lemma commit_content_name t msg parent : commit_content (commit_name t msg parent) = tree_content t.
Proof. unfold commit_content, commit_name. by rewrite json_parse_dumps. Qed.

Definition mem_later (g g' : mem_repo) : Prop := trees g ⊆ trees g' /\ commits g ⊆ commits g'.

#[export] Instance mem_later_preorder : PreOrder mem_later.
Proof. split; [by intros g|]. intros a b c [] []. split; by etrans. Qed.

#[export] Instance mem_git_laws : GitLaws mem_repo.
Proof.
  refine (Build_GitLaws mem_repo mem_git (fun g t m => t ∈ trees g /\ tree_content t = Some m)
            (fun g c m => mem_files g c = Some m) mem_later _ _ _ _ _ _ _ _ _).
  - intros g g' c m [_ Hc]. unfold mem_files. destruct (str_mem c (commits g)) eqn:E; [|done].
    rewrite (proj2 (str_mem_spec _ _)); [done|]. by apply Hc, str_mem_spec.
  - intros files g. eexists _, _. split; [reflexivity|]. repeat split; cbn; try set_solver.
    apply tree_content_name.
  - intros t msg parent g m [Ht Hm]. cbn. unfold mem_commit_tree. rewrite (proj2 (str_mem_spec _ _)) by done.
    eexists _, _. split; [reflexivity|]. repeat split; cbn; try set_solver.
    unfold mem_files. cbn [commits]. rewrite (proj2 (str_mem_spec _ _)) by left.
    by etrans; [apply commit_content_name|].
  - intros ref c g Hr. cbn in *. unfold mem_create_ref. rewrite Hr. eexists. split; [reflexivity|].
    repeat split; cbn; try done; [apply lookup_insert_eq|]. intros. by apply lookup_insert_ne.
  - intros ref c g x Hr. cbn in *. unfold mem_create_ref. by rewrite Hr.
  - intros ref c g. eexists. split; [reflexivity|].
    repeat split; cbn; try done; [apply lookup_insert_eq|]. intros. by apply lookup_insert_ne.
  - intros g c m p Hm. cbn in *. rewrite Hm. cbn. by destruct (m !! p).
  - intros g c m Hm. cbn in *. rewrite Hm. cbn. eexists. split; [reflexivity|]. intros p.
    rewrite list_elem_of_fmap. split.
    + intros ([k v] & -> & Hin). apply elem_of_map_to_list in Hin. by exists v.
    + intros [v Hv]. exists (p, v). split; [done|]. by apply elem_of_map_to_list.
Defined.
