(* ===== verification/Mirror.v ===== *)
(** * The remote mirror (mirror.py)

    [git push] runs against a remote whose behaviour is the class [GitRemote]; the local
    repository is the interface of Git.v, the outbox is the database's. *)
From stdpp Require Import relations.
From S2P Require Import Prelude Json Models Claims ControlPlane Git.
Open Scope string_scope.

Inductive mirror_error : Type := MirrorError | MirrorGitError.

(** A remote: initialise it if it has no HEAD; push a reference, forced or not. *)
Class GitRemote (G Rm : Type) : Type := {
  ensure_remote : G -> Rm -> Rm;
  push : G -> string -> bool -> Rm -> Rm * bool;
  remote_ref : Rm -> string -> option string;
}.

(** A push that succeeds makes the remote's reference the local one, and pushes move no
    other reference; one that fails moves none. *)
Class RemoteLaws (G Rm : Type) `{GitRepo G} `{GitRemote G Rm} : Prop := {
  push_done : forall g ref force rm rm', push g ref force rm = (rm', true) -> remote_ref rm' ref = read_ref g ref;
  push_others : forall g ref force rm rm' ok ref', push g ref force rm = (rm', ok) -> ref' <> ref \/ ok = false ->
    remote_ref rm' ref' = remote_ref rm ref';
  ensure_refs : forall g rm ref, remote_ref (ensure_remote g rm) ref = remote_ref rm ref;
}.

Definition generation_ref (gid : string) : string := "refs/wiki/generations/" +:+ gid.
Definition current_release_ref : string := "refs/wiki/releases/current".

Section Mirror.
Context {G Rm : Type} `{GitRepo G} `{GitRemote G Rm}.

Record MirrorState : Type := { local : G; control : db; remote : Rm }.

(** [_push], forced by a leading "+". *)
Definition _push (ref : string) (force : bool) : st MirrorState mirror_error unit := fun s =>
  let '(rm, ok) := push (local s) ref force (remote s) in
  ({| local := local s; control := control s; remote := rm |}, ensure ok MirrorError).

Definition push_generation (gid : string) : st MirrorState mirror_error unit := _push (generation_ref gid) false.

Definition anchor (ref oid : string) : st MirrorState mirror_error unit := fun s =>
  let '(g, r) := set_retention_anchor ref oid (local s) in
  ({| local := g; control := control s; remote := remote s |}, map_err (fun _ => MirrorGitError) r).

Definition sync_release_ref : st MirrorState mirror_error unit :=
  oid ← st_gets (fun s => current_release_oid (control s));
  match oid with
  | Some oid =>
      if str_nonempty oid
      then _ ← anchor current_release_ref oid; _push current_release_ref true
      else mret tt
  | None => mret tt
  end.

Definition mark (i : Z) (s : MirrorState) : MirrorState :=
  {| local := local s; control := mark_outbox_processed i (control s); remote := remote s |}.

(** The loop body on one pending event. *)
Definition relay (event : Z * string * string) : st MirrorState mirror_error unit :=
  let '(event_id, event_type, gid) := event in
  _ ← (if String.eqb event_type "release_mirror_requested"
       then _ ← push_generation gid; sync_release_ref
       else mret tt);
  st_modify (mark event_id).

Definition process_outbox : st MirrorState mirror_error nat :=
  _ ← st_modify (fun s => {| local := local s; control := control s; remote := ensure_remote (local s) (remote s) |});
  pending ← st_gets (fun s => pending_outbox (control s));
  _ ← st_iter relay pending;
  _ ← (if bool_decide (pending = []) then sync_release_ref else mret tt);
  mret (length pending).
End Mirror.
Arguments MirrorState G Rm : clear implicits.

(** ** Lemmas *)
Section MirrorLemmas.
Context {G Rm : Type} `{GL : GitLaws G} `{!GitRemote G Rm} {RL : RemoteLaws G Rm}.
Implicit Types s : MirrorState G Rm.

Definition event_of (r : OutboxRow) : Z * string * string := (ob_event_id r, ob_event_type r, ob_generation_id r).
Definition pending_rows (d : db) : list OutboxRow := List.filter (fun r => negb (processed r)) (outbox d).

Lemma filter_sorted (l : list OutboxRow) f :
  StronglySorted Z.lt (ob_event_id <$> l) -> StronglySorted Z.lt (ob_event_id <$> List.filter f l).
Proof.
  induction l as [|r l IH]; [done|]. cbn. intros Hs. apply StronglySorted_inv in Hs as [Hs Hr].
  destruct (f r); [|by apply IH]. cbn. constructor; [by apply IH|]. apply list.Forall_forall. intros x Hx.
  apply (proj1 (list.Forall_forall _ _) Hr). apply list_elem_of_fmap in Hx as (y & -> & Hy). apply list_elem_of_fmap. exists y. split; [done|].
  apply list_elem_of_In, filter_In in Hy as [Hy _]. by apply list_elem_of_In.
Qed.

Lemma pending_in_order d : StronglySorted Z.lt (ob_event_id <$> outbox d) -> pending_outbox d = event_of <$> pending_rows d.
Proof.
  intros Hs. unfold pending_outbox. rewrite py_sort_id; [done|].
  pose proof (filter_sorted _ (fun r => negb (processed r)) Hs) as Hf. unfold ordered. fold (pending_rows d) in *.
  induction (pending_rows d) as [|r l IH]; [constructor|]. cbn in Hf. apply StronglySorted_inv in Hf as [Hf Hr].
  constructor; [by apply IH|]. apply list.Forall_forall. intros x Hx. apply Z.leb_le, Z.lt_le_incl.
  apply (proj1 (list.Forall_forall _ _) Hr). apply list_elem_of_fmap. by exists x.
Qed.

(** Marking the first pending event leaves the others pending. *)
Lemma mark_pending d e i ty gid rest :
  StronglySorted Z.lt (ob_event_id <$> outbox d) -> e = (i, ty, gid) -> pending_outbox d = e :: rest ->
  pending_outbox (mark_outbox_processed i d) = rest /\
  StronglySorted Z.lt (ob_event_id <$> outbox (mark_outbox_processed i d)).
Proof.
  intros Hs ->. set (f := fun r => if (ob_event_id r =? i)%Z
      then {| ob_event_id := ob_event_id r; ob_event_type := ob_event_type r;
              ob_generation_id := ob_generation_id r; processed := true |} else r).
  assert (Hids : forall l : list OutboxRow, ob_event_id <$> (f <$> l) = ob_event_id <$> l).
  { intros l. rewrite <- list_fmap_compose. apply list_fmap_ext. intros _ r _. unfold f; cbn. by destruct (_ =? _)%Z. }
  assert (Hs' : StronglySorted Z.lt (ob_event_id <$> outbox (mark_outbox_processed i d))).
  { unfold mark_outbox_processed. cbn [outbox set_outbox]. fold f. by rewrite Hids. }
  intros Hp. split; [|exact Hs']. rewrite pending_in_order in * by done.
  destruct (pending_rows d) as [|r rows] eqn:Er; [done|]. injection Hp as Hi Hty Hgid <-.
  unfold pending_rows in *. cbn [outbox mark_outbox_processed set_outbox]. unfold mark_outbox_processed.
  cbn [outbox set_outbox]. fold f. f_equal. clear Hs' Hids. revert Er.
  induction (outbox d) as [|x l IH]; [done|]. cbn [List.filter] in *. change (f <$> x :: l) with (f x :: (f <$> l)).
  cbn [List.filter]. cbn in Hs. apply StronglySorted_inv in Hs as [Hs Hx].
  destruct (processed x) eqn:Ex; cbn [negb].
  - intros Er. replace (negb (processed (f x))) with false by (unfold f; destruct (_ =? _)%Z; cbn; by rewrite ?Ex).
    by apply IH.
  - intros [= -> <-]. unfold f at 1. rewrite Hi, Z.eqb_refl. cbn [processed negb].
    clear IH Ex. induction l as [|y l IHl]; [done|]. cbn in Hx, Hs. apply list.Forall_cons in Hx as [Hy Hx].
    change (f <$> y :: l) with (f y :: (f <$> l)). cbn [List.filter].
    assert (f y = y) as -> by (unfold f; destruct (Z.eqb_spec (ob_event_id y) i); [lia|done]).
    apply StronglySorted_inv in Hs as [Hs _]. rewrite IHl by done. done.
Qed.

(** The remote has the generation's reference as the local repository has it. *)
Definition mirrored s (gid : string) : Prop :=
  remote_ref (remote s) (generation_ref gid) = read_ref (local s) (generation_ref gid).
Definition release_mirrored s : Prop :=
  forall oid, current_release_oid (control s) = Some oid -> oid <> "" ->
    remote_ref (remote s) current_release_ref = Some oid.

(** What the mirror's calls keep: generation references stay mirrored, the database is the
    one before but for the outbox's marks. *)
Definition keeps_mirror s s' : Prop := forall gid, mirrored s gid -> mirrored s' gid.

#[export] Instance keeps_mirror_preorder : PreOrder keeps_mirror.
Proof. split; [by intros s gid|]. intros s s1 s2 H1 H2 gid Hm. by apply H2, H1. Qed.

Lemma push_spec ref force s s' r :
  _push ref force s = (s', r) ->
  local s' = local s /\ control s' = control s /\
  (r = Ok tt /\ remote_ref (remote s') ref = read_ref (local s) ref \/ r = Err MirrorError) /\
  forall ref', ref' <> ref \/ r <> Ok tt -> remote_ref (remote s') ref' = remote_ref (remote s) ref'.
Proof using RL.
  unfold _push. destruct (push (local s) ref force (remote s)) as [rm ok] eqn:Ep. intros [= <- <-].
  split; [done|]. split; [done|]. cbn [remote]. split.
  - destruct ok; [left|by right]. split; [done|]. by eapply push_done.
  - intros ref' Hr. eapply push_others; [exact Ep|]. destruct Hr as [?|Hr]; [by left|]. right. by destruct ok.
Qed.

Lemma push_keeps ref force s s' r : _push ref force s = (s', r) -> keeps_mirror s s'.
Proof using RL.
  intros Hp gid Hm. destruct (push_spec _ _ _ _ _ Hp) as (Hl & _ & Hr & Ho). unfold mirrored in *. rewrite Hl.
  destruct (decide (ref = generation_ref gid)) as [-> | Hne]; [|rewrite Ho by auto; done].
  destruct Hr as [[_ Hr]| ->]; [done|]. rewrite Ho; [done|]. by right.
Qed.

Lemma generation_not_current gid : generation_ref gid <> current_release_ref.
Proof. unfold generation_ref, current_release_ref. intros [=]. Qed.

Lemma sync_spec s s' r :
  sync_release_ref s = (s', r) ->
  control s' = control s /\ keeps_mirror s s' /\ (r = Ok tt -> release_mirrored s') /\
  (r = Ok tt \/ r = Err MirrorError).
Proof using GL RL.
  unfold sync_release_ref, mbind, st_bind, st_gets. cbn beta iota.
  destruct (current_release_oid (control s)) as [oid|] eqn:Eo.
  2: { intros [= <- <-]. split; [done|]. split; [reflexivity|]. split; [|by left]. intros _ oid. congruence. }
  destruct (str_nonempty oid) eqn:En.
  2: { intros [= <- <-]. split; [done|]. split; [reflexivity|]. split; [|by left]. intros _ oid' Ho Hne. rewrite Eo in Ho. injection Ho as <-.
       apply negb_false_iff, String.eqb_eq in En. done. }
  unfold anchor. destruct (anchor_law current_release_ref oid (local s)) as (g & -> & _ & Href & Hothers). cbn [map_err].
  intros Hp. destruct (push_spec _ _ _ _ _ Hp) as (Hl & Hc & Hr & _). split; [by rewrite Hc|]. split; [|split].
  - etrans; [|eapply push_keeps; exact Hp]. intros gid Hm. unfold mirrored in *. cbn [local remote] in *.
    rewrite Hothers; [done|]. apply generation_not_current.
  - intros ->. intros oid' Ho _. rewrite Hc in Ho. cbn [control] in Ho. rewrite Eo in Ho. injection Ho as <-.
    destruct Hr as [[_ Hr]|[=]]. rewrite Hr. cbn [local]. done.
  - destruct Hr as [[-> _]| ->]; auto.
Qed.

Definition is_mirror_event (e : Z * string * string) : Prop := e.1.2 = "release_mirror_requested".

(** One pending event: mirrored and marked, or the push failed and nothing was marked. *)
Lemma relay_spec s s' r e rest :
  StronglySorted Z.lt (ob_event_id <$> outbox (control s)) -> pending_outbox (control s) = e :: rest ->
  relay e s = (s', r) ->
  keeps_mirror s s' /\
  (r = Ok tt /\ control s' = mark_outbox_processed e.1.1 (control s) /\
     (is_mirror_event e -> mirrored s' e.2 /\ release_mirrored s') \/
   r = Err MirrorError /\ control s' = control s).
Proof using GL RL.
  intros Hs Hp. destruct e as [[i ty] gid]. cbn [fst snd is_mirror_event]. unfold relay.
  destruct (String.eqb_spec ty "release_mirror_requested") as [->|Hty].
  - unfold mbind, st_bind. unfold push_generation. destruct (_push (generation_ref gid) false s) as [s1 [[]|e]] eqn:E1.
    2: { intros [= <- <-]. destruct (push_spec _ _ _ _ _ E1) as (_ & Hc & [[[=] _]|[= ->]] & _). split; [by eapply push_keeps|]. by right. }
    pose proof (push_keeps _ _ _ _ _ E1) as Hk1. destruct (push_spec _ _ _ _ _ E1) as (Hl1 & Hc1 & [[_ Hr1]|[=]] & _).
    destruct (sync_release_ref s1) as [s2 [[]|e]] eqn:E2; destruct (sync_spec _ _ _ E2) as (Hc2 & Hk2 & Hrel & Hok).
    2: { intros [= <- <-]. split; [by etrans|]. right. split; [by destruct Hok as [[=]|[= ->]]|congruence]. }
    unfold st_modify. intros [= <- <-]. split; [intros gid' Hm; by apply Hk2, Hk1|]. left. split; [done|].
    split; [cbn; by rewrite Hc2, Hc1|]. intros _. split.
    + assert (Hm1 : mirrored s1 gid) by (unfold mirrored; rewrite Hl1; done). exact (Hk2 _ Hm1).
    + intros oid. cbn [control mark remote]. apply (Hrel eq_refl).
  - cbn [mbind]. unfold mbind, st_bind, mret, st_ret, st_modify. intros [= <- <-]. split; [intros gid' Hm; exact Hm|]. left.
    split; [done|]. split; [done|]. intros [=]. done.
Qed.

Lemma iter_relay s s' r evs :
  StronglySorted Z.lt (ob_event_id <$> outbox (control s)) -> pending_outbox (control s) = evs ->
  st_iter relay evs s = (s', r) ->
  exists k, k <= length evs /\ pending_outbox (control s') = drop k evs /\ keeps_mirror s s' /\
    control s' = foldl (fun d e => mark_outbox_processed e.1.1 d) (control s) (take k evs) /\
    (forall e, e ∈ take k evs -> is_mirror_event e -> mirrored s' e.2) /\
    (r = Ok tt /\ k = length evs /\ (evs <> [] -> Forall is_mirror_event evs -> release_mirrored s') \/
     r = Err MirrorError /\ k < length evs).
Proof using GL RL.
  revert s; induction evs as [|e evs IH]; intros s Hs Hp; cbn [st_iter].
  - intros [= <- <-]. exists 0. cbn. do 2 (split; [done|]). split; [reflexivity|]. split; [done|].
    split; [by intros e []%elem_of_nil|]. left. by split.
  - unfold mbind, st_bind. destruct (relay e s) as [s1 [[]|x]] eqn:E1;
      destruct (relay_spec _ _ _ _ _ Hs Hp E1) as (Hk1 & [(Hr & Hc & Hm)|(Hr & Hc)]); try discriminate Hr.
    2: { intros [= <- <-]. injection Hr as ->. exists 0. cbn. split; [lia|]. rewrite Hc. split; [done|]. split; [done|]. split; [done|].
         split; [by intros e' []%elem_of_nil|]. right. split; [done|lia]. }
    destruct e as [[i ty] gid]. destruct (mark_pending (control s) _ i ty gid evs Hs eq_refl Hp) as [Hp1 Hs1].
    cbn [fst snd] in *. rewrite <- Hc in Hp1, Hs1. intros E2.
    destruct (IH s1 Hs1 Hp1 E2) as (k & Hk & Hpend & Hkeep & Hctl & Hmirr & Hend).
    exists (S k). cbn [take drop length foldl fst]. split; [lia|]. split; [done|]. split; [by etrans|].
    split; [by rewrite <- Hc|]. split.
    + intros e [->|He]%elem_of_cons; [|by apply Hmirr]. intros He. apply Hkeep. by apply (Hm He).
    + destruct Hend as [(-> & -> & Hrel)|[-> Hlt]]; [left|right; split; [done|lia]]. split; [done|]. split; [done|].
      intros _ [He Hall]%list.Forall_cons. destruct evs as [|e' evs]; [|by apply Hrel].
      cbn in E2. injection E2 as <-. by apply Hm.
Qed.
End MirrorLemmas.

(** ** Properties *)
Section MirrorProperties.
Context {G Rm : Type} `{GL : GitLaws G} `{!GitRemote G Rm} {RL : RemoteLaws G Rm}.

(** C30: an outbox event is marked processed only after it was mirrored.  Processing the outbox
    handles a prefix of the pending events, in order: these are marked and nothing else in the
    database changes, the remote has each one's generation reference as the local repository
    has it, and the rest stay pending.  Either all were handled, and then the remote's release
    reference is the database's; or a push failed, before the last event or in the final
    reconciliation.  References mirrored earlier stay mirrored. *)
Theorem outbox_mirrored_before_marked (s s' : MirrorState G Rm) r :
  db_ok (control s) -> process_outbox s = (s', r) ->
  let pending := pending_outbox (control s) in
  exists k, k <= length pending /\
    pending_outbox (control s') = drop k pending /\
    control s' = foldl (fun d e => mark_outbox_processed e.1.1 d) (control s) (take k pending) /\
    (forall e, e ∈ take k pending -> is_mirror_event e -> mirrored s' e.2) /\
    (forall gid, mirrored s gid -> mirrored s' gid) /\
    (r = Ok (length pending) /\ k = length pending /\ (Forall is_mirror_event pending -> release_mirrored s') \/
     r = Err MirrorError /\ (k < length pending \/ pending = [])).
Proof using GL RL.
  intros Hok. pose proof (ok_ids _ Hok) as Hids. unfold process_outbox, mbind, st_bind, st_modify, st_gets. cbn beta iota.
  set (s0 := {| local := _; control := _; remote := _ |}).
  assert (Hk0 : keeps_mirror s s0).
  { intros gid Hm. unfold mirrored in *. cbn [local remote s0]. by rewrite ensure_refs. }
  change (control s0) with (control s). destruct (st_iter relay (pending_outbox (control s)) s0) as [s1 r1] eqn:E1.
  destruct (iter_relay s0 s1 r1 _ Hids eq_refl E1) as (k & Hk & Hp & Hkeep & Hctl & Hm & Hend).
  change (control s0) with (control s) in *. intros Hr. exists k. split; [done|].
  destruct Hend as [(-> & -> & Hrel)|[-> Hlt]].
  2: { injection Hr as <- <-. do 3 (split; [done|]). split; [intros gid ?; by apply Hkeep, Hk0|]. right. auto. }
  destruct (pending_outbox (control s)) as [|e evs] eqn:Ep.
  - rewrite bool_decide_eq_true_2 in Hr by done. destruct (sync_release_ref s1) as [s2 r2] eqn:E2.
    destruct (sync_spec _ _ _ E2) as (Hc2 & Hk2 & Hrel2 & Hok2). destruct r2 as [[]|x]; injection Hr as <- <-; rewrite Hc2.
    + do 2 (split; [done|]). split; [intros e []%elem_of_nil|]. split; [intros gid ?; by apply Hk2, Hkeep, Hk0|].
      left. split; [done|]. split; [done|]. intros _. by apply Hrel2.
    + do 2 (split; [done|]). split; [intros e []%elem_of_nil|]. split; [intros gid ?; by apply Hk2, Hkeep, Hk0|].
      right. split; [by destruct Hok2 as [[=]|[= ->]]|by right].
  - rewrite bool_decide_eq_false_2 in Hr by done. injection Hr as <- <-. do 3 (split; [done|]).
    split; [intros gid ?; by apply Hkeep, Hk0|]. left. split; [done|]. split; [done|]. intros Hall. by apply Hrel.
Qed.
End MirrorProperties.

(** ** Evaluations: a remote that holds references and refuses pushes while it is offline *)

Record mem_remote : Type := { online : bool; rrefs : gmap string (option string) }.

Definition mem_push (g : mem_repo) (ref : string) (force : bool) (rm : mem_remote) : mem_remote * bool :=
  if online rm then ({| online := true; rrefs := <[ref := read_ref g ref]> (rrefs rm) |}, true) else (rm, false).

#[export] Instance mem_git_remote : GitRemote mem_repo mem_remote :=
  {| ensure_remote := fun _ rm => rm; push := mem_push; remote_ref := fun rm ref => default None (rrefs rm !! ref) |}.

#[export] Instance mem_remote_laws : RemoteLaws mem_repo mem_remote.
Proof.
  split; cbn; unfold mem_push.
  - intros g ref force rm rm'. destruct (online rm); [|done]. intros [= <-]. cbn. by rewrite lookup_insert_eq.
  - intros g ref force rm rm' ok ref'. destruct (online rm); intros [= <- <-]; [|done]. intros [Hne|[=]].
    cbn. by rewrite lookup_insert_ne.
  - done.
Qed.

(** The activation of ControlPlane.v's evaluations, its generation anchored locally. *)
Definition sample_mirror (on : bool) : MirrorState mem_repo mem_remote :=
  {| local := {| trees := []; commits := []; refs := {[ generation_ref "g1" := "c1" ]} |};
     control := sample_activation.1; remote := {| online := on; rrefs := ∅ |} |}.

Example mirror_sample :
  (process_outbox (sample_mirror true)).2 = Ok 1 /\
  (process_outbox (sample_mirror false)).2 = Err MirrorError /\
  pending_outbox (control (process_outbox (sample_mirror false)).1) = pending_outbox sample_activation.1.
Proof. vm_compute. done. Qed.

Lemma sample_control_ok : db_ok sample_activation.1.
Proof.
  apply (db_steps_ok ready); [|by apply (db_steps_ok _ _ ready_reachable), SCHEMA_ok].
  apply rtc_once. apply (step_activate (match _required_from_manifest "g1" ready with Ok r => r | Err _ => [] end) "g1" None "r1").
  vm_compute. reflexivity.
Qed.

Lemma outbox_mirrored_before_marked_witness :
  remote_ref (remote (process_outbox (sample_mirror true)).1) (generation_ref "g1") = Some "c1" /\
  remote_ref (remote (process_outbox (sample_mirror true)).1) current_release_ref = Some "r1".
Proof.
  destruct (outbox_mirrored_before_marked (sample_mirror true) (process_outbox (sample_mirror true)).1
    (process_outbox (sample_mirror true)).2 sample_control_ok (surjective_pairing _))
    as (k & Hk & _ & _ & Hm & _ & [(Hr & -> & Hrel)|(Hr & _)]); [|vm_compute in Hr; discriminate Hr].
  split.
  - rewrite (Hm (1%Z, "release_mirror_requested", "g1")); [vm_compute; reflexivity | left | reflexivity].
  - apply Hrel; [repeat constructor | vm_compute; reflexivity | discriminate].
Defined.
