(* ===== verification/Assembler.v ===== *)
(** * Rendering, citation index and knowledge snapshot (assembler.py)

    Dicts are lists of entries in insertion order; a page's bytes are its UTF-8 text.
    [json.loads] is the class [JsonReader]: only that it reads back what [json.dumps]
    wrote is used.  A value of a snapshot that does not have the declared type (a string
    field that is not a string) makes reading it fail. *)
From S2P Require Import Prelude Digest Json Canonical Hashing Text Models Claims.
Open Scope string_scope.

(** ** Text *)

Definition is_slug_char (c : ascii) : bool :=
  let n := N_of_ascii c in ((97 <=? n) && (n <=? 122) || (48 <=? n) && (n <=? 57))%N.

(** [re.sub("[^a-z0-9]+", "-", s)]: the bytes of a character outside ASCII are in one run. *)
Fixpoint slug_sub (in_run : bool) (s : string) : string :=
  match s with
  | EmptyString => ""
  | String c s =>
      if is_slug_char c then String c (slug_sub false s)
      else if in_run then slug_sub true s else String "-" (slug_sub true s)
  end.

(** [s.strip("-")] *)
Fixpoint lstrip_dash (s : string) : string :=
  match s with String c s' => if Ascii.eqb c "-" then lstrip_dash s' else s | EmptyString => "" end.
Fixpoint rstrip_dash (s : string) : string :=
  match s with
  | EmptyString => ""
  | String c s' => if str_nonempty (lstrip_dash s) then String c (rstrip_dash s') else ""
  end.

Definition newline : string := String (ascii_of_N 10) "".

(** [str.replace] of one character. *)
Fixpoint replace_char (c : ascii) (by_ : string) (s : string) : string :=
  match s with
  | EmptyString => ""
  | String d s => if Ascii.eqb d c then by_ +:+ replace_char c by_ s else String d (replace_char c by_ s)
  end.

Definition _MD_UNSAFE (c : ascii) : bool :=
  str_mem (String c "") ["\"; "`"; "*"; "_"; "{"; "}"; "["; "]"; "("; ")"; "#"; "+"; "-"; "!"; "<"; ">"; "|"].

Fixpoint md_escape (s : string) : string :=
  match s with
  | EmptyString => ""
  | String c s => if _MD_UNSAFE c then String "\" (String c (md_escape s)) else String c (md_escape s)
  end.

Definition sanitize (text : string) : string :=
  md_escape (replace_char ">" "&gt;" (replace_char "<" "&lt;" (replace_char "&" "&amp;" text))).

Inductive snap_error : Type :=
| SnapKeyError | SnapTypeError | SnapValueError | SnapClaim (e : claim_error).

Section Assembler.
Context {U : Unicode} {D : Digest} {L : UnicodeCase}.

Definition _slug (s : string) : string := rstrip_dash (lstrip_dash (slug_sub false (py_lower s))).

Definition _page_path (subject : string) : string :=
  let slug := _slug subject in
  let suffix := str_prefix 12 (sha256_hex subject) in
  let stem := if str_nonempty slug then slug +:+ "--" +:+ suffix else "entity--" +:+ suffix in
  "wiki/" +:+ stem +:+ ".md".

(** ** Pages *)

Notation dict A := (list (string * A)).

(** [by_subject.setdefault(subject, {})[claim_id] = c] *)
Definition add_subject (by_subject : dict (dict CompiledClaim)) (c : CompiledClaim)
    : dict (dict CompiledClaim) :=
  let s := subject_id (identity c) in
  assoc_set s (assoc_set (claim_id (identity c)) c (default [] (assoc s by_subject))) by_subject.

Definition group_claims (accepted : list CompiledClaim) : dict (dict CompiledClaim) :=
  foldl add_subject [] accepted.

Definition claim_line (subject cid : string) (c : CompiledClaim) : string :=
  let neg := if String.eqb (polarity (identity c)) "positive" then "" else "does not " in
  "- " +:+ sanitize subject +:+ " " +:+ neg +:+ sanitize (predicate_id (identity c)) +:+ " "
    +:+ sanitize (obj (identity c)) +:+ " [" +:+ str_prefix 12 cid +:+ "]".

Definition page_text (subject : string) (claims : dict CompiledClaim) : string :=
  str_join newline
    ((("# " +:+ sanitize subject) :: "" ::
      map (fun kv => claim_line subject kv.1 kv.2) (sort_on fst claims))) +:+ newline.

Definition render_pages (accepted : list CompiledClaim) : dict string :=
  foldl (fun pages kv => assoc_set (_page_path kv.1) (page_text kv.1 kv.2) pages) []
    (sort_on fst (group_claims accepted)).

Definition wiki_files_root (pages : dict string) : result canon_error string :=
  canonical_hash (py_str_dict (map (fun kv => (kv.1, sha256_hex kv.2)) pages)).

(** ** Citation index *)

Definition citation_entry (c : CompiledClaim) : string * pyval :=
  (assertion_id (assertion c),
   py_record [("assertion_id", PStr (assertion_id (assertion c)));
              ("source_id", PStr (assertion_source_id (assertion c)));
              ("evidence_id", PStr (evidence_id (evidence c)));
              ("locators", PList (map py_str_dict (locators (evidence c))))]).

(** [idx.setdefault(claim_id, []).append(...)] *)
Definition add_citation (idx : dict (list (string * pyval))) (c : CompiledClaim)
    : dict (list (string * pyval)) :=
  let k := claim_id (identity c) in
  assoc_set k (default [] (assoc k idx) ++ [citation_entry c])%list idx.

Definition build_citation_index (accepted : list CompiledClaim) : result canon_error string :=
  let idx := foldl add_citation [] accepted in
  let idx := map (fun kv => (kv.1, sort_on fst kv.2)) (sort_on fst idx) in
  canonical_bytes (py_record
    [("claims", PDict (map (fun kv => (KStr kv.1, PList (map snd kv.2))) idx))]).

(** ** Knowledge snapshot *)

Definition claim_to_record (c : CompiledClaim) : pyval :=
  py_record
    [("identity", py_record
        [("claim_id", PStr (claim_id (identity c))); ("subject_id", PStr (subject_id (identity c)));
         ("predicate_id", PStr (predicate_id (identity c))); ("object", PStr (obj (identity c)));
         ("polarity", PStr (polarity (identity c))); ("scope", py_str_dict (scope (identity c)))]);
     ("assertion", py_record
        [("assertion_id", PStr (assertion_id (assertion c)));
         ("claim_id", PStr (assertion_claim_id (assertion c)));
         ("source_id", PStr (assertion_source_id (assertion c)));
         ("evidence_ids", py_strs (evidence_ids (assertion c)));
         ("modality", PStr (modality (assertion c)))]);
     ("evidence", py_record
        [("evidence_id", PStr (evidence_id (evidence c)));
         ("source_object_hash", PStr (source_object_hash (evidence c)));
         ("representation_hash", PStr (representation_hash (evidence c)));
         ("quote_hash", PStr (quote_hash (evidence c)));
         ("locators", PList (map py_str_dict (locators (evidence c))))])].

Definition build_snapshot (accepted : list CompiledClaim) : result canon_error string :=
  let records := sort_on (fun c => assertion_id (assertion c)) accepted in
  canonical_bytes (py_record
    [("schema_version", PStr "2"); ("accepted_claims", PList (map claim_to_record records))]).

(** Reading a JSON value: [j[k]], and the declared types of the fields. *)
Definition jget (k : string) (j : json) : result snap_error json :=
  match j with JObj ms => of_option SnapKeyError (assoc k ms) | _ => Err SnapTypeError end.
Definition jstr (j : json) : result snap_error string :=
  match j with JStr s => Ok s | _ => Err SnapTypeError end.
Definition jlist (j : json) : result snap_error (list json) :=
  match j with JArr l => Ok l | _ => Err SnapTypeError end.
Definition jfield (k : string) (j : json) : result snap_error string := v ← jget k j; jstr v.
Definition jdict (j : json) : result snap_error (list (string * string)) :=
  match j with
  | JObj ms => map_result (fun kv => v ← jstr kv.2; Ok (kv.1, v)) ms
  | _ => Err SnapTypeError
  end.

(** [dict(i.get("scope") or {})] *)
Definition jscope (i : json) : result snap_error (list (string * string)) :=
  match i with
  | JObj ms =>
      match assoc "scope" ms with
      | None | Some JNull | Some (JBool false) | Some (JStr "") | Some (JArr []) => Ok []
      | Some j => jdict j
      end
  | _ => Err SnapTypeError
  end.

Definition claim_from_record (r : json) : result snap_error CompiledClaim :=
  i ← jget "identity" r;
  a ← jget "assertion" r;
  e ← jget "evidence" r;
  cid ← jfield "claim_id" i;
  subject ← jfield "subject_id" i;
  predicate ← jfield "predicate_id" i;
  object ← jfield "object" i;
  pol ← jfield "polarity" i;
  scp ← jscope i;
  created ← map_err SnapClaim (create_identity subject predicate object pol scp);
  _ ← ensure (String.eqb (claim_id created) cid) SnapValueError;
  eid ← jfield "evidence_id" e;
  soh ← jfield "source_object_hash" e;
  rh ← jfield "representation_hash" e;
  qh ← jfield "quote_hash" e;
  locs ← jget "locators" e ≫= jlist;
  locs ← map_result jdict locs;
  aid ← jfield "assertion_id" a;
  acid ← jfield "claim_id" a;
  sid ← jfield "source_id" a;
  eids ← jget "evidence_ids" a ≫= jlist;
  eids ← map_result jstr eids;
  md ← jfield "modality" a;
  _ ← ensure (String.eqb acid cid) SnapValueError;
  _ ← ensure (str_mem eid eids) SnapValueError;
  Ok {| identity := {| claim_id := cid; subject_id := subject; predicate_id := predicate;
                       obj := object; polarity := pol; scope := scp |};
        assertion := {| assertion_id := aid; assertion_claim_id := acid; assertion_source_id := sid;
                        evidence_ids := eids; modality := md |};
        evidence := {| evidence_id := eid; source_object_hash := soh; representation_hash := rh;
                       quote_hash := qh; locators := locs |} |}.

Definition parse_snapshot {R : JsonReader} (data : string) : result snap_error (list CompiledClaim) :=
  o ← of_option SnapValueError (json_loads data);
  match o with
  | JObj ms =>
      match assoc "schema_version" ms, assoc "accepted_claims" ms with
      | Some v, Some (JArr l) =>
          if json_eqb v (JStr "2") then map_result claim_from_record l else Err SnapValueError
      | _, _ => Err SnapValueError
      end
  | _ => Err SnapTypeError
  end.
End Assembler.

(** ** Lemmas on JSON objects read back *)

Lemma assoc_map_snd {A B} (f : A -> B) (l : list (string * A)) k :
  assoc k (map (fun kv => (kv.1, f kv.2)) l) = f <$> assoc k l.
Proof. induction l as [|[k' v] l IH]; cbn; [done|]. by destruct (String.eqb k k'). Qed.

Lemma assoc_sorted k ms :
  str_unique (map fst ms) = true ->
  assoc k (sort_on fst (map (fun kv => (kv.1, sort_json kv.2)) ms)) = sort_json <$> assoc k ms.
Proof.
  intros Hu%bool_decide_eq_true.
  rewrite <- (assoc_perm (map (fun kv => (kv.1, sort_json kv.2)) ms)).
  - apply assoc_map_snd.
  - by rewrite (keys_map_snd sort_json).
  - symmetry. apply sort_on_perm_self.
Qed.

Lemma jget_sorted k ms :
  str_unique (map fst ms) = true ->
  jget k (sort_json (JObj ms)) = of_option SnapKeyError (sort_json <$> assoc k ms).
Proof. intros Hu. cbn [sort_json jget]. by rewrite assoc_sorted. Qed.

Lemma jdict_strs (l : list (string * string)) :
  jdict (JObj (map (fun kv => (kv.1, JStr kv.2)) l)) = Ok l.
Proof.
  cbn [jdict]. induction l as [|[k v] l IH]; [done|]. cbn [map map_result fst snd jstr mbind result_bind].
  by rewrite IH.
Qed.

Definition nfc_text {U : Unicode} (s : string) : Prop := nfc s = s.

(** Texts in normal form are left alone by [normalize]. *)
Ltac nfc_rewrite Hs :=
  repeat match type of Hs with
  | Forall nfc_text (_ :: _) => let H := fresh "Hn" in apply Forall_cons_iff in Hs as [H Hs];
                                unfold nfc_text in H
  end.

(** The texts of a claim are in normal form, its dicts have distinct keys, its identifier is
    its own and its assertion is about it. *)
Section Valid.
Context {U : Unicode} {D : Digest}.

Definition dict_ok (l : list (string * string)) : Prop :=
  NoDup l.*1 /\ Forall (fun kv => nfc_text kv.1 /\ nfc_text kv.2) l.

Record valid_claim (c : CompiledClaim) : Prop := {
  vc_texts : Forall nfc_text
    ([claim_id (identity c); subject_id (identity c); predicate_id (identity c); obj (identity c);
      polarity (identity c); assertion_id (assertion c); assertion_claim_id (assertion c);
      assertion_source_id (assertion c); modality (assertion c); evidence_id (evidence c);
      source_object_hash (evidence c); representation_hash (evidence c); quote_hash (evidence c)]
      ++ evidence_ids (assertion c));
  vc_scope : dict_ok (scope (identity c));
  vc_locators : Forall dict_ok (locators (evidence c));
  vc_id : compute_claim_id (subject_id (identity c)) (predicate_id (identity c)) (obj (identity c))
            (polarity (identity c)) (scope (identity c)) = Ok (claim_id (identity c));
  vc_assertion : assertion_claim_id (assertion c) = claim_id (identity c);
  vc_evidence : str_mem (evidence_id (evidence c)) (evidence_ids (assertion c)) = true;
}.

Lemma nfc_dict_id l : dict_ok l -> nfc_dict l = l.
Proof.
  intros [_ Hl]. unfold nfc_dict. induction Hl as [|[k v] l [Hk Hv] _ IH]; [done|]. cbn in *.
  by rewrite Hk, Hv, IH.
Qed.

Definition str_dict_json (l : list (string * string)) : json := JObj (map (fun kv => (kv.1, JStr kv.2)) l).

Lemma normalize_dict_json l : dict_ok l -> normalize (py_str_dict l) = Ok (str_dict_json l).
Proof.
  intros Hl. apply normalize_str_dict. unfold json_str_dict. rewrite (nfc_dict_id _ Hl). split; [apply Hl | done].
Qed.

Lemma normalize_list_ok {A} (f : A -> pyval) (g : A -> json) l :
  Forall (fun x => normalize (f x) = Ok (g x)) l -> normalize (PList (map f l)) = Ok (JArr (map g l)).
Proof.
  intros Hl. rewrite normalize_list, normalize_items_map.
  assert (map_result normalize (map f l) = Ok (map g l)) as ->; [|done].
  induction Hl as [|x l Hx _ IH]; [done|]. cbn. by rewrite Hx, IH.
Qed.

Definition identity_record (i : ClaimIdentity) : json :=
  JObj [("claim_id", JStr (claim_id i)); ("subject_id", JStr (subject_id i));
        ("predicate_id", JStr (predicate_id i)); ("object", JStr (obj i));
        ("polarity", JStr (polarity i)); ("scope", str_dict_json (scope i))].
Definition assertion_record (a : ClaimAssertion) : json :=
  JObj [("assertion_id", JStr (assertion_id a)); ("claim_id", JStr (assertion_claim_id a));
        ("source_id", JStr (assertion_source_id a)); ("evidence_ids", JArr (map JStr (evidence_ids a)));
        ("modality", JStr (modality a))].
Definition evidence_record (e : Evidence) : json :=
  JObj [("evidence_id", JStr (evidence_id e)); ("source_object_hash", JStr (source_object_hash e));
        ("representation_hash", JStr (representation_hash e)); ("quote_hash", JStr (quote_hash e));
        ("locators", JArr (map str_dict_json (locators e)))].
Definition record_json (c : CompiledClaim) : json :=
  JObj [("identity", identity_record (identity c)); ("assertion", assertion_record (assertion c));
        ("evidence", evidence_record (evidence c))].

Lemma normalize_claim c : valid_claim c -> normalize (claim_to_record c) = Ok (record_json c).
Proof.
  intros [Ht Hsc Hl _ _ _]. apply Forall_app in Ht as [Ht He]. nfc_rewrite Ht.
  assert (Hids : map (fun s => JStr (nfc s)) (evidence_ids (assertion c)) = map JStr (evidence_ids (assertion c))).
  { induction He as [|x l Hx _ IH]; [done|]. cbn. by rewrite Hx, IH. }
  unfold claim_to_record.
  match goal with |- normalize (py_record [(_, ?i); (_, ?a); (_, ?e)]) = _ =>
    assert (Hi : normalize i = Ok (identity_record (identity c)));
    [|assert (Ha : normalize a = Ok (assertion_record (assertion c)));
      [|assert (Hev : normalize e = Ok (evidence_record (evidence c)))]]
  end.
  - norm_record_goal. rewrite normalize_dict_json by done. cbn [mbind result_bind].
    unfold identity_record. congruence.
  - norm_record_goal. rewrite Hids. unfold assertion_record. congruence.
  - norm_record_goal.
    rewrite (normalize_list_ok _ str_dict_json) by (eapply Forall_impl; [exact normalize_dict_json | done]).
    cbn [mbind result_bind]. unfold evidence_record. congruence.
  - norm_record_goal. rewrite Hi. cbn [mbind result_bind]. rewrite Ha. cbn [mbind result_bind]. rewrite Hev. done.
Qed.
End Valid.

(** ** The snapshot round trip *)

Definition sort_dict (l : list (string * string)) : list (string * string) := sort_on fst l.

(** A claim as JSON gives it back: its dicts in the order of their keys. *)
Definition canon_claim (c : CompiledClaim) : CompiledClaim :=
  {| identity := {| claim_id := claim_id (identity c); subject_id := subject_id (identity c);
                    predicate_id := predicate_id (identity c); obj := obj (identity c);
                    polarity := polarity (identity c); scope := sort_dict (scope (identity c)) |};
     assertion := assertion c;
     evidence := {| evidence_id := evidence_id (evidence c);
                    source_object_hash := source_object_hash (evidence c);
                    representation_hash := representation_hash (evidence c);
                    quote_hash := quote_hash (evidence c);
                    locators := map sort_dict (locators (evidence c)) |} |}.

Section Roundtrip.
Context {U : Unicode} {D : Digest} {R : JsonReader}.

Lemma sort_str_dict l : sort_json (str_dict_json l) = str_dict_json (sort_dict l).
Proof.
  unfold str_dict_json, sort_dict. rewrite sort_json_obj. f_equal.
  rewrite <- sort_on_map_snd, <- (sort_on_map_snd (fun v => JStr v)). f_equal. by rewrite map_map.
Qed.

Lemma jfield_sorted k s ms :
  str_unique (map fst ms) = true -> assoc k ms = Some (JStr s) -> jfield k (sort_json (JObj ms)) = Ok s.
Proof. intros Hu Ha. unfold jfield. rewrite jget_sorted, Ha by done. done. Qed.

Lemma jget_sorted_some k v ms :
  str_unique (map fst ms) = true -> assoc k ms = Some v -> jget k (sort_json (JObj ms)) = Ok (sort_json v).
Proof. intros Hu Ha. rewrite jget_sorted, Ha by done. done. Qed.

Lemma jscope_sorted ms l :
  str_unique (map fst ms) = true -> assoc "scope" ms = Some (str_dict_json l) ->
  jscope (sort_json (JObj ms)) = Ok (sort_dict l).
Proof.
  intros Hu Ha. unfold jscope. cbn [sort_json]. rewrite (assoc_sorted _ _ Hu), Ha. cbn [fmap option_fmap option_map].
  rewrite sort_str_dict. unfold str_dict_json. apply jdict_strs.
Qed.

Lemma same_claim_payload s p o pol scp scp' :
  scp ≡ₚ scp' -> same_value (claim_payload s p o pol scp) (claim_payload s p o pol scp').
Proof.
  intros Hp. unfold claim_payload, py_record. cbn [map fst snd].
  apply (same_entry [(KStr "identity_schema_version", PStr IDENTITY_SCHEMA_VERSION);
    (KStr "canonical_subject_id", PStr s); (KStr "predicate_id", PStr p);
    (KStr "canonical_object", PStr o); (KStr "polarity", PStr pol)] []).
  unfold py_str_dict. apply same_order. by apply Permutation_map.
Qed.

Lemma compute_claim_id_perm s p o pol scp scp' h :
  scp ≡ₚ scp' -> compute_claim_id s p o pol scp = Ok h -> compute_claim_id s p o pol scp' = Ok h.
Proof.
  intros Hp. unfold compute_claim_id. intros H. apply bind_ok in H as (u & Hu & H).
  rewrite Hu. cbn [mbind result_bind]. apply map_err_ok, canonical_hash_ok in H as (j & Hj & ->).
  apply map_err_ok, canonical_hash_ok.
  destruct (normalize_same _ _ _ (same_claim_payload s p o pol _ _ Hp) Hj) as (j' & Hj' & Ej).
  exists j'. split; [done|]. f_equal. symmetry. by apply json_dumps_proper.
Qed.

Lemma map_result_map {E A B C} (f : B -> result E C) (g : A -> B) (h : A -> C) l :
  (forall x, x ∈ l -> f (g x) = Ok (h x)) -> map_result f (map g l) = Ok (map h l).
Proof.
  induction l as [|x l IH]; intros Hl; [done|]. cbn. rewrite Hl by by left. cbn.
  rewrite IH; [done|]. intros; apply Hl; by right.
Qed.

Lemma claim_from_record_sorted c :
  valid_claim c -> claim_from_record (sort_json (record_json c)) = Ok (canon_claim c).
Proof.
  intros [_ _ _ Hid Ha He]. unfold claim_from_record, record_json.
  repeat (erewrite jget_sorted_some by reflexivity; cbn [mbind result_bind]).
  unfold identity_record, assertion_record, evidence_record.
  repeat (erewrite jfield_sorted by reflexivity; cbn [mbind result_bind]).
  erewrite jscope_sorted by reflexivity. cbn [mbind result_bind]. unfold create_identity.
  rewrite (compute_claim_id_perm _ _ _ _ _ (sort_dict (scope (identity c))) _
             (symmetry (sort_on_perm_self _ _)) Hid).
  cbn [mbind result_bind map_err claim_id]. rewrite String.eqb_refl. cbn [ensure mbind result_bind].
  repeat (erewrite jget_sorted_some by reflexivity; cbn [mbind result_bind]).
  cbn [sort_json jlist mbind result_bind].
  rewrite (map_map str_dict_json sort_json), (map_result_map _ _ sort_dict) by (intros x _; rewrite sort_str_dict; apply jdict_strs).
  cbn [mbind result_bind]. rewrite (map_map JStr sort_json), (map_result_map _ _ id) by done.
  cbn [mbind result_bind]. rewrite map_id.
  rewrite Ha, String.eqb_refl. cbn [ensure mbind result_bind]. rewrite He. cbn [ensure mbind result_bind].
  unfold canon_claim. do 2 f_equal. by destruct (assertion c); cbn in *; subst.
Qed.

Definition by_assertion_id : list CompiledClaim -> list CompiledClaim :=
  sort_on (fun c => assertion_id (assertion c)).

Definition snapshot_json (cs : list CompiledClaim) : json :=
  JObj [("schema_version", JStr "2"); ("accepted_claims", JArr (map record_json (by_assertion_id cs)))].

Lemma by_assertion_id_valid cs : Forall valid_claim cs -> Forall valid_claim (by_assertion_id cs).
Proof. unfold by_assertion_id. by rewrite sort_on_perm_self. Qed.

Lemma build_snapshot_ok cs :
  Forall valid_claim cs -> build_snapshot cs = Ok (json_dumps (snapshot_json cs)).
Proof.
  intros Hv. unfold build_snapshot. apply canonical_bytes_ok. exists (snapshot_json cs). split; [|done].
  fold (by_assertion_id cs). norm_record_goal.
  rewrite (normalize_list_ok _ record_json).
  - cbn [mbind result_bind]. rewrite (nfc_ascii "2") by reflexivity. done.
  - eapply Forall_impl; [exact normalize_claim | by apply by_assertion_id_valid].
Qed.

Lemma str_dict_json_wf l : dict_ok l -> json_wf (str_dict_json l) = true.
Proof.
  intros [Hnd _]. cbn [str_dict_json json_wf]. apply andb_true_iff. split.
  - apply bool_decide_eq_true. unfold str_dict_json. by rewrite (keys_map_snd (fun v : string => JStr v)).
  - apply forallb_forall. intros x Hx. apply in_map_iff in Hx as (y & <- & _). done.
Qed.

Lemma forallb_wf_strs l : forallb json_wf (map JStr l) = true.
Proof. by induction l. Qed.

Lemma record_json_wf c : valid_claim c -> json_wf (record_json c) = true.
Proof.
  intros [_ Hs Hl _ _ _]. unfold record_json, identity_record, assertion_record, evidence_record.
  cbn [json_wf forallb map fst snd]. rewrite (str_dict_json_wf _ Hs), forallb_wf_strs.
  assert (forallb json_wf (map str_dict_json (locators (evidence c))) = true) as ->; [|reflexivity].
  induction Hl as [|x l Hx _ IH]; [done|]. cbn [map forallb]. by rewrite (str_dict_json_wf _ Hx), IH.
Qed.

Lemma snapshot_wf cs : Forall valid_claim cs -> json_wf (snapshot_json cs) = true.
Proof.
  intros Hv%by_assertion_id_valid. unfold snapshot_json. cbn [json_wf forallb map fst snd].
  assert (forallb json_wf (map record_json (by_assertion_id cs)) = true) as ->; [|reflexivity].
  induction Hv as [|x l Hx _ IH]; [done|]. cbn [map forallb]. by rewrite (record_json_wf _ Hx), IH.
Qed.

Lemma parse_snapshot_ok cs :
  Forall valid_claim cs ->
  parse_snapshot (json_dumps (snapshot_json cs)) = Ok (map canon_claim (by_assertion_id cs)).
Proof.
  intros Hv. unfold parse_snapshot. rewrite (json_loads_dumps _ (snapshot_wf _ Hv)).
  cbn [of_option mbind result_bind]. unfold snapshot_json. cbn [sort_json].
  rewrite !assoc_sorted by reflexivity.
  change (assoc "schema_version" _) with (Some (JStr "2")).
  change (assoc "accepted_claims" _) with (Some (JArr (map record_json (by_assertion_id cs)))).
  cbn [fmap option_fmap option_map sort_json]. change (json_eqb (JStr "2") (JStr "2")) with true. cbn iota.
  rewrite map_map. apply map_result_map. intros c Hc. apply claim_from_record_sorted.
  apply by_assertion_id_valid in Hv. rewrite list.Forall_forall in Hv. by apply Hv.
Qed.
End Roundtrip.

(** ** Dicts up to the order of insertion *)

Lemma assoc_ext_perm {A} (l l' : list (string * A)) :
  NoDup l.*1 -> NoDup l'.*1 -> (forall k, assoc k l = assoc k l') -> l ≡ₚ l'.
Proof.
  intros H1 H2 He. apply NoDup_Permutation; [by eapply NoDup_fmap_1 | by eapply NoDup_fmap_1|].
  intros [k v]. split; intros Hin; apply assoc_Some_elem;
    [rewrite <- He | rewrite He]; by apply elem_assoc.
Qed.

Lemma sort_assoc_ext {A} (l l' : list (string * A)) :
  NoDup l.*1 -> NoDup l'.*1 -> (forall k, assoc k l = assoc k l') -> sort_on fst l = sort_on fst l'.
Proof.
  intros H1 H2 He. apply sort_on_perm; [|by apply assoc_ext_perm].
  intros [k v] [k' v'] Hx Hy Hk. cbn in Hk; subst k'. f_equal.
  apply (elem_assoc _ _ _ H1) in Hx. apply (elem_assoc _ _ _ H1) in Hy. congruence.
Qed.

Lemma assoc_set_lookup {A} k (v : A) l k' :
  assoc k' (assoc_set k v l) = if String.eqb k' k then Some v else assoc k' l.
Proof.
  destruct (String.eqb_spec k' k) as [->|]; [apply assoc_set_eq | by apply assoc_set_ne].
Qed.

Lemma assoc_map_key {A B} (f : string -> A -> B) (l : list (string * A)) k :
  assoc k (map (fun kv => (kv.1, f kv.1 kv.2)) l) = f k <$> assoc k l.
Proof.
  induction l as [|[k' v] l IH]; cbn; [done|]. by destruct (String.eqb_spec k k') as [->|].
Qed.

Lemma keys_map_key {A B} (f : string -> A -> B) (l : list (string * A)) :
  (map (fun kv => (kv.1, f kv.1 kv.2)) l).*1 = l.*1.
Proof. induction l as [|x l IH]; cbn; [done|]. by f_equal. Qed.

Lemma sort_on_map_key {A B} (f : string -> A -> B) (l : list (string * A)) :
  map (fun kv => (kv.1, f kv.1 kv.2)) (sort_on fst l) = sort_on fst (map (fun kv => (kv.1, f kv.1 kv.2)) l).
Proof.
  unfold sort_on. symmetry. by apply py_sort_map.
Qed.

(** ** Pages depend on the claims' identities only *)
Section Pages.
Context {U : Unicode} {D : Digest} {L : UnicodeCase}.

Definition in_page (s cid : string) (c : CompiledClaim) : Prop :=
  subject_id (identity c) = s /\ claim_id (identity c) = cid.

(** What [group_claims] builds: pages and lines of the claims, none empty, none missing. *)
Record groups_ok (g : list (string * list (string * CompiledClaim))) (l : list CompiledClaim) : Prop := {
  gok_nodup : NoDup g.*1;
  gok_inner : forall s d, assoc s g = Some d ->
    NoDup d.*1 /\ d <> [] /\ (forall cid c, (cid, c) ∈ d -> c ∈ l /\ in_page s cid c);
  gok_complete : forall c, c ∈ l -> exists d,
    assoc (subject_id (identity c)) g = Some d /\ claim_id (identity c) ∈ d.*1;
}.

Lemma assoc_set_elem {A} k (v : A) l k' v' :
  (k', v') ∈ assoc_set k v l -> (k' = k /\ v' = v) \/ (k', v') ∈ l.
Proof.
  induction l as [|[k0 v0] l IH]; cbn [assoc_set].
  - intros H%list_elem_of_singleton. left. by injection H as -> ->.
  - destruct (String.eqb_spec k k0) as [->|]; rewrite !elem_of_cons; naive_solver.
Qed.

Lemma assoc_set_nonempty {A} k (v : A) l : assoc_set k v l <> [].
Proof. destruct l as [|[k0 v0] l]; cbn; [done|]. by destruct (String.eqb k k0). Qed.

Lemma add_subject_ok g l c : groups_ok g l -> groups_ok (add_subject g c) (l ++ [c]).
Proof.
  intros [H1 H2 H3]. unfold add_subject. split.
  - by apply assoc_set_NoDup.
  - intros s d. rewrite assoc_set_lookup. destruct (String.eqb_spec s (subject_id (identity c))) as [->|].
    + assert (Hd0 : NoDup (default [] (assoc (subject_id (identity c)) g)).*1 /\
        forall cid c', (cid, c') ∈ default [] (assoc (subject_id (identity c)) g) ->
          c' ∈ l /\ in_page (subject_id (identity c)) cid c').
      { destruct (assoc _ g) as [d0|] eqn:E; cbn [default].
        - destruct (H2 _ _ E) as (? & _ & ?). done.
        - split; [constructor | by intros ? ? ?%elem_of_nil]. }
      destruct Hd0 as [Hnd Hin]. intros [= <-].
      split; [by apply assoc_set_NoDup | split; [apply assoc_set_nonempty|]].
      intros cid c' [[-> ->]|[? ?]%Hin]%assoc_set_elem; rewrite elem_of_app, list_elem_of_singleton; auto.
      split; [by right | done].
    + intros Hd. destruct (H2 _ _ Hd) as (? & ? & Hin). split; [done|split; [done|]].
      intros cid c' [? ?]%Hin. rewrite elem_of_app. auto.
  - intros c0 [Hc0|Hc0]%elem_of_app.
    + destruct (H3 _ Hc0) as (d & Hd & Hc'). rewrite assoc_set_lookup.
      destruct (String.eqb_spec (subject_id (identity c0)) (subject_id (identity c))) as [E|]; [|by exists d].
      rewrite <- E, Hd. cbn [default]. eexists. split; [done|]. rewrite assoc_set_keys. auto.
    + apply list_elem_of_singleton in Hc0 as ->. rewrite assoc_set_eq.
      eexists. split; [done|]. rewrite assoc_set_keys. auto.
Qed.

Lemma group_claims_ok l : groups_ok (group_claims l) l.
Proof.
  unfold group_claims. induction l as [|c l IH] using rev_ind.
  - split; cbn; [constructor | done | by intros c ?%elem_of_nil].
  - rewrite foldl_app. by apply add_subject_ok.
Qed.

(** The lines of a page, by claim. *)
Definition page_lines (s : string) (d : list (string * CompiledClaim)) : list (string * string) :=
  map (fun kv => (kv.1, claim_line s kv.1 kv.2)) d.

Lemma page_lines_keys s d : (page_lines s d).*1 = d.*1.
Proof. apply (keys_map_key (claim_line s)). Qed.

Definition lines_text (s : string) (ls : list (string * string)) : string :=
  str_join newline ((("# " +:+ sanitize s) :: "" :: map snd ls)) +:+ newline.

Lemma page_text_lines s d : page_text s d = lines_text s (sort_on fst (page_lines s d)).
Proof.
  unfold page_text, lines_text, page_lines. by rewrite <- (sort_on_map_key (claim_line s)), map_map.
Qed.

Definition page_table (g : list (string * list (string * CompiledClaim))) : list (string * list (string * string)) :=
  map (fun kv => (kv.1, sort_on fst (page_lines kv.1 kv.2))) g.

Lemma render_pages_table l :
  render_pages l =
  foldl (fun pages kv => assoc_set (_page_path kv.1) (lines_text kv.1 kv.2) pages) []
    (sort_on fst (page_table (group_claims l))).
Proof.
  unfold render_pages, page_table. rewrite <- (sort_on_map_key (fun s d => sort_on fst (page_lines s d))).
  generalize (sort_on fst (group_claims l)) as g. generalize (@nil (string * string)) as acc.
  intros acc g; revert acc; induction g as [|[s d] g IH]; intros acc; cbn; [done|].
  by rewrite IH, page_text_lines.
Qed.

(** Two lists of claims with the same claims on each page, up to what a line shows. *)
Definition shows (l l' : list CompiledClaim) : Prop :=
  forall c, c ∈ l -> exists c', c' ∈ l' /\ in_page (subject_id (identity c)) (claim_id (identity c)) c'.
Definition same_lines (l l' : list CompiledClaim) : Prop :=
  shows l l' /\ shows l' l /\
  forall s cid c c', c ∈ l -> c' ∈ l' -> in_page s cid c -> in_page s cid c' ->
    claim_line s cid c = claim_line s cid c'.

Lemma shows_lookup l l' s d cid :
  shows l l' -> assoc s (group_claims l) = Some d -> cid ∈ d.*1 ->
  exists d', assoc s (group_claims l') = Some d' /\ cid ∈ d'.*1.
Proof.
  intros Hs Hd Hc. destruct (group_claims_ok l) as [_ A2 _], (group_claims_ok l') as [_ _ B3].
  destruct (A2 _ _ Hd) as (_ & _ & Hin). apply list_elem_of_fmap in Hc as ([? c] & -> & Hc).
  destruct (Hin _ _ Hc) as [Hl [<- <-]]. destruct (Hs _ Hl) as (c' & Hl' & E1 & E2).
  destruct (B3 _ Hl') as (d' & Hd' & Hk). exists d'. by rewrite <- E1, <- E2.
Qed.

Lemma page_lines_lookup s d cid t :
  NoDup d.*1 -> (cid, t) ∈ page_lines s d <-> exists c, (cid, c) ∈ d /\ t = claim_line s cid c.
Proof.
  intros _. unfold page_lines. rewrite list_elem_of_fmap. split.
  - intros ([k c] & E & Hc). injection E as -> ->. by exists c.
  - intros (c & Hc & ->). by exists (cid, c).
Qed.

Lemma same_lines_sub l l' s d d' :
  same_lines l l' -> assoc s (group_claims l) = Some d -> assoc s (group_claims l') = Some d' ->
  forall x, x ∈ page_lines s d -> x ∈ page_lines s d'.
Proof.
  intros (S1 & S2 & S3) Hd Hd' [cid t] Hx.
  destruct (group_claims_ok l) as [_ A2 _], (group_claims_ok l') as [_ B2 _].
  destruct (A2 _ _ Hd) as (N & _ & Hin), (B2 _ _ Hd') as (N' & _ & Hin').
  apply page_lines_lookup in Hx as (c & Hc & ->); [|done]. apply page_lines_lookup; [done|].
  assert (Hk : cid ∈ d.*1) by (apply list_elem_of_fmap; by exists (cid, c)).
  destruct (shows_lookup _ _ _ _ _ S1 Hd Hk) as (d2 & E & Hk'). rewrite Hd' in E. injection E as <-.
  apply list_elem_of_fmap in Hk' as ([? c'] & -> & Hc'). exists c'. split; [done|].
  destruct (Hin _ _ Hc), (Hin' _ _ Hc'). by eapply S3.
Qed.

Lemma same_lines_sym l l' : same_lines l l' -> same_lines l' l.
Proof. intros (S1 & S2 & S3). split; [done | split; [done|]]. intros. symmetry. by eapply S3. Qed.

Lemma group_lookup_none l l' s :
  shows l' l -> assoc s (group_claims l) = None -> assoc s (group_claims l') = None.
Proof.
  intros Hs Hn. destruct (assoc s (group_claims l')) as [d|] eqn:E; [|done]. exfalso.
  destruct (group_claims_ok l') as [_ A2 _]. destruct (A2 _ _ E) as (_ & Hne & _).
  destruct d as [|[k c] d]; [done|].
  destruct (shows_lookup _ _ _ _ k Hs E) as (d' & E' & _); [left | congruence].
Qed.

Lemma group_lookup_same l l' s :
  same_lines l l' ->
  (fun d => sort_on fst (page_lines s d)) <$> assoc s (group_claims l) =
  (fun d => sort_on fst (page_lines s d)) <$> assoc s (group_claims l').
Proof.
  intros Hs. destruct (assoc s (group_claims l)) as [d|] eqn:E.
  2:{ by rewrite (group_lookup_none l l' s (proj1 (proj2 Hs)) E). }
  destruct (assoc s (group_claims l')) as [d'|] eqn:E'.
  2:{ by rewrite (group_lookup_none l' l s (proj1 Hs) E') in E. }
  cbn [fmap option_fmap option_map]. f_equal.
  destruct (group_claims_ok l) as [_ A2 _], (group_claims_ok l') as [_ B2 _].
  destruct (A2 _ _ E) as (N & _), (B2 _ _ E') as (N' & _).
  assert (K : NoDup (page_lines s d).*1) by by rewrite page_lines_keys.
  assert (K' : NoDup (page_lines s d').*1) by by rewrite page_lines_keys.
  apply sort_on_perm.
  - intros [k v] [k' v'] Hx Hy Hk. cbn in Hk; subst k'. f_equal.
    apply (elem_assoc _ _ _ K) in Hx. apply (elem_assoc _ _ _ K) in Hy. congruence.
  - apply NoDup_Permutation; [by eapply NoDup_fmap_1..|]. intros x. split.
    + by apply (same_lines_sub l l').
    + apply (same_lines_sub l' l); [by apply same_lines_sym | done..].
Qed.

Lemma render_pages_same l l' : same_lines l l' -> render_pages l = render_pages l'.
Proof.
  intros Hs. rewrite !render_pages_table. f_equal. unfold page_table. apply sort_assoc_ext.
  - rewrite (keys_map_key (fun s d => sort_on fst (page_lines s d))). apply group_claims_ok.
  - rewrite (keys_map_key (fun s d => sort_on fst (page_lines s d))). apply group_claims_ok.
  - intros k. rewrite !(assoc_map_key (fun s d => sort_on fst (page_lines s d))). by apply group_lookup_same.
Qed.
End Pages.

(** ** The citation index depends on the claims up to the order of their dicts *)
Section Citations.
Context {U : Unicode} {D : Digest}.

Definition aid (c : CompiledClaim) : string := assertion_id (assertion c).
Definition cid (c : CompiledClaim) : string := claim_id (identity c).

(** Claims by identifier, in the order of the list. *)
Definition collect_step (idx : list (string * list CompiledClaim)) (c : CompiledClaim) :=
  assoc_set (cid c) (default [] (assoc (cid c) idx) ++ [c])%list idx.
Definition collect (l : list CompiledClaim) : list (string * list CompiledClaim) := foldl collect_step [] l.

Definition with_cid (k : string) (l : list CompiledClaim) : list CompiledClaim :=
  filter (fun c => cid c = k) l.

Lemma collect_lookup l k :
  assoc k (collect l) = match with_cid k l with [] => None | es => Some es end.
Proof.
  unfold collect, with_cid. induction l as [|c l IH] using rev_ind; [done|].
  rewrite foldl_app, list.filter_app. cbn [foldl]. unfold collect_step at 1. rewrite assoc_set_lookup.
  destruct (String.eqb_spec k (cid c)) as [->|Hk].
  - rewrite IH. cbn [filter list_filter]. rewrite decide_True by done.
    destruct (filter (fun c0 => cid c0 = cid c) l); done.
  - rewrite IH. cbn [filter list_filter]. rewrite decide_False by done. by rewrite app_nil_r.
Qed.

Lemma collect_NoDup l : NoDup (collect l).*1.
Proof.
  unfold collect. induction l as [|c l IH] using rev_ind; [constructor|].
  rewrite foldl_app. by apply assoc_set_NoDup.
Qed.

Lemma assoc_set_map {A B} (f : A -> B) k v (l : list (string * A)) :
  map (fun kv => (kv.1, f kv.2)) (assoc_set k v l) =
  assoc_set k (f v) (map (fun kv => (kv.1, f kv.2)) l).
Proof.
  induction l as [|[k0 v0] l IH]; cbn; [done|]. destruct (String.eqb k k0); cbn; [done|]. by rewrite IH.
Qed.

Lemma citations_collect l :
  foldl add_citation [] l = map (fun kv => (kv.1, map citation_entry kv.2)) (collect l).
Proof.
  unfold collect. induction l as [|c l IH] using rev_ind; [done|]. rewrite !foldl_app. cbn [foldl].
  unfold collect_step at 1. rewrite assoc_set_map, <- IH. unfold add_citation at 1. f_equal.
  rewrite map_app. cbn [map]. f_equal. rewrite IH, assoc_map_snd.
  unfold cid. by destruct (assoc _ _).
Qed.

Definition cites (l : list CompiledClaim) : list (string * list CompiledClaim) :=
  map (fun kv => (kv.1, sort_on aid kv.2)) (sort_on fst (collect l)).

Lemma build_citation_index_cites l :
  build_citation_index l = canonical_bytes (py_record
    [("claims", PDict (map (fun kv => (KStr kv.1, PList (map (fun c => (citation_entry c).2) kv.2))) (cites l)))]).
Proof.
  unfold build_citation_index, cites. rewrite citations_collect, sort_on_map_snd, !map_map. cbn [fst snd].
  do 5 f_equal. apply map_ext. intros [k es]. cbn [fst snd]. do 2 f_equal.
  unfold sort_on at 1. rewrite (py_sort_map _ (fun x y => str_leb (aid x) (aid y))) by done.
  by rewrite map_map.
Qed.

Lemma cites_perm l l' :
  (forall x y, x ∈ l -> y ∈ l -> aid x = aid y -> x = y) -> l ≡ₚ l' -> cites l = cites l'.
Proof.
  intros Hu Hp. unfold cites. rewrite <- !sort_on_map_snd.
  assert (Hw : forall k, with_cid k l ≡ₚ with_cid k l') by (intros k; unfold with_cid; by rewrite Hp).
  apply sort_assoc_ext.
  - rewrite (keys_map_snd (sort_on aid)). apply collect_NoDup.
  - rewrite (keys_map_snd (sort_on aid)). apply collect_NoDup.
  - intros k. rewrite !assoc_map_snd, !collect_lookup. specialize (Hw k).
    assert (Hs : sort_on aid (with_cid k l) = sort_on aid (with_cid k l')).
    { apply sort_on_perm; [|done]. unfold with_cid.
      intros x y [_ Hx]%list_elem_of_filter [_ Hy]%list_elem_of_filter. by apply Hu. }
    destruct (with_cid k l) as [|x xs]; [by apply Permutation_nil_l in Hw as <-|].
    destruct (with_cid k l') as [|y ys]; [by apply Permutation_sym, Permutation_nil_cons in Hw|].
    cbn [fmap option_fmap option_map]. by rewrite Hs.
Qed.

Lemma cites_canon l :
  cites (map canon_claim l) = map (fun kv => (kv.1, map canon_claim kv.2)) (cites l).
Proof.
  assert (Hc : collect (map canon_claim l) = map (fun kv => (kv.1, map canon_claim kv.2)) (collect l)).
  { unfold collect. induction l as [|c l IH] using rev_ind; [done|]. rewrite map_app, !foldl_app. cbn [foldl map].
    unfold collect_step at 1 3. rewrite IH, assoc_set_map. f_equal. rewrite assoc_map_snd, map_app.
    unfold cid. cbn [identity canon_claim claim_id]. by destruct (assoc _ _). }
  unfold cites. rewrite Hc, sort_on_map_snd, !map_map. apply map_ext. intros [k es]. cbn [fst snd]. f_equal.
  unfold sort_on. by apply (py_sort_map _ (fun x y => str_leb (aid x) (aid y))).
Qed.
End Citations.

(** ** A snapshot reproduces the pages and the citation index of its claims *)
Section Reproduce.
Context {U : Unicode} {D : Digest} {L : UnicodeCase} {R : JsonReader}.

(** Valid claims, one per assertion identifier. *)
Record claim_set (l : list CompiledClaim) : Prop := {
  cs_valid : Forall valid_claim l;
  cs_unique : NoDup (map aid l);
}.

Lemma claim_set_perm l l' : l ≡ₚ l' -> claim_set l -> claim_set l'.
Proof. intros Hp [H1 H2]. split; [by rewrite <- Hp|]. by rewrite <- Hp. Qed.

Lemma unique_aid l x y : NoDup (map aid l) -> x ∈ l -> y ∈ l -> aid x = aid y -> x = y.
Proof.
  intros Hnd Hx Hy E. apply list_elem_of_lookup in Hx as [i Hi], Hy as [j Hj].
  assert (Hij : i = j).
  { eapply NoDup_lookup; [exact Hnd | by apply list_lookup_fmap_Some_2|].
    rewrite E. by apply list_lookup_fmap_Some_2. }
  subst. congruence.
Qed.

(** The bytes hashed for the identifiers of the claims. *)
Definition claim_preimage (c : CompiledClaim) : list string :=
  let i := identity c in
  preimage (claim_payload (subject_id i) (predicate_id i) (obj i) (polarity i) (scope i)).
Definition claim_preimages (l : list CompiledClaim) : list string := l ≫= claim_preimage.

Lemma claim_preimages_sub c l : c ∈ l -> claim_preimage c ⊆ claim_preimages l.
Proof. intros Hc x Hx. apply list_elem_of_bind. by exists c. Qed.

Lemma same_id_fields c c' :
  valid_claim c -> valid_claim c' -> cid c = cid c' ->
  (subject_id (identity c) = subject_id (identity c') /\ predicate_id (identity c) = predicate_id (identity c') /\
   obj (identity c) = obj (identity c') /\ polarity (identity c) = polarity (identity c')) \/
  collision (claim_preimage c ++ claim_preimage c').
Proof.
  intros [Ht _ _ Hid _ _] [Ht' _ _ Hid' _ _] E. unfold cid in E. rewrite <- E in Hid'.
  destruct (claim_id_fields _ _ _ _ _ _ _ _ _ _ _ Hid Hid') as [(H1 & H2 & H3 & H4 & _)|?]; [left|by right].
  apply Forall_app in Ht as [Ht _], Ht' as [Ht' _]. nfc_rewrite Ht. nfc_rewrite Ht'.
  repeat split; congruence.
Qed.

(** Claims with the same identifier show the same line. *)
Definition consistent (l : list CompiledClaim) : Prop :=
  forall c c', c ∈ l -> c' ∈ l -> cid c = cid c' ->
    subject_id (identity c) = subject_id (identity c') /\ predicate_id (identity c) = predicate_id (identity c') /\
    obj (identity c) = obj (identity c') /\ polarity (identity c) = polarity (identity c').

Lemma valid_consistent l : Forall valid_claim l -> consistent l \/ collision (claim_preimages l).
Proof.
  intros Hv. rewrite list.Forall_forall in Hv.
  destruct (Forall_or_const (fun c => forall c', c' ∈ l -> cid c = cid c' ->
    subject_id (identity c) = subject_id (identity c') /\ predicate_id (identity c) = predicate_id (identity c') /\
    obj (identity c) = obj (identity c') /\ polarity (identity c) = polarity (identity c')) (collision (claim_preimages l)) l) as [H|?];
    [|left|by right].
  - apply list.Forall_forall. intros c Hc.
    destruct (Forall_or_const (fun c' => cid c = cid c' ->
      subject_id (identity c) = subject_id (identity c') /\ predicate_id (identity c) = predicate_id (identity c') /\
      obj (identity c) = obj (identity c') /\ polarity (identity c) = polarity (identity c')) (collision (claim_preimages l)) l) as [H|?];
      [|left|by right].
    + apply list.Forall_forall. intros c' Hc'. destruct (decide (cid c = cid c')) as [E|E]; [|by left].
      destruct (same_id_fields c c') as [?|Hk]; auto. right. eapply collision_sub; [exact Hk|].
      apply list_subseteq_app_iff_l. split; by apply claim_preimages_sub.
    + by rewrite list.Forall_forall in H.
  - rewrite list.Forall_forall in H. intros c c' Hc. by apply H.
Qed.

Lemma same_lines_canon l : consistent l -> same_lines l (map canon_claim (by_assertion_id l)).
Proof.
  intros Hc. unfold by_assertion_id. split; [|split].
  - intros c Hin. exists (canon_claim c). split; [|done]. apply list_elem_of_fmap. exists c. split; [done|].
    by rewrite sort_on_perm_self.
  - intros c' (c & -> & Hin)%list_elem_of_fmap. exists c. split; [|done]. by rewrite sort_on_perm_self in Hin.
  - intros s k c c' Hin (c2 & -> & Hin')%list_elem_of_fmap [<- <-] [E1 E2].
    rewrite sort_on_perm_self in Hin'. cbn in E1, E2. destruct (Hc c c2) as (_ & Ep & Eo & Epol); [done..|].
    unfold claim_line. cbn. by rewrite Ep, Eo, Epol.
Qed.

(** The normal form of the citation index. *)
Definition cite_json (c : CompiledClaim) : json :=
  JObj [("assertion_id", JStr (aid c)); ("source_id", JStr (assertion_source_id (assertion c)));
        ("evidence_id", JStr (evidence_id (evidence c)));
        ("locators", JArr (map str_dict_json (locators (evidence c))))].
Definition cites_json (l : list CompiledClaim) : json :=
  JObj [("claims", JObj (map (fun kv => (kv.1, JArr (map cite_json kv.2))) (cites l)))].

Lemma normalize_citation c : valid_claim c -> normalize (citation_entry c).2 = Ok (cite_json c).
Proof.
  intros [Ht _ Hl _ _ _]. apply Forall_app in Ht as [Ht _]. nfc_rewrite Ht. cbn [snd citation_entry].
  norm_record_goal.
  rewrite (normalize_list_ok _ str_dict_json) by (eapply Forall_impl; [exact normalize_dict_json | done]).
  cbn [mbind result_bind]. unfold cite_json, aid. congruence.
Qed.

Lemma cites_elem l k es c : (k, es) ∈ cites l -> c ∈ es -> c ∈ l /\ cid c = k.
Proof.
  unfold cites. intros ([k' es'] & E & Hin)%list_elem_of_fmap Hc. cbn in E. injection E as -> ->.
  rewrite sort_on_perm_self in Hin. rewrite sort_on_perm_self in Hc. apply (elem_assoc _ _ _ (collect_NoDup l)) in Hin.
  rewrite collect_lookup in Hin. destruct (with_cid k' l) eqn:E; [done|]. injection Hin as <-.
  rewrite <- E in Hc. apply list_elem_of_filter in Hc as [<- Hc]. done.
Qed.

Lemma cites_key l k es : (k, es) ∈ cites l -> exists c, c ∈ l /\ cid c = k.
Proof.
  intros H. destruct es as [|c es].
  - exfalso. unfold cites in H. apply list_elem_of_fmap in H as ([k' es'] & E & Hin). injection E as -> E.
    cbn in E. apply (f_equal length) in E. unfold sort_on in E. rewrite py_sort_length in E.
    rewrite sort_on_perm_self in Hin. apply (elem_assoc _ _ _ (collect_NoDup l)) in Hin.
    rewrite collect_lookup in Hin. destruct (with_cid k' l); [done|]. by injection Hin as <-.
  - exists c. eapply cites_elem; [exact H | left].
Qed.

Lemma cites_NoDup l : NoDup (cites l).*1.
Proof.
  unfold cites. rewrite (keys_map_snd (sort_on aid)).
  rewrite (Permutation_map fst (sort_on_perm_self fst (collect l))). apply collect_NoDup.
Qed.

Lemma build_citation_index_ok l :
  Forall valid_claim l -> build_citation_index l = Ok (json_dumps (cites_json l)).
Proof.
  intros Hv. rewrite list.Forall_forall in Hv. rewrite build_citation_index_cites.
  apply canonical_bytes_ok. exists (cites_json l). split; [|done].
  norm_record_goal. erewrite (proj2 (normalize_dict_ok _ _)); [cbn [mbind result_bind]; reflexivity|].
  exists (map (fun kv => (kv.1, JArr (map cite_json kv.2))) (cites l)). split; [|split; [|done]].
  - apply Forall2_fmap, list.Forall_Forall2_diag, list.Forall_forall. intros [k es] Hin.
    exists k. split; [done|]. split.
    + destruct (cites_key _ _ _ Hin) as (c & Hc & <-). destruct (Hv _ Hc) as [Ht _ _ _ _ _].
      apply Forall_app in Ht as [Ht _]. apply Forall_cons_iff in Ht as [Ht _]. symmetry. exact Ht.
    + apply normalize_list_ok, list.Forall_forall. intros c Hc. apply normalize_citation, Hv.
      by eapply cites_elem.
  - rewrite (keys_map_snd (fun es => JArr (map cite_json es))). apply cites_NoDup.
Qed.

Lemma sort_canon_locators l :
  sort_json (JArr (map str_dict_json (map sort_dict l))) = sort_json (JArr (map str_dict_json l)).
Proof.
  cbn [sort_json]. f_equal. rewrite !map_map. apply map_ext. intros d.
  rewrite !sort_str_dict. unfold sort_dict. by rewrite sort_on_idem.
Qed.

Lemma cite_json_canon c : sort_json (cite_json (canon_claim c)) = sort_json (cite_json c).
Proof.
  pose proof (sort_canon_locators (locators (evidence c))) as E. unfold cite_json.
  rewrite !sort_json_obj, <- !sort_on_map_snd. cbn [map fst snd canon_claim evidence locators] in E |- *.
  by rewrite E.
Qed.

Lemma cites_json_canon l : cites_json (map canon_claim l) ≡ cites_json l.
Proof.
  unfold equiv, json_equiv, cites_json. rewrite cites_canon.
  rewrite !(sort_json_obj [_]), <- !sort_on_map_snd. cbn [map fst snd].
  do 4 f_equal. rewrite !sort_json_obj, <- !sort_on_map_snd. do 2 f_equal.
  rewrite !map_map. apply map_ext. intros [k es].
  cbn [fst snd]. f_equal. cbn [sort_json]. f_equal. rewrite !map_map. apply map_ext, cite_json_canon.
Qed.

Lemma sort_dict_ok l : dict_ok l -> dict_ok (sort_dict l).
Proof.
  intros [H1 H2]. unfold sort_dict. split; [|by rewrite sort_on_perm_self].
  by rewrite (Permutation_map fst (sort_on_perm_self fst l)).
Qed.

Lemma canon_valid c : valid_claim c -> valid_claim (canon_claim c).
Proof.
  intros [Ht Hs Hl Hid Ha He]. split; cbn; try done.
  - by apply sort_dict_ok.
  - apply list.Forall_fmap. eapply list.Forall_impl; [exact Hl|]. apply sort_dict_ok.
  - eapply compute_claim_id_perm; [|exact Hid]. symmetry. apply sort_on_perm_self.
Qed.

Lemma canon_set l : claim_set l -> claim_set (map canon_claim (by_assertion_id l)).
Proof.
  intros H. apply (claim_set_perm _ _ (symmetry (sort_on_perm_self (fun c => assertion_id (assertion c)) l))) in H.
  destruct H as [H1 H2]. split.
  - apply list.Forall_fmap. eapply list.Forall_impl; [exact H1 | apply canon_valid].
  - by rewrite map_map.
Qed.

Lemma claim_preimages_canon l : claim_preimages (map canon_claim (by_assertion_id l)) ≡ₚ claim_preimages l.
Proof.
  unfold claim_preimages, by_assertion_id.
  rewrite <- (sort_on_perm_self (fun c => assertion_id (assertion c)) l) at 2. apply reflexive_eq.
  induction (sort_on _ l) as [|c l' IH]; [done|]. cbn [map mbind list_bind]. f_equal; [|exact IH].
  apply preimage_same, same_claim_payload, sort_on_perm_self.
Qed.

(** What a snapshot read back gives: the same pages and the same citation index. *)
Lemma snapshot_reproduces l :
  claim_set l ->
  (exists l', parse_snapshot (json_dumps (snapshot_json l)) = Ok l' /\ claim_set l' /\
     l' = map canon_claim (by_assertion_id l) /\
     render_pages l' = render_pages l /\ build_citation_index l' = build_citation_index l) \/
  collision (claim_preimages l).
Proof.
  intros Hs. destruct (valid_consistent l (cs_valid _ Hs)) as [Hc|?]; [left|by right].
  exists (map canon_claim (by_assertion_id l)). split; [by apply parse_snapshot_ok, cs_valid|].
  split; [by apply canon_set|]. split; [done|]. split.
  - symmetry. by apply render_pages_same, same_lines_canon.
  - rewrite !build_citation_index_ok by (first [apply cs_valid, Hs | apply cs_valid, canon_set, Hs]).
    f_equal. apply json_dumps_proper. rewrite cites_json_canon. unfold by_assertion_id, cites_json.
    rewrite (cites_perm (sort_on (fun c => assertion_id (assertion c)) l) l); [done| |apply sort_on_perm_self].
    intros x y. rewrite !sort_on_perm_self. apply unique_aid, cs_unique, Hs.
Qed.
End Reproduce.

(** ** Properties *)

(** C14: a knowledge snapshot reproduces its generation.  For valid claims, one per
    assertion, the snapshot is written and reads back as the same claims, in the order of
    their assertions and with their dicts in key order; the pages rendered from what is read
    and the citation index built from it are those of the original list, whatever order it
    was in - unless the bytes hashed for the identifiers of two of the claims collide. *)
Theorem snapshot_reproduces_content {U : Unicode} {D : Digest} {L : UnicodeCase} {R : JsonReader} l :
  claim_set l ->
  exists data l',
    build_snapshot l = Ok data /\ parse_snapshot data = Ok l' /\
    l' = map canon_claim (sort_on aid l) /\
    ((render_pages l' = render_pages l /\ build_citation_index l' = build_citation_index l) \/
     collision (claim_preimages l)).
Proof.
  intros Hs. exists (json_dumps (snapshot_json l)), (map canon_claim (sort_on aid l)).
  split; [by apply build_snapshot_ok, cs_valid|]. split; [by apply parse_snapshot_ok, cs_valid|].
  split; [done|]. destruct (snapshot_reproduces l Hs) as [(l' & _ & _ & -> & ?)|?]; auto.
Qed.

(** ** Evaluations *)

(** Lower case on ASCII. *)

(** Two claims made by [create_identity]. *)
Definition made_id (s p o : string) : string :=
  match compute_claim_id (U := unicode_sample) (D := pad_digest) s p o "positive" [("b", "2"); ("a", "1")] with
  | Ok h => h | Err _ => "" end.
Definition made_claim (a s p o : string) : CompiledClaim :=
  {| identity := {| claim_id := made_id s p o; subject_id := s; predicate_id := p; obj := o;
                    polarity := "positive"; scope := [("b", "2"); ("a", "1")] |};
     assertion := {| assertion_id := a; assertion_claim_id := made_id s p o; assertion_source_id := "s1";
                     evidence_ids := ["e1"]; modality := "asserted" |};
     evidence := {| evidence_id := "e1"; source_object_hash := "s1"; representation_hash := "r";
                    quote_hash := "q"; locators := [[("page", "3"); ("line", "7")]] |} |}.
Definition made_claims : list CompiledClaim :=
  [made_claim "a2" "Rocq" "is" "a prover"; made_claim "a1" "Git" "stores" "trees"].

Lemma made_valid a s p o :
  Forall (fun x => is_ascii x = true) [made_id s p o; s; p; o; a] ->
  compute_claim_id (U := unicode_sample) (D := pad_digest) s p o "positive" [("b", "2"); ("a", "1")] =
    Ok (made_id s p o) ->
  valid_claim (U := unicode_sample) (D := pad_digest) (made_claim a s p o).
Proof.
  intros Ha Hid. rewrite !Forall_cons_iff in Ha. destruct Ha as (H1 & H2 & H3 & H4 & H5 & _).
  assert (Hd : forall l, str_unique (map fst l) = true ->
    forallb (fun kv => is_ascii kv.1 && is_ascii kv.2) l = true -> dict_ok (U := unicode_sample) l).
  { intros l Hu Hl. apply bool_decide_eq_true in Hu. split; [done|]. apply list.Forall_forall. intros x Hx.
    rewrite forallb_forall in Hl. apply list_elem_of_In in Hx. apply Hl, andb_true_iff in Hx as [].
    split; by apply (nfc_ascii (Unicode := unicode_sample)). }
  split; try reflexivity.
  - repeat constructor; apply (nfc_ascii (Unicode := unicode_sample)); done.
  - apply Hd; reflexivity.
  - apply list.Forall_cons. split; [apply Hd; reflexivity | constructor].
Qed.

Lemma made_claims_ok : claim_set (U := unicode_sample) (D := pad_digest) made_claims.
Proof.
  split.
  - unfold made_claims. rewrite !list.Forall_cons.
    split; [|split; [|constructor]]; (apply made_valid; [repeat constructor | by vm_compute]).
  - apply (bool_decide_eq_true (NoDup _)). reflexivity.
Qed.

Lemma snapshot_reproduces_content_witness :
  exists data l',
    build_snapshot (U := unicode_sample) made_claims = Ok data /\
    parse_snapshot (U := unicode_sample) (D := pad_digest) data = Ok l' /\
    l' = map canon_claim (sort_on aid made_claims) /\
    ((render_pages (D := pad_digest) (L := case_sample) l' = render_pages (D := pad_digest) (L := case_sample) made_claims /\
      build_citation_index (U := unicode_sample) l' = build_citation_index (U := unicode_sample) made_claims) \/
     collision (D := pad_digest) (claim_preimages (U := unicode_sample) made_claims)).
Proof.
  apply (snapshot_reproduces_content (U := unicode_sample) (D := pad_digest) (L := case_sample)
    (R := canonical_reader) made_claims). exact made_claims_ok.
Defined.
