(* ===== verification/Generation.v ===== *)
(** * Candidate generations and their verification (generation.py)

    A candidate is the commit of the pages, the citation index, the snapshot, the signed
    manifest and the outbox event; [verify_manifest] checks a commit against the generation
    identifier it claims.  The repository is any [GitRepo] with [GitLaws]. *)
From S2P Require Import Prelude Digest Json Canonical Hashing Text Models Claims Signing Git Assembler.
Open Scope string_scope.

(** [bytes.fromhex]: pairs of hexadecimal digits, with ASCII whitespace between them. *)
Definition hex_value (c : ascii) : option N :=
  let n := N_of_ascii c in
  if ((48 <=? n) && (n <=? 57))%N then Some (n - 48)%N
  else if ((97 <=? n) && (n <=? 102))%N then Some (n - 87)%N
  else if ((65 <=? n) && (n <=? 70))%N then Some (n - 55)%N
  else None.

Definition is_space (c : ascii) : bool :=
  let n := N_of_ascii c in ((n =? 32) || (9 <=? n) && (n <=? 13))%N.

Fixpoint fromhex (s : string) : option string :=
  match s with
  | EmptyString => Some ""
  | String a s1 =>
      if is_space a then fromhex s1
      else match s1 with
           | EmptyString => None
           | String b s2 =>
               match hex_value a, hex_value b with
               | Some x, Some y => String (ascii_of_N (16 * x + y)) <$> fromhex s2
               | _, _ => None
               end
           end
  end.

Lemma hex_value_digit n : (n < 16)%N -> hex_value (hex_digit n) = Some n.
Proof.
  intros Hn. unfold hex_value, hex_digit. destruct (N.ltb_spec n 10) as [H|H]; rewrite N_ascii_embedding by lia.
  - rewrite (proj2 (andb_true_iff _ _)) by (rewrite !N.leb_le; lia). f_equal. lia.
  - rewrite (proj2 (andb_false_iff _ _)) by (right; apply N.leb_gt; lia).
    rewrite (proj2 (andb_true_iff _ _)) by (rewrite !N.leb_le; lia). f_equal. lia.
Qed.

Lemma hex_digit_not_space n : (n < 16)%N -> is_space (hex_digit n) = false.
Proof.
  intros Hn. unfold is_space, hex_digit. destruct (N.ltb_spec n 10); rewrite N_ascii_embedding by lia;
    rewrite orb_false_iff, N.eqb_neq, andb_false_iff, !N.leb_gt; lia.
Qed.

Lemma fromhex_hex s : fromhex (hex s) = Some s.
Proof.
  induction s as [|c s IH]; [done|]. pose proof (N_of_ascii_lt c) as Hc. cbn [hex fromhex].
  assert (H1 : (N_of_ascii c / 16 < 16)%N) by (apply N.Div0.div_lt_upper_bound; lia).
  assert (H2 : (N_of_ascii c mod 16 < 16)%N) by (apply N.mod_lt; lia).
  rewrite (hex_digit_not_space _ H1), (hex_value_digit _ H1), (hex_value_digit _ H2), IH. cbn [fmap option_fmap option_map].
  by rewrite <- N.div_mod', ascii_N_embedding.
Qed.

(** ** Data *)

Definition ENGINE_VERSIONS : list (string * string) :=
  [("parser", "spike-parser@0"); ("chunker", "spike-chunker@0"); ("schema", "1");
   ("trust_policy", "spike-policy@0"); ("prompt_hash", "n/a-deterministic");
   ("engine_code_commit", "spike"); ("container_image_digest", "spike");
   ("extraction_model_id", "MOCK-DETERMINISTIC"); ("verification_model_id", "MOCK-DETERMINISTIC");
   ("render_model_id", "DETERMINISTIC-ASSEMBLER"); ("embedding_version", "n/a")].

Record CandidateResult : Type := {
  cand_generation_id : string;
  cand_commit_oid : string;
  cand_retention_ref : string;
  cand_descriptor : pyval;
  cand_manifest : pyval;
  cand_wiki_files_root : string;
  cand_citation_index_digest : string;
  cand_knowledge_snapshot_digest : string;
}.

Inductive gen_error : Type :=
| GenCanon (e : canon_error) | GenKey (e : key_error) | GenGit (e : git_error)
| ParentNotFound (gid : string) | RefTaken (ref : string)
| GenSnapshot (e : snap_error) | BadManifest.

(** The keyring, key and profile of a [GenerationBuilder]; its repository is the state. *)
Record GenerationBuilder {E : Ed25519} : Type := {
  gb_keyring : Keyring;
  gb_key_id : string;
  gb_profile : string;
}.

(** A call that raises errors of another type, in a state. *)
Definition st_map_err {S E E' A} (f : E -> E') (m : st S E A) : st S E' A :=
  fun s => let '(s', r) := m s in (s', map_err f r).

Section Generation.
Context {U : Unicode} {D : Digest} {L : UnicodeCase} {R : JsonReader} {E : Ed25519}.
Context {G : Type} `{GitRepo G}.
Implicit Types b : GenerationBuilder.

Definition inline_artifacts (wroot cdigest sdigest : string) : pyval :=
  py_record [("wiki_files_root", PStr wroot); ("citation_index_digest", PStr cdigest);
             ("knowledge_snapshot_digest", PStr sdigest)].

Definition make_descriptor b (parent : option string) (source_snapshot_hash root : string)
    (inline : pyval) (changeset_binding : option pyval) : pyval :=
  py_record
    ([("schema_version", PStr "1");
      ("parent_generation_id", PStr (default "" parent));
      ("source_snapshot_hash", PStr source_snapshot_hash);
      ("accepted_claim_set_root", PStr root);
      ("inline_artifacts", inline);
      ("publication_profile", PStr (gb_profile b));
      ("engine_versions", py_str_dict ENGINE_VERSIONS)]
     ++ match changeset_binding with Some c => [("accepted_changeset", c)] | None => [] end)%list.

Definition generation_ref (gid : string) : string := "refs/wiki/generations/" +:+ gid.
Definition manifest_path (gid : string) : string := "manifest/" +:+ gid +:+ ".json".
Definition outbox_path (gid : string) : string := "outbox/" +:+ gid +:+ ".json".
Definition citation_path : string := "citation_index/index.json".
Definition snapshot_path : string := "knowledge/snapshot.json".

Definition outbox_event (gid : string) : pyval :=
  py_record [("event_id", PStr (sha256_hex ("ready:" +:+ gid)));
             ("generation_id", PStr gid);
             ("event_type", PStr "generation_ready_for_index");
             ("required_read_models", py_strs ["wiki_files"; "citation_index"])].

Definition candidate_files (pages : list (string * string)) (citation snapshot gid manifest outbox : string)
    : list (string * string) :=
  assoc_set (outbox_path gid) outbox
    (assoc_set (manifest_path gid) manifest
      (assoc_set snapshot_path snapshot (assoc_set citation_path citation pages))).

(** [parent_commit]: none for a first generation; the empty name counts as none. *)
Definition parent_commit (parent : option string) : st G gen_error (option string) := fun g =>
  match parent with
  | Some p =>
      if str_nonempty p then
        match read_ref g (generation_ref p) with
        | Some c => (g, Ok (Some c))
        | None => (g, Err (ParentNotFound p))
        end
      else (g, Ok None)
  | None => (g, Ok None)
  end.

(** A create-only reference: an existing one must already point there. *)
Definition anchor_ref (ref oid : string) : st G gen_error unit := fun g =>
  match read_ref g ref with
  | None => st_map_err GenGit (create_ref_only ref oid) g
  | Some x => if String.eqb x oid then (g, Ok tt) else (g, Err (RefTaken ref))
  end.

Definition build_candidate b (accepted : list CompiledClaim) (parent : option string)
    (source_snapshot_hash accepted_claim_set_root : string) (changeset_binding : option pyval)
    : st G gen_error CandidateResult :=
  let pages := render_pages accepted in
  citation ← st_lift (map_err GenCanon (build_citation_index accepted));
  snapshot ← st_lift (map_err GenCanon (build_snapshot accepted));
  wroot ← st_lift (map_err GenCanon (wiki_files_root pages));
  let cdigest := sha256_hex citation in
  let sdigest := sha256_hex snapshot in
  let descriptor := make_descriptor b parent source_snapshot_hash accepted_claim_set_root
                      (inline_artifacts wroot cdigest sdigest) changeset_binding in
  gid ← st_lift (map_err GenCanon (canonical_hash descriptor));
  sig ← st_lift (map_err GenKey (sign (gb_keyring b) (gb_key_id b) gid));
  let manifest := py_record [("descriptor", descriptor); ("generation_id", PStr gid);
                             ("signer_key_id", PStr (gb_key_id b)); ("signature", PStr (hex sig))] in
  mbytes ← st_lift (map_err GenCanon (canonical_bytes manifest));
  obytes ← st_lift (map_err GenCanon (canonical_bytes (outbox_event gid)));
  tree ← st_map_err GenGit (write_tree_from_files (candidate_files pages citation snapshot gid mbytes obytes));
  pc ← parent_commit parent;
  commit_oid ← st_map_err GenGit (commit_tree tree ("gen " +:+ gid) pc);
  _ ← anchor_ref (generation_ref gid) commit_oid;
  mret {| cand_generation_id := gid; cand_commit_oid := commit_oid;
          cand_retention_ref := generation_ref gid; cand_descriptor := descriptor;
          cand_manifest := manifest; cand_wiki_files_root := wroot;
          cand_citation_index_digest := cdigest; cand_knowledge_snapshot_digest := sdigest |}.

(** ** Verification *)

(** [j.get(k, default)] on a dict *)
Definition jget_default (k : string) (d : json) (j : json) : result gen_error json :=
  match j with JObj ms => Ok (default d (assoc k ms)) | _ => Err BadManifest end.
(** [j[k]], a string *)
Definition jstring (k : string) (j : json) : result gen_error string :=
  match j with JObj ms => match assoc k ms with Some (JStr s) => Ok s | _ => Err BadManifest end
  | _ => Err BadManifest end.

Definition starts_with (p s : string) : bool := String.prefix p s.

(** [except Exception: return False]. *)
Definition or_false {A} (m : result git_error A) (k : A -> result gen_error bool) : result gen_error bool :=
  match m with Ok a => k a | Err _ => Ok false end.
(** [if not b: return False]. *)
Definition and_then (b : bool) (k : result gen_error bool) : result gen_error bool :=
  if b then k else Ok false.

Definition cat_pages (g : G) (commit_oid : string) (paths : list string)
    : result gen_error (list (string * string)) :=
  map_result (fun p => d ← map_err GenGit (cat_file g commit_oid p); Ok (p, d)) paths.

(** The second half of [verify_manifest]: the artifacts of the commit are those the
    descriptor names, and the snapshot reproduces the pages and the citation index. *)
Definition content_binding (g : G) (commit_oid gid : string) (descriptor : json) : result gen_error bool :=
  inline ← jget_default "inline_artifacts" (JObj []) descriptor;
  paths ← map_err GenGit (ls_tree g commit_oid);
  let all_paths : gset string := list_to_set paths in
  let wiki_paths := List.filter (starts_with "wiki/") (elements all_paths) in
  let expected : gset string :=
    list_to_set wiki_paths ∪ {[citation_path; snapshot_path; manifest_path gid; outbox_path gid]} in
  and_then (bool_decide (all_paths = expected)) (
  pages ← cat_pages g commit_oid wiki_paths;
  wroot ← map_err GenCanon (wiki_files_root pages);
  iroot ← jget_default "wiki_files_root" JNull inline;
  and_then (json_eqb (JStr wroot) iroot) (
  or_false (cat_file g commit_oid citation_path) (fun citation =>
  or_false (cat_file g commit_oid snapshot_path) (fun snapshot =>
  icite ← jget_default "citation_index_digest" JNull inline;
  and_then (json_eqb (JStr (sha256_hex citation)) icite) (
  isnap ← jget_default "knowledge_snapshot_digest" JNull inline;
  and_then (json_eqb (JStr (sha256_hex snapshot)) isnap) (
  match parse_snapshot snapshot with
  | Err _ => Ok false
  | Ok reconstructed =>
      and_then (bool_decide ((list_to_map (render_pages reconstructed) : gmap string string) = list_to_map pages)) (
      rebuilt ← map_err GenCanon (build_citation_index reconstructed);
      and_then (String.eqb rebuilt citation) (Ok true))
  end)))))).

Definition verify_manifest b (g : G) (commit_oid gid : string) : result gen_error bool :=
  or_false (cat_file g commit_oid (manifest_path gid)) (fun raw =>
  manifest ← of_option BadManifest (json_loads raw);
  mgid ← jget_default "generation_id" JNull manifest;
  and_then (json_eqb mgid (JStr gid)) (
  descriptor ← jget_default "descriptor" (JObj []) manifest;
  dhash ← map_err GenCanon (canonical_hash (of_json descriptor));
  and_then (String.eqb dhash gid) (
  signer ← jstring "signer_key_id" manifest;
  sighex ← jstring "signature" manifest;
  sig ← of_option BadManifest (fromhex sighex);
  and_then (verify (gb_keyring b) signer gid sig) (
  content_binding g commit_oid gid descriptor)))).

(** The truth value of a JSON value: [not sig]. *)
Definition json_truthy (j : json) : bool :=
  match j with
  | JNull | JBool false | JStr EmptyString | JArr [] | JObj [] => false
  | _ => true
  end.

Definition release_path (gid : string) : string := "release/" +:+ gid +:+ ".json".

Definition verify_release b (g : G) (release_commit_oid gid : string) : result gen_error bool :=
  or_false (cat_file g release_commit_oid (release_path gid)) (fun raw =>
  rm ← of_option BadManifest (json_loads raw);
  match rm with
  | JObj ms =>
      and_then (json_eqb (default JNull (assoc "generation_id" ms)) (JStr gid)) (
      and_then (json_truthy (default JNull (assoc "signature" ms))
                && json_truthy (default JNull (assoc "signer_key_id" ms))) (
      let body := JObj (List.filter (fun kv => negb (String.eqb kv.1 "signature")) ms) in
      signer ← jstring "signer_key_id" rm;
      bhash ← map_err GenCanon (canonical_hash (of_json body));
      sighex ← jstring "signature" rm;
      sig ← of_option BadManifest (fromhex sighex);
      Ok (verify_domain (gb_keyring b) signer "wiki.release.v1" bhash sig)))
  | _ => Err BadManifest
  end).
End Generation.

(** ** Lemmas *)

Lemma list_to_map_assoc (l : list (string * string)) k : (list_to_map l : gmap string string) !! k = assoc k l.
Proof.
  induction l as [|[k' v] l IH]; cbn; [apply lookup_empty|]. destruct (String.eqb_spec k k') as [->|Hk].
  - apply lookup_insert_eq.
  - by rewrite lookup_insert_ne.
Qed.

Lemma files_map (l : list (string * string)) k :
  NoDup l.*1 -> (list_to_map (rev l) : gmap string string) !! k = assoc k l.
Proof.
  intros Hnd. rewrite list_to_map_assoc. symmetry. apply assoc_perm; [done|]. apply Permutation_rev.
Qed.

Lemma assoc_files_map l k : NoDup l.*1 -> assoc k l = None <-> (list_to_map (rev l) : gmap string string) !! k = None.
Proof. intros Hnd. by rewrite files_map. Qed.

Lemma starts_with_app p s : starts_with p (p +:+ s) = true.
Proof.
  unfold starts_with. induction p as [|c p IH]; [by destruct s|].
  rewrite str_app_cons. cbn [String.prefix]. destruct (ascii_dec c c); [exact IH | congruence].
Qed.

(** A member of a canonicalized dict under an ASCII key. *)
Lemma normalize_dict_member {U : Unicode} kvs ms k v :
  normalize (PDict kvs) = Ok (JObj ms) -> is_ascii k = true -> (KStr k, v) ∈ kvs ->
  exists j, assoc k ms = Some j /\ normalize v = Ok j.
Proof.
  intros (ms' & Hf & Hnd & [= ->])%normalize_dict_ok Hk Hin.
  apply list_elem_of_lookup in Hin as [i Hi].
  destruct (list.Forall2_lookup_l _ _ _ _ _ Hf Hi) as ([mk j] & Hm & k' & Ek' & Ek & Hj).
  cbn in *. injection Ek' as <-. exists j. split; [|done]. apply elem_assoc; [done|].
  rewrite <- (nfc_ascii _ Hk), <- Ek. by eapply list_elem_of_lookup_2.
Qed.

(** Members of a JSON object written and read back. *)
Lemma get_sorted k (d : json) ms :
  NoDup ms.*1 -> jget_default k d (sort_json (JObj ms)) = Ok (default d (sort_json <$> assoc k ms)).
Proof. intros Hnd. cbn [sort_json jget_default]. rewrite assoc_sorted; [done|]. by apply bool_decide_eq_true. Qed.

Lemma string_sorted k ms s :
  NoDup ms.*1 -> assoc k ms = Some (JStr s) -> jstring k (sort_json (JObj ms)) = Ok s.
Proof.
  intros Hnd Ha. cbn [sort_json jstring]. rewrite assoc_sorted, Ha; [done|]. by apply bool_decide_eq_true.
Qed.

Section GenLemmas.
Context {U : Unicode} {D : Digest} {L : UnicodeCase}.

Lemma wiki_files_root_perm pages pages' h :
  pages ≡ₚ pages' -> wiki_files_root pages = Ok h -> wiki_files_root pages' = Ok h.
Proof.
  unfold wiki_files_root. intros Hp (j & Hj & ->)%canonical_hash_ok. apply canonical_hash_ok.
  assert (Hs : same_value (py_str_dict (map (fun kv => (kv.1, sha256_hex kv.2)) pages))
                 (py_str_dict (map (fun kv => (kv.1, sha256_hex kv.2)) pages'))).
  { unfold py_str_dict. apply same_order. by do 2 apply Permutation_map. }
  destruct (normalize_same _ _ _ Hs Hj) as (j' & Hj' & Ej). exists j'. split; [done|]. by rewrite Ej.
Qed.

Lemma render_pages_keys l :
  NoDup (render_pages l).*1 /\ forall p, p ∈ (render_pages l).*1 -> starts_with "wiki/" p = true.
Proof.
  unfold render_pages. generalize (sort_on fst (group_claims l)) as g.
  assert (H : forall g (acc : list (string * string)),
    NoDup acc.*1 /\ (forall p, p ∈ acc.*1 -> starts_with "wiki/" p = true) ->
    let r := foldl (fun pages kv => assoc_set (_page_path kv.1) (page_text kv.1 kv.2) pages) acc g in
    NoDup r.*1 /\ forall p, p ∈ r.*1 -> starts_with "wiki/" p = true).
  { induction g as [|kv g IH]; intros acc [H1 H2]; [done|]. cbn [foldl]. apply IH. split.
    - by apply assoc_set_NoDup.
    - intros p [->|Hp]%assoc_set_keys; [|auto]. unfold _page_path. apply starts_with_app. }
  intros g. apply H. split; [constructor | intros p ?%elem_of_nil; done].
Qed.

(** The four files beside the pages. *)
Definition own_path (gid p : string) : Prop :=
  p = citation_path \/ p = snapshot_path \/ p = manifest_path gid \/ p = outbox_path gid.

Lemma own_not_wiki gid p : own_path gid p -> starts_with "wiki/" p = false.
Proof. by intros [-> | [-> | [-> | ->]]]. Qed.

Lemma candidate_files_lookup pages citation snapshot gid mb ob k :
  assoc k (candidate_files pages citation snapshot gid mb ob) =
  if String.eqb k (outbox_path gid) then Some ob
  else if String.eqb k (manifest_path gid) then Some mb
  else if String.eqb k snapshot_path then Some snapshot
  else if String.eqb k citation_path then Some citation
  else assoc k pages.
Proof. unfold candidate_files. by rewrite !assoc_set_lookup. Qed.

Lemma candidate_files_NoDup pages citation snapshot gid mb ob :
  NoDup pages.*1 -> NoDup (candidate_files pages citation snapshot gid mb ob).*1.
Proof. intros. unfold candidate_files. by do 4 apply assoc_set_NoDup. Qed.

Lemma candidate_files_wiki pages citation snapshot gid mb ob p :
  starts_with "wiki/" p = true ->
  assoc p (candidate_files pages citation snapshot gid mb ob) = assoc p pages.
Proof.
  intros Hp. rewrite candidate_files_lookup.
  repeat match goal with |- context [String.eqb p ?q] =>
    destruct (String.eqb_spec p q) as [->|]; [exfalso; revert Hp; by cbn|] end. done.
Qed.
End GenLemmas.

Lemma st_map_err_ok {S E E' A} (f : E -> E') (m : st S E A) (s s' : S) a :
  st_map_err f m s = (s', Ok a) <-> m s = (s', Ok a).
Proof. unfold st_map_err. destruct (m s) as [s1 [x|e]]; cbn; naive_solver. Qed.

(** ** What a successful build makes *)
Section Build.
Context {U : Unicode} {D : Digest} {L : UnicodeCase} {E : Ed25519}.
Context {G : Type} `{GitLaws G}.
Implicit Types b : GenerationBuilder.

Definition manifest_fields b (descriptor : pyval) (gid sig : string) : list (string * pyval) :=
  [("descriptor", descriptor); ("generation_id", PStr gid);
   ("signer_key_id", PStr (gb_key_id b)); ("signature", PStr (hex sig))].

Record built b (accepted : list CompiledClaim) (g' : G) (cand : CandidateResult) : Type := {
  bt_citation : string; bt_snapshot : string; bt_sig : string; bt_manifest : string; bt_outbox : string;
  bt_parent : option string; bt_source : string; bt_root : string; bt_binding : option pyval;
  bt_cite_ok : build_citation_index accepted = Ok bt_citation;
  bt_snap_ok : build_snapshot accepted = Ok bt_snapshot;
  bt_pages : wiki_files_root (render_pages accepted) = Ok (cand_wiki_files_root cand);
  bt_cdigest : cand_citation_index_digest cand = sha256_hex bt_citation;
  bt_sdigest : cand_knowledge_snapshot_digest cand = sha256_hex bt_snapshot;
  bt_descriptor : cand_descriptor cand =
    make_descriptor b bt_parent bt_source bt_root
      (inline_artifacts (cand_wiki_files_root cand) (sha256_hex bt_citation) (sha256_hex bt_snapshot)) bt_binding;
  bt_gid : canonical_hash (cand_descriptor cand) = Ok (cand_generation_id cand);
  bt_sign : sign (gb_keyring b) (gb_key_id b) (cand_generation_id cand) = Ok bt_sig;
  bt_manifest_val : cand_manifest cand =
    py_record (manifest_fields b (cand_descriptor cand) (cand_generation_id cand) bt_sig);
  bt_manifest_ok : canonical_bytes (cand_manifest cand) = Ok bt_manifest;
  bt_files : commit_files g' (cand_commit_oid cand) (list_to_map (rev
    (candidate_files (render_pages accepted) bt_citation bt_snapshot (cand_generation_id cand) bt_manifest bt_outbox)));
}.

Lemma parent_commit_ok parent (g g' : G) c : parent_commit parent g = (g', Ok c) -> g' = g.
Proof.
  unfold parent_commit. destruct parent as [p|]; [|by intros [= <- _]].
  destruct (str_nonempty p); [|by intros [= <- _]]. destruct (read_ref _ _); by intros [= <- _].
Qed.

Lemma anchor_ref_ok ref oid (g g' : G) :
  anchor_ref ref oid g = (g', Ok tt) ->
  later g g' /\ read_ref g' ref = Some oid /\ forall ref', ref' <> ref -> read_ref g' ref' = read_ref g ref'.
Proof.
  unfold anchor_ref. destruct (read_ref g ref) as [x|] eqn:Er.
  - destruct (String.eqb_spec x oid) as [->|]; [|done]. intros [= <-]. split; [reflexivity | done].
  - intros Hc%st_map_err_ok. destruct (create_ref_law ref oid g Er) as (g2 & E2 & ?).
    rewrite E2 in Hc. by injection Hc as <-.
Qed.

Lemma write_tree_ok files (g g' : G) t :
  write_tree_from_files files g = (g', Ok t) -> tree_files g' t (list_to_map (rev files)).
Proof. destruct (write_tree_law files g) as (g1 & t1 & E1 & _ & Hf & _). rewrite E1. by intros [= <- <-]. Qed.

Lemma write_tree_later files (g : G) : later g (write_tree_from_files files g).1.
Proof. by destruct (write_tree_law files g) as (g1 & t1 & -> & ? & _). Qed.

Lemma commit_tree_later t msg parent (g : G) m : tree_files g t m -> later g (commit_tree t msg parent g).1.
Proof. intros Ht. by destruct (commit_tree_law t msg parent g m Ht) as (g1 & t1 & -> & ? & _). Qed.

Lemma anchor_ref_later ref oid (g : G) : later g (anchor_ref ref oid g).1.
Proof.
  unfold anchor_ref. destruct (read_ref g ref) as [x|] eqn:Er; [by destruct (String.eqb x oid)|].
  unfold st_map_err. by destruct (create_ref_law ref oid g Er) as (g2 & -> & ? & _).
Qed.

Lemma map_err_state {E1 E2 A} (f : E1 -> E2) (m : st G E1 A) g : (st_map_err f m g).1 = (m g).1.
Proof. unfold st_map_err. by destruct (m g). Qed.

Lemma parent_commit_state parent (g : G) : (parent_commit parent g).1 = g.
Proof.
  unfold parent_commit. destruct parent as [p|]; [|done]. destruct (str_nonempty p); [|done].
  by destruct (read_ref _ _).
Qed.

(** Whatever the outcome, a build only adds to the repository. *)
Lemma build_candidate_later b accepted parent src root binding (g : G) :
  later g (build_candidate b accepted parent src root binding g).1.
Proof.
  unfold build_candidate. cbv zeta.
  do 7 (apply (keeps_at_bind later); [done | intros ? ? [-> _]%st_lift_ok]).
  apply (keeps_at_bind later); [rewrite map_err_state; apply write_tree_later|].
  intros g1 tree Ht%st_map_err_ok%write_tree_ok.
  apply (keeps_at_bind later); [by rewrite parent_commit_state|]. intros g2 pc ->%parent_commit_ok.
  apply (keeps_at_bind later); [rewrite map_err_state; by eapply commit_tree_later|]. intros g3 oid _.
  apply (keeps_at_bind later); [apply anchor_ref_later|]. intros g4 [] _. done.
Qed.

Lemma build_candidate_built b accepted parent src root binding (g g' : G) cand :
  build_candidate b accepted parent src root binding g = (g', Ok cand) ->
  later g g' /\ read_ref g' (cand_retention_ref cand) = Some (cand_commit_oid cand) /\
  (forall ref, ref <> cand_retention_ref cand -> read_ref g' ref = read_ref g ref) /\
  cand_retention_ref cand = generation_ref (cand_generation_id cand) /\
  exists B : built b accepted g' cand,
    bt_parent _ _ _ _ B = parent /\ bt_source _ _ _ _ B = src /\ bt_root _ _ _ _ B = root /\
    bt_binding _ _ _ _ B = binding.
Proof.
  unfold build_candidate. cbv zeta. intros Hb.
  apply st_bind_ok in Hb as (? & citation & [-> Hcite%map_err_ok]%st_lift_ok & Hb).
  apply st_bind_ok in Hb as (? & snapshot & [-> Hsnap%map_err_ok]%st_lift_ok & Hb).
  apply st_bind_ok in Hb as (? & wroot & [-> Hroot%map_err_ok]%st_lift_ok & Hb).
  apply st_bind_ok in Hb as (? & gid & [-> Hgid%map_err_ok]%st_lift_ok & Hb).
  apply st_bind_ok in Hb as (? & sig & [-> Hsig%map_err_ok]%st_lift_ok & Hb).
  apply st_bind_ok in Hb as (? & mb & [-> Hmb%map_err_ok]%st_lift_ok & Hb).
  apply st_bind_ok in Hb as (? & ob & [-> Hob%map_err_ok]%st_lift_ok & Hb).
  apply st_bind_ok in Hb as (g1 & tree & Htree%st_map_err_ok & Hb).
  apply st_bind_ok in Hb as (g2 & pc & Hpc & Hb).
  apply st_bind_ok in Hb as (g3 & oid & Hoid%st_map_err_ok & Hb).
  apply st_bind_ok in Hb as (g4 & [] & Hanchor & Hb). injection Hb as <- <-.
  apply parent_commit_ok in Hpc as ->.
  destruct (write_tree_law (candidate_files (render_pages accepted) citation snapshot gid mb ob) g)
    as (g1' & t' & Et & Hl1 & Hfiles & Hr1). rewrite Et in Htree. injection Htree as -> ->.
  destruct (commit_tree_law tree ("gen " +:+ gid) pc g1 _ Hfiles) as (g3' & c' & Ec & Hl2 & Hc & _ & Hr2).
  rewrite Ec in Hoid. injection Hoid as -> ->. apply anchor_ref_ok in Hanchor as (Hl3 & Hr3 & Hr4). cbn.
  split; [by etrans; [|etrans]|]. split; [done|]. split; [intros; by rewrite Hr4, Hr2, Hr1|]. split; [done|].
  unshelve eexists.
  { match goal with |- built _ _ _ ?c => refine (Build_built _ _ _ c citation snapshot sig mb ob parent src root binding
      Hcite Hsnap Hroot eq_refl eq_refl eq_refl Hgid Hsig eq_refl Hmb _) end.
    by eapply later_commit. }
  by cbn.
Qed.
End Build.

(** ** A built candidate verifies *)
Section Verifies.
Context {U : Unicode} {D : Digest} {L : UnicodeCase} {R : JsonReader} {E : Ed25519}.
Context {G : Type} `{GitLaws G}.
Implicit Types b : GenerationBuilder.

Lemma record_member fields ms k v :
  normalize (py_record fields) = Ok (JObj ms) -> is_ascii k = true -> (k, v) ∈ fields ->
  exists j, assoc k ms = Some j /\ normalize v = Ok j.
Proof.
  intros Hn Hk Hin. eapply normalize_dict_member; [exact Hn | done|].
  apply list_elem_of_fmap. by exists (k, v).
Qed.

Lemma record_string fields ms k s :
  normalize (py_record fields) = Ok (JObj ms) -> is_ascii k = true -> nfc s = s -> (k, PStr s) ∈ fields ->
  assoc k ms = Some (JStr s).
Proof.
  intros Hn Hk Hs Hin. destruct (record_member _ _ _ _ Hn Hk Hin) as (j & Ha & Hj).
  injection Hj as <-. by rewrite Hs in Ha.
Qed.

Lemma canonical_read v data :
  canonical_bytes v = Ok data -> exists j, normalize v = Ok j /\ json_loads data = Some (sort_json j).
Proof.
  intros (j & Hj & ->)%canonical_bytes_ok. exists j. split; [done|]. apply json_loads_dumps.
  by eapply json_normal_wf, normalize_normal.
Qed.

Lemma hash_of_sorted v j h :
  canonical_hash v = Ok h -> normalize v = Ok j -> canonical_hash (of_json (sort_json j)) = Ok h.
Proof.
  intros (j' & Hj' & ->)%canonical_hash_ok Hj. rewrite Hj in Hj'. injection Hj' as <-.
  apply canonical_hash_ok. exists (sort_json j). rewrite json_dumps_sort. split; [|done].
  by eapply normalize_of_json, json_normal_sort, normalize_normal.
Qed.

Lemma nfc_hex s : nfc (hex s) = hex s.
Proof. apply nfc_ascii, hex_ascii. Qed.

(** What the manifest of a built candidate reads back as. *)
Lemma manifest_read b accepted g cand (B : built b accepted g cand) :
  nfc (gb_key_id b) = gb_key_id b ->
  exists ms dms ims, json_loads (bt_manifest _ _ _ _ B) = Some (sort_json (JObj ms)) /\ NoDup ms.*1 /\
    assoc "generation_id" ms = Some (JStr (cand_generation_id cand)) /\
    assoc "signer_key_id" ms = Some (JStr (gb_key_id b)) /\
    assoc "signature" ms = Some (JStr (hex (bt_sig _ _ _ _ B))) /\
    assoc "descriptor" ms = Some (JObj dms) /\ normalize (cand_descriptor cand) = Ok (JObj dms) /\ NoDup dms.*1 /\
    canonical_hash (of_json (sort_json (JObj dms))) = Ok (cand_generation_id cand) /\
    assoc "inline_artifacts" dms = Some (JObj ims) /\ NoDup ims.*1 /\
    assoc "wiki_files_root" ims = Some (JStr (cand_wiki_files_root cand)) /\
    assoc "citation_index_digest" ims = Some (JStr (sha256_hex (bt_citation _ _ _ _ B))) /\
    assoc "knowledge_snapshot_digest" ims = Some (JStr (sha256_hex (bt_snapshot _ _ _ _ B))).
Proof.
  intros Hkey. destruct B as [citation snapshot sig mb ob parent src root binding Hc Hs Hp Ec Es Ed Hg Hsig Em Hm Hf].
  cbn [bt_manifest bt_sig bt_citation bt_snapshot]. rewrite Em in Hm. apply canonical_read in Hm as (j & Hj & Hl).
  destruct (normalize_record_obj _ _ Hj) as [ms ->].
  pose proof (canonical_hash_hex _ _ Hg) as Hhex.
  pose proof Hg as (jh & _ & Eg)%canonical_hash_ok.
  pose proof Hp as (jp & _ & Ep)%canonical_hash_ok.
  destruct (record_member _ _ "descriptor" (cand_descriptor cand) Hj) as (jd & Ad & Nd); [done|left|].
  pose proof Nd as Nd'. rewrite Ed in Nd'. destruct (normalize_record_obj _ _ Nd') as [dms ->].
  destruct (record_member _ _ "inline_artifacts" (inline_artifacts (cand_wiki_files_root cand)
    (sha256_hex citation) (sha256_hex snapshot)) Nd' eq_refl) as (ji & Ai & Ni); [do 4 right; left|].
  destruct (normalize_record_obj _ _ Ni) as [ims ->].
  exists ms, dms, ims. split; [done|]. split; [by eapply normalize_obj_keys|].
  split. { apply (record_string _ _ _ _ Hj); [done | rewrite Eg; apply nfc_hex|]. right; left. }
  split. { apply (record_string _ _ _ _ Hj); [done..|]. do 2 right; left. }
  split. { apply (record_string _ _ _ _ Hj); [done | apply nfc_hex|]. do 3 right; left. }
  split; [done|]. split; [done|]. split; [by eapply normalize_obj_keys|]. split; [by eapply hash_of_sorted|].
  split; [done|]. split; [by eapply normalize_obj_keys|].
  split. { apply (record_string _ _ _ _ Ni); [done | rewrite Ep; apply nfc_hex|]. left. }
  split; apply (record_string _ _ _ _ Ni); try done; try apply nfc_hex; [right; left | do 2 right; left].
Qed.

Lemma cat_pages_ok (g : G) oid m paths :
  commit_files g oid m -> (forall p, p ∈ paths -> is_Some (m !! p)) ->
  exists pages, cat_pages g oid paths = Ok pages /\ pages.*1 = paths /\
    forall p d, (p, d) ∈ pages -> m !! p = Some d.
Proof.
  intros Hm. unfold cat_pages. induction paths as [|p paths IH]; intros Hp.
  - exists []. split; [done|]. split; [done|]. by intros p d ?%elem_of_nil.
  - destruct IH as (pages & E1 & E2 & E3); [intros; apply Hp; by right|].
    destruct (Hp p) as [d Hd]; [left|]. cbn [map_result]. rewrite (cat_file_law _ _ _ _ Hm), Hd.
    cbn [map_err mbind result_bind]. rewrite E1. cbn [mbind result_bind].
    exists ((p, d) :: pages). split; [done|]. split; [cbn; congruence|].
    intros q x [[= -> ->]|Hq]%elem_of_cons; [done | by apply E3].
Qed.

(** The paths under wiki/ of a commit. *)
Definition wiki_paths_of (paths : list string) : list string :=
  List.filter (starts_with "wiki/") (elements (list_to_set paths : gset string)).

Lemma wiki_paths_elem paths p : p ∈ wiki_paths_of paths <-> p ∈ paths /\ starts_with "wiki/" p = true.
Proof.
  unfold wiki_paths_of. rewrite list_elem_of_In, filter_In, <- list_elem_of_In, elem_of_elements, elem_of_list_to_set. done.
Qed.

Lemma wiki_paths_NoDup paths : NoDup (wiki_paths_of paths).
Proof. apply NoDup_ListNoDup, NoDup_filter, NoDup_ListNoDup, NoDup_elements. Qed.

(** The files of a candidate's commit, as [content_binding] lists them. *)
Lemma candidate_paths accepted citation snapshot gid mb ob paths :
  let m : gmap string string :=
    list_to_map (rev (candidate_files (render_pages accepted) citation snapshot gid mb ob)) in
  (forall p, p ∈ paths <-> is_Some (m !! p)) ->
  (list_to_set paths : gset string) =
    list_to_set (wiki_paths_of paths) ∪ {[citation_path; snapshot_path; manifest_path gid; outbox_path gid]}.
Proof.
  cbv zeta. intros Hp. destruct (render_pages_keys accepted) as [Hnd Hw].
  assert (Hm : forall p, p ∈ paths <-> is_Some (assoc p (candidate_files (render_pages accepted) citation snapshot gid mb ob))).
  { intros p. rewrite Hp, files_map; [done|]. by apply candidate_files_NoDup. }
  apply set_eq. intros p.
  rewrite elem_of_union, !elem_of_list_to_set, wiki_paths_elem, !elem_of_union, !elem_of_singleton, Hm, candidate_files_lookup.
  destruct (String.eqb_spec p (outbox_path gid)) as [->|]; [split; [intros _; tauto | intros _; by eexists]|].
  destruct (String.eqb_spec p (manifest_path gid)) as [->|]; [split; [intros _; tauto | intros _; by eexists]|].
  destruct (String.eqb_spec p snapshot_path) as [->|]; [split; [intros _; tauto | intros _; by eexists]|].
  destruct (String.eqb_spec p citation_path) as [->|]; [split; [intros _; tauto | intros _; by eexists]|].
  split; [|tauto]. intros [d Hd]. left. split; [by eexists|]. apply Hw, list_elem_of_fmap.
  exists (p, d). split; [done | by apply assoc_Some_elem].
Qed.

Lemma candidate_pages accepted citation snapshot gid mb ob paths (g : G) oid :
  let m : gmap string string :=
    list_to_map (rev (candidate_files (render_pages accepted) citation snapshot gid mb ob)) in
  commit_files g oid m -> (forall p, p ∈ paths <-> is_Some (m !! p)) ->
  exists pages, cat_pages g oid (wiki_paths_of paths) = Ok pages /\ NoDup pages.*1 /\
    pages ≡ₚ render_pages accepted.
Proof.
  cbv zeta. intros Hm Hp. destruct (render_pages_keys accepted) as [Hnd Hw].
  pose proof (candidate_files_NoDup _ citation snapshot gid mb ob Hnd) as Hf.
  destruct (cat_pages_ok g oid _ (wiki_paths_of paths) Hm) as (pages & E1 & E2 & E3).
  { intros p [Hin _]%wiki_paths_elem. by apply Hp. }
  exists pages. assert (Hnp : NoDup pages.*1) by (rewrite E2; apply wiki_paths_NoDup).
  split; [done|]. split; [done|]. apply assoc_ext_perm; [done..|]. intros k.
  destruct (assoc k pages) as [d|] eqn:Ek.
  - apply assoc_Some_elem in Ek. assert (Hk : k ∈ wiki_paths_of paths) by (rewrite <- E2; apply list_elem_of_fmap; by exists (k, d)).
    apply E3 in Ek. rewrite files_map, candidate_files_wiki in Ek; [done|by apply wiki_paths_elem in Hk as []|done].
  - apply assoc_None in Ek. rewrite E2, wiki_paths_elem in Ek. symmetry. apply assoc_None. intros Hin. apply Ek.
    pose proof (Hw _ Hin) as Hs. split; [|done]. apply Hp. rewrite files_map, candidate_files_wiki by done.
    apply list_elem_of_fmap in Hin as ([? d] & -> & Hin). exists d. by apply elem_assoc.
Qed.

Lemma list_to_map_perm (l l' : list (string * string)) :
  NoDup l.*1 -> l ≡ₚ l' -> (list_to_map l : gmap string string) = list_to_map l'.
Proof. intros. by apply list_to_map_proper. Qed.

Lemma content_binding_ok (g : G) oid gid dms ims accepted reconstructed citation snapshot wroot mb ob :
  commit_files g oid (list_to_map (rev (candidate_files (render_pages accepted) citation snapshot gid mb ob))) ->
  wiki_files_root (render_pages accepted) = Ok wroot ->
  parse_snapshot snapshot = Ok reconstructed -> render_pages reconstructed = render_pages accepted ->
  build_citation_index reconstructed = Ok citation ->
  NoDup dms.*1 -> assoc "inline_artifacts" dms = Some (JObj ims) -> NoDup ims.*1 ->
  assoc "wiki_files_root" ims = Some (JStr wroot) ->
  assoc "citation_index_digest" ims = Some (JStr (sha256_hex citation)) ->
  assoc "knowledge_snapshot_digest" ims = Some (JStr (sha256_hex snapshot)) ->
  content_binding g oid gid (sort_json (JObj dms)) = Ok true.
Proof.
  intros Hm Hroot Hparse Hpages Hcite Hnd Hi Hni Hiw Hic His.
  destruct (render_pages_keys accepted) as [Hk _].
  pose proof (candidate_files_NoDup _ citation snapshot gid mb ob Hk) as Hf.
  destruct (ls_tree_law _ _ _ Hm) as (paths & Els & Hp).
  destruct (candidate_pages _ _ _ _ _ _ _ _ _ Hm Hp) as (pages & Ep & Hnp & Hperm).
  unfold content_binding. rewrite get_sorted, Hi by done. cbn [fmap option_fmap option_map default id from_option mbind result_bind].
  rewrite Els. cbn [map_err mbind result_bind]. fold (wiki_paths_of paths).
  rewrite <- (candidate_paths _ _ _ _ _ _ _ Hp), bool_decide_eq_true_2 by done. cbn [and_then].
  rewrite Ep. cbn [mbind result_bind]. rewrite (wiki_files_root_perm _ _ _ (symmetry Hperm) Hroot).
  cbn [map_err mbind result_bind]. rewrite !get_sorted, Hiw, Hic, His by done.
  assert (Hj : forall s, json_eqb (JStr s) (JStr s) = true) by (intros; by apply json_eqb_eq).
  cbn [fmap option_fmap option_map default id from_option mbind result_bind sort_json]. rewrite Hj. cbn [and_then].
  rewrite !(cat_file_law _ _ _ _ Hm), !files_map, !candidate_files_lookup by done.
  change (String.eqb citation_path (outbox_path gid)) with false. cbn iota beta.
  change (String.eqb citation_path (manifest_path gid)) with false.
  change (String.eqb citation_path snapshot_path) with false.
  change (String.eqb snapshot_path (outbox_path gid)) with false.
  change (String.eqb snapshot_path (manifest_path gid)) with false.
  rewrite !String.eqb_refl. cbn [or_false]. rewrite !Hj. cbn [and_then].
  rewrite Hparse, Hpages, (list_to_map_perm pages _ Hnp Hperm), bool_decide_eq_true_2 by done. cbn [and_then].
  rewrite Hcite. cbn [map_err mbind result_bind]. by rewrite String.eqb_refl.
Qed.

Lemma built_verifies b accepted (g : G) cand (B : built b accepted g cand) :
  claim_set accepted -> keyring_ok (gb_keyring b) -> nfc (gb_key_id b) = gb_key_id b ->
  verify_manifest b g (cand_commit_oid cand) (cand_generation_id cand) = Ok true \/ collision (claim_preimages accepted).
Proof.
  intros Hset Hkeys Hkey.
  destruct (manifest_read _ _ _ _ B Hkey) as (ms & dms & ims & Hl & Hnd & Hg & Hsk & Hsg & Hd & _ & Hnd' & Hh & Hi & Hni & Hw & Hc & Hs).
  destruct (snapshot_reproduces accepted Hset) as [(l' & Hparse & _ & _ & Hpages & Hcite)|?]; [left|by right].
  destruct B as [citation snapshot sig mb ob parent src root binding Ecite Esnap Hp Ec Es Ed Hgid Hsig Em Hmb Hf].
  cbn [bt_manifest bt_sig bt_citation bt_snapshot] in *.
  rewrite (build_snapshot_ok _ (cs_valid _ Hset)) in Esnap. injection Esnap as <-.
  unfold verify_manifest. rewrite (cat_file_law _ _ _ _ Hf), files_map, candidate_files_lookup
    by apply candidate_files_NoDup, render_pages_keys.
  change (String.eqb (manifest_path ?x) (outbox_path ?x)) with false. cbn iota.
  rewrite String.eqb_refl. cbn [or_false]. rewrite Hl. cbn [of_option mbind result_bind].
  rewrite !get_sorted, Hg, Hd by done. cbn [fmap option_fmap option_map default id from_option mbind result_bind].
  change (sort_json (JStr ?s)) with (JStr s). rewrite (proj2 (json_eqb_eq _ _)) by done. cbn [and_then].
  rewrite Hh. cbn [map_err mbind result_bind]. rewrite String.eqb_refl. cbn [and_then].
  rewrite (string_sorted _ _ _ Hnd Hsk). cbn [mbind result_bind].
  rewrite (string_sorted _ _ _ Hnd Hsg). cbn [mbind result_bind].
  rewrite fromhex_hex. cbn [of_option mbind result_bind].
  rewrite (verify_sign _ _ _ _ Hkeys Hsig). cbn [and_then].
  eapply content_binding_ok; [exact Hf | exact Hp | exact Hparse | exact Hpages | congruence | done..].
Qed.
End Verifies.

(** ** What a verified commit holds *)
Section Sound.
Context {U : Unicode} {D : Digest} {L : UnicodeCase} {R : JsonReader} {E : Ed25519}.
Context {G : Type} `{GitLaws G}.
Implicit Types b : GenerationBuilder.

(** The commit's files [m] are a generation: pages and citation index are rendered from the
    snapshot, and nothing else is there but the manifest and the outbox event. *)
Record generation_files (gid : string) (m : gmap string string) (claims : list CompiledClaim)
    (snapshot : string) : Prop := {
  gf_snapshot : m !! snapshot_path = Some snapshot;
  gf_parsed : parse_snapshot snapshot = Ok claims;
  gf_citation : exists c, m !! citation_path = Some c /\ build_citation_index claims = Ok c;
  gf_pages : forall p, starts_with "wiki/" p = true ->
    m !! p = (list_to_map (render_pages claims) : gmap string string) !! p;
  gf_paths : forall p, is_Some (m !! p) <-> (starts_with "wiki/" p = true /\ is_Some (m !! p)) \/ own_path gid p;
}.

Lemma or_false_true {A} (m : result git_error A) k : or_false m k = Ok true <-> exists a, m = Ok a /\ k a = Ok true.
Proof. destruct m; cbn; naive_solver. Qed.

Lemma and_then_true (c : bool) k : and_then c k = Ok true <-> c = true /\ k = Ok true.
Proof. destruct c; cbn; naive_solver. Qed.

Lemma cat_file_some (g : G) oid m p d : commit_files g oid m -> cat_file g oid p = Ok d -> m !! p = Some d.
Proof. intros Hm. rewrite (cat_file_law _ _ _ _ Hm). by destruct (m !! p); [intros [= ->]|]. Qed.

Lemma cat_pages_inv (g : G) oid m paths pages :
  commit_files g oid m -> cat_pages g oid paths = Ok pages ->
  pages.*1 = paths /\ forall p d, (p, d) ∈ pages -> m !! p = Some d.
Proof.
  intros Hm. unfold cat_pages. revert pages. induction paths as [|p paths IH]; intros pages.
  - intros [= <-]. split; [done|]. by intros p d ?%elem_of_nil.
  - cbn [map_result]. intros (x & Hx & Hr)%bind_ok. apply bind_ok in Hr as (rest & Hrest & [= <-]).
    apply bind_ok in Hx as (d & Hd%map_err_ok & [= <-]). apply (cat_file_some _ _ _ _ _ Hm) in Hd.
    destruct (IH _ Hrest) as [E1 E2]. split; [cbn; by f_equal|].
    intros q y [[= -> ->]|Hq]%elem_of_cons; [done | by apply E2].
Qed.

Lemma verified_paths gid m paths :
  (forall p, p ∈ paths <-> is_Some ((m : gmap string string) !! p)) ->
  (list_to_set paths : gset string) =
    list_to_set (wiki_paths_of paths) ∪ {[citation_path; snapshot_path; manifest_path gid; outbox_path gid]} ->
  forall p, is_Some (m !! p) <-> (starts_with "wiki/" p = true /\ is_Some (m !! p)) \/ own_path gid p.
Proof.
  intros Hp Heq p. pose proof (f_equal (fun s : gset string => p ∈ s) Heq) as Hs. cbn beta in Hs.
  rewrite <- Hp. unfold own_path.
  assert (Hin : p ∈ paths <-> p ∈ (list_to_set paths : gset string)) by by rewrite elem_of_list_to_set.
  rewrite Hin at 1. rewrite Heq, elem_of_union, elem_of_list_to_set, wiki_paths_elem, !elem_of_union, !elem_of_singleton.
  tauto.
Qed.

Lemma content_binding_inv (g : G) oid gid d m :
  commit_files g oid m -> content_binding g oid gid d = Ok true ->
  exists inline claims snapshot,
    jget_default "inline_artifacts" (JObj []) d = Ok inline /\
    jget_default "knowledge_snapshot_digest" JNull inline = Ok (JStr (sha256_hex snapshot)) /\
    generation_files gid m claims snapshot.
Proof.
  intros Hm. unfold content_binding. intros (inline & Hi & Hb)%bind_ok.
  apply bind_ok in Hb as (paths & Hpaths%map_err_ok & Hb). fold (wiki_paths_of paths) in Hb.
  apply and_then_true in Hb as [Hall%bool_decide_eq_true Hb].
  apply bind_ok in Hb as (pages & Hpages & Hb). apply bind_ok in Hb as (wroot & Hw & Hb).
  apply bind_ok in Hb as (iroot & Hir & Hb). apply and_then_true in Hb as [_ Hb].
  apply or_false_true in Hb as (citation & Hc & Hb). apply or_false_true in Hb as (snapshot & Hs & Hb).
  apply bind_ok in Hb as (icite & Hic & Hb). apply and_then_true in Hb as [_ Hb].
  apply bind_ok in Hb as (isnap & His & Hb). apply and_then_true in Hb as [<-%json_eqb_eq Hb].
  destruct (parse_snapshot snapshot) as [claims|] eqn:Hparse; [|done].
  apply and_then_true in Hb as [Hr%bool_decide_eq_true Hb].
  apply bind_ok in Hb as (rebuilt & Hre%map_err_ok & Hb). apply and_then_true in Hb as [->%String.eqb_eq _].
  apply (cat_file_some _ _ _ _ _ Hm) in Hc, Hs. destruct (ls_tree_law _ _ _ Hm) as (l & El & Hl).
  rewrite El in Hpaths. injection Hpaths as ->.
  destruct (cat_pages_inv _ _ _ _ _ Hm Hpages) as [E1 E2].
  exists inline, claims, snapshot. split; [done|]. split; [done|]. split; [done|done|by exists citation| |].
  - intros p Hp. rewrite Hr, list_to_map_assoc. destruct (assoc p pages) as [x|] eqn:Ep.
    + by apply E2, assoc_Some_elem.
    + apply assoc_None in Ep. rewrite E1, wiki_paths_elem, Hl in Ep. apply eq_None_not_Some. tauto.
  - by apply (verified_paths gid m paths).
Qed.

Lemma get_default_some k d j v :
  jget_default k d j = Ok v -> v <> d -> exists ms, j = JObj ms /\ assoc k ms = Some v.
Proof.
  destruct j as [|x|s|l|ms]; try done. cbn [jget_default]. intros [= Hv] Hd. exists ms. split; [done|].
  destruct (assoc k ms); cbn in Hv; congruence.
Qed.

(** The snapshot digest an identifier commits to. *)
Lemma digest_member d inline s j :
  jget_default "inline_artifacts" (JObj []) d = Ok inline ->
  jget_default "knowledge_snapshot_digest" JNull inline = Ok (JStr (sha256_hex s)) ->
  normalize (of_json d) = Ok j ->
  exists jms ims, j = JObj jms /\ NoDup jms.*1 /\ assoc "inline_artifacts" jms = Some (JObj ims) /\
    NoDup ims.*1 /\ assoc "knowledge_snapshot_digest" ims = Some (JStr (sha256_hex s)).
Proof.
  intros Hi Hs Hj. apply get_default_some in Hs as (im & -> & Hs); [|done].
  apply get_default_some in Hi as (dm & -> & Hi); [|by intros [= ->]].
  assert (Hm : forall ms jms k v, normalize (of_json (JObj ms)) = Ok (JObj jms) -> is_ascii k = true ->
    assoc k ms = Some v -> exists x, assoc k jms = Some x /\ normalize (of_json v) = Ok x).
  { intros ms jms k v Hn Hk Ha. eapply normalize_dict_member; [exact Hn | done|].
    apply assoc_Some_elem in Ha. apply list_elem_of_fmap. by exists (k, v). }
  assert (Hobj : forall ms x, normalize (of_json (JObj ms)) = Ok x -> exists xs, x = JObj xs).
  { intros ms x (xs & _ & _ & ->)%normalize_dict_ok. by exists xs. }
  destruct (Hobj _ _ Hj) as [jms ->]. destruct (Hm _ _ "inline_artifacts" _ Hj eq_refl Hi) as (x & Ax & Nx).
  destruct (Hobj _ _ Nx) as [ims ->]. destruct (Hm _ _ "knowledge_snapshot_digest" _ Nx eq_refl Hs) as (y & Ay & Ny).
  cbn in Ny. injection Ny as <-. rewrite nfc_ascii in Ay by apply hex_ascii.
  exists jms, ims. repeat split; try done; by eapply normalize_obj_keys.
Qed.

(** The descriptor a manifest file holds, and the byte strings hashed to check a commit. *)
Definition file_descriptor (gid : string) (m : gmap string string) : option json :=
  raw ← m !! manifest_path gid; manifest ← json_loads raw;
  match jget_default "descriptor" (JObj []) manifest with Ok d => Some d | Err _ => None end.

Definition checked_bytes (gid : string) (m : gmap string string) : list string :=
  (match file_descriptor gid m with Some d => preimage (of_json d) | None => [] end ++
   option_list (m !! snapshot_path))%list.

Lemma verify_manifest_inv b (g : G) oid gid m :
  commit_files g oid m -> verify_manifest b g oid gid = Ok true ->
  exists d inline claims snapshot,
    file_descriptor gid m = Some d /\
    canonical_hash (of_json d) = Ok gid /\
    jget_default "inline_artifacts" (JObj []) d = Ok inline /\
    jget_default "knowledge_snapshot_digest" JNull inline = Ok (JStr (sha256_hex snapshot)) /\
    generation_files gid m claims snapshot /\
    (exists signer sig, verify (gb_keyring b) signer gid sig = true).
Proof.
  intros Hm. unfold verify_manifest. intros Hb. apply or_false_true in Hb as (raw & Hraw & Hb).
  apply bind_ok in Hb as (manifest & Hman & Hb). apply bind_ok in Hb as (mgid & _ & Hb).
  apply and_then_true in Hb as [_ Hb]. apply bind_ok in Hb as (d & Hd & Hb).
  apply bind_ok in Hb as (h & Hh%map_err_ok & Hb). apply and_then_true in Hb as [->%String.eqb_eq Hb].
  apply bind_ok in Hb as (signer & _ & Hb). apply bind_ok in Hb as (sighex & _ & Hb).
  apply bind_ok in Hb as (sig & _ & Hb). apply and_then_true in Hb as [Hv Hb].
  destruct (content_binding_inv _ _ _ _ _ Hm Hb) as (inline & claims & snapshot & H1 & H2 & H3).
  exists d, inline, claims, snapshot. split; [|do 4 (split; [done|]); by exists signer, sig].
  unfold file_descriptor. rewrite (cat_file_some _ _ _ _ _ Hm Hraw). cbn.
  destruct (json_loads raw); [|done]. injection Hman as ->. cbn. by rewrite Hd.
Qed.
End Sound.

(** ** Properties *)
Section GenProperties.
Context {U : Unicode} {D : Digest} {L : UnicodeCase} {R : JsonReader} {E : Ed25519}.
Context {G : Type} `{GitLaws G}.

(** What a builder makes, it accepts.  If [build_candidate] succeeds on valid claims,
    one per assertion, with a keyring that pairs its keys, then the repository only grew, the
    generation's reference was set to the new commit and no other reference moved, and
    [verify_manifest] accepts the commit for the generation - then and in every later state
    of the repository - or the bytes hashed for the identifiers of the claims collide. *)
Theorem candidate_verifies b accepted parent src root binding (g g' : G) cand :
  claim_set accepted -> keyring_ok (gb_keyring b) -> nfc (gb_key_id b) = gb_key_id b ->
  build_candidate b accepted parent src root binding g = (g', Ok cand) ->
  later g g' /\
  read_ref g' (generation_ref (cand_generation_id cand)) = Some (cand_commit_oid cand) /\
  (forall ref, ref <> generation_ref (cand_generation_id cand) -> read_ref g' ref = read_ref g ref) /\
  forall g2, later g' g2 ->
    verify_manifest b g2 (cand_commit_oid cand) (cand_generation_id cand) = Ok true \/ collision (claim_preimages accepted).
Proof.
  intros Hset Hkeys Hkey Hb. apply build_candidate_built in Hb as (Hl & Hr & Ho & Er & B & _).
  rewrite Er in Hr, Ho. repeat split; try done. intros g2 Hl2. destruct B as [c s sg mb ob p sr ro bi H1 H2 H3 H4 H5 H6 H7 H8 H9 H10 H11].
  eapply (built_verifies b accepted g2 cand); try done.
  refine (Build_built b accepted g2 cand c s sg mb ob p sr ro bi H1 H2 H3 H4 H5 H6 H7 H8 H9 H10 _).
  by eapply later_commit.
Qed.

(** C10: a generation identifier names one content.  A commit that [verify_manifest] accepts
    consists of a snapshot, the pages and the citation index rendered from it, a manifest and
    an outbox event, and no other file; and two commits accepted for the same identifier - in
    any two states of two repositories, by any two builders - have the same snapshot, the same
    pages and the same citation index, or the descriptors and snapshots hashed to check the two
    commits collide. *)
Theorem generation_id_names_content b b' (g g' : G) oid oid' gid m m' :
  commit_files g oid m -> commit_files g' oid' m' ->
  verify_manifest b g oid gid = Ok true -> verify_manifest b' g' oid' gid = Ok true ->
  exists claims snapshot claims' snapshot',
    generation_files gid m claims snapshot /\ generation_files gid m' claims' snapshot' /\
    ((snapshot = snapshot' /\ claims = claims' /\
      forall p, p <> manifest_path gid -> p <> outbox_path gid -> m !! p = m' !! p) \/
     collision (checked_bytes gid m ++ checked_bytes gid m')).
Proof.
  intros Hm Hm' Hv Hv'.
  destruct (verify_manifest_inv _ _ _ _ _ Hm Hv) as (d & i & cs & s & Hfd & Hh & Hi & Hs & Hf & _).
  destruct (verify_manifest_inv _ _ _ _ _ Hm' Hv') as (d' & i' & cs' & s' & Hfd' & Hh' & Hi' & Hs' & Hf' & _).
  exists cs, s, cs', s'. split; [done|]. split; [done|]. unfold checked_bytes.
  rewrite Hfd, Hfd', (gf_snapshot _ _ _ _ Hf), (gf_snapshot _ _ _ _ Hf'). cbn [option_list].
  destruct (canonical_hash_binding _ _ _ Hh Hh') as [(j & j' & Hj & Hj' & Ej)|Hc];
    [|right; eapply collision_sub; [exact Hc | set_solver]].
  destruct (digest_member _ _ _ _ Hi Hs Hj) as (jm & im & -> & N1 & A1 & N2 & A2).
  destruct (digest_member _ _ _ _ Hi' Hs' Hj') as (jm' & im' & -> & N1' & A1' & N2' & A2').
  pose proof (json_equiv_assoc _ _ "inline_artifacts" N1 Ej) as E1. rewrite A1, A1' in E1.
  assert (Eo : JObj im ≡ JObj im') by (unfold equiv, json_equiv; cbn [fmap option_fmap option_map] in E1; congruence).
  pose proof (json_equiv_assoc _ _ "knowledge_snapshot_digest" N2 Eo) as E2. rewrite A2, A2' in E2.
  cbn in E2. injection E2 as E2. apply sha256_hex_inj_or in E2 as [->|Hc];
    [left|right; eapply collision_sub; [exact Hc | set_solver]].
  destruct Hf as [H1 H2 (c & H3 & H3') H4 H5], Hf' as [H1' H2' (c' & H3a & H3a') H4' H5'].
  rewrite H2 in H2'. injection H2' as <-. split; [done|]. split; [done|]. intros p Hp1 Hp2.
  destruct (starts_with "wiki/" p) eqn:Ew; [by rewrite H4, H4'|].
  destruct (decide (p = citation_path)) as [->|]; [congruence|].
  destruct (decide (p = snapshot_path)) as [->|]; [congruence|].
  assert (Hn : forall mm : gmap string string,
    (is_Some (mm !! p) <-> (starts_with "wiki/" p = true /\ is_Some (mm !! p)) \/ own_path gid p) -> mm !! p = None).
  { intros mm Hmm. apply eq_None_not_Some. rewrite Hmm, Ew. unfold own_path. naive_solver. }
  by rewrite (Hn _ (H5 p)), (Hn _ (H5' p)).
Qed.
End GenProperties.

(** ** Evaluations: two claims, an in-memory repository and the toy signature scheme *)

Definition sample_builder : GenerationBuilder (E := toy_ed25519) :=
  {| gb_keyring := toy_keyring; gb_key_id := "k1"; gb_profile := "phase1" |}.

Definition sample_build : mem_repo * result gen_error CandidateResult :=
  build_candidate (U := unicode_sample) (D := pad_digest) (L := case_sample) (E := toy_ed25519)
    sample_builder made_claims None "src" "root" None empty_repo.

Definition no_candidate : CandidateResult :=
  {| cand_generation_id := ""; cand_commit_oid := ""; cand_retention_ref := ""; cand_descriptor := PNone;
     cand_manifest := PNone; cand_wiki_files_root := ""; cand_citation_index_digest := "";
     cand_knowledge_snapshot_digest := "" |}.
Definition sample_candidate : CandidateResult :=
  match snd sample_build with Ok c => c | Err _ => no_candidate end.

Lemma sample_build_ok :
  build_candidate (U := unicode_sample) (D := pad_digest) (L := case_sample) (E := toy_ed25519)
    sample_builder made_claims None "src" "root" None empty_repo = (fst sample_build, Ok sample_candidate).
Proof.
  assert (H : is_ok (snd sample_build) = true) by (vm_compute; reflexivity).
  unfold sample_candidate. fold sample_build. destruct sample_build as [g [c|e]]; [done | discriminate H].
Qed.

Definition sample_verify (g : mem_repo) (oid gid : string) : result gen_error bool :=
  verify_manifest (U := unicode_sample) (D := pad_digest) (L := case_sample) (R := canonical_reader)
    (E := toy_ed25519) sample_builder g oid gid.

(** The verifier accepts the commit for its own identifier and for no other. *)
Example sample_verified :
  sample_verify (fst sample_build) (cand_commit_oid sample_candidate) (cand_generation_id sample_candidate) = Ok true /\
  sample_verify (fst sample_build) (cand_commit_oid sample_candidate) "00" = Ok false.
Proof. vm_compute. split; reflexivity. Qed.

Lemma candidate_verifies_witness :
  read_ref (fst sample_build) (generation_ref (cand_generation_id sample_candidate)) =
    Some (cand_commit_oid sample_candidate).
Proof.
  exact (proj1 (proj2 (candidate_verifies (U := unicode_sample) (D := pad_digest) (L := case_sample)
    (R := canonical_reader) (E := toy_ed25519) sample_builder made_claims None "src" "root" None empty_repo
    (fst sample_build) sample_candidate made_claims_ok toy_keyring_ok eq_refl sample_build_ok))).
Defined.

Definition sample_files : gmap string string :=
  default ∅ (mem_files (fst sample_build) (cand_commit_oid sample_candidate)).

Lemma sample_files_ok : commit_files (fst sample_build) (cand_commit_oid sample_candidate) sample_files.
Proof.
  cbn [commit_files mem_git_laws]. unfold sample_files.
  assert (H : bool_decide (is_Some (mem_files (fst sample_build) (cand_commit_oid sample_candidate))) = true)
    by by vm_compute.
  apply bool_decide_eq_true in H as [m ->]. done.
Qed.

Lemma generation_id_names_content_witness :
  exists claims snapshot claims' snapshot',
    generation_files (U := unicode_sample) (D := pad_digest) (L := case_sample) (R := canonical_reader)
      (cand_generation_id sample_candidate) sample_files claims snapshot /\
    generation_files (U := unicode_sample) (D := pad_digest) (L := case_sample) (R := canonical_reader)
      (cand_generation_id sample_candidate) sample_files claims' snapshot' /\
    ((snapshot = snapshot' /\ claims = claims' /\
      forall p, p <> manifest_path (cand_generation_id sample_candidate) ->
        p <> outbox_path (cand_generation_id sample_candidate) -> sample_files !! p = sample_files !! p) \/
     collision (D := pad_digest)
       (checked_bytes (U := unicode_sample) (R := canonical_reader) (cand_generation_id sample_candidate) sample_files ++
        checked_bytes (U := unicode_sample) (R := canonical_reader) (cand_generation_id sample_candidate) sample_files)).
Proof.
  exact (generation_id_names_content (U := unicode_sample) (D := pad_digest) (L := case_sample) (R := canonical_reader)
    (E := toy_ed25519) sample_builder sample_builder (fst sample_build) (fst sample_build)
    (cand_commit_oid sample_candidate) (cand_commit_oid sample_candidate) (cand_generation_id sample_candidate)
    sample_files sample_files sample_files_ok sample_files_ok (proj1 sample_verified) (proj1 sample_verified)).
Defined.
