(* ===== verification/Publish.v ===== *)
(** * Publication (publish.py)

    The state is the git repository and the control-plane database, side by side.  [race] is
    what other connections do between the preparation and the activation of an attempt, and
    inside the window [activate] leaves open. *)
From stdpp Require Import relations.
From S2P Require Import Prelude Digest Json Canonical Hashing Text Models Claims ControlPlane Signing Git Assembler Generation.
Open Scope string_scope.

Inductive pub_error : Type :=
| PubDb (e : db_error) | PubGen (e : gen_error) | PubCanon (e : canon_error) | PubKey (e : key_error)
| PubGit (e : git_error) | ParentInvalid (gid : string) | NoRoot.

(** What leaves the publication loop. *)
Inductive loop_error : Type := Raised (e : pub_error) | OutOfFuel.

Record PublishResult : Type := {
  res_generation_id : option string;
  res_candidate_commit_oid : option string;
  res_release_commit_oid : option string;
  res_attempts : nat;
  res_noop : bool;
}.

Record PreparedPublication : Type := {
  prep_parent : option string;
  prep_candidate : option CandidateResult;
  prep_release : option string;
  prep_surviving : list CompiledClaim;
  prep_revoked : list string;
  prep_attempts : nat;
  prep_noop : bool;
}.

(** [expected_parent_generation_id]: the default [_ANY_PARENT] or a pointer. *)
Inductive expected_parent : Type := ANY_PARENT | Parent (p : option string).

Section Publish.
Context {U : Unicode} {D : Digest} {L : UnicodeCase} {R : JsonReader} {E : Ed25519}.
Context {G : Type} `{GitRepo G}.
Implicit Types b : GenerationBuilder.

Notation M := (st (G * db) pub_error).

Definition on_git {E0 A} (f : E0 -> pub_error) (m : st G E0 A) : M A := fun s =>
  let '(g, r) := m s.1 in ((g, s.2), map_err f r).
Definition on_db {A} (m : st db db_error A) : M A := fun s =>
  let '(d, r) := m s.2 in ((s.1, d), map_err PubDb r).
Definition db_do (f : db -> db) : M unit := fun s => ((s.1, f s.2), Ok tt).
Definition from_db {A} (f : db -> A) : M A := st_gets (fun s => f s.2).
Definition read_git {A} (f : G -> result pub_error A) : M A := fun s => (s, f s.1).

(** [json.dumps] of a value that [canonical_bytes] accepts: strings, booleans, None and
    their containers; the text it writes denotes this JSON value. *)
Fixpoint raw_json (v : pyval) : option json :=
  match v with
  | PNone => Some JNull
  | PBool x => Some (JBool x)
  | PStr s => Some (JStr s)
  | PList l | PTuple l =>
      JArr <$> (fix go (l : list pyval) : option (list json) :=
        match l with [] => Some [] | x :: l => y ← raw_json x; ys ← go l; Some (y :: ys) end) l
  | PDict kvs =>
      JObj <$> (fix go (kvs : list (pykey * pyval)) : option (list (string * json)) :=
        match kvs with
        | [] => Some []
        | (KStr k, x) :: kvs => y ← raw_json x; ys ← go kvs; Some ((k, y) :: ys)
        | (KOther, _) :: _ => None
        end) kvs
  | PInt _ | PFloat | PMap _ | POther => None
  end.

Definition snapshot_claims (g : G) (commit : string) : result pub_error (list CompiledClaim) :=
  data ← map_err PubGit (cat_file g commit snapshot_path);
  map_err (fun e => PubGen (GenSnapshot e)) (parse_snapshot data).

(** The claims of a verified generation, as [_parent_claims] and the repair read them. *)
Definition verified_claims b (gid : string) : M (list CompiledClaim) :=
  commit ← from_db (generation_commit gid);
  match commit with
  | None => st_throw (ParentInvalid gid)
  | Some c =>
      ok ← read_git (fun g => map_err PubGen (verify_manifest b g c gid));
      if (ok : bool) then read_git (fun g => snapshot_claims g c) else st_throw (ParentInvalid gid)
  end.

Definition _parent_claims b (parent : option string) : M (list CompiledClaim) :=
  match parent with None => mret [] | Some p => verified_claims b p end.

Definition release_ref (gid : string) : string := "refs/wiki/release-objects/" +:+ gid.

Definition release_body b (cand : CandidateResult) (previous : option string) : list (string * pyval) :=
  [("generation_id", PStr (cand_generation_id cand));
   ("candidate_commit_oid", PStr (cand_commit_oid cand));
   ("publication_profile", PStr (gb_profile b));
   ("required_read_models", PList
      [py_record [("model_name", PStr "wiki_files");
                  ("artifact_manifest_digest", PStr (cand_wiki_files_root cand))];
       py_record [("model_name", PStr "citation_index");
                  ("artifact_manifest_digest", PStr (cand_citation_index_digest cand))]]);
   ("previous_release_commit_oid", PStr (default "" previous));
   ("signer_key_id", PStr (gb_key_id b))].

Definition _build_release_commit b (cand : CandidateResult) (previous : option string) : M string :=
  let gid := cand_generation_id cand in
  let body := release_body b cand previous in
  bhash ← st_lift (map_err PubCanon (canonical_hash (py_record body)));
  sig ← st_lift (map_err PubKey (sign_domain (gb_keyring b) (gb_key_id b) "wiki.release.v1" bhash));
  bytes ← st_lift (map_err PubCanon
            (canonical_bytes (py_record (body ++ [("signature", PStr (hex sig))])%list)));
  tree ← on_git PubGit (write_tree_from_files [(release_path gid, bytes)]);
  oid ← on_git PubGit (commit_tree tree ("release " +:+ gid) (Some (cand_commit_oid cand)));
  _ ← on_git PubGen (anchor_ref (release_ref gid) oid);
  mret oid.

(** ** The claims of the next generation *)

(** [by_assertion]: the parent's claims, overridden by the new ones *)
Definition overlay (parent_claims new_claims : list CompiledClaim) : list (string * CompiledClaim) :=
  foldl (fun m c => assoc_set (assertion_id (assertion c)) c m)
    (foldl (fun m c => assoc_set (assertion_id (assertion c)) c m) [] parent_claims) new_claims.

Definition survivors (parent_claims new_claims : list CompiledClaim) (revokes : list string)
    : list CompiledClaim :=
  sort_on (fun c => assertion_id (assertion c))
    (List.filter (fun c => negb (str_mem (claim_id (identity c)) revokes))
       (map snd (overlay parent_claims new_claims))).

Definition id_set (l : list CompiledClaim) : gset string :=
  list_to_set (map (fun c => assertion_id (assertion c)) l).

(** [sorted({...})] *)
Definition sorted_set (l : list string) : list string := sort_str (elements (list_to_set l : gset string)).

Definition decisions_for (surviving : list CompiledClaim) : list ResolutionDecision :=
  map (fun cid =>
    {| decision_claim_id := cid; decision_state := "accepted";
       assertion_ids := sort_str (map (fun c => assertion_id (assertion c))
         (List.filter (fun c => String.eqb (claim_id (identity c)) cid) surviving));
       policy_version := "spike-policy@0"; rationale_code := "accept" |})
    (sorted_set (map (fun c => claim_id (identity c)) surviving)).

(** Python's truth of an optional string. *)
Definition truthy (o : option string) : bool := match o with Some s => str_nonempty s | None => false end.

Definition prepare b (new_claims : list CompiledClaim) (source_snapshot_hash : string)
    (revokes : list string) (expected : expected_parent) (changeset_binding : option pyval)
    (attempts : nat) : M PreparedPublication :=
  parent ← from_db current_pointer;
  _ ← st_lift (ensure (match expected with ANY_PARENT => true | Parent p => bool_decide (parent = p) end)
                 (PubDb CASConflict));
  _ ← st_iter (fun c => db_do (upsert_claim_and_assertion c)) new_claims;
  parent_claims ← _parent_claims b parent;
  let surviving := survivors parent_claims new_claims revokes in
  let revoked := sorted_set revokes in
  if bool_decide (id_set surviving = id_set parent_claims)
  then mret {| prep_parent := parent; prep_candidate := None; prep_release := None;
               prep_surviving := surviving; prep_revoked := revoked; prep_attempts := attempts;
               prep_noop := true |}
  else
    root ← st_lift (map_err PubCanon (accepted_claim_set_root (decisions_for surviving)));
    root ← st_lift (of_option NoRoot root);
    previous ← (if truthy parent then from_db current_release_oid else mret None);
    candidate ← on_git PubGen (build_candidate b surviving parent source_snapshot_hash root changeset_binding);
    release_oid ← _build_release_commit b candidate previous;
    let gid := cand_generation_id candidate in
    mhash ← st_lift (map_err PubCanon (canonical_hash (cand_manifest candidate)));
    _ ← db_do (register_generation gid parent (cand_commit_oid candidate) mhash
                 (raw_json (cand_manifest candidate)) (Some release_oid));
    _ ← on_db (mark_read_model gid "wiki_files" (cand_wiki_files_root candidate));
    _ ← on_db (mark_read_model gid "citation_index" (cand_citation_index_digest candidate));
    _ ← db_do (set_read_models_ready gid);
    mret {| prep_parent := parent; prep_candidate := Some candidate; prep_release := Some release_oid;
            prep_surviving := surviving; prep_revoked := revoked; prep_attempts := attempts;
            prep_noop := false |}.

(** ** Activation *)

(** One entry per claim: the first one. *)
Fixpoint entries_from (seen : list string) (l : list CompiledClaim)
    : list (string * string * string * string) :=
  match l with
  | [] => []
  | c :: l =>
      let i := identity c in
      if str_mem (claim_id i) seen then entries_from seen l
      else (claim_id i, subject_id i, predicate_id i, obj i) :: entries_from (claim_id i :: seen) l
  end.
Definition search_entries (surviving : list CompiledClaim) : list (string * string * string * string) :=
  entries_from [] surviving.

Definition _post_publish (gid : string) (surviving : list CompiledClaim) (revokes : list string) : M unit :=
  _ ← db_do (add_generation_assertions gid (map (fun c => assertion_id (assertion c)) surviving));
  _ ← st_iter (fun c => on_db (record_resolution gid (claim_id (identity c)) "accepted")) surviving;
  _ ← st_iter (fun cid => on_db (record_resolution gid cid "retracted")) revokes;
  _ ← on_db (build_search_index gid (search_entries surviving));
  db_do (set_search_pointer gid).

Definition activate_prepared (others : db -> db) (p : PreparedPublication) : M PublishResult :=
  match prep_noop p, prep_candidate p, prep_release p with
  | false, Some candidate, Some release_oid =>
      let gid := cand_generation_id candidate in
      let result := {| res_generation_id := Some gid;
                       res_candidate_commit_oid := Some (cand_commit_oid candidate);
                       res_release_commit_oid := Some release_oid;
                       res_attempts := prep_attempts p; res_noop := false |} in
      current ← from_db current_pointer;
      gstate ← from_db (generation_state gid);
      if bool_decide (current = Some gid) && bool_decide (gstate = Some "published")
      then _ ← _post_publish gid (prep_surviving p) (prep_revoked p); mret result
      else
        _ ← on_db (activate others gid (prep_parent p) release_oid);
        _ ← _post_publish gid (prep_surviving p) (prep_revoked p);
        mret result
  | _, _, _ => mret {| res_generation_id := None; res_candidate_commit_oid := None;
                       res_release_commit_oid := None; res_attempts := prep_attempts p;
                       res_noop := true |}
  end.

Definition repair_published_generation b (gid : string) : M unit :=
  claims ← verified_claims b gid;
  _post_publish gid claims [].

(** ** The publication loop *)

(** What others do: between preparation and activation, and inside [activate]. *)
Record race : Type := { between : G * db -> G * db; inside : db -> db }.

Definition attempt b (r : race) new_claims src revokes expected binding (n : nat) : M PublishResult :=
  p ← prepare b new_claims src revokes expected binding n;
  _ ← st_modify (between r);
  activate_prepared (inside r) p.

Definition is_conflict (e : pub_error) : bool := match e with PubDb CASConflict => true | _ => false end.
Definition strict (e : expected_parent) : bool := match e with ANY_PARENT => false | Parent _ => true end.

Fixpoint publish_loop (fuel : nat) b (races : nat -> race) new_claims src revokes (max_retries : nat)
    expected binding (n : nat) : st (G * db) loop_error PublishResult := fun s =>
  match attempt b (races n) new_claims src revokes expected binding n s with
  | (s', Err e) =>
      if is_conflict e && negb (strict expected || (max_retries <=? n)%nat) then
        match fuel with
        | 0 => (s', Err OutOfFuel)
        | S fuel => publish_loop fuel b races new_claims src revokes max_retries expected binding (S n) s'
        end
      else (s', Err (Raised e))
  | (s', Ok r) => (s', Ok r)
  end.

(** [while True] with [attempts] from 1: at most [max_retries] rounds. *)
Definition publish b races new_claims src revokes max_retries expected binding :=
  publish_loop max_retries b races new_claims src revokes max_retries expected binding 1.
End Publish.

(** ** The protocol of publishers

    What any publisher with a builder does to the repository and the database: the
    repository grows, a database method that registers nothing runs, or a candidate built
    from valid claims is registered under its own identifier with its own commit. *)
Section Protocol.
Context {U : Unicode} {D : Digest} {L : UnicodeCase} {R : JsonReader} {E : Ed25519}.
Context {G : Type} `{GitLaws G}.
Implicit Types b : GenerationBuilder.

Inductive pub_step b : G * db -> G * db -> Prop :=
| pub_git g g' d : later g g' -> pub_step b (g, d) (g', d)
| pub_db g d d' :
    db_step d d' -> (forall gid, generation d !! gid = None -> generation d' !! gid = None) ->
    pub_step b (g, d) (g, d')
| pub_register g d accepted cand p m j r :
    claim_set accepted -> built b accepted g cand ->
    pub_step b (g, d) (g, register_generation (cand_generation_id cand) p (cand_commit_oid cand) m j r d).

(** A registered generation is the commit of a candidate built from valid claims. *)
Definition sound_row b (g : G) (gid : string) (row : GenerationRow) : Prop :=
  exists accepted cand, claim_set accepted /\ (exists B : built b accepted g cand, True) /\
    cand_generation_id cand = gid /\ cand_commit_oid cand = candidate_commit_oid row.

Record pub_inv b (s : G * db) : Prop := {
  pi_db : db_ok s.2;
  pi_rows : forall gid row, generation s.2 !! gid = Some row -> sound_row b s.1 gid row;
}.

Lemma built_later b accepted (g g' : G) cand (B : built b accepted g cand) :
  later g g' -> exists B' : built b accepted g' cand, bt_binding _ _ _ _ B' = bt_binding _ _ _ _ B.
Proof.
  intros Hl. destruct B as [c s sg mb ob p sr ro bi H1 H2 H3 H4 H5 H6 H7 H8 H9 H10 H11].
  unshelve eexists.
  { refine (Build_built b accepted g' cand c s sg mb ob p sr ro bi H1 H2 H3 H4 H5 H6 H7 H8 H9 H10 _).
    by eapply later_commit. }
  done.
Qed.

Lemma sound_row_later b (g g' : G) gid row : later g g' -> sound_row b g gid row -> sound_row b g' gid row.
Proof.
  intros Hl (a & c & Ha & [B _] & E1 & E2). exists a, c. split; [done|]. split; [|done].
  destruct (built_later _ _ _ _ _ B Hl) as [B' _]. by exists B'.
Qed.

Lemma sound_row_commit b (g : G) gid row row' :
  candidate_commit_oid row' = candidate_commit_oid row -> sound_row b g gid row -> sound_row b g gid row'.
Proof. intros Hc (a & c & Ha & HB & E1 & E2). exists a, c. rewrite Hc. done. Qed.

Lemma pub_step_inv b s s' : pub_step b s s' -> pub_inv b s -> pub_inv b s'.
Proof.
  destruct 1 as [g g' d Hl|g d d' Hs Hnew|g d acc cand p m j r Hset HB]; intros [Hdb Hrows]; cbn in *.
  - split; [done|]. cbn. intros gid row Hrow. eapply sound_row_later; [exact Hl | by apply Hrows].
  - destruct (db_step_ok _ _ Hs Hdb) as [Hdb' He]. split; [done|]. cbn. intros gid row' Hrow.
    destruct (generation d !! gid) as [row|] eqn:Eg; [|by rewrite (Hnew _ Eg) in Hrow].
    destruct (He _ _ Eg) as (row2 & E2 & Hev). assert (row2 = row') as -> by congruence.
    eapply sound_row_commit; [by apply ev_commit|]. by apply Hrows.
  - split; [by apply register_ok|]. cbn. intros gid row. unfold insert_or_ignore.
    destruct (generation d !! cand_generation_id cand) as [x|] eqn:Ex; [by apply Hrows|].
    destruct (decide (gid = cand_generation_id cand)) as [->|Hne].
    + rewrite lookup_insert_eq. intros [= <-]. exists acc, cand. split; [done|]. split; [by exists HB | done].
    + rewrite lookup_insert_ne by done. apply Hrows.
Qed.

Lemma pub_steps_inv b s s' : rtc (pub_step b) s s' -> pub_inv b s -> pub_inv b s'.
Proof. induction 1 as [s|s s1 s2 Hs _ IH]; [done|]. intros Hi. apply IH. by eapply pub_step_inv. Qed.

(** What the invariant gives of a registered generation: the claims its snapshot holds. *)
Lemma built_snapshot b accepted (g : G) cand (B : built b accepted g cand) :
  claim_set accepted -> snapshot_claims g (cand_commit_oid cand) = Ok (map canon_claim (sort_on aid accepted)).
Proof.
  intros Ha. destruct B as [ci sn sg mb ob p sr ro bi H1 H2 H3 H4 H5 H6 H7 H8 H9 H10 H11].
  unfold snapshot_claims. rewrite (cat_file_law _ _ _ _ H11), files_map, candidate_files_lookup
    by apply candidate_files_NoDup, render_pages_keys.
  change (String.eqb snapshot_path (outbox_path ?x)) with false. cbn iota.
  change (String.eqb snapshot_path (manifest_path ?x)) with false. cbn iota.
  rewrite String.eqb_refl. cbn [map_err mbind result_bind].
  rewrite (build_snapshot_ok _ (cs_valid _ Ha)) in H2. injection H2 as <-.
  by rewrite (parse_snapshot_ok _ (cs_valid _ Ha)).
Qed.

Lemma sound_row_verifies b (g : G) gid row :
  keyring_ok (gb_keyring b) -> nfc (gb_key_id b) = gb_key_id b -> sound_row b g gid row ->
  exists claims, claim_set claims /\ snapshot_claims g (candidate_commit_oid row) = Ok claims /\
    (verify_manifest b g (candidate_commit_oid row) gid = Ok true \/ collision (claim_preimages claims)).
Proof.
  intros Hk Hn (a & c & Ha & [B _] & <- & <-). exists (map canon_claim (sort_on aid a)).
  split; [by apply canon_set|]. split; [by apply built_snapshot with (b := b)|].
  destruct (built_verifies b a g c B Ha Hk Hn) as [Hv|Hc]; [by left | right].
  eapply collision_sub; [exact Hc|]. intros x Hx. by rewrite (claim_preimages_canon a).
Qed.

(** ** Computations that follow the protocol *)

Notation M := (st (G * db) pub_error).

Definition follows b {A} (m : M A) : Prop := keeps (rtc (pub_step b)) m.

Lemma step_follows b (f : db -> db) :
  (forall d, db_step d (f d)) -> (forall d gid, generation d !! gid = None -> generation (f d) !! gid = None) ->
  follows b (db_do f).
Proof. intros Hs Hn [g d]. cbn. apply rtc_once, pub_db; auto. Qed.

Lemma on_db_follows b {A} (m : st db db_error A) :
  (forall d, db_step d (m d).1) -> (forall d gid, generation d !! gid = None -> generation (m d).1 !! gid = None) ->
  follows b (on_db m).
Proof.
  intros Hs Hn [g d]. unfold on_db. cbn. specialize (Hs d). specialize (Hn d).
  destruct (m d) as [d' r]. cbn in *. apply rtc_once, pub_db; auto.
Qed.

Lemma on_git_follows b {E0 A} (f : E0 -> pub_error) (m : st G E0 A) :
  (forall g, later g (m g).1) -> follows b (on_git f m).
Proof.
  intros Hm [g d]. unfold on_git. cbn. specialize (Hm g). destruct (m g) as [g' r]. cbn in *.
  by apply rtc_once, pub_git.
Qed.

Lemma core_none d d' gid : same_core d d' -> generation d !! gid = None -> generation d' !! gid = None.
Proof. intros (-> & _). done. Qed.

Lemma record_resolution_follows b gid cid x : follows b (on_db (record_resolution gid cid x)).
Proof.
  apply on_db_follows; [intros d; constructor|]. intros d gid'. unfold record_resolution. by destruct (generation d !! gid).
Qed.

Lemma mark_follows b gid model dg : follows b (on_db (mark_read_model gid model dg)).
Proof.
  apply on_db_follows; [intros d; constructor|]. intros d gid'. unfold mark_read_model. by destruct (generation d !! gid).
Qed.

Lemma post_publish_follows b gid surviving revokes : follows b (_post_publish gid surviving revokes).
Proof.
  unfold _post_publish. apply (keeps_bind (rtc (pub_step b))); [apply step_follows; [intros d; constructor|]|intros _].
  { intros d gid'. apply core_none, add_assertions_core. }
  apply (keeps_bind (rtc (pub_step b))); [apply (keeps_iter (rtc (pub_step b))); intros; apply record_resolution_follows|intros _].
  apply (keeps_bind (rtc (pub_step b))); [apply (keeps_iter (rtc (pub_step b))); intros; apply record_resolution_follows|intros _].
  apply (keeps_bind (rtc (pub_step b))); [apply on_db_follows; [intros d; constructor|]|intros _].
  { intros d gid'. apply core_none, build_search_index_core. }
  apply step_follows; [intros d; constructor | done].
Qed.

Lemma on_git_at b {E0 A} (f : E0 -> pub_error) (m : st G E0 A) s :
  later s.1 (m s.1).1 -> rtc (pub_step b) s (on_git f m s).1.
Proof.
  destruct s as [g d]. unfold on_git. cbn. destruct (m g) as [g' r]. cbn. intros. by apply rtc_once, pub_git.
Qed.

Lemma on_git_ok {E0 A} (f : E0 -> pub_error) (m : st G E0 A) s s' a :
  on_git f m s = (s', Ok a) -> m s.1 = (s'.1, Ok a) /\ s'.2 = s.2.
Proof.
  unfold on_git. destruct (m s.1) as [g [x|e]]; cbn; [|done]. by intros [= <- ->].
Qed.

Lemma on_db_ok {A} (m : st db db_error A) (s s' : G * db) a :
  on_db m s = (s', Ok a) -> m s.2 = (s'.2, Ok a) /\ s'.1 = s.1.
Proof. unfold on_db. destruct (m s.2) as [d [x|e]]; cbn; [|done]. by intros [= <- ->]. Qed.

Lemma lift_follows b {A} (r : result pub_error A) : follows b (st_lift r).
Proof. by apply (keeps_pure (rtc (pub_step b))). Qed.

Lemma from_db_follows b {A} (f : db -> A) : follows b (from_db f).
Proof. by apply (keeps_pure (rtc (pub_step b))). Qed.

Lemma release_follows b cand previous : follows b (_build_release_commit b cand previous).
Proof.
  unfold _build_release_commit. cbv zeta.
  do 3 (apply (keeps_bind (rtc (pub_step b))); [apply lift_follows | intros ?]).
  intros s. apply (keeps_at_bind (rtc (pub_step b))); [apply on_git_at, write_tree_later|].
  intros s1 tree [Ht _]%on_git_ok. apply write_tree_ok in Ht.
  apply (keeps_at_bind (rtc (pub_step b))); [apply on_git_at; by eapply commit_tree_later|]. intros s2 oid _.
  apply (keeps_at_bind (rtc (pub_step b))); [apply on_git_at, anchor_ref_later|]. done.
Qed.

Lemma verified_follows b gid : follows b (verified_claims b gid).
Proof.
  unfold verified_claims. apply (keeps_bind (rtc (pub_step b))); [apply from_db_follows|]. intros [c|]; [|by apply (keeps_pure (rtc (pub_step b)))].
  apply (keeps_bind (rtc (pub_step b))); [by apply (keeps_pure (rtc (pub_step b)))|]. intros []; by apply keeps_pure; [apply _|].
Qed.

Lemma ready_follows b gid : follows b (db_do (set_read_models_ready gid)).
Proof.
  apply step_follows; [intros d; constructor|]. intros d gid' Hn. cbn.
  destruct (decide (gid' = gid)) as [->|]; [by rewrite lookup_alter_eq, Hn | by rewrite lookup_alter_ne].
Qed.

Lemma upsert_follows b c : follows b (db_do (upsert_claim_and_assertion c)).
Proof. apply step_follows; [intros d; constructor | done]. Qed.

(** The claims [prepare] builds from are valid when the parent's and the new ones are. *)
Lemma assoc_set_values {A} (P : A -> Prop) k v (l : list (string * A)) :
  P v -> Forall P (map snd l) -> Forall P (map snd (assoc_set k v l)).
Proof.
  intros Hv Hl. apply list.Forall_forall. intros x (kv & -> & Hin)%list_elem_of_fmap. destruct kv as [k' v'].
  apply assoc_set_elem in Hin as [[_ ->]|Hin]; [done|]. rewrite list.Forall_forall in Hl. apply Hl.
  apply list_elem_of_fmap. by exists (k', v').
Qed.

Definition add_claim (m : list (string * CompiledClaim)) (c : CompiledClaim) : list (string * CompiledClaim) :=
  assoc_set (assertion_id (assertion c)) c m.

(** The entries of [by_assertion]: one per assertion, under its identifier. *)
Record keyed (m : list (string * CompiledClaim)) : Prop := {
  ky_nodup : NoDup m.*1;
  ky_key : forall k c, (k, c) ∈ m -> aid c = k;
}.

Lemma add_claim_keyed m c : keyed m -> keyed (add_claim m c).
Proof.
  intros [H1 H2]. split; [by apply assoc_set_NoDup|]. intros k x [[-> ->]|Hin]%assoc_set_elem; [done | by apply H2].
Qed.

Lemma fold_keyed l m : keyed m -> keyed (foldl add_claim m l).
Proof. revert m; induction l as [|c l IH]; intros m Hm; [done|]. by apply IH, add_claim_keyed. Qed.

Lemma overlay_keyed pc nc : keyed (overlay pc nc).
Proof. unfold overlay. apply (fold_keyed nc), (fold_keyed pc). split; [constructor | by intros ? ? ?%elem_of_nil]. Qed.

Lemma fold_values (P : CompiledClaim -> Prop) l m :
  Forall P l -> Forall P (map snd m) -> Forall P (map snd (foldl add_claim m l)).
Proof.
  intros Hl. revert m; induction Hl as [|c l Hc _ IH]; intros m Hm; [done|]. cbn. by apply IH, assoc_set_values.
Qed.

Lemma keyed_aids m : keyed m -> map aid (map snd m) = m.*1.
Proof.
  intros [_ H2]. induction m as [|[k c] m IH]; [done|]. cbn. f_equal; [apply H2; left|].
  apply IH. intros; apply H2; by right.
Qed.

Lemma survivors_set pc nc revokes :
  Forall valid_claim pc -> Forall valid_claim nc -> claim_set (survivors pc nc revokes).
Proof.
  intros Hp Hn. unfold survivors.
  eapply claim_set_perm; [symmetry; apply sort_on_perm_self|]. pose proof (overlay_keyed pc nc) as Hk.
  assert (Hs : claim_set (map snd (overlay pc nc))).
  { split; [|rewrite (keyed_aids _ Hk); apply Hk]. unfold overlay.
    apply (fold_values _ nc); [done|]. by apply (fold_values _ pc). }
  destruct Hs as [H1 H2]. split.
  - apply list.Forall_forall. intros c [Hc _]%list_elem_of_In%filter_In. rewrite list.Forall_forall in H1.
    by apply H1, list_elem_of_In.
  - revert H2. generalize (map snd (overlay pc nc)) as l. clear. induction l as [|c l IH]; [constructor|].
    cbn [map List.filter]. intros [Hc Hl]%list.NoDup_cons. destruct (negb _); [|by apply IH].
    cbn [map]. apply list.NoDup_cons. split; [|by apply IH]. intros Hin. apply Hc.
    apply list_elem_of_fmap in Hin as (x & Ex & [Hx _]%list_elem_of_In%filter_In). apply list_elem_of_fmap.
    exists x. split; [done|]. by apply list_elem_of_In.
Qed.

(** ** Preparation *)

Lemma steps_later b s s' : rtc (pub_step b) s s' -> later s.1 s'.1.
Proof. induction 1 as [s|s s1 s2 Hs _ IH]; [done|]. etrans; [|exact IH]. by destruct Hs. Qed.

(** What the parent's claims are: those its verified commit holds. *)
Definition parent_content (s : G * db) (parent : option string) (pc : list CompiledClaim) : Prop :=
  match parent with
  | None => pc = []
  | Some gid => exists row, generation s.2 !! gid = Some row /\
                  snapshot_claims s.1 (candidate_commit_oid row) = Ok pc /\ claim_set pc
  end.

Lemma read_git_ok {A} (f : G -> result pub_error A) (s s' : G * db) a :
  read_git f s = (s', Ok a) <-> s' = s /\ f s.1 = Ok a.
Proof. unfold read_git. split; [by intros [= <- ->] | by intros [-> ->]]. Qed.

Lemma from_db_ok {A} (f : db -> A) (s s' : G * db) a :
  from_db f s = (s', Ok a) <-> s' = s /\ a = f s.2.
Proof. unfold from_db, st_gets. split; [by intros [= <- <-] | by intros [-> ->]]. Qed.

Lemma verified_claims_ok b gid s s' pc :
  keyring_ok (gb_keyring b) -> nfc (gb_key_id b) = gb_key_id b -> pub_inv b s ->
  verified_claims b gid s = (s', Ok pc) -> s' = s /\ parent_content s (Some gid) pc.
Proof.
  intros Hk Hn [_ Hrows] Hv. unfold verified_claims in Hv.
  apply st_bind_ok in Hv as (? & c & Hc & Hv). apply from_db_ok in Hc as [-> Hc]. unfold generation_commit in Hc.
  destruct (generation s.2 !! gid) as [row|] eqn:Er; cbn in Hc; subst c; [|done].
  apply st_bind_ok in Hv as (? & ok & Hok & Hv). apply read_git_ok in Hok as [-> _]. destruct ok; [|done].
  apply read_git_ok in Hv as [-> Hs]. split; [done|]. exists row. split; [done|]. split; [done|].
  destruct (sound_row_verifies b s.1 gid row Hk Hn (Hrows _ _ Er)) as (claims & Ha & Hsn & _).
  rewrite Hs in Hsn. by injection Hsn as ->.
Qed.

Lemma parent_claims_ok b parent s s' pc :
  keyring_ok (gb_keyring b) -> nfc (gb_key_id b) = gb_key_id b -> pub_inv b s ->
  _parent_claims b parent s = (s', Ok pc) -> s' = s /\ parent_content s parent pc.
Proof.
  intros Hk Hn Hi. destruct parent as [gid|]; [by apply verified_claims_ok|]. by intros [= <- <-].
Qed.

Lemma parent_claims_valid s parent pc : parent_content s parent pc -> Forall valid_claim pc.
Proof. destruct parent as [gid|]; [intros (row & _ & _ & Hs); apply Hs | intros ->; constructor]. Qed.

Lemma parent_claims_state b parent s : (_parent_claims b parent s).1 = s.
Proof.
  destruct parent as [gid|]; [|done]. cbn [_parent_claims]. unfold verified_claims, mbind, st_bind, from_db, st_gets.
  destruct (generation_commit gid s.2); [|done]. unfold read_git. by destruct (map_err _ _) as [[]|].
Qed.

Lemma upserts_steps b cs s : rtc (pub_step b) s (st_iter (E:=pub_error) (fun c => db_do (upsert_claim_and_assertion c)) cs s).1.
Proof. apply (keeps_iter (rtc (pub_step b))). intros; apply upsert_follows. Qed.

Lemma prepare_steps b new src revokes expected binding n s :
  keyring_ok (gb_keyring b) -> nfc (gb_key_id b) = gb_key_id b ->
  Forall valid_claim new -> pub_inv b s ->
  rtc (pub_step b) s (prepare b new src revokes expected binding n s).1.
Proof.
  intros Hk Hn Hnew Hi. unfold prepare. cbv zeta.
  apply (keeps_at_bind (rtc (pub_step b))); [done|]. intros ? parent [-> _]%from_db_ok.
  apply (keeps_at_bind (rtc (pub_step b))); [done|]. intros ? [] [-> _]%st_lift_ok.
  apply (keeps_at_bind (rtc (pub_step b))); [apply upserts_steps|]. intros s1 [] Hu.
  pose proof (upserts_steps b new s) as Hs1. rewrite Hu in Hs1. cbn in Hs1.
  pose proof (pub_steps_inv _ _ _ Hs1 Hi) as Hi1.
  apply (keeps_at_bind (rtc (pub_step b))); [by rewrite parent_claims_state|]. intros ? pc Hpc.
  apply (parent_claims_ok _ _ _ _ _ Hk Hn Hi1) in Hpc as [-> Hpc].
  case_bool_decide; [done|].
  do 2 (apply (keeps_at_bind (rtc (pub_step b))); [done|]; intros ? ? [-> _]%st_lift_ok).
  apply (keeps_at_bind (rtc (pub_step b))); [by destruct (truthy parent)|]. intros s2 previous Hprev.
  apply (keeps_at_bind (rtc (pub_step b))); [apply on_git_at, build_candidate_later|]. intros s3 cand [Hb _]%on_git_ok.
  apply build_candidate_built in Hb as (_ & _ & _ & _ & B & _).
  apply (keeps_at_bind (rtc (pub_step b))); [apply release_follows|]. intros s4 oid Hrel.
  pose proof (release_follows b cand previous s3) as Hs4. rewrite Hrel in Hs4. cbn in Hs4.
  apply steps_later in Hs4. destruct (built_later _ _ _ _ _ B Hs4) as [B' _].
  apply (keeps_at_bind (rtc (pub_step b))); [done|]. intros ? mhash [-> _]%st_lift_ok.
  apply (keeps_at_bind (rtc (pub_step b))).
  { destruct s4 as [g d]. apply rtc_once. eapply pub_register; [|exact B'].
    by apply survivors_set; [eapply parent_claims_valid|]. }
  intros s5 [] _.
  apply (keeps_at_bind (rtc (pub_step b))); [apply mark_follows|]. intros s6 [] _.
  apply (keeps_at_bind (rtc (pub_step b))); [apply mark_follows|]. intros s7 [] _.
  apply (keeps_at_bind (rtc (pub_step b))); [apply ready_follows|]. done.
Qed.

(** ** Activation and the loop *)

(** A database method of another connection, between two reads of this one. *)
Definition no_new (d d' : db) : Prop :=
  db_step d d' /\ forall gid, generation d !! gid = None -> generation d' !! gid = None.

(** The others follow the protocol too. *)
Record fair b (r : race) : Prop := {
  fair_between : forall s, rtc (pub_step b) s (between r s);
  fair_inside : forall d, rtc no_new d (inside r d);
}.

Lemma no_new_steps b g d d' : rtc no_new d d' -> rtc (pub_step b) (g, d) (g, d').
Proof.
  induction 1 as [d|d1 d2 d3 [Hs Hn] _ IH]; [done|]. eapply rtc_l; [by apply pub_db | exact IH].
Qed.

Lemma activated_none gid oid d k : generation d !! k = None -> generation (activated gid oid d) !! k = None.
Proof. intros Hn. cbn. by rewrite activated_rows_lookup, Hn. Qed.

Lemma activate_steps b others gid expected oid :
  (forall d, rtc no_new d (others d)) -> follows b (on_db (activate others gid expected oid)).
Proof.
  intros Ho [g d]. unfold on_db, activate. cbn [fst snd].
  destruct (_required_from_manifest gid d) as [[|r rs]|e]; [done| |done].
  destruct (activate_transaction _ gid expected oid (others d)) as [d'|e] eqn:Ea; cbn [fst snd map_err].
  - trans (g, others d); [by apply no_new_steps|]. apply rtc_once, pub_db; [by eapply step_activate|].
    apply activate_transaction_ok in Ea as [_ ->]. intros k. apply activated_none.
  - by apply no_new_steps.
Qed.

Lemma activate_prepared_steps b others p :
  (forall d, rtc no_new d (others d)) -> follows b (activate_prepared others p).
Proof.
  intros Ho. unfold activate_prepared.
  destruct (prep_noop p), (prep_candidate p) as [cand|], (prep_release p) as [oid|];
    try by apply (keeps_pure (rtc (pub_step b))).
  apply (keeps_bind (rtc (pub_step b))); [apply from_db_follows|]. intros current.
  apply (keeps_bind (rtc (pub_step b))); [apply from_db_follows|]. intros gstate.
  destruct (_ && _).
  - apply (keeps_bind (rtc (pub_step b))); [apply post_publish_follows|].
    intros _. by apply (keeps_pure (rtc (pub_step b))).
  - apply (keeps_bind (rtc (pub_step b))); [by apply activate_steps|]. intros _.
    apply (keeps_bind (rtc (pub_step b))); [apply post_publish_follows|].
    intros _. by apply (keeps_pure (rtc (pub_step b))).
Qed.

Lemma attempt_steps b r new src revokes expected binding n s :
  keyring_ok (gb_keyring b) -> nfc (gb_key_id b) = gb_key_id b ->
  Forall valid_claim new -> fair b r -> pub_inv b s ->
  rtc (pub_step b) s (attempt b r new src revokes expected binding n s).1.
Proof.
  intros Hk Hn Hnew [Hb Hin] Hi. unfold attempt.
  apply (keeps_at_bind (rtc (pub_step b))); [by apply prepare_steps|]. intros s1 p _.
  apply (keeps_at_bind (rtc (pub_step b))); [apply Hb|]. intros s2 [] _.
  by apply activate_prepared_steps.
Qed.

Lemma publish_loop_steps fuel b races new src revokes max_retries expected binding n s :
  keyring_ok (gb_keyring b) -> nfc (gb_key_id b) = gb_key_id b ->
  Forall valid_claim new -> (forall i, fair b (races i)) -> pub_inv b s ->
  rtc (pub_step b) s (publish_loop fuel b races new src revokes max_retries expected binding n s).1.
Proof.
  intros Hk Hn Hnew Hf. revert n s; induction fuel as [|fuel IH]; intros n s Hi; cbn [publish_loop].
  all: pose proof (attempt_steps b (races n) new src revokes expected binding n s Hk Hn Hnew (Hf n) Hi) as Ha.
  all: destruct (attempt b (races n) new src revokes expected binding n s) as [s1 [r|e]]; cbn [fst] in Ha |- *; [done|].
  all: destruct (is_conflict e && negb (strict expected || (max_retries <=? n)%nat)); [|done].
  - done.
  - etrans; [exact Ha|]. apply IH. by eapply pub_steps_inv.
Qed.

(** ** What the activation reads back from the registered manifest *)

Fixpoint raw_items (l : list pyval) : option (list json) :=
  match l with [] => Some [] | x :: l => y ← raw_json x; ys ← raw_items l; Some (y :: ys) end.
Fixpoint raw_entries (kvs : list (pykey * pyval)) : option (list (string * json)) :=
  match kvs with
  | [] => Some []
  | (KStr k, x) :: kvs => y ← raw_json x; ys ← raw_entries kvs; Some ((k, y) :: ys)
  | (KOther, _) :: _ => None
  end.

Lemma raw_list l : raw_json (PList l) = JArr <$> raw_items l.
Proof. cbn [raw_json]. f_equal. Qed.
Lemma raw_dict kvs : raw_json (PDict kvs) = JObj <$> raw_entries kvs.
Proof. cbn [raw_json]. f_equal. Qed.

Lemma raw_json_total v j : normalize v = Ok j -> is_Some (raw_json v).
Proof.
  revert j; induction v as [|x|z| |s|l IH|l IH|kvs IH|kvs IH|] using pyval_rect_nested; intros j Hj;
    try discriminate Hj; try (by eexists; reflexivity).
  - change (is_Some (JArr <$> raw_items l)). rewrite normalize_list in Hj. apply bind_ok in Hj as (js & Hjs & _).
    apply fmap_is_Some. revert js Hjs. induction IH as [|v l Hv _ IHl]; intros js Hjs; [by exists []|].
    cbn [normalize_items] in Hjs. apply bind_ok in Hjs as (y & Hy & Hjs). apply bind_ok in Hjs as (ys & Hys & _).
    cbn [raw_items]. destruct (Hv _ Hy) as [x ->]. destruct (IHl _ Hys) as [xs ->]. by exists (x :: xs).
  - change (is_Some (JArr <$> raw_items l)). rewrite normalize_tuple in Hj. apply bind_ok in Hj as (js & Hjs & _).
    apply fmap_is_Some. revert js Hjs. induction IH as [|v l Hv _ IHl]; intros js Hjs; [by exists []|].
    cbn [normalize_items] in Hjs. apply bind_ok in Hjs as (y & Hy & Hjs). apply bind_ok in Hjs as (ys & Hys & _).
    cbn [raw_items]. destruct (Hv _ Hy) as [x ->]. destruct (IHl _ Hys) as [xs ->]. by exists (x :: xs).
  - change (is_Some (JObj <$> raw_entries kvs)). apply normalize_dict_ok in Hj as (ms & Hms & _).
    apply fmap_is_Some. induction Hms as [|[k v] [mk y] kvs ms (k' & Ek & _ & Hv) _ IHl]; [by exists []|].
    apply Forall_cons_iff in IH as [IH1 IH2]. cbn in Ek, Hv; subst k. cbn [raw_entries].
    destruct (IH1 _ Hv) as [x Ex]. cbn [snd] in Ex. rewrite Ex. destruct (IHl IH2) as [xs ->]. by exists ((k', x) :: xs).
Qed.

Lemma raw_record fields ms k v :
  raw_json (py_record fields) = Some (JObj ms) -> assoc k fields = Some v ->
  exists j, assoc k ms = Some j /\ raw_json v = Some j.
Proof.
  unfold py_record. rewrite raw_dict. intros (ms' & Hm & [= ->])%fmap_Some. revert ms' Hm.
  induction fields as [|[k0 v0] fields IH]; intros ms' Hm; [done|]. cbn [map fst snd raw_entries] in Hm.
  destruct (raw_json v0) as [y|] eqn:Ey; [|done]. cbn [mbind option_bind] in Hm.
  destruct (raw_entries _) as [ys|]; [|done]. injection Hm as <-. cbn [assoc].
  destruct (String.eqb k k0); [|by apply IH]. intros [= <-]. by exists y.
Qed.

Lemma raw_record_obj fields j : raw_json (py_record fields) = Some j -> exists ms, j = JObj ms.
Proof. unfold py_record. rewrite raw_dict. intros (ms & _ & ->)%fmap_Some. by exists ms. Qed.

Lemma required_of_manifest b accepted (g : G) cand (B : built b accepted g cand) d row :
  generation d !! cand_generation_id cand = Some row -> manifest_json row = raw_json (cand_manifest cand) ->
  _required_from_manifest (cand_generation_id cand) d =
    Ok [("wiki_files", JStr (cand_wiki_files_root cand)); ("citation_index", JStr (cand_citation_index_digest cand))].
Proof.
  destruct B as [ci sn sg mb ob p sr ro bi H1 H2 H3 H4 H5 H6 H7 H8 H9 H10 H11]. intros Hrow Hm.
  apply canonical_bytes_ok in H10 as (jm & Hj & _). destruct (raw_json_total _ _ Hj) as [m Em].
  unfold _required_from_manifest. rewrite Hrow. cbn [mbind option_bind]. rewrite Hm, Em.
  rewrite H9 in Em. destruct (raw_record_obj _ _ Em) as [ms ->].
  destruct (raw_record _ _ "descriptor" (cand_descriptor cand) Em eq_refl) as (jd & Ad & Ed).
  cbn [json_get]. rewrite Ad. cbn [default id from_option mbind result_bind].
  rewrite H6 in Ed. destruct (raw_record_obj _ _ Ed) as [ds ->].
  destruct (raw_record _ _ "inline_artifacts" (inline_artifacts (cand_wiki_files_root cand) (sha256_hex ci) (sha256_hex sn))
    Ed eq_refl) as (ji & Ai & Ei).
  cbn [json_get]. rewrite Ai. cbn [default id from_option mbind result_bind].
  cbn in Ei. injection Ei as <-. cbn. by rewrite H4.
Qed.

(** ** The read models written after the activation *)

Definition put_all {A V} `{Countable K} (key : A -> K) (val : A -> V) (l : list A) (m : gmap K V) : gmap K V :=
  foldl (fun m x => <[key x := val x]> m) m l.

Lemma put_all_other {A V} `{Countable K} (key : A -> K) (val : A -> V) l m k :
  k ∉ map key l -> put_all key val l m !! k = m !! k.
Proof.
  unfold put_all. revert m; induction l as [|x l IH]; intros m Hk; [done|]. cbn [map] in Hk.
  apply not_elem_of_cons in Hk as [Hx Hk]. cbn [foldl]. rewrite IH by done. by apply lookup_insert_ne.
Qed.

Lemma put_all_in {A V} `{Countable K} (key : A -> K) (val : A -> V) l m k :
  k ∈ map key l -> exists x, x ∈ l /\ key x = k /\ put_all key val l m !! k = Some (val x).
Proof.
  unfold put_all. revert m; induction l as [|x l IH]; intros m Hk; [by apply elem_of_nil in Hk|]. cbn [foldl].
  destruct (decide (k ∈ map key l)) as [Hin|Hn].
  - destruct (IH (<[key x:=val x]> m) Hin) as (y & Hy & Ey & E1). exists y. split; [by right | done].
  - cbn [map] in Hk. apply elem_of_cons in Hk as [->|]; [|done]. exists x. split; [left|]. split; [done|].
    pose proof (put_all_other key val l (<[key x:=val x]> m) (key x) Hn) as E1. unfold put_all in E1.
    rewrite E1. apply lookup_insert_eq.
Qed.

Lemma set_resolution_id d : set_resolution id d = d.
Proof. by destruct d. Qed.
Lemma set_search_index_id d : set_search_index id d = d.
Proof. by destruct d. Qed.

Lemma record_all {A} gid (f : A -> string) x l (s : G * db) row :
  generation s.2 !! gid = Some row ->
  st_iter (fun c => on_db (record_resolution gid (f c) x)) l s =
    ((s.1, set_resolution (put_all (fun c => (gid, f c)) (fun _ => x) l) s.2), Ok tt).
Proof.
  revert s; induction l as [|c l IH]; intros [g d] Hrow; cbn [fst snd] in *.
  - change (put_all _ _ []) with (@id (gmap (string * string) string)). by rewrite set_resolution_id.
  - cbn [st_iter]. unfold mbind, st_bind, on_db, record_resolution. cbn [fst snd]. rewrite Hrow. cbn [map_err].
    by rewrite IH.
Qed.

Lemma index_all gid l d row :
  generation d !! gid = Some row ->
  build_search_index gid l d =
    (set_search_index (put_all (fun e => (gid, e.1.1.1)) (fun e => (e.1.1.2, e.1.2, e.2)) l) d, Ok tt).
Proof.
  unfold build_search_index. revert d; induction l as [|[[[c sb] p] o] l IH]; intros d Hrow.
  - change (put_all _ _ []) with (@id (gmap (string * string) (string * string * string))). by rewrite set_search_index_id.
  - cbn [st_iter]. unfold mbind, st_bind. rewrite Hrow. by rewrite IH.
Qed.

Lemma search_entries_elem l e :
  e ∈ search_entries l -> exists c, c ∈ l /\ e = (cid c, subject_id (identity c), predicate_id (identity c), obj (identity c)).
Proof.
  unfold search_entries. generalize (@nil string) as seen. induction l as [|c l IH]; intros seen He; [by apply elem_of_nil in He|].
  cbn [entries_from] in He. destruct (str_mem (claim_id (identity c)) seen).
  - apply IH in He as (x & ? & ?). exists x. split; [by right | done].
  - apply elem_of_cons in He as [->|He]; [exists c; split; [left | done]|].
    apply IH in He as (x & ? & ?). exists x. split; [by right | done].
Qed.

Lemma search_entries_complete l c : c ∈ l -> cid c ∈ map (fun e => e.1.1.1) (search_entries l).
Proof.
  intros Hc. unfold search_entries.
  assert (H1 : forall seen, cid c ∉ seen -> cid c ∈ map (fun e => e.1.1.1) (entries_from seen l)); [|apply H1, not_elem_of_nil].
  induction l as [|x l IH]; intros seen Hs; [by apply elem_of_nil in Hc|]. cbn [entries_from].
  destruct (str_mem (claim_id (identity x)) seen) eqn:Ex.
  - apply IH; [|done]. apply elem_of_cons in Hc as [->|]; [|done].
    apply str_mem_spec in Ex. by destruct Hs.
  - cbn [map fst]. destruct (decide (cid c = cid x)) as [Heq|Hne]; [rewrite Heq; left|]. right. apply IH.
    + by apply elem_of_cons in Hc as [->|].
    + by apply not_elem_of_cons.
Qed.

Lemma add_assertions_all gid ids d :
  (forall i, i ∈ ids -> (gid, i) ∈ generation_assertion (add_generation_assertions gid ids d)) /\
  claim_resolution (add_generation_assertions gid ids d) = claim_resolution d /\
  search_index (add_generation_assertions gid ids d) = search_index d /\
  publication (add_generation_assertions gid ids d) = publication d.
Proof.
  unfold add_generation_assertions. set (step := fun d aid => _).
  assert (Hmono : forall ids d, generation_assertion d ⊆ generation_assertion (foldl step d ids)).
  { induction ids0 as [|i ids0 IH]; intros d0; [done|]. cbn [foldl]. etrans; [|apply IH]. cbn. set_solver. }
  revert d; induction ids as [|i ids IH]; intros d; [split; [by intros ? ?%elem_of_nil | done]|]. cbn [foldl].
  destruct (IH (step d i)) as (H1 & H2 & H3 & H4). split; [|by rewrite H2, H3, H4].
  intros j [->|Hj]%elem_of_cons; [|by apply H1]. apply (Hmono ids). cbn. set_solver.
Qed.

(** What the read models of a generation show. *)
Record materialized (gid : string) (surviving : list CompiledClaim) (revokes : list string) (d : db) : Prop := {
  mt_pointer : current_search_pointer d = Some gid;
  mt_accepted : forall c, c ∈ surviving -> cid c ∉ revokes -> resolution_state gid (cid c) d = Some "accepted";
  mt_retracted : forall r, r ∈ revokes -> resolution_state gid r d = Some "retracted";
  mt_assertions : forall c, c ∈ surviving -> (gid, aid c) ∈ generation_assertion d;
  mt_index : forall c, c ∈ surviving -> exists c', c' ∈ surviving /\ cid c' = cid c /\
    search_index d !! (gid, cid c) =
      Some (subject_id (identity c'), predicate_id (identity c'), obj (identity c'));
}.

Lemma post_publish_ok gid surviving revokes (s : G * db) row :
  generation s.2 !! gid = Some row ->
  exists d', _post_publish gid surviving revokes s = ((s.1, d'), Ok tt) /\
    generation d' = generation s.2 /\ current_pointer d' = current_pointer s.2 /\
    current_release_oid d' = current_release_oid s.2 /\ materialized gid surviving revokes d'.
Proof.
  destruct s as [g d]. cbn [fst snd]. intros Hrow. unfold _post_publish.
  set (ids := map (fun c => assertion_id (assertion c)) surviving).
  destruct (add_assertions_all gid ids d) as (A1 & A2 & A3 & A4).
  destruct (add_assertions_core gid ids d) as (C1 & C2 & _ & _).
  set (d1 := add_generation_assertions gid ids d) in *.
  assert (Hrow1 : generation d1 !! gid = Some row) by by rewrite C1.
  unfold mbind, st_bind, db_do. cbn [fst snd]. fold d1.
  rewrite (record_all gid (fun c => claim_id (identity c)) "accepted" surviving (g, d1) row Hrow1). cbn [fst snd].
  rewrite (record_all gid (fun x => x) "retracted" revokes _ row) by done. cbn [fst snd].
  unfold on_db. cbn [fst snd]. erewrite index_all by exact Hrow1. cbn [fst snd map_err].
  eexists. split; [reflexivity|]. cbn. split; [exact C1|]. split; [exact C2|].
  split; [unfold current_release_oid; cbn; by rewrite A4|].
  split; unfold resolution_state; cbn.
  - done.
  - intros c Hc Hr. rewrite put_all_other.
    + destruct (put_all_in (fun c => (gid, claim_id (identity c))) (fun _ => "accepted") surviving (claim_resolution d1) (gid, cid c))
        as (x & _ & _ & ->); [|done]. apply list_elem_of_fmap. by exists c.
    + intros (r & [= E1] & Hin)%list_elem_of_fmap. by rewrite E1 in Hr.
  - intros r Hr. destruct (put_all_in (fun x => (gid, x)) (fun _ => "retracted") revokes
      (put_all (fun c => (gid, claim_id (identity c))) (fun _ => "accepted") surviving (claim_resolution d1)) (gid, r))
      as (x & _ & _ & ->); [|done]. apply list_elem_of_fmap. by exists r.
  - intros c Hc. apply A1. apply list_elem_of_fmap. by exists c.
  - intros c Hc. destruct (put_all_in (fun e : string * string * string * string => (gid, e.1.1.1))
      (fun e => (e.1.1.2, e.1.2, e.2)) (search_entries surviving) (search_index d1) (gid, cid c)) as (e & He & Ek & ->).
    + pose proof (search_entries_complete _ _ Hc) as (e & -> & He)%list_elem_of_fmap.
      apply list_elem_of_fmap. by exists e.
    + apply search_entries_elem in He as (c' & Hc' & ->). cbn in Ek |- *. injection Ek as Ek. by exists c'.
Qed.

(** ** What a preparation leaves *)

Lemma upserts_ok cs (s s' : G * db) :
  st_iter (E:=pub_error) (fun c => db_do (upsert_claim_and_assertion c)) cs s = (s', Ok tt) ->
  s'.1 = s.1 /\ generation s'.2 = generation s.2 /\ publication s'.2 = publication s.2.
Proof.
  revert s; induction cs as [|c cs IH]; intros s; [by intros [= <-]|]. cbn [st_iter]. unfold mbind, st_bind, db_do.
  intros Hs. apply IH in Hs as (E1 & E2 & E3). done.
Qed.

Lemma release_ok b cand previous (s s' : G * db) oid :
  _build_release_commit b cand previous s = (s', Ok oid) -> s'.2 = s.2 /\ later s.1 s'.1 /\ oid <> "".
Proof.
  intros Hr. pose proof (release_follows b cand previous s) as Hf. rewrite Hr in Hf. apply steps_later in Hf.
  unfold _build_release_commit in Hr. cbv zeta in Hr.
  apply st_bind_ok in Hr as (? & ? & [-> _]%st_lift_ok & Hr).
  apply st_bind_ok in Hr as (? & ? & [-> _]%st_lift_ok & Hr).
  apply st_bind_ok in Hr as (? & ? & [-> _]%st_lift_ok & Hr).
  apply st_bind_ok in Hr as (s1 & tree & Ht & Hr). apply on_git_ok in Ht as [Ht E1].
  apply write_tree_ok in Ht.
  apply st_bind_ok in Hr as (s2 & c & Hc & Hr). apply on_git_ok in Hc as [Hc E2].
  apply st_bind_ok in Hr as (s3 & [] & Ha & Hr). apply on_git_ok in Ha as [_ E3]. injection Hr as <- <-.
  split; [congruence|]. split; [exact Hf|].
  destruct (commit_tree_law tree ("release " +:+ cand_generation_id cand) (Some (cand_commit_oid cand)) s1.1 _ Ht)
    as (g' & c' & E' & _ & _ & Hne & _). rewrite Hc in E'. by injection E' as _ ->.
Qed.

Lemma mark_ok gid model dg (s s' : G * db) :
  on_db (mark_read_model gid model dg) s = (s', Ok tt) ->
  s' = (s.1, set_read_models <[(gid, model) := ("ready", dg)]> s.2).
Proof.
  intros Hm. apply on_db_ok in Hm as [Hm E1]. unfold mark_read_model in Hm.
  destruct (generation s.2 !! gid); [|done]. injection Hm as Hm. destruct s' as [g' d']. cbn in *. by subst.
Qed.

Definition registered_row b (parent : option string) cand mhash oid : GenerationRow -> Prop := fun row =>
  parent_generation_id row = parent /\ candidate_commit_oid row = cand_commit_oid cand /\
  manifest_hash row = mhash /\ manifest_json row = raw_json (cand_manifest cand) /\
  release_commit_oid row = Some oid /\ state row = "read_models_ready".

(** A candidate prepared on top of [pc], ready to be activated in [s']. *)
Record prepared b (binding : option pyval) (s s' : G * db) (p : PreparedPublication) (cand : CandidateResult)
    (oid : string) : Prop := {
  pr_noop : prep_noop p = false;
  pr_candidate : prep_candidate p = Some cand;
  pr_release : prep_release p = Some oid;
  pr_oid : oid <> "";
  pr_built : exists B : built b (prep_surviving p) s'.1 cand, bt_binding _ _ _ _ B = binding;
  pr_row : generation s.2 !! cand_generation_id cand = None -> exists row mhash,
    generation s'.2 !! cand_generation_id cand = Some row /\ registered_row b (prep_parent p) cand mhash oid row;
  pr_wiki : read_model_status s'.2 !! (cand_generation_id cand, "wiki_files") = Some ("ready", cand_wiki_files_root cand);
  pr_citation : read_model_status s'.2 !! (cand_generation_id cand, "citation_index") =
                  Some ("ready", cand_citation_index_digest cand);
}.

Lemma prepare_ok b new src revokes expected binding n (s s' : G * db) p :
  keyring_ok (gb_keyring b) -> nfc (gb_key_id b) = gb_key_id b -> Forall valid_claim new -> pub_inv b s ->
  prepare b new src revokes expected binding n s = (s', Ok p) ->
  exists pc, parent_content s (current_pointer s.2) pc /\ prep_parent p = current_pointer s.2 /\
    match expected with ANY_PARENT => True | Parent q => q = current_pointer s.2 end /\
    prep_surviving p = survivors pc new revokes /\ prep_revoked p = sorted_set revokes /\
    prep_attempts p = n /\ publication s'.2 = publication s.2 /\
    ((prep_noop p = true /\ id_set (prep_surviving p) = id_set pc) \/
     (id_set (prep_surviving p) <> id_set pc /\ exists cand oid, prepared b binding s s' p cand oid)).
Proof.
  intros Hk Hn Hnew Hi Hp. unfold prepare in Hp. cbv zeta in Hp.
  apply st_bind_ok in Hp as (? & parent & Hpar & Hp). apply from_db_ok in Hpar as [-> Hpar].
  apply st_bind_ok in Hp as (? & [] & [-> Hexp%ensure_ok]%st_lift_ok & Hp).
  apply st_bind_ok in Hp as (s1 & [] & Hu & Hp).
  pose proof (upserts_steps b new s) as Hs1. rewrite Hu in Hs1. cbn in Hs1. apply upserts_ok in Hu as (U1 & U2 & U3).
  pose proof (pub_steps_inv _ _ _ Hs1 Hi) as Hi1.
  apply st_bind_ok in Hp as (? & pc & Hpc & Hp).
  apply (parent_claims_ok _ _ _ _ _ Hk Hn Hi1) in Hpc as [-> Hpc].
  assert (Hpc' : parent_content s parent pc).
  { destruct parent as [q|]; [|done]. cbn in Hpc |- *. by rewrite U1, U2 in Hpc. }
  rewrite Hpar in Hpc'. exists pc. split; [exact Hpc'|].
  assert (Hq : match expected with ANY_PARENT => True | Parent q => q = current_pointer s.2 end).
  { destruct expected as [|q]; [done|]. apply bool_decide_eq_true in Hexp. congruence. }
  destruct (bool_decide_reflect (id_set (survivors pc new revokes) = id_set pc)) as [Hid|Hid].
  { injection Hp as <- <-. cbn. do 5 (split; [done|]). split; [done|]. by left. }
  apply st_bind_ok in Hp as (? & root0 & [-> _]%st_lift_ok & Hp).
  apply st_bind_ok in Hp as (? & root & [-> _]%st_lift_ok & Hp).
  apply st_bind_ok in Hp as (s2 & previous & Hprev & Hp).
  assert (s2 = s1) as -> by (destruct (truthy parent); [by apply from_db_ok in Hprev as [-> _] | by injection Hprev]).
  apply st_bind_ok in Hp as (s3 & cand & Hb & Hp). apply on_git_ok in Hb as [Hb E3].
  apply build_candidate_built in Hb as (_ & _ & _ & _ & B & _ & _ & _ & HB).
  apply st_bind_ok in Hp as (s4 & oid & Hrel & Hp). apply release_ok in Hrel as (E4 & Hl4 & Hoid).
  destruct (built_later _ _ _ _ _ B Hl4) as [B' HB']. rewrite HB in HB'.
  apply st_bind_ok in Hp as (? & mhash & [-> _]%st_lift_ok & Hp).
  apply st_bind_ok in Hp as (s5 & [] & Hreg & Hp). injection Hreg as <-.
  apply st_bind_ok in Hp as (s6 & [] & ->%mark_ok & Hp).
  apply st_bind_ok in Hp as (s7 & [] & ->%mark_ok & Hp).
  apply st_bind_ok in Hp as (s8 & [] & Hready & Hp). injection Hready as <-. injection Hp as <- <-.
  cbn [fst snd prep_parent prep_surviving prep_revoked prep_attempts prep_noop].
  do 2 (split; [done|]). do 3 (split; [done|]). split; [cbn; rewrite E4, E3; exact U3|]. right.
  split; [done|]. exists cand, oid.
  split; cbn [fst snd prep_noop prep_candidate prep_release prep_surviving prep_parent]; try done; [by exists B'|..].
  - intros Hfresh. cbn. rewrite lookup_alter_eq, E4, E3, U2. unfold insert_or_ignore. rewrite Hfresh, lookup_insert_eq.
    eexists _, mhash. split; [reflexivity|]. by repeat split.
  - cbn. rewrite lookup_insert_ne by done. apply lookup_insert_eq.
  - cbn. apply lookup_insert_eq.
Qed.

Lemma survivors_sorted pc new revokes : sort_on aid (survivors pc new revokes) = survivors pc new revokes.
Proof. unfold survivors. apply sort_on_idem. Qed.

(** ** Which claims survive *)

Definition last_of (l : list CompiledClaim) (c : CompiledClaim) : Prop :=
  exists l1 l2, l = (l1 ++ c :: l2)%list /\ aid c ∉ map aid l2.

Lemma fold_elem l m c :
  keyed m ->
  (aid c, c) ∈ foldl add_claim m l <-> last_of l c \/ (aid c ∉ map aid l /\ (aid c, c) ∈ m).
Proof.
  revert m; induction l as [|x l IH]; intros m Hm; cbn [foldl map].
  - split; [intros H1; right; split; [apply not_elem_of_nil | done]|].
    intros [(l1 & l2 & E1 & _)|[_ H1]]; [by destruct l1 | done].
  - rewrite IH by by apply add_claim_keyed. rewrite not_elem_of_cons. unfold last_of. split.
    + intros [(l1 & l2 & -> & Hn)|[Hn Hin]]; [left; by exists (x :: l1), l2|].
      unfold add_claim in Hin. destruct (decide (aid c = aid x)) as [Ea|Ea].
      * left. exists [], l. split; [|done]. cbn. f_equal.
        assert (N : NoDup (add_claim m x).*1) by by apply add_claim_keyed.
        apply (elem_assoc _ _ _ N) in Hin. rewrite Ea in Hin. unfold add_claim, aid in Hin.
        rewrite assoc_set_eq in Hin. congruence.
      * right. split; [done|]. apply assoc_set_elem in Hin as [[? _]|Hin]; [done | exact Hin].
    + intros [(l1 & l2 & E1 & Hn)|[[Hx Hn] Hin]].
      * destruct l1 as [|y l1]; injection E1 as -> ->; [|left; by exists l1, l2]. right. split; [done|].
        apply assoc_Some_elem, assoc_set_eq.
      * right. split; [done|]. assert (N : NoDup m.*1) by apply Hm. apply (elem_assoc _ _ _ N) in Hin.
        apply assoc_Some_elem. unfold add_claim. rewrite assoc_set_ne; [done|]. unfold aid in *. congruence.
Qed.

(** A claim survives if it is not revoked and is the last new one of its assertion, or a
    parent's claim whose assertion no new claim has. *)
Lemma survivors_elem pc new revokes c :
  NoDup (map aid pc) ->
  c ∈ survivors pc new revokes <->
  cid c ∉ revokes /\ (last_of new c \/ (aid c ∉ map aid new /\ c ∈ pc)).
Proof.
  intros Hnd. unfold survivors. rewrite sort_on_perm_self, list_elem_of_In, filter_In, <- list_elem_of_In.
  assert (Hr : negb (str_mem (claim_id (identity c)) revokes) = true <-> cid c ∉ revokes).
  { rewrite negb_true_iff, <- not_true_iff_false, str_mem_spec. done. }
  rewrite Hr. pose proof (overlay_keyed pc new) as Hk.
  assert (Ho : c ∈ map snd (overlay pc new) <-> (aid c, c) ∈ overlay pc new).
  { rewrite list_elem_of_fmap. split; [|intros Hin; by exists (aid c, c)].
    intros ([k x] & -> & Hin). cbn. by rewrite (ky_key _ Hk _ _ Hin). }
  rewrite Ho. unfold overlay. assert (K0 : keyed []) by (split; [constructor | by intros ? ? ?%elem_of_nil]).
  change (foldl (fun m c => assoc_set (assertion_id (assertion c)) c m)) with (foldl add_claim).
  rewrite (fold_elem new) by by apply fold_keyed. rewrite (fold_elem pc) by done.
  assert (Hpc : last_of pc c \/ (aid c ∉ map aid pc /\ (aid c, c) ∈ []) <-> c ∈ pc).
  { split.
    - intros [(l1 & l2 & -> & _)|[_ Hin%elem_of_nil]]; [|done]. apply elem_of_app. right. left.
    - intros (l1 & l2 & ->)%list_elem_of_split. left. exists l1, l2. split; [done|].
      rewrite map_app in Hnd. apply list.NoDup_app in Hnd as (_ & _ & Hn). by apply list.NoDup_cons in Hn as [? _]. }
  rewrite Hpc. tauto.
Qed.
End Protocol.

(** ** The pointer moves only by activation *)
Section Pointer.
Context {U : Unicode} {D : Digest} {L : UnicodeCase} {R : JsonReader} {E : Ed25519}.
Context {G : Type} `{GitLaws G}.
Implicit Types b : GenerationBuilder.

Definition same_pointer (s s' : G * db) : Prop := current_pointer s'.2 = current_pointer s.2.

#[export] Instance same_pointer_preorder : PreOrder same_pointer.
Proof. split; [done|]. intros a c d H1 H2. unfold same_pointer in *. congruence. Qed.

Notation still := (keeps same_pointer).

Lemma on_git_still {E0 A} (f : E0 -> pub_error) (m : st G E0 A) : still (on_git f m).
Proof. intros s. unfold on_git, same_pointer. by destruct (m s.1). Qed.

Lemma lift_still {A} (r : result pub_error A) : still (st_lift r).
Proof. by intros s. Qed.

Lemma core_still {A} (m : st db db_error A) : (forall d, same_core d (m d).1) -> still (on_db m).
Proof. intros Hm s. unfold on_db, same_pointer. specialize (Hm s.2). destruct (m s.2). apply Hm. Qed.

Lemma record_resolution_still gid cid x : still (on_db (record_resolution gid cid x)).
Proof. apply core_still. intros d. unfold record_resolution. by destruct (generation d !! gid). Qed.

Lemma mark_still gid model dg : still (on_db (mark_read_model gid model dg)).
Proof. apply core_still. intros d. unfold mark_read_model. by destruct (generation d !! gid). Qed.

Lemma post_publish_still gid surviving revokes : still (_post_publish gid surviving revokes).
Proof.
  unfold _post_publish. apply (keeps_bind same_pointer); [|intros _].
  { intros s. unfold same_pointer. cbn. apply add_assertions_core. }
  apply (keeps_bind same_pointer); [apply (keeps_iter same_pointer); intros; apply record_resolution_still|intros _].
  apply (keeps_bind same_pointer); [apply (keeps_iter same_pointer); intros; apply record_resolution_still|intros _].
  apply (keeps_bind same_pointer); [apply core_still; intros d; apply build_search_index_core|intros _].
  by intros s.
Qed.

Lemma release_still b cand previous : still (_build_release_commit b cand previous).
Proof.
  unfold _build_release_commit. cbv zeta.
  do 3 (apply (keeps_bind same_pointer); [apply lift_still | intros ?]).
  do 3 (apply (keeps_bind same_pointer); [apply on_git_still | intros ?]). by intros s.
Qed.

Lemma prepare_still b new src revokes expected binding n : still (prepare b new src revokes expected binding n).
Proof.
  unfold prepare. cbv zeta. apply (keeps_bind same_pointer); [by intros s|intros parent].
  apply (keeps_bind same_pointer); [apply lift_still|intros _].
  apply (keeps_bind same_pointer); [apply (keeps_iter same_pointer); by intros c s|intros _].
  apply (keeps_bind same_pointer); [intros s; by rewrite parent_claims_state|intros pc].
  case_bool_decide; [by intros s|].
  do 2 (apply (keeps_bind same_pointer); [apply lift_still | intros ?]).
  apply (keeps_bind same_pointer); [by destruct (truthy parent); intros s|intros previous].
  apply (keeps_bind same_pointer); [apply on_git_still|intros cand].
  apply (keeps_bind same_pointer); [apply release_still|intros oid].
  apply (keeps_bind same_pointer); [apply lift_still|intros mhash].
  apply (keeps_bind same_pointer); [by intros s|intros _].
  do 2 (apply (keeps_bind same_pointer); [apply mark_still | intros _]).
  by intros s.
Qed.

(** An undisturbed activation leaves the pointer or moves it to its candidate. *)
Lemma activate_prepared_pointer p (s s' : G * db) r :
  activate_prepared id p s = (s', r) ->
  (same_pointer s s' /\
     forall x, r = Ok x -> res_generation_id x = None \/ res_generation_id x = current_pointer s'.2) \/
  exists cand x, prep_candidate p = Some cand /\ prep_noop p = false /\
     current_pointer s'.2 = Some (cand_generation_id cand) /\ r = Ok x /\
     res_generation_id x = Some (cand_generation_id cand) /\ is_Some (generation s'.2 !! cand_generation_id cand).
Proof.
  unfold activate_prepared. destruct (prep_noop p), (prep_candidate p) as [cand|], (prep_release p) as [oid|];
    try (intros [= <- <-]; left; split; [reflexivity | by intros x [= <-]; left]).
  unfold mbind, st_bind, from_db, st_gets.
  set (post := _post_publish _ _ _). assert (Hp : still post) by apply post_publish_still.
  destruct (_ && _) eqn:Ec.
  - apply andb_true_iff in Ec as [Ec%bool_decide_eq_true _]. specialize (Hp s). unfold same_pointer in Hp.
    destruct (post s) as [s1 [[]|e]]; intros [= <- <-]; left; (split; [exact Hp|]); intros x [= <-]; right.
    cbn [res_generation_id fst] in *. congruence.
  - unfold on_db, activate. destruct (_required_from_manifest _ s.2) as [[|q rs]|e];
      try (intros [= <- <-]; left; split; [reflexivity | done]). cbn [id].
    destruct (activate_transaction _ _ _ _ s.2) as [d'|e] eqn:Ea; cbn [map_err];
      [|intros [= <- <-]; left; split; [reflexivity | done]].
    apply activate_transaction_ok in Ea as [Ha ->]. destruct (activated_exists _ _ _ _ _ Ha) as (row & Hrow & _).
    assert (is_Some (generation (activated (cand_generation_id cand) oid s.2) !! cand_generation_id cand)) as [row2 Hrow2].
    { cbn. rewrite activated_rows_lookup, Hrow. by eexists. }
    destruct (post_publish_ok _ (prep_surviving p) (prep_revoked p)
      (s.1, activated (cand_generation_id cand) oid s.2) row2 Hrow2) as (d' & Ep & Eg & Ecur & _).
    subst post. rewrite Ep. intros [= <- <-]. right. eexists cand, _. split; [done|]. split; [done|].
    cbn [fst snd] in *. split; [by rewrite Ecur|]. split; [done|]. split; [done|]. rewrite Eg. by exists row2.
Qed.
End Pointer.

(** ** Properties *)
Section PublishProperties.
Context {U : Unicode} {D : Digest} {L : UnicodeCase} {R : JsonReader} {E : Ed25519}.
Context {G : Type} `{GitLaws G}.
Implicit Types b : GenerationBuilder.

Lemma prepared_activates b binding (s s1 : G * db) p cand oid row mhash :
  prepared b binding s s1 p cand oid -> generation s1.2 !! cand_generation_id cand = Some row ->
  registered_row b (prep_parent p) cand mhash oid row -> current_pointer s1.2 = prep_parent p ->
  exists s2, activate_prepared id p s1 =
      (s2, Ok {| res_generation_id := Some (cand_generation_id cand);
                 res_candidate_commit_oid := Some (cand_commit_oid cand);
                 res_release_commit_oid := Some oid; res_attempts := prep_attempts p; res_noop := false |}) /\
    s2.1 = s1.1 /\ current_pointer s2.2 = Some (cand_generation_id cand) /\
    current_release_oid s2.2 = Some oid /\
    materialized (cand_generation_id cand) (prep_surviving p) (prep_revoked p) s2.2.
Proof.
  intros [P1 P2 P3 P4 [B _] _ P6 P7] Hrow (R1 & R2 & R3 & R4 & R5 & R6) Hcur.
  set (gid := cand_generation_id cand) in *.
  assert (Hact : activatable [("wiki_files", JStr (cand_wiki_files_root cand));
            ("citation_index", JStr (cand_citation_index_digest cand))] gid (prep_parent p) oid s1.2).
  { split; try done.
    - unfold generation_state. rewrite Hrow. cbn. by rewrite R6.
    - by rewrite Hrow.
    - intros m v Hin. rewrite !elem_of_cons, elem_of_nil in Hin.
      destruct Hin as [[= -> ->]|[[= -> ->]|[]]]; by eexists. }
  assert (Htx := proj2 (activate_transaction_ok _ gid (prep_parent p) oid s1.2 _) (conj Hact eq_refl)).
  assert (Hrow2 : is_Some (generation (activated gid oid s1.2) !! gid)).
  { cbn. rewrite activated_rows_lookup, Hrow. by eexists. }
  destruct Hrow2 as [row2 Hrow2].
  destruct (post_publish_ok gid (prep_surviving p) (prep_revoked p) (s1.1, activated gid oid s1.2) row2 Hrow2)
    as (d' & Epost & _ & Ecur & Erel & Hmat).
  exists (s1.1, d'). cbn [fst snd] in *. split; [|split; [done|split; [by rewrite Ecur | split; [by rewrite Erel | done]]]].
  unfold activate_prepared. rewrite P1, P2, P3. fold gid. unfold mbind, st_bind, from_db, st_gets.
  assert (bool_decide (current_pointer s1.2 = Some gid) && bool_decide (generation_state gid s1.2 = Some "published") = false) as ->.
  { unfold generation_state. rewrite Hrow. cbn [fmap option_fmap option_map]. rewrite R6.
    rewrite (bool_decide_eq_false_2 (Some "read_models_ready" = _)) by done. apply andb_false_r. }
  pose proof (required_of_manifest _ _ _ _ B _ _ Hrow R4) as Hreq. fold gid in Hreq.
  unfold on_db, activate. cbn [fst snd]. rewrite Hreq. cbn [id]. rewrite Htx.
  cbn [fst snd map_err]. by rewrite Epost.
Qed.

(** C1: a prepared publication is activated, and publishes the parent's knowledge updated by
    the new claims.  Starting from a state of the protocol, with valid new claims and a
    generation that is not registered yet: preparation leaves the pointer where it was; if
    nobody interferes, activation succeeds; then the pointer, the release and the search
    pointer are those of the new generation, its read models show its claims, and its commit
    verifies (or the bytes hashed for the claims' identifiers collide) and holds exactly the
    claims that were not revoked, each assertion with its last new claim or else with the parent's. *)
Theorem publication_updates_knowledge b new src revokes expected binding n (s s1 : G * db) p :
  keyring_ok (gb_keyring b) -> nfc (gb_key_id b) = gb_key_id b -> Forall valid_claim new -> pub_inv b s ->
  prepare b new src revokes expected binding n s = (s1, Ok p) -> prep_noop p = false ->
  (forall cand, prep_candidate p = Some cand -> generation s.2 !! cand_generation_id cand = None) ->
  exists cand oid pc s2 r claims,
    current_pointer s1.2 = current_pointer s.2 /\
    activate_prepared id p s1 = (s2, Ok r) /\ res_generation_id r = Some (cand_generation_id cand) /\
    current_pointer s2.2 = Some (cand_generation_id cand) /\ current_release_oid s2.2 = Some oid /\
    (verify_manifest b s2.1 (cand_commit_oid cand) (cand_generation_id cand) = Ok true \/ collision (claim_preimages claims)) /\
    parent_content s (current_pointer s.2) pc /\
    snapshot_claims s2.1 (cand_commit_oid cand) = Ok (map canon_claim claims) /\
    materialized (cand_generation_id cand) claims (sorted_set revokes) s2.2 /\
    forall c, c ∈ claims <-> cid c ∉ revokes /\ (last_of new c \/ (aid c ∉ map aid new /\ c ∈ pc)).
Proof.
  intros Hk Hn Hnew Hi Hp Hno Hfresh.
  destruct (prepare_ok _ _ _ _ _ _ _ _ _ _ Hk Hn Hnew Hi Hp)
    as (pc & Hpc & Epar & _ & Esur & Erev & _ & Epub & [[Hx _]|(_ & cand & oid & Hprep)]); [congruence|].
  destruct (pr_row _ _ _ _ _ _ _ Hprep (Hfresh _ (pr_candidate _ _ _ _ _ _ _ Hprep))) as (row & mhash & Hrow & Hreg).
  assert (Hcur : current_pointer s1.2 = prep_parent p).
  { rewrite Epar. unfold current_pointer. by rewrite Epub. }
  destruct (prepared_activates _ _ _ _ _ _ _ _ _ Hprep Hrow Hreg Hcur) as (s2 & Eact & Eg & Ep & Er & Hmat).
  destruct (pr_built _ _ _ _ _ _ _ Hprep) as [B _].
  assert (Hset : claim_set (prep_surviving p)).
  { rewrite Esur. apply survivors_set; [by eapply parent_claims_valid | done]. }
  pose proof (built_verifies b _ s1.1 cand B Hset Hk Hn) as Hv. rewrite <- Eg in Hv.
  exists cand, oid, pc, s2, {| res_generation_id := Some (cand_generation_id cand);
    res_candidate_commit_oid := Some (cand_commit_oid cand); res_release_commit_oid := Some oid;
    res_attempts := prep_attempts p; res_noop := false |}, (prep_surviving p).
  split; [congruence|]. do 4 (split; [done|]). split; [exact Hv|]. split; [done|]. split; [|split; [by rewrite <- Erev|]].
  - rewrite Eg, (built_snapshot _ _ _ _ B Hset). by rewrite Esur, survivors_sorted.
  - intros c. rewrite Esur. apply survivors_elem. destruct (current_pointer s.2); cbn in Hpc.
    + destruct Hpc as (? & _ & _ & Hc). apply Hc.
    + subst. constructor.
Qed.

(** The rounds of the loop: attempts that lost a race, in a row. *)
Inductive rounds b races new src revokes expected binding : nat -> G * db -> nat -> G * db -> Prop :=
| rounds_none n s : rounds b races new src revokes expected binding n s n s
| rounds_lost n s s1 n' s' :
    attempt b (races n) new src revokes expected binding n s = (s1, Err (PubDb CASConflict)) ->
    rounds b races new src revokes expected binding (S n) s1 n' s' ->
    rounds b races new src revokes expected binding n s n' s'.

Lemma is_conflict_eq e : is_conflict e = true -> e = PubDb CASConflict.
Proof. by destruct e as [[]| | | | | |]. Qed.

Lemma publish_loop_spec fuel b races new src revokes max_retries expected binding n (s s' : G * db) r :
  fuel + n = S max_retries ->
  publish_loop fuel b races new src revokes max_retries expected binding n s = (s', r) ->
  exists n' sn r', rounds b races new src revokes expected binding n s n' sn /\ n <= n' <= Nat.max n max_retries /\
    attempt b (races n') new src revokes expected binding n' sn = (s', r') /\ r = map_err Raised r' /\
    (r' = Err (PubDb CASConflict) -> strict expected = false -> n' = Nat.max n max_retries) /\
    (strict expected = true -> n' = n).
Proof.
  revert n s; induction fuel as [|fuel IH]; intros n s Hf Hr; cbn [publish_loop] in Hr;
    destruct (attempt b (races n) new src revokes expected binding n s) as [s1 [x|e]] eqn:Ea.
  1, 3: injection Hr as <- <-; exists n, s, (Ok x); repeat split; try done; [apply rounds_none | lia].
  - assert (Hmax : (max_retries <=? n)%nat = true) by (apply Nat.leb_le; lia). rewrite Hmax, orb_true_r, andb_false_r in Hr.
    injection Hr as <- <-. exists n, s, (Err e). repeat split; try done; [apply rounds_none | lia | intros; lia].
  - destruct (is_conflict e && negb (strict expected || (max_retries <=? n)%nat)) eqn:Ec.
    + apply andb_true_iff in Ec as [Ec%is_conflict_eq Es]. subst e.
      apply negb_true_iff, orb_false_iff in Es as [Es El]. apply Nat.leb_gt in El.
      destruct (IH (S n) s1) as (n' & sn & r' & Hro & Hn & Hat & Er & Hc & _); [lia | exact Hr|].
      exists n', sn, r'. repeat split; try done; [by eapply rounds_lost | lia | lia | intros; rewrite Hc by done; lia | congruence].
    + injection Hr as <- <-. exists n, s, (Err e). repeat split; try done; [apply rounds_none | lia|].
      intros [= ->] Hs. cbn [is_conflict andb] in Ec. rewrite Hs in Ec. apply negb_false_iff, Nat.leb_le in Ec. lia.
Qed.

(** C3: publishing under contention is safe and bounded.  Whatever other publishers do -
    between the preparation and the activation of each attempt and inside the window the
    activation leaves open - as long as they follow the protocol: [publish] makes between 1
    and [max_retries] attempts (one if a parent was expected), all but the last of which
    lost a race; a conflict is reported only when that bound is exhausted; and whatever the
    outcome, the state still satisfies the invariant: every registered generation is the
    commit of a candidate built from valid claims, which [verify_manifest] accepts (or the
    bytes hashed for the identifiers of the claims in its snapshot collide), and the
    publication pointer names the one published generation. *)
Theorem publish_contention_safe b races new src revokes max_retries expected binding (s s' : G * db) r :
  keyring_ok (gb_keyring b) -> nfc (gb_key_id b) = gb_key_id b -> Forall valid_claim new ->
  (forall i, fair b (races i)) -> pub_inv b s ->
  publish b races new src revokes max_retries expected binding s = (s', r) ->
  rtc (pub_step b) s s' /\ pub_inv b s' /\
  (forall gid row, generation s'.2 !! gid = Some row ->
     exists claims, snapshot_claims s'.1 (candidate_commit_oid row) = Ok claims /\
       (verify_manifest b s'.1 (candidate_commit_oid row) gid = Ok true \/ collision (claim_preimages claims))) /\
  exists n sn r', rounds b races new src revokes expected binding 1 s n sn /\ 1 <= n <= Nat.max 1 max_retries /\
    attempt b (races n) new src revokes expected binding n sn = (s', r') /\ r = map_err Raised r' /\
    (r' = Err (PubDb CASConflict) -> strict expected = false -> n = Nat.max 1 max_retries) /\
    (strict expected = true -> n = 1).
Proof.
  intros Hk Hn Hnew Hf Hi Hp. unfold publish in Hp.
  pose proof (publish_loop_steps max_retries b races new src revokes max_retries expected binding 1 s Hk Hn Hnew Hf Hi) as Hs.
  rewrite Hp in Hs. cbn [fst] in Hs. pose proof (pub_steps_inv _ _ _ Hs Hi) as Hi'.
  split; [done|]. split; [done|]. split.
  - intros gid row Hrow. destruct (sound_row_verifies b s'.1 gid row Hk Hn) as (claims & _ & ? & ?); [by apply Hi'|].
    by exists claims.
  - apply (publish_loop_spec max_retries); [lia | done].
Qed.
End PublishProperties.

(** ** Evaluations: the two claims of Generation.v, published into an empty wiki *)

Definition empty_state : mem_repo * db := (empty_repo, SCHEMA).

Lemma empty_inv : pub_inv (U := unicode_sample) (D := pad_digest) (L := case_sample) (E := toy_ed25519)
  sample_builder empty_state.
Proof. split; [exact SCHEMA_ok|]. intros gid row Hr. cbn in Hr. by rewrite lookup_empty in Hr. Qed.

Definition sample_prepare : mem_repo * db * result pub_error PreparedPublication :=
  prepare (U := unicode_sample) (D := pad_digest) (L := case_sample) (R := canonical_reader) (E := toy_ed25519)
    sample_builder made_claims "src" [] ANY_PARENT None 1 empty_state.

Definition no_publication : PreparedPublication :=
  {| prep_parent := None; prep_candidate := None; prep_release := None; prep_surviving := [];
     prep_revoked := []; prep_attempts := 0; prep_noop := true |}.
Definition sample_prepared : PreparedPublication :=
  match snd sample_prepare with Ok p => p | Err _ => no_publication end.

Lemma sample_prepare_ok :
  prepare (U := unicode_sample) (D := pad_digest) (L := case_sample) (R := canonical_reader) (E := toy_ed25519)
    sample_builder made_claims "src" [] ANY_PARENT None 1 empty_state = (fst sample_prepare, Ok sample_prepared).
Proof.
  assert (H : is_ok (snd sample_prepare) = true) by (vm_compute; reflexivity).
  unfold sample_prepared. fold sample_prepare. destruct sample_prepare as [g [c|e]]; [done | discriminate H].
Qed.

Lemma sample_prepared_noop : prep_noop sample_prepared = false.
Proof. vm_compute. reflexivity. Qed.

Lemma publication_updates_knowledge_witness :
  exists s2 r, activate_prepared id sample_prepared (fst sample_prepare) = (s2, Ok r).
Proof.
  destruct (publication_updates_knowledge (U := unicode_sample) (D := pad_digest) (L := case_sample)
    (R := canonical_reader) (E := toy_ed25519) sample_builder made_claims "src" [] ANY_PARENT None 1
    empty_state (fst sample_prepare) sample_prepared toy_keyring_ok eq_refl (cs_valid _ made_claims_ok) empty_inv
    sample_prepare_ok sample_prepared_noop) as (cand & oid & pc & s2 & r & claims & _ & Ha & _).
  - intros cand _. cbn. apply lookup_empty.
  - exists s2, r. exact Ha.
Defined.

Definition calm : race (G := mem_repo) := {| between := id; inside := id |}.

Lemma calm_fair : fair (U := unicode_sample) (D := pad_digest) (L := case_sample) (E := toy_ed25519) sample_builder calm.
Proof. split; intros; apply rtc_refl. Qed.

Definition sample_publish : mem_repo * db * result loop_error PublishResult :=
  publish (U := unicode_sample) (D := pad_digest) (L := case_sample) (R := canonical_reader) (E := toy_ed25519)
    sample_builder (fun _ => calm) made_claims "src" [] 3 ANY_PARENT None empty_state.

(** The publication succeeds at the first attempt; publishing the same claims again is a no-op. *)
Definition publish_again : result loop_error PublishResult :=
  snd (publish (U := unicode_sample) (D := pad_digest) (L := case_sample) (R := canonical_reader) (E := toy_ed25519)
    sample_builder (fun _ => calm) made_claims "src" [] 3 ANY_PARENT None (fst sample_publish)).
Definition outcome (r : result loop_error PublishResult) : option (nat * bool) :=
  match r with Ok x => Some (res_attempts x, res_noop x) | Err _ => None end.

Example publish_sample : outcome (snd sample_publish) = Some (1, false) /\ outcome publish_again = Some (1, true).
Proof. vm_compute. split; reflexivity. Qed.

Lemma publish_contention_safe_witness :
  pub_inv (U := unicode_sample) (D := pad_digest) (L := case_sample) (E := toy_ed25519)
    sample_builder (fst sample_publish).
Proof.
  exact (proj1 (proj2 (publish_contention_safe (U := unicode_sample) (D := pad_digest) (L := case_sample)
    (R := canonical_reader) (E := toy_ed25519) sample_builder (fun _ => calm) made_claims "src" [] 3 ANY_PARENT None
    empty_state (fst sample_publish) (snd sample_publish) toy_keyring_ok eq_refl (cs_valid _ made_claims_ok)
    (fun _ => calm_fair) empty_inv (surjective_pairing sample_publish)))).
Defined.
