(* ===== verification/Workspace.v ===== *)
(** * The workspace: ingest, publication and search wired together (workspace.py)

    The state is the repository, the control-plane database and the ingest service.  A
    workspace works under the publisher lease: it takes the lease, runs, and releases it on
    every way out.  Opening the directories and drawing the keys is not modelled. *)
From stdpp Require Import relations.
From S2P Require Import Prelude Digest Json Canonical Hashing Text Models Llm Claims Cas Ingest ControlPlane Search Signing Git Assembler Generation Publish.
Open Scope string_scope.

Definition LEASE_TTL : Z := 30.

Inductive ws_error : Type := WsLease | WsIngest (e : ingest_error) | WsPublish (e : loop_error).

Record IngestPublishResult : Type := {
  ip_source_id : string;
  ip_new_claims : nat;
  ip_revokes : nat;
  ip_publish : PublishResult;
  ip_quarantined : bool;
}.

Definition noop_result : PublishResult :=
  {| res_generation_id := None; res_candidate_commit_oid := None; res_release_commit_oid := None;
     res_attempts := 0; res_noop := true |}.

Section Workspace.
Context {U : Unicode} {D : Digest} {L : UnicodeCase} {R : JsonReader} {E : Ed25519}.
Context {G : Type} `{GitRepo G} {X : Type} `{!Extractor X}.
Variables (b : GenerationBuilder) (holder : string) (max_generation_lag : Z).

Record Workspace : Type := { repo : G; cp : db; ingest : IngestService X }.

Definition on_service {A} (m : st (IngestService X) ingest_error A) : st Workspace ws_error A := fun s =>
  let '(i, r) := m (ingest s) in ({| repo := repo s; cp := cp s; ingest := i |}, map_err WsIngest r).
Definition on_pub {A} (m : st (G * db) loop_error A) : st Workspace ws_error A := fun s =>
  let '((g, d), r) := m (repo s, cp s) in ({| repo := g; cp := d; ingest := ingest s |}, map_err WsPublish r).
Definition set_cp (d : db) (s : Workspace) : Workspace := {| repo := repo s; cp := d; ingest := ingest s |}.

(** [acquire_lease], and [release_lease] in the [finally]. *)
Definition with_lease {A} (now : Z) (body : st Workspace ws_error A) : st Workspace ws_error A := fun s =>
  let '(d, token) := acquire_lease holder now LEASE_TTL (cp s) in
  match token with
  | None => (set_cp d s, Err WsLease)
  | Some _ => let '(s', r) := body (set_cp d s) in (set_cp (release_lease holder (cp s')) s', r)
  end.

Definition ingest_body (races : nat -> race) (raw : string) : st Workspace ws_error IngestPublishResult :=
  r ← on_service (receive raw);
  c ← on_service (compile (rr_source_id r));
  if bool_decide (cr_revokes c <> [])
  then mret {| ip_source_id := rr_source_id r; ip_new_claims := length (cr_claims c); ip_revokes := length (cr_revokes c);
               ip_publish := noop_result; ip_quarantined := true |}
  else
    res ← on_pub (publish b races (cr_claims c) (rr_content_hash r) [] 3 ANY_PARENT None);
    mret {| ip_source_id := rr_source_id r; ip_new_claims := length (cr_claims c); ip_revokes := 0;
            ip_publish := res; ip_quarantined := false |}.

(** [ingest_and_publish] of a file's bytes at time [now]. *)
Definition ingest_and_publish races (now : Z) (raw : string) : st Workspace ws_error IngestPublishResult :=
  with_lease now (ingest_body races raw).

Definition admin_revoke races (now : Z) (claim_ids : list string) (reason : string) : st Workspace ws_error PublishResult :=
  with_lease now (on_pub (publish b races [] ("admin:" +:+ reason) claim_ids 3 ANY_PARENT None)).

(** [Workspace.query] *)
Definition ws_query (term : string) (s : Workspace) : SearchResponse := query max_generation_lag term (cp s).
End Workspace.
Arguments Workspace G X : clear implicits.

(** ** The mock extractor's claims can be published *)
Section MockValid.
Context {U : Unicode} {NL : NfcLaws} {D : Digest}.

Lemma hash_text s : nfc_text (sha256_hex s).
Proof. apply nfc_ascii, hex_ascii. Qed.

Lemma hashed_text v h : canonical_hash v = Ok h -> nfc_text h.
Proof. intros (j & _ & ->)%canonical_hash_ok. apply hash_text. Qed.

Lemma from_nfc s x : nfc s = s -> from_text (chars s) x -> nfc_text x.
Proof using NL. intros Hs (l & (a & c & Hl) & ->). by eapply nfc_part. Qed.

Lemma str_of_nat_ascii n : is_ascii (str_of_nat n) = true.
Proof.
  assert (H : forall t, str_forall is_digit t = true -> is_ascii t = true).
  { induction t as [|c t IH]; [done|]. unfold is_ascii in *. cbn [str_forall]. intros [Hc Ht]%andb_true_iff.
    rewrite (IH Ht), andb_true_r. unfold is_digit, digit_of in Hc.
    destruct ((48 <=? N_of_ascii c) && (N_of_ascii c <=? 57))%N eqn:Eb; [|done].
    apply andb_true_iff in Eb as [_ Eb%N.leb_le]. apply N.ltb_lt. lia. }
  apply H. unfold str_of_nat, str_of_N. pose proof (to_uint_nonnil (N.of_nat n)) as Hn.
  destruct (N.to_uint (N.of_nat n)); [done | apply string_of_uint_digits ..].
Qed.

Lemma listed_ascii (l : list string) x : forallb is_ascii l = true -> x ∈ l -> nfc_text x.
Proof. rewrite forallb_forall. intros Hl Hx%list_elem_of_In. by apply nfc_ascii, Hl. Qed.

(** A grounded claim whose identity is made of texts in NFC can be published. *)
Lemma grounded_texts_valid t sid rep span c :
  is_ascii sid = true -> is_ascii rep = true -> grounded t sid rep span c ->
  nfc_text (subject_id (identity c)) -> nfc_text (predicate_id (identity c)) -> nfc_text (obj (identity c)) ->
  str_mem (polarity (identity c)) ["positive"; "negative"] = true -> dict_ok (scope (identity c)) -> valid_claim c.
Proof.
  intros Hsid Hrep [_ He Hi Ha Hc Hsrc Hids Hm] M1 M2 M3 M4 M5.
  destruct Hi as (s0 & p & o & pol & scp & Hi). unfold create_identity in Hi. apply bind_ok in Hi as (h & Hh & Hi).
  injection Hi as Hi. pose proof (compute_claim_id_ok _ _ _ _ _ _ Hh) as (_ & _ & Eh & _).
  assert (Hid : nfc_text (claim_id (identity c))) by (rewrite <- Hi; cbn [claim_id]; rewrite Eh; apply hash_text).
  assert (Hev : nfc_text (evidence_id (evidence c))) by (rewrite He; apply hash_text).
  split.
  - rewrite Hids, Hsrc, Hc. apply hashed_text in Ha.
    rewrite He in *. cbn [span_evidence source_object_hash Models.representation_hash quote_hash evidence_id] in *.
    repeat (apply list.Forall_cons; split); try done; try (by apply nfc_ascii); try apply hash_text.
    + eapply (listed_ascii ["positive"; "negative"]); [done|]. by apply str_mem_spec.
    + by apply (listed_ascii _MODALITY).
  - done.
  - rewrite He. cbn [span_evidence locators]. constructor; [|constructor]. split.
    { change (NoDup ["type"; "offset_unit"; "start"; "end"]). by apply (bool_decide_unpack _). }
    unfold text_span. repeat (apply list.Forall_cons; split); try done; split; apply nfc_ascii; try reflexivity; apply str_of_nat_ascii.
  - by rewrite <- Hi.
  - done.
  - rewrite Hids. cbn. by rewrite String.eqb_refl.
Qed.

Lemma grounded_valid s sid rep span c :
  nfc s = s -> is_ascii sid = true -> is_ascii rep = true ->
  grounded (chars s) sid rep span c -> made_of (chars s) (identity c) -> valid_claim c.
Proof using NL.
  intros Hs Hsid Hrep Hg [M1 M2 M3 M4 M5 M6]. apply (grounded_texts_valid (chars s) sid rep span c Hsid Hrep Hg); try done;
    try by apply (from_nfc s _ Hs).
  split; [done|]. eapply list.Forall_impl; [exact M6|]. intros kv [? ?]. split; by apply (from_nfc s _ Hs).
Qed.
End MockValid.

(** An extractor whose claims can be published: they are valid on a text in NFC. *)
Class PublishableExtractor (X : Type) {U : Unicode} {D : Digest} `{!Extractor X} : Prop :=
  extract_valid : forall s source_id representation_hash (x x' : X) r,
    nfc s = s -> is_ascii source_id = true -> is_ascii representation_hash = true ->
    extract s source_id representation_hash x = (x', Ok r) -> Forall valid_claim (claims r).

#[export] Instance mock_publishable {U : Unicode} {NL : NfcLaws} {D : Digest} : PublishableExtractor unit.
Proof.
  intros s sid rep x x' r Hs Hsid Hrep [= <- Hr].
  destruct (lines_grounded (chars s) sid rep (splitlines (chars s)) [] r) as (spans & Hg & _);
    [by rewrite splitlines_concat | exact Hr|].
  apply mock_made_of in Hr. induction Hg as [|span c spans cs Hc _ IH]; [constructor|].
  apply list.Forall_cons in Hr as [Hm Hr]. constructor; [exact (grounded_valid s sid rep span c Hs Hsid Hrep Hc Hm) | by apply IH].
Qed.

(** ** Lemmas *)
Section WorkspaceLemmas.
Context {U : Unicode} {NL : NfcLaws} {D : Digest} {L : UnicodeCase} {R : JsonReader} {E : Ed25519}.
Context {G : Type} `{GitLaws G} {X : Type} `{!Extractor X} {PE : PublishableExtractor X}.
Variables (b : GenerationBuilder) (holder : string).
Hypothesis Hkeys : keyring_ok (gb_keyring b).
Hypothesis Hkey_id : nfc (gb_key_id b) = gb_key_id b.
Implicit Types s : Workspace G X.

(** The publication state is sound and the ingest service in order. *)
Definition ws_ok s : Prop := pub_inv b (repo s, cp s) /\ service_ok (ingest s).

(** What a call may do: publisher steps on the one side, service calls on the other. *)
Definition ws_later s s' : Prop := rtc (pub_step b) (repo s, cp s) (repo s', cp s') /\ Ingest.later (ingest s) (ingest s').

#[export] Instance ws_later_preorder : PreOrder ws_later.
Proof.
  split; [intros s; split; reflexivity|]. intros s s1 s2 [H1 H2] [H3 H4].
  split; by etrans.
Qed.

(** A call that keeps the workspace sound and moves it forward. *)
Definition sound {A} (m : st (Workspace G X) ws_error A) : Prop :=
  forall s, ws_ok s -> ws_ok (m s).1 /\ ws_later s (m s).1.

Lemma ws_later_ok s s' : ws_ok s -> service_ok (ingest s') -> rtc (pub_step b) (repo s, cp s) (repo s', cp s') -> ws_ok s'.
Proof. intros [Hp _] Hs Hr. split; [by eapply pub_steps_inv|done]. Qed.

Lemma sound_bind {A B} (m : st (Workspace G X) ws_error A) (f : A -> st (Workspace G X) ws_error B) :
  sound m -> (forall s s1 a, ws_ok s -> m s = (s1, Ok a) -> ws_ok (f a s1).1 /\ ws_later s1 (f a s1).1) -> sound (m ≫= f).
Proof.
  intros Hm Hf s Hs. destruct (Hm s Hs) as [Hs1 Hl1]. specialize (Hf s). unfold mbind, st_bind.
  destruct (m s) as [s1 [a|e]]; [|done]. destruct (Hf s1 a Hs eq_refl) as [Hs2 Hl2]. split; [done|]. by etrans.
Qed.

Lemma on_service_sound {A} (m : st (IngestService X) ingest_error A) :
  (forall i, service_ok i -> service_ok (m i).1 /\ Ingest.later i (m i).1) -> sound (on_service m).
Proof.
  intros Hm s [Hp Hs]. destruct (Hm _ Hs) as [Hs1 Hl]. unfold on_service. destruct (m (ingest s)) as [i r].
  split; [by split|]. split; [reflexivity|done].
Qed.

Lemma on_pub_sound {A} (m : st (G * db) loop_error A) :
  (forall p, pub_inv b p -> rtc (pub_step b) p (m p).1) -> sound (on_pub m).
Proof.
  intros Hm s [Hp Hs]. specialize (Hm _ Hp). unfold on_pub. destruct (m (repo s, cp s)) as [[g d] r]. cbn [fst] in *.
  split; [split; [by eapply pub_steps_inv|done]|]. split; [done|reflexivity].
Qed.

Lemma set_cp_sound (f : db -> db) s :
  (forall d, db_step d (f d)) -> (forall d gid, generation d !! gid = None -> generation (f d) !! gid = None) ->
  ws_ok s -> ws_ok (set_cp (f (cp s)) s) /\ ws_later s (set_cp (f (cp s)) s).
Proof.
  intros Hd Hn [Hp Hs]. assert (Hstep : rtc (pub_step b) (repo s, cp s) (repo s, f (cp s))).
  { apply rtc_once, pub_db; [done|]. intros gid. apply Hn. }
  split; [split; [by eapply pub_steps_inv|done]|]. split; [exact Hstep|reflexivity].
Qed.

Lemma with_lease_sound {A} now (m : st (Workspace G X) ws_error A) : sound m -> sound (with_lease holder now m).
Proof.
  intros Hm s Hs. unfold with_lease.
  destruct (set_cp_sound (fun d => (acquire_lease holder now LEASE_TTL d).1) s) as [Ha Hla]; [intros; apply step_acquire| |done|].
  { intros d gid. unfold acquire_lease. repeat case_match; done. }
  destruct (acquire_lease holder now LEASE_TTL (cp s)) as [d [t|]]; cbn [fst] in *; [|by split].
  destruct (Hm _ Ha) as [H1 Hl1]. destruct (m (set_cp d s)) as [s1 r]. cbn [fst] in *.
  destruct (set_cp_sound (release_lease holder) s1) as [H2 Hl2]; [intros; apply step_release| |done|].
  { intros d' gid. unfold release_lease. by case_bool_decide. }
  split; [done|]. etrans; [exact Hla|]. by etrans.
Qed.

Lemma publish_sound races new src revokes :
  (forall i, fair b (races i)) -> Forall valid_claim new ->
  sound (on_pub (publish b races new src revokes 3 ANY_PARENT None)).
Proof using Hkeys Hkey_id.
  intros Hf Hv. apply on_pub_sound. intros p Hp. unfold publish. by apply publish_loop_steps.
Qed.

Lemma compile_valid sid (i i' : IngestService X) r :
  service_ok i -> is_ascii sid = true -> compile sid i = (i', Ok r) -> Forall valid_claim (cr_claims r).
Proof using NL PE.
  intros Hi Ha Hc. destruct (compile_extracts _ _ _ _ Hi Hc) as (raw & x & x' & y & _ & _ & _ & _ & Ex & -> & _).
  eapply extract_valid; [apply nfc_line_ends|exact Ha|apply hex_ascii|exact Ex].
Qed.

Lemma compile_keeps2 sid (i : IngestService X) : service_ok i -> service_ok (compile sid i).1 /\ Ingest.later i (compile sid i).1.
Proof. intros Hi. destruct (compile_keeps sid i Hi) as (? & ? & _). done. Qed.

Lemma ingest_body_sound races raw : (forall i, fair b (races i)) -> sound (ingest_body b races raw).
Proof using NL PE Hkeys Hkey_id.
  intros Hf. unfold ingest_body. apply sound_bind; [apply on_service_sound; intros; by apply receive_keeps|].
  intros s s1 r Hs Hr. assert (Hs1 : ws_ok s1).
  { pose proof (on_service_sound (receive raw) (fun i Hi => receive_keeps raw i Hi) s Hs) as [H1 _]. by rewrite Hr in H1. }
  assert (Hsid : is_ascii (rr_source_id r) = true).
  { unfold on_service in Hr. destruct (receive raw (ingest s)) as [i [rr|e]] eqn:Er; [|discriminate Hr].
    injection Hr as _ <-. destruct Hs as [_ Hs]. destruct (received_stored _ _ _ _ Hs Er) as (_ & -> & _). apply hex_ascii. }
  refine (sound_bind _ _ _ _ s1 Hs1).
  { by apply on_service_sound, compile_keeps2. }
  clear s1 Hs1 Hr. intros s1 s2 c Hs1 Hc. assert (Hs2 : ws_ok s2).
  { destruct (on_service_sound _ (compile_keeps2 (rr_source_id r)) s1 Hs1) as [H1 _]. by rewrite Hc in H1. }
  assert (Hv : Forall valid_claim (cr_claims c)).
  { unfold on_service in Hc. destruct (compile (rr_source_id r) (ingest s1)) as [i [cr|e]] eqn:Ec; [|discriminate Hc].
    injection Hc as _ <-. destruct Hs1 as [_ Hs1]. by eapply compile_valid. }
  case_bool_decide; [by split; [|reflexivity]|]. refine (sound_bind _ _ _ _ s2 Hs2); [by apply publish_sound|].
  clear s2 Hs2 Hc. intros s2 s3 x Hs2 Hx. split; [|reflexivity].
  destruct (publish_sound races (cr_claims c) (rr_content_hash r) [] Hf Hv s2 Hs2) as [Hok _]. by rewrite Hx in Hok.
Qed.

(** One call to the workspace, while other publishers follow the protocol. *)
Inductive ws_step : Workspace G X -> Workspace G X -> Prop :=
| ws_ingest races now raw s : (forall i, fair b (races i)) -> ws_step s (ingest_and_publish b holder races now raw s).1
| ws_revoke races now ids reason s : (forall i, fair b (races i)) -> ws_step s (admin_revoke b holder races now ids reason s).1.

Lemma ws_step_sound s s' : ws_step s s' -> ws_ok s -> ws_ok s' /\ ws_later s s'.
Proof using NL PE Hkeys Hkey_id.
  destruct 1; intros Hs; apply with_lease_sound; try done; [by apply ingest_body_sound|].
  apply publish_sound; [done|constructor].
Qed.

Lemma ws_steps_sound s s' : rtc ws_step s s' -> ws_ok s -> ws_ok s' /\ ws_later s s'.
Proof using NL PE Hkeys Hkey_id.
  induction 1 as [s|s s1 s2 Hstep _ IH]; intros Hs; [by split|]. destruct (ws_step_sound _ _ Hstep Hs) as [Hs1 Hl].
  destruct (IH Hs1). split; [done|]. by etrans.
Qed.

Lemma with_lease_held {A} now (m : st (Workspace G X) ws_error A) s x :
  lease_holder now (cp s) = Some x -> x <> holder -> with_lease holder now m s = (s, Err WsLease).
Proof. intros Hl Hx. unfold with_lease. rewrite (acquire_held _ _ _ _ _ Hl Hx). by destruct s. Qed.

(** A call that is serialized by the lease: refused, changing nothing, while somebody else
    holds it, and otherwise leaving it released. *)
Definition lease_respected {A} (now : Z) (call : st (Workspace G X) ws_error A) s : Prop :=
  (forall other, lease_holder now (cp s) = Some other -> other <> holder -> call s = (s, Err WsLease)) /\
  ((forall other, lease_holder now (cp s) = Some other -> other = holder) ->
     ControlPlane.holder (publisher_lease (cp (call s).1)) <> Some holder).

Lemma with_lease_free {A} now (m : st (Workspace G X) ws_error A) s :
  (forall x, lease_holder now (cp s) = Some x -> x = holder) -> exists t,
  let s1 := set_cp (set_lease {| ControlPlane.holder := Some holder; expires_at := now + LEASE_TTL; fencing_token := t |} (cp s)) s in
  with_lease holder now m s = (set_cp (release_lease holder (cp (m s1).1)) (m s1).1, (m s1).2).
Proof.
  intros Hx. destruct (acquire_free holder now LEASE_TTL (cp s) Hx) as [t Ht]. exists t. unfold with_lease. rewrite Ht.
  cbn zeta. by destruct (m _).
Qed.

Lemma with_lease_respected {A} now (m : st (Workspace G X) ws_error A) s : lease_respected now (with_lease holder now m) s.
Proof.
  split; [intros other; apply with_lease_held|]. intros Hfree. destruct (with_lease_free now m s Hfree) as [t Ht].
  rewrite Ht. apply release_frees.
Qed.
End WorkspaceLemmas.

(** ** Properties *)
Section WorkspaceProperties.
Context {U : Unicode} {NL : NfcLaws} {D : Digest} {L : UnicodeCase} {R : JsonReader} {E : Ed25519}.
Context {G : Type} `{GitLaws G} {X : Type} `{!Extractor X} {PE : PublishableExtractor X}.
Implicit Types (b : GenerationBuilder) (s : Workspace G X).

(** C4: everything a workspace publishes is sound, when its extractor's claims can be
    published: those of the mock extractor always can, those of the model extractor when the
    model answers in NFC ([ModelWorkspace.model_publishable]).  Over any sequence of ingests
    of arbitrary bytes and of administrative revocations, while other publishers follow the
    protocol: the publication state keeps its invariant, every registered generation holds
    a snapshot of valid claims and verifies (or the bytes hashed for the claims' identifiers
    collide), the ingest service stays in order and its store only grows.  Both calls,
    ingest and revocation, respect the lease: made while somebody else holds a live lease
    they are refused and change nothing; otherwise they leave the lease released, whatever
    their outcome. *)
Theorem workspace_stays_sound b holder s s' :
  keyring_ok (gb_keyring b) -> nfc (gb_key_id b) = gb_key_id b -> ws_ok b s -> rtc (ws_step b holder) s s' ->
  ws_ok b s' /\ ws_later b s s' /\
  (forall gid row, generation (cp s') !! gid = Some row ->
     exists claims, claim_set claims /\ snapshot_claims (repo s') (candidate_commit_oid row) = Ok claims /\
       (verify_manifest b (repo s') (candidate_commit_oid row) gid = Ok true \/ collision (claim_preimages claims))) /\
  (forall races now raw, lease_respected holder now (ingest_and_publish b holder races now raw) s') /\
  (forall races now ids reason, lease_respected holder now (admin_revoke b holder races now ids reason) s').
Proof using NL PE.
  intros Hk Hn Hs Hsteps. destruct (ws_steps_sound b holder Hk Hn _ _ Hsteps Hs) as [Hs' Hl].
  split; [done|]. split; [done|]. split; [|split].
  - intros gid row Hrow. destruct Hs' as [[_ Hrows] _]. by apply (sound_row_verifies b (repo s') gid row Hk Hn), Hrows.
  - intros. apply with_lease_respected.
  - intros. apply with_lease_respected.
Qed.

(** C11: an untrusted source cannot retract knowledge.  When a source was ingested, either it
    proposed tombstones: then it is quarantined, nothing is published, the repository is
    untouched and the database is the one before, but for the lease; or it proposed none,
    and what ran is one publication of exactly its compiled claims that revokes nothing. *)
Theorem untrusted_source_cannot_revoke b holder races now raw s s' x :
  ingest_and_publish b holder races now raw s = (s', Ok x) ->
  exists t svc1 svc2 rr r,
    let leased := set_lease {| ControlPlane.holder := Some holder; expires_at := now + LEASE_TTL; fencing_token := t |} (cp s) in
    receive raw (ingest s) = (svc1, Ok rr) /\ compile (rr_source_id rr) svc1 = (svc2, Ok r) /\ ingest s' = svc2 /\
    ip_source_id x = rr_source_id rr /\ ip_new_claims x = length (cr_claims r) /\ ip_revokes x = length (cr_revokes r) /\
    (ip_quarantined x = true /\ cr_revokes r <> [] /\ repo s' = repo s /\ cp s' = release_lease holder leased /\
       ip_publish x = noop_result \/
     ip_quarantined x = false /\ cr_revokes r = [] /\ exists d,
       publish b races (cr_claims r) (rr_content_hash rr) [] 3 ANY_PARENT None (repo s, leased) = ((repo s', d), Ok (ip_publish x)) /\
       cp s' = release_lease holder d).
Proof.
  unfold ingest_and_publish. intros Hi.
  assert (Hfree : forall y, lease_holder now (cp s) = Some y -> y = holder).
  { intros y Hy. destruct (decide (y = holder)) as [|Hne]; [done|].
    rewrite (with_lease_held holder now _ s y Hy Hne) in Hi. discriminate Hi. }
  destruct (with_lease_free holder now (ingest_body b races raw) s Hfree) as [t Ht]. cbn zeta in Ht.
  rewrite Ht in Hi. injection Hi as <- Hx. clear Ht. exists t. cbn zeta.
  set (s1 := set_cp _ s) in *. destruct (ingest_body b races raw s1) as [s2 [y|e]] eqn:Eb; [|discriminate Hx].
  cbn [snd fst] in *. injection Hx as ->. unfold ingest_body in Eb.
  apply st_bind_ok in Eb as (s3 & rr & Hr & Eb). apply st_bind_ok in Eb as (s4 & r & Hc & Eb).
  unfold on_service in Hr, Hc. destruct (receive raw (ingest s1)) as [svc1 [rr'|e]] eqn:Er; [|discriminate Hr].
  injection Hr as <- ->. cbn [ingest] in Hc. destruct (compile (rr_source_id rr) svc1) as [svc2 [r'|e]] eqn:Ec; [|discriminate Hc].
  injection Hc as <- ->. exists svc1, svc2, rr, r. split; [exact Er|]. split; [exact Ec|].
  case_bool_decide as Hrev.
  - injection Eb as <- <-. do 4 (split; [done|]). by left.
  - apply st_bind_ok in Eb as (s5 & res & Hp & [= <- <-]).
    assert (Hnil : cr_revokes r = []) by (destruct (cr_revokes r); [done | by destruct Hrev]).
    rewrite Hnil. unfold on_pub in Hp. cbn [repo cp ingest] in *.
    match type of Hp with context [publish b races ?c ?h ?v ?m ?p ?o ?st] =>
      destruct (publish b races c h v m p o st) as [[g d] [res'|e]] eqn:Ep end; [|discriminate Hp].
    injection Hp as <- ->. do 4 (split; [done|]). right. split; [done|]. split; [done|]. exists d. done.
Qed.
End WorkspaceProperties.

(** ** Evaluations: one note ingested into an empty wiki *)

#[local] Instance sample_mock : Extractor unit := mock_extractor (U := no_cr_sample) (D := pad_digest).
#[local] Instance sample_nfc : NfcLaws (U := no_cr_sample).
Proof. by split. Qed.
#[local] Instance sample_publishable : PublishableExtractor unit (U := no_cr_sample) (D := pad_digest).
Proof. apply (mock_publishable (U := no_cr_sample) (D := pad_digest)). Qed.

Definition empty_workspace : Workspace mem_repo unit :=
  {| repo := empty_repo; cp := SCHEMA; ingest := new_service |}.

Definition sample_ingest (raw : string) (s : Workspace mem_repo unit) : Workspace mem_repo unit * result ws_error IngestPublishResult :=
  ingest_and_publish (U := no_cr_sample) (D := pad_digest) (L := case_sample) (R := canonical_reader) (E := toy_ed25519)
    sample_builder "cli" (fun _ => calm) 100 raw s.

Definition first_note : string := "pump | is | red | positive |".
Definition hostile_note : string := "pump | is | blue | positive |" +:+ LF +:+ "REVOKE | x".

Definition result_of (r : result ws_error IngestPublishResult) : option (nat * bool * bool) :=
  match r with Ok x => Some (ip_new_claims x, ip_quarantined x, res_noop (ip_publish x)) | Err _ => None end.

(** The note is published and found; the hostile note is quarantined. *)
Example workspace_sample :
  let s1 := sample_ingest first_note empty_workspace in
  let s2 := sample_ingest hostile_note s1.1 in
  result_of s1.2 = Some (1, false, false) /\ result_of s2.2 = Some (1, true, true) /\
  map hit_obj (hits (ws_query 0 "RED" s2.1)) = ["red"] /\ current_pointer (cp s2.1) = current_pointer (cp s1.1).
Proof. vm_compute. repeat split. Qed.

Lemma empty_workspace_ok :
  ws_ok (U := no_cr_sample) (D := pad_digest) (L := case_sample) (E := toy_ed25519) sample_builder empty_workspace.
Proof.
  split; [split; [exact SCHEMA_ok|]|exact new_service_ok]. intros gid row Hr. cbn in Hr. by rewrite lookup_empty in Hr.
Qed.

Lemma sample_fair (i : nat) : fair (U := no_cr_sample) (D := pad_digest) (L := case_sample) (E := toy_ed25519) sample_builder calm.
Proof. split; intros; apply rtc_refl. Qed.

Lemma workspace_stays_sound_witness :
  ws_ok (U := no_cr_sample) (D := pad_digest) (L := case_sample) (E := toy_ed25519) sample_builder
    (sample_ingest first_note empty_workspace).1.
Proof.
  apply (workspace_stays_sound (U := no_cr_sample) (D := pad_digest) (L := case_sample) (R := canonical_reader)
    (E := toy_ed25519) sample_builder "cli" empty_workspace); [exact toy_keyring_ok | reflexivity | exact empty_workspace_ok |].
  apply rtc_once. exact (ws_ingest _ _ (fun _ => calm) 100 first_note empty_workspace sample_fair).
Defined.

Lemma untrusted_source_cannot_revoke_witness :
  match (sample_ingest hostile_note empty_workspace).2 with
  | Ok x => repo (sample_ingest hostile_note empty_workspace).1 = empty_repo
  | Err _ => False
  end.
Proof.
  destruct (sample_ingest hostile_note empty_workspace) as [s' [x|e]] eqn:E; [|vm_compute in E; discriminate E]. cbn.
  destruct (untrusted_source_cannot_revoke (U := no_cr_sample) (D := pad_digest) (L := case_sample) (R := canonical_reader)
    (E := toy_ed25519) sample_builder "cli" (fun _ => calm) 100 hostile_note empty_workspace s' x E)
    as (t & svc1 & svc2 & rr & r & _ & _ & _ & _ & _ & _ & [(_ & _ & Hr & _)|(Hq & _)]); [exact Hr|].
  vm_compute in E. injection E as _ <-. discriminate Hq.
Defined.
