(* ===== verification/ModelWorkspace.v ===== *)
(** * A workspace with the model extractor (workspace.py, extraction.py)

    [Workspace(root, extractor=LLMExtractor(...))].  When the model answers in NFC its claims
    can be published, so that the properties of Workspace hold; an answer that is not in NFC
    is published and ends all publication after it. *)
From S2P Require Import Prelude Digest Json Canonical Hashing Text Models Llm Claims Verify Extraction Cas Ingest ControlPlane Search Signing Git.
From S2P Require Import Assembler Generation Publish Workspace.
Open Scope string_scope.

Section Model.
Context {U : Unicode} {NL : NfcLaws} {D : Digest} {L : UnicodeCase} {Wd : UnicodeWord} {P : PyRepr} {W : Type} `{LLMClient W}.

(** A proposal whose texts are in NFC. *)
Record proposal_nfc (raw : list (string * jval)) : Prop := {
  pn_subject : nfc_text (str_of (Llm.jget raw "subject" VNull));
  pn_predicate : nfc_text (str_of (Llm.jget raw "predicate" VNull));
  pn_object : nfc_text (str_of (Llm.jget raw "object" VNull));
  pn_scope : forall scp, scope_of raw = Ok scp -> Forall (fun kv => nfc_text kv.1 /\ nfc_text kv.2) scp;
}.

(** A model whose answers are in NFC. *)
Definition answers_nfc (config : LLMConfig) : Prop :=
  forall user (w w' : W) resp raw, complete_json (extraction_model_id config) EXTRACTION_SYSTEM user w = (w', Ok resp) ->
    VDict raw ∈ default [] (proposals resp) -> proposal_nfc raw.

Lemma scope_keys raw scp : scope_of raw = Ok scp -> NoDup scp.*1.
Proof.
  unfold scope_of. destruct (Llm.truthy _); [|intros [= <-]; constructor]. destruct (Llm.jget raw "scope" VNull) as [| | | | | |kvs]; try done.
  intros [= <-]. assert (Hn : NoDup (@nil (string * string)).*1) by constructor. revert Hn. generalize (@nil (string * string)).
  induction kvs as [|[k v] kvs IH]; intros d Hd; [done|]. cbn. by apply IH, assoc_set_NoDup.
Qed.

Lemma well_formed_polarity raw : _validate_claim raw = true -> str_mem (str_of (Llm.jget raw "polarity" VNull)) ["positive"; "negative"] = true.
Proof.
  unfold _validate_claim. intros [[_ Hp]%andb_true_iff _]%andb_true_iff. by destruct (Llm.jget raw "polarity" VNull).
Qed.

(** The claims of the model extractor can be published. *)
Lemma model_publishable config (checker : option (EntailmentChecker W)) : answers_nfc config ->
  PublishableExtractor (ExtractorState (W := W)) (Extractor0 := model_extractor config checker).
Proof using NL.
  intros Ha s sid rep x x' r Hs Hsid Hrep He.
  destruct (complete_json (extraction_model_id config) EXTRACTION_SYSTEM ("SOURCE:" +:+ LF +:+ nfc s) (world x)) as [w [resp|e]] eqn:Hresp.
  - destruct (llm_extract_judged _ _ _ _ _ _ _ _ _ _ Hresp He) as (_ & css & -> & Hj).
    apply list.Forall_forall. intros c Hc. destruct (judged_supported _ _ _ _ _ _ _ Hj Hc) as (raw & Hin & Hv & [Hg Hf] & _).
    destruct (Ha _ _ _ _ _ Hresp Hin) as [N1 N2 N3 N4]. destruct Hg as (i & j & q & Hg & _).
    destruct Hf as (E1 & E2 & E3 & E4 & E5).
    apply (grounded_texts_valid (chars (nfc s)) sid rep (i, j) c Hsid Hrep Hg); rewrite ?E1, ?E2, ?E3, ?E4; try done.
    + by apply well_formed_polarity.
    + split; [by eapply scope_keys | by apply N4].
  - unfold extract, model_extractor, llm_extract in He. apply st_bind_ok in He as (s1 & y & Hw & _).
    unfold in_world in Hw. rewrite Hresp in Hw. discriminate Hw.
Qed.
End Model.

(** ** Evaluations: a model that answers with one claim about the same thing *)

#[local] Instance model_sample : Extractor (ExtractorState (W := MockLLMClient)) :=
  model_extractor (U := unicode_sample) (D := pad_digest) (L := case_sample) (Wd := word_sample) (P := sample_repr) sample_config None.

Definition answer_about (subject : string) : jval :=
  VDict [("claims", VList [VDict [("subject", VStr subject); ("predicate", VStr "is"); ("object", VStr "red"); ("polarity", VStr "positive");
         ("evidence_quote", VStr "pump"); ("offset", VList [VInt 0; VInt 4])]])].

Definition model_client (subject : string) : MockLLMClient :=
  {| _responses := [("pump", answer_about subject)]; last_usage := []; _fail_times := 0; _fail_error := None; calls := 0 |}.

Definition model_workspace (subject : string) : Workspace mem_repo (ExtractorState (W := MockLLMClient)) :=
  {| repo := empty_repo; cp := SCHEMA;
     ingest := {| cas := empty_cas; _manifests := ∅; _representations := ∅;
                  extractor := {| world := model_client subject; last_structured_output_ok := true; last_layer_p_decisions := [] |} |} |}.

Definition model_ingest (raw : string) (s : Workspace mem_repo (ExtractorState (W := MockLLMClient))) :=
  ingest_and_publish (U := unicode_sample) (D := pad_digest) (L := case_sample) (R := canonical_reader) (E := toy_ed25519)
    sample_builder "cli" (fun _ => calm) 100 raw s.
Definition model_revoke (s : Workspace mem_repo (ExtractorState (W := MockLLMClient))) :=
  admin_revoke (U := unicode_sample) (D := pad_digest) (L := case_sample) (R := canonical_reader) (E := toy_ed25519)
    sample_builder "cli" (fun _ => calm) 200 [] "mistake" s.

(** An answer in NFC: the second source repeats the claim, and nothing is to be done. *)
Example composed_answer :
  let s1 := model_ingest "pump" (model_workspace e_acute) in
  let s2 := model_ingest "pump two" s1.1 in
  result_of s1.2 = Some (1, false, false) /\ result_of s2.2 = Some (1, false, true).
Proof. vm_compute. done. Qed.

(** An answer that is not in NFC: its pages are rendered before the snapshot normalizes it,
    so that the generation it is published in never verifies, and neither a source nor a
    revocation can be published after it. *)
Example combining_answer_ends_publication :
  let s1 := model_ingest "pump" (model_workspace e_combining) in
  let s2 := model_ingest "pump two" s1.1 in
  result_of s1.2 = Some (1, false, false) /\
  match s2.2, (model_revoke s1.1).2 with
  | Err (WsPublish (Raised (ParentInvalid g))), Err (WsPublish (Raised (ParentInvalid g'))) =>
      g = g' /\ current_pointer (cp s1.1) = Some g
  | _, _ => False
  end.
Proof. vm_compute. done. Qed.
