(* ===== verification/ChangeSet.v ===== *)
(** * Accepted change sets and their publication (memory_core/changeset_publication.py)

    A change set names its parent, its commands and its objects by content; the adapter
    resolves and checks every one of them before it prepares a publication bound to the
    change set.  The resolver is a parameter; the in-memory store is an instance of it. *)
From stdpp Require Import relations.
From S2P Require Import Prelude Digest Json Contracts Canonical Hashing Text Models Claims ControlPlane Signing Git Assembler Generation Publish.
Open Scope string_scope.

(** ** Values the adapter compares *)

Fixpoint dict_get (k : string) (kvs : list (pykey * pyval)) : option pyval :=
  match kvs with
  | [] => None
  | (KStr k', v) :: kvs => if String.eqb k k' then Some v else dict_get k kvs
  | (KOther, _) :: kvs => dict_get k kvs
  end.

(** [==] on None, booleans, strings, lists and dicts: dicts up to the order of their
    entries.  The values compared hold no numbers, floats or
    objects of other types: the encoder of the descriptor refused them. *)
Fixpoint py_eqb (a b : pyval) : bool :=
  match a, b with
  | PNone, PNone => true
  | PBool x, PBool y => Bool.eqb x y
  | PStr s, PStr t => String.eqb s t
  | PList l, PList l' | PTuple l, PTuple l' =>
      (fix go (l l' : list pyval) : bool :=
         match l, l' with
         | [], [] => true
         | x :: l, y :: l' => py_eqb x y && go l l'
         | _, _ => false
         end) l l'
  | PDict kvs, PDict kvs' =>
      (length kvs =? length kvs')%nat &&
      (fix go (kvs : list (pykey * pyval)) : bool :=
         match kvs with
         | [] => true
         | (KStr k, v) :: kvs =>
             match dict_get k kvs' with Some v' => py_eqb v v' | None => false end && go kvs
         | (KOther, _) :: _ => false
         end) kvs
  | _, _ => false
  end.

(** ** Errors *)

(** The subclasses of ChangeSetPublicationError, with their error codes. *)
Inductive change_error : Type := RootMismatch | Incomplete | StaleParent | BindingMismatch.

Definition change_error_code (e : change_error) : string :=
  match e with
  | RootMismatch => "changeset_root_mismatch"
  | Incomplete => "changeset_incomplete"
  | StaleParent => "stale_generation"
  | BindingMismatch => "changeset_binding_mismatch"
  end.

Inductive cs_error : Type :=
| CsChange (e : change_error) | CsContract (e : core_error) | CsCanon (e : canon_error)
| CsPublish (e : pub_error) | CsBadManifest.

Record ResolvedChangeObject : Type := {
  object_ref : string;
  revision_hash : string;
  compiled_claim : CompiledClaim;
}.

Class ChangeObjectResolver : Type := { resolve : string -> string -> option ResolvedChangeObject }.

Record PreparedChangeSetPublication : Type := {
  pcs_changeset : AcceptedChangeSet;
  pcs_publication : PreparedPublication;
}.

Section ChangeSets.
Context {U : Unicode} {D : Digest}.

Definition compiled_claim_hash (claim : CompiledClaim) : result canon_error string :=
  let i := identity claim in
  let a := assertion claim in
  let e := evidence claim in
  canonical_hash (py_record
    [("identity", py_record
        [("claim_id", PStr (claim_id i)); ("subject_id", PStr (subject_id i));
         ("predicate_id", PStr (predicate_id i)); ("object", PStr (obj i));
         ("polarity", PStr (polarity i)); ("scope", py_str_dict (scope i))]);
     ("assertion", py_record
        [("assertion_id", PStr (assertion_id a)); ("claim_id", PStr (assertion_claim_id a));
         ("source_id", PStr (assertion_source_id a)); ("evidence_ids", py_strs (evidence_ids a));
         ("modality", PStr (modality a))]);
     ("evidence", py_record
        [("evidence_id", PStr (evidence_id e)); ("source_object_hash", PStr (source_object_hash e));
         ("representation_hash", PStr (representation_hash e)); ("quote_hash", PStr (quote_hash e));
         ("locators", PList (map py_str_dict (locators e)))])]).

Definition ref_of (aid revision : string) : string := "claim_assertion:" +:+ aid +:+ ":" +:+ revision.

Definition claim_object_ref (claim : CompiledClaim) : result canon_error string :=
  h ← compiled_claim_hash claim; Ok (ref_of (assertion_id (assertion claim)) h).

(** [sha256(canonical_bytes(v)).hexdigest()] with the contracts' encoder *)
Definition contract_hash (v : pyval) : result core_error string :=
  data ← Contracts.canonical_bytes v; Ok (sha256_hex data).

Definition changes_root_payload (ws : string) (parent : option string) (command_ids : list string)
    (objects : list ResolvedChangeObject) : pyval :=
  py_record
    [("workspace_id", PStr ws);
     ("parent_generation_id", py_opt parent);
     ("command_ids", py_strs (sort_str command_ids));
     ("objects", PList (map (fun item =>
        py_record [("object_ref", PStr (object_ref item)); ("revision_hash", PStr (revision_hash item))])
        (sort_on object_ref objects)))].

Definition compute_changes_root (ws : string) (parent : option string) (command_ids : list string)
    (objects : list ResolvedChangeObject) : result core_error string :=
  contract_hash (changes_root_payload ws parent command_ids objects).

Definition changeset_identity (version ws : string) (parent : option string) (commands refs : list string)
    (root : string) : pyval :=
  py_record
    [("contract_version", PStr version);
     ("workspace_id", PStr ws);
     ("parent_generation_id", py_opt parent);
     ("command_ids", py_strs commands);
     ("object_refs", py_strs refs);
     ("changes_root", PStr root)].

(** ** ChangeSetBuilder.build *)
Definition build_changeset (ws : string) (parent : option string) (command_ids : list string)
    (objects : list ResolvedChangeObject) : result cs_error AcceptedChangeSet :=
  let commands := sort_str command_ids in
  let refs := sort_str (map object_ref objects) in
  _ ← ensure (str_nonempty ws && bool_decide (commands <> []) && bool_decide (refs <> [])) (CsChange Incomplete);
  _ ← ensure (str_unique commands && str_unique refs) (CsChange Incomplete);
  root ← map_err CsContract (compute_changes_root ws parent commands objects);
  csid ← map_err CsContract (contract_hash (changeset_identity CONTRACT_VERSION ws parent commands refs root));
  Ok {| cs_contract_version := CONTRACT_VERSION; changeset_id := csid; cs_workspace_id := ws;
        cs_parent_generation_id := parent; cs_command_ids := commands; cs_object_refs := refs;
        changes_root := root |}.

(** ** InMemoryChangeObjectStore *)
Definition ObjectStore : Type := gmap (string * string) ResolvedChangeObject.

Definition store_add (ws : string) (claim : CompiledClaim) (s : ObjectStore)
    : result canon_error (ObjectStore * ResolvedChangeObject) :=
  h ← compiled_claim_hash claim;
  ref ← claim_object_ref claim;
  let item := {| object_ref := ref; revision_hash := h; compiled_claim := claim |} in
  Ok (<[(ws, ref) := item]> s, item).

Definition store_resolver (s : ObjectStore) : ChangeObjectResolver :=
  {| resolve := fun ws ref => s !! (ws, ref) |}.

(** ** StoragePublicationAdapter *)
Section Adapter.
Context {L : UnicodeCase} {R : JsonReader} {E : Ed25519} {C : ChangeObjectResolver}.
Context {G : Type} `{GitRepo G}.
Implicit Types b : GenerationBuilder.

Notation M := (st (G * db) cs_error).

Definition resolve_one (ws ref : string) : result cs_error ResolvedChangeObject :=
  item ← of_option (CsChange Incomplete) (resolve ws ref);
  _ ← ensure (String.eqb (object_ref item) ref) (CsChange BindingMismatch);
  actual ← map_err CsCanon (compiled_claim_hash (compiled_claim item));
  ok ← (if String.eqb (revision_hash item) actual
        then r ← map_err CsCanon (claim_object_ref (compiled_claim item)); Ok (String.eqb r ref)
        else Ok false);
  _ ← ensure ok (CsChange BindingMismatch);
  Ok item.

Definition _resolve (cs : AcceptedChangeSet) : result cs_error (list ResolvedChangeObject) :=
  _ ← ensure (String.eqb (cs_contract_version cs) CONTRACT_VERSION) (CsChange Incomplete);
  _ ← ensure (bool_decide (sort_str (cs_command_ids cs) = cs_command_ids cs)) (CsChange Incomplete);
  _ ← ensure (bool_decide (sort_str (cs_object_refs cs) = cs_object_refs cs)) (CsChange Incomplete);
  _ ← ensure (str_unique (cs_command_ids cs)) (CsChange Incomplete);
  _ ← ensure (str_unique (cs_object_refs cs)) (CsChange Incomplete);
  resolved ← map_result (resolve_one (cs_workspace_id cs)) (cs_object_refs cs);
  expected_root ← map_err CsContract (compute_changes_root (cs_workspace_id cs)
                    (cs_parent_generation_id cs) (cs_command_ids cs) resolved);
  _ ← ensure (String.eqb expected_root (changes_root cs)) (CsChange RootMismatch);
  expected_id ← map_err CsContract (contract_hash (changeset_identity (cs_contract_version cs)
                  (cs_workspace_id cs) (cs_parent_generation_id cs) (cs_command_ids cs)
                  (cs_object_refs cs) (changes_root cs)));
  _ ← ensure (String.eqb expected_id (changeset_id cs)) (CsChange BindingMismatch);
  Ok resolved.

Definition _binding (cs : AcceptedChangeSet) : pyval :=
  py_record
    [("contract_version", PStr (cs_contract_version cs));
     ("changeset_id", PStr (changeset_id cs));
     ("workspace_id", PStr (cs_workspace_id cs));
     ("parent_generation_id", PStr (default "" (cs_parent_generation_id cs)));
     ("command_ids", py_strs (cs_command_ids cs));
     ("object_refs", py_strs (cs_object_refs cs));
     ("changes_root", PStr (changes_root cs))].

(** [candidate.descriptor.get("accepted_changeset") == self._binding(changeset)] *)
Definition bound_to (cs : AcceptedChangeSet) (cand : CandidateResult) : bool :=
  match cand_descriptor cand with
  | PDict kvs => match dict_get "accepted_changeset" kvs with Some v => py_eqb v (_binding cs) | None => false end
  | _ => false
  end.

Definition _result (cs : AcceptedChangeSet) (status : string) (gid : option string) (code : option string)
    (body : list (string * pyval)) : CoreResult :=
  {| res_contract_version := CONTRACT_VERSION; request_id := changeset_id cs; res_status := status;
     Contracts.res_generation_id := gid; res_result := py_record body; error_code := code |}.

(** A step of the publication service. *)
Definition from_pub {A} (m : st (G * db) pub_error A) : M A := st_map_err CsPublish m.

Definition read_binding (raw : string) : result cs_error (option json) :=
  j ← of_option CsBadManifest (json_loads raw);
  match j with
  | JObj ms =>
      match default (JObj []) (assoc "descriptor" ms) with
      | JObj ds => Ok (assoc "accepted_changeset" ds)
      | _ => Err CsBadManifest
      end
  | _ => Err CsBadManifest
  end.

Definition names_changeset (cs : AcceptedChangeSet) (binding : option json) : bool :=
  match binding with
  | Some (JObj bs) => match assoc "changeset_id" bs with
                      | Some v => json_eqb v (JStr (changeset_id cs))
                      | None => false
                      end
  | _ => false
  end.

Definition _current_changeset_matches b (cs : AcceptedChangeSet) : M (option string) := fun s =>
  match current_pointer s.2 with
  | None => (s, Ok None)
  | Some gid =>
      match generation_commit gid s.2 with
      | None => (s, Ok None)
      | Some commit =>
          (s, ok ← map_err (fun e => CsPublish (PubGen e)) (verify_manifest b s.1 commit gid);
              if (ok : bool) then
                raw ← map_err (fun e => CsPublish (PubGit e)) (cat_file s.1 commit (manifest_path gid));
                binding ← read_binding raw;
                Ok (if names_changeset cs binding then Some gid else None)
              else Ok None)
      end
  end.

Definition prepare_changeset b (cs : AcceptedChangeSet) : M PreparedChangeSetPublication :=
  current ← (fun s => (s, Ok (current_pointer s.2)) : G * db * result cs_error (option string));
  _ ← st_lift (ensure (bool_decide (current = cs_parent_generation_id cs)) (CsChange StaleParent));
  resolved ← st_lift (_resolve cs);
  source_hash ← st_lift (map_err CsCanon (canonical_hash (py_record
    [("changeset_id", PStr (changeset_id cs)); ("changes_root", PStr (changes_root cs))])));
  publication ← from_pub (prepare b (map compiled_claim resolved) source_hash []
                            (Parent (cs_parent_generation_id cs)) (Some (_binding cs)) 1);
  _ ← st_lift (ensure (match prep_candidate publication with Some c => bound_to cs c | None => true end)
                 (CsChange BindingMismatch));
  mret {| pcs_changeset := cs; pcs_publication := publication |}.

Definition activate_changeset (others : db -> db) (p : PreparedChangeSetPublication) : M CoreResult := fun s =>
  let cs := pcs_changeset p in
  let publication := pcs_publication p in
  if match prep_candidate publication with Some c => bound_to cs c | None => true end then
    match activate_prepared others publication s with
    | (s', Err (PubDb CASConflict)) =>
        (s', Ok (_result cs "retry_later" (current_pointer s'.2) (Some "stale_generation") []))
    | (s', Err e) => (s', Err (CsPublish e))
    | (s', Ok r) =>
        (s', Ok (_result cs "ok"
                   (if truthy (Publish.res_generation_id r) then Publish.res_generation_id r
                    else current_pointer s'.2) None
                   [("changeset_id", PStr (changeset_id cs));
                    ("candidate_commit_oid", py_opt (res_candidate_commit_oid r));
                    ("release_commit_oid", py_opt (res_release_commit_oid r));
                    ("replayed", PBool false);
                    ("noop", PBool (res_noop r))]))
    end
  else (s, Ok (_result cs "rejected" (current_pointer s.2) (Some "changeset_binding_mismatch") [])).

(** [publish]; [race] is what others do while it runs. *)
Definition publish_changeset b (r : race) (cs : AcceptedChangeSet) : M CoreResult :=
  replay ← _current_changeset_matches b cs;
  match replay with
  | Some gid =>
      _ ← from_pub (repair_published_generation b gid);
      mret (_result cs "ok" (Some gid) None
              [("changeset_id", PStr (changeset_id cs)); ("replayed", PBool true)])
  | None => fun s =>
      match prepare_changeset b cs s with
      | (s', Err (CsChange e)) =>
          (s', Ok (_result cs (match e with StaleParent => "retry_later" | _ => "rejected" end)
                     (current_pointer s'.2) (Some (change_error_code e)) []))
      | (s', Err (CsPublish (PubDb CASConflict))) =>
          (s', Ok (_result cs "retry_later" (current_pointer s'.2) (Some "stale_generation") []))
      | (s', Err _) =>
          (s', Ok (_result cs "retry_later" (current_pointer s'.2) (Some "storage_prepare_failed") []))
      | (s', Ok prepared) => activate_changeset (inside r) prepared (between r s')
      end
  end.
End Adapter.
End ChangeSets.

(** ** Resolution *)
Section Resolution.
Context {U : Unicode} {D : Digest}.

Lemma compiled_claim_hash_record c : compiled_claim_hash c = canonical_hash (claim_to_record c).
Proof. reflexivity. Qed.

(** An object that is what its reference says. *)
Record object_ok (o : ResolvedChangeObject) : Prop := {
  ob_hash : compiled_claim_hash (compiled_claim o) = Ok (revision_hash o);
  ob_ref : object_ref o = ref_of (assertion_id (assertion (compiled_claim o))) (revision_hash o);
}.

Lemma store_add_ok ws claim s s' item :
  store_add ws claim s = Ok (s', item) ->
  object_ok item /\ compiled_claim item = claim /\ s' !! (ws, object_ref item) = Some item.
Proof.
  unfold store_add, claim_object_ref. intros (h & Hh & Hs)%bind_ok. rewrite Hh in Hs.
  cbn [mbind result_bind] in Hs. injection Hs as <- <-. split; [by split|]. split; [done|]. apply lookup_insert_eq.
Qed.

Lemma resolve_one_ok {C : ChangeObjectResolver} ws ref item :
  resolve_one ws ref = Ok item <-> resolve ws ref = Some item /\ object_ref item = ref /\ object_ok item.
Proof.
  unfold resolve_one, claim_object_ref. destruct (resolve ws ref) as [x|]; cbn [of_option mbind result_bind];
    [|split; [done | by intros [? _]]].
  destruct (String.eqb_spec (object_ref x) ref) as [Er|Er]; cbn [ensure mbind result_bind];
    [|split; [done | by intros ([= ->] & ? & _)]].
  destruct (compiled_claim_hash (compiled_claim x)) as [h|e] eqn:Eh; cbn [map_err mbind result_bind];
    [|split; [done | by intros ([= ->] & _ & [Hh _]); rewrite Eh in Hh]].
  destruct (String.eqb_spec (revision_hash x) h) as [<-|Eq]; cbn [mbind result_bind ensure map_err].
  2:{ split; [done | intros ([= ->] & _ & [Hh _]); rewrite Eh in Hh; congruence]. }
  destruct (String.eqb_spec (ref_of (assertion_id (assertion (compiled_claim x))) (revision_hash x)) ref) as [Ef|Ef];
    cbn [mbind result_bind ensure].
  - split; [intros [= ->]|by intros ([= ->] & _)]. split; [done|]. split; [done|]. split; [done | congruence].
  - split; [done|]. intros ([= ->] & <- & [Hh Hr]). congruence.
Qed.

(** What [_resolve] checks. *)
Lemma _resolve_ok {C : ChangeObjectResolver} cs l :
  _resolve cs = Ok l <->
  cs_contract_version cs = CONTRACT_VERSION /\
  sort_str (cs_command_ids cs) = cs_command_ids cs /\ sort_str (cs_object_refs cs) = cs_object_refs cs /\
  NoDup (cs_command_ids cs) /\ NoDup (cs_object_refs cs) /\
  Forall2 (fun ref item => resolve (cs_workspace_id cs) ref = Some item /\ object_ref item = ref /\ object_ok item)
    (cs_object_refs cs) l /\
  compute_changes_root (cs_workspace_id cs) (cs_parent_generation_id cs) (cs_command_ids cs) l = Ok (changes_root cs) /\
  contract_hash (changeset_identity (cs_contract_version cs) (cs_workspace_id cs) (cs_parent_generation_id cs)
    (cs_command_ids cs) (cs_object_refs cs) (changes_root cs)) = Ok (changeset_id cs).
Proof.
  assert (Hf : forall l, map_result (resolve_one (cs_workspace_id cs)) (cs_object_refs cs) = Ok l <->
    Forall2 (fun ref item => resolve (cs_workspace_id cs) ref = Some item /\ object_ref item = ref /\ object_ok item)
      (cs_object_refs cs) l).
  { intros l0. rewrite map_result_ok. split; intros HF; (eapply list.Forall2_impl; [exact HF|]); intros; by apply resolve_one_ok. }
  unfold _resolve. split.
  - intros Hr. apply bind_ok in Hr as (? & H1%ensure_ok%String.eqb_eq & Hr).
    apply bind_ok in Hr as (? & H2%ensure_ok%bool_decide_eq_true & Hr).
    apply bind_ok in Hr as (? & H3%ensure_ok%bool_decide_eq_true & Hr).
    apply bind_ok in Hr as (? & H4%ensure_ok%bool_decide_eq_true & Hr).
    apply bind_ok in Hr as (? & H5%ensure_ok%bool_decide_eq_true & Hr).
    apply bind_ok in Hr as (l0 & H6%Hf & Hr). apply bind_ok in Hr as (root & H7%map_err_ok & Hr).
    apply bind_ok in Hr as (? & ->%ensure_ok%String.eqb_eq & Hr).
    apply bind_ok in Hr as (i & H8%map_err_ok & Hr). apply bind_ok in Hr as (? & ->%ensure_ok%String.eqb_eq & Hr).
    injection Hr as <-. done.
  - intros (H1 & H2 & H3 & H4 & H5 & H6%Hf & H7 & H8).
    rewrite H1, String.eqb_refl, !bool_decide_eq_true_2 by done. cbn [ensure mbind result_bind].
    unfold str_unique. rewrite !bool_decide_eq_true_2 by done. cbn [ensure mbind result_bind].
    rewrite H6. cbn [mbind result_bind]. rewrite H7. cbn [map_err mbind result_bind]. rewrite String.eqb_refl.
    cbn [ensure mbind result_bind]. rewrite H1 in H8. rewrite H8. cbn [map_err mbind result_bind].
    by rewrite String.eqb_refl.
Qed.

Lemma resolved_refs {C : ChangeObjectResolver} ws refs l :
  Forall2 (fun ref item => resolve ws ref = Some item /\ object_ref item = ref /\ object_ok item) refs l ->
  map object_ref l = refs /\ Forall object_ok l.
Proof.
  induction 1 as [|ref item refs l (_ & Hr & Ho) _ [IH1 IH2]]; [done|]. split; [cbn; congruence | by constructor].
Qed.

Lemma sort_on_map_key_str {A} (f : A -> string) (l : list A) : map f (sort_on f l) = sort_str (map f l).
Proof. symmetry. unfold sort_str, sort_on. by apply py_sort_map. Qed.

Lemma sort_on_ordered {A} (f : A -> string) (l : list A) : sort_str (map f l) = map f l -> sort_on f l = l.
Proof.
  intros Hs. unfold sort_on. apply py_sort_id. pose proof (sort_str_ordered (map f l)) as Ho. rewrite Hs in Ho.
  unfold ordered in *. clear Hs. induction l as [|x l IH]; [constructor|]. cbn [map] in Ho.
  apply StronglySorted_inv in Ho as [Ho Hx]. constructor; [by apply IH|]. by apply list.Forall_fmap in Hx.
Qed.

Lemma compute_changes_root_perm ws parent commands objs objs' :
  NoDup (map object_ref objs) -> objs ≡ₚ objs' ->
  compute_changes_root ws parent commands objs = compute_changes_root ws parent commands objs'.
Proof.
  intros Hnd Hp. unfold compute_changes_root, changes_root_payload.
  enough (sort_on object_ref objs = sort_on object_ref objs') as -> by done. apply sort_on_perm; [|done]. intros x y Hx Hy Exy.
  apply list_elem_of_lookup in Hx as [i Hi], Hy as [j Hj]. assert (i = j) as ->; [|congruence].
  eapply NoDup_lookup; [exact Hnd | by apply list_lookup_fmap_Some_2|]. rewrite Exy. by apply list_lookup_fmap_Some_2.
Qed.
End Resolution.

(** ** What a change-set identifier commits to *)
Section Binding.
Context {U : Unicode} {D : Digest}.

Definition strs_json (l : list string) : json := JArr (map (fun s => JStr (nfc s)) l).
Definition identity_json (version ws : string) (parent : option string) (commands refs : list string)
    (root : string) : json :=
  JObj [("contract_version", JStr (nfc version)); ("workspace_id", JStr (nfc ws));
        ("parent_generation_id", json_opt parent); ("command_ids", strs_json commands);
        ("object_refs", strs_json refs); ("changes_root", JStr (nfc root))].

Lemma normalize_identity version ws parent commands refs root :
  normalize (changeset_identity version ws parent commands refs root) =
    Ok (identity_json version ws parent commands refs root).
Proof. unfold changeset_identity. norm_record_goal. reflexivity. Qed.

Definition object_json (o : ResolvedChangeObject) : json :=
  JObj [("object_ref", JStr (nfc (object_ref o))); ("revision_hash", JStr (nfc (revision_hash o)))].
Definition root_json (ws : string) (parent : option string) (commands : list string)
    (objs : list ResolvedChangeObject) : json :=
  JObj [("workspace_id", JStr (nfc ws)); ("parent_generation_id", json_opt parent);
        ("command_ids", strs_json (sort_str commands));
        ("objects", JArr (map object_json (sort_on object_ref objs)))].

Lemma contract_hash_ok v h : map_free v = true ->
  contract_hash v = Ok h <-> tuple_free v = true /\ exists j, normalize v = Ok j /\ h = sha256_hex (json_dumps j).
Proof.
  intros Hm. unfold contract_hash. rewrite bind_ok. split.
  - intros (x & (Ht & j & Hj & ->)%(contract_bytes_ok _ _ Hm) & [= <-]). split; [done|]. by exists j.
  - intros [Ht (j & Hj & ->)]. exists (json_dumps j). split; [|done].
    rewrite contract_bytes_dicts, Ht by done. by rewrite (proj2 (canonical_bytes_ok _ _) (ex_intro _ j (conj Hj eq_refl))).
Qed.

Lemma normalize_root_payload ws parent commands objs :
  normalize (changes_root_payload ws parent commands objs) = Ok (root_json ws parent commands objs).
Proof.
  unfold changes_root_payload. norm_record_goal. rewrite (normalize_list_ok _ object_json); [reflexivity|].
  apply list.Forall_forall. intros o _. norm_record_goal. reflexivity.
Qed.

Lemma root_payload_dicts ws parent commands objs : map_free (changes_root_payload ws parent commands objs) = true.
Proof. unfold changes_root_payload. dicts_only. rewrite map_free_list; [done|]. intros o. by rewrite map_free_record. Qed.

Lemma identity_dicts version ws parent commands refs root : map_free (changeset_identity version ws parent commands refs root) = true.
Proof. unfold changeset_identity. dicts_only. Qed.

Lemma changes_root_ok ws parent commands objs h :
  compute_changes_root ws parent commands objs = Ok h ->
  h = sha256_hex (json_dumps (root_json ws parent commands objs)).
Proof.
  unfold compute_changes_root. intros (_ & j & Hj & ->)%(contract_hash_ok _ _ (root_payload_dicts _ _ _ _)).
  rewrite normalize_root_payload in Hj. by injection Hj as <-.
Qed.

Lemma json_arr_members l l' : JArr l ≡ JArr l' -> Forall2 equiv l l'.
Proof.
  unfold equiv at 1, json_equiv. cbn [sort_json]. intros [= E]. revert l' E.
  induction l as [|x l IH]; intros [|y l'] E; try done. cbn in E. injection E as E1 E2. constructor; [exact E1 | by apply IH].
Qed.

(** The same content: equal canonical forms of the claims. *)
Definition same_claim (c c' : CompiledClaim) : Prop :=
  exists j j', normalize (claim_to_record c) = Ok j /\ normalize (claim_to_record c') = Ok j' /\ j ≡ j'.

Lemma opt_json_inj o o' : json_opt o ≡ json_opt o' -> nfc <$> o = nfc <$> o'.
Proof. destruct o, o'; unfold equiv, json_equiv; cbn; try done. by intros [= ->]. Qed.

Lemma str_member ms ms' k s s' :
  (forall k, sort_json <$> assoc k ms = sort_json <$> assoc k ms') ->
  assoc k ms = Some (JStr s) -> assoc k ms' = Some (JStr s') -> s = s'.
Proof. intros Hk H1 H2. specialize (Hk k). rewrite H1, H2 in Hk. cbn in Hk. congruence. Qed.

Lemma identity_fields v ws p cs rs r v' ws' p' cs' rs' r' :
  identity_json v ws p cs rs r ≡ identity_json v' ws' p' cs' rs' r' ->
  nfc ws = nfc ws' /\ nfc <$> p = nfc <$> p' /\ map nfc cs = map nfc cs' /\ map nfc rs = map nfc rs' /\ nfc r = nfc r'.
Proof.
  intros E. pose proof (json_members _ _ E eq_refl) as Hk.
  assert (Hs : forall l l', strs_json l ≡ strs_json l' -> map nfc l = map nfc l').
  { intros l l' El. apply map_JStr_inj. unfold strs_json in El. unfold equiv, json_equiv in El. cbn [sort_json] in El.
    rewrite !map_map in El. cbn [sort_json] in El. congruence. }
  split; [exact (str_member _ _ "workspace_id" _ _ Hk eq_refl eq_refl)|].
  split; [apply opt_json_inj; specialize (Hk "parent_generation_id"); cbn in Hk; unfold equiv, json_equiv; congruence|].
  split; [apply Hs; specialize (Hk "command_ids"); unfold equiv, json_equiv; cbn -[strs_json sort_json] in Hk; congruence|].
  split; [apply Hs; specialize (Hk "object_refs"); unfold equiv, json_equiv; cbn -[strs_json sort_json] in Hk; congruence|].
  exact (str_member _ _ "changes_root" _ _ Hk eq_refl eq_refl).
Qed.

Lemma root_objects ws p cs l ws' p' cs' l' :
  root_json ws p cs l ≡ root_json ws' p' cs' l' ->
  Forall2 (fun o o' => nfc (revision_hash o) = nfc (revision_hash o')) (sort_on object_ref l) (sort_on object_ref l').
Proof.
  intros E. pose proof (json_members _ _ E eq_refl "objects") as Hk. cbn -[object_json sort_json] in Hk.
  assert (Ea : JArr (map object_json (sort_on object_ref l)) ≡ JArr (map object_json (sort_on object_ref l')))
    by (unfold equiv, json_equiv; congruence).
  apply json_arr_members, (list.Forall2_fmap_1 object_json object_json equiv) in Ea.
  eapply list.Forall2_impl; [exact Ea|]. intros o o' Ho. pose proof (json_members _ _ Ho eq_refl) as Hm.
  exact (str_member _ _ "revision_hash" _ _ Hm eq_refl eq_refl).
Qed.

Lemma Forall2_or_const {A B} (P : A -> B -> Prop) (Q : Prop) l l' :
  Forall2 (fun x y => P x y \/ Q) l l' -> Forall2 P l l' \/ Q.
Proof. induction 1 as [|x y l l' [?|?] _ [?|?]]; auto. Qed.

(** The bytes hashed for an object's revision. *)
Definition revision_preimage (o : ResolvedChangeObject) : list string := preimage (claim_to_record (compiled_claim o)).

(** The byte strings hashed to check a change set and its objects. *)
Definition hashed_for (cs : AcceptedChangeSet) (l : list ResolvedChangeObject) : list string :=
  (preimage (changeset_identity (cs_contract_version cs) (cs_workspace_id cs) (cs_parent_generation_id cs)
     (cs_command_ids cs) (cs_object_refs cs) (changes_root cs)) ++
   preimage (changes_root_payload (cs_workspace_id cs) (cs_parent_generation_id cs) (cs_command_ids cs) l) ++
   (l ≫= revision_preimage))%list.

Lemma same_revision o o' :
  object_ok o -> object_ok o' -> nfc (revision_hash o) = nfc (revision_hash o') ->
  same_claim (compiled_claim o) (compiled_claim o') \/ collision (revision_preimage o ++ revision_preimage o').
Proof.
  intros [H1 _] [H2 _] E. rewrite compiled_claim_hash_record in H1, H2.
  pose proof (proj1 (canonical_hash_ok _ _) H1) as (j & _ & E1). pose proof (proj1 (canonical_hash_ok _ _) H2) as (j' & _ & E2).
  unfold sha256_hex in E1, E2. rewrite E1, E2, !nfc_hex, <- E1, <- E2 in E. rewrite <- E in H2.
  by apply (canonical_hash_binding _ _ _ H1 H2).
Qed.

(** What [build] returns satisfies every check of [_resolve]. *)
Lemma build_resolves {C : ChangeObjectResolver} ws parent commands objs cs0 :
  build_changeset ws parent commands objs = Ok cs0 ->
  (forall o, o ∈ objs -> resolve ws (object_ref o) = Some o /\ object_ok o) ->
  _resolve cs0 = Ok (sort_on object_ref objs).
Proof.
  unfold build_changeset. intros Hb Hobj. apply bind_ok in Hb as (? & _ & Hb).
  apply bind_ok in Hb as (? & [Hu1 Hu2]%ensure_ok%andb_true_iff & Hb).
  apply bind_ok in Hb as (root & Hroot%map_err_ok & Hb). apply bind_ok in Hb as (i & Hid%map_err_ok & Hb).
  injection Hb as <-. apply bool_decide_eq_true in Hu1, Hu2. apply _resolve_ok. cbn.
  assert (Hnd : NoDup (map object_ref objs)).
  { eapply NoDup_Permutation_proper; [|exact Hu2]. unfold sort_str. symmetry. apply py_sort_perm. }
  split; [done|]. split; [apply py_sort_idem; eauto with wiki|]. split; [apply py_sort_idem; eauto with wiki|].
  do 2 (split; [done|]). split; [|split; [|done]].
  - rewrite <- sort_on_map_key_str. apply list.Forall2_fmap_l, list.Forall_Forall2_diag, list.Forall_forall.
    intros o Ho. rewrite sort_on_perm_self in Ho. by destruct (Hobj _ Ho).
  - rewrite <- Hroot. symmetry. apply compute_changes_root_perm; [done|]. symmetry. apply sort_on_perm_self.
Qed.

(** Equal roots were computed from the same claims. *)
Lemma same_root_same_claims ws p cs l ws' p' cs' l' (K : list string) :
  json_dumps (root_json ws p cs l) ∈ K -> json_dumps (root_json ws' p' cs' l') ∈ K ->
  (forall o, o ∈ l \/ o ∈ l' -> revision_preimage o ⊆ K) ->
  Forall object_ok l -> Forall object_ok l' ->
  sort_on object_ref l = l -> sort_on object_ref l' = l' ->
  sha256 (json_dumps (root_json ws p cs l)) = sha256 (json_dumps (root_json ws' p' cs' l')) ->
  Forall2 (fun o o' => same_claim (compiled_claim o) (compiled_claim o')) l l' \/ collision K.
Proof.
  intros K1 K2 K3 Eo Fo S S' Ej.
  destruct (sha256_inj_in K _ _ K1 K2 Ej) as [Ej2%json_dumps_inj|?]; [|by right].
  apply root_objects in Ej2. rewrite S, S' in Ej2. apply Forall2_or_const.
  clear -Ej2 Eo Fo K3. induction Ej2 as [|o o' l l' Ho _ IH]; [constructor|].
  apply Forall_cons_iff in Eo as [? ?], Fo as [? ?]. constructor.
  - destruct (same_revision o o') as [?|Hc]; [done..|by left|right]. eapply collision_sub; [exact Hc|].
    apply list_subseteq_app_iff_l. split; apply K3; [left | right]; by left.
  - apply IH; try done. intros x Hx. apply K3. rewrite !elem_of_cons. naive_solver.
Qed.

(** A change set is its content.  What [ChangeSetBuilder.build] makes from objects that
    are what their references say, [_resolve] accepts, and gives back the objects in the
    order of their references.  Conversely, whatever a resolver answers, two change sets
    accepted under one identifier agree, up to NFC, on workspace, parent, commands,
    references and root, and resolve to the same claims in the same order - or two of the
    byte strings hashed to check them collide. *)
Theorem changeset_id_names_objects {C C' : ChangeObjectResolver} ws parent commands objs cs0 cs cs' l l' :
  (build_changeset ws parent commands objs = Ok cs0 ->
   (forall o, o ∈ objs -> @resolve C ws (object_ref o) = Some o /\ object_ok o) ->
   _resolve (C := C) cs0 = Ok (sort_on object_ref objs)) /\
  (_resolve (C := C) cs = Ok l -> _resolve (C := C') cs' = Ok l' -> changeset_id cs = changeset_id cs' ->
   map object_ref l = cs_object_refs cs /\ Forall object_ok l /\
   ((nfc (cs_workspace_id cs) = nfc (cs_workspace_id cs') /\
     nfc <$> cs_parent_generation_id cs = nfc <$> cs_parent_generation_id cs' /\
     map nfc (cs_command_ids cs) = map nfc (cs_command_ids cs') /\
     map nfc (cs_object_refs cs) = map nfc (cs_object_refs cs') /\
     changes_root cs = changes_root cs' /\
     Forall2 (fun o o' => same_claim (compiled_claim o) (compiled_claim o')) l l') \/
    collision (hashed_for cs l ++ hashed_for cs' l'))).
Proof.
  split; [apply build_resolves|].
  intros Hl Hl' Hid. apply _resolve_ok in Hl as (E1 & E2 & E3 & _ & _ & E4 & E5 & E6).
  apply _resolve_ok in Hl' as (F1 & F2 & F3 & _ & _ & F4 & F5 & F6).
  apply resolved_refs in E4 as [Er Eo], F4 as [Fr Fo]. split; [done|]. split; [done|].
  apply contract_hash_ok in E6 as (_ & j & Hj & E6), F6 as (_ & j' & Hj' & F6); [|apply identity_dicts..].
  rewrite normalize_identity in Hj, Hj'. injection Hj as <-. injection Hj' as <-.
  set (K := (hashed_for cs l ++ hashed_for cs' l')%list).
  assert (K1 : json_dumps (identity_json (cs_contract_version cs) (cs_workspace_id cs) (cs_parent_generation_id cs)
    (cs_command_ids cs) (cs_object_refs cs) (changes_root cs)) ∈ K /\
    json_dumps (identity_json (cs_contract_version cs') (cs_workspace_id cs') (cs_parent_generation_id cs')
    (cs_command_ids cs') (cs_object_refs cs') (changes_root cs')) ∈ K).
  { unfold K, hashed_for. rewrite !(preimage_ok _ _ (normalize_identity _ _ _ _ _ _)). set_solver. }
  assert (K2 : json_dumps (root_json (cs_workspace_id cs) (cs_parent_generation_id cs) (cs_command_ids cs) l) ∈ K /\
    json_dumps (root_json (cs_workspace_id cs') (cs_parent_generation_id cs') (cs_command_ids cs') l') ∈ K).
  { unfold K, hashed_for. rewrite !(preimage_ok _ _ (normalize_root_payload _ _ _ _)). set_solver. }
  assert (K3 : forall o, o ∈ l \/ o ∈ l' -> revision_preimage o ⊆ K).
  { intros o Ho x Hx. unfold K, hashed_for. rewrite !elem_of_app, !list_elem_of_bind. naive_solver. }
  rewrite E6, F6 in Hid. apply hex_inj in Hid.
  destruct (sha256_inj_in K _ _ (proj1 K1) (proj2 K1) Hid) as [Hid2%json_dumps_inj|?]; [|by right].
  apply identity_fields in Hid2 as (I1 & I2 & I3 & I4 & I5).
  apply changes_root_ok in E5, F5.
  assert (Eroot : changes_root cs = changes_root cs').
  { rewrite E5, F5 in I5. unfold sha256_hex in I5. rewrite !nfc_hex in I5. rewrite E5, F5. exact I5. }
  assert (HK : Forall2 (fun o o' => same_claim (compiled_claim o) (compiled_claim o')) l l' \/ collision K).
  { clearbody K. apply (same_root_same_claims _ _ _ _ _ _ _ _ _ (proj1 K2) (proj2 K2) K3 Eo Fo).
    - apply sort_on_ordered; congruence.
    - apply sort_on_ordered; congruence.
    - apply hex_inj. rewrite E5, F5 in Eroot. exact Eroot. }
  destruct HK as [?|?]; [left | by right]. done.
Qed.
End Binding.

(** ** A published change set is found again *)
Section Replay.
Context {U : Unicode} {D : Digest} {L : UnicodeCase} {R : JsonReader} {E : Ed25519} {C : ChangeObjectResolver}.
Context {G : Type} `{GitLaws G}.
Implicit Types b : GenerationBuilder.

(** The resolver answers with claims that are valid. *)
Definition resolver_valid : Prop :=
  forall ws ref o, resolve ws ref = Some o -> valid_claim (compiled_claim o).

Lemma resolved_valid cs l : resolver_valid -> _resolve cs = Ok l -> Forall valid_claim (map compiled_claim l).
Proof.
  intros Hv Hr. apply _resolve_ok in Hr as (_ & _ & _ & _ & _ & Hl & _).
  induction Hl as [|ref o refs l (Ho & _) _ IH]; [constructor|]. constructor; [by eapply Hv | exact IH].
Qed.

Lemma resolved_id cs l : _resolve cs = Ok l -> nfc (changeset_id cs) = changeset_id cs.
Proof.
  intros Hr. apply _resolve_ok in Hr as (_ & _ & _ & _ & _ & _ & _ & Hid).
  apply contract_hash_ok in Hid as (_ & j & _ & ->); [apply nfc_hex | apply identity_dicts].
Qed.

(** The descriptor of a bound candidate. *)
Definition bound_descriptor cs (v : pyval) : Prop :=
  exists b p src root inline, v = make_descriptor b p src root inline (Some (_binding cs)).

Lemma bound_member cs v j :
  nfc (changeset_id cs) = changeset_id cs -> bound_descriptor cs v -> normalize v = Ok j ->
  exists ds bs, j = JObj ds /\ NoDup ds.*1 /\ assoc "accepted_changeset" ds = Some (JObj bs) /\
    NoDup bs.*1 /\ assoc "changeset_id" bs = Some (JStr (changeset_id cs)).
Proof.
  intros Hid (b & p & src & root & inline & ->) Hj. destruct (normalize_record_obj _ _ Hj) as [ds ->].
  destruct (record_member _ _ "accepted_changeset" (_binding cs) Hj eq_refl) as (jb & Ab & Nb).
  { cbn [app]. do 7 right. left. }
  destruct (normalize_record_obj _ _ Nb) as [bs ->]. exists ds, bs. split; [done|].
  split; [by eapply normalize_obj_keys|]. split; [done|]. split; [by eapply normalize_obj_keys|].
  apply (record_string _ _ _ _ Nb); [done | done|]. right. left.
Qed.

(** The candidate registered under an identifier and its claims. *)
Record registered b (g : G) (gid : string) (row : GenerationRow) (accepted : list CompiledClaim)
    (stored : CandidateResult) : Prop := {
  rd_claims : claim_set accepted;
  rd_built : exists B : built b accepted g stored, True;
  rd_id : cand_generation_id stored = gid;
  rd_commit : cand_commit_oid stored = candidate_commit_oid row;
}.

(** A generation whose identifier hashes a bound descriptor carries the binding, whatever
    candidate was registered under it. *)
Lemma row_binding b (g : G) gid row cs v accepted stored :
  keyring_ok (gb_keyring b) -> nfc (gb_key_id b) = gb_key_id b -> nfc (changeset_id cs) = changeset_id cs ->
  registered b g gid row accepted stored -> bound_descriptor cs v -> canonical_hash v = Ok gid ->
  (exists raw j, cat_file g (candidate_commit_oid row) (manifest_path gid) = Ok raw /\
     read_binding raw = Ok (Some j) /\ names_changeset cs (Some j) = true) \/
  collision (preimage (cand_descriptor stored) ++ preimage v).
Proof.
  intros Hk Hn Hid [Ha [B _] <- <-] Hb Hv.
  destruct (manifest_read _ _ _ _ B Hn) as (ms & dms & ims & Hl & Hnd & _ & _ & _ & Hd & Hdn & Hnd' & _).
  destruct B as [ci sn sg mb ob p sr ro bi H1 H2 H3 H4 H5 H6 H7 H8 H9 H10 H11]. cbn [bt_manifest] in Hl.
  destruct (canonical_hash_binding _ _ _ H7 Hv) as [(j & j' & Hj & Hj' & Ej)|?]; [left|by right].
  rewrite Hdn in Hj. injection Hj as <-.
  destruct (bound_member cs v j' Hid Hb Hj') as (ds & bs & -> & N1 & A1 & N2 & A2).
  pose proof (json_equiv_assoc _ _ "accepted_changeset" Hnd' Ej) as Ea. rewrite A1 in Ea.
  exists mb, (sort_json (JObj bs)). split; [|split].
  - rewrite (cat_file_law _ _ _ _ H11), files_map, candidate_files_lookup
      by apply candidate_files_NoDup, render_pages_keys.
    change (String.eqb (manifest_path ?x) (outbox_path ?x)) with false. cbn iota. by rewrite String.eqb_refl.
  - unfold read_binding. rewrite Hl. cbn [of_option mbind result_bind sort_json].
    rewrite assoc_sorted by by apply bool_decide_eq_true. rewrite Hd. cbn [fmap option_fmap option_map default id from_option].
    cbn [sort_json]. rewrite assoc_sorted by by apply bool_decide_eq_true. rewrite Ea. done.
  - cbn [sort_json names_changeset]. rewrite assoc_sorted by by apply bool_decide_eq_true. rewrite A2. cbn.
    by apply String.eqb_refl.
Qed.

Lemma matches_state b cs s : (_current_changeset_matches b cs s).1 = s.
Proof.
  unfold _current_changeset_matches. destruct (current_pointer s.2); [|done].
  by destruct (generation_commit _ s.2).
Qed.

Lemma matches_pointer b cs (s s' : G * db) gid :
  _current_changeset_matches b cs s = (s', Ok (Some gid)) -> s' = s /\ current_pointer s.2 = Some gid.
Proof.
  intros Hm. pose proof (matches_state b cs s) as Hs. rewrite Hm in Hs. cbn in Hs. split; [done|]. revert Hm.
  unfold _current_changeset_matches. destruct (current_pointer s.2) as [x|]; [|done].
  destruct (generation_commit x s.2); [|done]. intros [= _ Hm]. apply bind_ok in Hm as (ok & _ & Hm).
  destruct ok; [|done]. apply bind_ok in Hm as (raw & _ & Hm). apply bind_ok in Hm as (j & _ & Hm).
  destruct (names_changeset cs j); [|done]. by injection Hm as ->.
Qed.

(** Publishing again: the binding of the current generation is recognised, and the read
    models are written again. *)
Lemma replayed b r cs (s : G * db) gid row v accepted stored :
  keyring_ok (gb_keyring b) -> nfc (gb_key_id b) = gb_key_id b -> nfc (changeset_id cs) = changeset_id cs ->
  registered b s.1 gid row accepted stored -> current_pointer s.2 = Some gid -> generation s.2 !! gid = Some row ->
  bound_descriptor cs v -> canonical_hash v = Ok gid ->
  (exists s2, publish_changeset b r cs s =
     (s2, Ok (_result cs "ok" (Some gid) None [("changeset_id", PStr (changeset_id cs)); ("replayed", PBool true)])) /\
     s2.1 = s.1 /\ current_pointer s2.2 = Some gid /\ generation s2.2 = generation s.2) \/
  collision (preimage v ++ preimage (cand_descriptor stored) ++ claim_preimages accepted).
Proof.
  intros Hk Hn Hid Hs Hcur Hrow Hb Hv.
  destruct (row_binding b s.1 gid row cs v accepted stored Hk Hn Hid Hs Hb Hv) as [(raw & j & Hraw & Hj & Hnm)|Hc];
    [|right; eapply collision_sub; [exact Hc | set_solver]].
  destruct Hs as [Ha [B _] E1 E2].
  pose proof (built_snapshot b accepted s.1 stored B Ha) as Hsn.
  pose proof (built_verifies b accepted s.1 stored B Ha Hk Hn) as Hver. rewrite E2 in Hsn, Hver. rewrite E1 in Hver.
  destruct Hver as [Hver|Hc]; [left|right; eapply collision_sub; [exact Hc | set_solver]].
  destruct (post_publish_ok gid (map canon_claim (sort_on aid accepted)) [] s row Hrow) as (d' & Epost & Eg & Ecur & _).
  exists (s.1, d'). split; [|split; [done|split; [cbn; by rewrite Ecur | done]]].
  unfold publish_changeset, _current_changeset_matches. unfold mbind at 1, st_bind at 1. rewrite Hcur.
  unfold generation_commit. rewrite Hrow. cbn [fmap option_fmap option_map]. rewrite Hver. cbn [map_err mbind result_bind].
  rewrite Hraw. cbn [map_err mbind result_bind]. rewrite Hj. cbn [mbind result_bind]. rewrite Hnm.
  unfold from_pub, st_map_err, repair_published_generation, verified_claims, mbind, st_bind, from_db, st_gets, generation_commit.
  rewrite Hrow. cbn [fmap option_fmap option_map]. unfold read_git. rewrite Hver. cbn [map_err]. rewrite Hsn.
  rewrite Epost. done.
Qed.

(** ** The adapter follows the publication protocol *)

Lemma from_pub_state {A} (m : st (G * db) pub_error A) s : (from_pub m s).1 = (m s).1.
Proof. unfold from_pub, st_map_err. by destruct (m s). Qed.

Lemma from_pub_ok {A} (m : st (G * db) pub_error A) s s' a : from_pub m s = (s', Ok a) <-> m s = (s', Ok a).
Proof. apply st_map_err_ok. Qed.

Lemma prepare_changeset_steps b cs (s : G * db) :
  keyring_ok (gb_keyring b) -> nfc (gb_key_id b) = gb_key_id b -> resolver_valid -> pub_inv b s ->
  rtc (pub_step b) s (prepare_changeset b cs s).1 /\ same_pointer s (prepare_changeset b cs s).1.
Proof.
  intros Hk Hn Hv Hi.
  assert (Hgen : forall P : G * db -> G * db -> Prop, PreOrder P ->
    (forall l src, _resolve cs = Ok l -> P s (prepare b (map compiled_claim l) src [] (Parent (cs_parent_generation_id cs))
        (Some (_binding cs)) 1 s).1) -> P s (prepare_changeset b cs s).1).
  { intros P HP Hp. unfold prepare_changeset. apply (keeps_at_bind P); [done|]. intros ? cur [= <- _].
    apply (keeps_at_bind P); [done|]. intros ? ? [-> _]%st_lift_ok.
    apply (keeps_at_bind P); [done|]. intros ? l [-> Hl]%st_lift_ok.
    apply (keeps_at_bind P); [done|]. intros ? src [-> _]%st_lift_ok.
    apply (keeps_at_bind P); [rewrite from_pub_state; by apply Hp|]. intros s1 p _.
    apply (keeps_at_bind P); [done|]. by intros s2 [] [-> _]%st_lift_ok. }
  split; [apply (Hgen (rtc (pub_step b)) _) | apply (Hgen same_pointer _)].
  - intros l src Hl. apply prepare_steps; try done. by eapply resolved_valid.
  - intros l src _. apply prepare_still.
Qed.

Lemma activate_changeset_state others p (s : G * db) :
  (activate_changeset others p s).1 =
  if match prep_candidate (pcs_publication p) with Some c => bound_to (pcs_changeset p) c | None => true end
  then (activate_prepared others (pcs_publication p) s).1 else s.
Proof.
  unfold activate_changeset. destruct (match prep_candidate _ with Some _ => _ | None => _ end); [|done].
  by destruct (activate_prepared others (pcs_publication p) s) as [s' [x|[[]| | | | | |]]].
Qed.

Lemma publish_changeset_steps b r cs (s : G * db) :
  keyring_ok (gb_keyring b) -> nfc (gb_key_id b) = gb_key_id b -> resolver_valid -> fair b r -> pub_inv b s ->
  rtc (pub_step b) s (publish_changeset b r cs s).1.
Proof.
  intros Hk Hn Hv [Hf1 Hf2] Hi. unfold publish_changeset.
  apply (keeps_at_bind (rtc (pub_step b))); [by rewrite matches_state|]. intros s0 o Hm.
  pose proof (matches_state b cs s) as Hs. rewrite Hm in Hs. cbn in Hs. subst s0. destruct o as [gid|].
  - apply (keeps_at_bind (rtc (pub_step b))); [rewrite from_pub_state|done]. unfold repair_published_generation.
    apply (keeps_bind (rtc (pub_step b))); [apply verified_follows | intros; apply post_publish_follows].
  - destruct (prepare_changeset_steps b cs s Hk Hn Hv Hi) as [Hp _].
    destruct (prepare_changeset b cs s) as [s1 [p|[[]| | |[[]| | | | | |]|]]]; cbn [fst] in Hp |- *; try done.
    etrans; [exact Hp|]. etrans; [apply Hf1|]. rewrite activate_changeset_state.
    destruct (match prep_candidate _ with Some _ => _ | None => _ end); [|done]. by apply activate_prepared_steps.
Qed.

Lemma prepare_changeset_ok b cs (s s' : G * db) p :
  prepare_changeset b cs s = (s', Ok p) ->
  exists l src, _resolve cs = Ok l /\ cs_parent_generation_id cs = current_pointer s.2 /\ pcs_changeset p = cs /\
    prepare b (map compiled_claim l) src [] (Parent (cs_parent_generation_id cs)) (Some (_binding cs)) 1 s =
      (s', Ok (pcs_publication p)).
Proof.
  unfold prepare_changeset. intros Hp. apply st_bind_ok in Hp as (? & cur & Hc & Hp). injection Hc as <- <-.
  apply st_bind_ok in Hp as (? & [] & [-> Hcur%ensure_ok%bool_decide_eq_true]%st_lift_ok & Hp).
  apply st_bind_ok in Hp as (? & l & [-> Hl]%st_lift_ok & Hp).
  apply st_bind_ok in Hp as (? & src & [-> _]%st_lift_ok & Hp).
  apply st_bind_ok in Hp as (s1 & pub & Hpub%from_pub_ok & Hp).
  apply st_bind_ok in Hp as (s2 & [] & [-> _]%st_lift_ok & Hp). injection Hp as <- <-. by exists l, src.
Qed.

Lemma candidate_bound b cs l src (s s' : G * db) p cand :
  keyring_ok (gb_keyring b) -> nfc (gb_key_id b) = gb_key_id b -> resolver_valid -> pub_inv b s ->
  _resolve cs = Ok l ->
  prepare b (map compiled_claim l) src [] (Parent (cs_parent_generation_id cs)) (Some (_binding cs)) 1 s = (s', Ok p) ->
  prep_candidate p = Some cand -> prep_noop p = false ->
  bound_descriptor cs (cand_descriptor cand) /\ canonical_hash (cand_descriptor cand) = Ok (cand_generation_id cand).
Proof.
  intros Hk Hn Hv Hi Hl Hp Hc Hno.
  destruct (prepare_ok _ _ _ _ _ _ _ _ _ _ Hk Hn (resolved_valid _ _ Hv Hl) Hi Hp)
    as (_ & _ & _ & _ & _ & _ & _ & _ & [[Hx _]|(_ & cand' & oid & [_ Hc' _ _ [B HB] _ _ _])]); [congruence|].
  assert (cand' = cand) as -> by congruence.
  destruct B as [ci sn sg mb ob pa sr ro bi H1 H2 H3 H4 H5 H6 H7 H8 H9 H10 H11]. cbn in HB. subst bi.
  split; [|done]. by exists b, pa, sr, ro, (inline_artifacts (cand_wiki_files_root cand) (sha256_hex ci) (sha256_hex sn)).
Qed.

(** Nobody else is there. *)
Definition alone : race (G := G) := {| between := id; inside := id |}.

(** The outcomes of an undisturbed publication: the pointer stays, or it is the generation
    of a bound candidate. *)
Lemma publish_alone b cs (s s1 : G * db) res :
  keyring_ok (gb_keyring b) -> nfc (gb_key_id b) = gb_key_id b -> resolver_valid -> pub_inv b s ->
  publish_changeset b alone cs s = (s1, Ok res) ->
  (current_pointer s1.2 = current_pointer s.2 /\ exists status code body,
     res = _result cs status (current_pointer s1.2) code body) \/
  exists p cand body row, (prepare_changeset b cs s).2 = Ok p /\ prep_candidate (pcs_publication p) = Some cand /\
    current_pointer s1.2 = Some (cand_generation_id cand) /\ generation s1.2 !! cand_generation_id cand = Some row /\
    cs_parent_generation_id cs = current_pointer s.2 /\ nfc (changeset_id cs) = changeset_id cs /\
    bound_descriptor cs (cand_descriptor cand) /\
    canonical_hash (cand_descriptor cand) = Ok (cand_generation_id cand) /\
    res = _result cs "ok" (Some (cand_generation_id cand)) None body.
Proof.
  intros Hk Hn Hv Hi Hp. unfold publish_changeset in Hp.
  apply st_bind_ok in Hp as (s0 & o & Hm & Hp). destruct o as [gid|].
  - apply matches_pointer in Hm as [-> Hcur]. left.
    apply st_bind_ok in Hp as (s2 & [] & Hrep%from_pub_ok & Hp). injection Hp as <- <-.
    assert (Hs : same_pointer s s2).
    { assert (Hst : same_pointer s (repair_published_generation b gid s).1); [|by rewrite Hrep in Hst].
      unfold repair_published_generation. apply (keeps_at_bind same_pointer).
      - pose proof (parent_claims_state b (Some gid) s) as Hps. cbn [_parent_claims] in Hps. by rewrite Hps.
      - intros s3 claims _. apply post_publish_still. }
    unfold same_pointer in Hs. split; [done|]. rewrite Hs, Hcur. by eexists _, _, _.
  - pose proof (matches_state b cs s) as Hs. rewrite Hm in Hs. cbn in Hs. subst s0.
    destruct (prepare_changeset_steps b cs s Hk Hn Hv Hi) as [_ Hsp]. unfold same_pointer in Hsp.
    destruct (prepare_changeset b cs s) as [s2 [p|e]] eqn:Ep; cbn [fst] in Hsp.
    2:{ left. assert (Hr : s1 = s2 /\ exists status code body, res = _result cs status (current_pointer s2.2) code body).
        { destruct e as [[]| | |[[]| | | | | |]|]; injection Hp as <- <-; (split; [done|]); by eexists _, _, _. }
        destruct Hr as [-> Hr]. done. }
    cbn [between inside alone id] in Hp. apply prepare_changeset_ok in Ep as (l & src & Hl & Hpar & Epc & Epub).
    unfold activate_changeset in Hp. rewrite Epc in Hp.
    destruct (match prep_candidate (pcs_publication p) with Some _ => _ | None => _ end).
    2:{ injection Hp as <- <-. left. split; [done|]. by eexists _, _, _. }
    destruct (activate_prepared id (pcs_publication p) s2) as [s3 ra] eqn:Ea.
    apply activate_prepared_pointer in Ea as [[Hst Hx]|(cand & x & Ec & Hno & Hcur & -> & Hx & [row Hrow])].
    + unfold same_pointer in Hst. left.
      assert (Hr : s1 = s3 /\ exists status code body, res = _result cs status (current_pointer s3.2) code body);
        [|destruct Hr as [-> Hr]; split; [congruence | done]].
      destruct ra as [x|[[]| | | | | |]]; try discriminate Hp; injection Hp as <- <-; (split; [done|]); [|by eexists _, _, _].
      destruct (Hx x eq_refl) as [->| ->]; [by eexists _, _, _|]. destruct (truthy _); by eexists _, _, _.
    + injection Hp as <- <-. right.
      destruct (candidate_bound b cs l src s s2 _ cand Hk Hn Hv Hi Hl Epub Ec Hno) as [Hb Hh].
      exists p, cand. eexists _, row. do 5 (split; [done|]).
      split; [by eapply resolved_id|]. split; [done|]. split; [done|]. rewrite Hx.
      assert (truthy (Some (cand_generation_id cand)) = true) as ->; [|reflexivity].
      cbn. apply canonical_hash_ok in Hh as (j & _ & ->). apply sha256_hex_nonempty.
Qed.
(** What a publication hashed collides: the descriptor it prepared, and the descriptor and
    claims of the generation registered under its identifier. *)
Definition replay_collision b cs (s s1 : G * db) (gid : string) : Prop :=
  exists p cand row accepted stored,
    (prepare_changeset b cs s).2 = Ok p /\ prep_candidate (pcs_publication p) = Some cand /\
    generation s1.2 !! gid = Some row /\ registered b s1.1 gid row accepted stored /\
    collision (preimage (cand_descriptor cand) ++ preimage (cand_descriptor stored) ++ claim_preimages accepted).
End Replay.

(** ** Properties *)

(** C13: a change set is published once.  Publishing keeps the protocol's invariant whatever
    other publishers do.  Undisturbed, a result other than "ok" leaves the pointer where it
    was; "ok" reports the generation the pointer names; the pointer moves only if the
    parent was current, and then the new generation is bound to the change set: publishing
    the same change set again - whatever others do meanwhile - is recognised as a replay of
    that generation and moves nothing, or the bytes hashed for the prepared descriptor, the
    stored one and the stored claims collide. *)
Theorem changeset_published_once {U : Unicode} {D : Digest} {L : UnicodeCase} {R : JsonReader} {E : Ed25519}
    {C : ChangeObjectResolver} {G : Type} `{GitLaws G} (b : GenerationBuilder) r cs (s s1 : G * db) res :
  keyring_ok (gb_keyring b) -> nfc (gb_key_id b) = gb_key_id b -> resolver_valid -> fair b r -> pub_inv b s ->
  publish_changeset b alone cs s = (s1, Ok res) ->
  pub_inv b (publish_changeset b r cs s).1 /\
  (res_status res <> "ok" -> current_pointer s1.2 = current_pointer s.2) /\
  (res_status res = "ok" -> Contracts.res_generation_id res = current_pointer s1.2) /\
  (forall gid, current_pointer s1.2 = Some gid -> current_pointer s.2 <> Some gid ->
     res_status res = "ok" /\ cs_parent_generation_id cs = current_pointer s.2 /\
     forall r', (exists s2, publish_changeset b r' cs s1 =
         (s2, Ok (_result cs "ok" (Some gid) None
                    [("changeset_id", PStr (changeset_id cs)); ("replayed", PBool true)])) /\
         s2.1 = s1.1 /\ current_pointer s2.2 = Some gid /\ generation s2.2 = generation s1.2) \/
       replay_collision b cs s s1 gid).
Proof.
  intros Hk Hn Hv Hf Hi Hp.
  split; [eapply pub_steps_inv; [by apply publish_changeset_steps | done]|].
  assert (Hi1 : pub_inv b s1).
  { assert (Hfa : fair b (@alone G)) by (split; intros; apply rtc_refl).
    pose proof (publish_changeset_steps b alone cs s Hk Hn Hv Hfa Hi) as Hs. rewrite Hp in Hs. by eapply pub_steps_inv. }
  destruct (publish_alone _ _ _ _ _ Hk Hn Hv Hi Hp)
    as [(Hsp & status & code & body & ->)|(p & cand & body & row & Hprep & Hcand & Hcur & Hrow & Hpar & Hid & Hb & Hh & ->)].
  - split; [done|]. split; [done|]. intros gid Hg Hne. congruence.
  - split; [done|]. split; [by rewrite Hcur|]. intros gid Hg _. split; [done|]. split; [done|]. intros r'.
    assert (gid = cand_generation_id cand) as -> by congruence.
    destruct (pi_rows _ _ Hi1 _ _ Hrow) as (accepted & stored & Ha & HB & Eg & Ec).
    assert (Hreg : registered b s1.1 (cand_generation_id cand) row accepted stored) by by split.
    destruct (replayed b r' cs s1 _ row _ accepted stored Hk Hn Hid Hreg Hcur Hrow Hb Hh) as [?|Hc]; [by left | right].
    by exists p, cand, row, accepted, stored.
Qed.

(** ** Evaluations: the two claims of Assembler.v as one change set *)

Definition sample_hash (c : CompiledClaim) : string :=
  match compiled_claim_hash (U := unicode_sample) (D := pad_digest) c with Ok h => h | Err _ => "" end.
Definition sample_object (c : CompiledClaim) : ResolvedChangeObject :=
  {| object_ref := ref_of (assertion_id (assertion c)) (sample_hash c); revision_hash := sample_hash c;
     compiled_claim := c |}.
Definition sample_objects : list ResolvedChangeObject := map sample_object made_claims.

#[export] Instance sample_resolver : ChangeObjectResolver :=
  {| resolve := fun _ ref => list_find (fun o => object_ref o = ref) sample_objects ≫= fun p => Some p.2 |}.

Definition no_changeset : AcceptedChangeSet :=
  {| cs_contract_version := ""; changeset_id := ""; cs_workspace_id := ""; cs_parent_generation_id := None;
     cs_command_ids := []; cs_object_refs := []; changes_root := "" |}.
Definition sample_changeset : AcceptedChangeSet :=
  match build_changeset (U := unicode_sample) (D := pad_digest) "ws" None ["cmd-2"; "cmd-1"] sample_objects with
  | Ok cs => cs | Err _ => no_changeset end.

Lemma sample_built :
  build_changeset (U := unicode_sample) (D := pad_digest) "ws" None ["cmd-2"; "cmd-1"] sample_objects = Ok sample_changeset.
Proof. vm_compute. reflexivity. Qed.

Lemma sample_objects_ok o :
  o ∈ sample_objects -> resolve "ws" (object_ref o) = Some o /\ object_ok (U := unicode_sample) (D := pad_digest) o.
Proof.
  unfold sample_objects, made_claims. cbn [map]. rewrite !elem_of_cons, elem_of_nil.
  intros [->|[->|[]]]; (split; [vm_compute; reflexivity | split; vm_compute; reflexivity]).
Qed.

Lemma sample_resolver_valid : resolver_valid (U := unicode_sample) (D := pad_digest) (C := sample_resolver).
Proof.
  intros ws ref o Ho. unfold resolve, sample_resolver in Ho. apply bind_Some in Ho as ([i x] & Hf & Ho).
  injection Ho as <-. apply list_find_Some in Hf as (Hx & _). apply list_elem_of_lookup_2 in Hx.
  unfold sample_objects in Hx. apply list_elem_of_fmap in Hx as (c & -> & Hc). unfold snd, sample_object, compiled_claim.
  pose proof (cs_valid _ made_claims_ok) as Hv. rewrite list.Forall_forall in Hv. by apply Hv.
Qed.

Lemma changeset_id_names_objects_witness :
  _resolve (U := unicode_sample) (D := pad_digest) (C := sample_resolver) sample_changeset =
    Ok (sort_on object_ref sample_objects).
Proof.
  exact (proj1 (changeset_id_names_objects (U := unicode_sample) (D := pad_digest) (C := sample_resolver)
    (C' := sample_resolver) "ws" None ["cmd-2"; "cmd-1"] sample_objects sample_changeset sample_changeset
    sample_changeset [] []) sample_built sample_objects_ok).
Defined.

Definition sample_change_publish : mem_repo * db * result cs_error CoreResult :=
  publish_changeset (U := unicode_sample) (D := pad_digest) (L := case_sample) (R := canonical_reader)
    (E := toy_ed25519) (C := sample_resolver) sample_builder alone sample_changeset empty_state.
Definition no_result : CoreResult :=
  {| res_contract_version := ""; request_id := ""; res_status := ""; Contracts.res_generation_id := None;
     res_result := PNone; error_code := None |}.
Definition sample_result : CoreResult :=
  match snd sample_change_publish with Ok r => r | Err _ => no_result end.

Lemma sample_change_ok :
  publish_changeset (U := unicode_sample) (D := pad_digest) (L := case_sample) (R := canonical_reader)
    (E := toy_ed25519) (C := sample_resolver) sample_builder alone sample_changeset empty_state =
  (fst sample_change_publish, Ok sample_result).
Proof.
  assert (H : is_ok (snd sample_change_publish) = true) by (vm_compute; reflexivity).
  unfold sample_result. fold sample_change_publish. destruct sample_change_publish as [g [c|e]]; [done | discriminate H].
Qed.

(** The change set is published, and a second publication is a replay. *)
Example change_published :
  res_status sample_result = "ok" /\ error_code sample_result = None /\
  bool_decide (is_Some (current_pointer (fst sample_change_publish).2)) = true.
Proof. vm_compute. repeat split. Qed.

Lemma alone_fair : fair (U := unicode_sample) (D := pad_digest) (L := case_sample) (E := toy_ed25519)
  sample_builder (alone (G := mem_repo)).
Proof. split; intros; apply rtc_refl. Qed.

Lemma changeset_published_once_witness :
  Contracts.res_generation_id sample_result = current_pointer (fst sample_change_publish).2.
Proof.
  exact (proj1 (proj2 (proj2 (changeset_published_once (U := unicode_sample) (D := pad_digest) (L := case_sample)
    (R := canonical_reader) (E := toy_ed25519) (C := sample_resolver) sample_builder alone sample_changeset
    empty_state (fst sample_change_publish) sample_result toy_keyring_ok eq_refl sample_resolver_valid alone_fair
    empty_inv sample_change_ok))) (proj1 change_published)).
Defined.
