(* ===== verification/Timestamps.v ===== *)
(** * Instants and their canonical text (memory_runtime/contracts.py)

    Python's aware UTC [datetime] as the number of microseconds since 0001-01-01T00:00:00Z,
    in the range the type has; the calendar as [datetime] computes it.  [strptime] and
    [strftime] are written out for the one format the program uses. *)
From S2P Require Import Prelude Digest Canonical Contracts.
#[local] Open Scope Z_scope.

Definition SECOND : Z := 1000000.
Definition DAY : Z := 86400 * SECOND.

(** [datetime.max] is the last microsecond of the year 9999. *)
Definition MAX_DAYS : Z := 3652059.
Definition in_range (t : Z) : Prop := 0 <= t < MAX_DAYS * DAY.

#[export] Instance in_range_dec t : Decision (in_range t).
Proof. unfold in_range. solve_decision. Defined.

(** ** The calendar *)

Definition is_leap (year : Z) : bool :=
  (year mod 4 =? 0) && (negb (year mod 100 =? 0) || (year mod 400 =? 0)).

(** Days before January 1st of [year]. *)
Definition days_before_year (year : Z) : Z :=
  let y := year - 1 in y * 365 + y / 4 - y / 100 + y / 400.

Definition month_lengths (leap : bool) : list Z :=
  [31; if leap then 29 else 28; 31; 30; 31; 30; 31; 31; 30; 31; 30; 31].

Definition days_in_month (leap : bool) (month : Z) : Z :=
  nth (Z.to_nat (month - 1)) (month_lengths leap) 0.

Definition days_before_month (leap : bool) (month : Z) : Z :=
  foldr Z.add 0 (firstn (Z.to_nat (month - 1)) (month_lengths leap)).

Definition valid_date (y m d : Z) : bool :=
  (1 <=? y) && (y <=? 9999) && (1 <=? m) && (m <=? 12) && (1 <=? d) && (d <=? days_in_month (is_leap y) m).

(** The number of the day, from 0. *)
Definition ymd2ord (y m d : Z) : Z := days_before_year y + days_before_month (is_leap y) m + (d - 1).

(** The month and day of the [n]-th day of a year. *)
Fixpoint month_day (lengths : list Z) (month n : Z) : Z * Z :=
  match lengths with
  | [] => (month, n + 1)
  | l :: lengths => if n <? l then (month, n + 1) else month_day lengths (month + 1) (n - l)
  end.

Definition ord2ymd (ord : Z) : Z * Z * Z :=
  let n400 := ord / 146097 in let r400 := ord mod 146097 in
  let n100 := r400 / 36524 in let r100 := r400 mod 36524 in
  let n4 := r100 / 1461 in let r4 := r100 mod 1461 in
  let n1 := r4 / 365 in let n := r4 mod 365 in
  let year := n400 * 400 + n100 * 100 + n4 * 4 + n1 + 1 in
  if (n1 =? 4) || (n100 =? 4) then (year - 1, 12, 31)
  else let '(m, d) := month_day (month_lengths (is_leap year)) 1 n in (year, m, d).

(** ** Texts *)

Definition digit_value (c : ascii) : Z := Z.of_N (N_of_ascii c) - 48.
Definition digit (z : Z) : ascii := ascii_of_N (Z.to_N (48 + z)).
Definition number (l : list ascii) : Z := foldl (fun a c => 10 * a + digit_value c) 0 l.
Definition digits2 (z : Z) : list ascii := [digit (z / 10); digit (z mod 10)].
Definition digits4 (z : Z) : list ascii :=
  [digit (z / 1000); digit (z / 100 mod 10); digit (z / 10 mod 10); digit (z mod 10)].

Record fields : Type := { f_year : Z; f_month : Z; f_day : Z; f_hour : Z; f_minute : Z; f_second : Z }.

(** The pattern of the text.  [\d] also matches digits of other scripts; a text with such
    digits is not the one [strftime] writes, so it is refused either way. *)
Definition scan_fields (l : list ascii) : option fields :=
  match l with
  | [y1; y2; y3; y4; c1; m1; m2; c2; d1; d2; c3; h1; h2; c4; n1; n2; c5; s1; s2; c6] =>
      if forallb is_digit [y1; y2; y3; y4; m1; m2; d1; d2; h1; h2; n1; n2; s1; s2] &&
         bool_decide ([c1; c2; c3; c4; c5; c6] = ["-"; "-"; "T"; ":"; ":"; "Z"]%char)
      then Some {| f_year := number [y1; y2; y3; y4]; f_month := number [m1; m2]; f_day := number [d1; d2];
                   f_hour := number [h1; h2]; f_minute := number [n1; n2]; f_second := number [s1; s2] |}
      else None
  | _ => None
  end.

Definition write_fields (f : fields) : list ascii :=
  (digits4 (f_year f) ++ ["-"%char] ++ digits2 (f_month f) ++ ["-"%char] ++ digits2 (f_day f) ++ ["T"%char] ++
   digits2 (f_hour f) ++ [":"%char] ++ digits2 (f_minute f) ++ [":"%char] ++ digits2 (f_second f) ++ ["Z"%char])%list.

Definition valid_fields (f : fields) : bool :=
  valid_date (f_year f) (f_month f) (f_day f) &&
  (0 <=? f_hour f) && (f_hour f <=? 23) && (0 <=? f_minute f) && (f_minute f <=? 59) &&
  (0 <=? f_second f) && (f_second f <=? 59).

Definition instant (f : fields) : Z :=
  ymd2ord (f_year f) (f_month f) (f_day f) * DAY +
  (f_hour f * 3600 + f_minute f * 60 + f_second f) * SECOND.

Definition fields_of (t : Z) : fields :=
  let '(y, m, d) := ord2ymd (t / DAY) in
  let s := t mod DAY / SECOND in
  {| f_year := y; f_month := m; f_day := d;
     f_hour := s / 3600; f_minute := s / 60 mod 60; f_second := s mod 60 |}.

Definition format_utc_timestamp (t : Z) : string := String.string_of_list_ascii (write_fields (fields_of t)).

(** [None] is InvalidContractValue. *)
Definition parse_utc_timestamp (value : string) : option Z :=
  f ← scan_fields (String.list_ascii_of_string value);
  if valid_fields f
  then let parsed := instant f in
       if String.eqb (format_utc_timestamp parsed) value then Some parsed else None
  else None.

(** [datetime + timedelta]: [None] is OverflowError. *)
Definition add_delta (t d : Z) : option Z := if decide (in_range (t + d)) then Some (t + d) else None.

(** [replace(microsecond=0)] *)
Definition whole_second (t : Z) : Z := t - t mod SECOND.

Example epoch_text : format_utc_timestamp (719162 * DAY) = "1970-01-01T00:00:00Z".
Proof. reflexivity. Qed.
Example leap_day : parse_utc_timestamp "2024-02-29T12:30:05Z" = Some (738944 * DAY + 45005 * SECOND).
Proof. vm_compute. reflexivity. Qed.
Example no_leap_day : parse_utc_timestamp "1900-02-29T00:00:00Z" = None.
Proof. vm_compute. reflexivity. Qed.

(** ** The calendar's conversions are inverse *)

Ltac div_lia := Z.to_euclidean_division_equations; lia.

(** A year as its place in the 400-year cycle. *)
Lemma year_split year : exists a b c e,
  year = 400 * a + 100 * b + 4 * c + e + 1 /\ 0 <= b <= 3 /\ 0 <= c <= 24 /\ 0 <= e <= 3.
Proof.
  exists ((year - 1) / 400), ((year - 1) mod 400 / 100), ((year - 1) mod 100 / 4), ((year - 1) mod 4). div_lia.
Qed.

Section Cycle.
Context (a b c e : Z) (Hb : 0 <= b <= 3) (Hc : 0 <= c <= 24) (He : 0 <= e <= 3).

Lemma days_before_year_split :
  days_before_year (400 * a + 100 * b + 4 * c + e + 1) = 146097 * a + 36524 * b + 1461 * c + 365 * e.
Proof using Hb Hc He. unfold days_before_year. cbv zeta. div_lia. Qed.

Lemma is_leap_split : is_leap (400 * a + 100 * b + 4 * c + e + 1) = (e =? 3) && (negb (c =? 24) || (b =? 3)).
Proof using Hb Hc He.
  unfold is_leap. apply Bool.eq_iff_eq_true.
  rewrite !andb_true_iff, !orb_true_iff, !negb_true_iff, !Z.eqb_eq, !Z.eqb_neq. div_lia.
Qed.
End Cycle.

Definition year_length (leap : bool) : Z := if leap then 366 else 365.

(** The year and the day of the year of a day. *)
Lemma ord2ymd_year a b c e n :
  0 <= b <= 3 -> 0 <= c <= 24 -> 0 <= e <= 3 ->
  let year := 400 * a + 100 * b + 4 * c + e + 1 in
  0 <= n < year_length (is_leap year) ->
  ord2ymd (days_before_year year + n) =
  if (n =? 365) then (year, 12, 31)
  else let '(m, d) := month_day (month_lengths (is_leap year)) 1 n in (year, m, d).
Proof.
  intros Hb Hc He year Hn. unfold year in *. rewrite days_before_year_split, is_leap_split in * by done.
  remember ((e =? 3) && (negb (c =? 24) || (b =? 3))) as leap eqn:El.
  assert (Hl : leap = true -> e = 3 /\ (c < 24 \/ b = 3)).
  { rewrite El. rewrite andb_true_iff, orb_true_iff, negb_true_iff, !Z.eqb_eq, Z.eqb_neq. lia. }
  assert (Hn' : 0 <= n < 365 \/ n = 365 /\ e = 3 /\ (c < 24 \/ b = 3)).
  { destruct leap; cbn in Hn; [specialize (Hl eq_refl) |]; lia. }
  unfold ord2ymd. set (ord := _ + n).
  assert (E1 : ord / 146097 = a) by (subst ord; div_lia).
  assert (E2 : ord mod 146097 = 36524 * b + 1461 * c + 365 * e + n) by (subst ord; div_lia).
  rewrite E1, E2. clear E1 E2 ord. destruct Hn' as [Hn' | (-> & -> & Hx)].
  - assert (E3 : (36524 * b + 1461 * c + 365 * e + n) / 36524 = b) by div_lia.
    assert (E4 : (36524 * b + 1461 * c + 365 * e + n) mod 36524 = 1461 * c + 365 * e + n) by div_lia.
    rewrite E3, E4. clear E3 E4.
    assert (E5 : (1461 * c + 365 * e + n) / 1461 = c) by div_lia.
    assert (E6 : (1461 * c + 365 * e + n) mod 1461 = 365 * e + n) by div_lia.
    rewrite E5, E6. clear E5 E6.
    assert (E7 : (365 * e + n) / 365 = e) by div_lia.
    assert (E8 : (365 * e + n) mod 365 = n) by div_lia.
    rewrite E7, E8. clear E7 E8.
    replace ((e =? 4) || (b =? 4)) with false by lia. replace (n =? 365) with false by lia.
    replace (a * 400 + b * 100 + c * 4 + e + 1) with (400 * a + 100 * b + 4 * c + e + 1) by lia.
    by rewrite is_leap_split, <- El.
  - replace (365 =? 365) with true by done.
    assert (E : c < 24 \/ (c = 24 /\ b = 3)) by lia. clear Hx.
    set (r := 36524 * b + 1461 * c + 365 * 3 + 365).
    destruct E as [E|[-> ->]].
    + assert (E3 : r / 36524 = b) by (subst r; div_lia).
      assert (E4 : r mod 36524 = 1461 * c + 1460) by (subst r; div_lia).
      rewrite E3, E4. assert (E5 : (1461 * c + 1460) / 1461 = c) by div_lia.
      assert (E6 : (1461 * c + 1460) mod 1461 = 1460) by div_lia. rewrite E5, E6.
      change ((1460 / 365 =? 4) || (b =? 4)) with true. cbn [orb]. change (1460 / 365) with 4. repeat f_equal; lia.
    + change (r / 36524) with 4. cbn -[Z.mul Z.add Z.sub]. change (r mod 36524) with 0.
      change (0 / 1461) with 0. change (0 mod 1461 / 365) with 0. repeat f_equal; lia.
Qed.

Ltac eval_months :=
  repeat match goal with
  | |- context [days_in_month ?l ?m] => let v := eval vm_compute in (days_in_month l m) in change (days_in_month l m) with v
  | |- context [days_before_month ?l ?m] =>
      let v := eval vm_compute in (days_before_month l m) in change (days_before_month l m) with v
  | H : context [days_in_month ?l ?m] |- _ =>
      let v := eval vm_compute in (days_in_month l m) in change (days_in_month l m) with v in H
  end.

Ltac split_ltb := match goal with |- context [if ?x <? ?y then _ else _] => destruct (Z.ltb_spec x y) end.

Lemma month_day_spec leap n :
  0 <= n < year_length leap -> let '(m, d) := month_day (month_lengths leap) 1 n in
  1 <= m <= 12 /\ 1 <= d <= days_in_month leap m /\ days_before_month leap m + (d - 1) = n.
Proof.
  intros Hn. destruct leap; cbn [month_lengths month_day year_length] in *;
    repeat (split_ltb; [cbv beta iota; eval_months; lia|]); lia.
Qed.

Lemma month_day_inv leap m d :
  1 <= m <= 12 -> 1 <= d <= days_in_month leap m ->
  month_day (month_lengths leap) 1 (days_before_month leap m + (d - 1)) = (m, d) /\
  0 <= days_before_month leap m + (d - 1) < year_length leap.
Proof.
  intros Hm Hd.
  assert (m = 1 \/ m = 2 \/ m = 3 \/ m = 4 \/ m = 5 \/ m = 6 \/ m = 7 \/ m = 8 \/ m = 9 \/ m = 10 \/ m = 11 \/ m = 12)
    as Hc by lia.
  destruct leap; repeat destruct Hc as [-> | Hc]; try subst m;
    eval_months; cbn [month_lengths month_day year_length]; (split; [|lia]);
    repeat (split_ltb; [try lia; f_equal; lia|]); lia.
Qed.

Lemma days_before_month_end leap m d : 1 <= m <= 12 -> days_before_month leap m + (d - 1) = 365 ->
  1 <= d <= days_in_month leap m -> leap = true /\ m = 12 /\ d = 31.
Proof.
  intros Hm Hn Hd. destruct (month_day_inv leap m d Hm Hd) as [E Hr]. rewrite Hn in E, Hr.
  destruct leap; cbn [year_length] in Hr; [|lia]. vm_compute in E. by injection E as <- <-.
Qed.

Lemma ord2ymd_ymd2ord y m d : valid_date y m d = true -> ord2ymd (ymd2ord y m d) = (y, m, d).
Proof.
  unfold valid_date. rewrite !andb_true_iff, !Z.leb_le. intros [[[[[Hy1 Hy2] Hm1] Hm2] Hd1] Hd2].
  destruct (year_split y) as (a & b & c & e & Ey & Hb & Hc & He).
  destruct (month_day_inv (is_leap y) m d) as [Emd Hn]; [lia..|]. unfold ymd2ord. rewrite <- Z.add_assoc.
  set (n := days_before_month (is_leap y) m + (d - 1)) in *. rewrite Ey in *.
  rewrite ord2ymd_year by done. destruct (Z.eqb_spec n 365) as [E|]; [|by rewrite Emd].
  destruct (days_before_month_end (is_leap y) m d) as (_ & -> & ->); [lia | exact E | rewrite Ey; lia | done].
Qed.

(** The day [n] of [year]. *)
Lemma ord_year ord : exists year n, ord = days_before_year year + n /\ 0 <= n < year_length (is_leap year).
Proof.
  pose (a := ord / 146097). pose (r := ord mod 146097).
  pose (b := Z.min 3 (r / 36524)). pose (r2 := r - 36524 * b).
  pose (c := r2 / 1461). pose (r3 := r2 mod 1461). pose (e := Z.min 3 (r3 / 365)).
  exists (400 * a + 100 * b + 4 * c + e + 1), (r3 - 365 * e).
  assert (Hr : 0 <= r < 146097) by (subst r; div_lia). assert (Ho : ord = 146097 * a + r) by (subst a r; div_lia).
  assert (Hb : 0 <= b <= 3) by (subst b; div_lia).
  assert (Hr2 : 0 <= r2 < 36525 /\ (r2 = 36524 -> b = 3)) by (subst r2 b; div_lia).
  assert (Hc : 0 <= c <= 24) by (subst c; div_lia).
  assert (E2 : r2 = 1461 * c + r3) by (subst c r3; div_lia).
  assert (Hr3 : 0 <= r3 < 1461) by (subst r3; div_lia).
  assert (He : 0 <= e <= 3) by (subst e; div_lia).
  rewrite days_before_year_split, is_leap_split by done.
  assert (E3 : r = 36524 * b + r2) by (subst r2; lia). clearbody a r b r2 c r3.
  split; [lia|]. destruct (Z.eqb_spec e 3) as [E|E]; cbn [andb year_length].
  - destruct (Z.eqb_spec c 24) as [->|], (Z.eqb_spec b 3) as [->|]; cbn [negb orb year_length]; subst e; div_lia.
  - subst e. div_lia.
Qed.

Lemma ymd2ord_ord2ymd ord : 0 <= ord < MAX_DAYS ->
  let '(y, m, d) := ord2ymd ord in valid_date y m d = true /\ ymd2ord y m d = ord.
Proof.
  intros Ho. destruct (ord_year ord) as (year & n & -> & Hn).
  destruct (year_split year) as (a & b & c & e & Ey & Hb & Hc & He).
  assert (Hy : 1 <= year <= 9999).
  { rewrite Ey, days_before_year_split in Ho by done. unfold MAX_DAYS in Ho.
    destruct (is_leap year); cbn in Hn; lia. }
  pose proof (month_day_spec _ _ Hn) as Hmd. rewrite Ey in Hn |- *. rewrite ord2ymd_year by done. rewrite <- Ey in *.
  destruct (Z.eqb_spec n 365) as [->|]; [|destruct (month_day _ 1 n) as [m d]];
    unfold valid_date, ymd2ord; rewrite !andb_true_iff, !Z.leb_le; [|lia].
  destruct (is_leap year); cbn in Hn; [|lia]. eval_months. lia.
Qed.

(** ** Texts denote instants *)

Lemma digit_value_digit z : 0 <= z <= 9 -> digit_value (digit z) = z /\ is_digit (digit z) = true.
Proof.
  intros Hz. assert (z = 0 \/ z = 1 \/ z = 2 \/ z = 3 \/ z = 4 \/ z = 5 \/ z = 6 \/ z = 7 \/ z = 8 \/ z = 9) as Hc by lia.
  repeat destruct Hc as [-> | Hc]; try subst z; by vm_compute.
Qed.

Lemma number2 z : 0 <= z <= 99 -> number (digits2 z) = z /\ forallb is_digit (digits2 z) = true.
Proof.
  intros Hz. unfold number, digits2; cbn [foldl forallb].
  destruct (digit_value_digit (z / 10)) as [-> ->]; [div_lia|].
  destruct (digit_value_digit (z mod 10)) as [-> ->]; [div_lia|]. split; [div_lia | done].
Qed.

Lemma number4 z : 0 <= z <= 9999 -> number (digits4 z) = z /\ forallb is_digit (digits4 z) = true.
Proof.
  intros Hz. unfold number, digits4; cbn [foldl forallb].
  destruct (digit_value_digit (z / 1000)) as [-> ->]; [div_lia|].
  destruct (digit_value_digit (z / 100 mod 10)) as [-> ->]; [div_lia|].
  destruct (digit_value_digit (z / 10 mod 10)) as [-> ->]; [div_lia|].
  destruct (digit_value_digit (z mod 10)) as [-> ->]; [div_lia|]. split; [div_lia | done].
Qed.

Lemma valid_fields_ok f : valid_fields f = true <->
  valid_date (f_year f) (f_month f) (f_day f) = true /\
  0 <= f_hour f <= 23 /\ 0 <= f_minute f <= 59 /\ 0 <= f_second f <= 59.
Proof. unfold valid_fields. rewrite !andb_true_iff, !Z.leb_le. intuition lia. Qed.

Lemma valid_date_ranges y m d : valid_date y m d = true -> 1 <= y <= 9999 /\ 1 <= m <= 12 /\ 1 <= d <= 31.
Proof.
  unfold valid_date. rewrite !andb_true_iff, !Z.leb_le. intros H.
  assert (days_in_month (is_leap y) m <= 31); [|lia].
  assert (m = 1 \/ m = 2 \/ m = 3 \/ m = 4 \/ m = 5 \/ m = 6 \/ m = 7 \/ m = 8 \/ m = 9 \/ m = 10 \/ m = 11 \/ m = 12)
    as Hc by lia.
  destruct (is_leap y); repeat destruct Hc as [-> | Hc]; try subst m; by vm_compute.
Qed.

Lemma scan_write f : valid_fields f = true -> scan_fields (write_fields f) = Some f.
Proof.
  intros (Hd & Hh & Hm & Hs)%valid_fields_ok. apply valid_date_ranges in Hd.
  destruct (number4 (f_year f)) as [Ny Dy]; [lia|]. destruct (number2 (f_month f)) as [Nm Dm]; [lia|].
  destruct (number2 (f_day f)) as [Nd Dd]; [lia|]. destruct (number2 (f_hour f)) as [Nh Dh]; [lia|].
  destruct (number2 (f_minute f)) as [Ni Di]; [lia|]. destruct (number2 (f_second f)) as [Ns Ds]; [lia|].
  unfold write_fields, digits4, digits2 in *. cbn [app scan_fields]. rewrite Ny, Nm, Nd, Nh, Ni, Ns.
  cbn [forallb] in *. split_and_bool.
  repeat match goal with H : is_digit _ = true |- _ => rewrite H; clear H end.
  rewrite bool_decide_true by done. by destruct f.
Qed.

Lemma instant_range f : valid_fields f = true -> in_range (instant f) /\ instant f mod SECOND = 0.
Proof.
  intros (Hd & Hh & Hm & Hs)%valid_fields_ok.
  assert (Ho : 0 <= ymd2ord (f_year f) (f_month f) (f_day f) < MAX_DAYS).
  { pose proof Hd as Hd'. unfold valid_date in Hd'. rewrite !andb_true_iff, !Z.leb_le in Hd'.
    destruct (year_split (f_year f)) as (a & b & c & e & Ey & Hb & Hc & He).
    destruct (month_day_inv (is_leap (f_year f)) (f_month f) (f_day f)) as [_ Hn]; [lia..|].
    unfold ymd2ord, MAX_DAYS. rewrite <- Z.add_assoc. rewrite Ey in *. rewrite days_before_year_split, is_leap_split in * by done.
    destruct (Z.eqb_spec e 3), (Z.eqb_spec c 24), (Z.eqb_spec b 3); cbn [andb negb orb year_length] in Hn |- *; lia. }
  unfold in_range, instant, MAX_DAYS, DAY, SECOND in *. div_lia.
Qed.

Lemma fields_of_instant f : valid_fields f = true -> fields_of (instant f) = f.
Proof.
  intros (Hd & Hh & Hm & Hs)%valid_fields_ok. unfold fields_of, instant.
  set (o := ymd2ord _ _ _). set (s := f_hour f * 3600 + f_minute f * 60 + f_second f).
  assert (Hs' : 0 <= s < 86400) by (subst s; lia).
  assert (E1 : (o * DAY + s * SECOND) / DAY = o) by (unfold DAY, SECOND; div_lia).
  assert (E2 : (o * DAY + s * SECOND) mod DAY / SECOND = s) by (unfold DAY, SECOND; div_lia).
  rewrite E1, E2. subst o. rewrite ord2ymd_ymd2ord by done. destruct f; cbn in *. f_equal; subst s; div_lia.
Qed.

Lemma fields_of_valid t : in_range t -> valid_fields (fields_of t) = true /\ instant (fields_of t) = whole_second t.
Proof.
  intros Ht. unfold fields_of, in_range in *.
  pose proof (ymd2ord_ord2ymd (t / DAY)) as Ho. destruct (ord2ymd (t / DAY)) as [[y m] d].
  destruct Ho as [Hv Ho]; [unfold MAX_DAYS, DAY, SECOND in *; div_lia|].
  rewrite valid_fields_ok. unfold instant; cbn [f_year f_month f_day f_hour f_minute f_second]. rewrite Ho.
  assert (Hs : 0 <= t mod DAY / SECOND < 86400) by (unfold DAY, SECOND; div_lia).
  split; [split; [done|div_lia]|]. unfold whole_second, DAY, SECOND in *. div_lia.
Qed.

Lemma format_inv t : String.list_ascii_of_string (format_utc_timestamp t) = write_fields (fields_of t).
Proof. unfold format_utc_timestamp. apply String.list_ascii_of_string_of_list_ascii. Qed.

(** What is written reads back, to the second. *)
Lemma parse_format t : in_range t -> parse_utc_timestamp (format_utc_timestamp t) = Some (whole_second t).
Proof.
  intros Ht. destruct (fields_of_valid t Ht) as [Hv Hi]. unfold parse_utc_timestamp.
  rewrite format_inv, (scan_write _ Hv). cbn [mbind option_bind]. rewrite Hv.
  unfold format_utc_timestamp at 1. by rewrite (fields_of_instant _ Hv), <- Hi, String.eqb_refl.
Qed.

Lemma parse_utc_ok s t : parse_utc_timestamp s = Some t ->
  in_range t /\ whole_second t = t /\ format_utc_timestamp t = s.
Proof.
  unfold parse_utc_timestamp. intros (f & Hf & H)%bind_Some. destruct (valid_fields f) eqn:Hv; [|done].
  destruct (String.eqb_spec (format_utc_timestamp (instant f)) s); [|done]. injection H as <-.
  destruct (instant_range f Hv) as [Hr Hm]. split; [done|]. split; [|done]. unfold whole_second. lia.
Qed.

Lemma whole_second_range t : in_range t -> in_range (whole_second t) /\ whole_second (whole_second t) = whole_second t.
Proof. unfold in_range, whole_second, MAX_DAYS, DAY, SECOND. div_lia. Qed.

Lemma is_digit_ascii c : is_digit c = true -> (N_of_ascii c <? 128)%N = true.
Proof. unfold is_digit. rewrite andb_true_iff, !N.leb_le, N.ltb_lt. lia. Qed.

(** A timestamp is ASCII text. *)
Lemma timestamp_ascii s t : parse_utc_timestamp s = Some t -> is_ascii s = true /\ str_nonempty s = true.
Proof.
  unfold parse_utc_timestamp. intros (f & Hf & _)%bind_Some.
  rewrite <- (String.string_of_list_ascii_of_string s). revert Hf. generalize (String.list_ascii_of_string s). intros l Hl.
  do 21 (destruct l as [|? l]; [try discriminate Hl|]); [|discriminate Hl]. cbn [scan_fields] in Hl.
  destruct (_ && _) eqn:E in Hl; [|discriminate Hl]. apply andb_true_iff in E as [Hd Hc%bool_decide_eq_true].
  injection Hc as -> -> -> -> -> ->. cbn [forallb] in Hd. split_and_bool. split; [|done].
  unfold is_ascii. cbn [String.string_of_list_ascii str_forall].
  repeat match goal with H : is_digit _ = true |- _ => rewrite (is_digit_ascii _ H); clear H end. reflexivity.
Qed.

#[global] Arguments format_utc_timestamp : simpl never.
#[global] Arguments parse_utc_timestamp : simpl never.
