(* ===== verification/RuntimeContracts.v ===== *)
(** * Contracts of the phase 4 runtime (memory_runtime/contracts.py, memory_runtime/errors.py)

    The request with its content-derived operation identifier, the cancellation signal, the
    reference to a stage result, the status and the response of an operation, each with its
    validating constructor from a mapping.  Every string that enters is normalized. *)
From S2P Require Import Prelude Digest Json Canonical Hashing Contracts Timestamps.
Open Scope string_scope.

(** The taxonomy of errors.py, and the KeyError of a missing argument. *)
Inductive runtime_error : Type :=
| RtUnsupportedVersion
| RtUnknownField
| RtInvalidValue
| RtKeyError.

#[export] Instance runtime_error_eq_dec : EqDecision runtime_error.
Proof. solve_decision. Defined.

Definition RUNTIME_REQUEST_VERSION : string := "phase4-runtime-request-v1".
Definition RUNTIME_RESPONSE_VERSION : string := "phase4-runtime-response-v1".
Definition RUNTIME_STATUS_VERSION : string := "phase4-runtime-status-v1".
Definition STAGE_RESULT_REF_VERSION : string := "phase4-stage-result-ref-v1".
Definition CANCELLATION_SIGNAL_VERSION : string := "phase4-cancellation-signal-v1".

Definition NUL : string := String (ascii_of_nat 0) "".
Definition _OPERATION_DOMAIN : string := "wiki.runtime.operation.v1" +:+ NUL.
Definition _STAGE_RESULT_DOMAIN : string := "wiki.runtime.stage-result.v1" +:+ NUL.
Definition _CANCELLATION_DOMAIN : string := "wiki.runtime.cancellation.v1" +:+ NUL.

(** ** States *)

Inductive OperationState : Type :=
| RECEIVED | PLANNED | RETRIEVED | GENERATED | VERIFIED | PROPOSED
| COMPLETED | REJECTED | ABSTAINED | DEGRADED | FAILED | CANCELLED.

#[export] Instance operation_state_eq_dec : EqDecision OperationState.
Proof. solve_decision. Defined.

Definition all_states : list OperationState :=
  [RECEIVED; PLANNED; RETRIEVED; GENERATED; VERIFIED; PROPOSED;
   COMPLETED; REJECTED; ABSTAINED; DEGRADED; FAILED; CANCELLED].

Definition state_value (s : OperationState) : string :=
  match s with
  | RECEIVED => "received" | PLANNED => "planned" | RETRIEVED => "retrieved"
  | GENERATED => "generated" | VERIFIED => "verified" | PROPOSED => "proposed"
  | COMPLETED => "completed" | REJECTED => "rejected" | ABSTAINED => "abstained"
  | DEGRADED => "degraded" | FAILED => "failed" | CANCELLED => "cancelled"
  end.

(** [Enum(value)]: the member with that value. *)
Definition enum_of {A} (value : A -> string) (members : list A) (s : string) : option A :=
  List.find (fun x => String.eqb (value x) s) members.

Definition state_of : string -> option OperationState := enum_of state_value all_states.

Definition TERMINAL_STATES : list OperationState := [COMPLETED; REJECTED; ABSTAINED; DEGRADED; FAILED; CANCELLED].
Definition STAGE_STATES : list OperationState := [PLANNED; RETRIEVED; GENERATED; VERIFIED; PROPOSED].

Definition is_terminal (s : OperationState) : bool := bool_decide (s ∈ TERMINAL_STATES).
Definition stage_names : list string := map state_value STAGE_STATES.

(** [order[stage]] *)
Fixpoint position (l : list string) (x : string) : option nat :=
  match l with
  | [] => None
  | y :: l => if String.eqb y x then Some 0 else S <$> position l x
  end.
Definition stage_order : string -> option nat := position stage_names.

Inductive StageDisposition : Type := CONTINUE | COMPLETE | REJECT | ABSTAIN | DEGRADE.

#[export] Instance stage_disposition_eq_dec : EqDecision StageDisposition.
Proof. solve_decision. Defined.

Definition disposition_value (d : StageDisposition) : string :=
  match d with
  | CONTINUE => "continue" | COMPLETE => "complete" | REJECT => "reject"
  | ABSTAIN => "abstain" | DEGRADE => "degrade"
  end.
Definition disposition_of : string -> option StageDisposition :=
  enum_of disposition_value [CONTINUE; COMPLETE; REJECT; ABSTAIN; DEGRADE].

Inductive RuntimeResponseStatus : Type :=
| RS_COMPLETED | RS_REJECTED | RS_ABSTAINED | RS_DEGRADED | RS_FAILED | RS_CANCELLED | RS_RETRY_LATER.

#[export] Instance response_status_eq_dec : EqDecision RuntimeResponseStatus.
Proof. solve_decision. Defined.

Definition status_value (s : RuntimeResponseStatus) : string :=
  match s with
  | RS_COMPLETED => "completed" | RS_REJECTED => "rejected" | RS_ABSTAINED => "abstained"
  | RS_DEGRADED => "degraded" | RS_FAILED => "failed" | RS_CANCELLED => "cancelled"
  | RS_RETRY_LATER => "retry_later"
  end.
Definition status_of : string -> option RuntimeResponseStatus :=
  enum_of status_value [RS_COMPLETED; RS_REJECTED; RS_ABSTAINED; RS_DEGRADED; RS_FAILED; RS_CANCELLED; RS_RETRY_LATER].

Definition response_status_for_state (s : OperationState) : RuntimeResponseStatus :=
  match s with
  | COMPLETED => RS_COMPLETED | REJECTED => RS_REJECTED | ABSTAINED => RS_ABSTAINED
  | DEGRADED => RS_DEGRADED | FAILED => RS_FAILED | CANCELLED => RS_CANCELLED
  | _ => RS_RETRY_LATER
  end.

(** [re.fullmatch("^[a-z][a-z0-9_.-]{0,127}$", s)] *)
Definition is_lower (c : ascii) : bool := (97 <=? N_of_ascii c)%N && (N_of_ascii c <=? 122)%N.
Definition is_code_char (c : ascii) : bool :=
  is_lower c || is_digit c || Ascii.eqb c "_" || Ascii.eqb c "." || Ascii.eqb c "-".
Definition is_safe_code (s : string) : bool :=
  match s with
  | EmptyString => false
  | String c s => is_lower c && str_forall is_code_char s && (String.length s <=? 127)%nat
  end.

Section Values.
Context {U : Unicode} {D : Digest} {R : JsonReader}.

(** ** Values *)

Definition runtime_bytes (value : pyval) : result runtime_error string :=
  reraise RtInvalidValue (Contracts.canonical_bytes value).

(** The text and the instant it denotes. *)
Definition timestamp (v : pyval) : result runtime_error (string * Z) :=
  match v with
  | PStr s => t ← of_option RtInvalidValue (parse_utc_timestamp s); Ok (s, t)
  | _ => Err RtInvalidValue
  end.

Definition canonical_integer (v : pyval) : result runtime_error string :=
  match v with
  | PStr s => if is_canonical_int s then Ok s else Err RtInvalidValue
  | _ => Err RtInvalidValue
  end.

Definition runtime_strict (data : mapping) (allowed : list string) : result runtime_error mapping :=
  _ ← ensure (keys_within data allowed) RtUnknownField;
  _ ← ensure (has_keys data allowed) RtInvalidValue;
  Ok data.

Definition _nonempty (v : pyval) : result runtime_error string :=
  match v with
  | PStr s => if str_nonempty (nfc s) then Ok (nfc s) else Err RtInvalidValue
  | _ => Err RtInvalidValue
  end.

Definition _optional_nonempty (v : pyval) : result runtime_error (option string) :=
  match v with PNone => Ok None | _ => s ← _nonempty v; Ok (Some s) end.

Definition _hex64 (v : pyval) : result runtime_error string :=
  text ← _nonempty v; _ ← ensure (is_hex64 text) RtInvalidValue; Ok text.

Definition _safe_code (v : pyval) : result runtime_error string :=
  text ← _nonempty v; _ ← ensure (is_safe_code text) RtInvalidValue; Ok text.

(** [None if value is None else f(value)] *)
Definition optional (f : pyval -> result runtime_error string) (v : pyval) : result runtime_error (option string) :=
  match v with PNone => Ok None | _ => s ← f v; Ok (Some s) end.

(** [json.loads(canonical_bytes({"value": value}))["value"]] *)
Definition canonical_copy (v : pyval) : result runtime_error json :=
  data ← runtime_bytes (py_record [("value", v)]);
  j ← of_option RtInvalidValue (json_loads data);
  match j with JObj ms => of_option RtKeyError (assoc "value" ms) | _ => Err RtKeyError end.

Definition _canonical_object (v : pyval) : result runtime_error (list (string * json)) :=
  match v with
  | PDict _ | PMap _ => j ← canonical_copy v; match j with JObj ms => Ok ms | _ => Err RtInvalidValue end
  | _ => Err RtInvalidValue
  end.

Definition _string_sequence (v : pyval) (unique : bool) : result runtime_error (list string) :=
  match v with
  | PList raw | PTuple raw =>
      l ← map_result _nonempty raw;
      _ ← ensure (negb unique || bool_decide (sorted_unique l = l)) RtInvalidValue;
      Ok l
  | _ => Err RtInvalidValue
  end.

Definition _hash (domain : string) (payload : mapping) : result runtime_error string :=
  data ← runtime_bytes (py_record payload); Ok (sha256_hex (domain +:+ data)).

(** [values[key]] for every key an identity reads *)
Definition reads (values : mapping) (keys : list string) : result runtime_error unit :=
  ensure (has_keys values keys) RtKeyError.

(** ** RuntimeRequest *)

Record RuntimeRequest : Type := {
  rq_request_id : string;
  rq_operation_id : string;
  rq_idempotency_key : string;
  rq_workspace_id : string;
  rq_actor_id : string;
  rq_request_type : string;
  rq_received_at : string;
  rq_deadline_at : string;
  rq_generation_id : option string;
  rq_payload : list (string * json);
}.

Definition REQUEST_FIELDS : list string :=
  ["runtime_request_version"; "request_id"; "operation_id"; "idempotency_key"; "workspace_id"; "actor_id";
   "request_type"; "received_at"; "deadline_at"; "requested_generation_id"; "payload"].

Definition operation_identity (values : mapping) : mapping :=
  [("runtime_request_version", PStr RUNTIME_REQUEST_VERSION);
   ("idempotency_key", field values "idempotency_key"); ("workspace_id", field values "workspace_id");
   ("actor_id", field values "actor_id"); ("request_type", field values "request_type");
   ("deadline_at", field values "deadline_at");
   ("requested_generation_id", field values "requested_generation_id"); ("payload", field values "payload")].

(** [to_mapping], before the payload is copied. *)
Definition request_record (r : RuntimeRequest) : mapping :=
  [("runtime_request_version", PStr RUNTIME_REQUEST_VERSION); ("request_id", PStr (rq_request_id r));
   ("operation_id", PStr (rq_operation_id r)); ("idempotency_key", PStr (rq_idempotency_key r));
   ("workspace_id", PStr (rq_workspace_id r)); ("actor_id", PStr (rq_actor_id r));
   ("request_type", PStr (rq_request_type r)); ("received_at", PStr (rq_received_at r));
   ("deadline_at", PStr (rq_deadline_at r)); ("requested_generation_id", py_opt (rq_generation_id r));
   ("payload", of_json (JObj (rq_payload r)))].

Definition request_from_mapping (data : mapping) : result runtime_error RuntimeRequest :=
  values ← runtime_strict data REQUEST_FIELDS;
  _ ← ensure (py_str_eqb (field values "runtime_request_version") RUNTIME_REQUEST_VERSION) RtUnsupportedVersion;
  rid ← _nonempty (field values "request_id");
  idem ← _nonempty (field values "idempotency_key");
  ws ← _nonempty (field values "workspace_id");
  actor ← _nonempty (field values "actor_id");
  type ← _nonempty (field values "request_type");
  op ← _hex64 (field values "operation_id");
  gen ← _optional_nonempty (field values "requested_generation_id");
  p ← _canonical_object (field values "payload");
  received ← timestamp (field values "received_at");
  deadline ← timestamp (field values "deadline_at");
  _ ← ensure (received.2 <? deadline.2)%Z RtInvalidValue;
  let r := {| rq_request_id := rid; rq_operation_id := op; rq_idempotency_key := idem; rq_workspace_id := ws;
              rq_actor_id := actor; rq_request_type := type; rq_received_at := received.1;
              rq_deadline_at := deadline.1; rq_generation_id := gen; rq_payload := p |} in
  expected ← _hash _OPERATION_DOMAIN (operation_identity (request_record r));
  _ ← ensure (String.eqb op expected) RtInvalidValue;
  Ok r.

Definition request_create (kwargs : mapping) : result runtime_error RuntimeRequest :=
  let values := dict_update [("runtime_request_version", PStr RUNTIME_REQUEST_VERSION)] kwargs in
  p ← _canonical_object (field values "payload");
  let values := assoc_set "payload" (of_json (JObj p)) values in
  _ ← reads values ["idempotency_key"; "workspace_id"; "actor_id"; "request_type"; "deadline_at"; "requested_generation_id"];
  op ← _hash _OPERATION_DOMAIN (operation_identity values);
  request_from_mapping (assoc_set "operation_id" (PStr op) values).

Definition request_to_mapping (r : RuntimeRequest) : result runtime_error mapping :=
  p ← _canonical_object (of_json (JObj (rq_payload r)));
  Ok (assoc_set "payload" (of_json (JObj p)) (request_record r)).

Definition request_bytes (r : RuntimeRequest) : result runtime_error string :=
  m ← request_to_mapping r; runtime_bytes (py_record m).

(** ** CancellationSignal *)

Record CancellationSignal : Type := {
  cancellation_id : string;
  cs_workspace_id : string;
  cs_actor_id : string;
  cs_operation_id : string;
  requested_at : string;
  reason_code : string;
}.

Definition CANCELLATION_FIELDS : list string :=
  ["cancellation_signal_version"; "cancellation_id"; "workspace_id"; "actor_id"; "operation_id"; "requested_at";
   "reason_code"].

Definition cancellation_identity (values : mapping) : mapping :=
  [("cancellation_signal_version", PStr CANCELLATION_SIGNAL_VERSION);
   ("workspace_id", field values "workspace_id"); ("actor_id", field values "actor_id");
   ("operation_id", field values "operation_id"); ("requested_at", field values "requested_at");
   ("reason_code", field values "reason_code")].

Definition cancellation_to_mapping (c : CancellationSignal) : mapping :=
  [("cancellation_signal_version", PStr CANCELLATION_SIGNAL_VERSION);
   ("cancellation_id", PStr (cancellation_id c)); ("workspace_id", PStr (cs_workspace_id c));
   ("actor_id", PStr (cs_actor_id c)); ("operation_id", PStr (cs_operation_id c));
   ("requested_at", PStr (requested_at c)); ("reason_code", PStr (reason_code c))].

Definition cancellation_from_mapping (data : mapping) : result runtime_error CancellationSignal :=
  values ← runtime_strict data CANCELLATION_FIELDS;
  _ ← ensure (py_str_eqb (field values "cancellation_signal_version") CANCELLATION_SIGNAL_VERSION) RtUnsupportedVersion;
  id ← _hex64 (field values "cancellation_id");
  op ← _hex64 (field values "operation_id");
  ws ← _nonempty (field values "workspace_id");
  actor ← _nonempty (field values "actor_id");
  reason ← _safe_code (field values "reason_code");
  at_ ← timestamp (field values "requested_at");
  let c := {| cancellation_id := id; cs_workspace_id := ws; cs_actor_id := actor; cs_operation_id := op;
              requested_at := at_.1; reason_code := reason |} in
  expected ← _hash _CANCELLATION_DOMAIN (cancellation_identity (cancellation_to_mapping c));
  _ ← ensure (String.eqb id expected) RtInvalidValue;
  Ok c.

Definition cancellation_create (kwargs : mapping) : result runtime_error CancellationSignal :=
  let values := dict_update [("cancellation_signal_version", PStr CANCELLATION_SIGNAL_VERSION)] kwargs in
  _ ← reads values ["workspace_id"; "actor_id"; "operation_id"; "requested_at"; "reason_code"];
  id ← _hash _CANCELLATION_DOMAIN (cancellation_identity values);
  cancellation_from_mapping (assoc_set "cancellation_id" (PStr id) values).

(** ** StageResultRef *)

Record StageResultRef : Type := {
  result_id : string;
  ref_operation_id : string;
  ref_stage_name : string;
  ref_input_digest : string;
  content_digest : string;
  ref_schema_id : string;
  ref_created_at : string;
  ref_provenance : list string;
}.

#[export] Instance stage_result_ref_eq_dec : EqDecision StageResultRef.
Proof. solve_decision. Defined.

Definition REF_FIELDS : list string :=
  ["stage_result_ref_version"; "result_id"; "operation_id"; "stage_name"; "input_digest"; "content_digest";
   "schema_id"; "created_at"; "provenance_refs"].

Definition ref_identity (values : mapping) : mapping :=
  [("stage_result_ref_version", PStr STAGE_RESULT_REF_VERSION);
   ("operation_id", field values "operation_id"); ("stage_name", field values "stage_name");
   ("input_digest", field values "input_digest"); ("content_digest", field values "content_digest");
   ("schema_id", field values "schema_id"); ("created_at", field values "created_at");
   ("provenance_refs", field values "provenance_refs")].

Definition ref_to_mapping (r : StageResultRef) : mapping :=
  [("stage_result_ref_version", PStr STAGE_RESULT_REF_VERSION); ("result_id", PStr (result_id r));
   ("operation_id", PStr (ref_operation_id r)); ("stage_name", PStr (ref_stage_name r));
   ("input_digest", PStr (ref_input_digest r)); ("content_digest", PStr (content_digest r));
   ("schema_id", PStr (ref_schema_id r)); ("created_at", PStr (ref_created_at r));
   ("provenance_refs", py_strs (ref_provenance r))].

Definition ref_from_mapping (data : mapping) : result runtime_error StageResultRef :=
  values ← runtime_strict data REF_FIELDS;
  _ ← ensure (py_str_eqb (field values "stage_result_ref_version") STAGE_RESULT_REF_VERSION) RtUnsupportedVersion;
  id ← _hex64 (field values "result_id");
  op ← _hex64 (field values "operation_id");
  input ← _hex64 (field values "input_digest");
  content ← _hex64 (field values "content_digest");
  stage ← _nonempty (field values "stage_name");
  schema ← _nonempty (field values "schema_id");
  _ ← ensure (str_mem stage stage_names) RtInvalidValue;
  at_ ← timestamp (field values "created_at");
  refs ← _string_sequence (field values "provenance_refs") true;
  let r := {| result_id := id; ref_operation_id := op; ref_stage_name := stage; ref_input_digest := input;
              content_digest := content; ref_schema_id := schema; ref_created_at := at_.1; ref_provenance := refs |} in
  expected ← _hash _STAGE_RESULT_DOMAIN (ref_identity (ref_to_mapping r));
  _ ← ensure (String.eqb id expected) RtInvalidValue;
  Ok r.

Definition ref_create (kwargs : mapping) : result runtime_error StageResultRef :=
  let values := dict_update [("stage_result_ref_version", PStr STAGE_RESULT_REF_VERSION)] kwargs in
  refs ← _string_sequence (match assoc "provenance_refs" values with Some v => v | None => PTuple [] end) false;
  let values := assoc_set "provenance_refs" (py_strs (sorted_unique refs)) values in
  _ ← reads values ["operation_id"; "stage_name"; "input_digest"; "content_digest"; "schema_id"; "created_at"];
  id ← _hash _STAGE_RESULT_DOMAIN (ref_identity values);
  ref_from_mapping (assoc_set "result_id" (PStr id) values).

(** ** What a state says about the committed stages *)

Definition _validate_stage_refs (refs : list StageResultRef) (operation : string) : result runtime_error unit :=
  _ ← ensure (str_unique (map ref_stage_name refs)) RtInvalidValue;
  _ ← ensure (forallb (fun r => String.eqb (ref_operation_id r) operation) refs) RtInvalidValue;
  indexes ← of_option RtKeyError (mapM (fun r => stage_order (ref_stage_name r)) refs);
  ensure (bool_decide (py_sort Nat.leb indexes = indexes)) RtInvalidValue.

(** A mapping inside a list: a key that is not a string is an unknown field. *)
Definition as_mapping (v : pyval) : result runtime_error mapping :=
  match v with
  | PDict kvs | PMap kvs => map_result (fun kv => match kv.1 with KStr k => Ok (k, kv.2) | KOther => Err RtUnknownField end) kvs
  | _ => Err RtInvalidValue
  end.

Definition _parse_stage_ref (v : pyval) : result runtime_error StageResultRef :=
  m ← as_mapping v; ref_from_mapping m.

Definition parse_stage_refs (v : pyval) : result runtime_error (list StageResultRef) :=
  match v with
  | PList l | PTuple l => map_result _parse_stage_ref l
  | _ => Err RtInvalidValue
  end.

Definition _validate_state_ref_semantics (state : OperationState) (refs : list StageResultRef)
    (current_stage : option string) : result runtime_error unit :=
  if decide (state = RECEIVED) then
    _ ← ensure (bool_decide (refs = [])) RtInvalidValue;
    ensure (match current_stage with Some s => String.eqb s (state_value PLANNED) | None => true end) RtInvalidValue
  else if decide (state ∈ STAGE_STATES) then
    _ ← ensure (match list.last refs with Some r => String.eqb (ref_stage_name r) (state_value state) | None => false end)
          RtInvalidValue;
    match current_stage with
    | Some s =>
        i ← of_option RtKeyError (stage_order s);
        j ← of_option RtKeyError (stage_order (state_value state));
        ensure (j <? i)%nat RtInvalidValue
    | None => Ok tt
    end
  else ensure (negb (bool_decide (state = COMPLETED)) || bool_decide (refs <> [])) RtInvalidValue.

Definition _validate_terminal_error_semantics (state : OperationState) (error_code : option string)
    : result runtime_error unit :=
  if decide (state = COMPLETED) then ensure (bool_decide (error_code = None)) RtInvalidValue
  else ensure (negb (is_terminal state) || bool_decide (error_code <> None)) RtInvalidValue.

(** ** RuntimeStatus *)

Record RuntimeStatus : Type := {
  st_operation_id : string;
  st_workspace_id : string;
  st_state : string;
  st_current_stage : option string;
  st_attempt : string;
  st_revision : string;
  st_deadline_at : string;
  st_cancellation_id : option string;
  st_refs : list StageResultRef;
  st_updated_at : string;
  st_error_code : option string;
}.

Definition STATUS_FIELDS : list string :=
  ["runtime_status_version"; "operation_id"; "workspace_id"; "state"; "current_stage"; "attempt"; "revision";
   "deadline_at"; "cancellation_id"; "stage_result_refs"; "updated_at"; "error_code"].

Definition status_from_mapping (data : mapping) : result runtime_error RuntimeStatus :=
  values ← runtime_strict data STATUS_FIELDS;
  _ ← ensure (py_str_eqb (field values "runtime_status_version") RUNTIME_STATUS_VERSION) RtUnsupportedVersion;
  op ← _hex64 (field values "operation_id");
  ws ← _nonempty (field values "workspace_id");
  (* OperationState(_nonempty(values["state"])); the stored text is the raw one *)
  text ← _nonempty (field values "state");
  _ ← of_option RtInvalidValue (state_of text);
  stage ← _optional_nonempty (field values "current_stage");
  _ ← ensure (match stage with Some s => str_mem s stage_names | None => true end) RtInvalidValue;
  attempt ← canonical_integer (field values "attempt");
  revision ← canonical_integer (field values "revision");
  deadline ← timestamp (field values "deadline_at");
  updated ← timestamp (field values "updated_at");
  cancel ← optional _hex64 (field values "cancellation_id");
  error ← optional _safe_code (field values "error_code");
  refs ← parse_stage_refs (field values "stage_result_refs");
  _ ← _validate_stage_refs refs op;
  raw ← match field values "state" with PStr s => Ok s | _ => Err RtInvalidValue end;
  state ← of_option RtInvalidValue (state_of raw);
  _ ← ensure (negb (is_terminal state) || bool_decide (stage = None)) RtInvalidValue;
  _ ← ensure (is_terminal state || bool_decide (stage <> None)) RtInvalidValue;
  _ ← _validate_state_ref_semantics state refs stage;
  _ ← _validate_terminal_error_semantics state error;
  Ok {| st_operation_id := op; st_workspace_id := ws; st_state := raw; st_current_stage := stage;
        st_attempt := attempt; st_revision := revision; st_deadline_at := deadline.1; st_cancellation_id := cancel;
        st_refs := refs; st_updated_at := updated.1; st_error_code := error |}.

Definition refs_list (refs : list StageResultRef) : pyval := PList (map (fun r => py_record (ref_to_mapping r)) refs).

Definition status_to_mapping (s : RuntimeStatus) : mapping :=
  [("runtime_status_version", PStr RUNTIME_STATUS_VERSION); ("operation_id", PStr (st_operation_id s));
   ("workspace_id", PStr (st_workspace_id s)); ("state", PStr (st_state s));
   ("current_stage", py_opt (st_current_stage s)); ("attempt", PStr (st_attempt s));
   ("revision", PStr (st_revision s)); ("deadline_at", PStr (st_deadline_at s));
   ("cancellation_id", py_opt (st_cancellation_id s)); ("stage_result_refs", refs_list (st_refs s));
   ("updated_at", PStr (st_updated_at s)); ("error_code", py_opt (st_error_code s))].

(** ** RuntimeResponse *)

Record RuntimeResponse : Type := {
  rs_request_id : string;
  rs_operation_id : string;
  rs_workspace_id : string;
  rs_status : string;
  rs_state : string;
  rs_generation_id : option string;
  rs_refs : list StageResultRef;
  rs_result_ref : option StageResultRef;
  rs_retryable : bool;
  rs_error_code : option string;
  rs_updated_at : string;
}.

Definition RESPONSE_FIELDS : list string :=
  ["runtime_response_version"; "request_id"; "operation_id"; "workspace_id"; "status"; "state";
   "requested_generation_id"; "stage_result_refs"; "result_ref"; "retryable"; "error_code"; "updated_at"].

(** The rules that bind status, state, result, retry and error. *)
Definition response_consistent (status : RuntimeResponseStatus) (state : OperationState)
    (refs : list StageResultRef) (result_ref : option StageResultRef) (retryable : bool) (error : option string)
    : result runtime_error unit :=
  let has_ref := bool_decide (result_ref <> None) in
  let has_error := bool_decide (error <> None) in
  if decide (status = RS_RETRY_LATER) then
    _ ← ensure (negb (is_terminal state)) RtInvalidValue;
    _ ← ensure (retryable && negb has_ref) RtInvalidValue;
    ensure has_error RtInvalidValue
  else
    _ ← ensure (bool_decide (status = response_status_for_state state)) RtInvalidValue;
    _ ← ensure (negb retryable) RtInvalidValue;
    if decide (status = RS_COMPLETED) then ensure (negb has_error && has_ref) RtInvalidValue
    else if decide (status = RS_FAILED \/ status = RS_CANCELLED) then ensure (has_error && negb has_ref) RtInvalidValue
    else if decide (status = RS_REJECTED) then
      _ ← ensure has_error RtInvalidValue;
      ensure (has_ref || bool_decide (refs = [])) RtInvalidValue
    else ensure (has_error && has_ref) RtInvalidValue.

Definition parse_result_ref (v : pyval) : result runtime_error (option StageResultRef) :=
  match v with PNone => Ok None | _ => r ← _parse_stage_ref v; Ok (Some r) end.

Definition response_from_mapping (data : mapping) : result runtime_error RuntimeResponse :=
  values ← runtime_strict data RESPONSE_FIELDS;
  _ ← ensure (py_str_eqb (field values "runtime_response_version") RUNTIME_RESPONSE_VERSION) RtUnsupportedVersion;
  rid ← _nonempty (field values "request_id");
  op ← _hex64 (field values "operation_id");
  ws ← _nonempty (field values "workspace_id");
  status_text ← _nonempty (field values "status");
  _ ← of_option RtInvalidValue (status_of status_text);
  state_text ← _nonempty (field values "state");
  _ ← of_option RtInvalidValue (state_of state_text);
  gen ← _optional_nonempty (field values "requested_generation_id");
  retryable ← match field values "retryable" with PBool b => Ok b | _ => Err RtInvalidValue end;
  error ← optional _safe_code (field values "error_code");
  updated ← timestamp (field values "updated_at");
  refs ← parse_stage_refs (field values "stage_result_refs");
  _ ← _validate_stage_refs refs op;
  result_ref ← parse_result_ref (field values "result_ref");
  _ ← ensure (match result_ref with Some r => bool_decide (r ∈ refs) | None => true end) RtInvalidValue;
  _ ← ensure (match result_ref with Some r => bool_decide (list.last refs = Some r) | None => true end) RtInvalidValue;
  raw_status ← match field values "status" with PStr s => Ok s | _ => Err RtInvalidValue end;
  status ← of_option RtInvalidValue (status_of raw_status);
  raw_state ← match field values "state" with PStr s => Ok s | _ => Err RtInvalidValue end;
  state ← of_option RtInvalidValue (state_of raw_state);
  _ ← _validate_state_ref_semantics state refs None;
  _ ← response_consistent status state refs result_ref retryable error;
  Ok {| rs_request_id := rid; rs_operation_id := op; rs_workspace_id := ws; rs_status := raw_status;
        rs_state := raw_state; rs_generation_id := gen; rs_refs := refs; rs_result_ref := result_ref;
        rs_retryable := retryable; rs_error_code := error; rs_updated_at := updated.1 |}.

Definition response_to_mapping (r : RuntimeResponse) : mapping :=
  [("runtime_response_version", PStr RUNTIME_RESPONSE_VERSION); ("request_id", PStr (rs_request_id r));
   ("operation_id", PStr (rs_operation_id r)); ("workspace_id", PStr (rs_workspace_id r));
   ("status", PStr (rs_status r)); ("state", PStr (rs_state r));
   ("requested_generation_id", py_opt (rs_generation_id r)); ("stage_result_refs", refs_list (rs_refs r));
   ("result_ref", match rs_result_ref r with Some x => py_record (ref_to_mapping x) | None => PNone end);
   ("retryable", PBool (rs_retryable r)); ("error_code", py_opt (rs_error_code r));
   ("updated_at", PStr (rs_updated_at r))].
End Values.

(** ** Numbers as texts *)
Lemma empty_string_digits d : str_forall is_digit (NilEmpty.string_of_uint d) = true.
Proof. induction d; [done|..]; cbn [NilEmpty.string_of_uint str_forall]; by rewrite IHd. Qed.

Lemma to_uint_no_zero n d : N.to_uint n = Decimal.D0 d -> d = Decimal.Nil.
Proof.
  intros H. pose proof (DecimalN.Unsigned.to_of (N.to_uint n)) as Hu. rewrite DecimalN.Unsigned.of_to, H in Hu.
  unfold Decimal.unorm in Hu. destruct (Decimal.nzhead (Decimal.D0 d)) eqn:E; try discriminate Hu; [by injection Hu|].
  by apply DecimalFacts.nzhead_nonzero in E.
Qed.

Lemma str_of_N_canonical n : is_canonical_int (str_of_N n) = true.
Proof.
  unfold str_of_N. pose proof (to_uint_nonnil n) as Hn. destruct (N.to_uint n) eqn:E; [done|..].
  { apply to_uint_no_zero in E as ->. done. }
  all: cbn [NilZero.string_of_uint NilEmpty.string_of_uint is_canonical_int]; by rewrite empty_string_digits.
Qed.

(** ** Validation lemmas *)

Section ValueLemmas.
Context {U : Unicode} {D : Digest} {R : JsonReader}.

(** A stored text: normalized and not empty. *)
Definition good (s : string) : Prop := nfc s = s /\ str_nonempty s = true.
Definition good_opt (o : option string) : Prop := forall s, o = Some s -> good s.

Lemma rt_nonempty_ok v s : _nonempty v = Ok s -> good s.
Proof.
  destruct v as [| | | |t| | | | |]; try done. cbn. destruct (str_nonempty (nfc t)) eqn:E; [|done]. intros [= <-].
  split; [apply nfc_idem | done].
Qed.

Lemma rt_nonempty_good s : good s -> _nonempty (PStr s) = Ok s.
Proof. intros [Hn He]. cbn. by rewrite Hn, He. Qed.

Lemma rt_optional_ok v o : _optional_nonempty v = Ok o -> good_opt o.
Proof.
  assert (H : forall v, (s ← _nonempty v; Ok (Some s)) = Ok o -> good_opt o).
  { intros w (s & Hs & [= <-])%bind_ok t [= <-]. by eapply rt_nonempty_ok. }
  destruct v; try apply H. by intros [= <-].
Qed.

Lemma rt_optional_good o : good_opt o -> _optional_nonempty (py_opt o) = Ok o.
Proof. destruct o as [s|]; [|done]. intros H. cbn [py_opt _optional_nonempty]. by rewrite rt_nonempty_good by (by apply H). Qed.

Lemma hex64_good s : is_hex64 s = true -> good s.
Proof.
  unfold is_hex64. intros [Hl Hs]%andb_true_iff. split.
  - apply nfc_ascii, (hex_chars_ascii _ Hs).
  - destruct s; [discriminate Hl | done].
Qed.

Lemma rt_hex64_ok v s : _hex64 v = Ok s -> is_hex64 s = true.
Proof. unfold _hex64. intros (t & _ & (? & ?%ensure_ok & [= <-])%bind_ok)%bind_ok. done. Qed.

Lemma rt_hex64_good s : is_hex64 s = true -> _hex64 (PStr s) = Ok s.
Proof. intros H. unfold _hex64. rewrite rt_nonempty_good by (by apply hex64_good). cbn. by rewrite H. Qed.

Lemma safe_code_good s : is_safe_code s = true -> good s.
Proof.
  intros H. split; [|by destruct s]. apply nfc_ascii. destruct s as [|c s]; [done|].
  cbn in H. apply andb_true_iff in H as [[Hc Hs]%andb_true_iff _].
  assert (Hl : forall c, is_lower c = true -> (N_of_ascii c <? 128)%N = true).
  { intros x. unfold is_lower. rewrite andb_true_iff, !N.leb_le, N.ltb_lt. lia. }
  assert (Hx : forall c, is_code_char c = true -> (N_of_ascii c <? 128)%N = true).
  { intros x. unfold is_code_char. rewrite !orb_true_iff, !Ascii.eqb_eq.
    intros [[[[Hx|Hx] | ->] | ->] | ->]; [by apply Hl| |done..].
    unfold is_digit in Hx. rewrite andb_true_iff, !N.leb_le in Hx. apply N.ltb_lt. lia. }
  unfold is_ascii. cbn [str_forall]. rewrite (Hl _ Hc). cbn [andb]. clear Hc.
  induction s as [|d s IH]; [done|]. cbn [str_forall] in Hs |- *. apply andb_true_iff in Hs as [Hd Hs].
  rewrite (Hx _ Hd). by apply IH.
Qed.

Lemma rt_safe_code_ok v s : _safe_code v = Ok s -> is_safe_code s = true.
Proof. unfold _safe_code. intros (t & _ & (? & ?%ensure_ok & [= <-])%bind_ok)%bind_ok. done. Qed.

Lemma rt_safe_code_good s : is_safe_code s = true -> _safe_code (PStr s) = Ok s.
Proof. intros H. unfold _safe_code. rewrite rt_nonempty_good by (by apply safe_code_good). cbn. by rewrite H. Qed.

Definition code_opt (o : option string) : Prop := forall s, o = Some s -> is_safe_code s = true.

Lemma optional_good f (P : string -> Prop) o :
  (forall s, P s -> f (PStr s) = Ok s) -> (forall s, o = Some s -> P s) -> optional f (py_opt o) = Ok o.
Proof. intros Hf Ho. destruct o as [s|]; [|done]. cbn [py_opt optional]. by rewrite Hf by (by apply Ho). Qed.

Lemma optional_ok f v o s : optional f v = Ok o -> o = Some s -> f v = Ok s.
Proof.
  assert (H : (s ← f v; Ok (Some s)) = Ok o -> o = Some s -> f v = Ok s).
  { intros (t & Ht & [= <-])%bind_ok [= <-]. done. }
  destruct v; cbn [optional]; try exact H. by intros [= <-].
Qed.

(** A text that denotes an instant. *)
Definition dated (s : string) : Prop := is_Some (parse_utc_timestamp s).

Lemma timestamp_ok v p : timestamp v = Ok p -> v = PStr p.1 /\ parse_utc_timestamp p.1 = Some p.2.
Proof.
  destruct v as [| | | |s| | | | |]; try done. cbn. destruct (parse_utc_timestamp s) eqn:E; [|done]. by intros [= <-].
Qed.

Lemma timestamp_dated s : dated s -> exists t, timestamp (PStr s) = Ok (s, t) /\ parse_utc_timestamp s = Some t.
Proof. intros [t Ht]. exists t. cbn. by rewrite Ht. Qed.

Lemma dated_good s : dated s -> good s.
Proof. intros [t [Ha Hn]%timestamp_ascii]. split; [by apply nfc_ascii | done]. Qed.

Lemma record_value v : _normalize (py_record [("value", v)]) = j ← _normalize v; Ok (JObj [("value", j)]).
Proof.
  unfold py_record. cbn [map fst snd]. rewrite contract_dict. cbn [contract_entries str_in_keys existsb map].
  rewrite nfc_ascii by done. by destruct (_normalize v).
Qed.

Lemma rt_normalize_wf v j : _normalize v = Ok j -> json_wf j = true /\ sort_json j = j.
Proof.
  rewrite normalize_agrees. destruct (tuple_free v); [|done]. destruct (normalize (as_dicts v)) as [x|] eqn:E; [|done].
  intros [= <-]. split; [|apply sort_json_idem]. apply json_normal_wf, json_normal_sort. by eapply normalize_normal.
Qed.

Lemma canonical_copy_ok v j : canonical_copy v = Ok j <-> _normalize v = Ok j.
Proof.
  unfold canonical_copy, runtime_bytes, Contracts.canonical_bytes. rewrite record_value.
  destruct (_normalize v) as [x|] eqn:E; [|done]. cbn [mbind result_bind reraise].
  destruct (rt_normalize_wf _ _ E) as [Hw Hs]. rewrite json_loads_dumps by (cbn; by rewrite Hw).
  cbn. rewrite Hs. split; by intros [= ->].
Qed.

Lemma rt_canonical_object_ok v ms : _canonical_object v = Ok ms <-> _normalize v = Ok (JObj ms) /\ exists kvs, v = PDict kvs \/ v = PMap kvs.
Proof.
  destruct v; try (split; [done | intros [_ [? [[=]|[=]]]]]); cbn [_canonical_object]; rewrite bind_ok;
    setoid_rewrite canonical_copy_ok; (split;
    [intros (j & Hj & H); destruct j; try done; injection H as ->; eauto | intros [H _]; eauto]).
Qed.

Lemma rt_canonical_object_stored ms : stored ms -> _canonical_object (of_json (JObj ms)) = Ok ms.
Proof. intros H. apply rt_canonical_object_ok. split; [exact H | cbn; eauto]. Qed.

Lemma rt_canonical_object_valid v ms : _canonical_object v = Ok ms -> stored ms.
Proof. intros [H _]%rt_canonical_object_ok. by apply (contract_normalize_idem v). Qed.

Lemma rt_hash_ok domain m h :
  _hash domain m = Ok h <-> exists j, _normalize (py_record m) = Ok j /\ h = sha256_hex (domain +:+ json_dumps j).
Proof.
  unfold _hash, runtime_bytes, Contracts.canonical_bytes. rewrite bind_ok. setoid_rewrite reraise_ok. setoid_rewrite bind_ok.
  split; [intros (? & (j & Hj & [= <-]) & [= <-]) | intros (j & Hj & ->)]; eauto 6.
Qed.

Lemma rt_hash_hex domain m h : _hash domain m = Ok h -> is_hex64 h = true.
Proof. intros (? & _ & ->)%rt_hash_ok. apply sha256_hex_is_hex64. Qed.

(** A sorted sequence of stored texts. *)
Definition good_seq (l : list string) : Prop := sorted_unique l = l /\ Forall good l.

Lemma map_nonempty l : Forall good l -> map_result _nonempty (map PStr l) = Ok l.
Proof. induction 1 as [|s l Hs _ IH]; [done|]. cbn [map map_result]. by rewrite rt_nonempty_good, IH. Qed.

Lemma rt_string_sequence_good l u : good_seq l -> _string_sequence (py_strs l) u = Ok l.
Proof.
  intros [Hs Hg]. unfold py_strs, _string_sequence. rewrite map_nonempty by done. cbn [mbind result_bind].
  by rewrite bool_decide_true, orb_true_r by done.
Qed.

Lemma rt_string_sequence_ok v l : _string_sequence v true = Ok l -> good_seq l.
Proof.
  assert (H : forall raw, (l ← map_result _nonempty raw; _ ← ensure (negb true || bool_decide (sorted_unique l = l)) RtInvalidValue; Ok l) = Ok l ->
    good_seq l).
  { intros raw (l' & Hl & (? & Hb%ensure_ok & [= ->])%bind_ok)%bind_ok. cbn in Hb. apply bool_decide_eq_true in Hb.
    split; [done|]. apply map_result_ok in Hl. clear Hb. induction Hl; constructor; eauto using rt_nonempty_ok. }
  destruct v; try done; apply H.
Qed.
End ValueLemmas.

(** Splits a successful chain of validations into its steps. *)
Ltac rt_steps H :=
  repeat lazymatch type of H with
  | (_ ← _; _) = Ok _ => let a := fresh "a" in let Ha := fresh "Ha" in
      apply bind_ok in H as (a & Ha & H); try apply ensure_ok in Ha
  end.

(** Reads the fields of a mapping that [to_mapping] made. *)
Ltac read_record :=
  unfold runtime_strict;
  repeat match goal with
  | |- context [keys_within ?d ?l] => change (keys_within d l) with true
  | |- context [has_keys ?d ?l] => change (has_keys d l) with true
  end;
  cbn [ensure mbind result_bind];
  repeat match goal with
  | |- context [field ?d ?k] =>
      let v := eval cbv [field assoc String.eqb Ascii.eqb Bool.eqb request_record cancellation_to_mapping
                         status_to_mapping response_to_mapping] in (field d k) in
      change (field d k) with v
  end;
  cbn [py_str_eqb].

(** ** What a constructor accepts is valid, and survives [to_mapping] *)
Section Validity.
Context {U : Unicode} {D : Digest} {R : JsonReader}.

Definition request_valid (r : RuntimeRequest) : Prop :=
  Forall good [rq_request_id r; rq_idempotency_key r; rq_workspace_id r; rq_actor_id r; rq_request_type r] /\
  is_hex64 (rq_operation_id r) = true /\ good_opt (rq_generation_id r) /\ stored (rq_payload r) /\
  (exists t t', parse_utc_timestamp (rq_received_at r) = Some t /\ parse_utc_timestamp (rq_deadline_at r) = Some t' /\ t < t')%Z /\
  _hash _OPERATION_DOMAIN (operation_identity (request_record r)) = Ok (rq_operation_id r).

Lemma request_from_valid data r : request_from_mapping data = Ok r -> request_valid r.
Proof.
  unfold request_from_mapping. intros H. rt_steps H. injection H as <-.
  apply timestamp_ok in Ha9 as [_ T1], Ha10 as [_ T2]. apply Z.ltb_lt in Ha11. apply String.eqb_eq in Ha13. subst.
  unfold request_valid; cbn [rq_request_id rq_idempotency_key rq_workspace_id rq_actor_id rq_request_type rq_operation_id
    rq_generation_id rq_payload rq_received_at rq_deadline_at].
  split_and!; eauto using rt_hex64_ok, rt_optional_ok, rt_canonical_object_valid.
  repeat (apply list.Forall_cons; split; [by eapply rt_nonempty_ok|]). by apply list.Forall_nil.
Qed.

Lemma request_mapping_ok r : stored (rq_payload r) -> request_to_mapping r = Ok (request_record r).
Proof. intros Hs. unfold request_to_mapping. by rewrite rt_canonical_object_stored. Qed.

Lemma request_reparse r : request_valid r -> request_from_mapping (request_record r) = Ok r.
Proof.
  intros (Hg & Hx & Ho & Hs & (t & t' & T & T' & Hlt) & Hh). decompose_Forall_hyps. unfold request_from_mapping.
  read_record. rewrite String.eqb_refl. cbn [ensure mbind result_bind].
  rewrite !rt_nonempty_good, rt_hex64_good, rt_optional_good, rt_canonical_object_stored by done.
  cbn [mbind result_bind timestamp]. rewrite T, T'. cbn [of_option mbind result_bind fst snd].
  rewrite (proj2 (Z.ltb_lt _ _) Hlt). cbn [ensure mbind result_bind].
  destruct r; cbn in *. rewrite Hh. cbn. by rewrite String.eqb_refl.
Qed.

Definition cancellation_valid (c : CancellationSignal) : Prop :=
  is_hex64 (cancellation_id c) = true /\ is_hex64 (cs_operation_id c) = true /\
  good (cs_workspace_id c) /\ good (cs_actor_id c) /\ is_safe_code (reason_code c) = true /\ dated (requested_at c) /\
  _hash _CANCELLATION_DOMAIN (cancellation_identity (cancellation_to_mapping c)) = Ok (cancellation_id c).

Lemma cancellation_from_valid data c : cancellation_from_mapping data = Ok c -> cancellation_valid c.
Proof.
  unfold cancellation_from_mapping. intros H. rt_steps H. injection H as <-.
  apply timestamp_ok in Ha6 as [_ T]. apply String.eqb_eq in Ha8. subst.
  unfold cancellation_valid, dated; cbn [cancellation_id cs_operation_id cs_workspace_id cs_actor_id reason_code requested_at].
  rewrite T. split_and!; eauto using rt_hex64_ok, rt_nonempty_ok, rt_safe_code_ok.
Qed.

Lemma cancellation_reparse c : cancellation_valid c -> cancellation_from_mapping (cancellation_to_mapping c) = Ok c.
Proof.
  intros (Hi & Ho & Hw & Ha & Hr & Hd & Hh). unfold cancellation_from_mapping.
  read_record. rewrite String.eqb_refl. cbn [ensure mbind result_bind].
  rewrite !rt_nonempty_good, !rt_hex64_good, rt_safe_code_good by done. cbn [mbind result_bind].
  destruct (timestamp_dated _ Hd) as (t & -> & _). cbn [mbind result_bind fst].
  destruct c; cbn in *. rewrite Hh. cbn. by rewrite String.eqb_refl.
Qed.

Definition ref_valid (r : StageResultRef) : Prop :=
  forallb is_hex64 [result_id r; ref_operation_id r; ref_input_digest r; content_digest r] = true /\
  good (ref_schema_id r) /\ str_mem (ref_stage_name r) stage_names = true /\ dated (ref_created_at r) /\
  good_seq (ref_provenance r) /\
  _hash _STAGE_RESULT_DOMAIN (ref_identity (ref_to_mapping r)) = Ok (result_id r).

Lemma stage_name_good s : str_mem s stage_names = true -> good s.
Proof.
  intros Hs%str_mem_spec. unfold stage_names in Hs. cbn in Hs. rewrite !elem_of_cons in Hs.
  destruct Hs as [-> | [-> | [-> | [-> | [-> | Hs]]]]]; [..|by apply elem_of_nil in Hs]; (split; [by apply nfc_ascii | done]).
Qed.

Lemma ref_from_valid data r : ref_from_mapping data = Ok r -> ref_valid r.
Proof.
  unfold ref_from_mapping. intros H. rt_steps H. injection H as <-.
  apply timestamp_ok in Ha8 as [_ T]. apply String.eqb_eq in Ha11. subst.
  unfold ref_valid, dated; cbn [result_id ref_operation_id ref_input_digest content_digest ref_schema_id
    ref_stage_name ref_created_at ref_provenance forallb].
  rewrite T, (rt_hex64_ok _ _ Ha1), (rt_hex64_ok _ _ Ha2), (rt_hex64_ok _ _ Ha3), (rt_hex64_ok _ _ Ha4).
  split_and!; eauto using rt_nonempty_ok, rt_string_sequence_ok.
Qed.

Lemma ref_reparse r : ref_valid r -> ref_from_mapping (ref_to_mapping r) = Ok r.
Proof.
  intros (Hx & Hs & Hn & Hd & Hp & Hh). cbn [forallb] in Hx. split_and_bool. unfold ref_to_mapping at 1. unfold ref_from_mapping.
  pose proof (stage_name_good _ Hn) as Hg.
  read_record. rewrite String.eqb_refl. cbn [ensure mbind result_bind].
  rewrite !rt_hex64_good, !rt_nonempty_good by done. cbn [mbind result_bind]. rewrite Hn. cbn [ensure mbind result_bind].
  destruct (timestamp_dated _ Hd) as (t & -> & _). cbn [mbind result_bind fst].
  rewrite rt_string_sequence_good by done. cbn [mbind result_bind].
  destruct r; cbn in *. rewrite Hh. cbn. by rewrite String.eqb_refl.
Qed.

Lemma as_mapping_record m : as_mapping (py_record m) = Ok m.
Proof.
  unfold py_record, as_mapping. induction m as [|[k v] m IH]; [done|]. cbn [map map_result fst snd mbind result_bind].
  by rewrite IH.
Qed.

Lemma parse_ref_record r : ref_valid r -> _parse_stage_ref (py_record (ref_to_mapping r)) = Ok r.
Proof. intros H. unfold _parse_stage_ref. rewrite as_mapping_record. by apply ref_reparse. Qed.

Lemma parse_refs_list refs : Forall ref_valid refs -> parse_stage_refs (refs_list refs) = Ok refs.
Proof.
  unfold refs_list, parse_stage_refs. induction 1 as [|r l Hr _ IH]; [done|]. cbn [map map_result].
  by rewrite parse_ref_record, IH.
Qed.
End Validity.

(** ** Identifiers bind what they are computed from *)
Section Binding.
Context {U : Unicode} {D : Digest} {R : JsonReader}.

(** The byte string hashed for an identity. *)
Definition hash_input (domain : string) (m : mapping) : list string :=
  match runtime_bytes (py_record m) with Ok data => [domain +:+ data] | Err _ => [] end.

Definition same_normal (f f' : string * pyval) : Prop := exists x, _normalize f.2 = Ok x /\ _normalize f'.2 = Ok x.

Lemma hash_binding domain m m' h :
  record_keys m.*1 = true -> m.*1 = m'.*1 -> _hash domain m = Ok h -> _hash domain m' = Ok h ->
  Forall2 same_normal m m' \/ collision (hash_input domain m ++ hash_input domain m').
Proof.
  intros Hr Hk (j & Hj & ->)%rt_hash_ok (j' & Hj' & E)%rt_hash_ok.
  assert (Hi : forall m j, _normalize (py_record m) = Ok j -> hash_input domain m = [domain +:+ json_dumps j]).
  { intros n i Hn. unfold hash_input, runtime_bytes, Contracts.canonical_bytes. by rewrite Hn. }
  rewrite (Hi _ _ Hj), (Hi _ _ Hj'). apply sha256_hex_inj_or in E as [E%(inj (String.append domain)) | ?]; [left | by right].
  apply json_dumps_inj in E. unfold equiv, json_equiv in E.
  rewrite (proj2 (rt_normalize_wf _ _ Hj)), (proj2 (rt_normalize_wf _ _ Hj')) in E. subst j'.
  by eapply record_fields_agree.
Qed.

Lemma same_normal_str k k' s s' : same_normal (k, PStr s) (k', PStr s') -> nfc s = nfc s'.
Proof. intros (x & [= <-] & [= <-]). done. Qed.

Lemma same_normal_good k k' s s' : good s -> good s' -> same_normal (k, PStr s) (k', PStr s') -> s = s'.
Proof. intros [H _] [H' _] E%same_normal_str. congruence. Qed.

Lemma same_normal_opt k k' o o' : good_opt o -> good_opt o' -> same_normal (k, py_opt o) (k', py_opt o') -> o = o'.
Proof.
  intros H H'. destruct o as [s|], o' as [s'|]; cbn [py_opt]; try done.
  - intros E. f_equal. eapply same_normal_good; eauto.
  - by intros (x & [= <-] & [=]).
  - by intros (x & [= <-] & [=]).
Qed.

Lemma same_normal_stored k k' ms ms' : stored ms -> stored ms' ->
  same_normal (k, of_json (JObj ms)) (k', of_json (JObj ms')) -> ms = ms'.
Proof. unfold stored. intros H H' (x & E & E'). cbn [snd] in E, E'. congruence. Qed.

Lemma hash_ext domain m m' :
  Forall2 (fun f f' => f.1 = f'.1 /\ _normalize f.2 = _normalize f'.2) m m' -> _hash domain m = _hash domain m'.
Proof. intros H. unfold _hash, runtime_bytes, Contracts.canonical_bytes. by rewrite (record_ext _ _ H). Qed.

(** The fields an operation is identified by. *)
Definition same_operation (r r' : RuntimeRequest) : Prop :=
  rq_idempotency_key r = rq_idempotency_key r' /\ rq_workspace_id r = rq_workspace_id r' /\
  rq_actor_id r = rq_actor_id r' /\ rq_request_type r = rq_request_type r' /\ rq_deadline_at r = rq_deadline_at r' /\
  rq_generation_id r = rq_generation_id r' /\ rq_payload r = rq_payload r'.

Lemma request_binding r r' : request_valid r -> request_valid r' -> rq_operation_id r = rq_operation_id r' ->
  same_operation r r' \/
  collision (hash_input _OPERATION_DOMAIN (operation_identity (request_record r)) ++
             hash_input _OPERATION_DOMAIN (operation_identity (request_record r'))).
Proof.
  intros (Hg & _ & Ho & Hs & (t1 & t2 & T1 & T2 & _) & Hh) (Hg' & _ & Ho' & Hs' & (u1 & u2 & U1 & U2 & _) & Hh') E.
  rewrite <- E in Hh'. destruct (fun Hr Hk => hash_binding _ _ _ _ Hr Hk Hh Hh') as [H|?]; [reflexivity..|left | by right].
  unfold operation_identity in H. decompose_Forall_hyps. assert (dated (rq_deadline_at r)) by (by eexists). assert (dated (rq_deadline_at r')) by (by eexists).
  unfold same_operation. split_and!;
    (eapply same_normal_good || eapply same_normal_opt || eapply same_normal_stored); try eassumption; by apply dated_good.
Qed.

Lemma same_operation_id r r' : request_valid r -> request_valid r' -> same_operation r r' ->
  rq_operation_id r = rq_operation_id r'.
Proof.
  intros (_ & _ & _ & _ & _ & H) (_ & _ & _ & _ & _ & H') (E1 & E2 & E3 & E4 & E5 & E6 & E7).
  unfold request_record in *. cbn -[_hash] in H, H'. unfold operation_identity in *. cbn -[_hash] in H, H'.
  rewrite E1, E2, E3, E4, E5, E6, E7 in H. congruence.
Qed.

Lemma hash_total domain fields : record_keys fields.*1 = true ->
  Forall (fun f => exists x, _normalize f.2 = Ok x) fields -> exists h, _hash domain fields = Ok h.
Proof.
  intros Hk Hf. assert (exists ms, Forall2 field_normal fields ms) as [ms Hms].
  { clear Hk. induction Hf as [|f fs [x Hx] _ [ms IH]]; [exists []; constructor|]. exists ((f.1, x) :: ms). by constructor. }
  eexists. apply rt_hash_ok. eexists. split; [|reflexivity]. apply record_normal; [done|]. eauto.
Qed.

(** The arguments a caller gives. *)
Definition request_args (rid idem ws actor type received deadline : string) (gen : option string) (p : pyval) : mapping :=
  [("request_id", PStr rid); ("idempotency_key", PStr idem); ("workspace_id", PStr ws); ("actor_id", PStr actor);
   ("request_type", PStr type); ("received_at", PStr received); ("deadline_at", PStr deadline);
   ("requested_generation_id", py_opt gen); ("payload", p)].

Lemma rt_nonempty_str s : str_nonempty (nfc s) = true -> _nonempty (PStr s) = Ok (nfc s).
Proof. intros H. cbn. by rewrite H. Qed.

Lemma rt_optional_opt o : (forall s, o = Some s -> str_nonempty (nfc s) = true) ->
  _optional_nonempty (py_opt o) = Ok (nfc <$> o).
Proof. destruct o as [s|]; [|done]. intros H. cbn. by rewrite (H s eq_refl). Qed.

Lemma normalize_nfc s : _normalize (PStr (nfc s)) = _normalize (PStr s).
Proof. cbn. by rewrite nfc_idem. Qed.

Lemma request_create_ok rid idem ws actor type received deadline gen v p t t' :
  Forall (fun s => str_nonempty (nfc s) = true) [rid; idem; ws; actor; type] ->
  (forall s, gen = Some s -> str_nonempty (nfc s) = true) -> _canonical_object v = Ok p ->
  parse_utc_timestamp received = Some t -> parse_utc_timestamp deadline = Some t' -> (t < t')%Z ->
  exists op, request_create (request_args rid idem ws actor type received deadline gen v) =
    Ok {| rq_request_id := nfc rid; rq_operation_id := op; rq_idempotency_key := nfc idem; rq_workspace_id := nfc ws;
          rq_actor_id := nfc actor; rq_request_type := nfc type; rq_received_at := received;
          rq_deadline_at := deadline; rq_generation_id := nfc <$> gen; rq_payload := p |}.
Proof.
  intros Hs Hg Hp T T' Hlt. decompose_Forall_hyps. pose proof (rt_canonical_object_valid _ _ Hp) as Hst.
  unfold request_create. unfold request_args, dict_update. cbn [foldl assoc_set String.eqb Ascii.eqb Bool.eqb fst snd].
  change (field _ "payload") with v. rewrite Hp. cbn [mbind result_bind assoc_set String.eqb Ascii.eqb Bool.eqb].
  unfold reads. change (has_keys _ _) with true. cbn [ensure mbind result_bind].
  set (r := fun op => {| rq_request_id := nfc rid; rq_operation_id := op; rq_idempotency_key := nfc idem;
          rq_workspace_id := nfc ws; rq_actor_id := nfc actor; rq_request_type := nfc type; rq_received_at := received;
          rq_deadline_at := deadline; rq_generation_id := nfc <$> gen; rq_payload := p |}).
  set (raw := operation_identity _).
  assert (Hraw : forall op, _hash _OPERATION_DOMAIN (operation_identity (request_record (r op))) = _hash _OPERATION_DOMAIN raw).
  { intros op. apply hash_ext. subst raw. unfold operation_identity, request_record. cbn -[_normalize of_json].
    repeat constructor; cbn [fst snd]; rewrite ?normalize_nfc; try done. destruct gen; [apply normalize_nfc | done]. }
  assert (exists h, _hash _OPERATION_DOMAIN raw = Ok h) as [h Hh].
  { subst raw. apply hash_total; [reflexivity|].
    repeat (apply list.Forall_cons; split; [first [by eexists | eexists; exact Hst | destruct gen; by eexists]|]).
    by apply list.Forall_nil. }
  rewrite Hh. exists h. cbn [mbind result_bind assoc_set String.eqb Ascii.eqb Bool.eqb]. unfold request_from_mapping.
  read_record. rewrite String.eqb_refl. cbn [ensure mbind result_bind].
  rewrite !rt_nonempty_str, rt_hex64_good, rt_optional_opt, rt_canonical_object_stored by eauto using rt_hash_hex.
  cbn [mbind result_bind timestamp]. rewrite T, T'. cbn [of_option mbind result_bind fst snd].
  rewrite (proj2 (Z.ltb_lt _ _) Hlt). cbn [ensure mbind result_bind].
  fold (r h). rewrite Hraw, Hh. cbn [mbind result_bind]. by rewrite String.eqb_refl.
Qed.

(** The arguments of [StageResultRef.create]. *)
Definition ref_args (op stage input content schema created : string) (refs : list string) : mapping :=
  [("operation_id", PStr op); ("stage_name", PStr stage); ("input_digest", PStr input); ("content_digest", PStr content);
   ("schema_id", PStr schema); ("created_at", PStr created); ("provenance_refs", PTuple (map PStr refs))].

Lemma ref_create_ok op stage input content schema created refs :
  forallb is_hex64 [op; input; content] = true -> str_mem stage stage_names = true -> good schema ->
  dated created -> good_seq refs ->
  exists id, let r := {| result_id := id; ref_operation_id := op; ref_stage_name := stage; ref_input_digest := input;
                         content_digest := content; ref_schema_id := schema; ref_created_at := created;
                         ref_provenance := refs |} in
  ref_create (ref_args op stage input content schema created refs) = Ok r /\ ref_valid r.
Proof.
  intros Hx Hn Hs Hd Hp. unfold ref_create. unfold ref_args, dict_update.
  cbn [foldl assoc_set String.eqb Ascii.eqb Bool.eqb fst snd assoc _string_sequence negb orb].
  rewrite map_nonempty by apply Hp. cbn [mbind result_bind ensure]. rewrite (proj1 Hp).
  cbn [assoc_set String.eqb Ascii.eqb Bool.eqb].
  unfold reads. change (has_keys _ _) with true. cbn [ensure mbind result_bind].
  set (r := fun id => {| result_id := id; ref_operation_id := op; ref_stage_name := stage; ref_input_digest := input;
                         content_digest := content; ref_schema_id := schema; ref_created_at := created;
                         ref_provenance := refs |}).
  set (raw := ref_identity _).
  assert (Hraw : forall id, ref_identity (ref_to_mapping (r id)) = raw) by reflexivity.
  assert (exists h, _hash _STAGE_RESULT_DOMAIN raw = Ok h) as [h Hh].
  { apply hash_total; [reflexivity|]. subst raw. unfold ref_identity.
    repeat (apply list.Forall_cons; split; [first [by eexists | exists (JArr (map (fun s => JStr (nfc s)) refs))]|]);
      [|by apply list.Forall_nil].
    change (field _ "provenance_refs") with (py_strs refs). apply normalize_py_strs. }
  rewrite Hh. exists h. cbn [mbind result_bind assoc_set String.eqb Ascii.eqb Bool.eqb].
  assert (Hv : ref_valid (r h)).
  { unfold ref_valid. cbn [r result_id ref_operation_id ref_input_digest content_digest ref_schema_id ref_stage_name
      ref_created_at ref_provenance]. cbn [forallb] in Hx |- *. rewrite (rt_hash_hex _ _ _ Hh).
    split_and!; try done; by rewrite Hraw. }
  split; [|exact Hv]. transitivity (ref_from_mapping (ref_to_mapping (r h))); [reflexivity | exact (ref_reparse _ Hv)].
Qed.

(** ** Statuses and responses of an operation *)

Lemma refs_order_sorted indexes : StronglySorted lt indexes -> py_sort Nat.leb indexes = indexes.
Proof.
  intros H. apply py_sort_id. unfold ordered. induction H as [|x l _ IH Hx]; constructor; [done|].
  eapply list.Forall_impl; [exact Hx|]. intros y Hy. apply Nat.leb_le. lia.
Qed.

(** The committed stages of an operation, in pipeline order. *)
Definition refs_ok (op : string) (refs : list StageResultRef) : Prop :=
  Forall ref_valid refs /\ Forall (fun r => ref_operation_id r = op) refs /\
  exists indexes, mapM (fun r => stage_order (ref_stage_name r)) refs = Some indexes /\ StronglySorted lt indexes.

Lemma validate_refs_ok op refs : refs_ok op refs -> _validate_stage_refs refs op = Ok tt.
Proof.
  intros (_ & Ho & indexes & Hi & Hs). unfold _validate_stage_refs.
  assert (Hu : str_unique (map ref_stage_name refs) = true).
  { unfold str_unique. apply bool_decide_eq_true. clear Ho. apply mapM_Some in Hi. revert Hs.
    induction Hi as [|r i refs indexes Hr Hl IH]; cbn; intros Hs; [constructor|].
    apply StronglySorted_inv in Hs as [Hs Hlt]. apply list.NoDup_cons. split; [|by apply IH].
    intros Hin. apply list_elem_of_fmap in Hin as (r' & E & Hr').
    apply list_elem_of_lookup in Hr' as [k Hk]. destruct (list.Forall2_lookup_l _ _ _ _ _ Hl Hk) as (i' & Hi' & E').
    apply list_elem_of_lookup_2 in Hi'. rewrite list.Forall_forall in Hlt. specialize (Hlt _ Hi'). rewrite <- E in E'. rewrite Hr in E'.
    injection E' as ->. lia. }
  assert (Hf : forallb (fun r => String.eqb (ref_operation_id r) op) refs = true).
  { apply forallb_forall. intros r Hr%list_elem_of_In. rewrite list.Forall_forall in Ho. rewrite (Ho _ Hr). apply String.eqb_refl. }
  rewrite Hu, Hf, Hi. cbn [ensure mbind result_bind of_option].
  by rewrite refs_order_sorted, bool_decide_true.
Qed.

Lemma state_of_value state : state_of (state_value state) = Some state.
Proof. by destruct state. Qed.

Lemma status_of_value status : status_of (status_value status) = Some status.
Proof. by destruct status. Qed.

Lemma state_value_good state : good (state_value state).
Proof. destruct state; (split; [by apply nfc_ascii | done]). Qed.

Lemma status_value_good status : good (status_value status).
Proof. destruct status; (split; [by apply nfc_ascii | done]). Qed.

(** A status that says [state]. *)
Definition status_valid (state : OperationState) (s : RuntimeStatus) : Prop :=
  st_state s = state_value state /\ is_hex64 (st_operation_id s) = true /\ good (st_workspace_id s) /\
  (forall stage, st_current_stage s = Some stage -> str_mem stage stage_names = true) /\
  is_canonical_int (st_attempt s) = true /\ is_canonical_int (st_revision s) = true /\
  dated (st_deadline_at s) /\ dated (st_updated_at s) /\
  (forall id, st_cancellation_id s = Some id -> is_hex64 id = true) /\ code_opt (st_error_code s) /\
  refs_ok (st_operation_id s) (st_refs s) /\
  is_terminal state = bool_decide (st_current_stage s = None) /\
  _validate_state_ref_semantics state (st_refs s) (st_current_stage s) = Ok tt /\
  _validate_terminal_error_semantics state (st_error_code s) = Ok tt.

Lemma status_reparse state s : status_valid state s -> status_from_mapping (status_to_mapping s) = Ok s.
Proof.
  intros (Hst & Hop & Hws & Hcur & Ha & Hr & Hd & Hu & Hc & He & Hrefs & Hterm & Hsem & Herr).
  unfold status_from_mapping. read_record. rewrite String.eqb_refl. cbn [ensure mbind result_bind].
  rewrite (rt_hex64_good _ Hop), (rt_nonempty_good _ Hws). cbn [mbind result_bind].
  rewrite Hst, (rt_nonempty_good _ (state_value_good state)). cbn [mbind result_bind].
  rewrite state_of_value. cbn [of_option mbind result_bind].
  rewrite rt_optional_good by (intros x Hx; apply stage_name_good; by apply Hcur). cbn [mbind result_bind].
  assert (match st_current_stage s with Some x => str_mem x stage_names | None => true end = true) as ->
    by (destruct (st_current_stage s) as [x|]; [by apply Hcur | done]).
  cbn [ensure mbind result_bind canonical_integer]. rewrite Ha, Hr. cbn [mbind result_bind].
  destruct (timestamp_dated _ Hd) as (td & -> & _), (timestamp_dated _ Hu) as (tu & -> & _). cbn [mbind result_bind].
  rewrite (optional_good _ _ _ rt_hex64_good Hc), (optional_good _ _ _ rt_safe_code_good He). cbn [mbind result_bind].
  rewrite (parse_refs_list _ (proj1 Hrefs)). cbn [mbind result_bind]. rewrite (validate_refs_ok _ _ Hrefs).
  cbn [mbind result_bind]. rewrite Hterm.
  assert (negb (bool_decide (st_current_stage s = None)) || bool_decide (st_current_stage s = None) = true) as ->
    by (by destruct (bool_decide _)).
  assert (bool_decide (st_current_stage s = None) || bool_decide (st_current_stage s <> None) = true) as ->
    by (by destruct (st_current_stage s)).
  cbn [ensure mbind result_bind]. rewrite Hsem, Herr. cbn [mbind result_bind fst]. destruct s; cbn in *. by subst.
Qed.

(** A response that says [status] and [state]. *)
Definition response_valid (status : RuntimeResponseStatus) (state : OperationState) (r : RuntimeResponse) : Prop :=
  rs_status r = status_value status /\ rs_state r = state_value state /\
  good (rs_request_id r) /\ is_hex64 (rs_operation_id r) = true /\ good (rs_workspace_id r) /\
  good_opt (rs_generation_id r) /\ code_opt (rs_error_code r) /\ dated (rs_updated_at r) /\
  refs_ok (rs_operation_id r) (rs_refs r) /\
  (forall x, rs_result_ref r = Some x -> list.last (rs_refs r) = Some x) /\
  _validate_state_ref_semantics state (rs_refs r) None = Ok tt /\
  response_consistent status state (rs_refs r) (rs_result_ref r) (rs_retryable r) (rs_error_code r) = Ok tt.

Lemma response_reparse status state r : response_valid status state r ->
  response_from_mapping (response_to_mapping r) = Ok r.
Proof.
  intros (Hst & Hse & Hrid & Hop & Hws & Hgen & He & Hu & Hrefs & Hres & Hsem & Hcon).
  unfold response_from_mapping. read_record. rewrite String.eqb_refl. cbn [ensure mbind result_bind].
  rewrite (rt_hex64_good _ Hop), (rt_nonempty_good _ Hrid), (rt_nonempty_good _ Hws). cbn [mbind result_bind].
  rewrite Hst, (rt_nonempty_good _ (status_value_good status)). cbn [mbind result_bind].
  rewrite status_of_value. cbn [of_option mbind result_bind].
  rewrite Hse, (rt_nonempty_good _ (state_value_good state)). cbn [mbind result_bind].
  rewrite state_of_value. cbn [of_option mbind result_bind].
  rewrite rt_optional_good by done. cbn [mbind result_bind].
  rewrite (optional_good _ _ _ rt_safe_code_good He). cbn [mbind result_bind].
  destruct (timestamp_dated _ Hu) as (tu & -> & _). cbn [mbind result_bind].
  rewrite (parse_refs_list _ (proj1 Hrefs)). cbn [mbind result_bind]. rewrite (validate_refs_ok _ _ Hrefs).
  cbn [mbind result_bind].
  assert (Hx : forall x, rs_result_ref r = Some x -> ref_valid x /\ x ∈ rs_refs r).
  { intros x Hx%Hres%list.last_Some_elem_of. split; [|done].
    destruct Hrefs as [Hv _]. rewrite list.Forall_forall in Hv. by apply Hv. }
  destruct (rs_result_ref r) as [x|] eqn:E.
  - destruct (Hx x eq_refl) as [Hv Hin].
    change (parse_result_ref (py_record (ref_to_mapping x))) with (y ← _parse_stage_ref (py_record (ref_to_mapping x)); Ok (Some y)).
    rewrite parse_ref_record by done. cbn [mbind result_bind].
    rewrite !bool_decide_true by auto. cbn [ensure mbind result_bind].
    rewrite Hsem, Hcon.
    cbn [mbind result_bind fst]. destruct r; cbn in *. by subst.
  - cbn [parse_result_ref ensure mbind result_bind].
    rewrite Hsem, Hcon.
    cbn [mbind result_bind fst]. destruct r; cbn in *. by subst.
Qed.

(** An operation is its content, not its delivery.  [create] accepts every request whose
    texts are not empty once normalized and whose deadline follows its arrival; what
    [from_mapping] accepts survives [to_mapping]; and two accepted requests have one
    [operation_id] when they agree on key, workspace, actor, type, deadline, generation and
    payload, and only then - whatever their request ids and arrival times - unless the two
    byte strings hashed collide. *)
Theorem operation_id_names_operation rid idem ws actor type received deadline gen v p t t' data data' r r' :
  (Forall (fun s => str_nonempty (nfc s) = true) [rid; idem; ws; actor; type] ->
   (forall s, gen = Some s -> str_nonempty (nfc s) = true) -> _canonical_object v = Ok p ->
   parse_utc_timestamp received = Some t -> parse_utc_timestamp deadline = Some t' -> (t < t')%Z ->
   is_ok (request_create (request_args rid idem ws actor type received deadline gen v)) = true) /\
  (request_from_mapping data = Ok r -> request_from_mapping data' = Ok r' ->
   (exists m, request_to_mapping r = Ok m /\ request_from_mapping m = Ok r) /\
   (same_operation r r' -> rq_operation_id r = rq_operation_id r') /\
   (rq_operation_id r = rq_operation_id r' ->
    same_operation r r' \/
    collision (hash_input _OPERATION_DOMAIN (operation_identity (request_record r)) ++
               hash_input _OPERATION_DOMAIN (operation_identity (request_record r'))))).
Proof.
  split.
  - intros H1 H2 H3 H4 H5 H6. by destruct (request_create_ok _ _ _ _ _ _ _ _ _ _ _ _ H1 H2 H3 H4 H5 H6) as [op ->].
  - intros Hr%request_from_valid Hr'%request_from_valid. split; [|split; [by apply same_operation_id | by apply request_binding]].
    exists (request_record r). split; [apply request_mapping_ok, Hr | by apply request_reparse].
Qed.
End Binding.

(** ** A concrete request *)

Definition sample_args (rid received : string) : mapping :=
  request_args rid "k1" "ws" "alice" "recall" received "2026-01-01T00:10:00Z" (Some "g1")
    (py_record [("question", PStr "when")]).

Definition sample_request (rid received : string) : result runtime_error RuntimeRequest :=
  request_create (U := unicode_sample) (D := pad_digest) (R := canonical_reader) (sample_args rid received).

Definition no_request : RuntimeRequest :=
  {| rq_request_id := ""; rq_operation_id := ""; rq_idempotency_key := ""; rq_workspace_id := ""; rq_actor_id := "";
     rq_request_type := ""; rq_received_at := ""; rq_deadline_at := ""; rq_generation_id := None; rq_payload := [] |}.

Definition sample_r1 : RuntimeRequest :=
  Eval vm_compute in match sample_request "r1" "2026-01-01T00:00:00Z" with Ok r => r | Err _ => no_request end.
Definition sample_r2 : RuntimeRequest :=
  Eval vm_compute in match sample_request "r2" "2026-01-01T00:01:00Z" with Ok r => r | Err _ => no_request end.

Example sample_accepted :
  sample_request "r1" "2026-01-01T00:00:00Z" = Ok sample_r1 /\ sample_request "r2" "2026-01-01T00:01:00Z" = Ok sample_r2 /\
  request_from_mapping (U := unicode_sample) (D := pad_digest) (R := canonical_reader) (request_record sample_r1) = Ok sample_r1 /\
  request_from_mapping (U := unicode_sample) (D := pad_digest) (R := canonical_reader) (request_record sample_r2) = Ok sample_r2.
Proof. vm_compute. auto. Qed.

Lemma operation_id_names_operation_witness :
  rq_request_id sample_r1 <> rq_request_id sample_r2 /\ rq_operation_id sample_r1 = rq_operation_id sample_r2.
Proof.
  split; [discriminate|].
  destruct (operation_id_names_operation (U := unicode_sample) (D := pad_digest) (R := canonical_reader)
    "" "" "" "" "" "" "" None PNone [] 0%Z 0%Z (request_record sample_r1) (request_record sample_r2) sample_r1 sample_r2)
    as [_ H].
  destruct (H (proj1 (proj2 (proj2 sample_accepted))) (proj2 (proj2 (proj2 sample_accepted)))) as (_ & Hid & _).
  apply Hid. unfold same_operation. auto 10.
Defined.
