(* ===== verification/OperationStore.v ===== *)
(** * The operation store of the runtime (memory_runtime/orchestrator.py)

    One record per operation of a workspace: its pipeline, the committed stages, the attempts
    and the lease of the worker that runs the next stage.  Every method holds the store's
    lock, so a method is one atomic step; any number of workers call them in any order.  An
    instant is a number of microseconds (Timestamps.v). *)
From S2P Require Import Prelude Digest Json Canonical Hashing Contracts Timestamps RuntimeContracts.
Open Scope string_scope.

(** What the store and the orchestrator raise. *)
Inductive orch_error : Type :=
| OrchContract (e : runtime_error)
| OperationConflict (code : string)
| StageClaimConflict (code : string)
| StageResultConflict
| OrchKeyError
| OrchIndexError
| OrchOverflow
| NaiveClock.

#[export] Instance orch_error_eq_dec : EqDecision orch_error.
Proof. solve_decision. Defined.

Definition _CLAIM_DOMAIN : string := "wiki.runtime.stage-claim.v1" +:+ NUL.
Definition _MAX_CANCELLATION_CLOCK_SKEW : Z := 300 * SECOND.

(** ** Pipelines *)

Record PipelineDefinition : Type := {
  pipeline_id : string;
  pl_request_type : string;
  pl_stages : list string;
}.

(** [indexes == sorted(set(indexes))] *)
Definition strictly_ordered (indexes : list nat) : bool :=
  bool_decide (py_sort Nat.leb (elements (list_to_set indexes : gset nat)) = indexes).

(** [PipelineDefinition.__post_init__] on strings. *)
Definition pipeline_post_init `{U : Unicode} (id type : string) (stages : list string) : result runtime_error PipelineDefinition :=
  _ ← ensure (str_nonempty id) RtInvalidValue;
  _ ← ensure (str_nonempty type) RtInvalidValue;
  _ ← ensure (bool_decide (stages <> [])) RtInvalidValue;
  _ ← ensure (forallb (fun s => str_mem s stage_names) stages) RtInvalidValue;
  indexes ← of_option RtKeyError (mapM stage_order stages);
  _ ← ensure (strictly_ordered indexes) RtInvalidValue;
  _ ← ensure (bool_decide (head stages = Some "planned")) RtInvalidValue;
  _ ← ensure (negb (str_mem "generated" stages) || str_mem "verified" stages) RtInvalidValue;
  _ ← ensure (negb (str_mem "proposed" stages) ||
              (str_mem "verified" stages && bool_decide (list.last stages = Some "proposed"))) RtInvalidValue;
  Ok {| pipeline_id := nfc id; pl_request_type := nfc type; pl_stages := stages |}.

(** ** Records *)

Record StageClaim : Type := {
  claim_token : string;
  claim_stage_name : string;
  claim_attempt : nat;
  claim_input_digest : string;
}.

Record ActiveClaim : Type := {
  ac_claim_token : string;
  ac_request_id : string;
  ac_stage_name : string;
  ac_attempt : nat;
  lease_expires_at : Z;
  ac_input_digest : string;
}.

Record OperationRecord : Type := {
  op_operation_id : string;
  op_idempotency_key : string;
  op_workspace_id : string;
  op_actor_id : string;
  op_request_type : string;
  op_generation_id : option string;
  op_deadline_at : string;
  op_pipeline_id : string;
  op_pipeline_stages : list string;
  op_state : OperationState;
  stage_index : nat;
  stage_result_refs : list StageResultRef;
  attempts : list (string * nat);
  revision : nat;
  op_created_at : string;
  op_updated_at : string;
  cancellation : option CancellationSignal;
  active_claim : option ActiveClaim;
  op_error_code : option string;
}.

#[export] Instance cancellation_eq_dec : EqDecision CancellationSignal.
Proof. solve_decision. Defined.
#[export] Instance active_claim_eq_dec : EqDecision ActiveClaim.
Proof. solve_decision. Defined.
#[export] Instance operation_record_eq_dec : EqDecision OperationRecord.
Proof. solve_decision. Defined.

Definition attempt_for (r : OperationRecord) (stage : string) : nat :=
  match assoc stage (attempts r) with Some n => n | None => 0 end.

(** [replace(record, active_claim=..., state=..., error_code=..., revision=record.revision + 1,
    updated_at=...)] *)
Definition replaced (r : OperationRecord) (claim : option ActiveClaim) (state : OperationState)
    (error : option string) (now : Z) : OperationRecord :=
  {| op_operation_id := op_operation_id r; op_idempotency_key := op_idempotency_key r;
     op_workspace_id := op_workspace_id r; op_actor_id := op_actor_id r; op_request_type := op_request_type r;
     op_generation_id := op_generation_id r; op_deadline_at := op_deadline_at r; op_pipeline_id := op_pipeline_id r;
     op_pipeline_stages := op_pipeline_stages r; op_state := state; stage_index := stage_index r;
     stage_result_refs := stage_result_refs r; attempts := attempts r; revision := S (revision r);
     op_created_at := op_created_at r; op_updated_at := format_utc_timestamp now; cancellation := cancellation r;
     active_claim := claim; op_error_code := error |}.

(** The same, with a stage committed. *)
Definition with_stage (r : OperationRecord) (refs : list StageResultRef) : OperationRecord :=
  {| op_operation_id := op_operation_id r; op_idempotency_key := op_idempotency_key r;
     op_workspace_id := op_workspace_id r; op_actor_id := op_actor_id r; op_request_type := op_request_type r;
     op_generation_id := op_generation_id r; op_deadline_at := op_deadline_at r; op_pipeline_id := op_pipeline_id r;
     op_pipeline_stages := op_pipeline_stages r; op_state := op_state r; stage_index := S (stage_index r);
     stage_result_refs := refs; attempts := attempts r; revision := revision r;
     op_created_at := op_created_at r; op_updated_at := op_updated_at r; cancellation := cancellation r;
     active_claim := active_claim r; op_error_code := op_error_code r |}.

Definition with_attempt (r : OperationRecord) (stage : string) (n : nat) : OperationRecord :=
  {| op_operation_id := op_operation_id r; op_idempotency_key := op_idempotency_key r;
     op_workspace_id := op_workspace_id r; op_actor_id := op_actor_id r; op_request_type := op_request_type r;
     op_generation_id := op_generation_id r; op_deadline_at := op_deadline_at r; op_pipeline_id := op_pipeline_id r;
     op_pipeline_stages := op_pipeline_stages r; op_state := op_state r; stage_index := stage_index r;
     stage_result_refs := stage_result_refs r; attempts := sort_on fst (assoc_set stage n (attempts r));
     revision := revision r; op_created_at := op_created_at r; op_updated_at := op_updated_at r;
     cancellation := cancellation r; active_claim := active_claim r; op_error_code := op_error_code r |}.

Definition with_cancellation (r : OperationRecord) (c : CancellationSignal) : OperationRecord :=
  {| op_operation_id := op_operation_id r; op_idempotency_key := op_idempotency_key r;
     op_workspace_id := op_workspace_id r; op_actor_id := op_actor_id r; op_request_type := op_request_type r;
     op_generation_id := op_generation_id r; op_deadline_at := op_deadline_at r; op_pipeline_id := op_pipeline_id r;
     op_pipeline_stages := op_pipeline_stages r; op_state := op_state r; stage_index := stage_index r;
     stage_result_refs := stage_result_refs r; attempts := attempts r; revision := revision r;
     op_created_at := op_created_at r; op_updated_at := op_updated_at r; cancellation := Some c;
     active_claim := active_claim r; op_error_code := op_error_code r |}.

Record InMemoryOperationStore : Type := {
  _records : gmap (string * string) OperationRecord;
  _idempotency : gmap (string * string) string;
}.

Definition empty_operations : InMemoryOperationStore := {| _records := ∅; _idempotency := ∅ |}.

Definition put_record (k : string * string) (r : OperationRecord) (s : InMemoryOperationStore) : InMemoryOperationStore :=
  {| _records := <[k := r]> (_records s); _idempotency := _idempotency s |}.

Inductive claim_outcome : Type := Terminal | Busy | Claimed.

Record ClaimDecision : Type := {
  decision_record : OperationRecord;
  decision_claim : option StageClaim;
  decision_outcome : claim_outcome;
}.

Section Operations.
Context {U : Unicode} {D : Digest} {R : JsonReader}.

Definition method (A : Type) : Type := st InMemoryOperationStore orch_error A.

(** [parse_utc_timestamp(text)] of a text the store holds *)
Definition instant_of (text : string) : result orch_error Z :=
  of_option (OrchContract RtInvalidValue) (parse_utc_timestamp text).

(** [self._records[key]] *)
Definition lookup_record (k : string * string) : method OperationRecord := fun s =>
  (s, of_option OrchKeyError (_records s !! k)).

(** [self._records[key] = record; return record] *)
Definition store_record (k : string * string) (r : OperationRecord) : method OperationRecord := fun s =>
  (put_record k r s, Ok r).

Definition key_of (r : RuntimeRequest) : string * string := (rq_workspace_id r, rq_operation_id r).

(** [InMemoryOperationStore.register] *)
Definition new_record (request : RuntimeRequest) (pipeline : PipelineDefinition) (now : Z) : OperationRecord :=
  let text := format_utc_timestamp now in
  {| op_operation_id := rq_operation_id request; op_idempotency_key := rq_idempotency_key request;
     op_workspace_id := rq_workspace_id request; op_actor_id := rq_actor_id request;
     op_request_type := rq_request_type request; op_generation_id := rq_generation_id request;
     op_deadline_at := rq_deadline_at request; op_pipeline_id := pipeline_id pipeline;
     op_pipeline_stages := pl_stages pipeline; op_state := RECEIVED; stage_index := 0; stage_result_refs := [];
     attempts := []; revision := 0; op_created_at := text; op_updated_at := text; cancellation := None;
     active_claim := None; op_error_code := None |}.

Definition same_binding (r : OperationRecord) (request : RuntimeRequest) (pipeline : PipelineDefinition) : bool :=
  bool_decide ((op_actor_id r, op_request_type r, op_generation_id r, op_deadline_at r, op_pipeline_id r, op_pipeline_stages r) =
   (rq_actor_id request, rq_request_type request, rq_generation_id request, rq_deadline_at request,
    pipeline_id pipeline, pl_stages pipeline)).

Definition register (request : RuntimeRequest) (pipeline : PipelineDefinition) (now : Z) : method OperationRecord := fun s =>
  let idempotency_key := (rq_workspace_id request, rq_idempotency_key request) in
  if match _idempotency s !! idempotency_key with
     | Some existing_operation => negb (String.eqb existing_operation (rq_operation_id request))
     | None => false
     end
  then (s, Err (OperationConflict "idempotency_payload_mismatch"))
  else match _records s !! key_of request with
       | Some existing =>
           if same_binding existing request pipeline then (s, Ok existing)
           else (s, Err (OperationConflict "operation_binding_mismatch"))
       | None =>
           let record := new_record request pipeline now in
           ({| _records := <[key_of request := record]> (_records s);
               _idempotency := <[idempotency_key := rq_operation_id request]> (_idempotency s) |}, Ok record)
       end.

Definition get (workspace operation : string) : method (option OperationRecord) := fun s =>
  (s, Ok (_records s !! (workspace, operation))).

Definition _normalize_terminal (r : OperationRecord) (now : Z) : result orch_error OperationRecord :=
  if is_terminal (op_state r) then Ok r
  else if bool_decide (cancellation r <> None) && bool_decide (active_claim r = None) then
    Ok (replaced r (active_claim r) CANCELLED (Some "cancelled") now)
  else
    deadline ← instant_of (op_deadline_at r);
    if (deadline <=? now)%Z && bool_decide (active_claim r = None) then
      Ok (replaced r (active_claim r) FAILED (Some "deadline_exceeded") now)
    else if (length (op_pipeline_stages r) <=? stage_index r)%nat && bool_decide (active_claim r = None) then
      Ok (replaced r (active_claim r) COMPLETED None now)
    else Ok r.

(** The active claim is dropped once its lease has expired. *)
Definition lease_expired (r : OperationRecord) (now : Z) : bool :=
  match active_claim r with Some c => (lease_expires_at c <=? now)%Z | None => false end.
Definition expire (r : OperationRecord) (now : Z) : OperationRecord :=
  if lease_expired r now then replaced r None (op_state r) (op_error_code r) now else r.

Definition refresh (workspace operation : string) (now : Z) : method (option OperationRecord) := fun s =>
  match _records s !! (workspace, operation) with
  | None => (s, Ok None)
  | Some record =>
      match _normalize_terminal (expire record now) now with
      | Err e => (s, Err e)
      | Ok normalized =>
          ((if decide (Some normalized = _records s !! (workspace, operation)) then s
            else put_record (workspace, operation) normalized s), Ok (Some normalized))
      end
  end.

(** The record of [request_cancel] once the signal is accepted. *)
Definition with_signal (record : OperationRecord) (signal : CancellationSignal) (now : Z) : OperationRecord :=
  let updated := with_cancellation (replaced record (active_claim record) (op_state record) (op_error_code record) now) signal in
  if negb (is_terminal (op_state updated)) && bool_decide (active_claim updated = None)
  then replaced updated (active_claim updated) CANCELLED (Some "cancelled") now
  else updated.

Definition request_cancel (signal : CancellationSignal) (now : Z) : method (option OperationRecord) := fun s =>
  let key := (cs_workspace_id signal, cs_operation_id signal) in
  match _records s !! key with
  | None => (s, Ok None)
  | Some record =>
      if negb (String.eqb (cs_actor_id signal) (op_actor_id record)) then
        (s, Err (OperationConflict "cancellation_actor_mismatch"))
      else match instant_of (requested_at signal), instant_of (op_created_at record) with
      | Err e, _ | _, Err e => (s, Err e)
      | Ok at_, Ok created =>
          if (at_ <? created)%Z then (s, Err (OperationConflict "cancellation_precedes_operation"))
          else match add_delta now _MAX_CANCELLATION_CLOCK_SKEW with
          | None => (s, Err OrchOverflow)
          | Some latest =>
              if (latest <? at_)%Z then (s, Err (OperationConflict "cancellation_timestamp_too_far_in_future"))
              else if is_terminal (op_state record) then (s, Ok (Some record))
              else if bool_decide (cancellation record <> None) then (s, Ok (Some record))
              else
                let updated := with_signal record signal now in
                (put_record key updated s, Ok (Some updated))
          end
      end
  end.

Definition is_cancelled (workspace operation : string) : method bool := fun s =>
  (s, Ok (match _records s !! (workspace, operation) with
          | Some r => bool_decide (cancellation r <> None) | None => false end)).

Definition claim_fields (r : OperationRecord) (stage : string) (attempt : nat) (request_id input_digest : string) : mapping :=
  [("operation_id", PStr (op_operation_id r)); ("stage_name", PStr stage); ("attempt", PStr (str_of_nat attempt));
   ("request_id", PStr request_id); ("input_digest", PStr input_digest)].

(** [claim_next], once the record is neither terminal nor leased to another worker *)
Definition grant (key : string * string) (record : OperationRecord) (request_id : string) (now lease_duration : Z)
    (input_digest : string) (max_attempts : nat) (allow_exhausted : bool) : method ClaimDecision :=
  stage_name ← st_lift (of_option OrchIndexError (op_pipeline_stages record !! stage_index record));
  if (max_attempts <=? attempt_for record stage_name)%nat && negb allow_exhausted then
    exhausted ← store_record key (replaced record None FAILED (Some "retry_budget_exhausted") now);
    mret {| decision_record := exhausted; decision_claim := None; decision_outcome := Terminal |}
  else
    let attempt := S (attempt_for record stage_name) in
    token ← st_lift (map_err OrchContract (_hash _CLAIM_DOMAIN (claim_fields record stage_name attempt request_id input_digest)));
    deadline ← st_lift (instant_of (op_deadline_at record));
    until ← st_lift (of_option OrchOverflow (add_delta now lease_duration));
    let claim := {| ac_claim_token := token; ac_request_id := request_id; ac_stage_name := stage_name;
                    ac_attempt := attempt; lease_expires_at := Z.min deadline until; ac_input_digest := input_digest |} in
    updated ← store_record key (replaced (with_attempt record stage_name attempt) (Some claim) (op_state record)
                                  (op_error_code record) now);
    mret {| decision_record := updated;
            decision_claim := Some {| claim_token := token; claim_stage_name := stage_name; claim_attempt := attempt;
                                      claim_input_digest := input_digest |};
            decision_outcome := Claimed |}.

Definition claim_next (request : RuntimeRequest) (request_id : string) (now lease_duration : Z) (input_digest : string)
    (max_attempts : nat) (allow_exhausted : bool) : method ClaimDecision :=
  let key := key_of request in
  record ← lookup_record key;
  record ← (if lease_expired record now then store_record key (expire record now) else mret record);
  normalized ← st_lift (_normalize_terminal record now);
  record ← (if decide (normalized <> record) then store_record key normalized else mret record);
  if is_terminal (op_state record) then
    mret {| decision_record := record; decision_claim := None; decision_outcome := Terminal |}
  else if match active_claim record with Some c => (now <? lease_expires_at c)%Z | None => false end then
    mret {| decision_record := record; decision_claim := None; decision_outcome := Busy |}
  else grant key record request_id now lease_duration input_digest max_attempts allow_exhausted.

(** [now] is [None] where the code does not look at the lease. *)
Definition _require_claim (r : OperationRecord) (claim : StageClaim) (now : option Z) : result orch_error ActiveClaim :=
  match active_claim r with
  | None => Err (StageClaimConflict "stale_stage_claim")
  | Some active =>
      _ ← ensure (String.eqb (ac_claim_token active) (claim_token claim)) (StageClaimConflict "stale_stage_claim");
      _ ← ensure (String.eqb (ac_stage_name active) (claim_stage_name claim) && (ac_attempt active =? claim_attempt claim)%nat &&
                  String.eqb (ac_input_digest active) (claim_input_digest claim))
            (StageClaimConflict "stage_claim_binding_mismatch");
      _ ← ensure (match now with Some t => (t <? lease_expires_at active)%Z | None => true end)
            (StageClaimConflict "expired_stage_claim");
      Ok active
  end.

(** [None if record.cancellation is not None or deadline_reached else now] *)
Definition checked_at (r : OperationRecord) (deadline_reached : bool) (now : Z) : option Z :=
  if bool_decide (cancellation r <> None) || deadline_reached then None else Some now.

(** The state and error a committed stage leads to. *)
Definition commit_outcome (r : OperationRecord) (ref : StageResultRef) (disposition : StageDisposition) (error : option string)
    : result orch_error (OperationState * option string) :=
  let next_index := S (stage_index r) in
  let or_else o default := match o with Some e => if str_nonempty e then Some e else Some default | None => Some default end in
  state ← of_option (OrchContract RtInvalidValue) (state_of (ref_stage_name ref));
  match disposition with
  | REJECT => Ok (REJECTED, or_else error "stage_rejected")
  | ABSTAIN => Ok (ABSTAINED, or_else error "stage_abstained")
  | DEGRADE => Ok (DEGRADED, or_else error "stage_degraded")
  | COMPLETE =>
      if (next_index <? length (op_pipeline_stages r))%nat then Err (OperationConflict "early_stage_completion_denied")
      else Ok (COMPLETED, None)
  | CONTINUE => if (length (op_pipeline_stages r) <=? next_index)%nat then Ok (COMPLETED, None) else Ok (state, error)
  end.

Definition commit_stage (request : RuntimeRequest) (claim : StageClaim) (ref : StageResultRef)
    (disposition : StageDisposition) (error : option string) (now : Z) : method OperationRecord :=
  let key := key_of request in
  record ← lookup_record key;
  deadline ← st_lift (instant_of (op_deadline_at record));
  let deadline_reached := (deadline <=? now)%Z in
  _ ← st_lift (_require_claim record claim (checked_at record deadline_reached now));
  _ ← st_lift (ensure (String.eqb (ref_operation_id ref) (rq_operation_id request))
                 (StageClaimConflict "stage_result_operation_mismatch"));
  _ ← st_lift (ensure (String.eqb (ref_stage_name ref) (claim_stage_name claim) &&
                       String.eqb (ref_input_digest ref) (claim_input_digest claim))
                 (StageClaimConflict "stage_result_claim_mismatch"));
  if bool_decide (cancellation record <> None) then
    store_record key (replaced record None CANCELLED (Some "cancelled") now)
  else if deadline_reached then
    store_record key (replaced record None FAILED (Some "deadline_exceeded") now)
  else
    _ ← st_lift (ensure (negb (str_mem (ref_stage_name ref) (map ref_stage_name (stage_result_refs record))))
                   (StageClaimConflict "duplicate_stage_commit"));
    out ← st_lift (commit_outcome record ref disposition error);
    store_record key (replaced (with_stage record (stage_result_refs record ++ [ref])%list) None out.1 out.2 now).

Definition release_transient (request : RuntimeRequest) (claim : StageClaim) (error : string) (now : Z) : method OperationRecord :=
  let key := key_of request in
  record ← lookup_record key;
  deadline ← st_lift (instant_of (op_deadline_at record));
  let deadline_reached := (deadline <=? now)%Z in
  _ ← st_lift (_require_claim record claim (checked_at record deadline_reached now));
  store_record key
    (if bool_decide (cancellation record <> None) then replaced record None CANCELLED (Some "cancelled") now
     else if deadline_reached then replaced record None FAILED (Some "deadline_exceeded") now
     else replaced record None (op_state record) (Some error) now).

Definition fail_stage (request : RuntimeRequest) (claim : StageClaim) (error : string) (now : Z) (allow_expired : bool)
    : method OperationRecord :=
  let key := key_of request in
  record ← lookup_record key;
  deadline ← st_lift (instant_of (op_deadline_at record));
  let deadline_reached := (deadline <=? now)%Z in
  _ ← st_lift (_require_claim record claim (if allow_expired then None else checked_at record deadline_reached now));
  store_record key
    (if bool_decide (cancellation record <> None) then replaced record None CANCELLED (Some "cancelled") now
     else replaced record None FAILED (Some (if deadline_reached then "deadline_exceeded" else error)) now).
End Operations.

(** ** What every stored record satisfies *)
Section Invariant.
Context {U : Unicode} {D : Digest} {R : JsonReader}.
Implicit Types (r : OperationRecord) (s : InMemoryOperationStore).

(** Stages of a pipeline: known, in order, none twice, planned first. *)
Definition stages_ok (stages : list string) : Prop :=
  head stages = Some "planned" /\ exists indexes, mapM stage_order stages = Some indexes /\ StronglySorted lt indexes.

(** The state, the committed stages and the error agree. *)
Definition state_ok r : Prop :=
  match op_state r with
  | RECEIVED => stage_result_refs r = [] /\ stage_index r < length (op_pipeline_stages r)
  | COMPLETED => op_error_code r = None /\ stage_index r = length (op_pipeline_stages r)
  | REJECTED | ABSTAINED | DEGRADED => op_error_code r <> None /\ stage_result_refs r <> []
  | FAILED | CANCELLED => op_error_code r <> None
  | state => ref_stage_name <$> list.last (stage_result_refs r) = Some (state_value state) /\
             stage_index r < length (op_pipeline_stages r)
  end.

(** A claim is for the next stage, carries its latest attempt and ends by the deadline. *)
Definition claim_ok r (c : ActiveClaim) : Prop :=
  is_terminal (op_state r) = false /\ op_pipeline_stages r !! stage_index r = Some (ac_stage_name c) /\
  ac_attempt c = attempt_for r (ac_stage_name c) /\
  exists t, parse_utc_timestamp (op_deadline_at r) = Some t /\ (lease_expires_at c <= t)%Z.

Record record_ok (k : string * string) r : Prop := {
  ok_key : k = (op_workspace_id r, op_operation_id r);
  ok_operation : is_hex64 (op_operation_id r) = true;
  ok_workspace : good (op_workspace_id r);
  ok_stages : stages_ok (op_pipeline_stages r);
  ok_deadline : dated (op_deadline_at r);
  ok_created : dated (op_created_at r);
  ok_updated : dated (op_updated_at r);
  ok_refs : Forall (fun x => ref_valid x /\ ref_operation_id x = op_operation_id r) (stage_result_refs r);
  ok_names : map ref_stage_name (stage_result_refs r) = take (stage_index r) (op_pipeline_stages r);
  ok_index : stage_index r <= length (op_pipeline_stages r);
  ok_state : state_ok r;
  ok_claim : forall c, active_claim r = Some c -> claim_ok r c;
  ok_cancellation : forall c, cancellation r = Some c -> cancellation_valid c;
  ok_error : code_opt (op_error_code r);
  ok_attempts : NoDup (attempts r).*1;
}.

(** A cancelled operation that no worker holds has ended. *)
Definition settled r : Prop :=
  cancellation r <> None -> active_claim r = None -> is_terminal (op_state r) = true.

(** What identifies an operation, fixed when it is registered. *)
Definition binding r :=
  (op_operation_id r, op_idempotency_key r, op_workspace_id r, op_actor_id r, op_request_type r, op_generation_id r,
   op_deadline_at r, op_pipeline_id r, op_pipeline_stages r, op_created_at r).

(** How a record changes: results are only appended, attempts and revisions only grow, the
    first cancellation stays, after it no result is committed and the only end is CANCELLED,
    a terminal record is final, and a claim that was not there has an attempt of its own. *)
Record evolves r r' : Prop := {
  ev_binding : binding r = binding r';
  ev_refs : stage_result_refs r `prefix_of` stage_result_refs r';
  ev_index : stage_index r <= stage_index r';
  ev_revision : r = r' \/ revision r < revision r';
  ev_attempts : forall stage, attempt_for r stage <= attempt_for r' stage;
  ev_cancellation : cancellation r <> None -> cancellation r' = cancellation r;
  ev_cancelled : cancellation r <> None -> stage_result_refs r' = stage_result_refs r /\ (op_state r' = op_state r \/ op_state r' = CANCELLED);
  ev_terminal : is_terminal (op_state r) = true -> r' = r;
  ev_claim : forall c, active_claim r' = Some c -> active_claim r = Some c \/ attempt_for r (ac_stage_name c) < ac_attempt c;
}.

#[export] Instance evolves_preorder : PreOrder evolves.
Proof.
  split; [intros r; constructor; auto|]. intros r1 r2 r3 [] []. constructor.
  - congruence.
  - by etrans.
  - lia.
  - destruct ev_revision0 as [-> | ?], ev_revision1 as [<- | ?]; auto with lia.
  - intros stage. etrans; eauto.
  - intros Hc. rewrite ev_cancellation1; auto. by rewrite ev_cancellation0.
  - intros Hc. destruct (ev_cancelled0 Hc) as [E1 S1]. specialize (ev_cancellation0 Hc).
    destruct (ev_cancelled1 ltac:(congruence)) as [E2 S2]. split; [congruence|]. destruct S2 as [-> | ->]; auto.
  - intros Ht. assert (r2 = r1) as -> by auto. auto.
  - intros c Hc. destruct (ev_claim1 c Hc) as [Hc'|Hc']; [auto|]. right. specialize (ev_attempts0 (ac_stage_name c)). lia.
Qed.

Definition store_ok s : Prop :=
  map_Forall (fun k r => record_ok k r /\ settled r) (_records s) /\
  (forall ws key op, _idempotency s !! (ws, key) = Some op -> is_Some (_records s !! (ws, op))).

(** Records are never lost and evolve; idempotency keys stay bound. *)
Record grows s s' : Prop := {
  gr_records : forall k r, _records s !! k = Some r -> exists r', _records s' !! k = Some r' /\ evolves r r';
  gr_keys : _idempotency s ⊆ _idempotency s';
}.

#[export] Instance grows_preorder : PreOrder grows.
Proof.
  split.
  - intros s. constructor; [eauto using PreOrder_Reflexive | done]. intros k r H. exists r. by split.
  - intros s1 s2 s3 [] []. constructor; [|by etrans]. intros k r Hr.
    destruct (gr_records0 _ _ Hr) as (r2 & Hr2 & E2). destruct (gr_records1 _ _ Hr2) as (r3 & Hr3 & E3).
    exists r3. split; [done | by etrans].
Qed.

(** One operation of the store: the invariant holds after it and records evolved. *)
Definition safe s s' : Prop := store_ok s' /\ grows s s'.

Lemma put_safe s k r r' :
  store_ok s -> _records s !! k = Some r -> record_ok k r' -> settled r' -> evolves r r' -> safe s (put_record k r' s).
Proof.
  intros [Hs Hi] Hr Hr' Hse He. split; [split|].
  - apply map_Forall_insert_2; [by split | done].
  - intros ws key op Hk. cbn in *. destruct (decide ((ws, op) = k)) as [<-|]; [by simplify_map_eq|].
    rewrite lookup_insert_ne by done. by eapply Hi.
  - constructor; [|done]. intros k' x Hx. cbn. destruct (decide (k' = k)) as [->|].
    + simplify_map_eq. by exists r'.
    + rewrite lookup_insert_ne by done. exists x. by split.
Qed.

Lemma put_same_safe s k r : store_ok s -> _records s !! k = Some r -> safe s (put_record k r s).
Proof. intros Hs Hr. destruct (proj1 Hs _ _ Hr). by eapply put_safe. Qed.

Lemma dated_now now : in_range now -> dated (format_utc_timestamp now).
Proof. intros H. eexists. by apply parse_format. Qed.

Lemma instant_ok text : dated text -> exists t, instant_of text = Ok t /\ parse_utc_timestamp text = Some t.
Proof. intros [t Ht]. exists t. unfold instant_of. by rewrite Ht. Qed.

(** A change of state, claim and error alone. *)
Lemma replaced_ok k r claim state error now :
  record_ok k r -> in_range now -> code_opt error ->
  (forall c, claim = Some c -> claim_ok r c /\ state = op_state r) ->
  (state = op_state r /\ is_terminal state = false \/
   (state = FAILED \/ state = CANCELLED) /\ error <> None \/
   state = COMPLETED /\ error = None /\ stage_index r = length (op_pipeline_stages r)) ->
  record_ok k (replaced r claim state error now).
Proof.
  intros H Hn He Hc Hst. destruct H. constructor; cbn; auto using dated_now.
  - destruct Hst as [[-> Ht] | [[[-> | ->] ?] | (-> & -> & ?)]]; cbn; auto.
    unfold state_ok in *; cbn. destruct (op_state r); done.
  - intros c E. destruct (Hc c E) as [Hk ->]. exact Hk.
Qed.

Lemma replaced_evolves r claim state error now :
  is_terminal (op_state r) = false ->
  (forall c, claim = Some c -> active_claim r = Some c \/ attempt_for r (ac_stage_name c) < ac_attempt c) ->
  cancellation r = None \/ state = op_state r \/ state = CANCELLED ->
  evolves r (replaced r claim state error now).
Proof.
  intros Ht Hc Hs. constructor; cbn; auto; try congruence; try (right; lia). intros Hn. split; [done|]. destruct Hs as [Hs|Hs]; [done | auto].
Qed.

Lemma replaced_settled r state error now : is_terminal state = true -> settled (replaced r None state error now).
Proof. intros Ht _ _. exact Ht. Qed.

Lemma terminal_code (s : string) : is_safe_code s = true -> code_opt (Some s).
Proof. by intros H ? [= <-]. Qed.
Hint Resolve terminal_code : core.

Lemma expire_ok k r now : record_ok k r -> in_range now -> record_ok k (expire r now) /\ evolves r (expire r now).
Proof.
  intros H Hn. unfold expire, lease_expired. destruct (active_claim r) as [c|] eqn:Hc; [|by split].
  destruct (_ <=? _)%Z; [|by split]. destruct (ok_claim _ _ H c Hc) as (Ht & _). split.
  - apply replaced_ok; auto; [by destruct H | done].
  - apply replaced_evolves; auto; done.
Qed.

Lemma normalize_ok k r now :
  record_ok k r -> in_range now ->
  exists r', _normalize_terminal r now = Ok r' /\ record_ok k r' /\ settled r' /\ evolves r r' /\
    (is_terminal (op_state r') = false -> r' = r /\ stage_index r < length (op_pipeline_stages r) /\
     (active_claim r = None -> exists t, parse_utc_timestamp (op_deadline_at r) = Some t /\ (now < t)%Z)).
Proof.
  intros H Hn. unfold _normalize_terminal. destruct (is_terminal (op_state r)) eqn:Ht.
  { exists r. split_and!; try done; try congruence; by intros _ _. }
  assert (Hidx : stage_index r < length (op_pipeline_stages r)).
  { pose proof (ok_state _ _ H) as Hs. unfold state_ok in Hs. destruct (op_state r); try done; tauto. }
  destruct (bool_decide (active_claim r = None)) eqn:Ha; [apply bool_decide_eq_true in Ha | apply bool_decide_eq_false in Ha].
  - destruct (bool_decide (cancellation r <> None)) eqn:Hc; cbn [andb].
    + eexists. split; [reflexivity|]. rewrite Ha. split; [apply replaced_ok; auto; by intros ? [=]|].
      split; [by apply replaced_settled|]. split; [apply replaced_evolves; auto; done | done].
    + apply bool_decide_eq_false, dec_stable in Hc. destruct (instant_ok _ (ok_deadline _ _ H)) as (t & -> & Hp). cbn [mbind result_bind].
      rewrite !andb_true_r. destruct (Z.leb_spec t now).
      * eexists. split; [reflexivity|]. rewrite Ha. split; [apply replaced_ok; auto; by intros ? [=]|].
        split; [by apply replaced_settled|]. split; [apply replaced_evolves; auto; done | done].
      * destruct (Nat.leb_spec (length (op_pipeline_stages r)) (stage_index r)); [lia|]. exists r.
        split; [done|]. split; [done|]. split; [by intros ?|]. split; [done|]. intros _. split; [done|]. split; [done|]. eauto.
  - rewrite !andb_false_r. destruct (instant_ok _ (ok_deadline _ _ H)) as (t & -> & Hp). cbn [mbind result_bind].
    rewrite !andb_false_r. exists r. split; [done|]. split; [done|]. split; [by intros ??|]. split; [done|].
    intros _. split; [done|]. split; [done|]. by intros ?.
Qed.
End Invariant.

(** ** The methods, one by one *)
Section Methods.
Context {U : Unicode} {D : Digest} {R : JsonReader}.
Implicit Types (r : OperationRecord) (s : InMemoryOperationStore).
Hint Resolve terminal_code : core.

Lemma put_put k r r' s : put_record k r' (put_record k r s) = put_record k r' s.
Proof. unfold put_record. cbn. by rewrite insert_insert_eq. Qed.

Lemma put_id k r s : _records s !! k = Some r -> put_record k r s = s.
Proof. intros H. unfold put_record. rewrite insert_id by done. by destruct s. Qed.

Lemma settled_nonterminal r r' : settled r -> is_terminal (op_state r) = false -> cancellation r' = cancellation r ->
  active_claim r' = active_claim r -> settled r'.
Proof. intros Hs Ht Hc Ha H1 H2. rewrite Hc in H1. rewrite Ha in H2. specialize (Hs H1 H2). congruence. Qed.

Lemma register_safe s request pipeline now :
  store_ok s -> request_valid request -> stages_ok (pl_stages pipeline) -> in_range now ->
  safe s (register request pipeline now s).1 /\
  (forall e, (register request pipeline now s).2 = Err e -> exists code, e = OperationConflict code /\ is_safe_code code = true) /\
  (forall r, (register request pipeline now s).2 = Ok r ->
     _records (register request pipeline now s).1 !! key_of request = Some r /\
     op_deadline_at r = rq_deadline_at request /\ op_pipeline_stages r = pl_stages pipeline).
Proof.
  intros Hs Hv Hp Hn. unfold register.
  set (conflict := match _idempotency s !! _ with Some _ => _ | None => _ end). destruct conflict eqn:Hconf.
  { split; [by split|]. split; [intros e [= <-]; eauto | done]. }
  destruct (_records s !! key_of request) as [r|] eqn:Hr; cbn [fst snd].
  - destruct (same_binding r request pipeline) eqn:Hb; cbn [fst snd].
    + split; [by split|]. split; [done|]. intros r' [= <-]. split; [done|]. unfold same_binding in Hb.
      apply bool_decide_eq_true in Hb. injection Hb. auto.
    + split; [by split|]. split; [intros e [= <-]; eauto | done].
  - split; [|split; [done | intros r' [= <-]; cbn; by simplify_map_eq]].
    destruct Hv as (Hg & Hx & _ & _ & (t & t' & _ & T' & _) & _). decompose_Forall_hyps.
    split; [split|].
    + apply map_Forall_insert_2; [|apply Hs]. split; [|by intros ?]. constructor; cbn; auto using dated_now; try done.
      all: try (by eexists); try lia; try apply NoDup_nil_2.
      unfold state_ok; cbn. split; [done|]. destruct Hp as [Hne _]. destruct (pl_stages pipeline); [done | cbn; lia].
    + intros ws key op. cbn. destruct (decide ((ws, key) = (rq_workspace_id request, rq_idempotency_key request))) as [E|].
      * injection E as -> ->. rewrite lookup_insert_eq. intros [= <-]. unfold key_of. rewrite lookup_insert_eq. eauto.
      * rewrite lookup_insert_ne by congruence. intros Hk. apply (proj2 Hs) in Hk as [x Hk].
        destruct (decide ((ws, op) = key_of request)) as [E|]; [rewrite E in Hk; congruence|]. rewrite lookup_insert_ne by done. eauto.
    + constructor; cbn.
      * intros k r Hk. exists r. split; [|done]. rewrite lookup_insert_ne; [done|congruence].
      * apply map_subseteq_spec. intros k op Hk. destruct (decide (k = (rq_workspace_id request, rq_idempotency_key request))) as [->|].
        -- rewrite Hk in Hconf. apply negb_false_iff, String.eqb_eq in Hconf. subst op.
           apply lookup_insert_eq.
        -- by rewrite lookup_insert_ne by done.
Qed.

(** A record the store holds. *)
Definition held s ws op r : Prop := _records s !! (ws, op) = Some r.

Lemma refresh_safe s ws op now :
  store_ok s -> in_range now ->
  safe s (refresh ws op now s).1 /\
  exists o, (refresh ws op now s).2 = Ok o /\ _records (refresh ws op now s).1 !! (ws, op) = o /\
    (is_Some (_records s !! (ws, op)) -> is_Some o).
Proof.
  intros Hs Hn. unfold refresh. destruct (_records s !! (ws, op)) as [r|] eqn:Hr; cbn [fst snd].
  - destruct (proj1 Hs _ _ Hr) as [Hok _]. destruct (expire_ok _ _ _ Hok Hn) as [Hok1 E1].
    destruct (normalize_ok _ _ _ Hok1 Hn) as (r2 & -> & Hok2 & Hse & E2 & _). cbn [fst snd].
    assert (Hput : (if decide (Some r2 = Some r) then s else put_record (ws, op) r2 s) = put_record (ws, op) r2 s).
    { destruct (decide _) as [[= ->]|]; [by rewrite put_id | done]. }
    rewrite Hput. split; [eapply put_safe; eauto; by etrans|]. exists (Some r2). cbn. rewrite lookup_insert_eq. eauto.
  - split; [by split|]. exists None. eauto.
Qed.

Lemma with_signal_ok k r signal now :
  record_ok k r -> settled r -> is_terminal (op_state r) = false -> cancellation r = None -> cancellation_valid signal -> in_range now ->
  record_ok k (with_signal r signal now) /\ settled (with_signal r signal now) /\ evolves r (with_signal r signal now) /\
  cancellation (with_signal r signal now) <> None.
Proof.
  intros Hok Hse Ht Hc Hv Hn. unfold with_signal. set (u := with_cancellation _ signal).
  assert (Hu : record_ok k u).
  { assert (Hr : record_ok k (replaced r (active_claim r) (op_state r) (op_error_code r) now)).
    { apply replaced_ok; auto; [by eapply ok_error|]; intros c E; split; [by eapply ok_claim | done]. }
    destruct Hr. constructor; auto. by intros c [= <-]. }
  assert (Eu : evolves r u) by (constructor; cbn; auto; try congruence; right; lia).
  replace (is_terminal (op_state u)) with false by done. cbn [negb andb]. destruct (bool_decide _) eqn:Ha.
  - apply bool_decide_eq_true in Ha. rewrite Ha. split_and!; [| by apply replaced_settled | | done].
    + apply replaced_ok; auto. by intros ? [=].
    + etrans; [exact Eu | apply replaced_evolves; auto; done].
  - apply bool_decide_eq_false in Ha. split_and!; [done | by intros ? ? | done | done].
Qed.

Lemma request_cancel_safe s signal now :
  store_ok s -> cancellation_valid signal -> in_range now ->
  safe s (request_cancel signal now s).1 /\
  (forall e, (request_cancel signal now s).2 = Err e ->
     e = OrchOverflow \/ exists code, e = OperationConflict code /\ is_safe_code code = true) /\
  (forall o, (request_cancel signal now s).2 = Ok o ->
     _records (request_cancel signal now s).1 !! (cs_workspace_id signal, cs_operation_id signal) = o /\
     (forall r, o = Some r -> is_terminal (op_state r) = true \/ cancellation r <> None)).
Proof.
  intros Hs Hv Hn. unfold request_cancel.
  destruct (_records s !! _) as [r|] eqn:Hr; cbn [fst snd]; [|split; [by split | split; [done | by intros ? [= <-]]]].
  destruct (proj1 Hs _ _ Hr) as [Hok Hse].
  destruct (negb _); [split; [by split | split; [intros e [= <-]; eauto | done]]|].
  assert (Hat : dated (requested_at signal)) by (destruct Hv as (? & ? & ?); tauto).
  destruct (instant_ok _ Hat) as (t & -> & _). destruct (instant_ok _ (ok_created _ _ Hok)) as (t' & -> & _).
  destruct (_ <? _)%Z; [split; [by split | split; [intros e [= <-]; eauto | done]]|].
  destruct (add_delta _ _) as [latest|]; [|split; [by split | split; [intros e [= <-]; eauto | done]]].
  destruct (_ <? _)%Z; [split; [by split | split; [intros e [= <-]; eauto | done]]|].
  destruct (is_terminal (op_state r)) eqn:Ht.
  { split; [by split | split; [done | intros o [= <-]]]. split; [done|]. intros ? [= <-]. by left. }
  destruct (bool_decide _) eqn:Hc.
  { split; [by split | split; [done | intros o [= <-]]]. split; [done|]. intros ? [= <-]. right. by apply bool_decide_eq_true in Hc. }
  apply bool_decide_eq_false in Hc.
  destruct (cancellation r) as [c|] eqn:Hcn; [by destruct Hc|].
  destruct (with_signal_ok _ r signal now Hok Hse Ht Hcn Hv Hn) as (Hu & Hsu & Eu & Hcu). cbn [fst snd].
  split; [by eapply put_safe|]. split; [done|]. intros o [= <-]. cbn. rewrite lookup_insert_eq.
  split; [done | intros ? [= <-]; by right].
Qed.

(** *** [claim_next] *)

Lemma claim_hash_total r stage n id input : exists h, _hash _CLAIM_DOMAIN (claim_fields r stage n id input) = Ok h.
Proof. apply hash_total; [reflexivity|]. unfold claim_fields. repeat constructor; by eexists. Qed.

Lemma attempt_with_attempt r stage n stage' : NoDup (attempts r).*1 ->
  attempt_for (with_attempt r stage n) stage' = if decide (stage' = stage) then n else attempt_for r stage'.
Proof.
  intros Hnd. unfold attempt_for. cbn [attempts with_attempt].
  erewrite (assoc_perm _ (assoc_set stage n (attempts r))); [|rewrite sort_on_perm_self; by apply assoc_set_NoDup | apply sort_on_perm_self].
  destruct (decide (stage' = stage)) as [->|]; [by rewrite assoc_set_eq | by rewrite assoc_set_ne].
Qed.

(** What a claim for the next stage does to a record. *)
Definition granted_record r stage n claim now : OperationRecord :=
  replaced (with_attempt r stage n) (Some claim) (op_state r) (op_error_code r) now.

Lemma granted_ok k r c now t :
  record_ok k r -> active_claim r = None -> is_terminal (op_state r) = false -> in_range now ->
  op_pipeline_stages r !! stage_index r = Some (ac_stage_name c) -> ac_attempt c = S (attempt_for r (ac_stage_name c)) ->
  parse_utc_timestamp (op_deadline_at r) = Some t -> (lease_expires_at c <= t)%Z ->
  let r' := granted_record r (ac_stage_name c) (ac_attempt c) c now in record_ok k r' /\ settled r' /\ evolves r r'.
Proof.
  intros Hok Ha Ht Hn Hst Hat Hd Hl. pose proof (attempt_with_attempt r (ac_stage_name c) (ac_attempt c)) as Hw.
  specialize (fun x => Hw x (ok_attempts _ _ Hok)). split_and!.
  - assert (H : record_ok k (with_attempt r (ac_stage_name c) (ac_attempt c))).
    { destruct Hok. constructor; auto; [cbn; congruence|]. cbn [attempts with_attempt]. rewrite sort_on_perm_self.
      by apply assoc_set_NoDup. }
    apply replaced_ok; auto; [by eapply ok_error|]. intros c' [= <-]. split; [|done].
    split_and!; [done | done | by rewrite Hw, decide_True | by exists t].
  - by intros _ [=].
  - constructor; cbn [active_claim granted_record replaced]; auto; try (cbn; congruence); try (right; cbn; lia).
    + intros stage. change (attempt_for (granted_record _ _ _ _ _) stage) with (attempt_for (with_attempt r (ac_stage_name c) (ac_attempt c)) stage).
      rewrite Hw. destruct (decide _) as [->|]; lia.
    + intros c' [= <-]. right. lia.
Qed.

(** A claim handed to a worker is the active claim of the record. *)
Definition holds r (c : StageClaim) : Prop :=
  exists a, active_claim r = Some a /\ ac_claim_token a = claim_token c /\ ac_stage_name a = claim_stage_name c /\
    ac_attempt a = claim_attempt c /\ ac_input_digest a = claim_input_digest c.

(** What a decision says of the record it was made on. *)
Definition decision_ok (d : ClaimDecision) (r : OperationRecord) (now lease : Z) (input : string) (max_attempts : nat) (allow : bool) : Prop :=
  match decision_outcome d with
  | Terminal => decision_claim d = None /\ is_terminal (op_state (decision_record d)) = true
  | Busy => decision_claim d = None /\ is_terminal (op_state (decision_record d)) = false /\
      exists a, active_claim (decision_record d) = Some a /\ (now < lease_expires_at a)%Z
  | Claimed => exists c a, decision_claim d = Some c /\ holds (decision_record d) c /\ active_claim (decision_record d) = Some a /\
      cancellation (decision_record d) = None /\
      claim_attempt c = S (attempt_for r (claim_stage_name c)) /\ (claim_attempt c <= max_attempts \/ allow = true) /\
      claim_input_digest c = input /\ (lease_expires_at a <= now + lease)%Z /\ ((0 < lease)%Z -> (now < lease_expires_at a)%Z)
  end.

(** [claim_next] on the record it finds, once expired and normalized. *)
Definition decide_claim (request : RuntimeRequest) (r2 : OperationRecord) id now lease input max_attempts allow : method ClaimDecision :=
  if is_terminal (op_state r2) then
    mret {| decision_record := r2; decision_claim := None; decision_outcome := Terminal |}
  else if match active_claim r2 with Some c => (now <? lease_expires_at c)%Z | None => false end then
    mret {| decision_record := r2; decision_claim := None; decision_outcome := Busy |}
  else grant (key_of request) r2 id now lease input max_attempts allow.

Lemma claim_next_eq s request id now lease input max_attempts allow r r2 :
  _records s !! key_of request = Some r -> _normalize_terminal (expire r now) now = Ok r2 ->
  claim_next request id now lease input max_attempts allow s =
  decide_claim request r2 id now lease input max_attempts allow (put_record (key_of request) r2 s).
Proof.
  intros Hr Hn. unfold claim_next, lookup_record, mbind, st_bind. rewrite Hr. cbn [of_option].
  assert (E : (if lease_expired r now then store_record (key_of request) (expire r now) else mret r) s =
              (put_record (key_of request) (expire r now) s, Ok (expire r now))).
  { unfold store_record, expire. destruct (lease_expired r now); [done|]. cbn. by rewrite put_id. }
  rewrite E. unfold st_lift. rewrite Hn.
  assert (E' : (if decide (r2 <> expire r now) then store_record (key_of request) r2 else mret (expire r now))
                 (put_record (key_of request) (expire r now) s) = (put_record (key_of request) r2 s, Ok r2)).
  { unfold store_record. destruct (decide _) as [|Hd]; [by rewrite put_put|]. apply dec_stable in Hd as ->. done. }
  rewrite E'. done.
Qed.

Lemma grant_safe s request r id now lease input max_attempts allow t :
  store_ok s -> _records s !! key_of request = Some r -> record_ok (key_of request) r -> settled r -> in_range now ->
  active_claim r = None -> is_terminal (op_state r) = false -> stage_index r < length (op_pipeline_stages r) ->
  parse_utc_timestamp (op_deadline_at r) = Some t -> (now < t)%Z ->
  let o := grant (key_of request) r id now lease input max_attempts allow s in
  safe s o.1 /\ match o.2 with
                | Err e => e = OrchOverflow /\ add_delta now lease = None
                | Ok d => _records o.1 !! key_of request = Some (decision_record d) /\ decision_ok d r now lease input max_attempts allow
                end.
Proof.
  intros Hs Hr Hok Hse Hn Ha Ht Hi Hd Hlt. cbv zeta. unfold grant, mbind, st_bind, st_lift.
  apply lookup_lt_is_Some in Hi as [stage Hi]. rewrite Hi. cbn [of_option].
  destruct ((max_attempts <=? _)%nat && _) eqn:Hex.
  - cbn. rewrite lookup_insert_eq. split; [|by split].
    assert (Hc : cancellation r = None) by (destruct (cancellation r) eqn:Hc; [by rewrite Hse in Ht; [| rewrite Hc |] | done]).
    eapply put_safe; eauto; [|by apply replaced_settled | apply replaced_evolves; auto; done].
    apply replaced_ok; auto; by intros ? [=].
  - destruct (claim_hash_total r stage (S (attempt_for r stage)) id input) as [h Hh].
    rewrite Hh. cbn [map_err].
    unfold instant_of. rewrite Hd. cbn [of_option]. destruct (add_delta now lease) as [until|] eqn:Hu; cbn [of_option]; [|split; [by split | done]].
    set (a := {| ac_claim_token := h |}).
    destruct (granted_ok _ r a now t Hok Ha Ht Hn Hi eq_refl Hd) as (Hgo & Hgs & Hge); [cbn; lia|].
    cbn [fst snd store_record mret st_ret decision_record]. split; [by eapply put_safe|]. cbn [_records put_record].
    rewrite lookup_insert_eq. split; [done|]. exists {| claim_token := h; claim_stage_name := stage;
      claim_attempt := S (attempt_for r stage); claim_input_digest := input |}, a.
    unfold add_delta in Hu. case_decide; [|done]. injection Hu as <-.
    split_and!; try done; [by exists a | cbn | | cbn; lia | cbn; lia].
    + destruct (cancellation r) eqn:Hc; [|done]. by rewrite Hse in Ht; [| rewrite Hc |].
    + apply andb_false_iff in Hex as [Hex|Hex]; [left; cbn; apply Nat.leb_gt in Hex; lia | right; by apply negb_false_iff].
Qed.

Lemma expire_attempts r now stage : attempt_for (expire r now) stage = attempt_for r stage.
Proof. unfold expire. by destruct (lease_expired r now). Qed.

Lemma expire_claim r now a : active_claim (expire r now) = Some a -> (now < lease_expires_at a)%Z.
Proof. unfold expire, lease_expired. destruct (active_claim r) eqn:E; [|congruence]. destruct (Z.leb_spec (lease_expires_at a0) now); cbn; [done|]. rewrite E. by intros [= <-]. Qed.

Lemma claim_next_safe s request id now lease input max_attempts allow r :
  store_ok s -> _records s !! key_of request = Some r -> in_range now ->
  let o := claim_next request id now lease input max_attempts allow s in
  safe s o.1 /\ match o.2 with
                | Err e => e = OrchOverflow /\ add_delta now lease = None
                | Ok d => _records o.1 !! key_of request = Some (decision_record d) /\ decision_ok d r now lease input max_attempts allow
                end.
Proof.
  intros Hs Hr Hn. destruct (proj1 Hs _ _ Hr) as [Hok _]. destruct (expire_ok _ _ _ Hok Hn) as [Hok1 E1].
  destruct (normalize_ok _ _ _ Hok1 Hn) as (r2 & Hr2 & Hok2 & Hse & E2 & Hrun).
  rewrite (claim_next_eq _ _ _ _ _ _ _ _ _ _ Hr Hr2). set (s2 := put_record _ _ _).
  assert (Hs2 : safe s s2) by (eapply put_safe; eauto; by etrans).
  assert (Hl : _records s2 !! key_of request = Some r2) by (cbn; by rewrite lookup_insert_eq).
  unfold decide_claim. destruct (is_terminal (op_state r2)) eqn:Ht; cbn [fst snd mret st_ret]; [done|].
  destruct (Hrun eq_refl) as (-> & Hidx & Hdl).
  destruct (active_claim (expire r now)) as [a|] eqn:Ha.
  - pose proof (expire_claim _ _ _ Ha) as Hlt. rewrite (proj2 (Z.ltb_lt _ _) Hlt). cbn [fst snd mret st_ret].
    split; [done|]. split; [done|]. split; [done|]. split; [done|]. by exists a.
  - destruct (Hdl eq_refl) as (t & Hd & Hlt).
    pose proof (grant_safe s2 request (expire r now) id now lease input max_attempts allow t (proj1 Hs2) Hl Hok2 Hse Hn Ha Ht Hidx Hd Hlt) as [Hsf Hg].
    split; [split; [apply Hsf | etrans; [apply Hs2 | apply Hsf]]|]. destruct (grant _ _ _ _ _ _ _ _ _).2 as [d|e]; [|done].
    destruct Hg as [Hg1 Hg2]. split; [done|]. unfold decision_ok in *. destruct (decision_outcome d); try done.
    by setoid_rewrite expire_attempts in Hg2.
Qed.

(** *** Using a claim *)

Definition claim_conflict (e : orch_error) : Prop := exists code, e = StageClaimConflict code /\ is_safe_code code = true.

Lemma require_claim_ok r claim at_ a : _require_claim r claim at_ = Ok a ->
  active_claim r = Some a /\ holds r claim /\ (forall t, at_ = Some t -> (t < lease_expires_at a)%Z).
Proof.
  unfold _require_claim. destruct (active_claim r) as [b|] eqn:Ha; [|done]. intros H. rt_steps H. injection H as <-.
  apply String.eqb_eq in Ha0. apply andb_true_iff in Ha1 as [[Ha1 Hn]%andb_true_iff Hi].
  apply String.eqb_eq in Ha1, Hi. apply Nat.eqb_eq in Hn. split; [done|]. split; [by exists b|].
  intros t ->. by apply Z.ltb_lt.
Qed.

Lemma conflict_code code : is_safe_code code = true -> claim_conflict (StageClaimConflict code).
Proof. intros H. by exists code. Qed.

Lemma require_claim_err r claim at_ e : _require_claim r claim at_ = Err e -> claim_conflict e.
Proof.
  unfold _require_claim. destruct (active_claim r) as [b|]; [|intros [= <-]; by apply conflict_code].
  unfold mbind, result_bind, ensure.
  destruct (String.eqb (ac_claim_token b) (claim_token claim)); [|intros [= <-]; by apply conflict_code].
  destruct (String.eqb (ac_stage_name b) (claim_stage_name claim) && _ && _); [|intros [= <-]; by apply conflict_code].
  destruct (match at_ with Some t => _ | None => true end); [done | intros [= <-]; by apply conflict_code].
Qed.

Lemma require_claim_holds r claim at_ a : active_claim r = Some a -> holds r claim ->
  (forall t, at_ = Some t -> (t < lease_expires_at a)%Z) -> _require_claim r claim at_ = Ok a.
Proof.
  intros Ha (b & Hb & H1 & H2 & H3 & H4) Ht. rewrite Ha in Hb. injection Hb as <-. unfold _require_claim.
  rewrite Ha, H1, H2, H3, H4, !String.eqb_refl, Nat.eqb_refl. cbn [ensure mbind result_bind andb].
  destruct at_ as [t|]; [|done]. by rewrite (proj2 (Z.ltb_lt _ _) (Ht t eq_refl)).
Qed.

Lemma holds_running k r claim : record_ok k r -> holds r claim ->
  is_terminal (op_state r) = false /\ op_pipeline_stages r !! stage_index r = Some (claim_stage_name claim) /\
  claim_attempt claim = attempt_for r (claim_stage_name claim).
Proof. intros Hok (a & Ha & _ & <- & <- & _). destruct (ok_claim _ _ Hok a Ha) as (H1 & H2 & H3 & _). done. Qed.

Lemma stage_state_running name state : str_mem name stage_names = true -> state_of name = Some state ->
  state_value state = name /\ is_terminal state = false /\ state <> RECEIVED.
Proof.
  intros Hm Hs. apply str_mem_spec in Hm. unfold stage_names in Hm. apply list_elem_of_In, in_map_iff in Hm as (st0 & <- & Hin).
  rewrite state_of_value in Hs. injection Hs as ->. split; [done|]. assert (state = PLANNED \/ state = RETRIEVED \/ state = GENERATED \/ state = VERIFIED \/ state = PROPOSED) as Hst
    by (cbn in Hin; naive_solver).
  split; destruct Hst as [->|[->|[->|[->| ->]]]]; done.
Qed.

Lemma commit_outcome_ok r ref disposition error out :
  code_opt error -> str_mem (ref_stage_name ref) stage_names = true -> commit_outcome r ref disposition error = Ok out ->
  code_opt out.2 /\
  (is_terminal out.1 = false /\ state_value out.1 = ref_stage_name ref /\ out.1 <> RECEIVED /\
     S (stage_index r) < length (op_pipeline_stages r) \/
   out.1 = COMPLETED /\ out.2 = None /\ length (op_pipeline_stages r) <= S (stage_index r) \/
   (out.1 = REJECTED \/ out.1 = ABSTAINED \/ out.1 = DEGRADED) /\ out.2 <> None).
Proof.
  intros He Hm H. unfold commit_outcome in H. destruct (state_of _) as [state|] eqn:Hst; [|done]. cbn [of_option mbind result_bind] in H.
  assert (Hcode : forall d, is_safe_code d = true -> let o := match error with Some e => if str_nonempty e then Some e else Some d | None => Some d end in
      code_opt o /\ o <> None).
  { intros d Hd. destruct error as [x|]; [|split; [by intros ? [= <-] | done]].
    destruct (str_nonempty x); (split; [|done]); intros ? [= <-]; auto. }
  destruct (stage_state_running _ _ Hm Hst) as (Hv & Ht & Hr). destruct disposition.
  - destruct (Nat.leb_spec (length (op_pipeline_stages r)) (S (stage_index r))); injection H as <-; cbn.
    + split; [by intros ? [=] | right; left; auto].
    + split; [done | left; auto].
  - destruct (Nat.ltb_spec (S (stage_index r)) (length (op_pipeline_stages r))); [done|]. injection H as <-. cbn.
    split; [by intros ? [=] | right; left; auto].
  - injection H as <-. destruct (Hcode "stage_rejected" eq_refl). split; [done | right; right; auto].
  - injection H as <-. destruct (Hcode "stage_abstained" eq_refl). split; [done | right; right; auto].
  - injection H as <-. destruct (Hcode "stage_degraded" eq_refl). split; [done | right; right; auto].
Qed.

(** The record of a committed stage. *)
Definition committed_record r ref (out : OperationState * option string) now : OperationRecord :=
  replaced (with_stage r (stage_result_refs r ++ [ref])%list) None out.1 out.2 now.

Lemma committed_ok k r claim ref disposition error out now :
  record_ok k r -> holds r claim -> ref_valid ref -> ref_operation_id ref = op_operation_id r ->
  ref_stage_name ref = claim_stage_name claim -> code_opt error -> in_range now ->
  cancellation r = None -> commit_outcome r ref disposition error = Ok out ->
  let r' := committed_record r ref out now in record_ok k r' /\ settled r' /\ evolves r r'.
Proof.
  intros Hok Hh Hv Ho Hst He Hn Hc Hout. destruct (holds_running _ _ _ Hok Hh) as (Ht & Hi & _).
  assert (Hm : str_mem (ref_stage_name ref) stage_names = true) by (by destruct Hv as (_ & _ & ? & _)).
  destruct (commit_outcome_ok _ _ _ _ _ He Hm Hout) as [Hcode Hcase].
  pose proof (lookup_lt_Some _ _ _ Hi) as Hlt. split_and!; [| by intros ?|].
  - destruct Hok. constructor; cbn; auto using dated_now; [| | |done].
    + apply Forall_app. split; [done | by apply Forall_singleton].
    + rewrite map_app, ok_names0, (take_S_r _ _ _ Hi). cbn. by rewrite Hst.
    + assert (Hlast : list.last (stage_result_refs r ++ [ref])%list = Some ref) by apply last_snoc.
      destruct out as [state code]; cbn [fst snd] in *. destruct Hcase as [(H1 & H2 & H3 & H4) | [(-> & -> & ?) | [H1 H2]]].
      * unfold state_ok; cbn. rewrite Hlast. cbn. rewrite <- H2. destruct state; done.
      * unfold state_ok; cbn. split; [done | lia].
      * unfold state_ok; cbn. destruct H1 as [-> | [-> | ->]]; (split; [done | by destruct (stage_result_refs r)]).
  - constructor; cbn; auto; try congruence; try (right; lia). by exists [ref].
Qed.

Lemma stage_state_some name : str_mem name stage_names = true -> exists state, state_of name = Some state.
Proof.
  intros Hm. apply str_mem_spec in Hm. unfold stage_names in Hm. apply list_elem_of_In, in_map_iff in Hm as (state & <- & _).
  exists state. apply state_of_value.
Qed.

(** The record after a claim was used without a result. *)
Lemma drop_safe s k r claim state error now :
  store_ok s -> _records s !! k = Some r -> in_range now -> holds r claim -> is_safe_code error = true ->
  state = CANCELLED \/ (state = FAILED \/ state = op_state r) /\ cancellation r = None ->
  safe s (put_record k (replaced r None state (Some error) now) s).
Proof.
  intros Hs Hr Hn Hh He Hst. destruct (proj1 Hs _ _ Hr) as [Hok Hse]. destruct (holds_running _ _ _ Hok Hh) as (Ht & _ & _).
  eapply put_safe; eauto.
  - apply replaced_ok; auto; [by intros ? [=]|]. destruct Hst as [->|[[->| ->] _]]; auto; right; left; auto.
  - destruct Hst as [->|[[->| ->] Hc]]; try by apply replaced_settled. by intros ?.
  - apply replaced_evolves; [done | done|]. destruct Hst as [->|[_ Hc]]; auto.
Qed.

(** A method that uses a claim: it holds, and is gone afterwards. *)
Definition uses_claim s request claim r (o : InMemoryOperationStore * result orch_error OperationRecord) : Prop :=
  safe s o.1 /\
  (forall e, o.2 = Err e -> claim_conflict e \/ e = OperationConflict "early_stage_completion_denied" /\ holds r claim) /\
  (forall r', o.2 = Ok r' -> _records o.1 !! key_of request = Some r' /\ holds r claim /\ active_claim r' = None).

Lemma refused_uses s request claim r e : store_ok s -> claim_conflict e -> uses_claim s request claim r (s, Err e).
Proof. intros Hs He. split; [by split|]. split; [intros ? [= <-]; by left | done]. Qed.

Lemma drop_uses s request r claim state error now :
  store_ok s -> _records s !! key_of request = Some r -> in_range now -> holds r claim -> is_safe_code error = true ->
  state = CANCELLED \/ (state = FAILED \/ state = op_state r) /\ cancellation r = None ->
  uses_claim s request claim r (store_record (key_of request) (replaced r None state (Some error) now) s).
Proof.
  intros Hs Hr Hn Hh He Hst. split; [by eapply drop_safe|]. split; [done|]. intros r' [= <-]. cbn. by rewrite lookup_insert_eq.
Qed.

Lemma commit_safe s request claim ref disposition error now r :
  store_ok s -> _records s !! key_of request = Some r -> in_range now -> ref_valid ref -> code_opt error ->
  uses_claim s request claim r (commit_stage request claim ref disposition error now s).
Proof.
  intros Hs Hr Hn Hv He. destruct (proj1 Hs _ _ Hr) as [Hok Hse].
  unfold commit_stage, lookup_record, mbind, st_bind, st_lift. rewrite Hr. cbn [of_option].
  destruct (instant_ok _ (ok_deadline _ _ Hok)) as (t & -> & _).
  destruct (_require_claim _ _ _) as [a|e] eqn:Hq; [|apply refused_uses; [done | by eapply require_claim_err]].
  apply require_claim_ok in Hq as (Ha & Hh & _). destruct (holds_running _ _ _ Hok Hh) as (Ht & Hi & _).
  destruct (String.eqb_spec (ref_operation_id ref) (rq_operation_id request)) as [Hop|]; cbn [ensure];
    [|apply refused_uses; [done | by apply conflict_code]].
  destruct (String.eqb_spec (ref_stage_name ref) (claim_stage_name claim)) as [Hst|]; cbn [ensure andb];
    [|apply refused_uses; [done | by apply conflict_code]].
  destruct (String.eqb (ref_input_digest ref) _) eqn:Hin; cbn [ensure]; [|apply refused_uses; [done | by apply conflict_code]].
  destruct (bool_decide (cancellation r <> None)) eqn:Hc; [apply drop_uses; auto|]. apply bool_decide_eq_false, dec_stable in Hc.
  destruct (_ <=? _)%Z; [apply drop_uses; auto|].
  destruct (str_mem _ _); cbn [ensure negb]; [apply refused_uses; [done | by apply conflict_code]|].
  destruct (commit_outcome r ref disposition error) as [out|e] eqn:Hout; cbn [fst snd].
  - destruct (committed_ok _ r claim ref disposition error out now Hok Hh Hv) as (H1 & H2 & H3); auto.
    { rewrite Hop. pose proof (ok_key _ _ Hok) as Hk. unfold key_of in Hk. congruence. }
    split; [by eapply put_safe|]. split; [done|]. intros r' [= <-]. cbn. by rewrite lookup_insert_eq.
  - split; [by split|]. split; [|done]. intros ? [= <-]. right. split; [|done]. unfold commit_outcome in Hout.
    assert (Hm : str_mem (ref_stage_name ref) stage_names = true) by (by destruct Hv as (_ & _ & ? & _)).
    destruct (stage_state_some _ Hm) as [state Hso]. rewrite Hso in Hout. cbn [of_option mbind result_bind] in Hout.
    destruct disposition; try done; case_match; congruence.
Qed.

Lemma release_safe s request claim error now r :
  store_ok s -> _records s !! key_of request = Some r -> in_range now -> is_safe_code error = true ->
  uses_claim s request claim r (release_transient request claim error now s).
Proof.
  intros Hs Hr Hn He. destruct (proj1 Hs _ _ Hr) as [Hok Hse].
  unfold release_transient, lookup_record, mbind, st_bind, st_lift. rewrite Hr. cbn [of_option].
  destruct (instant_ok _ (ok_deadline _ _ Hok)) as (t & -> & _).
  destruct (_require_claim _ _ _) as [a|e] eqn:Hq; [|apply refused_uses; [done | by eapply require_claim_err]].
  apply require_claim_ok in Hq as (_ & Hh & _).
  destruct (bool_decide (cancellation r <> None)) eqn:Hc; [apply drop_uses; auto|]. apply bool_decide_eq_false, dec_stable in Hc.
  destruct (_ <=? _)%Z; apply drop_uses; auto.
Qed.

Lemma fail_safe s request claim error now allow r :
  store_ok s -> _records s !! key_of request = Some r -> in_range now -> is_safe_code error = true ->
  uses_claim s request claim r (fail_stage request claim error now allow s).
Proof.
  intros Hs Hr Hn He. destruct (proj1 Hs _ _ Hr) as [Hok Hse].
  unfold fail_stage, lookup_record, mbind, st_bind, st_lift. rewrite Hr. cbn [of_option].
  destruct (instant_ok _ (ok_deadline _ _ Hok)) as (t & -> & _).
  destruct (_require_claim _ _ _) as [a|e] eqn:Hq; [|apply refused_uses; [done | by eapply require_claim_err]].
  apply require_claim_ok in Hq as (_ & Hh & _).
  destruct (bool_decide (cancellation r <> None)) eqn:Hc; [apply drop_uses; auto|]. apply bool_decide_eq_false, dec_stable in Hc.
  destruct (_ <=? _)%Z; apply drop_uses; auto.
Qed.

(** *** Where a used claim leaves the record *)

Lemma fail_result s request claim error now allow r' :
  (fail_stage request claim error now allow s).2 = Ok r' -> is_terminal (op_state r') = true.
Proof.
  unfold fail_stage, lookup_record, mbind, st_bind, st_lift. destruct (_records s !! key_of request) as [r|]; [|done]. cbn [of_option].
  destruct (instant_of _) as [t|]; [|done]. destruct (_require_claim _ _ _); [|done].
  destruct (bool_decide _); intros [= <-]; done.
Qed.

Lemma commit_result s request claim ref disposition error now r' :
  (commit_stage request claim ref disposition error now s).2 = Ok r' -> str_mem (ref_stage_name ref) stage_names = true -> code_opt error ->
  is_terminal (op_state r') = true \/
  exists r, _records s !! key_of request = Some r /\ stage_index r' = S (stage_index r) /\ disposition = CONTINUE /\ op_error_code r' = error.
Proof.
  unfold commit_stage, lookup_record, mbind, st_bind, st_lift. destruct (_records s !! key_of request) as [r|]; [|done]. cbn [of_option].
  destruct (instant_of _) as [t|]; [|done]. destruct (_require_claim _ _ _); [|done].
  destruct (ensure _ _); [|done]. destruct (ensure _ _); [|done].
  destruct (bool_decide _); [intros [= <-]; by left|]. destruct (_ <=? _)%Z; [intros [= <-]; by left|].
  destruct (ensure _ _); [|done]. destruct (commit_outcome r ref disposition error) as [out|] eqn:Ho; [|done].
  intros [= <-] Hm Hc. destruct (commit_outcome_ok _ _ _ _ _ Hc Hm Ho) as [_ Hcase]. cbn [op_state replaced op_error_code stage_index with_stage].
  destruct Hcase as [(Ht & _) | [(-> & _) | [[-> | [-> | ->]] _]]]; [right | by left..]. exists r. split; [done|]. split; [done|].
  unfold commit_outcome in Ho. destruct (state_of _); [|done]. cbn [of_option mbind result_bind] in Ho.
  destruct disposition; try (injection Ho as <-; done); case_match; simplify_eq; done.
Qed.

(** *** A worker alone *)

Lemma stage_order_lt (l : list nat) i j a b : StronglySorted lt l -> i < j -> l !! i = Some a -> l !! j = Some b -> a < b.
Proof.
  intros H. revert i j. induction H as [|x l Hl IH Hx]; intros i j Hij Ha Hb; [done|]. destruct j as [|j]; [lia|]. cbn in Hb. destruct i as [|i]; cbn in Ha.
  - injection Ha as <-. rewrite list.Forall_lookup in Hx. by eapply Hx.
  - eapply (IH i j); eauto. lia.
Qed.

Lemma stages_unique stages i j stage : stages_ok stages -> stages !! i = Some stage -> stages !! j = Some stage -> i = j.
Proof.
  intros [_ (indexes & Hi & Hs)] H1 H2. apply mapM_Some in Hi.
  destruct (list.Forall2_lookup_l _ _ _ _ _ Hi H1) as (a & Ha & Ea), (list.Forall2_lookup_l _ _ _ _ _ Hi H2) as (b & Hb & Eb).
  assert (a = b) as -> by congruence. destruct (Nat.lt_trichotomy i j) as [Hlt|[?|Hlt]]; [|done|];
    [pose proof (stage_order_lt _ _ _ _ _ Hs Hlt Ha Hb) | pose proof (stage_order_lt _ _ _ _ _ Hs Hlt Hb Ha)]; lia.
Qed.

(** The next stage has no result yet. *)
Lemma next_stage_fresh k r stage : record_ok k r -> op_pipeline_stages r !! stage_index r = Some stage ->
  str_mem stage (map ref_stage_name (stage_result_refs r)) = false.
Proof.
  intros H Hst. destruct (str_mem _ _) eqn:Hm; [|done]. apply str_mem_spec in Hm. rewrite (ok_names _ _ H) in Hm.
  apply list_elem_of_lookup in Hm as (i & Hi). apply lookup_take_Some in Hi as [Hi Hlt].
  pose proof (stages_unique _ _ _ _ (ok_stages _ _ H) Hi Hst). lia.
Qed.

(** An operation that runs, without a worker and before its deadline. *)
Record free_record (k : string * string) r stage deadline : Prop := {
  free_ok : record_ok k r;
  free_running : is_terminal (op_state r) = false;
  free_worker : active_claim r = None;
  free_cancellation : cancellation r = None;
  free_stage : op_pipeline_stages r !! stage_index r = Some stage;
  free_deadline : parse_utc_timestamp (op_deadline_at r) = Some deadline;
}.

Definition granted_claim (token id stage : string) (attempt : nat) (lease : Z) (input : string) : ActiveClaim :=
  {| ac_claim_token := token; ac_request_id := id; ac_stage_name := stage; ac_attempt := attempt;
     lease_expires_at := lease; ac_input_digest := input |}.

Lemma claim_next_free s request id now lease input max_attempts allow r stage deadline until :
  _records s !! key_of request = Some r -> free_record (key_of request) r stage deadline -> (now < deadline)%Z ->
  attempt_for r stage < max_attempts -> add_delta now lease = Some until ->
  exists token, let n := S (attempt_for r stage) in
    let r' := granted_record r stage n (granted_claim token id stage n (Z.min deadline until) input) now in
    claim_next request id now lease input max_attempts allow s =
    (put_record (key_of request) r' s,
     Ok {| decision_record := r'; decision_outcome := Claimed;
           decision_claim := Some {| claim_token := token; claim_stage_name := stage; claim_attempt := n; claim_input_digest := input |} |}).
Proof.
  intros Hr [Hok Ht Ha Hc Hst Hd] Hlt Hatt Hu.
  assert (He : expire r now = r) by (unfold expire, lease_expired; by rewrite Ha).
  assert (Hnorm : _normalize_terminal r now = Ok r).
  { unfold _normalize_terminal. rewrite Ht, Ha, Hc, bool_decide_false, bool_decide_true by auto. unfold instant_of. rewrite Hd.
    cbn [andb of_option mbind result_bind]. rewrite (proj2 (Z.leb_gt _ _) Hlt). cbn [andb].
    by rewrite (proj2 (Nat.leb_gt _ _) (lookup_lt_Some _ _ _ Hst)). }
  rewrite <- He in Hnorm at 1. destruct (claim_hash_total r stage (S (attempt_for r stage)) id input) as [token Hh]. exists token.
  cbv zeta. rewrite (claim_next_eq _ _ _ _ _ _ _ _ _ _ Hr Hnorm). rewrite put_id by done.
  unfold decide_claim. rewrite Ht, Ha. unfold grant, mbind, st_bind, st_lift. rewrite Hst. cbn [of_option].
  rewrite (proj2 (Nat.leb_gt _ _) Hatt). cbn [andb]. rewrite Hh. cbn [map_err]. unfold instant_of. rewrite Hd, Hu. done.
Qed.

Lemma commit_free s request r claim a ref state now deadline :
  _records s !! key_of request = Some r -> record_ok (key_of request) r -> active_claim r = Some a -> holds r claim ->
  cancellation r = None -> (now < lease_expires_at a)%Z -> parse_utc_timestamp (op_deadline_at r) = Some deadline -> (now < deadline)%Z ->
  ref_operation_id ref = rq_operation_id request -> ref_stage_name ref = claim_stage_name claim ->
  ref_input_digest ref = claim_input_digest claim -> state_of (ref_stage_name ref) = Some state ->
  let out := if (length (op_pipeline_stages r) <=? S (stage_index r))%nat then (COMPLETED, None) else (state, None) in
  let r' := committed_record r ref out now in
  commit_stage request claim ref CONTINUE None now s = (put_record (key_of request) r' s, Ok r').
Proof.
  intros Hr Hok Ha Hh Hc Hlease Hd Hlt Ho Hs Hi Hst. cbv zeta. unfold commit_stage, lookup_record, mbind, st_bind, st_lift.
  rewrite Hr. cbn [of_option]. unfold instant_of. rewrite Hd. cbn [of_option].
  rewrite (require_claim_holds r claim _ a Ha Hh) by (unfold checked_at; case_match; by intros ? [= <-]).
  rewrite Ho, Hs, Hi, !String.eqb_refl. cbn [ensure andb]. rewrite bool_decide_false by auto. rewrite (proj2 (Z.leb_gt _ _) Hlt).
  destruct (holds_running _ _ _ Hok Hh) as (_ & Hstage & _). rewrite (next_stage_fresh _ _ _ Hok Hstage). cbn [negb ensure].
  unfold commit_outcome. rewrite Hst. cbn [of_option mbind result_bind]. by destruct (_ <=? _)%nat.
Qed.
End Methods.

(** ** Interleavings

    Any number of workers call the methods, in any order, with values the contracts accept:
    a step is one call, and it leaves the store the call leaves, whether it returned or raised. *)
Section Steps.
Context {U : Unicode} {D : Digest} {R : JsonReader}.
Implicit Types (r : OperationRecord) (s : InMemoryOperationStore).

(** A call that uses a claim of the request's operation. *)
Inductive claim_use (request : RuntimeRequest) (claim : StageClaim) : method OperationRecord -> Prop :=
| use_commit ref disposition error now : in_range now -> ref_valid ref -> code_opt error ->
    claim_use request claim (commit_stage request claim ref disposition error now)
| use_release error now : in_range now -> is_safe_code error = true ->
    claim_use request claim (release_transient request claim error now)
| use_fail error now allow : in_range now -> is_safe_code error = true ->
    claim_use request claim (fail_stage request claim error now allow).

Inductive op_step : InMemoryOperationStore -> InMemoryOperationStore -> Prop :=
| step_register request id type stages pipeline now s : request_valid request ->
    pipeline_post_init id type stages = Ok pipeline -> in_range now -> op_step s (register request pipeline now s).1
| step_refresh ws op now s : in_range now -> op_step s (refresh ws op now s).1
| step_cancel signal now s : cancellation_valid signal -> in_range now -> op_step s (request_cancel signal now s).1
| step_claim request id now lease input max_attempts allow s : in_range now ->
    op_step s (claim_next request id now lease input max_attempts allow s).1
| step_use request claim m s : claim_use request claim m -> op_step s (m s).1.

Lemma strictly_sorted l : ordered Nat.leb l -> NoDup l -> StronglySorted lt l.
Proof.
  induction 1 as [|x l Hl IH Hx]; intros Hnd; [constructor|]. apply list.NoDup_cons in Hnd as [Hn Hnd].
  constructor; [by apply IH|]. rewrite list.Forall_forall in *. intros y Hy. specialize (Hx y Hy).
  apply Nat.leb_le in Hx. assert (x <> y) by congruence. lia.
Qed.

Lemma strictly_ordered_sorted l : strictly_ordered l = true -> StronglySorted lt l.
Proof.
  intros H%bool_decide_eq_true. rewrite <- H. apply strictly_sorted.
  - apply py_sort_ordered; [intros x y; destruct (Nat.leb_spec x y); [by left | right; apply Nat.leb_le; lia]|].
    intros x y z H1%Nat.leb_le H2%Nat.leb_le. apply Nat.leb_le. lia.
  - rewrite py_sort_perm. apply NoDup_elements.
Qed.

Lemma pipeline_stages_ok id type stages p :
  pipeline_post_init id type stages = Ok p -> stages_ok (pl_stages p) /\ pl_stages p = stages.
Proof.
  unfold pipeline_post_init. intros H. rt_steps H. injection H as <-. cbn. split; [|done].
  split; [by apply bool_decide_eq_true in Ha5|].
  destruct (mapM stage_order stages) as [l|] eqn:Hl; [|done]. injection Ha3 as ->. exists a3. split; [done|].
  by apply strictly_ordered_sorted.
Qed.

Lemma claim_use_safe s request claim m r : store_ok s -> _records s !! key_of request = Some r ->
  claim_use request claim m -> uses_claim s request claim r (m s).
Proof. intros Hs Hr []; [by apply commit_safe | by apply release_safe | by apply fail_safe]. Qed.

Lemma claim_use_missing s request claim m : _records s !! key_of request = None ->
  claim_use request claim m -> m s = (s, Err OrchKeyError).
Proof.
  intros Hr []; unfold commit_stage, release_transient, fail_stage, lookup_record, mbind, st_bind; by rewrite Hr.
Qed.

Lemma op_step_safe s s' : store_ok s -> op_step s s' -> safe s s'.
Proof.
  intros Hs Hst. revert Hs. destruct Hst as [request id type stages pipeline now s0 Hv [Hp _]%pipeline_stages_ok Hn | ws op now s0 Hn | signal now s0 Hv Hn
            | request id now lease input max_attempts allow s0 Hn | request claim m s0 Hm]; intros Hs.
  - exact (proj1 (register_safe _ _ _ _ Hs Hv Hp Hn)).
  - exact (proj1 (refresh_safe _ ws op _ Hs Hn)).
  - exact (proj1 (request_cancel_safe _ _ _ Hs Hv Hn)).
  - destruct (_records s0 !! key_of request) as [r|] eqn:Hr; [exact (proj1 (claim_next_safe _ _ _ _ _ _ _ _ _ Hs Hr Hn))|].
    unfold claim_next, lookup_record, mbind, st_bind. rewrite Hr. by split.
  - destruct (_records s0 !! key_of request) as [r|] eqn:Hr; [exact (proj1 (claim_use_safe _ _ _ _ _ Hs Hr Hm))|].
    rewrite (claim_use_missing _ _ _ _ Hr Hm). by split.
Qed.

Lemma op_steps_safe s s' : store_ok s -> rtc op_step s s' -> safe s s'.
Proof.
  intros Hs H. induction H as [s|s1 s2 s3 H12 _ IH]; [by split|]. destruct (op_step_safe _ _ Hs H12) as [H2 G2].
  destruct (IH H2) as [H3 G3]. split; [done | by etrans].
Qed.

Lemma empty_ok : store_ok empty_operations.
Proof. split; [apply map_Forall_empty | by intros ws key op; cbn; rewrite lookup_empty]. Qed.

Lemma reachable_ok s : rtc op_step empty_operations s -> store_ok s.
Proof. intros H. by apply (op_steps_safe _ _ empty_ok H). Qed.

(** *** Fencing *)

(** A claim that no later record carries again. *)
Definition spent (k : string * string) (c : StageClaim) s : Prop :=
  exists r, _records s !! k = Some r /\ claim_attempt c <= attempt_for r (claim_stage_name c) /\ ~ holds r c.

Lemma spent_steps k c s s' : store_ok s -> spent k c s -> rtc op_step s s' -> spent k c s'.
Proof.
  intros Hs (r & Hr & Ha & Hh) Hst. destruct (op_steps_safe _ _ Hs Hst) as [_ Hg].
  destruct (gr_records _ _ Hg _ _ Hr) as (r' & Hr' & Hev). exists r'. split; [done|].
  pose proof (ev_attempts _ _ Hev (claim_stage_name c)). split; [lia|].
  intros (a & Hac & H1 & H2 & H3 & H4). destruct (ev_claim _ _ Hev a Hac) as [Hold|Hnew]; [by apply Hh; exists a|].
  rewrite H2 in Hnew. lia.
Qed.

Lemma spent_refused k c s request m : store_ok s -> spent k c s -> key_of request = k -> claim_use request c m ->
  exists code, (m s).2 = Err (StageClaimConflict code).
Proof.
  intros Hs (r & Hr & _ & Hh) <- Hm. destruct (claim_use_safe _ _ _ _ _ Hs Hr Hm) as (_ & He & Ho).
  destruct (m s).2 as [r'|e] eqn:E; [destruct (Ho r' eq_refl) as (_ & H & _); done|].
  destruct (He e eq_refl) as [(code & -> & _)|[_ H]]; [by exists code | done].
Qed.

(** A call that takes the claim [c] away: it used it, or it handed out another. *)
Inductive supersedes (request : RuntimeRequest) (c : StageClaim) s : InMemoryOperationStore -> Prop :=
| by_use m r s' : claim_use request c m -> m s = (s', Ok r) -> supersedes request c s s'
| by_claim request' id now lease input max_attempts allow d c' s' : in_range now -> key_of request' = key_of request ->
    claim_next request' id now lease input max_attempts allow s = (s', Ok d) -> decision_claim d = Some c' ->
    supersedes request c s s'.

Lemma claim_next_record s request id now lease input max_attempts allow s' d :
  claim_next request id now lease input max_attempts allow s = (s', Ok d) -> exists r, _records s !! key_of request = Some r.
Proof.
  unfold claim_next, lookup_record, mbind, st_bind. destruct (_records s !! key_of request); [eauto | done].
Qed.

Lemma decision_claimed d c r now lease input max_attempts allow :
  decision_ok d r now lease input max_attempts allow -> decision_claim d = Some c ->
  holds (decision_record d) c /\ claim_attempt c = S (attempt_for r (claim_stage_name c)).
Proof.
  unfold decision_ok. destruct (decision_outcome d); [intros [? _] ?; congruence | intros [? _] ?; congruence |].
  intros (c' & a & Hc' & Hh & _ & _ & Hat & _) Hc. rewrite Hc in Hc'. by injection Hc' as <-.
Qed.

Lemma superseded_spent s s' request c r : store_ok s -> _records s !! key_of request = Some r ->
  claim_attempt c <= attempt_for r (claim_stage_name c) -> supersedes request c s s' ->
  safe s s' /\ spent (key_of request) c s'.
Proof.
  intros Hs Hr Hle H. destruct H as [m r' s' Hm E | request' id now lease input max_attempts allow d c' s' Hn Hk E Hc].
  - destruct (claim_use_safe _ _ _ _ _ Hs Hr Hm) as (Hsf & _ & Ho). rewrite E in Hsf, Ho. cbn in Hsf, Ho.
    destruct (Ho r' eq_refl) as (Hr' & _ & Ha). split; [done|]. exists r'. split; [done|].
    destruct (gr_records _ _ (proj2 Hsf) _ _ Hr) as (r2 & Hr2 & Hev). rewrite Hr' in Hr2. injection Hr2 as <-.
    pose proof (ev_attempts _ _ Hev (claim_stage_name c)). split; [lia|]. intros (a & Ha' & _). congruence.
  - rewrite <- Hk in Hr. pose proof (claim_next_safe s request' id now lease input max_attempts allow r Hs Hr Hn) as [Hsf Hd].
    rewrite E in Hsf, Hd. cbn in Hsf, Hd. destruct Hd as [Hst Hd]. split; [done|]. rewrite <- Hk.
    destruct (decision_claimed _ _ _ _ _ _ _ _ Hd Hc) as [(a' & Ha' & _ & H2' & H3' & _) Hat]. exists (decision_record d).
    destruct (gr_records _ _ (proj2 Hsf) _ _ Hr) as (r2 & Hr2 & Hev). rewrite Hst in Hr2. injection Hr2 as <-.
    split; [done|]. pose proof (ev_attempts _ _ Hev (claim_stage_name c)). split; [lia|].
    intros (a & Ha & _ & H2 & H3 & _). assert (a = a') as -> by congruence.
    rewrite <- H3, H3', Hat, <- H2', H2 in Hle. lia.
Qed.

Lemma claimed_attempt s request id now lease input max_attempts allow s1 d c s2 :
  store_ok s -> in_range now -> claim_next request id now lease input max_attempts allow s = (s1, Ok d) ->
  decision_claim d = Some c -> rtc op_step s1 s2 ->
  store_ok s2 /\ exists r, _records s2 !! key_of request = Some r /\ claim_attempt c <= attempt_for r (claim_stage_name c).
Proof.
  intros Hs Hn E Hc Hst. destruct (claim_next_record _ _ _ _ _ _ _ _ _ _ E) as [r Hr].
  pose proof (claim_next_safe s request id now lease input max_attempts allow r Hs Hr Hn) as [Hsf Hd].
  rewrite E in Hsf, Hd. cbn in Hsf, Hd. destruct Hd as [Hrec Hd].
  destruct (decision_claimed _ _ _ _ _ _ _ _ Hd Hc) as [Hh Hat].
  destruct (proj1 (proj1 Hsf) _ _ Hrec) as [Hok _]. destruct (holds_running _ _ _ Hok Hh) as (_ & _ & Heq).
  destruct (op_steps_safe _ _ (proj1 Hsf) Hst) as [Hs2 Hg]. split; [done|].
  destruct (gr_records _ _ Hg _ _ Hrec) as (r2 & Hr2 & Hev). exists r2. split; [done|].
  pose proof (ev_attempts _ _ Hev (claim_stage_name c)). lia.
Qed.

(** C29: whatever the workers do, in whatever order, every record stays well formed - stages
    committed in pipeline order, state, results and error in agreement, the claim's lease
    within the deadline, a cancelled operation without a worker ended - and records only
    evolve: no record is lost, bindings and first cancellations stay, results are only
    appended, attempts and revisions only grow, a terminal record is final. *)
Theorem operation_store_invariant s s' : rtc op_step empty_operations s -> rtc op_step s s' ->
  store_ok s /\ store_ok s' /\ grows s s'.
Proof.
  intros H H'. pose proof (reachable_ok _ H) as Hs. destruct (op_steps_safe _ _ Hs H'). done.
Qed.

(** C27: a stage claim is used at most once and never after another was handed out: once
    [commit_stage], [release_transient] or [fail_stage] has returned with it, or
    [claim_next] has given a newer claim of the operation, every later use of it raises
    StageClaimConflict, whatever happened in between. *)
Theorem claims_fenced s request id now lease input max_attempts allow s1 d c s2 s3 s4 m :
  rtc op_step empty_operations s -> in_range now ->
  claim_next request id now lease input max_attempts allow s = (s1, Ok d) -> decision_claim d = Some c ->
  rtc op_step s1 s2 -> supersedes request c s2 s3 -> rtc op_step s3 s4 -> claim_use request c m ->
  exists code, (m s4).2 = Err (StageClaimConflict code).
Proof.
  intros H Hn E Hc H12 Hsup H34 Hm.
  destruct (claimed_attempt _ _ _ _ _ _ _ _ _ _ _ _ (reachable_ok _ H) Hn E Hc H12) as [Hs2 (r & Hr & Hle)].
  destruct (superseded_spent _ _ _ _ _ Hs2 Hr Hle Hsup) as [[Hs3 _] Hsp].
  pose proof (op_steps_safe _ _ Hs3 H34) as [Hs4 _]. eapply spent_refused; eauto using spent_steps.
Qed.

(** C38: [claim_next] on a registered operation raises only where [now + lease] leaves the
    datetime range; otherwise the record it returns is the stored one, and either it is
    terminal, or another worker holds an unexpired lease, or the caller holds a claim for the
    next stage, with the next attempt, within [max_attempts] unless exhausted attempts are
    allowed, on an operation not cancelled, whose lease ends after [now], at most [lease]
    later and not after the deadline. *)
Theorem claim_next_correct s request id now lease input max_attempts allow r :
  rtc op_step empty_operations s -> _records s !! key_of request = Some r -> in_range now ->
  let o := claim_next request id now lease input max_attempts allow s in
  match o.2 with
  | Err e => e = OrchOverflow /\ ~ in_range (now + lease)
  | Ok d =>
      _records o.1 !! key_of request = Some (decision_record d) /\ decision_ok d r now lease input max_attempts allow /\
      (forall a, active_claim (decision_record d) = Some a ->
         op_pipeline_stages r !! stage_index (decision_record d) = Some (ac_stage_name a) /\
         exists t, parse_utc_timestamp (op_deadline_at r) = Some t /\ (lease_expires_at a <= t)%Z)
  end.
Proof.
  intros H Hr Hn. pose proof (reachable_ok _ H) as Hs.
  pose proof (claim_next_safe s request id now lease input max_attempts allow r Hs Hr Hn) as [[Hs' Hg] Hd].
  cbv zeta. destruct (claim_next _ _ _ _ _ _ _ s) as [s' [d|e]]; cbn [fst snd] in *.
  - destruct Hd as [Hrec Hd]. split; [done|]. split; [done|]. intros a Ha.
    destruct (gr_records _ _ Hg _ _ Hr) as (r' & Hr' & Hev). rewrite Hrec in Hr'. injection Hr' as <-.
    destruct (ok_claim _ _ (proj1 (proj1 Hs' _ _ Hrec)) a Ha) as (_ & H2 & _ & t & H4 & H5).
    pose proof (ev_binding _ _ Hev) as Hb. injection Hb as _ _ _ _ _ _ Hdl _ Hst _. rewrite Hdl, Hst. split; [done | by exists t].
  - destruct Hd as [-> Hd]. split; [done|]. unfold add_delta in Hd. by case_decide.
Qed.

(** C28: a cancellation that was accepted wins.  From then on, whatever workers still hold a
    claim do, no stage result is added to the operation; it keeps its state until it ends,
    it can only end as cancelled (an operation that had already ended is not changed), and
    it has ended as soon as no worker holds a claim.  Only the operation's own actor is
    accepted. *)
Theorem cancellation_wins s signal now s1 r s2 :
  rtc op_step empty_operations s -> cancellation_valid signal -> in_range now ->
  request_cancel signal now s = (s1, Ok (Some r)) -> rtc op_step s1 s2 ->
  op_actor_id r = cs_actor_id signal /\
  exists r2, _records s2 !! (cs_workspace_id signal, cs_operation_id signal) = Some r2 /\
    stage_result_refs r2 = stage_result_refs r /\
    (if is_terminal (op_state r) then r2 = r else op_state r2 = op_state r \/ op_state r2 = CANCELLED) /\
    (active_claim r2 = None -> is_terminal (op_state r2) = true).
Proof.
  intros H Hv Hn E H12. pose proof (reachable_ok _ H) as Hs.
  destruct (request_cancel_safe s signal now Hs Hv Hn) as ([Hs1 Hg1] & _ & Ho). rewrite E in Hs1, Hg1, Ho. cbn in Hs1, Hg1, Ho.
  destruct (Ho _ eq_refl) as [Hr Hcase]. specialize (Hcase _ eq_refl).
  destruct (op_steps_safe _ _ Hs1 H12) as [Hs2 Hg]. destruct (gr_records _ _ Hg _ _ Hr) as (r2 & Hr2 & Hev). split.
  - unfold request_cancel in E. destruct (_records s !! _) as [r0|] eqn:Hr0; [|done].
    destruct (String.eqb_spec (cs_actor_id signal) (op_actor_id r0)) as [Ha|]; [|done]. rewrite Ha.
    destruct (gr_records _ _ Hg1 _ _ Hr0) as (r1 & Hr1 & Hev1). rewrite Hr in Hr1. injection Hr1 as <-.
    pose proof (ev_binding _ _ Hev1) as Hb. by injection Hb.
  - exists r2. split; [done|]. destruct (is_terminal (op_state r)) eqn:Ht.
    + rewrite (ev_terminal _ _ Hev Ht). done.
    + destruct Hcase as [?|Hc]; [done|]. destruct (ev_cancelled _ _ Hev Hc) as [Hrefs Hst]. split; [done|]. split; [done|].
      intros Ha. apply (proj2 (proj1 Hs2 _ _ Hr2)); [|done]. by rewrite (ev_cancellation _ _ Hev Hc).
Qed.
End Steps.

(** ** A concrete run *)

Definition sample_start : Z := Eval vm_compute in match parse_utc_timestamp "2026-01-01T00:00:00Z" with Some t => t | None => 0 end.
Definition at_second (n : Z) : Z := sample_start + n * SECOND.

Definition sample_pipeline : PipelineDefinition :=
  {| pipeline_id := "recall"; pl_request_type := "recall"; pl_stages := ["planned"; "retrieved"] |}.
Definition sample_input : string := "0000000000000000000000000000000000000000000000000000000000000000".

Definition sample_registered : InMemoryOperationStore :=
  (register sample_r1 sample_pipeline (at_second 1) empty_operations).1.
Definition sample_claim_next : method ClaimDecision :=
  claim_next (U := unicode_sample) (D := pad_digest) sample_r1 "r1" (at_second 2) (30 * SECOND) sample_input 3 false.
Definition sample_decision : option ClaimDecision :=
  match sample_claim_next sample_registered with (_, Ok d) => Some d | _ => None end.
Definition sample_claimed : InMemoryOperationStore := (sample_claim_next sample_registered).1.
Definition sample_claim : StageClaim :=
  match d ← sample_decision; decision_claim d with
  | Some c => c | None => {| claim_token := ""; claim_stage_name := ""; claim_attempt := 0; claim_input_digest := "" |} end.
Definition sample_release : method OperationRecord := release_transient sample_r1 sample_claim "temporary" (at_second 3).

Example sample_claim_is_first : claim_stage_name sample_claim = "planned" /\ claim_attempt sample_claim = 1.
Proof. vm_compute. auto. Qed.

Lemma sample_registered_reachable :
  rtc (op_step (U := unicode_sample) (D := pad_digest)) empty_operations sample_registered.
Proof.
  apply rtc_once. unfold sample_registered. eapply (step_register _ "recall" "recall" ["planned"; "retrieved"]).
  - exact (request_from_valid (U := unicode_sample) (D := pad_digest) (R := canonical_reader) _ _ (proj1 (proj2 (proj2 sample_accepted)))).
  - vm_compute. reflexivity.
  - vm_compute. split; [discriminate | reflexivity].
Qed.

Lemma sample_in_range n : (0 <= n <= 100)%Z -> in_range (at_second n).
Proof.
  intros H. unfold in_range, at_second, sample_start, MAX_DAYS, DAY, SECOND. lia.
Qed.

Lemma operation_store_invariant_witness :
  rtc (op_step (U := unicode_sample) (D := pad_digest)) empty_operations sample_registered /\
  store_ok (U := unicode_sample) (D := pad_digest) sample_claimed.
Proof.
  split; [apply sample_registered_reachable|].
  refine (proj1 (proj2 (operation_store_invariant (U := unicode_sample) (D := pad_digest)
    sample_registered sample_claimed sample_registered_reachable _))).
  apply rtc_once. apply step_claim, sample_in_range. lia.
Defined.

Lemma claims_fenced_witness :
  exists code, (fail_stage sample_r1 sample_claim "fatal" (at_second 4) true (sample_release sample_claimed).1).2 =
    Err (StageClaimConflict code).
Proof.
  assert (Hd : exists d, sample_claim_next sample_registered = (sample_claimed, Ok d) /\ decision_claim d = Some sample_claim).
  { unfold sample_claimed, sample_claim, sample_decision. destruct (sample_claim_next sample_registered) as [s' [d|e]] eqn:E.
    - exists d. split; [done|]. cbn. destruct (decision_claim d) eqn:Ed; [done|]. exfalso.
      assert (H : (match (sample_claim_next sample_registered).2 with Ok d => bool_decide (decision_claim d = None) | Err _ => true end) = false)
        by (vm_compute; reflexivity). rewrite E in H. cbn in H. by rewrite Ed in H.
    - exfalso. assert (H : is_ok (sample_claim_next sample_registered).2 = true) by (vm_compute; reflexivity). by rewrite E in H. }
  destruct Hd as (d & Hd & Hc).
  assert (Hu : exists r, sample_release sample_claimed = ((sample_release sample_claimed).1, Ok r)).
  { destruct (sample_release sample_claimed) as [s' [r|e]] eqn:E; [by exists r|]. exfalso.
    assert (H : is_ok (sample_release sample_claimed).2 = true) by (vm_compute; reflexivity). by rewrite E in H. }
  destruct Hu as (r & Hu).
  eapply (claims_fenced (U := unicode_sample) (D := pad_digest)
    sample_registered sample_r1 "r1" (at_second 2) (30 * SECOND) sample_input 3 false sample_claimed d sample_claim sample_claimed
    (sample_release sample_claimed).1 (sample_release sample_claimed).1 _ sample_registered_reachable); eauto.
  - apply sample_in_range. lia.
  - reflexivity.
  - eapply by_use; [|exact Hu]. apply use_release; [apply sample_in_range; lia | reflexivity].
  - reflexivity.
  - apply use_fail; [apply sample_in_range; lia | reflexivity].
Defined.

Lemma claim_next_correct_witness :
  match (sample_claim_next sample_registered).2 with
  | Err e => e = OrchOverflow /\ ~ in_range (at_second 2 + 30 * SECOND)
  | Ok d => decision_ok d (new_record sample_r1 sample_pipeline (at_second 1)) (at_second 2) (30 * SECOND) sample_input 3 false
  end.
Proof.
  pose proof (claim_next_correct (U := unicode_sample) (D := pad_digest) sample_registered sample_r1 "r1"
    (at_second 2) (30 * SECOND) sample_input 3 false (new_record sample_r1 sample_pipeline (at_second 1)) sample_registered_reachable
    eq_refl (sample_in_range 2 ltac:(lia))) as H.
  cbv zeta in H. fold sample_claim_next in H. destruct (sample_claim_next sample_registered).2; [by destruct H as (_ & ? & _) | exact H].
Defined.

Definition sample_signal_args : mapping :=
  [("workspace_id", PStr "ws"); ("actor_id", PStr "alice"); ("operation_id", PStr (rq_operation_id sample_r1));
   ("requested_at", PStr "2026-01-01T00:00:03Z"); ("reason_code", PStr "user_request")].
Definition sample_signal : CancellationSignal :=
  Eval vm_compute in match cancellation_create (U := unicode_sample) (D := pad_digest) sample_signal_args with
    | Ok c => c
    | Err _ => {| cancellation_id := ""; cs_workspace_id := ""; cs_actor_id := ""; cs_operation_id := ""; requested_at := ""; reason_code := "" |}
    end.

Example sample_signal_accepted :
  cancellation_from_mapping (U := unicode_sample) (D := pad_digest) (cancellation_to_mapping sample_signal) = Ok sample_signal.
Proof. vm_compute. reflexivity. Qed.

Definition sample_cancel : method (option OperationRecord) := request_cancel sample_signal (at_second 3).

(** The worker's release after the cancellation ends the operation. *)
Lemma cancellation_wins_witness :
  exists r r2, (sample_cancel sample_claimed).2 = Ok (Some r) /\
    _records (sample_release (sample_cancel sample_claimed).1).1 !! ("ws", rq_operation_id sample_r1) = Some r2 /\
    stage_result_refs r2 = stage_result_refs r.
Proof.
  destruct (sample_cancel sample_claimed) as [s1 [[r|]|e]] eqn:E.
  2, 3: exfalso; assert (H : match (sample_cancel sample_claimed).2 with Ok (Some _) => true | _ => false end = true)
          by (vm_compute; reflexivity); by rewrite E in H.
  destruct (cancellation_wins (U := unicode_sample) (D := pad_digest) sample_claimed sample_signal (at_second 3) s1 r
    (sample_release s1).1) as (_ & r2 & Hr2 & Hrefs & _).
  - eapply rtc_r; [apply sample_registered_reachable|]. apply step_claim, sample_in_range. lia.
  - exact (cancellation_from_valid (U := unicode_sample) (D := pad_digest) _ _ sample_signal_accepted).
  - apply sample_in_range. lia.
  - exact E.
  - apply rtc_once. eapply step_use, use_release; [apply sample_in_range; lia | reflexivity].
  - exists r, r2. split; [done | split; [exact Hr2 | exact Hrefs]].
Defined.
