(* ===== verification/StageResults.v ===== *)
(** * Stage results (memory_runtime/orchestrator.py)

    What a stage handler returns, and the store that keeps the first result of a stage for
    an input digest: a handler run again must return the same content. *)
From S2P Require Import Prelude Digest Json Canonical Hashing Contracts Timestamps RuntimeContracts OperationStore.
Open Scope string_scope.

Definition _STAGE_CONTENT_DOMAIN : string := "wiki.runtime.stage-content.v1" +:+ NUL.

Record RuntimeStageResult : Type := {
  sr_stage_name : string;
  sr_payload : list (string * json);
  sr_disposition : StageDisposition;
  sr_schema_id : string;
  sr_provenance_refs : list string;
  sr_error_code : option string;
}.

(** The arguments of the constructor, before its checks; [None] is a disposition that is not
    a StageDisposition. *)
Record raw_stage_result : Type := {
  raw_stage_name : pyval;
  raw_payload : pyval;
  raw_disposition : option StageDisposition;
  raw_schema_id : pyval;
  raw_provenance_refs : pyval;
  raw_error_code : pyval;
}.

Section StageResult.
Context {U : Unicode} {D : Digest} {R : JsonReader}.

Definition _runtime_code (v : pyval) : result runtime_error string :=
  match v with
  | PStr s => _ ← ensure (is_safe_code (nfc s)) RtInvalidValue; Ok (nfc s)
  | _ => Err RtInvalidValue
  end.

(** [isinstance(v, str) and v], normalized *)
Definition schema_text (v : pyval) : result runtime_error string :=
  match v with
  | PStr s => _ ← ensure (str_nonempty s) RtInvalidValue; Ok (nfc s)
  | _ => Err RtInvalidValue
  end.

Definition terminal_default (d : StageDisposition) : option string :=
  match d with
  | REJECT => Some "stage_rejected" | ABSTAIN => Some "stage_abstained" | DEGRADE => Some "stage_degraded"
  | CONTINUE | COMPLETE => None
  end.

Definition result_error_code (d : StageDisposition) (v : pyval) : result runtime_error (option string) :=
  match terminal_default d, v with
  | Some default, PNone => c ← _runtime_code (PStr default); Ok (Some c)
  | Some _, v => c ← _runtime_code v; Ok (Some c)
  | None, PNone => Ok None
  | None, _ => Err RtInvalidValue
  end.

Definition str_items (l : list pyval) : list string :=
  omap (fun v => match v with PStr s => Some (nfc s) | _ => None end) l.

Definition provenance (v : pyval) : result runtime_error (list string) :=
  match v with
  | PList l | PTuple l =>
      let refs := str_items l in
      _ ← ensure ((length refs =? length l)%nat && forallb str_nonempty refs) RtInvalidValue;
      _ ← ensure (bool_decide (sorted_unique refs = refs)) RtInvalidValue;
      Ok refs
  | _ => Err RtInvalidValue
  end.

(** [json.loads(canonical_bytes({"payload": payload}))["payload"]], an object *)
Definition payload_copy (v : pyval) : result runtime_error (list (string * json)) :=
  data ← runtime_bytes (py_record [("payload", v)]);
  j ← of_option RtInvalidValue (json_loads data);
  match j with
  | JObj ms => p ← of_option RtKeyError (assoc "payload" ms);
               match p with JObj ms => Ok ms | _ => Err RtInvalidValue end
  | _ => Err RtKeyError
  end.

(** [RuntimeStageResult(...)], [__post_init__] included. *)
Definition stage_result_post_init (raw : raw_stage_result) : result runtime_error RuntimeStageResult :=
  name ← match raw_stage_name raw with
         | PStr s => _ ← ensure (str_mem s stage_names) RtInvalidValue; Ok (nfc s)
         | _ => Err RtInvalidValue
         end;
  d ← of_option RtInvalidValue (raw_disposition raw);
  schema ← schema_text (raw_schema_id raw);
  code ← result_error_code d (raw_error_code raw);
  refs ← provenance (raw_provenance_refs raw);
  _ ← match raw_payload raw with PDict _ | PMap _ => Ok tt | _ => Err RtInvalidValue end;
  p ← payload_copy (raw_payload raw);
  Ok {| sr_stage_name := name; sr_payload := p; sr_disposition := d; sr_schema_id := schema;
        sr_provenance_refs := refs; sr_error_code := code |}.

Definition semantic_mapping (r : RuntimeStageResult) : result runtime_error mapping :=
  p ← payload_copy (of_json (JObj (sr_payload r)));
  Ok [("stage_name", PStr (sr_stage_name r)); ("payload", of_json (JObj p));
      ("disposition", PStr (disposition_value (sr_disposition r))); ("schema_id", PStr (sr_schema_id r));
      ("provenance_refs", py_strs (sr_provenance_refs r)); ("error_code", py_opt (sr_error_code r))].

(** ** The result store *)

Record StoredStageResult : Type := { stored_ref : StageResultRef; stored_result : RuntimeStageResult }.
Record PersistedStageResult : Type := { persisted_ref : StageResultRef; semantic_bytes : string }.

Definition result_key : Type := (string * string) * (string * string).

Record InMemoryStageResultStore : Type := { _results : gmap result_key PersistedStageResult }.
Definition empty_results : InMemoryStageResultStore := {| _results := ∅ |}.

Definition results_key (ws op stage input : string) : result_key := ((ws, op), (stage, input)).

(** The result [_restore] builds from the stored bytes. *)
Definition restore_result (data : string) : result runtime_error RuntimeStageResult :=
  j ← of_option RtInvalidValue (json_loads data);
  semantic ← match j with JObj ms => Ok ms | _ => Err RtKeyError end;
  let item k := of_option RtKeyError (of_json <$> assoc k semantic) in
  name ← item "stage_name"; payload ← item "payload"; d ← item "disposition"; schema ← item "schema_id";
  refs ← item "provenance_refs"; code ← item "error_code";
  d ← match d with PStr s => of_option RtInvalidValue (disposition_of s) | _ => Err RtInvalidValue end;
  refs ← match refs with PList l => Ok (PTuple l) | _ => Err RtInvalidValue end;
  stage_result_post_init {| raw_stage_name := name; raw_payload := payload; raw_disposition := Some d;
    raw_schema_id := schema; raw_provenance_refs := refs; raw_error_code := code |}.

Definition _restore (p : PersistedStageResult) : result runtime_error StoredStageResult :=
  r ← restore_result (semantic_bytes p); Ok {| stored_ref := persisted_ref p; stored_result := r |}.

Definition result_method (A : Type) : Type := st InMemoryStageResultStore orch_error A.

(** [InMemoryStageResultStore.get] *)
Definition get_result (ws op stage input : string) : result_method (option StoredStageResult) := fun s =>
  (s, match _results s !! results_key ws op stage input with
      | None => Ok None
      | Some p => map_err OrchContract (x ← _restore p; Ok (Some x))
      end).

(** The part of [put_once] under the store's lock. *)
Definition keep_first (key : result_key) (persisted : PersistedStageResult) : result_method StoredStageResult := fun s =>
  match _results s !! key with
  | None => ({| _results := <[key := persisted]> (_results s) |}, map_err OrchContract (_restore persisted))
  | Some existing =>
      if String.eqb (semantic_bytes existing) (semantic_bytes persisted) then (s, map_err OrchContract (_restore existing))
      else (s, Err StageResultConflict)
  end.

Definition persist (op input : string) (r : RuntimeStageResult) (created_at : string) : result runtime_error PersistedStageResult :=
  semantic ← semantic_mapping r;
  data ← runtime_bytes (py_record semantic);
  ref ← ref_create (ref_args op (sr_stage_name r) input (sha256_hex (_STAGE_CONTENT_DOMAIN +:+ data)) (sr_schema_id r) created_at
                      (sr_provenance_refs r));
  Ok {| persisted_ref := ref; semantic_bytes := data |}.

(** [InMemoryStageResultStore.put_once] *)
Definition put_once (ws op input : string) (r : RuntimeStageResult) (created_at : string) : result_method StoredStageResult :=
  persisted ← st_lift (map_err OrchContract (persist op input r created_at));
  keep_first (results_key ws op (sr_stage_name r) input) persisted.
End StageResult.

(** ** What a stored result satisfies *)
Section ResultLemmas.
Context {U : Unicode} {D : Digest} {R : JsonReader}.

Lemma payload_copy_ok v ms : payload_copy v = Ok ms <-> _normalize v = Ok (JObj ms).
Proof.
  unfold payload_copy, runtime_bytes, Contracts.canonical_bytes.
  assert (E : _normalize (py_record [("payload", v)]) = j ← _normalize v; Ok (JObj [("payload", j)])).
  { unfold py_record. cbn [map fst snd]. rewrite contract_dict. cbn [contract_entries str_in_keys existsb map].
    rewrite nfc_ascii by done. by destruct (_normalize v). }
  rewrite E. destruct (_normalize v) as [x|] eqn:Ex; [|done]. cbn [mbind result_bind reraise].
  destruct (rt_normalize_wf _ _ Ex) as [Hw Hs]. rewrite json_loads_dumps by (cbn; by rewrite Hw).
  cbn. rewrite Hs. destruct x; split; congruence.
Qed.

Lemma payload_copy_stored ms : stored ms -> payload_copy (of_json (JObj ms)) = Ok ms.
Proof. intros H. by apply payload_copy_ok. Qed.

(** What [__post_init__] establishes. *)
Definition result_valid (r : RuntimeStageResult) : Prop :=
  str_mem (sr_stage_name r) stage_names = true /\ nfc (sr_schema_id r) = sr_schema_id r /\ stored (sr_payload r) /\
  good_seq (sr_provenance_refs r) /\ code_opt (sr_error_code r) /\
  (terminal_default (sr_disposition r) = None <-> sr_error_code r = None).

(** The arguments that build a result again. *)
Definition raw_of (r : RuntimeStageResult) : raw_stage_result :=
  {| raw_stage_name := PStr (sr_stage_name r); raw_payload := of_json (JObj (sr_payload r));
     raw_disposition := Some (sr_disposition r); raw_schema_id := PStr (sr_schema_id r);
     raw_provenance_refs := PTuple (map PStr (sr_provenance_refs r)); raw_error_code := py_opt (sr_error_code r) |}.

Lemma str_items_normal l : Forall (fun s => nfc s = s) (str_items l).
Proof. induction l as [|v l IH]; [constructor|]. destruct v; cbn; auto. constructor; [apply nfc_idem | exact IH]. Qed.

Lemma str_items_strs l : Forall good l -> str_items (map PStr l) = l.
Proof.
  induction 1 as [|s l [Hn _] _ IH]; [done|]. change (str_items (map PStr (s :: l))) with (nfc s :: str_items (map PStr l)).
  by rewrite Hn, IH.
Qed.

Lemma provenance_ok v refs : provenance v = Ok refs -> good_seq refs.
Proof.
  assert (H : forall l, (_ ← ensure ((length (str_items l) =? length l)%nat && forallb str_nonempty (str_items l)) RtInvalidValue;
    _ ← ensure (bool_decide (sorted_unique (str_items l) = str_items l)) RtInvalidValue; Ok (str_items l)) = Ok refs -> good_seq refs).
  { intros l H. rt_steps H. injection H as <-. apply andb_true_iff in Ha as [_ Ha]. apply bool_decide_eq_true in Ha0.
    split; [done|]. pose proof (str_items_normal l) as Hn. rewrite list.Forall_forall in *. intros s Hs. split; [by apply Hn|].
    rewrite forallb_forall in Ha. apply Ha. by apply list_elem_of_In. }
  destruct v; try done; apply H.
Qed.

Lemma provenance_good l : good_seq l -> provenance (PTuple (map PStr l)) = Ok l.
Proof.
  intros [Hs Hg]. unfold provenance. cbv beta iota zeta. rewrite str_items_strs, length_map, Nat.eqb_refl by done.
  assert (forallb str_nonempty l = true) as ->.
  { apply forallb_forall. intros s Hin%list_elem_of_In. rewrite list.Forall_forall in Hg. by apply Hg. }
  cbn [andb ensure mbind result_bind]. by rewrite bool_decide_true.
Qed.

Lemma runtime_code_ok v s : _runtime_code v = Ok s -> is_safe_code s = true.
Proof. destruct v; try done. cbn. intros H. rt_steps H. by injection H as <-. Qed.

Lemma runtime_code_good s : is_safe_code s = true -> _runtime_code (PStr s) = Ok s.
Proof. intros H. cbn. by rewrite (proj1 (safe_code_good _ H)), H. Qed.

Lemma error_code_ok d v o : result_error_code d v = Ok o -> code_opt o /\ (terminal_default d = None <-> o = None).
Proof.
  intros H. unfold result_error_code in H. destruct (terminal_default d) as [t|].
  - assert (exists c, o = Some c /\ is_safe_code c = true) as (c & -> & Hc).
    { destruct v; cbn [mbind result_bind] in H; apply bind_ok in H as (c & Hc & [= <-]); exists c; eauto using runtime_code_ok. }
    split; [by intros ? [= <-] | done].
  - destruct v; try done. injection H as <-. done.
Qed.

Lemma error_code_good d o : code_opt o -> (terminal_default d = None <-> o = None) -> result_error_code d (py_opt o) = Ok o.
Proof.
  intros Hc Hi. unfold result_error_code. destruct (terminal_default d) as [t|], o as [c|]; try done.
  - cbn [py_opt]. by rewrite runtime_code_good by (by apply Hc).
  - by specialize (proj2 Hi eq_refl).
  - by specialize (proj1 Hi eq_refl).
Qed.

Lemma post_init_valid raw r : stage_result_post_init raw = Ok r -> result_valid r.
Proof.
  unfold stage_result_post_init. intros H. rt_steps H. injection H as <-.
  unfold result_valid; cbn [sr_stage_name sr_payload sr_disposition sr_schema_id sr_provenance_refs sr_error_code].
  apply error_code_ok in Ha2 as [Hc Hi]. split_and!; [| | |by eapply provenance_ok | exact Hc | exact Hi].
  - destruct (raw_stage_name raw); try done. apply bind_ok in Ha as (? & Hm%ensure_ok & [= <-]). by rewrite (proj1 (stage_name_good _ Hm)).
  - destruct (raw_schema_id raw); try done. unfold schema_text in Ha1. rt_steps Ha1. injection Ha1 as <-. apply nfc_idem.
  - apply payload_copy_ok in Ha5. by apply (contract_normalize_idem (raw_payload raw)).
Qed.

Lemma post_init_raw r : result_valid r -> good (sr_schema_id r) -> stage_result_post_init (raw_of r) = Ok r.
Proof.
  intros (Hn & _ & Hp & Hs & Hc & Hi) [Hg Hne]. unfold stage_result_post_init.
  cbn [raw_of raw_stage_name raw_payload raw_disposition raw_schema_id raw_provenance_refs raw_error_code].
  rewrite Hn. cbn [ensure mbind result_bind of_option schema_text]. rewrite Hne. cbn [ensure mbind result_bind].
  rewrite error_code_good by done. cbn [mbind result_bind]. rewrite provenance_good by done. cbn [mbind result_bind].
  change (match of_json (JObj (sr_payload r)) with PDict _ | PMap _ => Ok tt | _ => Err RtInvalidValue end) with (@Ok runtime_error unit tt).
  cbn [mbind result_bind]. rewrite payload_copy_stored by done. cbn [mbind result_bind].
  rewrite Hg, (proj1 (stage_name_good _ Hn)). by destruct r.
Qed.

(** *** Persisting and restoring *)

Definition semantic_fields (r : RuntimeStageResult) : mapping :=
  [("stage_name", PStr (sr_stage_name r)); ("payload", of_json (JObj (sr_payload r)));
   ("disposition", PStr (disposition_value (sr_disposition r))); ("schema_id", PStr (sr_schema_id r));
   ("provenance_refs", py_strs (sr_provenance_refs r)); ("error_code", py_opt (sr_error_code r))].

Definition semantic_json (r : RuntimeStageResult) : list (string * json) :=
  [("stage_name", JStr (sr_stage_name r)); ("payload", JObj (sr_payload r));
   ("disposition", JStr (disposition_value (sr_disposition r))); ("schema_id", JStr (sr_schema_id r));
   ("provenance_refs", JArr (map JStr (sr_provenance_refs r)));
   ("error_code", match sr_error_code r with Some c => JStr c | None => JNull end)].

Lemma semantic_mapping_ok r : result_valid r -> semantic_mapping r = Ok (semantic_fields r).
Proof. intros (_ & _ & Hp & _). unfold semantic_mapping. by rewrite payload_copy_stored. Qed.

Lemma disposition_ascii d : nfc (disposition_value d) = disposition_value d.
Proof. destruct d; by apply nfc_ascii. Qed.

Lemma semantic_normal r : result_valid r ->
  _normalize (py_record (semantic_fields r)) = Ok (JObj (sort_on fst (semantic_json r))).
Proof.
  intros (Hn & Hs & Hp & [_ Hr] & Hc & _). apply record_normal; [reflexivity|]. exists (semantic_json r). split; [|done].
  unfold semantic_fields, semantic_json. repeat constructor; cbn [snd fst]; try done.
  - cbn. by rewrite (proj1 (stage_name_good _ Hn)).
  - cbn. by rewrite disposition_ascii.
  - cbn. by rewrite Hs.
  - rewrite normalize_py_strs. do 2 f_equal. apply list_fmap_ext. intros i s Hi. f_equal.
    rewrite list.Forall_lookup in Hr. by destruct (Hr _ _ Hi).
  - destruct (sr_error_code r) as [c|] eqn:E; [|done]. cbn. by rewrite (proj1 (safe_code_good _ (Hc c eq_refl))).
Qed.

Lemma semantic_item r k v : assoc k (semantic_json r) = Some v -> assoc k (sort_on fst (semantic_json r)) = Some v.
Proof.
  intros <-. apply assoc_perm; [|apply sort_on_perm_self]. rewrite sort_on_perm_self.
  refine (bool_decide_unpack _ _). vm_compute. exact I.
Qed.

Lemma restore_result_ok r data : result_valid r -> good (sr_schema_id r) -> runtime_bytes (py_record (semantic_fields r)) = Ok data ->
  restore_result data = Ok r.
Proof.
  intros Hv Hg Hd. pose proof (semantic_normal _ Hv) as Hj. unfold runtime_bytes, Contracts.canonical_bytes in Hd.
  rewrite Hj in Hd. cbn [mbind result_bind reraise] in Hd. assert (data = json_dumps (JObj (sort_on fst (semantic_json r)))) as -> by congruence. destruct (rt_normalize_wf _ _ Hj) as [Hw Hs]. unfold restore_result.
  rewrite json_loads_dumps, Hs by done. cbn [of_option mbind result_bind].
  rewrite (semantic_item r "stage_name" _ eq_refl), (semantic_item r "payload" _ eq_refl), (semantic_item r "disposition" _ eq_refl),
    (semantic_item r "schema_id" _ eq_refl), (semantic_item r "provenance_refs" _ eq_refl), (semantic_item r "error_code" _ eq_refl).
  cbn [fmap option_fmap option_map of_option mbind result_bind].
  assert (Hdv : disposition_of (disposition_value (sr_disposition r)) = Some (sr_disposition r)) by (by destruct (sr_disposition r)).
  cbn [of_json]. rewrite Hdv. cbn [of_option mbind result_bind].
  match goal with |- context [stage_result_post_init ?x] => assert (x = raw_of r) as -> end.
  { unfold raw_of. f_equal; [f_equal; rewrite map_map; by apply List.map_ext | by destruct (sr_error_code r)]. }
  by rewrite post_init_raw.
Qed.

Lemma restore_ok p r : result_valid r -> good (sr_schema_id r) -> runtime_bytes (py_record (semantic_fields r)) = Ok (semantic_bytes p) ->
  _restore p = Ok {| stored_ref := persisted_ref p; stored_result := r |}.
Proof. intros Hv Hg Hd. unfold _restore. by rewrite (restore_result_ok _ _ Hv Hg Hd). Qed.

(** A result persisted under its key. *)
Definition persisted_ok (key : result_key) (p : PersistedStageResult) : Prop :=
  exists ws op input r created, key = results_key ws op (sr_stage_name r) input /\ result_valid r /\ good (sr_schema_id r) /\
    persist op input r created = Ok p /\ ref_valid (persisted_ref p) /\
    ref_operation_id (persisted_ref p) = op /\ ref_stage_name (persisted_ref p) = sr_stage_name r /\
    ref_input_digest (persisted_ref p) = input.

Definition results_ok (s : InMemoryStageResultStore) : Prop := map_Forall persisted_ok (_results s).

(** What a stored result is for. *)
Definition stored_for (op stage input : string) (x : StoredStageResult) : Prop :=
  ref_valid (stored_ref x) /\ result_valid (stored_result x) /\ ref_operation_id (stored_ref x) = op /\
  ref_stage_name (stored_ref x) = stage /\ sr_stage_name (stored_result x) = stage /\ ref_input_digest (stored_ref x) = input.

Lemma persist_data op input r created p : persist op input r created = Ok p -> result_valid r ->
  runtime_bytes (py_record (semantic_fields r)) = Ok (semantic_bytes p).
Proof. unfold persist. intros H Hv. rewrite semantic_mapping_ok in H by done. cbn [mbind result_bind] in H. rt_steps H. by injection H as <-. Qed.

Lemma persisted_restore ws op stage input p : persisted_ok (results_key ws op stage input) p ->
  exists x, _restore p = Ok x /\ stored_for op stage input x /\ persisted_ref p = stored_ref x.
Proof.
  intros (ws' & op' & input' & r & created & [= <- <- -> <-] & Hv & Hg & Hp & Hr & Ho & Hs & Hi).
  exists {| stored_ref := persisted_ref p; stored_result := r |}. split; [|by split_and!].
  pose proof (persist_data _ _ _ _ _ Hp Hv) as Hd. by apply restore_ok.
Qed.

Lemma persist_total op input r created : is_hex64 op = true -> is_hex64 input = true -> dated created -> result_valid r ->
  good (sr_schema_id r) -> exists p, persist op input r created = Ok p /\ ref_valid (persisted_ref p) /\
    ref_operation_id (persisted_ref p) = op /\ ref_stage_name (persisted_ref p) = sr_stage_name r /\ ref_input_digest (persisted_ref p) = input.
Proof.
  intros Ho Hi Hd Hv Hg. unfold persist. rewrite semantic_mapping_ok by done. cbn [mbind result_bind].
  unfold runtime_bytes, Contracts.canonical_bytes. rewrite (semantic_normal _ Hv). cbn [mbind result_bind reraise].
  set (digest := sha256_hex _).
  destruct (ref_create_ok op (sr_stage_name r) input digest (sr_schema_id r) created (sr_provenance_refs r)) as (id & Hc & Hr).
  - cbn. unfold digest. by rewrite Ho, Hi, sha256_hex_is_hex64.
  - apply Hv.
  - done.
  - done.
  - apply Hv.
  - rewrite Hc. cbn [mbind result_bind]. eexists. split; [done|]. cbn. done.
Qed.

Lemma persist_good op input r created p : persist op input r created = Ok p -> result_valid r -> good (sr_schema_id r).
Proof.
  intros H Hv. split; [apply Hv|]. unfold persist in H. rt_steps H. clear H Ha Ha0. unfold ref_create in Ha1. rt_steps Ha1.
  unfold ref_from_mapping in Ha1. rt_steps Ha1.
  unfold runtime_strict in Ha3. rt_steps Ha3. assert (Hm := f_equal (fun x => match x with Ok y => y | Err _ => [] end) Ha3). cbn beta iota in Hm. subst a5.
  match goal with H : _nonempty (field ?m "schema_id") = Ok _ |- _ =>
    change (field m "schema_id") with (PStr (sr_schema_id r)) in H; cbn in H; rewrite (proj1 (proj2 Hv)) in H;
    by destruct (str_nonempty (sr_schema_id r)) end.
Qed.

(** *** The store *)
Implicit Types (s : InMemoryStageResultStore).

Lemma get_result_ok ws op stage input s : results_ok s ->
  exists o, get_result ws op stage input s = (s, Ok o) /\ (forall x, o = Some x -> stored_for op stage input x).
Proof.
  intros Hs. unfold get_result. destruct (_results s !! _) as [p|] eqn:Hp; [|by exists None].
  destruct (persisted_restore _ _ _ _ _ (Hs _ _ Hp)) as (x & -> & Hx & _). exists (Some x). split; [done|]. by intros ? [= <-].
Qed.

(** [put_once] with the arguments of a run. *)
Definition put_args op input (r : RuntimeStageResult) created : Prop :=
  is_hex64 op = true /\ is_hex64 input = true /\ dated created /\ result_valid r.

Lemma persist_bytes_eq op input r created p op' input' r' created' p' :
  persist op input r created = Ok p -> persist op' input' r' created' = Ok p' -> result_valid r -> result_valid r' ->
  semantic_bytes p = semantic_bytes p' <-> r = r'.
Proof.
  intros Hp Hp' Hv Hv'. pose proof (persist_data _ _ _ _ _ Hp Hv) as H. pose proof (persist_data _ _ _ _ _ Hp' Hv') as H'. split.
  - intros E. pose proof (restore_result_ok _ _ Hv (persist_good _ _ _ _ _ Hp Hv) H) as R1.
    pose proof (restore_result_ok _ _ Hv' (persist_good _ _ _ _ _ Hp' Hv') H') as R2. rewrite E, R2 in R1. congruence.
  - intros <-. congruence.
Qed.

Lemma put_once_ok ws op input r created s : results_ok s -> put_args op input r created ->
  let o := put_once ws op input r created s in
  let key := results_key ws op (sr_stage_name r) input in
  results_ok o.1 /\ _results s ⊆ _results o.1 /\
  match o.2 with
  | Ok x => stored_for op (sr_stage_name r) input x /\ stored_result x = r /\
            exists p, _results o.1 !! key = Some p /\ _restore p = Ok x
  | Err StageResultConflict => exists p x, _results s !! key = Some p /\ _restore p = Ok x /\ stored_result x <> r
  | Err e => ~ good (sr_schema_id r) /\ exists c, e = OrchContract c
  end.
Proof.
  intros Hs (Ho & Hi & Hd & Hv). cbv zeta. unfold put_once, mbind, st_bind, st_lift.
  destruct (persist op input r created) as [p|c] eqn:Hp; cbn [map_err]; 
    [|split; [done | split; [done | split; [|by exists c]]];
      intros Hg; destruct (persist_total _ _ _ _ Ho Hi Hd Hv Hg) as (? & Hp' & _); congruence].
  pose proof (persist_good _ _ _ _ _ Hp Hv) as Hg. destruct (persist_total _ _ _ _ Ho Hi Hd Hv Hg) as (p0 & Hp0 & Hr & Hro & Hrs & Hri).
  rewrite Hp in Hp0. injection Hp0 as <-. unfold keep_first. set (key := results_key _ _ _ _).
  assert (Hk : persisted_ok key p) by (exists ws, op, input, r, created; done).
  pose proof (restore_ok p r Hv Hg (persist_data _ _ _ _ _ Hp Hv)) as Hx.
  destruct (_results s !! key) as [p'|] eqn:Hl.
  - destruct (Hs _ _ Hl) as (ws' & op' & input' & r' & created' & [= <- <- Hst <-] & Hv' & Hg' & Hp' & Hr' & Ho' & Hs' & Hi').
    pose proof (restore_ok p' r' Hv' Hg' (persist_data _ _ _ _ _ Hp' Hv')) as Hx'.
    destruct (String.eqb_spec (semantic_bytes p') (semantic_bytes p)) as [E|E]; cbn [fst snd]; (split; [done | split; [done|]]).
    + apply (persist_bytes_eq _ _ _ _ _ _ _ _ _ _ Hp' Hp Hv' Hv) in E as ->. rewrite Hx'. cbn [map_err].
      split; [by split_and!|]. split; [done|]. by exists p'.
    + exists p'. eexists. split; [done|]. split; [exact Hx'|]. cbn. intros ->. by apply E, (persist_bytes_eq _ _ _ _ _ _ _ _ _ _ Hp' Hp Hv' Hv).
  - cbn [fst snd _results]. split; [by apply map_Forall_insert_2|]. split; [by apply insert_subseteq|].
    rewrite Hx. cbn [map_err]. split; [by split_and!|]. split; [done|]. exists p. by rewrite lookup_insert_eq.
Qed.

(** A result for a key that has none is recorded. *)
Lemma put_once_fresh ws op input r created s : put_args op input r created -> good (sr_schema_id r) ->
  _results s !! results_key ws op (sr_stage_name r) input = None ->
  exists p x, put_once ws op input r created s = ({| _results := <[results_key ws op (sr_stage_name r) input := p]> (_results s) |}, Ok x) /\
    stored_for op (sr_stage_name r) input x /\ stored_result x = r.
Proof.
  intros (Ho & Hi & Hd & Hv) Hg Hl. destruct (persist_total _ _ _ _ Ho Hi Hd Hv Hg) as (p & Hp & Hr & Hro & Hrs & Hri).
  exists p, {| stored_ref := persisted_ref p; stored_result := r |}. unfold put_once, mbind, st_bind, st_lift. rewrite Hp. cbn [map_err].
  unfold keep_first. rewrite Hl, (restore_ok p r Hv Hg (persist_data _ _ _ _ _ Hp Hv)). split; [done|]. by split_and!.
Qed.
End ResultLemmas.

(** ** The first result stays *)
Section Kept.
Context {U : Unicode} {D : Digest} {R : JsonReader}.

Inductive result_step : InMemoryStageResultStore -> InMemoryStageResultStore -> Prop :=
| step_put ws op input r created s : put_args op input r created -> result_step s (put_once ws op input r created s).1.

Lemma result_steps_ok s s' : results_ok s -> rtc result_step s s' -> results_ok s' /\ _results s ⊆ _results s'.
Proof.
  intros Hs H. induction H as [s|s1 s2 s3 H12 _ IH]; [done|]. destruct H12 as [ws op input r created s1 Ha].
  destruct (put_once_ok ws op input r created s1 Hs Ha) as (H2 & H12 & _). destruct (IH H2) as [H3 H23]. split; [done | by etrans].
Qed.

Lemma empty_results_ok : results_ok empty_results.
Proof. apply map_Forall_empty. Qed.

(** The first result recorded for a stage and an input digest is the result for ever:
    [put_once] answers with the result it was given, read back from the stored bytes,
    and whatever is recorded later [get] answers the same reference and result; recording
    it again is accepted, recording any other result under the key raises
    StageResultConflict and changes nothing. *)
Theorem stage_result_kept ws op input r created x s s1 s2 :
  rtc result_step empty_results s -> put_args op input r created -> put_once ws op input r created s = (s1, Ok x) ->
  rtc result_step s1 s2 ->
  stored_for op (sr_stage_name r) input x /\ stored_result x = r /\
  get_result ws op (sr_stage_name r) input s2 = (s2, Ok (Some x)) /\
  forall r' created', put_args op input r' created' -> good (sr_schema_id r') -> sr_stage_name r' = sr_stage_name r ->
    (r' = r -> put_once ws op input r' created' s2 = (s2, Ok x)) /\
    (r' <> r -> put_once ws op input r' created' s2 = (s2, Err StageResultConflict)).
Proof.
  intros H Ha E H12. destruct (result_steps_ok _ _ empty_results_ok H) as [Hs _].
  pose proof (put_once_ok ws op input r created s Hs Ha) as (H1 & _ & Hx). rewrite E in H1, Hx. cbn [fst snd] in H1, Hx.
  destruct Hx as (Hfor & Hr & p & Hp & Hres). destruct (result_steps_ok _ _ H1 H12) as [H2 Hsub].
  pose proof (lookup_weaken _ _ _ _ Hp Hsub) as Hp2. split; [done|]. split; [done|].
  split; [unfold get_result; by rewrite Hp2, Hres|]. intros r' created' Ha' Hg' Hst.
  destruct Ha' as (Ho & Hi & Hd & Hv'). destruct (persist_total _ _ _ _ Ho Hi Hd Hv' Hg') as (p' & Hp' & _).
  unfold put_once, mbind, st_bind, st_lift. rewrite Hp', Hst. cbn [map_err]. unfold keep_first. rewrite Hp2.
  destruct (H2 _ _ Hp2) as (ws0 & op0 & input0 & r0 & created0 & _ & Hv0 & Hg0 & Hp0 & _).
  pose proof (restore_ok p r0 Hv0 Hg0 (persist_data _ _ _ _ _ Hp0 Hv0)) as Hres0. rewrite Hres in Hres0. injection Hres0 as ->.
  cbn in Hr. subst r0. pose proof (persist_bytes_eq _ _ _ _ _ _ _ _ _ _ Hp0 Hp' Hv0 Hv') as Heq.
  destruct (String.eqb_spec (semantic_bytes p) (semantic_bytes p')) as [Eq|Ne].
  - split; [by rewrite Hres | intros Hn; destruct Hn; symmetry; by apply Heq].
  - split; [intros ->; by destruct Ne; apply Heq | done].
Qed.
End Kept.

(** ** A concrete result *)

Definition sample_result (answer : string) : RuntimeStageResult :=
  {| sr_stage_name := "planned"; sr_payload := [("answer", JStr answer)]; sr_disposition := CONTINUE;
     sr_schema_id := "phase4-stage-result-payload-v1"; sr_provenance_refs := []; sr_error_code := None |}.
Definition sample_put (answer : string) : result_method StoredStageResult :=
  put_once (U := unicode_sample) (D := pad_digest) (R := canonical_reader) "ws" sample_input sample_input (sample_result answer)
    "2026-01-01T00:00:05Z".

Lemma sample_result_valid answer : answer = "yes" \/ answer = "no" -> result_valid (U := unicode_sample) (sample_result answer).
Proof.
  intros H. split; [done|]. split; [done|]. split; [|split; [split; [done | constructor]|]; split; [by intros ? [=] | done]].
  by destruct H as [-> | ->].
Qed.

Lemma sample_put_args answer : answer = "yes" \/ answer = "no" ->
  put_args (U := unicode_sample) sample_input sample_input (sample_result answer) "2026-01-01T00:00:05Z".
Proof. intros H. split_and!; [reflexivity | reflexivity | by eexists | by apply sample_result_valid]. Qed.

Lemma stage_result_kept_witness :
  (sample_put "no" (sample_put "yes" empty_results).1).2 = Err StageResultConflict.
Proof.
  destruct (sample_put "yes" empty_results) as [s1 [x|e]] eqn:E.
  - destruct (stage_result_kept (U := unicode_sample) (D := pad_digest) (R := canonical_reader) "ws" sample_input sample_input
      (sample_result "yes") "2026-01-01T00:00:05Z" x empty_results s1 s1 (rtc_refl _ _) (sample_put_args "yes" (or_introl eq_refl)) E (rtc_refl _ _))
      as (_ & _ & _ & H).
    destruct (H (sample_result "no") "2026-01-01T00:00:05Z" (sample_put_args "no" (or_intror eq_refl))) as [_ Hne]; [by split | done |].
    cbn [fst]. unfold sample_put. by rewrite Hne.
  - exfalso. assert (Hok : is_ok (sample_put "yes" empty_results).2 = true) by (vm_compute; reflexivity). by rewrite E in Hok.
Defined.
