(* ===== verification/Orchestrator.v ===== *)
(** * The runtime orchestrator (memory_runtime/orchestrator.py, RuntimeOrchestrator)

    [run] drives one operation through the stages of its pipeline: it claims the next stage,
    runs its handler, records the result once and commits it.  Between any two of its calls
    other workers, cancellations and clocks may act: they are the [Surroundings]. *)
From S2P Require Import Prelude Digest Json Canonical Hashing Contracts Timestamps RuntimeContracts OperationStore StageResults.
Open Scope string_scope.

Definition _STAGE_INPUT_DOMAIN : string := "wiki.runtime.stage-input.v1" +:+ NUL.

Record RuntimeOperationInput : Type := {
  in_operation_id : string;
  in_idempotency_key : string;
  in_workspace_id : string;
  in_actor_id : string;
  in_request_type : string;
  in_deadline_at : string;
  in_generation_id : option string;
  in_payload : list (string * json);
}.

(** What a handler is given; [now], [checkpoint] and the cancellation callback act on the
    machine the handler runs on. *)
Record StageExecutionContext : Type := {
  ctx_request : RuntimeOperationInput;
  ctx_stage_name : string;
  ctx_previous_refs : list StageResultRef;
  ctx_input_digest : string;
  ctx_attempt : string;
}.

(** The exceptions a stage may end with. *)
Inductive stage_exc : Type :=
| ExcCancelled
| ExcDeadline
| ExcTransient (code : string)
| ExcFatal (code : string)
| ExcResultConflict
| ExcOther.

(** What a handler does: it returns a RuntimeStageResult (whose fields it may have changed
    since), returns something else, or raises; the two exceptions that carry a code are
    built from whatever code it gives them. *)
Inductive handler_outcome : Type :=
| Returned (r : raw_stage_result)
| ReturnedOther
| RaisedCancelled
| RaisedDeadline
| RaisedTransient (code : pyval)
| RaisedFatal (code : pyval)
| RaisedOther.

(** The two stores, and everything else a call may act on. *)
Record machine (W : Type) : Type := {
  ops : InMemoryOperationStore;
  results : InMemoryStageResultStore;
  world : W;
}.
Arguments ops {W}. Arguments results {W}. Arguments world {W}.

(** [clock_now]: the clock, in UTC ([None]: a datetime without a time zone).  [execute]: the
    handler of a stage.  [others]: what others do to the stores before the next call. *)
Class Surroundings (W : Type) : Type := {
  clock_now : W -> W * option Z;
  execute : string -> StageExecutionContext -> machine W -> machine W * handler_outcome;
  others : machine W -> machine W;
}.

Record RuntimeOrchestrator : Type := {
  pipelines : list (string * PipelineDefinition);
  lease_duration : Z;
  max_stage_attempts : nat;
}.

Section Orchestrator.
Context {U : Unicode} {D : Digest} {R : JsonReader} {W : Type} {E : Surroundings W}.

Definition run (A : Type) : Type := st (machine W) orch_error A.

Definition on_ops {A} (m : method A) : run A := fun M =>
  let M := others M in
  let '(s, r) := m (ops M) in ({| ops := s; results := results M; world := world M |}, r).

Definition on_results {A} (m : result_method A) : run A := fun M =>
  let M := others M in
  let '(s, r) := m (results M) in ({| ops := ops M; results := s; world := world M |}, r).

Definition clock : run Z := fun M =>
  let '(w, t) := clock_now (world M) in
  ({| ops := ops M; results := results M; world := w |}, of_option NaiveClock t).

(** [RuntimeOrchestrator._now] *)
Definition _now : run Z := t ← clock; mret (whole_second t).
Definition _now_text : run string := t ← _now; mret (format_utc_timestamp t).

Definition contract {A} (m : result runtime_error A) : run A := st_lift (map_err OrchContract m).

(** [RuntimeOperationInput.from_request] *)
Definition input_from_request (r : RuntimeRequest) : result runtime_error RuntimeOperationInput :=
  p ← payload_copy (of_json (JObj (rq_payload r)));
  Ok {| in_operation_id := rq_operation_id r; in_idempotency_key := rq_idempotency_key r; in_workspace_id := rq_workspace_id r;
        in_actor_id := rq_actor_id r; in_request_type := rq_request_type r; in_deadline_at := rq_deadline_at r;
        in_generation_id := rq_generation_id r; in_payload := p |}.

(** [RuntimeRequest.identity_digest] is the operation id. *)
Definition input_fields (r : RuntimeRequest) (stage : string) (refs : list StageResultRef) : mapping :=
  [("operation_id", PStr (rq_operation_id r)); ("stage_name", PStr stage);
   ("request_identity_digest", PStr (rq_operation_id r)); ("previous_result_ids", py_strs (map result_id refs))].

Definition _stage_input_digest (r : RuntimeRequest) (stage : string) (refs : list StageResultRef) : result runtime_error string :=
  _hash _STAGE_INPUT_DOMAIN (input_fields r stage refs).

(** ** Statuses and responses *)

Definition current_stage (r : OperationRecord) : option string :=
  if negb (is_terminal (op_state r)) then op_pipeline_stages r !! stage_index r else None.

Definition status_attempt (r : OperationRecord) : nat :=
  match current_stage r with
  | Some stage => attempt_for r stage
  | None => match op_pipeline_stages r !! Nat.min (stage_index r) (length (op_pipeline_stages r) - 1) with
            | Some stage => attempt_for r stage | None => 0 end
  end.

Definition status_record (r : OperationRecord) : RuntimeStatus :=
  {| st_operation_id := op_operation_id r; st_workspace_id := op_workspace_id r; st_state := state_value (op_state r);
     st_current_stage := current_stage r; st_attempt := str_of_nat (status_attempt r); st_revision := str_of_nat (revision r);
     st_deadline_at := op_deadline_at r; st_cancellation_id := cancellation_id <$> cancellation r;
     st_refs := stage_result_refs r; st_updated_at := op_updated_at r; st_error_code := op_error_code r |}.

Definition _status (r : OperationRecord) : result runtime_error RuntimeStatus :=
  status_from_mapping (status_to_mapping (status_record r)).

Definition response_status (r : OperationRecord) (forced : option RuntimeResponseStatus) : RuntimeResponseStatus :=
  if is_terminal (op_state r) then response_status_for_state (op_state r)
  else match forced with Some s => s | None => response_status_for_state (op_state r) end.

Definition response_record (request : RuntimeRequest) (r : OperationRecord) (forced : option RuntimeResponseStatus)
    (error : option string) : RuntimeResponse :=
  let status := response_status r forced in
  let result_ref := if bool_decide (status ∈ [RS_COMPLETED; RS_REJECTED; RS_ABSTAINED; RS_DEGRADED])
                    then list.last (stage_result_refs r) else None in
  {| rs_request_id := rq_request_id request; rs_operation_id := rq_operation_id request; rs_workspace_id := rq_workspace_id request;
     rs_status := status_value status; rs_state := state_value (op_state r); rs_generation_id := rq_generation_id request;
     rs_refs := stage_result_refs r; rs_result_ref := result_ref; rs_retryable := bool_decide (status = RS_RETRY_LATER);
     rs_error_code := match error with Some e => Some e | None => op_error_code r end; rs_updated_at := op_updated_at r |}.

Definition _response (request : RuntimeRequest) (r : OperationRecord) (forced : option RuntimeResponseStatus)
    (error : option string) : run RuntimeResponse :=
  contract (response_from_mapping (response_to_mapping (response_record request r forced error))).

(** The answer to a request no pipeline takes. *)
Definition rejection (request : RuntimeRequest) (error : string) : run RuntimeResponse :=
  now ← _now_text;
  contract (response_from_mapping (response_to_mapping
    {| rs_request_id := rq_request_id request; rs_operation_id := rq_operation_id request; rs_workspace_id := rq_workspace_id request;
       rs_status := status_value RS_REJECTED; rs_state := state_value REJECTED; rs_generation_id := rq_generation_id request;
       rs_refs := []; rs_result_ref := None; rs_retryable := false; rs_error_code := Some error; rs_updated_at := now |})).

(** [try: m], with what follows an exception and what follows a return. *)
Definition try_except {X A B} (m : st (machine W) X A) (handler : X -> run B) (k : A -> run B) : run B := fun M =>
  match m M with
  | (M', Ok a) => k a M'
  | (M', Err e) => handler e M'
  end.

(** [self.operation_store.get(...) or record] *)
Definition current (request : RuntimeRequest) (r : OperationRecord) : run OperationRecord :=
  o ← on_ops (get (rq_workspace_id request) (rq_operation_id request));
  mret (match o with Some r' => r' | None => r end).

Definition retry_later (request : RuntimeRequest) (r : OperationRecord) (code : string) : run RuntimeResponse :=
  _response request r (Some RS_RETRY_LATER) (Some code).

Definition _claim_lost_response (request : RuntimeRequest) (r : OperationRecord) : run RuntimeResponse :=
  r ← current request r;
  if is_terminal (op_state r) then _response request r None None else retry_later request r "stage_claim_lost".

(** ** One stage *)

(** A computation inside the [try] block: an exception of a store or of the clock is one of
    the last two handlers'. *)
Definition attempt (A : Type) : Type := st (machine W) stage_exc A.
Definition exc_of (e : orch_error) : stage_exc :=
  match e with StageResultConflict => ExcResultConflict | _ => ExcOther end.
Definition trying {A} (m : run A) : attempt A := fun M => let '(M', r) := m M in (M', map_err exc_of r).

(** [StageExecutionContext.checkpoint] *)
Definition checkpoint (request : RuntimeRequest) : attempt unit :=
  cancelled ← trying (on_ops (is_cancelled (rq_workspace_id request) (rq_operation_id request)));
  _ ← st_lift (ensure (negb cancelled) ExcCancelled);
  now ← trying clock;
  deadline ← trying (st_lift (instant_of (rq_deadline_at request)));
  st_lift (ensure (now <? deadline)%Z ExcDeadline).

Definition coded (make : string -> stage_exc) (code : pyval) : stage_exc :=
  match _runtime_code code with Ok c => make c | Err _ => ExcOther end.

(** The handler's exception, if it raised one. *)
Definition raised (o : handler_outcome) : option stage_exc :=
  match o with
  | RaisedCancelled => Some ExcCancelled
  | RaisedDeadline => Some ExcDeadline
  | RaisedTransient code => Some (coded ExcTransient code)
  | RaisedFatal code => Some (coded ExcFatal code)
  | RaisedOther => Some ExcOther
  | Returned _ | ReturnedOther => None
  end.

Definition handle (context : StageExecutionContext) : attempt handler_outcome := fun M =>
  let '(M', o) := execute (ctx_stage_name context) context M in
  (M', match raised o with Some e => Err e | None => Ok o end).

Definition run_stage (request : RuntimeRequest) (record : OperationRecord) (claim : StageClaim) (context : StageExecutionContext)
    : attempt StoredStageResult :=
  _ ← checkpoint request;
  outcome ← handle context;
  _ ← checkpoint request;
  raw ← st_lift (match outcome with Returned raw => Ok raw | _ => Err (ExcFatal "invalid_stage_result_type") end);
  result ← trying (contract (stage_result_post_init raw));
  _ ← st_lift (ensure (String.eqb (sr_stage_name result) (claim_stage_name claim)) (ExcFatal "stage_result_mismatch"));
  _ ← st_lift (ensure (negb (bool_decide (sr_disposition result = COMPLETE) &&
                             (S (stage_index record) <? length (op_pipeline_stages record))%nat))
                 (ExcFatal "early_stage_completion_denied"));
  created ← trying _now_text;
  trying (on_results (put_once (rq_workspace_id request) (rq_operation_id request) (claim_input_digest claim) result created)).

Definition cancel_args (request : RuntimeRequest) (requested : string) : mapping :=
  [("workspace_id", PStr (rq_workspace_id request)); ("actor_id", PStr (rq_actor_id request));
   ("operation_id", PStr (rq_operation_id request)); ("requested_at", PStr requested);
   ("reason_code", PStr "cooperative_cancel")].

(** [except OperationCancelled] *)
Definition on_cancelled (request : RuntimeRequest) (record : OperationRecord) (claim : StageClaim) : run RuntimeResponse :=
  record ← current request record;
  _ ← (match cancellation record with
       | Some _ => mret tt
       | None =>
           requested ← _now_text;
           signal ← contract (cancellation_create (cancel_args request requested));
           now ← _now;
           _ ← on_ops (request_cancel signal now);
           mret tt
       end);
  created ← _now_text;
  placeholder ← contract (ref_create (ref_args (rq_operation_id request) (claim_stage_name claim) (claim_input_digest claim)
                                        (sha256_hex "cancelled") "phase4-cancelled-stage-v1" created []));
  now ← _now;
  record ← on_ops (commit_stage request claim placeholder CONTINUE (Some "cancelled") now);
  _response request record None None.

(** [try: m; except StageClaimConflict: lost], then [k] *)
Definition unless_lost {A B} (m : run A) (lost : run B) (k : A -> run B) : run B :=
  try_except m (fun e => match e with StageClaimConflict _ => lost | e => st_throw e end) k.

(** [fail_stage(..., self._now())] *)
Definition failing (request : RuntimeRequest) (claim : StageClaim) (code : string) : run OperationRecord :=
  now ← _now; on_ops (fail_stage request claim code now false).

Section Config.
Variable self : RuntimeOrchestrator.

Definition on_exception (request : RuntimeRequest) (record : OperationRecord) (claim : StageClaim) (e : stage_exc)
    : run RuntimeResponse :=
  match e with
  | ExcCancelled => on_cancelled request record claim
  | ExcDeadline =>
      now ← _now;
      record ← on_ops (fail_stage request claim "deadline_exceeded" now true);
      _response request record None None
  | ExcTransient code =>
      unless_lost
        (if (max_stage_attempts self <=? claim_attempt claim)%nat then failing request claim "retry_budget_exhausted"
         else now ← _now; on_ops (release_transient request claim code now))
        (_claim_lost_response request record)
        (fun record => if is_terminal (op_state record) then _response request record None None
                       else retry_later request record code)
  | ExcFatal code => unless_lost (failing request claim code) (_claim_lost_response request record) (fun record => _response request record None None)
  | ExcResultConflict =>
      unless_lost (failing request claim "nondeterministic_stage_result") (_claim_lost_response request record) (fun record => _response request record None None)
  | ExcOther =>
      unless_lost (failing request claim "stage_unhandled_failure") (_claim_lost_response request record) (fun record => _response request record None None)
  end.

(** [RuntimeOrchestrator.__init__]; [handler] is the [stage_name] of a stage's handler, if it
    has one. *)
Definition orchestrator_init (items : list PipelineDefinition) (handler : string -> option string) (lease attempts : Z)
    : result runtime_error RuntimeOrchestrator :=
  _ ← ensure (0 <? lease)%Z RtInvalidValue;
  _ ← ensure (0 <? attempts)%Z RtInvalidValue;
  let pipeline_map := foldl (fun m p => assoc_set (pl_request_type p) p m) [] items in
  _ ← ensure (length pipeline_map =? length items)%nat RtInvalidValue;
  _ ← ensure (forallb (fun p => forallb (fun stage => bool_decide (handler stage = Some stage)) (pl_stages p.2)) pipeline_map) RtInvalidValue;
  Ok {| pipelines := pipeline_map; lease_duration := lease; max_stage_attempts := Z.to_nat attempts |}.

(** ** [run] *)

(** A turn of the loop ends with the answer or with the record to go on with. *)
Definition answer (m : run RuntimeResponse) : run (RuntimeResponse + OperationRecord) := r ← m; mret (inl r).

(** The result is recorded: commit it. *)
Definition commit (request : RuntimeRequest) (record : OperationRecord) (claim : StageClaim) (existing : StoredStageResult)
    : run (RuntimeResponse + OperationRecord) :=
  unless_lost
    (now ← _now;
     on_ops (commit_stage request claim (stored_ref existing) (sr_disposition (stored_result existing))
               (sr_error_code (stored_result existing)) now))
    (answer (record ← current request record; _claim_lost_response request record))
    (fun record => if is_terminal (op_state record) then answer (_response request record None None) else mret (inr record)).

(** The stage is claimed: take its recorded result, or run its handler. *)
Definition perform (request : RuntimeRequest) (record : OperationRecord) (claim : StageClaim) (existing : option StoredStageResult)
    : run (RuntimeResponse + OperationRecord) :=
  match existing with
  | Some existing => commit request record claim existing
  | None =>
      input ← contract (input_from_request request);
      let context := {| ctx_request := input; ctx_stage_name := claim_stage_name claim;
                        ctx_previous_refs := stage_result_refs record; ctx_input_digest := claim_input_digest claim;
                        ctx_attempt := str_of_nat (claim_attempt claim) |} in
      try_except (run_stage request record claim context) (fun e => answer (on_exception request record claim e))
        (commit request record claim)
  end.

(** One turn of the loop. *)
Definition turn (request : RuntimeRequest) (record : OperationRecord) : run (RuntimeResponse + OperationRecord) :=
  record ← current request record;
  if is_terminal (op_state record) then answer (_response request record None None)
  else if (length (op_pipeline_stages record) <=? stage_index record)%nat then
    answer (retry_later request record "operation_state_inconsistent")
  else
    stage_name ← st_lift (of_option OrchIndexError (op_pipeline_stages record !! stage_index record));
    input_digest ← contract (_stage_input_digest request stage_name (stage_result_refs record));
    existing ← on_results (get_result (rq_workspace_id request) (rq_operation_id request) stage_name input_digest);
    now ← _now;
    decision ← on_ops (claim_next request (rq_request_id request) now (lease_duration self) input_digest
                         (max_stage_attempts self) (bool_decide (is_Some existing)));
    let record := decision_record decision in
    match decision_outcome decision, decision_claim decision with
    | Terminal, _ => answer (_response request record None None)
    | Busy, _ | _, None => answer (retry_later request record "operation_stage_busy")
    | Claimed, Some claim => perform request record claim existing
    end.

(** [for _ in range(n): ...] and the answer after it *)
Fixpoint turns (n : nat) (request : RuntimeRequest) (record : OperationRecord) : run RuntimeResponse :=
  match n with
  | 0 => record ← current request record; retry_later request record "orchestrator_transition_limit"
  | S n =>
      o ← turn request record;
      match o with inl response => mret response | inr record => turns n request record end
  end.

(** [RuntimeOrchestrator.run] *)
Definition run_request (request : RuntimeRequest) : run RuntimeResponse :=
  request ← contract (m ← request_to_mapping request; request_from_mapping m);
  match assoc (rq_request_type request) (pipelines self) with
  | None => rejection request "unknown_request_type"
  | Some pipeline =>
      try_except (now ← _now; on_ops (register request pipeline now))
        (fun e => match e with OperationConflict code => rejection request code | e => st_throw e end)
        (turns (length (pl_stages pipeline) + 2) request)
  end.

(** [RuntimeOrchestrator.cancel] *)
Definition cancel (signal : CancellationSignal) : run (option RuntimeStatus) :=
  signal ← contract (cancellation_from_mapping (cancellation_to_mapping signal));
  now ← _now;
  o ← on_ops (request_cancel signal now);
  match o with None => mret None | Some record => s ← contract (_status record); mret (Some s) end.

(** [RuntimeOrchestrator.status] *)
Definition status (workspace operation : string) : run (option RuntimeStatus) :=
  now ← _now;
  o ← on_ops (refresh workspace operation now);
  match o with None => mret None | Some record => s ← contract (_status record); mret (Some s) end.
End Config.
End Orchestrator.

Lemma str_of_nat_canonical n : is_canonical_int (str_of_nat n) = true.
Proof. apply str_of_N_canonical. Qed.

(** ** Statuses and responses of stored records *)
Section Answers.
Context {U : Unicode} {D : Digest} {R : JsonReader}.
Implicit Types (r : OperationRecord).

Lemma sorted_take n (l : list nat) : StronglySorted lt l -> StronglySorted lt (take n l).
Proof.
  intros H. revert n. induction H as [|x l _ IH Hx]; intros [|n]; cbn; constructor; [by apply IH|]. by apply Forall_take.
Qed.

Lemma record_refs_ok k r : record_ok k r -> refs_ok (op_operation_id r) (stage_result_refs r).
Proof.
  intros H. destruct (ok_stages _ _ H) as [_ (indexes & Hi & Hs)]. pose proof (ok_refs _ _ H) as Hr.
  split; [eapply list.Forall_impl; [exact Hr | by intros ? []]|]. split; [eapply list.Forall_impl; [exact Hr | by intros ? []]|].
  exists (take (stage_index r) indexes). split; [|by apply sorted_take]. apply mapM_Some. apply mapM_Some in Hi.
  apply (Forall2_take _ _ _ (stage_index r)) in Hi. rewrite <- (ok_names _ _ H) in Hi. by apply Forall2_fmap_l in Hi.
Qed.

Lemma stage_known k r i stage : record_ok k r -> op_pipeline_stages r !! i = Some stage -> str_mem stage stage_names = true.
Proof.
  intros H Hi. destruct (ok_stages _ _ H) as [_ (indexes & Hm & _)]. apply mapM_Some in Hm.
  destruct (Forall2_lookup_l _ _ _ _ _ Hm Hi) as (j & _ & Hj). unfold stage_order in Hj. revert Hj.
  generalize stage_names at 1 2. intros l. revert j. induction l as [|y l IH]; intros j; [done|]. cbn.
  rewrite (String.eqb_sym y stage). destruct (String.eqb stage y); [done|]. destruct (position l stage) eqn:E; [|done]. intros _. by eapply IH.
Qed.

Lemma running_last k r state : record_ok k r -> op_state r = state -> is_terminal state = false -> state <> RECEIVED ->
  exists x, list.last (stage_result_refs r) = Some x /\ ref_stage_name x = state_value state /\ state ∈ STAGE_STATES.
Proof.
  intros H <- Ht Hr. pose proof (ok_state _ _ H) as Hs. unfold state_ok in Hs.
  assert (Hl : ref_stage_name <$> list.last (stage_result_refs r) = Some (state_value (op_state r))) by (destruct (op_state r); try done; apply Hs).
  destruct (list.last (stage_result_refs r)) as [x|]; [|done]. exists x. split; [done|]. injection Hl as Hl. split; [done|].
  destruct (op_state r); try done; unfold STAGE_STATES; set_solver.
Qed.

Lemma stage_state_not_terminal state : state ∈ STAGE_STATES -> is_terminal state = false.
Proof. intros H%(proj2 (bool_decide_eq_true (state ∈ STAGE_STATES))). destruct state; first [reflexivity | discriminate H]. Qed.

Lemma completed_stages k r : record_ok k r -> op_state r = COMPLETED -> map ref_stage_name (stage_result_refs r) = op_pipeline_stages r.
Proof.
  intros H E. pose proof (ok_state _ _ H) as Hs. unfold state_ok in Hs. rewrite E in Hs. destruct Hs as [_ Hi].
  rewrite (ok_names _ _ H), Hi. apply firstn_all.
Qed.

Lemma record_ref_semantics k r : record_ok k r -> _validate_state_ref_semantics (op_state r) (stage_result_refs r) None = Ok tt.
Proof.
  intros H. unfold _validate_state_ref_semantics. pose proof (ok_state _ _ H) as Hs. unfold state_ok in Hs.
  destruct (decide (op_state r = RECEIVED)) as [E|Hn].
  - rewrite E in Hs. destruct Hs as [-> _]. done.
  - destruct (decide (op_state r ∈ STAGE_STATES)) as [Hin|Hout].
    + pose proof (stage_state_not_terminal _ Hin) as Ht.
      destruct (running_last _ _ _ H eq_refl Ht Hn) as (x & -> & -> & _). by rewrite String.eqb_refl.
    + destruct (decide (op_state r = COMPLETED)) as [E|E]; [|by rewrite bool_decide_false].
      rewrite bool_decide_true by done. cbn [negb orb]. rewrite bool_decide_true; [done|]. intros He.
      pose proof (completed_stages _ _ H E) as Hn'. rewrite He in Hn'. destruct (ok_stages _ _ H) as [Hh _]. by rewrite <- Hn' in Hh.
Qed.

Definition response_error (r : OperationRecord) (error : option string) : option string :=
  match error with Some e => Some e | None => op_error_code r end.

(** The calls of [_response]: no error is put on an ended operation, and one that goes on
    is to be retried and says why. *)
Definition response_args r (forced : option RuntimeResponseStatus) (error : option string) : Prop :=
  code_opt error /\
  if is_terminal (op_state r) then error = None
  else (forced = Some RS_RETRY_LATER \/ forced = None) /\ response_error r error <> None.

Lemma response_ok request k r forced error :
  record_ok k r -> request_valid request -> key_of request = k -> response_args r forced error ->
  response_valid (response_status r forced) (op_state r) (response_record request r forced error).
Proof.
  intros H (Hg & Hx & Ho & _) Hk [Hce Hargs]. rewrite (ok_key _ _ H) in Hk. injection Hk as Hws Hop.
  decompose_Forall_hyps.
  unfold response_valid, response_record.
  cbn [rs_request_id rs_operation_id rs_workspace_id rs_status rs_state rs_generation_id rs_refs rs_result_ref rs_retryable
    rs_error_code rs_updated_at].
  fold (response_error r error).
  split; [done|]. split; [done|]. split; [done|]. split; [done|]. split; [done|]. split; [done|].
  split; [intros c; unfold response_error; destruct error; [auto | apply (ok_error _ _ H)]|].
  split; [apply (ok_updated _ _ H)|]. split; [rewrite Hop; by eapply record_refs_ok|].
  split; [intros x; by case_bool_decide|]. split; [by eapply record_ref_semantics|].
  pose proof (ok_state _ _ H) as Hs. unfold response_status, response_consistent.
  destruct (is_terminal (op_state r)) eqn:Ht.
  - subst error. cbn [response_error]. unfold state_ok in Hs.
    assert (Hl : stage_result_refs r <> [] -> list.last (stage_result_refs r) <> None) by (intros Hne E; by apply last_None in E).
    assert (Hc : op_state r = COMPLETED -> stage_result_refs r <> []).
    { intros E Hn. pose proof (completed_stages _ _ H E) as Hn'. rewrite Hn in Hn'. destruct (ok_stages _ _ H) as [Hh _]. by rewrite <- Hn' in Hh. }
    assert (Hx' : op_state r <> COMPLETED -> exists c, op_error_code r = Some c).
    { intros Hn. destruct (op_error_code r) as [c|]; [by exists c|]. destruct (op_state r); try done; by destruct Hs. }
    assert (Hn : op_state r = COMPLETED \/ op_state r = REJECTED \/ op_state r = ABSTAINED \/ op_state r = DEGRADED ->
      exists x, list.last (stage_result_refs r) = Some x).
    { intros Hst. assert (Hne : stage_result_refs r <> []) by (destruct Hst as [E | [E | [E | E]]]; rewrite E in Hs; [auto | apply Hs..]).
      specialize (Hl Hne). destruct (list.last _) as [x|]; [by exists x | done]. }
    destruct (op_state r); try done.
    + destruct Hs as [-> _], (Hn (or_introl eq_refl)) as [x ->]. done.
    + destruct (Hx' ltac:(done)) as [c ->], (Hn ltac:(auto)) as [x ->]. done.
    + destruct (Hx' ltac:(done)) as [c ->], (Hn ltac:(auto)) as [x ->]. done.
    + destruct (Hx' ltac:(done)) as [c ->], (Hn ltac:(auto)) as [x ->]. done.
    + by destruct (Hx' ltac:(done)) as [c ->].
    + by destruct (Hx' ltac:(done)) as [c ->].
  - assert ((match forced with Some s => s | None => response_status_for_state (op_state r) end) = RS_RETRY_LATER) as ->.
    { destruct Hargs as [[-> | ->] _]; [done|]. by destruct (op_state r). }
    rewrite decide_True by done.
    assert (bool_decide (RS_RETRY_LATER ∈ [RS_COMPLETED; RS_REJECTED; RS_ABSTAINED; RS_DEGRADED]) = false) as -> by reflexivity.
    cbn. by rewrite bool_decide_true by apply Hargs.
Qed.

(** *** Statuses *)

Lemma next_stage k r : record_ok k r -> is_terminal (op_state r) = false -> stage_index r < length (op_pipeline_stages r).
Proof.
  intros H Ht. pose proof (ok_state _ _ H) as Hs. unfold state_ok in Hs. destruct (op_state r); try done; apply Hs.
Qed.

Lemma status_semantics k r : record_ok k r -> _validate_state_ref_semantics (op_state r) (stage_result_refs r) (current_stage r) = Ok tt.
Proof.
  intros H. unfold current_stage. destruct (is_terminal (op_state r)) eqn:Ht; [by eapply record_ref_semantics|]. cbn [negb].
  pose proof (next_stage _ _ H Ht) as Hlt. destruct (proj2 (lookup_lt_is_Some _ _) Hlt) as [stage Hst]. rewrite Hst.
  pose proof (ok_state _ _ H) as Hs. unfold _validate_state_ref_semantics. destruct (decide (op_state r = RECEIVED)) as [E|Hn].
  - unfold state_ok in Hs. rewrite E in Hs. destruct Hs as [Hr _]. rewrite Hr. cbn [ensure mbind result_bind].
    pose proof (ok_names _ _ H) as Hnm. rewrite Hr in Hnm. destruct (ok_stages _ _ H) as [Hh _].
    destruct (stage_index r) as [|i]; [|by destruct (op_pipeline_stages r)]. rewrite <- head_lookup in Hst. rewrite Hh in Hst. by injection Hst as <-.
  - destruct (running_last _ _ _ H eq_refl Ht Hn) as (x & Hx & Hxs & Hin). rewrite decide_True, Hx, Hxs, String.eqb_refl by done.
    cbn [ensure mbind result_bind].
    destruct (ok_stages _ _ H) as [_ (indexes & Hi & Hsort)]. apply mapM_Some in Hi.
    destruct (Forall2_lookup_l _ _ _ _ _ Hi Hst) as (j & Hj & ->).
    rewrite last_lookup in Hx. pose proof (f_equal (fun l => l !! pred (length (stage_result_refs r))) (ok_names _ _ H)) as Hnm.
    cbn beta in Hnm. rewrite list_lookup_fmap, Hx in Hnm. cbn in Hnm. symmetry in Hnm. apply lookup_take_Some in Hnm as [Hnm Hlt'].
    destruct (Forall2_lookup_l _ _ _ _ _ Hi Hnm) as (i & Hi' & Ho). rewrite <- Hxs, Ho. cbn [of_option mbind result_bind].
    by rewrite (proj2 (Nat.ltb_lt i j) (stage_order_lt _ _ _ _ _ Hsort Hlt' Hi' Hj)).
Qed.

Lemma status_ok k r : record_ok k r -> _status r = Ok (status_record r) /\ status_valid (op_state r) (status_record r).
Proof.
  intros H. enough (Hv : status_valid (op_state r) (status_record r)) by (split; [by eapply status_reparse | done]).
  unfold status_valid, status_record; cbn [st_state st_operation_id st_workspace_id st_current_stage st_attempt st_revision
    st_deadline_at st_updated_at st_cancellation_id st_error_code st_refs].
  split; [done|]. split; [apply (ok_operation _ _ H)|]. split; [apply (ok_workspace _ _ H)|].
  split; [unfold current_stage; intros s; case_match; [by eapply stage_known | done]|].
  do 2 (split; [apply str_of_nat_canonical|]). split; [apply (ok_deadline _ _ H)|]. split; [apply (ok_updated _ _ H)|].
  split; [intros id (c & Hc & ->)%fmap_Some; by apply (ok_cancellation _ _ H)|]. split; [apply (ok_error _ _ H)|].
  split; [by eapply record_refs_ok|]. split; [|split; [by eapply status_semantics|]].
  - unfold current_stage. destruct (is_terminal (op_state r)) eqn:Ht; [done|]. cbn [negb].
    destruct (proj2 (lookup_lt_is_Some _ _) (next_stage _ _ H Ht)) as [stage ->]. done.
  - pose proof (ok_state _ _ H) as Hs. unfold state_ok in Hs. unfold _validate_terminal_error_semantics.
    destruct (op_state r), (op_error_code r); try reflexivity; naive_solver.
Qed.
End Answers.

(** ** Reasoning about a run

    What others do goes through the stores' own methods, so a run only has to be considered
    up to [reach]: [wp m M Q] says the stores move by their steps and [Q] holds of the
    outcome. *)
Section Logic.
Context {U : Unicode} {D : Digest} {R : JsonReader} {W : Type} {E : Surroundings W}.
Implicit Types (M : machine W).

Definition reach M M' : Prop := rtc op_step (ops M) (ops M') /\ rtc result_step (results M) (results M').

#[export] Instance reach_preorder : PreOrder reach.
Proof. split; [by intros M; split | intros M1 M2 M3 [] []; split; by etrans]. Qed.

Definition machine_ok M : Prop := store_ok (ops M) /\ results_ok (results M).

Lemma reach_ok M M' : machine_ok M -> reach M M' -> machine_ok M'.
Proof. intros [Ho Hr] [Ho' Hr']. split; [by apply (op_steps_safe _ _ Ho Ho') | by apply (result_steps_ok _ _ Hr Hr')]. Qed.

Definition wp {X A} (m : st (machine W) X A) M (Q : machine W -> result X A -> Prop) : Prop :=
  reach M (m M).1 /\ Q (m M).1 (m M).2.

Lemma wp_ret {X A} (a : A) M (Q : machine W -> result X A -> Prop) : Q M (Ok a) -> wp (mret a) M Q.
Proof. by split. Qed.

Lemma wp_throw {X A} (e : X) M (Q : machine W -> result X A -> Prop) : Q M (Err e) -> wp (st_throw e) M Q.
Proof. by split. Qed.

Lemma wp_lift {X A} (r : result X A) M (Q : machine W -> result X A -> Prop) : Q M r -> wp (st_lift r) M Q.
Proof. by split. Qed.

Lemma wp_mono {X A} (m : st (machine W) X A) M (Q Q' : machine W -> result X A -> Prop) :
  wp m M Q -> (forall M' r, reach M M' -> Q M' r -> Q' M' r) -> wp m M Q'.
Proof. intros [H HQ] HQ'. split; [done | by apply HQ']. Qed.

Lemma wp_bind {X A B} (m : st (machine W) X A) (f : A -> st (machine W) X B) M (Q : machine W -> result X B -> Prop) :
  wp m M (fun M' r => match r with Ok a => wp (f a) M' Q | Err e => Q M' (Err e) end) -> wp (m ≫= f) M Q.
Proof.
  unfold wp, mbind, st_bind. intros [H HQ]. destruct (m M) as [M' [a|e]]; cbn in *; [|done]. destruct HQ. split; [by etrans | done].
Qed.

Lemma wp_try {X A B} (m : st (machine W) X A) (handler : X -> run B) (k : A -> run B) M (Q : machine W -> result orch_error B -> Prop) :
  wp m M (fun M' r => match r with Ok a => wp (k a) M' Q | Err e => wp (handler e) M' Q end) -> wp (try_except m handler k) M Q.
Proof.
  unfold wp, try_except. intros [H HQ]. destruct (m M) as [M' [a|e]]; cbn in *; destruct HQ; (split; [by etrans | done]).
Qed.

Lemma wp_trying {A} (m : run A) M (Q : machine W -> result stage_exc A -> Prop) :
  wp m M (fun M' r => Q M' (map_err exc_of r)) -> wp (trying m) M Q.
Proof. unfold wp, trying. by destruct (m M) as [M' r]. Qed.

(** What the surroundings promise: instants in the datetime range, and no access to the
    stores but through their methods. *)
Class Lawful : Prop := {
  clock_in_range : forall w w' t, clock_now w = (w', Some t) -> in_range t;
  others_reach : forall M, reach M (others M);
  execute_reach : forall stage context M, reach M (execute stage context M).1;
}.
Context {L : Lawful}.

Lemma wp_ops {A} (m : method A) M (Q : machine W -> result orch_error A -> Prop) :
  (forall s, rtc op_step (ops M) s -> rtc op_step s (m s).1 /\
     (forall M', reach M M' -> ops M' = (m s).1 -> Q M' (m s).2)) -> wp (on_ops m) M Q.
Proof.
  intros H. unfold wp, on_ops. destruct (others_reach M) as [Ho Hr]. destruct (H _ Ho) as [Hs HQ].
  destruct (m (ops (others M))) as [s r] eqn:Em. cbn in *.
  assert (Hre : reach M {| ops := s; results := results (others M); world := world (others M) |}) by (split; [by etrans | done]).
  split; [done | by apply HQ].
Qed.

Lemma wp_results {A} (m : result_method A) M (Q : machine W -> result orch_error A -> Prop) :
  (forall s, rtc result_step (results M) s -> rtc result_step s (m s).1 /\
     (forall M', reach M M' -> results M' = (m s).1 -> Q M' (m s).2)) -> wp (on_results m) M Q.
Proof.
  intros H. unfold wp, on_results. destruct (others_reach M) as [Ho Hr]. destruct (H _ Hr) as [Hs HQ].
  destruct (m (results (others M))) as [s r] eqn:Em. cbn in *.
  assert (Hre : reach M {| ops := ops (others M); results := s; world := world (others M) |}) by (split; [done | by etrans]).
  split; [done | by apply HQ].
Qed.

Lemma wp_handle context M (Q : machine W -> result stage_exc handler_outcome -> Prop) :
  (forall M' r, reach M M' -> Q M' r) -> wp (handle context) M Q.
Proof.
  intros H. unfold wp, handle. pose proof (execute_reach (ctx_stage_name context) context M) as He.
  destruct (execute _ _ M) as [M' o]. split; [done | by apply H].
Qed.

Lemma wp_clock M (Q : machine W -> result orch_error Z -> Prop) :
  (forall M' t, reach M M' -> ops M' = ops M -> in_range t -> Q M' (Ok t)) ->
  (forall M', reach M M' -> Q M' (Err NaiveClock)) -> wp clock M Q.
Proof.
  intros H Hn. unfold wp, clock. destruct (clock_now (world M)) as [w [t|]] eqn:Ec; cbn; (split; [by split|]).
  - apply H; [by split | done | by eapply clock_in_range].
  - apply Hn. by split.
Qed.

Lemma wp_now M (Q : machine W -> result orch_error Z -> Prop) :
  (forall M' t, reach M M' -> ops M' = ops M -> in_range t -> Q M' (Ok t)) ->
  (forall M', reach M M' -> Q M' (Err NaiveClock)) -> wp _now M Q.
Proof.
  intros H Hn. apply wp_bind, wp_clock; [|done]. intros M' t Hr Ho Ht. apply wp_ret. apply H; [done | done | by apply whole_second_range].
Qed.

Lemma wp_now_text M (Q : machine W -> result orch_error string -> Prop) :
  (forall M' s, reach M M' -> ops M' = ops M -> dated s -> Q M' (Ok s)) ->
  (forall M', reach M M' -> Q M' (Err NaiveClock)) -> wp _now_text M Q.
Proof.
  intros H Hn. apply wp_bind, wp_now; [|done]. intros M' t Hr Ho Ht. apply wp_ret. apply H; [done | done | by apply dated_now].
Qed.
End Logic.

(** ** The calls of one run *)
Section Calls.
Context {U : Unicode} {D : Digest} {R : JsonReader} {W : Type} {E : Surroundings W} {L : Lawful (W := W)}.
Context (request : RuntimeRequest) (valid : request_valid request).
Implicit Types (M : machine W) (r : OperationRecord).

Definition stored_record M r : Prop := _records (ops M) !! key_of request = Some r.

(** A record of the operation, as it was at some time of the run. *)
Definition seen M r : Prop := record_ok (key_of request) r /\ exists r', stored_record M r' /\ evolves r r'.

Definition ready M : Prop := machine_ok M /\ exists r, stored_record M r.

Lemma stored_seen M r : machine_ok M -> stored_record M r -> seen M r.
Proof. intros [Hs _] Hr. split; [by apply (proj1 Hs) | by exists r]. Qed.

Lemma grown M M' r : machine_ok M -> reach M M' -> stored_record M r -> exists r', stored_record M' r' /\ evolves r r'.
Proof. intros [Hs _] [Ho _] Hr. destruct (op_steps_safe _ _ Hs Ho) as [_ Hg]. by apply (gr_records _ _ Hg). Qed.

Lemma seen_reach M M' r : machine_ok M -> reach M M' -> seen M r -> seen M' r.
Proof.
  intros Hm Hr [Hok (r1 & H1 & He)]. split; [done|]. destruct (grown _ _ _ Hm Hr H1) as (r2 & H2 & He'). exists r2. split; [done | by etrans].
Qed.

Lemma seen_stages M r r' : seen M r -> stored_record M r' -> op_pipeline_stages r = op_pipeline_stages r'.
Proof.
  intros [_ (r1 & Hr1 & Hev)] Hr'. unfold stored_record in Hr1. rewrite Hr' in Hr1. injection Hr1 as <-.
  pose proof (ev_binding _ _ Hev) as Hb. by injection Hb.
Qed.

Lemma ready_reach M M' : ready M -> reach M M' -> ready M'.
Proof.
  intros [Hm [r Hr]] Hre. split; [by eapply reach_ok|]. destruct (grown _ _ _ Hm Hre Hr) as (r' & Hr' & _). by exists r'.
Qed.

(** What the run may still raise: a lost claim, a conflicting operation, a clock without a
    time zone or beyond the datetime range. *)
Definition allowed (e : orch_error) : Prop :=
  match e with StageClaimConflict _ | OperationConflict _ | OrchOverflow | NaiveClock => True | _ => False end.

(** The answer is the stored state of the operation, in a response the contract accepts. *)
Definition answers M (response : RuntimeResponse) : Prop :=
  exists r forced error, seen M r /\ response_args r forced error /\ response = response_record request r forced error /\
    response_valid (response_status r forced) (op_state r) response.

Definition answered M (o : result orch_error RuntimeResponse) : Prop :=
  match o with Ok response => answers M response | Err e => allowed e end.

Lemma wp_response M r forced error : seen M r -> response_args r forced error -> wp (_response request r forced error) M answered.
Proof using valid.
  intros Hs Ha. pose proof (response_ok request _ r forced error (proj1 Hs) valid eq_refl Ha) as Hv.
  apply wp_lift. rewrite (response_reparse _ _ _ Hv). cbn. by exists r, forced, error.
Qed.

Lemma terminal_args r : is_terminal (op_state r) = true -> response_args r None None.
Proof. intros Ht. split; [done|]. by rewrite Ht. Qed.

Lemma retry_args r code : is_terminal (op_state r) = false -> is_safe_code code = true -> response_args r (Some RS_RETRY_LATER) (Some code).
Proof. intros Ht Hc. split; [by intros ? [= <-]|]. rewrite Ht. split; [by left | done]. Qed.

Lemma wp_retry M r code : seen M r -> is_terminal (op_state r) = false -> is_safe_code code = true -> wp (retry_later request r code) M answered.
Proof using valid. intros Hs Ht Hc. apply wp_response; [done | by apply retry_args]. Qed.

Lemma wp_final M r : seen M r -> is_terminal (op_state r) = true -> wp (_response request r None None) M answered.
Proof using valid. intros Hs Ht. apply wp_response; [done | by apply terminal_args]. Qed.

Lemma wp_current M r (Q : machine W -> result orch_error OperationRecord -> Prop) :
  ready M -> seen M r -> (forall M' r', reach M M' -> ready M' -> stored_record M' r' -> evolves r r' -> Q M' (Ok r')) ->
  wp (current request r) M Q.
Proof using L.
  intros Hm [Hok (r1 & Hr1 & He1)] HQ. apply wp_bind, wp_ops. intros s Hst. split; [done|]. intros M' Hre Hs. cbn [get snd fst] in *.
  destruct (grown _ _ _ (proj1 Hm) Hre Hr1) as (r2 & Hr2 & He2). unfold stored_record in Hr2. rewrite Hs in Hr2.
  replace (rq_workspace_id request, rq_operation_id request) with (key_of request) by done. cbn [fst] in Hr2. rewrite Hr2.
  apply wp_ret, HQ; [done | by eapply ready_reach | unfold stored_record; by rewrite Hs | by etrans].
Qed.

Lemma wp_claim_lost M r : ready M -> seen M r -> wp (_claim_lost_response request r) M answered.
Proof using valid L.
  intros Hm Hs. apply wp_bind, wp_current; [done | done|]. intros M' r' Hre Hm' Hr' He.
  pose proof (stored_seen _ _ (proj1 Hm') Hr') as Hseen. destruct (is_terminal (op_state r')) eqn:Ht; [by apply wp_final | by apply wp_retry].
Qed.

(** A method that uses a claim, on the store of the run. *)
Lemma wp_use M claim (m : method OperationRecord) (Q : machine W -> result orch_error OperationRecord -> Prop) :
  ready M -> claim_use request claim m ->
  (forall M' s r', reach M M' -> ready M' -> rtc op_step (ops M) s -> stored_record M' r' -> (m s).2 = Ok r' -> Q M' (Ok r')) ->
  (forall M' e, reach M M' -> ready M' -> claim_conflict e \/ e = OperationConflict "early_stage_completion_denied" -> Q M' (Err e)) ->
  wp (on_ops m) M Q.
Proof using L.
  intros Hm Hu HQ HE. apply wp_ops. intros s Hst. split; [apply rtc_once; by eapply step_use|]. intros M' Hre Hs.
  destruct Hm as [[Hso Hro] [r Hr]]. destruct (op_steps_safe _ _ Hso Hst) as [Hs1 Hg].
  destruct (gr_records _ _ Hg _ _ Hr) as (r1 & Hr1 & _). destruct (claim_use_safe _ _ _ _ _ Hs1 Hr1 Hu) as (_ & He & Hok).
  assert (Hm' : ready M') by (eapply ready_reach; [split; [by split | by exists r] | done]).
  destruct (m s).2 as [r'|e] eqn:Em.
  - destruct (Hok r' eq_refl) as (Hr' & _). eapply HQ; eauto. unfold stored_record. by rewrite Hs.
  - apply HE; [done | done|]. destruct (He e eq_refl) as [?|[? _]]; auto.
Qed.

Lemma conflict_allowed e : claim_conflict e \/ e = OperationConflict "early_stage_completion_denied" -> allowed e.
Proof. by intros [(code & -> & _) | ->]. Qed.

Lemma wp_unless_lost {A B} (m : run A) (lost : run B) (k : A -> run B) M (Q : machine W -> result orch_error B -> Prop) :
  wp m M (fun M' o => match o with
                      | Ok a => wp (k a) M' Q
                      | Err (StageClaimConflict _) => wp lost M' Q
                      | Err e => Q M' (Err e)
                      end) -> wp (unless_lost m lost k) M Q.
Proof. intros H. apply wp_try. eapply wp_mono; [exact H|]. intros M' [a|e] _ HQ; [done|]. destruct e; try done; by apply wp_throw. Qed.

Lemma wp_answer (m : run RuntimeResponse) M (Q : machine W -> result orch_error (RuntimeResponse + OperationRecord) -> Prop) :
  wp m M answered -> (forall M' o, answered M' o -> Q M' (match o with Ok r => Ok (inl r) | Err e => Err e end)) -> wp (answer m) M Q.
Proof.
  intros H HQ. apply wp_bind. eapply wp_mono; [exact H|]. intros M' [r|e] _ Ha; [apply wp_ret|]; by apply (HQ _ _ Ha).
Qed.

(** *** The handlers of [except] *)

(** A claim of the run: its stage is one of the pipeline's, its digest a digest. *)
Definition claim_good (c : StageClaim) : Prop :=
  str_mem (claim_stage_name c) stage_names = true /\ is_hex64 (claim_input_digest c) = true.

Definition exc_ok (e : stage_exc) : Prop :=
  match e with ExcTransient code | ExcFatal code => is_safe_code code = true | _ => True end.

Lemma wp_timed {A} (f : Z -> run A) M (Q : machine W -> result orch_error A -> Prop) :
  ready M -> (forall M', Q M' (Err NaiveClock)) ->
  (forall M' now, reach M M' -> ready M' -> in_range now -> wp (f now) M' Q) -> wp (now ← _now; f now) M Q.
Proof using L.
  intros Hm Hn H. apply wp_bind, wp_now; [|by intros M' _]. intros M' t Hre _ Ht. apply H; [done | by eapply ready_reach | done].
Qed.

Lemma wp_dated {A} (f : string -> run A) M (Q : machine W -> result orch_error A -> Prop) :
  ready M -> (forall M', Q M' (Err NaiveClock)) ->
  (forall M' now, reach M M' -> ready M' -> dated now -> wp (f now) M' Q) -> wp (now ← _now_text; f now) M Q.
Proof using L.
  intros Hm Hn H. apply wp_bind, wp_now_text; [|by intros M' _]. intros M' t Hre _ Ht. apply H; [done | by eapply ready_reach | done].
Qed.

(** A stage that failed ends the operation. *)
Lemma wp_failed M claim code allow now (Q : machine W -> result orch_error OperationRecord -> Prop) :
  ready M -> in_range now -> is_safe_code code = true ->
  (forall M' r, reach M M' -> ready M' -> seen M' r -> is_terminal (op_state r) = true -> Q M' (Ok r)) ->
  (forall M' e, reach M M' -> ready M' -> allowed e -> Q M' (Err e)) ->
  wp (on_ops (fail_stage request claim code now allow)) M Q.
Proof using L.
  intros Hm Hn Hc HQ HE. eapply wp_use; [done | by apply use_fail | |].
  - intros M' s r Hre Hm' _ Hr Hf. apply HQ; [done | done | by apply stored_seen; [apply Hm'|] | by eapply fail_result].
  - intros M' e Hre Hm' He. apply HE; [done | done | by apply conflict_allowed].
Qed.

Lemma wp_on_failure M r0 claim code : ready M -> seen M r0 -> is_safe_code code = true ->
  wp (unless_lost (failing request claim code) (_claim_lost_response request r0) (fun r => _response request r None None)) M answered.
Proof using valid L.
  intros Hm Hs Hc. apply wp_unless_lost. apply wp_timed; [done | done|]. intros M1 now Hre1 Hm1 Hn.
  apply wp_failed; [done | done | done | |].
  - intros M2 r Hre2 Hm2 Hr Ht. by apply wp_final.
  - intros M2 e Hre2 Hm2 He. destruct e; try done. apply wp_claim_lost; [done|]. eapply seen_reach; [apply Hm | by etrans | done].
Qed.

Lemma cancellation_create_ok requested : dated requested ->
  exists c, cancellation_create (cancel_args request requested) = Ok c /\ cancellation_valid c.
Proof using valid.
  intros Hd. unfold cancellation_create. unfold cancel_args, dict_update.
  cbn [foldl assoc_set String.eqb Ascii.eqb Bool.eqb fst snd].
  unfold reads. change (has_keys _ _) with true. cbn [ensure mbind result_bind].
  set (c := fun id => {| cancellation_id := id; cs_workspace_id := rq_workspace_id request; cs_actor_id := rq_actor_id request;
     cs_operation_id := rq_operation_id request; requested_at := requested; reason_code := "cooperative_cancel" |}).
  set (raw := cancellation_identity _).
  assert (Hraw : forall id, cancellation_identity (cancellation_to_mapping (c id)) = raw) by reflexivity.
  assert (exists h, _hash _CANCELLATION_DOMAIN raw = Ok h) as [h Hh].
  { apply hash_total; [reflexivity|]. subst raw. unfold cancellation_identity. repeat constructor; by eexists. }
  rewrite Hh. exists (c h). cbn [mbind result_bind assoc_set String.eqb Ascii.eqb Bool.eqb].
  assert (Hv : cancellation_valid (c h)).
  { destruct valid as (Hg & Hx & _). decompose_Forall_hyps.
    unfold cancellation_valid. cbn [c cancellation_id cs_operation_id cs_workspace_id cs_actor_id reason_code requested_at].
    rewrite (rt_hash_hex _ _ _ Hh). rewrite Hraw. split_and!; try done. }
  split; [|exact Hv]. transitivity (cancellation_from_mapping (cancellation_to_mapping (c h))); [reflexivity | exact (cancellation_reparse _ Hv)].
Qed.

(** The reference that stands for the output a cancelled stage did not give. *)
Lemma placeholder_ok claim created : claim_good claim -> dated created ->
  exists x, ref_create (ref_args (rq_operation_id request) (claim_stage_name claim) (claim_input_digest claim)
              (sha256_hex "cancelled") "phase4-cancelled-stage-v1" created []) = Ok x /\ ref_valid x /\ ref_stage_name x = claim_stage_name claim.
Proof using valid.
  intros [Hs Hi] Hd. destruct valid as (_ & Hx & _).
  destruct (ref_create_ok (rq_operation_id request) (claim_stage_name claim) (claim_input_digest claim) (sha256_hex "cancelled")
    "phase4-cancelled-stage-v1" created []) as (id & Hc & Hv); [|done| |done| |].
  - cbn. by rewrite Hx, Hi, sha256_hex_is_hex64.
  - split; [by apply nfc_ascii | done].
  - split; [done | constructor].
  - by eexists.
Qed.

Lemma wp_request_cancel M signal now (Q : machine W -> result orch_error unit -> Prop) :
  ready M -> cancellation_valid signal -> in_range now ->
  (forall M', reach M M' -> ready M' -> Q M' (Ok tt)) -> (forall M' e, allowed e -> Q M' (Err e)) ->
  wp (_ ← on_ops (request_cancel signal now); mret tt) M Q.
Proof using L.
  intros Hm Hv Hn HQ HE. apply wp_bind, wp_ops. intros s Hst. split; [apply rtc_once; by apply step_cancel|]. intros M' Hre _.
  destruct (op_steps_safe _ _ (proj1 (proj1 Hm)) Hst) as [Hs _].
  destruct (request_cancel_safe s signal now Hs Hv Hn) as (_ & He & _).
  destruct (request_cancel signal now s).2 as [o|e]; [apply wp_ret, HQ; [done | by eapply ready_reach]|].
  apply HE. by destruct (He e eq_refl) as [-> | (code & -> & _)].
Qed.

Lemma wp_commit_placeholder M claim : ready M -> claim_good claim ->
  wp (created ← _now_text;
      placeholder ← contract (ref_create (ref_args (rq_operation_id request) (claim_stage_name claim) (claim_input_digest claim)
                                            (sha256_hex "cancelled") "phase4-cancelled-stage-v1" created []));
      now ← _now;
      record ← on_ops (commit_stage request claim placeholder CONTINUE (Some "cancelled") now);
      _response request record None None) M answered.
Proof using valid L.
  intros Hm Hc. apply wp_dated; [done | done|]. intros M1 created Hre1 Hm1 Hd.
  destruct (placeholder_ok claim created Hc Hd) as (x & Hx & Hv & Hst). apply wp_bind, wp_lift. rewrite Hx. cbn [map_err].
  apply wp_timed; [done | done|]. intros M2 now Hre2 Hm2 Hn.
  assert (Hcode : code_opt (Some "cancelled")) by (by intros ? [= <-]).
  apply wp_bind. eapply wp_use; [done | by apply use_commit | |].
  - intros M3 s r Hre3 Hm3 _ Hr Hres. assert (Hseen : seen M3 r) by (apply stored_seen; [apply Hm3 | done]).
    apply wp_response; [done|]. split; [done|]. destruct (is_terminal (op_state r)) eqn:Ht; [done|]. split; [by right|].
    apply commit_result in Hres as [Ht'|(r0 & _ & _ & _ & He)]; [congruence | cbn; by rewrite He | apply Hv | done].
  - intros M3 e _ _ He. by apply conflict_allowed.
Qed.

Lemma wp_on_cancelled M r claim : ready M -> seen M r -> claim_good claim -> wp (on_cancelled request r claim) M answered.
Proof using valid L.
  intros Hm Hs Hc. apply wp_bind, wp_current; [done | done|]. intros M1 r1 _ Hm1 _ _. apply wp_bind.
  destruct (cancellation r1); [apply wp_ret; by apply wp_commit_placeholder|].
  apply wp_dated; [done | done|]. intros M2 requested _ Hm2 Hd.
  destruct (cancellation_create_ok requested Hd) as (c & Hcr & Hcv). apply wp_bind, wp_lift. rewrite Hcr. cbn [map_err].
  apply wp_timed; [done | done|]. intros M3 now _ Hm3 Hn. apply wp_request_cancel; [done..| |done].
  intros M4 _ Hm4. by apply wp_commit_placeholder.
Qed.

Lemma wp_on_transient self M r claim code : ready M -> seen M r -> is_safe_code code = true ->
  wp (on_exception self request r claim (ExcTransient code)) M answered.
Proof using valid L.
  intros Hm Hs Hc. apply wp_unless_lost.
  set (Q := fun M' (o : result orch_error OperationRecord) => match o with
    | Ok r => wp (if is_terminal (op_state r) then _response request r None None else retry_later request r code) M' answered
    | Err (StageClaimConflict _) => wp (_claim_lost_response request r) M' answered
    | Err e => answered M' (Err e)
    end).
  assert (HQ : forall M' r', ready M' -> stored_record M' r' -> Q M' (Ok r')).
  { intros M' r' Hm' Hr'. assert (Hseen : seen M' r') by (apply stored_seen; [apply Hm' | done]). cbn.
    destruct (is_terminal (op_state r')) eqn:Ht; [by apply wp_final | by apply wp_retry]. }
  assert (HE : forall M' e, reach M M' -> ready M' -> claim_conflict e \/ e = OperationConflict "early_stage_completion_denied" -> Q M' (Err e)).
  { intros M' e Hre Hm' [(c & -> & _) | ->]; [|done]. apply wp_claim_lost; [done|]. eapply seen_reach; [apply Hm | done | done]. }
  destruct (_ <=? _)%nat; (apply wp_timed; [done | done|]; intros M1 now Hre1 Hm1 Hn);
    (eapply wp_use; [done | first [by apply use_fail | by apply use_release] | |]).
  1, 3: intros M2 s r' Hre2 Hm2 _ Hr' _; by apply HQ.
  all: intros M2 e Hre2 Hm2 He; apply HE; [by etrans | done | done].
Qed.

Lemma wp_on_exception self M r claim e : ready M -> seen M r -> claim_good claim -> exc_ok e ->
  wp (on_exception self request r claim e) M answered.
Proof using valid L.
  intros Hm Hs Hc He. destruct e as [| |code|code| |].
  - by apply wp_on_cancelled.
  - apply wp_timed; [done | done|]. intros M1 now _ Hm1 Hn. apply wp_bind, wp_failed; [done | done | done | |done].
    intros M2 r' _ Hm2 Hr' Ht. by apply wp_final.
  - by apply wp_on_transient.
  - by apply wp_on_failure.
  - by apply wp_on_failure.
  - by apply wp_on_failure.
Qed.

(** *** Running a stage *)

Lemma exc_of_ok e : exc_ok (exc_of e).
Proof. by destruct e. Qed.

Lemma coded_ok make v : (forall c, is_safe_code c = true -> exc_ok (make c)) -> exc_ok (coded make v).
Proof. intros H. unfold coded. destruct (_runtime_code v) as [c|] eqn:Ec; [|done]. apply H. by eapply runtime_code_ok. Qed.

Lemma raised_ok o e : raised o = Some e -> exc_ok e.
Proof. destruct o; try done; intros [= <-]; try done; by apply coded_ok. Qed.

(** What is known of a stage's outcome. *)
Definition staged claim M (o : result stage_exc StoredStageResult) : Prop :=
  ready M /\ match o with
             | Ok x => stored_for (rq_operation_id request) (claim_stage_name claim) (claim_input_digest claim) x
             | Err e => exc_ok e
             end.

Lemma wp_checkpoint {A} M (k : attempt A) (Q : machine W -> result stage_exc A -> Prop) :
  ready M -> (forall M', reach M M' -> ready M' -> wp k M' Q) ->
  (forall M' e, ready M' -> exc_ok e -> Q M' (Err e)) -> wp (_ ← checkpoint request; k) M Q.
Proof using L.
  intros Hm Hk HE. apply wp_bind, wp_bind, wp_trying, wp_ops. intros s _. split; [done|]. intros M1 Hre1 _. cbn [is_cancelled snd map_err].
  pose proof (ready_reach _ _ Hm Hre1) as Hm1. apply wp_bind, wp_lift.
  match goal with |- context [ensure ?b _] => destruct b end; cbn [ensure]; [|by apply HE].
  apply wp_bind, wp_trying, wp_clock; [|intros M2 Hre2; apply HE; [by eapply ready_reach | done]].
  intros M2 t Hre2 _ _. cbn [map_err]. pose proof (ready_reach _ _ Hm1 Hre2) as Hm2. apply wp_bind, wp_trying, wp_lift.
  destruct (instant_of _) as [d|]; cbn [map_err]; [|apply HE; [done | apply exc_of_ok]]. apply wp_lift.
  match goal with |- context [ensure ?b _] => destruct b end; cbn [ensure]; [|by apply HE].
  apply Hk; [by etrans | done].
Qed.

Lemma wp_recorded M claim result : ready M -> claim_good claim -> result_valid result -> sr_stage_name result = claim_stage_name claim ->
  wp (created ← trying _now_text;
      trying (on_results (put_once (rq_workspace_id request) (rq_operation_id request) (claim_input_digest claim) result created)))
    M (staged claim).
Proof using valid L.
  intros Hm [_ Hi] Hv Hst. apply wp_bind, wp_trying, wp_now_text; [|intros M1 Hre1; split; [by eapply ready_reach | done]].
  intros M1 created Hre1 _ Hd. cbn [map_err]. pose proof (ready_reach _ _ Hm Hre1) as Hm1. apply wp_trying, wp_results.
  intros s Hss. assert (Ha : put_args (rq_operation_id request) (claim_input_digest claim) result created).
  { destruct valid as (_ & Hx & _). done. }
  destruct (result_steps_ok _ _ (proj2 (proj1 Hm1)) Hss) as [Hs _]. split; [apply rtc_once; by apply step_put|].
  intros M2 Hre2 _. split; [by eapply ready_reach|].
  pose proof (put_once_ok (rq_workspace_id request) _ _ _ _ s Hs Ha) as (_ & _ & Hx).
  destruct (put_once _ _ _ _ _ s).2 as [x|e]; cbn [map_err]; [rewrite <- Hst; apply Hx | apply exc_of_ok].
Qed.

Lemma wp_run_stage M r claim context : ready M -> claim_good claim -> wp (run_stage request r claim context) M (staged claim).
Proof using valid L.
  intros Hm Hc. apply wp_checkpoint; [done | |by intros M' e]. intros M1 _ Hm1.
  apply wp_bind. unfold wp, handle. pose proof (execute_reach (ctx_stage_name context) context M1) as He.
  destruct (execute _ _ M1) as [M2 o]. cbn [fst snd] in *. split; [done|]. pose proof (ready_reach _ _ Hm1 He) as Hm2.
  destruct (raised o) as [e|] eqn:Eo; [split; [done | by eapply raised_ok]|].
  apply wp_checkpoint; [done | |by intros M' e]. intros M3 _ Hm3. apply wp_bind, wp_lift.
  destruct o; try (by split). apply wp_bind, wp_trying, wp_lift.
  destruct (stage_result_post_init r0) as [result|e] eqn:Er; cbn [map_err]; [|split; [done | apply exc_of_ok]].
  apply post_init_valid in Er as Hv. apply wp_bind, wp_lift.
  destruct (String.eqb_spec (sr_stage_name result) (claim_stage_name claim)) as [Hst|]; [|by split]. cbn [ensure].
  apply wp_bind, wp_lift. destruct (negb _); cbn [ensure]; [|by split]. by apply wp_recorded.
Qed.

(** *** A turn of the loop *)

(** A turn answers, or goes on with a later record that has not ended. *)
Definition turned r M (o : result orch_error (RuntimeResponse + OperationRecord)) : Prop :=
  match o with
  | Ok (inl response) => answers M response
  | Ok (inr r') => ready M /\ seen M r' /\ is_terminal (op_state r') = false /\ stage_index r < stage_index r' /\
      op_pipeline_stages r' = op_pipeline_stages r
  | Err e => allowed e
  end.

Lemma wp_answered m M r : wp m M answered -> wp (answer m) M (turned r).
Proof. intros H. apply wp_answer; [done|]. by intros M' [x|e]. Qed.

Lemma wp_commit M r claim stage input x :
  ready M -> seen M r -> stored_for (rq_operation_id request) stage input x ->
  wp (commit request r claim x) M (turned r).
Proof using valid L.
  intros Hm Hs (Hv & Hrv & _). apply wp_unless_lost. apply wp_timed; [done | done|]. intros M1 now Hre1 Hm1 Hn.
  assert (Hcode : code_opt (sr_error_code (stored_result x))) by apply Hrv.
  assert (Hs1 : seen M1 r) by (by eapply seen_reach; [apply Hm| |]).
  eapply wp_use; [done | by apply use_commit | |].
  - intros M2 s r' Hre2 Hm2 Hss Hr' Hres. assert (Hseen : seen M2 r') by (apply stored_seen; [apply Hm2 | done]).
    destruct (is_terminal (op_state r')) eqn:Ht; [by apply wp_answered, wp_final|]. apply wp_ret.
    split; [done|]. split; [done|]. split; [done|].
    split; [|symmetry; eapply seen_stages; [eapply seen_reach; [apply Hm1 | exact Hre2 | exact Hs1] | exact Hr']].
    apply commit_result in Hres as [Ht'|(r1 & Hr1 & -> & _)]; [congruence | | apply Hv | done].
    destruct Hs1 as [_ (r2 & Hr2 & Hev)]. destruct (op_steps_safe _ _ (proj1 (proj1 Hm1)) Hss) as [_ Hg].
    destruct (gr_records _ _ Hg _ _ Hr2) as (r3 & Hr3 & Hev3). rewrite Hr1 in Hr3. injection Hr3 as <-.
    pose proof (ev_index _ _ Hev). pose proof (ev_index _ _ Hev3). lia.
  - intros M2 e Hre2 Hm2 He. destruct e; try (by apply conflict_allowed).
    apply wp_answered. apply wp_bind, wp_current; [done | eapply seen_reach; [apply Hm1 | done | done] |].
    intros M3 r' _ Hm3 Hr' _. apply wp_claim_lost; [done | apply stored_seen; [apply Hm3 | done]].
Qed.

Lemma wp_perform self M r claim existing stage input :
  ready M -> seen M r -> claim_good claim ->
  (forall x, existing = Some x -> stored_for (rq_operation_id request) stage input x) ->
  wp (perform self request r claim existing) M (turned r).
Proof using valid L.
  intros Hm Hs Hc Hx. destruct existing as [x|]; [by eapply wp_commit; auto|]. unfold perform. apply wp_bind, wp_lift.
  unfold input_from_request. destruct valid as (_ & _ & _ & Hp & _). rewrite payload_copy_stored by done. cbn [mbind result_bind map_err].
  apply wp_try. eapply wp_mono; [by apply wp_run_stage|]. intros M1 o Hre1 [Hm1 Ho]. assert (Hs1 : seen M1 r) by (eapply seen_reach; [apply Hm|done|done]).
  destruct o as [x|e]; [by eapply wp_commit|]. by apply wp_answered, wp_on_exception.
Qed.

Lemma input_digest_ok stage refs : exists h, _stage_input_digest request stage refs = Ok h /\ is_hex64 h = true.
Proof.
  destruct (hash_total _STAGE_INPUT_DOMAIN (input_fields request stage refs)) as [h Hh]; [reflexivity | |].
  - unfold input_fields. repeat (apply list.Forall_cons; split; [first [by eexists | eexists; apply normalize_py_strs]|]). by apply list.Forall_nil.
  - exists h. split; [exact Hh | by eapply rt_hash_hex].
Qed.

Lemma turned_later r r' M o : stage_index r <= stage_index r' -> op_pipeline_stages r = op_pipeline_stages r' -> turned r' M o -> turned r M o.
Proof. intros Hi Hst. destruct o as [[x|r2]|e]; try done. intros (? & ? & ? & ? & ?). split_and!; try done; [lia | congruence]. Qed.

Lemma wp_claim self M stage input existing r :
  ready M -> seen M r -> is_hex64 input = true ->
  (forall x, existing = Some x -> stored_for (rq_operation_id request) stage input x) ->
  wp (now ← _now;
      decision ← on_ops (claim_next request (rq_request_id request) now (lease_duration self) input
                           (max_stage_attempts self) (bool_decide (is_Some existing)));
      let record := decision_record decision in
      match decision_outcome decision, decision_claim decision with
      | Terminal, _ => answer (_response request record None None)
      | Busy, _ | _, None => answer (retry_later request record "operation_stage_busy")
      | Claimed, Some claim => perform self request record claim existing
      end) M (turned r).
Proof using valid L.
  intros Hm Hs Hi Hx. apply wp_timed; [done | done|]. intros M1 now Hre1 Hm1 Hn. apply wp_bind, wp_ops. intros s Hss.
  split; [apply rtc_once; by apply step_claim|]. intros M2 Hre2 Ho. pose proof (ready_reach _ _ Hm1 Hre2) as Hm2.
  destruct Hm1 as [Hmo1 [r1 Hr1]]. destruct (op_steps_safe _ _ (proj1 Hmo1) Hss) as [Hso Hg].
  destruct (gr_records _ _ Hg _ _ Hr1) as (r2 & Hr2 & Hev2).
  pose proof (claim_next_safe s request (rq_request_id request) now (lease_duration self) input (max_stage_attempts self)
    (bool_decide (is_Some existing)) r2 Hso Hr2 Hn) as [_ Hd].
  destruct (claim_next _ _ _ _ _ _ _ s) as [s' [d|e]]; cbn [fst snd] in *; [|by destruct Hd as [-> _]].
  destruct Hd as [Hrec Hd]. assert (Hrec' : stored_record M2 (decision_record d)) by (unfold stored_record; by rewrite Ho).
  pose proof (stored_seen _ _ (proj1 Hm2) Hrec') as Hseen.
  assert (Hs2 : seen M2 r) by (eapply seen_reach; [apply Hm | by etrans | done]).
  assert (Hst : op_pipeline_stages r = op_pipeline_stages (decision_record d)) by (by eapply seen_stages).
  destruct Hs2 as [_ (r3 & Hr3 & Hev3)]. unfold stored_record in Hr3, Hrec'. rewrite Hrec' in Hr3. injection Hr3 as <-.
  unfold decision_ok in Hd. destruct (decision_outcome d).
  - destruct Hd as [_ Ht]. by apply wp_answered, wp_final.
  - destruct Hd as (_ & Ht & _). by apply wp_answered, wp_retry.
  - destruct Hd as (c & a & -> & Hh & _ & _ & _ & _ & Hin & _).
    destruct (holds_running _ _ _ (proj1 Hseen) Hh) as (_ & Hstage & _).
    eapply wp_mono; [eapply wp_perform; [done | done | | exact Hx]|].
    + split; [eapply stage_known; [apply Hseen | done] | by rewrite Hin].
    + intros M3 o _ Hto. eapply turned_later; [apply (ev_index _ _ Hev3) | done | exact Hto].
Qed.

Lemma wp_turn self M r : ready M -> seen M r -> wp (turn self request r) M (turned r).
Proof using valid L.
  intros Hm Hs. apply wp_bind, wp_current; [done | done|]. intros M1 r1 Hre1 Hm1 Hr1 Hev1.
  pose proof (stored_seen _ _ (proj1 Hm1) Hr1) as Hs1.
  destruct (is_terminal (op_state r1)) eqn:Ht; [by apply wp_answered, wp_final|].
  pose proof (next_stage _ _ (proj1 Hs1) Ht) as Hlt. destruct (Nat.leb_spec (length (op_pipeline_stages r1)) (stage_index r1)); [lia|].
  destruct (proj2 (lookup_lt_is_Some _ _) Hlt) as [stage Hstage]. apply wp_bind, wp_lift. rewrite Hstage. cbn [of_option].
  destruct (input_digest_ok stage (stage_result_refs r1)) as (input & Hin & Hhex). apply wp_bind, wp_lift. rewrite Hin. cbn [map_err].
  apply wp_bind, wp_results. intros s Hss. destruct (result_steps_ok _ _ (proj2 (proj1 Hm1)) Hss) as [Hres _].
  destruct (get_result_ok (rq_workspace_id request) (rq_operation_id request) stage input s Hres) as (existing & -> & Hx).
  split; [done|]. intros M2 Hre2 _. cbn [snd].
  eapply wp_mono; [eapply (wp_claim self M2 stage input existing r1);
    [by eapply ready_reach | eapply seen_reach; [apply Hm1 | done | done] | done | done]|].
  intros M3 o _ Hto. eapply turned_later; [apply (ev_index _ _ Hev1) | pose proof (ev_binding _ _ Hev1) as Hb; by injection Hb | exact Hto].
Qed.

(** *** The loop *)

(** Every turn that goes on has committed a stage, so [len(stages) + 1] turns are enough. *)
Lemma wp_turns self n M r : ready M -> seen M r -> length (op_pipeline_stages r) < n + stage_index r ->
  wp (turns self n request r) M answered.
Proof using valid L.
  revert M r. induction n as [|n IH]; intros M r Hm Hs Hn.
  - pose proof (ok_index _ _ (proj1 Hs)). cbn in Hn. lia.
  - apply wp_bind. eapply wp_mono; [by apply wp_turn|]. intros M1 o _ Ho. destruct o as [[x|r1]|e]; [by apply wp_ret | | done].
    destruct Ho as (Hm1 & Hs1 & _ & Hlt & Hst). apply IH; [done | done|]. rewrite Hst. lia.
Qed.

Lemma turns_enough self n k M r : ready M -> seen M r -> length (op_pipeline_stages r) < n + stage_index r ->
  turns self (n + k) request r M = turns self n request r M.
Proof using valid L.
  revert M r. induction n as [|n IH]; intros M r Hm Hs Hn.
  - pose proof (ok_index _ _ (proj1 Hs)). cbn in Hn. lia.
  - cbn [turns Nat.add]. unfold mbind, st_bind. destruct (wp_turn self M r Hm Hs) as [_ Ho].
    destruct (turn self request r M) as [M1 [[x|r1]|e]]; [done | | done]. cbn [fst snd] in Ho.
    destruct Ho as (Hm1 & Hs1 & _ & Hlt & Hst). apply IH; [done | done|]. rewrite Hst. lia.
Qed.

(** *** [run] *)

(** The refusal of a request that became no operation. *)
Definition refusal (response : RuntimeResponse) : Prop :=
  response_valid RS_REJECTED REJECTED response /\ rs_request_id response = rq_request_id request /\
  rs_operation_id response = rq_operation_id request /\ rs_refs response = [].

Lemma wp_rejection M code : is_safe_code code = true ->
  wp (rejection request code) M (fun M' o => ops M' = ops M /\ results M' = results M /\
     match o with Ok x => refusal x /\ rs_error_code x = Some code | Err e => e = NaiveClock end).
Proof using valid L.
  intros Hc. unfold rejection, wp, _now_text, _now, clock, mbind, st_bind.
  destruct (clock_now (world M)) as [w [t|]] eqn:Ec; [|by split]. cbn [of_option mret st_ret].
  assert (Hd : dated (format_utc_timestamp (whole_second t))) by (apply dated_now, whole_second_range; by eapply clock_in_range).
  unfold contract, st_lift. set (x := {| rs_request_id := _ |}).
  assert (Hv : response_valid RS_REJECTED REJECTED x).
  { destruct valid as (Hg & Hx & Ho & _). decompose_Forall_hyps. unfold response_valid.
    cbn [x rs_request_id rs_operation_id rs_workspace_id rs_status rs_state rs_generation_id rs_refs rs_result_ref rs_retryable
      rs_error_code rs_updated_at]. split_and!; try done; [by intros ? [= <-]|]. split; [constructor|]. split; [constructor|].
    exists []. split; [done | constructor]. }
  rewrite (response_reparse _ _ _ Hv). cbn. split; [by split|]. split; [done|]. split; [done|]. by split.
Qed.

(** What a run ends with. *)
Definition run_post (stages : list string) M (o : result orch_error RuntimeResponse) : Prop :=
  match o with
  | Ok response => refusal response \/ answers M response /\ exists r, seen M r /\ op_pipeline_stages r = stages
  | Err e => allowed e
  end.

Lemma wp_registered self pipeline id type stages M :
  machine_ok M -> pipeline_post_init id type stages = Ok pipeline ->
  wp (try_except (now ← _now; on_ops (register request pipeline now))
        (fun e => match e with OperationConflict code => rejection request code | e => st_throw e end)
        (turns self (length (pl_stages pipeline) + 2) request)) M (run_post (pl_stages pipeline)).
Proof using valid L.
  intros Hm Hp. destruct (pipeline_stages_ok _ _ _ _ Hp) as [Hst _]. apply wp_try, wp_bind, wp_now; [|intros M1 _; by apply wp_throw].
  intros M1 now Hre1 _ Hn. apply wp_ops. intros s Hss. split; [apply rtc_once; by eapply step_register|]. intros M2 Hre2 Ho.
  pose proof (reach_ok _ _ Hm Hre1) as Hm1. pose proof (reach_ok _ _ Hm1 Hre2) as Hm2.
  destruct (op_steps_safe _ _ (proj1 Hm1) Hss) as [Hso _].
  destruct (register_safe s request pipeline now Hso valid Hst Hn) as (_ & He & Hok).
  destruct (register request pipeline now s).2 as [r|e].
  - destruct (Hok r eq_refl) as (Hr & _ & Hstages). assert (Hr2 : stored_record M2 r) by (unfold stored_record; by rewrite Ho).
    assert (Hrd : ready M2) by (split; [done | by exists r]). pose proof (stored_seen _ _ Hm2 Hr2) as Hs2.
    eapply wp_mono; [apply (wp_turns self _ M2 r Hrd Hs2); rewrite Hstages; lia|]. intros M3 [x|e] Hre3 Hx; [|done].
    right. split; [done|]. exists r. split; [by eapply seen_reach | done].
  - destruct (He e eq_refl) as (code & -> & Hc). eapply wp_mono; [by apply wp_rejection|].
    intros M3 [x|e] _ (_ & _ & Hx); [left; apply Hx | by subst].
Qed.
End Calls.

(** ** What a run guarantees *)
Section Runs.
Context {U : Unicode} {D : Digest} {R : JsonReader} {W : Type} {E : Surroundings W} {L : Lawful (W := W)}.
Implicit Types (M : machine W) (request : RuntimeRequest).

(** The pipelines an orchestrator was configured with passed their checks. *)
Definition built (p : PipelineDefinition) : Prop := exists id type stages, pipeline_post_init id type stages = Ok p.

Lemma pipelines_built items m : Forall built items -> Forall (fun kp => built kp.2) m ->
  Forall (fun kp : string * PipelineDefinition => built kp.2) (foldl (fun m p => assoc_set (pl_request_type p) p m) m items).
Proof.
  intros H. revert m. induction H as [|p items Hp _ IH]; intros m Hm; [done|]. cbn. apply IH. clear IH.
  induction Hm as [|[k q] m Hq Hm IHm]; cbn; [by constructor|]. destruct (String.eqb _ _); by constructor.
Qed.

Lemma configured items handler lease attempts self type p :
  orchestrator_init items handler lease attempts = Ok self -> Forall built items -> assoc type (pipelines self) = Some p -> built p.
Proof.
  unfold orchestrator_init. intros H Hi Hp. rt_steps H. injection H as <-. cbn in Hp.
  pose proof (pipelines_built items [] Hi (list.Forall_nil_2 _)) as Hb. rewrite list.Forall_forall in Hb.
  apply (Hb (type, p)). by apply assoc_Some_elem.
Qed.

Lemma run_reparse request self M : request_valid request ->
  run_request self request M =
  match assoc (rq_request_type request) (pipelines self) with
  | None => rejection request "unknown_request_type" M
  | Some pipeline =>
      try_except (now ← _now; on_ops (register request pipeline now))
        (fun e => match e with OperationConflict code => rejection request code | e => st_throw e end)
        (turns self (length (pl_stages pipeline) + 2) request) M
  end.
Proof.
  intros Hv. unfold run_request. unfold mbind at 1, st_bind. unfold contract, st_lift. rewrite request_mapping_ok by apply Hv.
  cbn [mbind result_bind]. rewrite request_reparse by done. cbn [map_err]. by destruct (assoc _ _).
Qed.

(** C26: whatever other workers, cancellations, handlers and the clock do during a run, a
    configured orchestrator keeps both stores well formed and answers a valid request with a
    response its contract accepts: the operation's stored state and committed results, or a
    refusal that holds no result.  A request type without a pipeline is refused without
    touching the stores, and a response that says completed names one result per stage of
    the pipeline, in order.  All it may raise is a lost claim, a conflicting operation, or
    an unusable clock: never a contract, key or index error. *)
Theorem run_answers items handler lease attempts self request M :
  orchestrator_init items handler lease attempts = Ok self -> Forall built items -> machine_ok M -> request_valid request ->
  let o := run_request self request M in
  machine_ok o.1 /\ reach M o.1 /\
  match o.2 with
  | Err e => allowed e
  | Ok response =>
      response_from_mapping (response_to_mapping response) = Ok response /\
      match assoc (rq_request_type request) (pipelines self) with
      | None => refusal request response /\ ops o.1 = ops M /\ results o.1 = results M
      | Some pipeline =>
          refusal request response \/
          answers request o.1 response /\
          (rs_status response = "completed" -> map ref_stage_name (rs_refs response) = pl_stages pipeline)
      end
  end.
Proof.
  intros Hinit Hb Hm Hv. cbv zeta. rewrite run_reparse by done. destruct (assoc _ _) as [pipeline|] eqn:Hp.
  - destruct (configured _ _ _ _ _ _ _ Hinit Hb Hp) as (id & type & stages & Hpl).
    destruct (wp_registered request Hv self pipeline id type stages M Hm Hpl) as [Hre Hpost]. destruct (try_except _ _ _ M) as [M1 o].
    cbn [fst snd] in *. split; [by eapply reach_ok|]. split; [done|]. destruct o as [x|e]; [|done].
    destruct Hpost as [Href|[Ha (r0 & Hs0 & Hst0)]]; [split; [by eapply response_reparse; apply Href | by left]|].
    split; [destruct Ha as (r & f & er & _ & _ & _ & Hval); by eapply response_reparse|]. right. split; [done|]. intros Hc.
    destruct Ha as (r & f & er & Hs & Hargs & -> & _). cbn [response_record rs_refs rs_status] in *.
    assert (Hcs : op_state r = COMPLETED).
    { unfold response_status in Hc. destruct Hargs as [_ Hargs].
      destruct (op_state r); cbn in Hc; try done; destruct Hargs as [[-> | ->] _]; done. }
    rewrite (completed_stages _ _ (proj1 Hs) Hcs). destruct Hs as [_ (r1 & Hr1 & Hev)].
    rewrite <- Hst0, (seen_stages _ _ _ _ Hs0 Hr1). pose proof (ev_binding _ _ Hev) as Hbd. by injection Hbd.
  - destruct (wp_rejection request Hv M "unknown_request_type" eq_refl) as (Hre & Ho & Hrs & Hx).
    split; [by eapply reach_ok|]. split; [done|]. destruct (rejection _ _ M).2 as [x|e]; [|by subst].
    split; [eapply response_reparse; apply Hx | split; [apply Hx | done]].
Qed.

(** The transition limit is never reached.  On a registered operation with [n] stages
    [n + 1] turns are enough: with any larger limit, the one of [run] included, the loop
    computes the same, and it ends with an answer or one of the permitted exceptions. *)
Theorem transition_limit_unreached self request M r k :
  machine_ok M -> request_valid request -> stored_record request M r ->
  let n := length (op_pipeline_stages r) in
  turns self (n + 1 + k) request r M = turns self (n + 1) request r M /\
  answered request (turns self (n + 1 + k) request r M).1 (turns self (n + 1 + k) request r M).2.
Proof.
  intros Hm Hv Hr. cbv zeta. assert (Hrd : ready request M) by (split; [done | by exists r]).
  pose proof (stored_seen _ _ _ Hm Hr) as Hs. rewrite (turns_enough request Hv) by (done || lia). split; [done|].
  by apply wp_turns; [| | |lia].
Qed.

Definition status_post (k : string * string) M (o : result orch_error (option RuntimeStatus)) : Prop :=
  match o with
  | Ok (Some x) => exists r, _records (ops M) !! k = Some r /\ x = status_record r /\ status_from_mapping (status_to_mapping x) = Ok x
  | Ok None => _records (ops M) !! k = None
  | Err e => e = NaiveClock
  end.

Lemma wp_status_of M k r (Q : machine W -> result orch_error (option RuntimeStatus) -> Prop) :
  machine_ok M -> _records (ops M) !! k = Some r -> Q M (Ok (Some (status_record r))) ->
  wp (s ← contract (_status r); mret (Some s)) M Q.
Proof.
  intros Hm Hr HQ. destruct (status_ok k r (proj1 (proj1 (proj1 Hm) _ _ Hr))) as [Hst _]. apply wp_bind, wp_lift. rewrite Hst. by apply wp_ret.
Qed.

Lemma wp_status ws op M : machine_ok M -> wp (status ws op) M (status_post (ws, op)).
Proof.
  intros Hm. apply wp_bind, wp_now; [|done]. intros M1 now Hre1 _ Hn. apply wp_bind, wp_ops. intros s Hss.
  pose proof (reach_ok _ _ Hm Hre1) as Hm1. destruct (op_steps_safe _ _ (proj1 Hm1) Hss) as [Hs _].
  split; [apply rtc_once; by apply step_refresh|]. intros M2 Hre2 Ho.
  destruct (refresh_safe s ws op now Hs Hn) as (_ & o & -> & Hl & _). rewrite <- Ho in Hl.
  destruct o as [r|]; [|by apply wp_ret]. eapply wp_status_of; [by eapply reach_ok | exact Hl|].
  pose proof (reach_ok _ _ Hm1 Hre2) as Hm2. exists r. split; [done|]. split; [done|].
  destruct (status_ok _ _ (proj1 (proj1 (proj1 Hm2) _ _ Hl))) as [_ Hsv]. by eapply status_reparse.
Qed.

Definition cancel_post (k : string * string) M (o : result orch_error (option RuntimeStatus)) : Prop :=
  match o with
  | Ok (Some x) => exists r, _records (ops M) !! k = Some r /\ x = status_record r /\
                     (is_terminal (op_state r) = true \/ cancellation r <> None)
  | Ok None => _records (ops M) !! k = None
  | Err e => allowed e
  end.

Lemma wp_cancel signal M : machine_ok M -> cancellation_valid signal ->
  wp (cancel signal) M (cancel_post (cs_workspace_id signal, cs_operation_id signal)).
Proof.
  intros Hm Hv. apply wp_bind, wp_lift. rewrite cancellation_reparse by done. cbn [map_err].
  apply wp_bind, wp_now; [|done]. intros M1 now Hre1 _ Hn. apply wp_bind, wp_ops. intros s Hss.
  pose proof (reach_ok _ _ Hm Hre1) as Hm1. destruct (op_steps_safe _ _ (proj1 Hm1) Hss) as [Hs _].
  split; [apply rtc_once; by apply step_cancel|]. intros M2 Hre2 Ho.
  destruct (request_cancel_safe s signal now Hs Hv Hn) as (_ & He & Hok). destruct (request_cancel signal now s).2 as [o|e].
  - destruct (Hok o eq_refl) as [Hl Hcase]. rewrite <- Ho in Hl. destruct o as [r|]; [|by apply wp_ret].
    eapply wp_status_of; [by eapply reach_ok | exact Hl|]. exists r. auto.
  - by destruct (He e eq_refl) as [-> | (code & -> & _)].
Qed.

(** C39: [status] and [cancel] answer for every state the store can be in: what they return
    is a status the contract accepts, of the stored record, and they raise only for an
    unusable clock or, [cancel], for a cancellation the operation refuses. *)
Theorem status_and_cancel_answer ws op signal M :
  machine_ok M -> cancellation_valid signal ->
  status_post (ws, op) (status ws op M).1 (status ws op M).2 /\
  cancel_post (cs_workspace_id signal, cs_operation_id signal) (cancel signal M).1 (cancel signal M).2.
Proof.
  intros Hm Hv. split; [by apply wp_status | by apply wp_cancel].
Qed.
End Runs.

(** ** A concrete orchestrator *)

Definition stage_answer (stage : string) : RuntimeStageResult :=
  {| sr_stage_name := stage; sr_payload := []; sr_disposition := CONTINUE; sr_schema_id := "phase4-stage-result-payload-v1";
     sr_provenance_refs := []; sr_error_code := None |}.

(** A clock that stands still and handlers that answer; [meddle] is what others do. *)
Definition sample_surroundings (meddle : machine unit -> machine unit) : Surroundings unit :=
  {| clock_now := fun w => (w, Some (at_second 5));
     execute := fun stage _ M => (M, Returned (raw_of (stage_answer stage)));
     others := meddle |}.

(** Someone cancels the operation again and again. *)
Definition canceller (M : machine unit) : machine unit :=
  {| ops := (request_cancel sample_signal (at_second 5) (ops M)).1; results := results M; world := world M |}.

Lemma sample_lawful meddle : (forall M, reach (U := unicode_sample) (D := pad_digest) (R := canonical_reader) M (meddle M)) ->
  Lawful (U := unicode_sample) (D := pad_digest) (R := canonical_reader) (E := sample_surroundings meddle).
Proof. intros H. constructor; [by intros w w' t [= <- <-]; apply sample_in_range | done | done]. Qed.

Lemma canceller_reach M : reach (U := unicode_sample) (D := pad_digest) (R := canonical_reader) M (canceller M).
Proof.
  split; [|done]. apply rtc_once. apply step_cancel; [|by apply sample_in_range].
  exact (cancellation_from_valid (U := unicode_sample) (D := pad_digest) _ _ sample_signal_accepted).
Qed.

Definition sample_orchestrator : RuntimeOrchestrator :=
  {| pipelines := [("recall", sample_pipeline)]; lease_duration := 30 * SECOND; max_stage_attempts := 3 |}.

Example sample_configured : orchestrator_init [sample_pipeline] Some (30 * SECOND) 3 = Ok sample_orchestrator.
Proof. vm_compute. reflexivity. Qed.

Lemma pipeline_built : Forall (built (U := unicode_sample)) [sample_pipeline].
Proof. constructor; [|constructor]. exists "recall", "recall", ["planned"; "retrieved"]. vm_compute. reflexivity. Qed.

Definition sample_machine : machine unit := {| ops := empty_operations; results := empty_results; world := tt |}.

Lemma sample_machine_ok : machine_ok (U := unicode_sample) (D := pad_digest) (R := canonical_reader) sample_machine.
Proof. split; [apply empty_ok | apply empty_results_ok]. Qed.

Lemma sample_r1_valid : request_valid (U := unicode_sample) (D := pad_digest) sample_r1.
Proof.
  exact (request_from_valid (U := unicode_sample) (D := pad_digest) (R := canonical_reader) _ _ (proj1 (proj2 (proj2 sample_accepted)))).
Qed.

Definition sample_run (meddle : machine unit -> machine unit) : run RuntimeResponse (W := unit) :=
  run_request (U := unicode_sample) (D := pad_digest) (R := canonical_reader) (E := sample_surroundings meddle) sample_orchestrator sample_r1.

Lemma run_answers_witness :
  match (sample_run canceller sample_machine).2 with
  | Err e => allowed e
  | Ok response => response_from_mapping (U := unicode_sample) (D := pad_digest) (response_to_mapping response) = Ok response
  end.
Proof.
  destruct (run_answers (U := unicode_sample) (D := pad_digest) (R := canonical_reader) (E := sample_surroundings canceller)
    (L := sample_lawful canceller canceller_reach) [sample_pipeline] Some (30 * SECOND) 3 sample_orchestrator sample_r1 sample_machine
    sample_configured pipeline_built sample_machine_ok sample_r1_valid) as (_ & _ & H).
  unfold sample_run. destruct (run_request _ _ _).2; [apply H | exact H].
Defined.

Definition registered_machine : machine unit := {| ops := sample_registered; results := empty_results; world := tt |}.

Lemma registered_machine_ok : machine_ok (U := unicode_sample) (D := pad_digest) (R := canonical_reader) registered_machine.
Proof. split; [apply reachable_ok, sample_registered_reachable | apply empty_results_ok]. Qed.

Lemma transition_limit_unreached_witness :
  let record := new_record sample_r1 sample_pipeline (at_second 1) in
  turns (U := unicode_sample) (D := pad_digest) (R := canonical_reader) (E := sample_surroundings canceller) sample_orchestrator 4 sample_r1
    record registered_machine =
  turns (U := unicode_sample) (D := pad_digest) (R := canonical_reader) (E := sample_surroundings canceller) sample_orchestrator 3 sample_r1
    record registered_machine.
Proof.
  exact (proj1 (transition_limit_unreached (U := unicode_sample) (D := pad_digest) (R := canonical_reader)
    (E := sample_surroundings canceller) (L := sample_lawful canceller canceller_reach) sample_orchestrator sample_r1 registered_machine
    (new_record sample_r1 sample_pipeline (at_second 1)) 1 registered_machine_ok sample_r1_valid eq_refl)).
Defined.

Lemma status_and_cancel_answer_witness :
  status_post (U := unicode_sample) (D := pad_digest) ("ws", rq_operation_id sample_r1)
    (status (U := unicode_sample) (D := pad_digest) (E := sample_surroundings canceller) "ws" (rq_operation_id sample_r1) registered_machine).1
    (status (U := unicode_sample) (D := pad_digest) (E := sample_surroundings canceller) "ws" (rq_operation_id sample_r1) registered_machine).2.
Proof.
  exact (proj1 (status_and_cancel_answer (U := unicode_sample) (D := pad_digest) (R := canonical_reader) (E := sample_surroundings canceller)
    (L := sample_lawful canceller canceller_reach) "ws" (rq_operation_id sample_r1) sample_signal registered_machine registered_machine_ok
    (cancellation_from_valid (U := unicode_sample) (D := pad_digest) _ _ sample_signal_accepted))).
Defined.
