(* ===== verification/RunAlone.v ===== *)
(** * A run nobody disturbs completes

    Orchestrator.v shows what a run guarantees under any interference; here the run has the
    stores to itself, its clock stays before the deadline and within one lease, and its
    handlers return a result to go on with: [run] then answers completed, with one result
    per stage. *)
From S2P Require Import Prelude Digest Json Canonical Hashing Contracts Timestamps RuntimeContracts OperationStore StageResults Orchestrator.
Open Scope string_scope.

Section Alone.
Context {U : Unicode} {D : Digest} {R : JsonReader} {W : Type} {E : Surroundings W}.
Context (request : RuntimeRequest) (valid : request_valid request) (self : RuntimeOrchestrator).
Context (start stop deadline : Z).
Implicit Types (M : machine W) (r : OperationRecord) (w : W).

(** Only this run acts, from [start] until before [stop]. *)
Class Calm : Prop := {
  calm_others : forall M, others M = M;
  calm_clock : forall w, exists w' t, clock_now w = (w', Some t) /\ (start <= t < stop)%Z;
  calm_execute : forall stage context M, str_mem stage stage_names = true -> exists w' raw result,
    execute stage context M = ({| ops := ops M; results := results M; world := w' |}, Returned raw) /\
    stage_result_post_init raw = Ok result /\ sr_stage_name result = stage /\ sr_disposition result = CONTINUE /\ good (sr_schema_id result);
}.

(** The time a run may take. *)
Record in_time : Prop := {
  time_start : (0 <= start)%Z /\ (start mod SECOND = 0)%Z;
  time_lease : (0 < lease_duration self)%Z /\ (stop <= start + lease_duration self)%Z;
  time_range : in_range (stop + lease_duration self);
  time_deadline : parse_utc_timestamp (rq_deadline_at request) = Some deadline /\ (stop <= deadline)%Z;
  time_attempts : 0 < max_stage_attempts self;
}.
Context {C : Calm} (T : in_time).

Definition at_world w M : machine W := {| ops := ops M; results := results M; world := w |}.
Definition with_ops (s : InMemoryOperationStore) M : machine W := {| ops := s; results := results M; world := world M |}.
Definition with_results (s : InMemoryStageResultStore) M : machine W := {| ops := ops M; results := s; world := world M |}.

Lemma bind_eq {X A B} (m : st (machine W) X A) (f : A -> st (machine W) X B) M M' a : m M = (M', Ok a) -> (m ≫= f) M = f a M'.
Proof. unfold mbind, st_bind. by intros ->. Qed.

Lemma try_eq {A B} (m : attempt A) (f : A -> attempt B) M M' a : m M = (M', Ok a) -> mbind (M := attempt) f m M = f a M'.
Proof. exact (bind_eq m f M M' a). Qed.

Lemma run_eq {A B} (m : run A) (f : A -> run B) M M' a : m M = (M', Ok a) -> mbind (M := run) f m M = f a M'.
Proof. exact (bind_eq m f M M' a). Qed.

Lemma on_ops_calm {A} (m : method A) M s a : m (ops M) = (s, Ok a) -> on_ops m M = (with_ops s M, Ok a).
Proof using C. intros H. unfold on_ops. by rewrite calm_others, H. Qed.

Lemma on_results_calm {A} (m : result_method A) M s a : m (results M) = (s, Ok a) -> on_results m M = (with_results s M, Ok a).
Proof using C. intros H. unfold on_results. by rewrite calm_others, H. Qed.

Definition timely (t : Z) : Prop := (start <= t < stop)%Z.

Lemma clock_calm M : exists w t, clock M = (at_world w M, Ok t) /\ timely t.
Proof using C. unfold clock. destruct (calm_clock (world M)) as (w & t & -> & Ht). by exists w, t. Qed.

Lemma timely_range t : timely t -> in_range t.
Proof using T. destruct T as [[? _] [? _] [_ ?] _ _]. unfold timely, in_range in *. lia. Qed.

Lemma timely_second t : timely t -> timely (whole_second t).
Proof using T.
  intros [H1 H2]. destruct T as [[_ Hm] _ _ _ _]. unfold timely, whole_second. pose proof (Z.mod_pos_bound t SECOND ltac:(done)).
  pose proof (Z.div_mod t SECOND ltac:(done)). pose proof (Z.div_mod start SECOND ltac:(done)).
  pose proof (Z.div_le_mono start t SECOND ltac:(done) H1). unfold SECOND in *. lia.
Qed.

Lemma now_calm M : exists w t, _now M = (at_world w M, Ok t) /\ timely t.
Proof using C T.
  destruct (clock_calm M) as (w & t & Hc & Ht). exists w, (whole_second t). split; [|by apply timely_second].
  unfold _now. by rewrite (bind_eq _ _ _ _ _ Hc).
Qed.

Lemma now_text_calm M : exists w s, _now_text M = (at_world w M, Ok s) /\ dated s.
Proof using C T.
  destruct (now_calm M) as (w & t & Hn & Ht). exists w, (format_utc_timestamp t). split; [|by apply dated_now, timely_range].
  unfold _now_text. by rewrite (bind_eq _ _ _ _ _ Hn).
Qed.

Lemma trying_ok {A} (m : run A) M M' a : m M = (M', Ok a) -> trying m M = (M', Ok a).
Proof. unfold trying. by intros ->. Qed.

Lemma checkpoint_calm M r : stored_record request M r -> cancellation r = None -> exists w, checkpoint request M = (at_world w M, Ok tt).
Proof using C T.
  intros Hr Hc. unfold checkpoint. erewrite bind_eq; [|apply trying_ok, on_ops_calm; reflexivity].
  replace (rq_workspace_id request, rq_operation_id request) with (key_of request) by done. rewrite Hr, Hc.
  rewrite bool_decide_false by auto. cbn [negb ensure st_lift]. erewrite bind_eq; [|reflexivity].
  set (M1 := with_ops _ M). destruct (clock_calm M1) as (w & t & Hcl & [_ Ht]). exists w.
  erewrite bind_eq; [|by apply trying_ok]. destruct T as [_ _ _ [Hd Hle] _].
  erewrite bind_eq; [|apply trying_ok; unfold instant_of, st_lift; by rewrite Hd]. unfold st_lift.
  rewrite (proj2 (Z.ltb_lt t deadline)) by lia. by destruct M.
Qed.

(** The handler's result is recorded. *)
Lemma run_stage_calm M r claim context :
  stored_record request M r -> cancellation r = None -> claim_good claim -> ctx_stage_name context = claim_stage_name claim ->
  _results (results M) !! results_key (rq_workspace_id request) (rq_operation_id request) (claim_stage_name claim) (claim_input_digest claim) = None ->
  exists w p x, run_stage request r claim context M =
      ({| ops := ops M; results := {| _results := <[results_key (rq_workspace_id request) (rq_operation_id request) (claim_stage_name claim)
           (claim_input_digest claim) := p]> (_results (results M)) |}; world := w |}, Ok x) /\
    stored_for (rq_operation_id request) (claim_stage_name claim) (claim_input_digest claim) x /\
    sr_disposition (stored_result x) = CONTINUE /\ sr_error_code (stored_result x) = None /\
    (results_ok (results M) -> results_ok {| _results := <[results_key (rq_workspace_id request) (rq_operation_id request)
       (claim_stage_name claim) (claim_input_digest claim) := p]> (_results (results M)) |}).
Proof using C T valid.
  intros Hr Hc [Hst Hi] Hctx Hfresh.
  destruct (checkpoint_calm M r Hr Hc) as [w1 H1].
  destruct (calm_execute (claim_stage_name claim) context (at_world w1 M) Hst) as (w2 & raw & res & He & Hpi & Hn & Hd & Hg).
  assert (Hh : handle context (at_world w1 M) = (at_world w2 M, Ok (Returned raw))) by (unfold handle; by rewrite Hctx, He).
  destruct (checkpoint_calm (at_world w2 M) r Hr Hc) as [w3 H3].
  destruct (now_text_calm (at_world w3 (at_world w2 M))) as (w4 & created & H4 & Hdate).
  pose proof (post_init_valid _ _ Hpi) as Hv. rewrite <- Hn in Hfresh |- *.
  assert (Ha : put_args (rq_operation_id request) (claim_input_digest claim) res created) by (destruct valid as (_ & Hx & _); by split_and!).
  destruct (put_once_fresh (rq_workspace_id request) _ _ _ _ (results M) Ha Hg Hfresh) as (p & x & Hput & Hfor & Hres).
  exists w4, p, x. split; [|split; [done|]].
  - unfold run_stage. rewrite (bind_eq _ _ _ _ _ H1), (bind_eq _ _ _ _ _ Hh), (bind_eq _ _ _ _ _ H3).
    set (M3 := at_world w3 _) in *.
    assert (Hp : trying (contract (stage_result_post_init raw)) M3 = (M3, Ok res)) by (unfold trying, contract, st_lift; by rewrite Hpi).
    transitivity (trying (on_results (put_once (rq_workspace_id request) (rq_operation_id request) (claim_input_digest claim) res created))
      (at_world w4 M3)).
    + rewrite (try_eq (st_lift (Ok raw)) _ M3 M3 raw eq_refl), (try_eq _ _ _ _ _ Hp), Hn, String.eqb_refl, Hd.
      rewrite (try_eq (st_lift (ensure true _)) _ M3 M3 tt eq_refl), bool_decide_false by done.
      rewrite (try_eq (st_lift (ensure (negb (false && _)) _)) _ M3 M3 tt eq_refl). by rewrite (try_eq _ _ _ _ _ (trying_ok _ _ _ _ H4)).
    + rewrite (trying_ok _ _ _ _ (on_results_calm _ (at_world w4 M3) _ _ Hput)). by rewrite Hn.
  - rewrite Hres. split; [done|]. split; [destruct Hv as (_ & _ & _ & _ & _ & Hiff); apply Hiff; by rewrite Hd|].
    intros Hro. pose proof (put_once_ok (rq_workspace_id request) _ _ _ _ _ Hro Ha) as [Hok _]. by rewrite Hput in Hok.
Qed.

(** The operation is at [stage], without a worker, and nothing is recorded of what follows. *)
Record alone M r stage : Prop := {
  alone_ok : machine_ok M;
  alone_record : stored_record request M r;
  alone_free : free_record (key_of request) r stage deadline;
  alone_attempts : forall i s, stage_index r <= i -> op_pipeline_stages r !! i = Some s -> attempt_for r s = 0;
  alone_results : forall i s input, stage_index r <= i -> op_pipeline_stages r !! i = Some s ->
    _results (results M) !! results_key (rq_workspace_id request) (rq_operation_id request) s input = None;
}.

Lemma current_calm M r : stored_record request M r -> current request r M = (M, Ok r).
Proof using C.
  intros Hr. unfold current.
  assert (Hg : on_ops (get (rq_workspace_id request) (rq_operation_id request)) M = (M, Ok (Some r))).
  { rewrite (on_ops_calm _ M (ops M) (Some r)); [by destruct M|]. unfold get. by rewrite <- Hr. }
  by rewrite (run_eq _ _ _ _ _ Hg).
Qed.

Lemma response_calm M r : record_ok (key_of request) r -> is_terminal (op_state r) = true ->
  _response request r None None M = (M, Ok (response_record request r None None)).
Proof using valid.
  intros Hok Ht. pose proof (response_ok request _ r None None Hok valid eq_refl (terminal_args r Ht)) as Hv.
  unfold _response, contract, st_lift. by rewrite (response_reparse _ _ _ Hv).
Qed.

(** The record a turn leaves. *)
Record advanced M r stage M' r' : Prop := {
  adv_ok : machine_ok M';
  adv_record : stored_record request M' r';
  adv_index : stage_index r' = S (stage_index r);
  adv_stages : op_pipeline_stages r' = op_pipeline_stages r;
  adv_deadline : op_deadline_at r' = op_deadline_at r;
  adv_worker : active_claim r' = None;
  adv_cancellation : cancellation r' = None;
  adv_state : op_state r' = COMPLETED /\ length (op_pipeline_stages r) <= S (stage_index r) \/
              is_terminal (op_state r') = false /\ S (stage_index r) < length (op_pipeline_stages r);
  adv_attempts : forall s, s <> stage -> attempt_for r' s = attempt_for r s;
  adv_results : forall s input, s <> stage ->
    _results (results M') !! results_key (rq_workspace_id request) (rq_operation_id request) s input =
    _results (results M) !! results_key (rq_workspace_id request) (rq_operation_id request) s input;
}.

Lemma advanced_alone M r stage M' r' : alone M r stage -> advanced M r stage M' r' -> is_terminal (op_state r') = false ->
  exists stage', alone M' r' stage'.
Proof.
  intros [Hm Hr Hf Hatt Hres] [Hm' Hr' Hi Hst Hd Hw Hc Hs Hatt' Hres'] Ht. destruct Hs as [[Hs _]|[_ Hlt]]; [by rewrite Hs in Ht|].
  destruct (proj2 (lookup_lt_is_Some _ _) Hlt) as [stage' Hstage]. exists stage'.
  pose proof (proj1 (proj1 (proj1 Hm') _ _ Hr')) as Hok'.
  assert (Hne : forall i s, stage_index r' <= i -> op_pipeline_stages r' !! i = Some s -> s <> stage).
  { intros i s Hle Hi' ->. rewrite Hst in Hi'.
    pose proof (stages_unique _ _ _ _ (ok_stages _ _ (free_ok _ _ _ _ Hf)) Hi' (free_stage _ _ _ _ Hf)). lia. }
  constructor; [done | done | | |].
  - constructor; try done; [by rewrite Hi, Hst | rewrite Hd; apply (free_deadline _ _ _ _ Hf)].
  - intros i s Hle Hs'. rewrite (Hatt' s (Hne _ _ Hle Hs')). eapply Hatt; [|by rewrite <- Hst]. lia.
  - intros i s input Hle Hs'. rewrite (Hres' s input (Hne _ _ Hle Hs')). eapply (Hres i); [lia | by rewrite <- Hst].
Qed.

(** The result of a stage that was run is committed. *)
Lemma commit_calm M r1 claim a x :
  machine_ok M -> stored_record request M r1 -> holds r1 claim -> active_claim r1 = Some a -> cancellation r1 = None ->
  (stop <= lease_expires_at a)%Z -> parse_utc_timestamp (op_deadline_at r1) = Some deadline ->
  stored_for (rq_operation_id request) (claim_stage_name claim) (claim_input_digest claim) x ->
  sr_disposition (stored_result x) = CONTINUE -> sr_error_code (stored_result x) = None ->
  exists w r' out now, r' = committed_record r1 (stored_ref x) out now /\
    (out.1 = COMPLETED /\ length (op_pipeline_stages r1) <= S (stage_index r1) \/
     is_terminal out.1 = false /\ S (stage_index r1) < length (op_pipeline_stages r1)) /\
    let M' := with_ops (put_record (key_of request) r' (ops M)) (at_world w M) in
    machine_ok M' /\
    commit request r1 claim x M =
      (if is_terminal (op_state r') then answer (_response request r' None None) M' else (M', Ok (inr r'))).
Proof using C T.
  intros Hm Hr Hh Ha Hc Hlease Hd (Hv & Hrv & Ho & Hs & _ & Hi) Hdisp Herr.
  destruct (now_calm M) as (w & now & Hn & Ht). pose proof (proj1 (proj1 (proj1 Hm) _ _ Hr)) as Hok.
  assert (Hstage : str_mem (ref_stage_name (stored_ref x)) stage_names = true) by apply Hv.
  destruct (stage_state_some _ Hstage) as [state Hstate]. destruct (stage_state_running _ _ Hstage Hstate) as (_ & Hrun & _).
  destruct T as [_ _ _ [_ Hsd] _]. unfold timely in Ht.
  pose proof (commit_free (ops M) request r1 claim a (stored_ref x) state now deadline Hr Hok Ha Hh Hc ltac:(lia) Hd ltac:(lia) Ho Hs Hi Hstate)
    as Hcommit. cbv zeta in Hcommit.
  set (out := if (length (op_pipeline_stages r1) <=? S (stage_index r1))%nat then (COMPLETED, None) else (state, None)) in *.
  exists w, (committed_record r1 (stored_ref x) out now), out, now. split; [done|]. split; [|split].
  - unfold out. destruct (Nat.leb_spec (length (op_pipeline_stages r1)) (S (stage_index r1))); cbn; auto.
  - split; [|apply Hm]. cbn [ops with_ops at_world].
    assert (Hstep : op_step (ops M) (commit_stage request claim (stored_ref x) CONTINUE None now (ops M)).1).
    { eapply step_use, use_commit; [by apply timely_range | done | done]. }
    rewrite Hcommit in Hstep. exact (proj1 (op_step_safe _ _ (proj1 Hm) Hstep)).
  - unfold commit, unless_lost, try_except. rewrite (run_eq _ _ _ _ _ Hn), Hdisp, Herr.
    rewrite (on_ops_calm _ (at_world w M) _ _ Hcommit). by destruct (is_terminal (op_state (committed_record r1 (stored_ref x) out now))).
Qed.

(** The claimed stage is run and committed. *)
Lemma perform_calm M r stage input token now lease :
  alone M r stage -> is_hex64 input = true -> timely now -> (stop <= lease)%Z ->
  let n := S (attempt_for r stage) in
  let a := granted_claim token (rq_request_id request) stage n lease input in
  let r1 := granted_record r stage n a now in
  let M1 := with_ops (put_record (key_of request) r1 (ops M)) M in
  machine_ok M1 ->
  exists M' r', advanced M r stage M' r' /\
    perform self request r1 {| claim_token := token; claim_stage_name := stage; claim_attempt := n; claim_input_digest := input |} None M1 =
    (if is_terminal (op_state r') then answer (_response request r' None None) M' else (M', Ok (inr r'))).
Proof using C T valid.
  intros [Hm Hr Hf Hatt Hres] Hhex Hnow Hlease. cbv zeta. set (a := granted_claim _ _ _ _ _ _). set (r1 := granted_record _ _ _ _ _).
  set (claim := {| claim_token := _ |}). set (M1 := with_ops _ M). intros Hm1.
  assert (Hr1 : stored_record request M1 r1) by (unfold stored_record; cbn; by rewrite lookup_insert_eq).
  assert (Hh : holds r1 claim) by (by exists a).
  assert (Hgood : claim_good claim).
  { split; [|done]. eapply stage_known; [apply (free_ok _ _ _ _ Hf) | apply (free_stage _ _ _ _ Hf)]. }
  assert (Hfresh : forall input', _results (results M1) !! results_key (rq_workspace_id request) (rq_operation_id request) stage input' = None).
  { intros input'. eapply (Hres (stage_index r)); [done | apply (free_stage _ _ _ _ Hf)]. }
  unfold perform. assert (Hin : exists i, input_from_request request = Ok i).
  { unfold input_from_request. rewrite payload_copy_stored by apply valid. eexists. reflexivity. }
  destruct Hin as [i Hin]. set (context := {| ctx_request := i; ctx_stage_name := claim_stage_name claim; ctx_previous_refs := stage_result_refs r1;
    ctx_input_digest := claim_input_digest claim; ctx_attempt := str_of_nat (claim_attempt claim) |}).
  destruct (run_stage_calm M1 r1 claim context Hr1 (free_cancellation _ _ _ _ Hf) Hgood eq_refl (Hfresh _))
    as (w & p & x & Hrun & Hfor & Hdisp & Herr & Hrok).
  set (M2 := {| ops := ops M1; world := w |}) in Hrun.
  assert (Hm2 : machine_ok M2) by (split; [apply Hm1 | apply Hrok, Hm1]).
  destruct (commit_calm M2 r1 claim a x Hm2 Hr1 Hh eq_refl (free_cancellation _ _ _ _ Hf) Hlease (free_deadline _ _ _ _ Hf) Hfor Hdisp Herr)
    as (w3 & r' & out & now' & -> & Hout & Hm3 & Hcommit).
  eexists _, _. split; cycle 1.
  - erewrite run_eq; [|unfold contract, st_lift; by rewrite Hin]. unfold try_except. fold context. rewrite Hrun. exact Hcommit.
  - constructor; try done; [unfold stored_record; cbn; by rewrite lookup_insert_eq | | |].
    + exact (free_cancellation _ _ _ _ Hf).
    + intros s Hs. change (attempt_for (with_attempt r stage (S (attempt_for r stage))) s = attempt_for r s).
      rewrite attempt_with_attempt by apply (ok_attempts _ _ (free_ok _ _ _ _ Hf)). by rewrite decide_False.
    + intros s input' Hs. cbn. apply lookup_insert_ne. unfold results_key. congruence.
Qed.

Lemma turn_calm M r stage : alone M r stage ->
  exists M' r', advanced M r stage M' r' /\
    turn self request r M = (if is_terminal (op_state r') then answer (_response request r' None None) M' else (M', Ok (inr r'))).
Proof using C T valid.
  intros H. pose proof H as [Hm Hr Hf Hatt Hres]. pose proof (free_stage _ _ _ _ Hf) as Hstage.
  pose proof (lookup_lt_Some _ _ _ Hstage) as Hlt.
  destruct (input_digest_ok request stage (stage_result_refs r)) as (input & Hin & Hhex).
  destruct (now_calm M) as (w & now & Hn & Ht). pose proof T as [_ [Hl Hsl] Hrange [_ Hsd] Hmax].
  unfold timely in Ht. assert (Hu : add_delta now (lease_duration self) = Some (now + lease_duration self)%Z).
  { unfold add_delta. rewrite decide_True; [done|]. destruct T as [[H0 _] _ _ _ _]. unfold in_range in *. lia. }
  assert (Hatt1 : attempt_for r stage < max_stage_attempts self) by (rewrite (Hatt _ _ (Nat.le_refl _) Hstage); done).
  destruct (claim_next_free (ops M) request (rq_request_id request) now (lease_duration self) input (max_stage_attempts self) false
    r stage deadline _ Hr Hf ltac:(lia) Hatt1 Hu) as [token Hclaim]. cbv zeta in Hclaim.
  assert (Hm1 : machine_ok (with_ops (claim_next request (rq_request_id request) now (lease_duration self) input
    (max_stage_attempts self) false (ops M)).1 (at_world w M))).
  { split; [|apply Hm]. apply (op_step_safe (ops M)); [apply Hm|]. by apply step_claim, timely_range. }
  rewrite Hclaim in Hm1. cbn [fst] in Hm1.
  assert (Halone : alone (at_world w M) r stage) by (by destruct H).
  destruct (perform_calm (at_world w M) r stage input token now (Z.min deadline (now + lease_duration self)) Halone Hhex Ht ltac:(lia) Hm1)
    as (M' & r' & Hadv & Hper).
  exists M', r'. split; [by destruct Hadv|]. unfold turn. rewrite (run_eq _ _ _ _ _ (current_calm M r Hr)).
  rewrite (free_running _ _ _ _ Hf), (proj2 (Nat.leb_gt _ _) Hlt), Hstage.
  rewrite (run_eq (st_lift (of_option OrchIndexError (Some stage))) _ M M stage eq_refl).
  rewrite (run_eq (contract (_stage_input_digest request stage (stage_result_refs r))) _ M M input)
    by (unfold contract, st_lift; by rewrite Hin).
  assert (Hget : on_results (get_result (rq_workspace_id request) (rq_operation_id request) stage input) M = (M, Ok None)).
  { rewrite (on_results_calm _ M (results M) None); [by destruct M|]. unfold get_result. by rewrite (Hres _ _ _ (Nat.le_refl _) Hstage). }
  rewrite (run_eq _ _ _ _ _ Hget), (run_eq _ _ _ _ _ Hn), bool_decide_false by (by intros [? ?]).
  rewrite (run_eq _ _ _ _ _ (on_ops_calm _ (at_world w M) _ _ Hclaim)). exact Hper.
Qed.

Lemma turns_calm n M r stage : alone M r stage -> length (op_pipeline_stages r) <= n + stage_index r ->
  exists M' r', turns self n request r M = (M', Ok (response_record request r' None None)) /\ machine_ok M' /\
    stored_record request M' r' /\ op_state r' = COMPLETED /\ op_pipeline_stages r' = op_pipeline_stages r.
Proof using C T valid.
  revert M r stage. induction n as [|n IH]; intros M r stage H Hn.
  - pose proof (lookup_lt_Some _ _ _ (free_stage _ _ _ _ (alone_free _ _ _ H))). cbn in Hn. lia.
  - destruct (turn_calm M r stage H) as (M1 & r1 & Hadv & Hturn). cbn [turns].
    pose proof (proj1 (proj1 (proj1 (adv_ok _ _ _ _ _ Hadv)) _ _ (adv_record _ _ _ _ _ Hadv))) as Hok1.
    destruct (is_terminal (op_state r1)) eqn:Ht.
    + unfold answer in Hturn. rewrite (run_eq _ _ _ _ _ (response_calm M1 r1 Hok1 Ht)) in Hturn. rewrite (run_eq _ _ _ _ _ Hturn).
      exists M1, r1. split; [done|]. split; [by apply Hadv|]. split; [by apply Hadv|]. split; [|by apply Hadv].
      destruct (adv_state _ _ _ _ _ Hadv) as [[? _]|[? _]]; [done | congruence].
    + rewrite (run_eq _ _ _ _ _ Hturn). destruct (advanced_alone _ _ _ _ _ H Hadv Ht) as [stage1 H1].
      destruct (IH M1 r1 stage1 H1) as (M2 & r2 & Hrun & Hm2 & Hr2 & Hs2 & Hst2).
      { rewrite (adv_stages _ _ _ _ _ Hadv), (adv_index _ _ _ _ _ Hadv). lia. }
      exists M2, r2. rewrite Hst2. split_and!; try done. by apply Hadv.
Qed.

(** Nothing is known of the operation yet. *)
Record unknown M : Prop := {
  no_record : _records (ops M) !! key_of request = None;
  no_key : _idempotency (ops M) !! (rq_workspace_id request, rq_idempotency_key request) = None;
  no_result : forall stage input,
    _results (results M) !! results_key (rq_workspace_id request) (rq_operation_id request) stage input = None;
}.

Lemma register_calm M pipeline id type stages :
  machine_ok M -> unknown M -> pipeline_post_init id type stages = Ok pipeline ->
  exists M' r, (now ← _now; on_ops (register request pipeline now)) M = (M', Ok r) /\ op_pipeline_stages r = pl_stages pipeline /\
    stage_index r = 0 /\ exists stage, alone M' r stage.
Proof using C T valid.
  intros Hm [Hr Hk Hres] Hp. destruct (pipeline_stages_ok _ _ _ _ Hp) as [[Hhead _] _]. destruct (now_calm M) as (w & now & Hn & Ht).
  set (r := new_record request pipeline now).
  assert (Hreg : register request pipeline now (ops M) =
    ({| _records := <[key_of request := r]> (_records (ops M));
        _idempotency := <[(rq_workspace_id request, rq_idempotency_key request) := rq_operation_id request]> (_idempotency (ops M)) |}, Ok r)).
  { unfold register. by rewrite Hk, Hr. }
  assert (Hstep : op_step (ops M) (register request pipeline now (ops M)).1) by (eapply step_register; [done | done | by apply timely_range]).
  apply (op_step_safe _ _ (proj1 Hm)) in Hstep as [Hso _]. rewrite Hreg in Hso. cbn [fst] in Hso.
  eexists _, r. split; [rewrite (run_eq _ _ _ _ _ Hn); by apply (on_ops_calm _ (at_world w M)); exact Hreg|].
  split; [done|]. split; [done|]. exists "planned".
  assert (Hst : _records (ops (with_ops {| _records := <[key_of request := r]> (_records (ops M));
      _idempotency := <[(rq_workspace_id request, rq_idempotency_key request) := rq_operation_id request]> (_idempotency (ops M)) |}
      (at_world w M))) !! key_of request = Some r) by (cbn; apply lookup_insert_eq).
  constructor; [by split; [|apply Hm] | exact Hst | | by intros | by intros i s input _ _; apply Hres].
  constructor; try done; [exact (proj1 (proj1 Hso _ _ Hst)) | cbn; by rewrite <- head_lookup | by destruct T as [_ _ _ [? _] _]].
Qed.

(** C25: a run nobody disturbs completes.  A valid request of a configured type that is not
    known yet, run with the stores to itself, a clock that stays before the deadline and
    within one lease, and handlers that return a valid result to go on with, is answered
    with completed: the stored operation is complete and the response names one committed
    result per stage of the pipeline, in order. *)
Theorem run_alone_completes items handler lease attempts pipeline M :
  orchestrator_init items handler lease attempts = Ok self -> Forall built items ->
  assoc (rq_request_type request) (pipelines self) = Some pipeline -> machine_ok M -> unknown M ->
  exists M' r response, run_request self request M = (M', Ok response) /\ machine_ok M' /\
    stored_record request M' r /\ op_state r = COMPLETED /\
    rs_status response = "completed" /\ rs_refs response = stage_result_refs r /\
    map ref_stage_name (rs_refs response) = pl_stages pipeline.
Proof using C T valid.
  intros Hinit Hb Hp Hm Hnew. destruct (configured _ _ _ _ _ _ _ Hinit Hb Hp) as (id & type & stages & Hpl).
  rewrite run_reparse, Hp by done. destruct (register_calm M pipeline id type stages Hm Hnew Hpl) as (M1 & r & Hreg & Hst & Hi & stage & Ha).
  unfold try_except. rewrite Hreg.
  destruct (turns_calm (length (pl_stages pipeline) + 2) M1 r stage Ha) as (M2 & r2 & Hrun & Hm2 & Hr2 & Hs2 & Hst2); [rewrite Hst, Hi; lia|].
  exists M2, r2, (response_record request r2 None None). split; [done|]. split; [done|]. split; [done|]. split; [done|].
  cbn [response_record rs_status rs_refs]. split; [unfold response_status; by rewrite Hs2|]. split; [done|].
  rewrite (completed_stages _ _ (proj1 (proj1 (proj1 Hm2) _ _ Hr2)) Hs2). congruence.
Qed.
End Alone.

(** ** A concrete run *)

Lemma stage_answer_valid stage : str_mem stage stage_names = true -> result_valid (U := unicode_sample) (stage_answer stage).
Proof. intros H. split; [done|]. split; [done|]. split; [done|]. split; [split; [done | constructor]|]. split; [by intros ? [=] | done]. Qed.

Lemma sample_calm : Calm (U := unicode_sample) (R := canonical_reader) (E := sample_surroundings id) (at_second 5) (at_second 6).
Proof.
  constructor; [done | intros []; exists tt, (at_second 5); split; [done | unfold at_second, SECOND; lia]|].
  intros stage context M H. exists (world M), (raw_of (stage_answer stage)), (stage_answer stage). split; [by destruct M|].
  split; [apply post_init_raw; [by apply stage_answer_valid | by split]|]. split; [done|]. split; [done | by split].
Qed.

Lemma sample_in_time : in_time sample_r1 sample_orchestrator (at_second 5) (at_second 6) (at_second 600).
Proof.
  constructor; [by split | by split | by apply (sample_in_range 36) | | cbn; lia].
  split; [vm_compute; reflexivity | unfold at_second, SECOND; lia].
Qed.

Lemma run_alone_completes_witness :
  exists response, (sample_run id sample_machine).2 = Ok response /\ rs_status response = "completed" /\
    map ref_stage_name (rs_refs response) = ["planned"; "retrieved"].
Proof.
  destruct (run_alone_completes (U := unicode_sample) (D := pad_digest) (R := canonical_reader) (E := sample_surroundings id) (C := sample_calm)
    sample_r1 sample_r1_valid sample_orchestrator (at_second 5) (at_second 6) (at_second 600) sample_in_time [sample_pipeline] Some
    (30 * SECOND) 3 sample_pipeline sample_machine sample_configured pipeline_built eq_refl sample_machine_ok) as (M' & r & x & Hrun & _ & _ & _ & Hs & _ & Hn);
    [by split|].
  exists x. unfold sample_run. split; [exact (f_equal snd Hrun) | split; [exact Hs | exact Hn]].
Defined.

