(* ===== verification/OperabilityContracts.v ===== *)
(** * The records of operability (memory_core/operability.py)

    Values and timestamps with an offset, the keyed reference hash, and the five records
    with content-derived identifiers: audit reference, telemetry point, work item, export
    request and export job, each with its validation, its constructor and its parser. *)
From S2P Require Import Prelude Digest Json Canonical Text Contracts Timestamps RuntimeContracts Policy.
Open Scope string_scope.

(** Contract errors, [OperabilityError] with its code, Python's own, and what a port raises. *)
Inductive operability_error : Type :=
| OpContract (e : core_error)
| OpError (error_code : string)
| OpValueError
| OpTypeError
| OpKeyError
| OpAssertionError
| OpPortError.

#[export] Instance operability_error_eq_dec : EqDecision operability_error.
Proof. solve_decision. Defined.

Notation OpInvalid := (OpContract InvalidContractValue).

Definition AuditCapacityExceeded : operability_error := OpError "audit_capacity_exceeded".
Definition TelemetryAuditUnavailable : operability_error := OpError "telemetry_audit_unavailable".

Definition AUDIT_RECORD_VERSION : string := "phase3-audit-reference-v1".
Definition TELEMETRY_POINT_VERSION : string := "phase3-telemetry-point-v1".
Definition WORK_ITEM_VERSION : string := "phase3-bounded-work-item-v1".
Definition EXPORT_REQUEST_VERSION : string := "phase3-export-request-v1".
Definition EXPORT_JOB_VERSION : string := "phase3-export-projection-job-v1".

Definition FORBIDDEN_EXPORT_FIELDS : list string :=
  ["body"; "content"; "raw_content"; "prompt"; "response"; "token"; "api_key"; "private_key"; "secret"; "credential";
   "redaction_mapping"].
Definition EXPORT_TARGET_CEILINGS : list (string * Sensitivity) :=
  [("public_bundle", PUBLIC); ("internal_projection", INTERNAL); ("private_archive", PRIVATE)].

(** ** Values *)

(** A small letter, then at most 127 small letters, digits and the given marks. *)
Definition is_mark_code (marks : list ascii) (s : string) : bool :=
  match s with
  | EmptyString => false
  | String c rest =>
      is_lower c && (String.length rest <=? 127)%nat &&
      str_forall (fun d => is_lower d || is_digit d || bool_decide (d ∈ marks)) rest
  end.
(** [CODE] and [FIELD_PATH] *)
Definition is_code : string -> bool := is_mark_code ["_"; "."; ":"; "-"]%char.
Definition is_field_path : string -> bool := is_mark_code ["_"; "."; "-"]%char.

(** [HEX40_OR_64] *)
Definition is_object_id (s : string) : bool :=
  is_hex64 s || ((String.length s =? 40)%nat && str_forall is_hex_char s).

Definition checked {E} (e : E) (ok : string -> bool) (s : string) : result E string := _ ← ensure (ok s) e; Ok s.
Definition _nonempty : string -> result operability_error string := checked OpInvalid str_nonempty.
Definition _code : string -> result operability_error string := checked OpInvalid is_code.
Definition _hex64 : string -> result operability_error string := checked OpInvalid is_hex64.

Definition _generation (nullable : bool) (v : option string) : result operability_error (option string) :=
  match v with
  | None => _ ← ensure nullable OpInvalid; Ok None
  | Some s => _ ← ensure (is_object_id s) OpInvalid; Ok (Some s)
  end.

(** The offset of a timestamp: [Z], or a sign, hours and minutes, less than a day
    ([fromisoformat] asks no more of the minutes). *)
Definition scan_offset (l : list ascii) : option Z :=
  match l with
  | ["Z"%char] => Some 0%Z
  | [s; h1; h2; c; m1; m2] =>
      let offset := (number [h1; h2] * 3600 + number [m1; m2] * 60)%Z in
      if forallb is_digit [h1; h2; m1; m2] && Ascii.eqb c ":" && (Ascii.eqb s "+" || Ascii.eqb s "-") && (offset <? 86400)%Z
      then Some ((if Ascii.eqb s "-" then - offset else offset) * SECOND)%Z else None
  | _ => None
  end.

(** The instant, which is compared by its distance from others and need not lie in the
    range of UTC datetimes. *)
Definition parse_timestamp (value : string) : option Z :=
  let l := String.list_ascii_of_string value in
  f ← scan_fields (firstn 19 l ++ ["Z"%char]);
  offset ← scan_offset (skipn 19 l);
  if valid_fields f then Some (instant f - offset)%Z else None.

Definition _timestamp (value : string) : result operability_error Z := of_option OpInvalid (parse_timestamp value).

Definition _uint (positive : bool) (value : string) : result operability_error N :=
  _ ← ensure (if positive then is_positive_int value else is_canonical_int value) OpInvalid;
  _ ← ensure (String.length value <=? INT_MAX_STR_DIGITS)%nat OpValueError;
  of_option OpInvalid (int_of_str value).

Definition _sorted_strings (ok : string -> bool) (allow_empty : bool) (values : list string) : result operability_error (list string) :=
  _ ← ensure (allow_empty || negb (bool_decide (values = []))) OpInvalid;
  _ ← ensure (forallb str_nonempty values) OpInvalid;
  _ ← ensure (bool_decide (sorted_unique values = values)) OpInvalid;
  _ ← ensure (forallb ok values) OpInvalid;
  Ok values.

(** ** Values from a mapping *)

Definition need_text (v : pyval) : result operability_error string :=
  match v with PStr s => Ok s | _ => Err OpInvalid end.
Definition need_opt_text (v : pyval) : result operability_error (option string) :=
  match v with PNone => Ok None | PStr s => Ok (Some s) | _ => Err OpInvalid end.
Definition need_texts (v : pyval) : result operability_error (list string) :=
  match v with PList l | PTuple l => map_result need_text l | _ => Err OpInvalid end.

(** A field read and checked, as [__post_init__] meets it. *)
Definition hex_of (v : pyval) : result operability_error string := s ← need_text v; _hex64 s.
Definition code_of (v : pyval) : result operability_error string := s ← need_text v; _code s.
Definition filled_of (v : pyval) : result operability_error string := s ← need_text v; _nonempty s.
Definition time_of (v : pyval) : result operability_error string := s ← need_text v; _ ← _timestamp s; Ok s.
Definition count_of (v : pyval) : result operability_error string := s ← need_text v; _ ← _uint true s; Ok s.
Definition object_of (v : pyval) : result operability_error string := s ← need_text v; _ ← _generation false (Some s); Ok s.

Definition _strict (data : mapping) (fields : list string) : result operability_error mapping :=
  _ ← ensure (keys_within data fields) (OpContract UnknownContractField);
  _ ← ensure (has_keys data fields) OpInvalid;
  Ok data.

Definition check_version (v : pyval) (version : string) : result operability_error unit :=
  ensure (py_str_eqb v version) (OpContract UnsupportedContractVersion).

Section Records.
Context {U : Unicode} {D : Digest}.

(** ** [ReferenceHasher] *)

Record ReferenceHasher : Type := { hash_key : string; hash_namespace : string }.

Definition reference_hasher (key namespace : string) : result operability_error ReferenceHasher :=
  _ ← ensure (16 <=? String.length key)%nat OpValueError;
  _ ← ensure (is_code namespace) OpValueError;
  Ok {| hash_key := key; hash_namespace := namespace |}.

Definition xor_bytes (n : N) (s : string) : string :=
  String.string_of_list_ascii (map (fun c => ascii_of_N (N.lxor n (N_of_ascii c))) (String.list_ascii_of_string s)).

(** The key filled with zero bytes to the block of 64. *)
Definition hmac_block (key : string) : string :=
  let key := if (64 <? String.length key)%nat then sha256 key else key in
  key +:+ String.string_of_list_ascii (repeat "000"%char (64 - String.length key)).

(** [hmac.new(key, message, "sha256").hexdigest()] *)
Definition hmac_sha256_hex (key message : string) : string :=
  let block := hmac_block key in
  sha256_hex (xor_bytes 92 block +:+ sha256 (xor_bytes 54 block +:+ message)).

Definition reference_digest (h : ReferenceHasher) (value : string) : result operability_error string :=
  _ ← _nonempty value;
  Ok (hmac_sha256_hex (hash_key h) (hash_namespace h +:+ String "000" value)).

(** ** Identifiers *)

(** [{k: values[k] for k in FIELDS - {id_field}}] *)
Definition _identity (id_field : string) (values : mapping) : mapping :=
  List.filter (fun kv => negb (String.eqb kv.1 id_field)) values.

Definition record_bytes (values : mapping) : result operability_error string :=
  map_err OpContract (canonical_bytes (py_record values)).

Definition content_id (id_field : string) (values : mapping) : result operability_error string :=
  data ← record_bytes (_identity id_field values); Ok (sha256_hex data).

(** [if self.id != expected: raise] *)
Definition check_id (id_field id : string) (values : mapping) : result operability_error unit :=
  expected ← content_id id_field values; ensure (String.eqb id expected) OpInvalid.

(** ** [AuditReference] *)

Record AuditReference : Type := {
  audit_id : string; au_workspace_ref_hash : string; au_actor_ref_hash : string; au_operation_ref_hash : string;
  au_correlation_ref_hash : string; au_action : string; au_outcome : string; au_reason_code : string;
  au_generation_id : option string; au_object_ref_digests : list string; au_policy_version : string; au_occurred_at : string;
}.

Definition AUDIT_FIELDS : list string :=
  ["audit_record_version"; "audit_id"; "workspace_ref_hash"; "actor_ref_hash"; "operation_ref_hash"; "correlation_ref_hash";
   "action"; "outcome"; "reason_code"; "generation_id"; "object_ref_digests"; "policy_version"; "occurred_at"].

Definition audit_to_mapping (r : AuditReference) : mapping :=
  [("audit_record_version", PStr AUDIT_RECORD_VERSION); ("audit_id", PStr (audit_id r));
   ("workspace_ref_hash", PStr (au_workspace_ref_hash r)); ("actor_ref_hash", PStr (au_actor_ref_hash r));
   ("operation_ref_hash", PStr (au_operation_ref_hash r)); ("correlation_ref_hash", PStr (au_correlation_ref_hash r));
   ("action", PStr (au_action r)); ("outcome", PStr (au_outcome r)); ("reason_code", PStr (au_reason_code r));
   ("generation_id", py_opt (au_generation_id r)); ("object_ref_digests", py_strs (au_object_ref_digests r));
   ("policy_version", PStr (au_policy_version r)); ("occurred_at", PStr (au_occurred_at r))].

Definition audit_post_init (r : AuditReference) : result operability_error AuditReference :=
  _ ← map_result _hex64 [au_workspace_ref_hash r; au_actor_ref_hash r; au_operation_ref_hash r; au_correlation_ref_hash r];
  _ ← map_result _code [au_action r; au_outcome r; au_reason_code r; au_policy_version r];
  _ ← _generation true (au_generation_id r);
  _ ← _timestamp (au_occurred_at r);
  _ ← _sorted_strings is_hex64 true (au_object_ref_digests r);
  _ ← check_id "audit_id" (audit_id r) (audit_to_mapping r);
  Ok r.

Definition with_audit_id (r : AuditReference) (id : string) : AuditReference :=
  {| audit_id := id; au_workspace_ref_hash := au_workspace_ref_hash r; au_actor_ref_hash := au_actor_ref_hash r;
     au_operation_ref_hash := au_operation_ref_hash r; au_correlation_ref_hash := au_correlation_ref_hash r;
     au_action := au_action r; au_outcome := au_outcome r; au_reason_code := au_reason_code r;
     au_generation_id := au_generation_id r; au_object_ref_digests := sorted_unique (au_object_ref_digests r);
     au_policy_version := au_policy_version r; au_occurred_at := au_occurred_at r |}.

(** [AuditReference.create]: the identifier of [r] is not looked at. *)
Definition audit_create (r : AuditReference) : result operability_error AuditReference :=
  id ← content_id "audit_id" (audit_to_mapping (with_audit_id r ""));
  audit_post_init (with_audit_id r id).

Definition audit_from_mapping (data : mapping) : result operability_error AuditReference :=
  values ← _strict data AUDIT_FIELDS;
  raw ← need_texts (field values "object_ref_digests");
  refs ← _sorted_strings is_hex64 true raw;
  _ ← check_version (field values "audit_record_version") AUDIT_RECORD_VERSION;
  w ← need_text (field values "workspace_ref_hash"); a ← need_text (field values "actor_ref_hash");
  o ← need_text (field values "operation_ref_hash"); c ← need_text (field values "correlation_ref_hash");
  act ← need_text (field values "action"); out ← need_text (field values "outcome");
  reason ← need_text (field values "reason_code"); version ← need_text (field values "policy_version");
  generation ← need_opt_text (field values "generation_id"); at_ ← need_text (field values "occurred_at");
  id ← need_text (field values "audit_id");
  audit_post_init {| audit_id := id; au_workspace_ref_hash := w; au_actor_ref_hash := a; au_operation_ref_hash := o;
                     au_correlation_ref_hash := c; au_action := act; au_outcome := out; au_reason_code := reason;
                     au_generation_id := generation; au_object_ref_digests := refs; au_policy_version := version;
                     au_occurred_at := at_ |}.

(** ** [TelemetryPoint] *)

Record TelemetryPoint : Type := {
  point_id : string; tp_workspace_ref_hash : string; metric_name : string; time_bucket : string; value_bucket : string;
  tp_count : string; status_code : string;
}.

Definition POINT_FIELDS : list string :=
  ["telemetry_point_version"; "point_id"; "workspace_ref_hash"; "metric_name"; "time_bucket"; "value_bucket"; "count";
   "status_code"].

Definition point_to_mapping (p : TelemetryPoint) : mapping :=
  [("telemetry_point_version", PStr TELEMETRY_POINT_VERSION); ("point_id", PStr (point_id p));
   ("workspace_ref_hash", PStr (tp_workspace_ref_hash p)); ("metric_name", PStr (metric_name p));
   ("time_bucket", PStr (time_bucket p)); ("value_bucket", PStr (value_bucket p)); ("count", PStr (tp_count p));
   ("status_code", PStr (status_code p))].

Definition point_post_init (p : TelemetryPoint) : result operability_error TelemetryPoint :=
  _ ← _hex64 (tp_workspace_ref_hash p);
  _ ← map_result _code [metric_name p; value_bucket p; status_code p];
  _ ← _timestamp (time_bucket p);
  _ ← _uint true (tp_count p);
  _ ← check_id "point_id" (point_id p) (point_to_mapping p);
  Ok p.

Definition with_point_id (p : TelemetryPoint) (id : string) : TelemetryPoint :=
  {| point_id := id; tp_workspace_ref_hash := tp_workspace_ref_hash p; metric_name := metric_name p;
     time_bucket := time_bucket p; value_bucket := value_bucket p; tp_count := tp_count p; status_code := status_code p |}.

Definition point_create (p : TelemetryPoint) : result operability_error TelemetryPoint :=
  id ← content_id "point_id" (point_to_mapping (with_point_id p ""));
  point_post_init (with_point_id p id).

Definition point_from_mapping (data : mapping) : result operability_error TelemetryPoint :=
  values ← _strict data POINT_FIELDS;
  _ ← check_version (field values "telemetry_point_version") TELEMETRY_POINT_VERSION;
  w ← hex_of (field values "workspace_ref_hash"); m ← code_of (field values "metric_name");
  v ← code_of (field values "value_bucket"); s ← code_of (field values "status_code");
  t ← time_of (field values "time_bucket"); n ← count_of (field values "count"); id ← need_text (field values "point_id");
  point_post_init {| point_id := id; tp_workspace_ref_hash := w; metric_name := m; time_bucket := t; value_bucket := v;
                     tp_count := n; status_code := s |}.

(** ** [BoundedWorkItem] *)

Record BoundedWorkItem : Type := {
  work_id : string; wi_workspace_ref_hash : string; wi_operation_ref_hash : string; work_type : string;
  payload_ref_digest : string; cost_units : string; enqueued_at : string; deadline_at : string;
}.

#[export] Instance work_item_eq_dec : EqDecision BoundedWorkItem.
Proof. solve_decision. Defined.

Definition WORK_FIELDS : list string :=
  ["work_item_version"; "work_id"; "workspace_ref_hash"; "operation_ref_hash"; "work_type"; "payload_ref_digest";
   "cost_units"; "enqueued_at"; "deadline_at"].

Definition work_to_mapping (i : BoundedWorkItem) : mapping :=
  [("work_item_version", PStr WORK_ITEM_VERSION); ("work_id", PStr (work_id i));
   ("workspace_ref_hash", PStr (wi_workspace_ref_hash i)); ("operation_ref_hash", PStr (wi_operation_ref_hash i));
   ("work_type", PStr (work_type i)); ("payload_ref_digest", PStr (payload_ref_digest i));
   ("cost_units", PStr (cost_units i)); ("enqueued_at", PStr (enqueued_at i)); ("deadline_at", PStr (deadline_at i))].

Definition work_post_init (i : BoundedWorkItem) : result operability_error BoundedWorkItem :=
  _ ← map_result _hex64 [wi_workspace_ref_hash i; wi_operation_ref_hash i; payload_ref_digest i];
  _ ← _code (work_type i);
  _ ← _uint true (cost_units i);
  enqueued ← _timestamp (enqueued_at i);
  deadline ← _timestamp (deadline_at i);
  _ ← ensure (enqueued <? deadline)%Z OpInvalid;
  _ ← check_id "work_id" (work_id i) (work_to_mapping i);
  Ok i.

Definition with_work_id (i : BoundedWorkItem) (id : string) : BoundedWorkItem :=
  {| work_id := id; wi_workspace_ref_hash := wi_workspace_ref_hash i; wi_operation_ref_hash := wi_operation_ref_hash i;
     work_type := work_type i; payload_ref_digest := payload_ref_digest i; cost_units := cost_units i;
     enqueued_at := enqueued_at i; deadline_at := deadline_at i |}.

Definition work_create (i : BoundedWorkItem) : result operability_error BoundedWorkItem :=
  id ← content_id "work_id" (work_to_mapping (with_work_id i ""));
  work_post_init (with_work_id i id).

Definition work_from_mapping (data : mapping) : result operability_error BoundedWorkItem :=
  values ← _strict data WORK_FIELDS;
  _ ← check_version (field values "work_item_version") WORK_ITEM_VERSION;
  w ← hex_of (field values "workspace_ref_hash"); o ← hex_of (field values "operation_ref_hash");
  p ← hex_of (field values "payload_ref_digest"); t ← code_of (field values "work_type");
  c ← count_of (field values "cost_units"); e ← time_of (field values "enqueued_at");
  d ← time_of (field values "deadline_at"); id ← need_text (field values "work_id");
  work_post_init {| work_id := id; wi_workspace_ref_hash := w; wi_operation_ref_hash := o; work_type := t;
                    payload_ref_digest := p; cost_units := c; enqueued_at := e; deadline_at := d |}.

(** ** [ExportRequest] *)

Record ExportRequest : Type := {
  request_id : string; er_workspace_id : string; er_actor_id : string; er_as_of_generation_id : string;
  er_target_class : string; er_projection_profile : string; er_field_allowlist : list string; er_max_sensitivity : string;
  er_delivery_intent_ref : string; er_requested_at : string;
}.

Definition EXPORT_REQUEST_FIELDS : list string :=
  ["export_request_version"; "request_id"; "workspace_id"; "actor_id"; "as_of_generation_id"; "target_class";
   "projection_profile"; "field_allowlist"; "max_sensitivity"; "delivery_intent_ref"; "requested_at"].

Definition export_request_to_mapping (r : ExportRequest) : mapping :=
  [("export_request_version", PStr EXPORT_REQUEST_VERSION); ("request_id", PStr (request_id r));
   ("workspace_id", PStr (er_workspace_id r)); ("actor_id", PStr (er_actor_id r));
   ("as_of_generation_id", PStr (er_as_of_generation_id r)); ("target_class", PStr (er_target_class r));
   ("projection_profile", PStr (er_projection_profile r)); ("field_allowlist", py_strs (er_field_allowlist r));
   ("max_sensitivity", PStr (er_max_sensitivity r)); ("delivery_intent_ref", PStr (er_delivery_intent_ref r));
   ("requested_at", PStr (er_requested_at r))].

(** [set(field.split(".")) & FORBIDDEN_EXPORT_FIELDS] *)
Definition forbidden_field (f : string) : bool :=
  existsb (fun part => str_mem (str_concat part) FORBIDDEN_EXPORT_FIELDS) (split_on "." (chars f)).

(** The sensitivity, an unknown one being a plain ValueError, within the ceiling of the target. *)
Definition within_ceiling (target max_sensitivity : string) : result operability_error unit :=
  ceiling ← of_option OpInvalid (assoc target EXPORT_TARGET_CEILINGS);
  sensitivity ← of_option OpValueError (sensitivity_of max_sensitivity);
  ensure (rank sensitivity <=? rank ceiling)%nat OpInvalid.

Definition known_target (target : string) : result operability_error unit :=
  ensure (str_mem target (map fst EXPORT_TARGET_CEILINGS)) OpInvalid.

Definition export_request_post_init (r : ExportRequest) : result operability_error ExportRequest :=
  _ ← _nonempty (er_workspace_id r);
  _ ← _nonempty (er_actor_id r);
  _ ← _generation false (Some (er_as_of_generation_id r));
  _ ← known_target (er_target_class r);
  _ ← _code (er_projection_profile r);
  fields ← _sorted_strings is_field_path false (er_field_allowlist r);
  _ ← ensure (negb (existsb forbidden_field fields)) OpInvalid;
  _ ← within_ceiling (er_target_class r) (er_max_sensitivity r);
  _ ← _hex64 (er_delivery_intent_ref r);
  _ ← _timestamp (er_requested_at r);
  _ ← check_id "request_id" (request_id r) (export_request_to_mapping r);
  Ok r.

Definition with_request_id (r : ExportRequest) (id : string) : ExportRequest :=
  {| request_id := id; er_workspace_id := er_workspace_id r; er_actor_id := er_actor_id r;
     er_as_of_generation_id := er_as_of_generation_id r; er_target_class := er_target_class r;
     er_projection_profile := er_projection_profile r; er_field_allowlist := sorted_unique (er_field_allowlist r);
     er_max_sensitivity := er_max_sensitivity r; er_delivery_intent_ref := er_delivery_intent_ref r;
     er_requested_at := er_requested_at r |}.

Definition export_request_create (r : ExportRequest) : result operability_error ExportRequest :=
  id ← content_id "request_id" (export_request_to_mapping (with_request_id r ""));
  export_request_post_init (with_request_id r id).

(** A key of [EXPORT_TARGET_CEILINGS]: an unhashable value raises TypeError. *)
Definition need_target (v : pyval) : result operability_error string :=
  _ ← ensure (hashable v) OpTypeError; t ← need_text v; _ ← known_target t; Ok t.

(** [Sensitivity(value)] of what is not a text is a ValueError. *)
Definition need_sensitivity (v : pyval) : result operability_error string :=
  match v with PStr s => Ok s | _ => Err OpValueError end.

Definition export_request_from_mapping (data : mapping) : result operability_error ExportRequest :=
  values ← _strict data EXPORT_REQUEST_FIELDS;
  raw ← need_texts (field values "field_allowlist");
  fields ← _sorted_strings is_field_path false raw;
  _ ← check_version (field values "export_request_version") EXPORT_REQUEST_VERSION;
  w ← filled_of (field values "workspace_id"); a ← filled_of (field values "actor_id");
  g ← object_of (field values "as_of_generation_id"); t ← need_target (field values "target_class");
  p ← code_of (field values "projection_profile"); _ ← ensure (negb (existsb forbidden_field fields)) OpInvalid;
  s ← need_sensitivity (field values "max_sensitivity");
  d ← need_text (field values "delivery_intent_ref"); at_ ← need_text (field values "requested_at");
  id ← need_text (field values "request_id");
  export_request_post_init
    {| request_id := id; er_workspace_id := w; er_actor_id := a; er_as_of_generation_id := g; er_target_class := t;
       er_projection_profile := p; er_field_allowlist := fields; er_max_sensitivity := s; er_delivery_intent_ref := d;
       er_requested_at := at_ |}.

(** ** [ExportProjectionJob] *)

Record ExportProjectionJob : Type := {
  job_id : string; ej_request_id : string; ej_workspace_id : string; ej_as_of_generation_id : string;
  ej_target_class : string; ej_projection_profile : string; ej_field_allowlist : list string; ej_max_sensitivity : string;
  ej_delivery_intent_ref : string;
}.

Definition EXPORT_JOB_FIELDS : list string :=
  ["export_job_version"; "job_id"; "request_id"; "workspace_id"; "as_of_generation_id"; "target_class";
   "projection_profile"; "field_allowlist"; "max_sensitivity"; "delivery_intent_ref"].

Definition export_job_to_mapping (j : ExportProjectionJob) : mapping :=
  [("export_job_version", PStr EXPORT_JOB_VERSION); ("job_id", PStr (job_id j)); ("request_id", PStr (ej_request_id j));
   ("workspace_id", PStr (ej_workspace_id j)); ("as_of_generation_id", PStr (ej_as_of_generation_id j));
   ("target_class", PStr (ej_target_class j)); ("projection_profile", PStr (ej_projection_profile j));
   ("field_allowlist", py_strs (ej_field_allowlist j)); ("max_sensitivity", PStr (ej_max_sensitivity j));
   ("delivery_intent_ref", PStr (ej_delivery_intent_ref j))].

Definition export_job_post_init (j : ExportProjectionJob) : result operability_error ExportProjectionJob :=
  _ ← _hex64 (ej_request_id j);
  _ ← _nonempty (ej_workspace_id j);
  _ ← _generation false (Some (ej_as_of_generation_id j));
  _ ← known_target (ej_target_class j);
  _ ← _code (ej_projection_profile j);
  _ ← _sorted_strings is_field_path false (ej_field_allowlist j);
  _ ← within_ceiling (ej_target_class j) (ej_max_sensitivity j);
  _ ← _hex64 (ej_delivery_intent_ref j);
  _ ← check_id "job_id" (job_id j) (export_job_to_mapping j);
  Ok j.

Definition job_of (r : ExportRequest) (id : string) : ExportProjectionJob :=
  {| job_id := id; ej_request_id := request_id r; ej_workspace_id := er_workspace_id r;
     ej_as_of_generation_id := er_as_of_generation_id r; ej_target_class := er_target_class r;
     ej_projection_profile := er_projection_profile r; ej_field_allowlist := er_field_allowlist r;
     ej_max_sensitivity := er_max_sensitivity r; ej_delivery_intent_ref := er_delivery_intent_ref r |}.

Definition job_from_request (r : ExportRequest) : result operability_error ExportProjectionJob :=
  id ← content_id "job_id" (export_job_to_mapping (job_of r ""));
  export_job_post_init (job_of r id).

Definition export_job_from_mapping (data : mapping) : result operability_error ExportProjectionJob :=
  values ← _strict data EXPORT_JOB_FIELDS;
  raw ← need_texts (field values "field_allowlist");
  fields ← _sorted_strings is_field_path false raw;
  _ ← check_version (field values "export_job_version") EXPORT_JOB_VERSION;
  r ← hex_of (field values "request_id"); w ← filled_of (field values "workspace_id");
  g ← object_of (field values "as_of_generation_id"); t ← need_target (field values "target_class");
  p ← code_of (field values "projection_profile"); s ← need_sensitivity (field values "max_sensitivity");
  d ← need_text (field values "delivery_intent_ref"); id ← need_text (field values "job_id");
  export_job_post_init
    {| job_id := id; ej_request_id := r; ej_workspace_id := w; ej_as_of_generation_id := g; ej_target_class := t;
       ej_projection_profile := p; ej_field_allowlist := fields; ej_max_sensitivity := s; ej_delivery_intent_ref := d |}.
End Records.

Example utc_and_offset :
  parse_timestamp "2024-01-01T09:00:00+09:00" = parse_timestamp "2024-01-01T00:00:00Z".
Proof. vm_compute. reflexivity. Qed.
Example no_timezone : parse_timestamp "2024-01-01T09:00:00" = None.
Proof. vm_compute. reflexivity. Qed.
Example token_in_path : forbidden_field "user.token.value" = true /\ forbidden_field "tokens" = false.
Proof. vm_compute. auto. Qed.

(** ** Reading a record back *)

Lemma field_perm (m m' : mapping) k : NoDup m'.*1 -> m ≡ₚ m' -> field m k = field m' k.
Proof. intros Hn Hp. unfold field. by rewrite (assoc_perm m' m k Hn) by (by symmetry). Qed.

Lemma keys_within_perm (m m' : mapping) l : m ≡ₚ m' -> keys_within m l = keys_within m' l.
Proof.
  intros Hp. unfold keys_within. apply eq_true_iff_eq. rewrite !forallb_forall.
  split; intros H k Hk; apply H; (eapply Permutation_in; [|exact Hk]); by apply Permutation_map.
Qed.

Lemma has_keys_perm (m m' : mapping) l : m ≡ₚ m' -> has_keys m l = has_keys m' l.
Proof.
  intros Hp. unfold has_keys. apply eq_true_iff_eq. rewrite !forallb_forall.
  split; intros H k Hk; apply H in Hk; apply str_mem_spec; apply str_mem_spec in Hk; revert Hk;
    apply elem_of_Permutation_proper, Permutation_map; done.
Qed.

Section Reread.
Context {U : Unicode} {D : Digest} {R : JsonReader}.

(** A value that is its own normal form. *)
Definition normal_value (v : pyval) : Prop := exists x, v = of_json x /\ _normalize v = Ok x.

Lemma normal_text s : is_ascii s = true -> normal_value (PStr s).
Proof. intros H. exists (JStr s). cbn. by rewrite (nfc_ascii _ H). Qed.

Lemma normal_opt o : (forall s, o = Some s -> is_ascii s = true) -> normal_value (py_opt o).
Proof. destruct o as [s|]; intros H; [by apply normal_text, H | by exists JNull]. Qed.

Lemma normal_texts ss : Forall (fun s => is_ascii s = true) ss -> normal_value (py_strs ss).
Proof.
  intros H. exists (JArr (map JStr ss)). unfold py_strs. cbn [of_json]. rewrite map_map. split; [done|].
  fold (py_strs ss). rewrite normalize_py_strs. f_equal. f_equal. induction H as [|s ss Hs _ IH]; [done|]. cbn.
  by rewrite (nfc_ascii _ Hs), IH.
Qed.

(** The members read from the bytes of a record are its fields, in some order. *)
Lemma reread_record (m : mapping) data : record_keys m.*1 = true -> Forall (fun f => normal_value f.2) m ->
  record_bytes m = Ok data ->
  exists ms, json_loads data = Some (JObj ms) /\ map (fun kv => (kv.1, of_json kv.2)) ms ≡ₚ m.
Proof.
  intros Hk Hf Hd. unfold record_bytes, canonical_bytes in Hd. apply map_err_ok, bind_ok in Hd as (j & Hj & [= <-]).
  destruct (rt_normalize_wf _ _ Hj) as [Hw Hs]. rewrite json_loads_dumps by done. rewrite Hs.
  apply record_normal in Hj as (ms & Hms & ->); [|done]. exists (sort_on fst ms). split; [done|].
  assert (E : map (fun kv => (kv.1, of_json kv.2)) ms = m).
  { clear -Hms Hf. induction Hms as [|[k v] [k' x] m ms [E Hx] _ IH]; [done|]. apply list.Forall_cons in Hf as [(y & Hy & Hy') Hf].
    cbn in *. subst k'. rewrite Hy' in Hx. injection Hx as <-. by rewrite <- Hy, IH. }
  rewrite <- E. apply Permutation_map. apply py_sort_perm.
Qed.

Lemma record_bytes_total (m : mapping) : record_keys m.*1 = true -> Forall (fun f => normal_value f.2) m ->
  exists data, record_bytes m = Ok data.
Proof.
  intros Hk Hf. assert (exists ms, Forall2 field_normal m ms) as [ms Hms].
  { clear Hk. induction Hf as [|f m (x & _ & Hx) _ [ms IH]]; [by exists []|]. exists ((f.1, x) :: ms). constructor; [by split | done]. }
  exists (json_dumps (JObj (sort_on fst ms))). unfold record_bytes, canonical_bytes.
  assert (_normalize (py_record m) = Ok (JObj (sort_on fst ms))) as -> by (apply record_normal; eauto). done.
Qed.
End Reread.

(** ** The texts of a valid record are ASCII *)

Lemma is_ascii_forall s : is_ascii s = true <-> Forall (fun c => (N_of_ascii c <? 128)%N = true) (String.list_ascii_of_string s).
Proof.
  unfold is_ascii. induction s as [|c s IH]; cbn; [split; [by constructor | done]|].
  rewrite andb_true_iff, IH. split; [intros [? ?]; by constructor | intros H; by inversion H].
Qed.

Lemma str_forall_ascii (p : ascii -> bool) s : (forall c, p c = true -> (N_of_ascii c <? 128)%N = true) ->
  str_forall p s = true -> is_ascii s = true.
Proof.
  intros Hp. unfold is_ascii. induction s as [|c s IH]; [done|]. cbn. rewrite !andb_true_iff. intros [Hc Hs].
  split; [by apply Hp | by apply IH].
Qed.

Lemma hex64_ascii s : is_hex64 s = true -> is_ascii s = true.
Proof. unfold is_hex64. intros [_ H]%andb_true_iff. by apply hex_chars_ascii. Qed.

Lemma is_lower_ascii c : is_lower c = true -> (N_of_ascii c <? 128)%N = true.
Proof. unfold is_lower. rewrite andb_true_iff, !N.leb_le, N.ltb_lt. lia. Qed.

Lemma mark_code_ascii marks s : Forall (fun c => (N_of_ascii c <? 128)%N = true) marks -> is_mark_code marks s = true -> is_ascii s = true.
Proof.
  intros Hm. destruct s as [|c s]; [done|]. cbn [is_mark_code]. rewrite !andb_true_iff. intros [[Hc _] Hs].
  unfold is_ascii. cbn [str_forall]. rewrite (is_lower_ascii _ Hc). cbn [andb]. revert Hs. apply str_forall_ascii.
  intros d. rewrite !orb_true_iff, bool_decide_eq_true. intros [[Hd|Hd]|Hd]; [by apply is_lower_ascii | by apply is_digit_ascii |].
  by apply (proj1 (list.Forall_forall _ _) Hm).
Qed.

Lemma code_ascii s : is_code s = true -> is_ascii s = true.
Proof. apply mark_code_ascii. by repeat constructor. Qed.
Lemma field_path_ascii s : is_field_path s = true -> is_ascii s = true.
Proof. apply mark_code_ascii. by repeat constructor. Qed.

Lemma positive_int_ascii s : is_positive_int s = true -> is_ascii s = true.
Proof.
  intros H. apply (str_forall_ascii is_digit); [exact is_digit_ascii|]. destruct s as [|c s]; [done|].
  cbn in H |- *. split_and_bool. apply andb_true_iff. split; [|done].
  match goal with H : is_digit c = true |- _ => exact H | _ => unfold is_digit; lia end.
Qed.

Lemma scan_fields_ascii l f : scan_fields l = Some f -> Forall (fun c => (N_of_ascii c <? 128)%N = true) l.
Proof.
  intros H. do 21 (destruct l as [|? l]; [try discriminate H|]); [|discriminate H]. cbn [scan_fields] in H.
  destruct (_ && _) eqn:E in H; [|discriminate H]. apply andb_true_iff in E as [Hd Hc%bool_decide_eq_true].
  injection Hc as -> -> -> -> -> ->. cbn [forallb] in Hd. split_and_bool.
  repeat (apply list.Forall_cons; split; [by first [done | apply is_digit_ascii]|]). by apply list.Forall_nil.
Qed.

Lemma scan_offset_ascii l z : scan_offset l = Some z -> Forall (fun c => (N_of_ascii c <? 128)%N = true) l.
Proof.
  unfold scan_offset. destruct l as [|s l]; [discriminate 1|]. destruct l as [|h1 l].
  - intros H. constructor; [|constructor]. destruct s as [[] [] [] [] [] [] [] []]; done.
  - destruct l as [|h2 [|c [|m1 [|m2 [|]]]]]; intros H; try (destruct s as [[] [] [] [] [] [] [] []]; discriminate H).
    assert (Hb : forallb is_digit [h1; h2; m1; m2] && Ascii.eqb c ":" && (Ascii.eqb s "+" || Ascii.eqb s "-") = true).
    { destruct s as [[] [] [] [] [] [] [] []]; cbn in H |- *; destruct (_ && _) eqn:E in H; try discriminate H;
        by apply andb_true_iff in E as [E _]. }
    rewrite !andb_true_iff, orb_true_iff, !Ascii.eqb_eq in Hb. cbn [forallb] in Hb. destruct Hb as [[Hd ->] Hs]. split_and_bool.
    repeat (apply list.Forall_cons; split; [first [by apply is_digit_ascii | by destruct Hs as [-> | ->] | done]|]). by apply list.Forall_nil.
Qed.

Lemma op_timestamp_ascii s t : _timestamp s = Ok t -> is_ascii s = true.
Proof.
  unfold _timestamp, parse_timestamp. cbv zeta. intros H.
  destruct (scan_fields _) as [f|] eqn:Hf; [|discriminate H]. cbn [mbind option_bind] in H.
  destruct (scan_offset _) as [o|] eqn:Ho; [|discriminate H]. clear H.
  apply scan_fields_ascii in Hf. apply scan_offset_ascii in Ho. apply is_ascii_forall.
  rewrite <- (firstn_skipn 19). apply Forall_app. split; [|done]. by apply Forall_app in Hf as [Hf _].
Qed.

(** ** The record of a valid work item *)

Section WorkItems.
Context {U : Unicode} {D : Digest} {R : JsonReader}.

Definition work_valid (i : BoundedWorkItem) : Prop := work_post_init i = Ok i.

#[export] Instance work_valid_dec i : Decision (work_valid i).
Proof. unfold work_valid. destruct (work_post_init i) as [j|e]; [|by right]. destruct (decide (j = i)); [left | right]; congruence. Defined.

Lemma checked_ok {E} (e : E) ok s t : checked e ok s = Ok t -> ok s = true /\ t = s.
Proof. unfold checked. intros H. inv_checks H. done. Qed.

Lemma map_checked_ok {E} (e : E) ok l ys : map_result (checked e ok) l = Ok ys -> Forall (fun s => ok s = true) l.
Proof. intros H%map_result_ok. induction H as [|x y l ys Hx _ IH]; constructor; [by apply checked_ok in Hx as [? _] | done]. Qed.

Lemma check_id_ok f id m u : check_id f id m = Ok u -> content_id f m = Ok id.
Proof. unfold check_id. intros (e & -> & H%ensure_ok%String.eqb_eq)%bind_ok. by subst. Qed.

Lemma content_id_ascii f m id : content_id f m = Ok id -> is_ascii id = true.
Proof. unfold content_id. intros (d & _ & [= <-])%bind_ok. apply hex64_ascii, sha256_hex_is_hex64. Qed.

Lemma uint_text b s n : _uint b s = Ok n -> is_positive_int s = true \/ is_canonical_int s = true.
Proof. unfold _uint. intros H. inv_checks H. destruct b; auto. Qed.

(** What [__post_init__] establishes. *)
Lemma work_post_facts i j : work_post_init i = Ok j ->
  (Forall (fun s => is_ascii s = true) [wi_workspace_ref_hash i; wi_operation_ref_hash i; payload_ref_digest i] /\
   Forall (fun s => is_ascii s = true) [work_id i; work_type i; cost_units i; enqueued_at i; deadline_at i]) /\
  (exists n, _uint true (cost_units i) = Ok n) /\ (exists t, _timestamp (deadline_at i) = Ok t).
Proof.
  unfold work_post_init. intros H. inv_result H.
  repeat match goal with
    | E : map_result _hex64 _ = Ok _ |- _ => apply map_checked_ok in E
    | E : _code _ = Ok _ |- _ => apply checked_ok in E as [E%code_ascii _]
    | E : check_id _ _ _ = Ok _ |- _ => apply check_id_ok, content_id_ascii in E
  end.
  split; [split|split; eauto].
  - eapply list.Forall_impl; [eassumption | intros s; apply hex64_ascii].
  - repeat constructor; try done; try (eapply op_timestamp_ascii; eassumption).
    unfold _uint in *. match goal with E : (_ ← ensure _ _; _) = _ |- _ => inv_checks E end. by apply positive_int_ascii.
Qed.

Lemma work_record_keys i : record_keys (work_to_mapping i).*1 = true.
Proof. vm_compute. reflexivity. Qed.

Lemma work_record_normal i : work_valid i -> Forall (fun f => normal_value f.2) (work_to_mapping i).
Proof.
  intros [[Hh Ht] _]%work_post_facts. 
  repeat match goal with H : Forall _ (_ :: _) |- _ => apply list.Forall_cons in H as [??] end.
  unfold work_to_mapping. repeat (apply list.Forall_cons; split; [by apply normal_text|]). by apply list.Forall_nil.
Qed.

Lemma work_bytes_total i : work_valid i -> exists data, record_bytes (work_to_mapping i) = Ok data.
Proof. intros H. apply record_bytes_total; [apply work_record_keys | by apply work_record_normal]. Qed.

(** Each check of [__post_init__], on its own field. *)
Lemma work_valid_checks i j : work_post_init i = Ok j ->
  hex_of (PStr (wi_workspace_ref_hash i)) = Ok (wi_workspace_ref_hash i) /\ hex_of (PStr (wi_operation_ref_hash i)) = Ok (wi_operation_ref_hash i) /\
  hex_of (PStr (payload_ref_digest i)) = Ok (payload_ref_digest i) /\ code_of (PStr (work_type i)) = Ok (work_type i) /\
  count_of (PStr (cost_units i)) = Ok (cost_units i) /\ time_of (PStr (enqueued_at i)) = Ok (enqueued_at i) /\
  time_of (PStr (deadline_at i)) = Ok (deadline_at i).
Proof.
  unfold work_post_init, hex_of, code_of, count_of, time_of. intros H. inv_result H. cbn [need_text mbind result_bind].
  match goal with E : map_result _hex64 _ = Ok _ |- _ => apply map_checked_ok in E end.
  repeat match goal with F : Forall _ (_ :: _) |- _ => apply list.Forall_cons in F as [? F] end.
  split_and!; try (unfold _hex64, checked; match goal with F : is_hex64 ?s = true |- context [is_hex64 ?s] => by rewrite F end).
  - match goal with E : _code _ = Ok _ |- _ => rewrite E; by apply checked_ok in E as [_ ->] end.
  - match goal with E : _uint _ _ = Ok _ |- _ => by rewrite E end.
  - match goal with E : _timestamp (enqueued_at _) = Ok _ |- _ => by rewrite E end.
  - match goal with E : _timestamp (deadline_at _) = Ok _ |- _ => by rewrite E end.
Qed.

(** [from_mapping] of the fields of a valid item, in any order. *)
Lemma work_from_mapping_perm i m : work_valid i -> m ≡ₚ work_to_mapping i -> work_from_mapping m = Ok i.
Proof.
  intros H Hm. unfold work_from_mapping, _strict.
  rewrite (keys_within_perm _ _ _ Hm), (has_keys_perm _ _ _ Hm). 
  change (keys_within (work_to_mapping i) WORK_FIELDS) with true. change (has_keys (work_to_mapping i) WORK_FIELDS) with true.
  cbn [ensure mbind result_bind].
  assert (F : forall k, field m k = field (work_to_mapping i) k).
  { intros k. apply field_perm; [|done]. pose proof (work_record_keys i) as K. unfold record_keys, str_unique in K.
    apply andb_true_iff in K as [_ K]. by apply bool_decide_eq_true in K. }
  rewrite !F. unfold work_to_mapping, field. cbn [assoc String.eqb Ascii.eqb Bool.eqb need_text check_version py_str_eqb ensure default option_fmap mbind result_bind].
  destruct (work_valid_checks _ _ H) as (-> & -> & -> & -> & -> & -> & ->). destruct i; exact H.
Qed.

Lemma work_reread i data : work_valid i -> record_bytes (work_to_mapping i) = Ok data ->
  exists ms, json_loads data = Some (JObj ms) /\ work_from_mapping (map (fun kv => (kv.1, of_json kv.2)) ms) = Ok i.
Proof.
  intros H Hd. apply reread_record in Hd as (ms & -> & Hp); [|apply work_record_keys | by apply work_record_normal].
  exists ms. split; [done|]. by apply work_from_mapping_perm.
Qed.
End WorkItems.
