(* ===== verification/Backpressure.v ===== *)
(** * Bounded work (memory_core/operability.py)

    The bounded queue with its accounting, the retry budget, the circuit breaker, and the
    controller that admits work through all three.  Each keeps its own lock, so a method of
    each is one step; between the steps of the controller other threads run. *)
From S2P Require Import Prelude Digest Json Canonical Contracts Timestamps OperabilityContracts.
Open Scope string_scope.
#[local] Open Scope Z_scope.

(** The limits the three objects are built with. *)
Record Limits : Type := {
  max_items : Z; max_cost_units : Z; per_workspace_max_items : Z;
  max_operations : Z; max_attempts : Z; max_total_cost_units : Z;
  failure_threshold : Z; reset_after_seconds : Z;
}.

(** What the constructors require. *)
Definition limits_ok (l : Limits) : bool :=
  (1 <=? max_items l) && (1 <=? max_cost_units l) && (1 <=? per_workspace_max_items l) &&
  (per_workspace_max_items l <=? max_items l) &&
  (1 <=? max_operations l) && (1 <=? max_attempts l) && (1 <=? max_total_cost_units l) &&
  (1 <=? failure_threshold l) && (1 <=? reset_after_seconds l).

Definition str_of_Z (z : Z) : string := if z <? 0 then "-" +:+ str_of_N (Z.to_N (- z)) else str_of_N (Z.to_N z).

(** ** [BoundedWorkQueue] *)

Record BoundedWorkQueue : Type := {
  _items : list BoundedWorkItem;
  _by_id : gmap string string;
  _workspace_counts : gmap string Z;
  _cost : Z;
}.

Definition empty_queue : BoundedWorkQueue := {| _items := []; _by_id := ∅; _workspace_counts := ∅; _cost := 0 |}.

Record QueueDecision : Type := { qd_status : string; qd_work_id : string; qd_error_code : option string; qd_retry_after_ms : option string }.

Definition queue_decision (status id : string) (error retry : option string) : QueueDecision :=
  {| qd_status := status; qd_work_id := id; qd_error_code := error; qd_retry_after_ms := retry |}.

(** [int(item.cost_units)]; a validated item has a number there. *)
Definition units (i : BoundedWorkItem) : Z := default 0 (Z.of_N <$> int_of_str (cost_units i)).

(** The attempts and the cost of each operation. *)
Notation RetryBudget := (gmap string (Z * Z)).

Section Machine.
Context {U : Unicode} {D : Digest} {R : JsonReader} (l : Limits).

Definition _expired (i : BoundedWorkItem) (now : string) : result operability_error bool :=
  n ← _timestamp now; d ← _timestamp (deadline_at i); Ok (d <=? n).

Notation queue_method := (st BoundedWorkQueue operability_error).

Definition enqueue (i : BoundedWorkItem) (payload : string) (count : Z) (q : BoundedWorkQueue) : BoundedWorkQueue :=
  {| _items := (_items q ++ [i])%list; _by_id := <[work_id i := payload]> (_by_id q);
     _workspace_counts := <[wi_workspace_ref_hash i := count + 1]> (_workspace_counts q); _cost := _cost q + units i |}.

(** [BoundedWorkQueue.submit] *)
Definition queue_submit (i : BoundedWorkItem) (now : string) : queue_method QueueDecision :=
  _ ← st_lift (_timestamp now);
  payload ← st_lift (record_bytes (work_to_mapping i));
  q ← st_get;
  let decide_ status error retry := mret (queue_decision status (work_id i) error retry) in
  match _by_id q !! work_id i with
  | Some existing =>
      if String.eqb existing payload then decide_ "duplicate" None None
      else decide_ "rejected" (Some "work_binding_conflict") None
  | None =>
      expired ← st_lift (_expired i now);
      let count := default 0 (_workspace_counts q !! wi_workspace_ref_hash i) in
      if (expired : bool) then decide_ "rejected" (Some "work_deadline_expired") None
      else if max_items l <=? Z.of_nat (length (_items q)) then decide_ "retry_later" (Some "queue_full") (Some "1000")
      else if per_workspace_max_items l <=? count then decide_ "retry_later" (Some "workspace_queue_full") (Some "1000")
      else if max_cost_units l <? _cost q + units i then decide_ "retry_later" (Some "queue_cost_budget_exceeded") (Some "1000")
      else _ ← st_modify (enqueue i payload count); decide_ "accepted" None None
  end.

Definition set_items (items : list BoundedWorkItem) (q : BoundedWorkQueue) : BoundedWorkQueue :=
  {| _items := items; _by_id := _by_id q; _workspace_counts := _workspace_counts q; _cost := _cost q |}.

(** One less, and the entry goes when none is left. *)
Definition count_down (ws : string) (count : Z) (q : BoundedWorkQueue) : BoundedWorkQueue :=
  {| _items := _items q; _by_id := _by_id q;
     _workspace_counts := if count - 1 =? 0 then delete ws (_workspace_counts q) else <[ws := count - 1]> (_workspace_counts q);
     _cost := _cost q |}.

Definition _remove_accounting (i : BoundedWorkItem) : queue_method unit :=
  _ ← st_modify (fun q => {| _items := _items q; _by_id := delete (work_id i) (_by_id q);
                             _workspace_counts := _workspace_counts q; _cost := _cost q |});
  counts ← st_gets _workspace_counts;
  count ← st_lift (of_option OpKeyError (counts !! wi_workspace_ref_hash i));
  _ ← st_modify (count_down (wi_workspace_ref_hash i) count);
  st_modify (fun q => {| _items := _items q; _by_id := _by_id q; _workspace_counts := _workspace_counts q;
                         _cost := _cost q - units i |}).

(** [while self._items: ...] *)
Fixpoint pop_loop (now : string) (items : list BoundedWorkItem) : queue_method (option BoundedWorkItem) :=
  match items with
  | [] => mret None
  | i :: items =>
      _ ← st_modify (set_items items);
      _ ← _remove_accounting i;
      expired ← st_lift (_expired i now);
      if (expired : bool) then pop_loop now items else mret (Some i)
  end.

(** [BoundedWorkQueue.pop] *)
Definition queue_pop (now : string) : queue_method (option BoundedWorkItem) :=
  _ ← st_lift (_timestamp now);
  items ← st_gets _items;
  pop_loop now items.

(** [BoundedWorkItem.from_mapping(json.loads(payload))] *)
Definition work_of_payload (payload : string) : result operability_error BoundedWorkItem :=
  j ← of_option OpValueError (json_loads payload);
  match j with
  | JObj ms => work_from_mapping (map (fun kv => (kv.1, of_json kv.2)) ms)
  | _ => Err OpTypeError
  end.

(** [BoundedWorkQueue.remove] *)
Definition queue_remove (id : string) : queue_method bool :=
  q ← st_get;
  match _by_id q !! id with
  | None => mret false
  | Some payload =>
      i ← st_lift (work_of_payload payload);
      _ ← st_modify (set_items (List.filter (fun v => negb (String.eqb (work_id v) id)) (_items q)));
      _ ← _remove_accounting i;
      mret true
  end.

(** [size] and [cost_units] *)
Definition queue_size : queue_method Z := st_gets (fun q => Z.of_nat (length (_items q))).
Definition queue_cost_units : queue_method Z := st_gets _cost.

(** ** [RetryBudget] *)

Record BudgetDecision : Type := { bd_allowed : bool; bd_error_code : option string; bd_attempts : string; bd_total : string }.

Definition budget_decision (allowed : bool) (error : option string) (attempts total : Z) : BudgetDecision :=
  {| bd_allowed := allowed; bd_error_code := error; bd_attempts := str_of_Z attempts; bd_total := str_of_Z total |}.

Notation budget_method := (st RetryBudget operability_error).

(** [RetryBudget.reserve] *)
Definition reserve (operation cost_units : string) : budget_method BudgetDecision :=
  _ ← st_lift (_hex64 operation);
  cost ← st_lift (_uint true cost_units);
  b ← st_get;
  let current := b !! operation in
  if bool_decide (current = None) && (max_operations l <=? Z.of_nat (size b))
  then mret (budget_decision false (Some "operation_budget_store_full") 0 0)
  else
    let '(attempts, total) := default (0, 0) current in
    if max_attempts l <? attempts + 1 then mret (budget_decision false (Some "retry_attempt_budget_exceeded") attempts total)
    else if max_total_cost_units l <? total + Z.of_N cost
    then mret (budget_decision false (Some "retry_cost_budget_exceeded") attempts total)
    else
      _ ← st_modify <[operation := (attempts + 1, total + Z.of_N cost)]>;
      mret (budget_decision true None (attempts + 1) (total + Z.of_N cost)).

(** [RetryBudget.rollback] *)
Definition rollback (operation cost_units : string) : budget_method unit :=
  _ ← st_lift (_hex64 operation);
  cost ← st_lift (_uint true cost_units);
  b ← st_get;
  match b !! operation with
  | None => mret tt
  | Some (attempts, total) =>
      _ ← st_lift (ensure (negb ((attempts <? 1) || (total <? Z.of_N cost))) (OpError "retry_budget_underflow"));
      if attempts - 1 =? 0 then st_modify (delete operation)
      else st_modify <[operation := (attempts - 1, total - Z.of_N cost)]>
  end.

(** [RetryBudget.complete] *)
Definition complete (operation : string) : budget_method unit :=
  _ ← st_lift (_hex64 operation); st_modify (delete operation).

(** [RetryBudget.state] *)
Definition budget_state (operation : string) : budget_method (option (string * string)) :=
  b ← st_get; mret ((fun v => (str_of_Z (fst v), str_of_Z (snd v))) <$> b !! operation).

(** ** [CircuitBreaker] *)

Inductive CircuitState : Type := CLOSED | OPEN | HALF_OPEN.

Definition circuit_value (s : CircuitState) : string :=
  match s with CLOSED => "closed" | OPEN => "open" | HALF_OPEN => "half_open" end.

Record CircuitBreaker : Type := { _state : CircuitState; _failures : Z; _opened_at : option Z; _half_open_inflight : bool }.

Definition closed_circuit : CircuitBreaker :=
  {| _state := CLOSED; _failures := 0; _opened_at := None; _half_open_inflight := false |}.

Record CircuitDecision : Type := { cd_allowed : bool; cd_state : string; cd_error_code : option string; cd_retry_after_ms : option string }.

Notation circuit_method := (st CircuitBreaker operability_error).

Definition set_probe (state : CircuitState) (inflight : bool) (c : CircuitBreaker) : CircuitBreaker :=
  {| _state := state; _failures := _failures c; _opened_at := _opened_at c; _half_open_inflight := inflight |}.

Definition refuse (state : CircuitState) (error retry : string) : CircuitDecision :=
  {| cd_allowed := false; cd_state := circuit_value state; cd_error_code := Some error; cd_retry_after_ms := Some retry |}.
Definition permit (state : CircuitState) : CircuitDecision :=
  {| cd_allowed := true; cd_state := circuit_value state; cd_error_code := None; cd_retry_after_ms := None |}.

(** The one probe of a half-open circuit. *)
Definition take_probe : circuit_method CircuitDecision :=
  c ← st_get;
  if _half_open_inflight c then mret (refuse (_state c) "circuit_half_open_busy" "1000")
  else _ ← st_modify (set_probe (_state c) true); mret (permit (_state c)).

(** Microseconds since the circuit opened; the code's floats are exact for whole seconds. *)
Definition before_call (now : string) : circuit_method CircuitDecision :=
  current ← st_lift (_timestamp now);
  c ← st_get;
  match _state c with
  | CLOSED => mret (permit CLOSED)
  | OPEN =>
      opened ← st_lift (of_option OpAssertionError (_opened_at c));
      let elapsed := current - opened in
      let reset := reset_after_seconds l * SECOND in
      if elapsed <? reset then mret (refuse OPEN "circuit_open" (str_of_Z (Z.max 1 ((reset - elapsed) / 1000))))
      else _ ← st_modify (set_probe HALF_OPEN false); take_probe
  | HALF_OPEN => take_probe
  end.

(** [state] *)
Definition circuit_state : circuit_method string := st_gets (fun c => circuit_value (_state c)).

Definition cancel_probe : circuit_method unit :=
  st_modify (fun c => match _state c with HALF_OPEN => set_probe HALF_OPEN false c | _ => c end).

Definition circuit_success : circuit_method unit := st_put closed_circuit.

Definition circuit_failure (now : string) : circuit_method unit :=
  current ← st_lift (_timestamp now);
  st_modify (fun c =>
    let failures := _failures c + 1 in
    let trips := match _state c with HALF_OPEN => true | _ => failure_threshold l <=? failures end in
    {| _state := if trips then OPEN else _state c; _failures := failures;
       _opened_at := if trips then Some current else _opened_at c; _half_open_inflight := false |}).

(** ** [BackpressureController] *)

Record Pressure : Type := { queue : BoundedWorkQueue; budget : RetryBudget; circuit : CircuitBreaker }.

Definition idle : Pressure := {| queue := empty_queue; budget := ∅; circuit := closed_circuit |}.

Notation method := (st Pressure operability_error).

Definition on_queue {A} (m : queue_method A) : method A := fun p =>
  let '(q, r) := m (queue p) in ({| queue := q; budget := budget p; circuit := circuit p |}, r).
Definition on_budget {A} (m : budget_method A) : method A := fun p =>
  let '(b, r) := m (budget p) in ({| queue := queue p; budget := b; circuit := circuit p |}, r).
Definition on_circuit {A} (m : circuit_method A) : method A := fun p =>
  let '(c, r) := m (circuit p) in ({| queue := queue p; budget := budget p; circuit := c |}, r).

(** What the other threads do with the three objects between two steps. *)
Context (others : Pressure -> Pressure).

Definition meanwhile {A} (m : method A) : method A := fun p => m (others p).

Definition submit (i : BoundedWorkItem) (now : string) : method QueueDecision :=
  gate ← on_circuit (before_call now);
  if cd_allowed gate then
    queued ← meanwhile (on_queue (queue_submit i now));
    if String.eqb (qd_status queued) "accepted" then
      charge ← meanwhile (on_budget (reserve (wi_operation_ref_hash i) (cost_units i)));
      if bd_allowed charge then mret queued
      else
        _ ← meanwhile (on_queue (queue_remove (work_id i)));
        _ ← meanwhile (on_circuit cancel_probe);
        mret (queue_decision "rejected" (work_id i) (bd_error_code charge) None)
    else
      _ ← meanwhile (on_circuit cancel_probe); mret queued
  else mret (queue_decision "retry_later" (work_id i) (cd_error_code gate) (cd_retry_after_ms gate)).

Definition record_success (operation : string) : method unit :=
  _ ← on_budget (complete operation); meanwhile (on_circuit circuit_success).

Definition record_failure (now : string) : method unit := on_circuit (circuit_failure now).

Definition cancel (i : BoundedWorkItem) : method unit :=
  removed ← on_queue (queue_remove (work_id i));
  _ ← (if (removed : bool) then meanwhile (on_budget (rollback (wi_operation_ref_hash i) (cost_units i))) else mret tt);
  meanwhile (on_circuit cancel_probe).
End Machine.
