(* ===== verification/BackpressureInvariants.v ===== *)
(** * Bounded work: accounts and limits

    What the counters of the queue stand for, the outcome of each method of the queue, the
    budget and the circuit, and that every one of them, with the methods of the controller
    run step by step among other threads, keeps the invariant of the three. *)
From S2P Require Import Prelude Digest Json Canonical Contracts Timestamps OperabilityContracts Backpressure.
Open Scope string_scope.
#[local] Open Scope Z_scope.

Section Accounts.
Context {U : Unicode} {D : Digest} {R : JsonReader} (l : Limits).

(** ** What the queue's three counters stand for *)

Definition payload_of (i : BoundedWorkItem) : string :=
  match record_bytes (work_to_mapping i) with Ok data => data | Err _ => "" end.

Definition in_workspace (ws : string) (i : BoundedWorkItem) : bool := String.eqb (wi_workspace_ref_hash i) ws.
Definition workspace_items (ws : string) (items : list BoundedWorkItem) : Z := Z.of_nat (length (List.filter (in_workspace ws) items)).
Definition total_units (items : list BoundedWorkItem) : Z := foldr (fun i z => units i + z) 0 items.
Definition positive_entry (n : Z) : option Z := if n =? 0 then None else Some n.

Record accounted (q : BoundedWorkQueue) : Prop := {
  ac_ids : NoDup (map work_id (_items q));
  ac_valid : Forall work_valid (_items q);
  ac_by_id : forall id payload, _by_id q !! id = Some payload <-> exists i, i ∈ _items q /\ work_id i = id /\ payload_of i = payload;
  ac_counts : forall ws, _workspace_counts q !! ws = positive_entry (workspace_items ws (_items q));
  ac_cost : _cost q = total_units (_items q);
}.

Record within_limits (q : BoundedWorkQueue) : Prop := {
  wl_items : Z.of_nat (length (_items q)) <= max_items l;
  wl_workspace : forall ws, workspace_items ws (_items q) <= per_workspace_max_items l;
  wl_cost : _cost q <= max_cost_units l;
}.

Definition queue_ok (q : BoundedWorkQueue) : Prop := accounted q /\ within_limits q.

Lemma payload_of_ok i : work_valid i -> record_bytes (work_to_mapping i) = Ok (payload_of i).
Proof. intros [d Hd]%work_bytes_total. unfold payload_of. by rewrite Hd. Qed.

Lemma units_nonneg i : 0 <= units i.
Proof. unfold units. destruct (int_of_str (cost_units i)); cbn; lia. Qed.

(** The deadline of a valid item can be read. *)
Lemma expired_total i now n : work_valid i -> _timestamp now = Ok n -> exists b, _expired i now = Ok b.
Proof.
  intros Hi Hn. destruct (proj2 (work_post_facts _ _ Hi)) as [_ [t Ht]].
  exists (t <=? n). unfold _expired. by rewrite Hn, Ht.
Qed.

Lemma in_workspace_self i : in_workspace (wi_workspace_ref_hash i) i = true.
Proof. apply String.eqb_refl. Qed.
Lemma in_workspace_other ws i : ws <> wi_workspace_ref_hash i -> in_workspace ws i = false.
Proof. intros H. apply String.eqb_neq. congruence. Qed.

Lemma workspace_items_app ws l1 l2 : workspace_items ws (l1 ++ l2) = workspace_items ws l1 + workspace_items ws l2.
Proof. unfold workspace_items. rewrite List.filter_app, length_app. lia. Qed.
Lemma workspace_items_one ws i items :
  workspace_items ws (i :: items) = (if in_workspace ws i then 1 else 0) + workspace_items ws items.
Proof. unfold workspace_items. cbn. destruct (in_workspace ws i); cbn; lia. Qed.
Lemma workspace_items_last ws i items :
  workspace_items ws (items ++ [i]) = workspace_items ws items + (if in_workspace ws i then 1 else 0).
Proof. rewrite workspace_items_app, workspace_items_one. unfold workspace_items at 2. cbn [List.filter length]. lia. Qed.
Lemma workspace_items_nonneg ws items : 0 <= workspace_items ws items.
Proof. unfold workspace_items. lia. Qed.
Lemma total_units_app l1 l2 : total_units (l1 ++ l2) = total_units l1 + total_units l2.
Proof. unfold total_units. induction l1 as [|i l1 IH]; [done|]. cbn. lia. Qed.
Lemma total_units_nonneg items : 0 <= total_units items.
Proof. unfold total_units. induction items as [|i items IH]; [done|]. cbn. pose proof (units_nonneg i). lia. Qed.

Lemma empty_queue_ok : limits_ok l = true -> queue_ok empty_queue.
Proof.
  unfold limits_ok. intros H. split_and_bool. split; split; cbn; try done; try lia.
  - constructor.
  - intros id p. rewrite lookup_empty. split; [done | intros (i & Hi & _); by apply elem_of_nil in Hi].
  - intros ws. unfold workspace_items. cbn. lia.
Qed.

(** ** One item leaves *)

Definition remove_item (i : BoundedWorkItem) (items : list BoundedWorkItem) (q : BoundedWorkQueue) : BoundedWorkQueue :=
  let count := workspace_items (wi_workspace_ref_hash i) (_items q) in
  {| _items := items; _by_id := delete (work_id i) (_by_id q);
     _workspace_counts := if count - 1 =? 0 then delete (wi_workspace_ref_hash i) (_workspace_counts q)
                          else <[wi_workspace_ref_hash i := count - 1]> (_workspace_counts q);
     _cost := _cost q - units i |}.

Lemma remove_accounting_run q pre i post : accounted q -> _items q = (pre ++ i :: post)%list ->
  _remove_accounting i (set_items (pre ++ post)%list q) = (remove_item i (pre ++ post)%list q, Ok tt).
Proof.
  intros A Hq. unfold _remove_accounting, remove_item. pose proof (ac_counts _ A (wi_workspace_ref_hash i)) as C.
  assert (P : positive_entry (workspace_items (wi_workspace_ref_hash i) (_items q)) = Some (workspace_items (wi_workspace_ref_hash i) (_items q))).
  { unfold positive_entry. rewrite Hq, workspace_items_app, workspace_items_one, in_workspace_self.
    pose proof (workspace_items_nonneg (wi_workspace_ref_hash i) pre). pose proof (workspace_items_nonneg (wi_workspace_ref_hash i) post).
    destruct (_ =? _) eqn:E; [lia | done]. }
  rewrite P in C. cbn. unfold mbind, st_bind, st_modify, st_gets, st_lift. cbn. rewrite C. cbn. unfold count_down. cbn. done.
Qed.

Lemma remove_item_accounted q pre i post : accounted q -> _items q = (pre ++ i :: post)%list ->
  accounted (remove_item i (pre ++ post)%list q).
Proof.
  intros A Hq. destruct A as [Hn Hv Hb Hc Hu]. rewrite Hq in Hn, Hv, Hb, Hc, Hu.
  rewrite map_app in Hn. cbn in Hn. apply list.NoDup_app in Hn as (N1 & N2 & [N3 N4]%list.NoDup_cons).
  assert (Hi : forall v, v ∈ (pre ++ post)%list -> work_id v <> work_id i).
  { intros v [Hp|Hp]%elem_of_app E.
    - apply (N2 (work_id i)); [rewrite <- E; apply list_elem_of_fmap_2, Hp | left].
    - apply N3. rewrite <- E. apply list_elem_of_fmap_2, Hp. }
  split; cbn.
  - rewrite map_app. apply list.NoDup_app. split_and!; [done | | done]. intros x Hx Hx'. apply (N2 x Hx). by right.
  - apply list.Forall_app in Hv as [? [_ ?]%list.Forall_cons]. by apply list.Forall_app.
  - intros id p. rewrite lookup_delete_Some, Hb. split.
    + intros (Hne & v & Hv' & <- & <-). exists v. split_and!; try done. apply elem_of_app in Hv' as [?|Hv'].
      * apply elem_of_app. by left.
      * apply elem_of_cons in Hv' as [-> | ?]; [done|]. apply elem_of_app. by right.
    + intros (v & Hv' & <- & <-). split; [by apply not_eq_sym, Hi|]. exists v. split_and!; try done.
      apply elem_of_app in Hv' as [?|?]; apply elem_of_app; [by left | right; by right].
  - intros ws. rewrite Hq, !workspace_items_app, workspace_items_one, in_workspace_self.
    pose proof (Hc ws) as C. rewrite workspace_items_app, workspace_items_one in C.
    pose proof (workspace_items_nonneg ws pre). pose proof (workspace_items_nonneg ws post). unfold positive_entry in *.
    destruct (decide (ws = wi_workspace_ref_hash i)) as [->|Hne].
    + destruct (_ - 1 =? 0) eqn:E.
      * rewrite lookup_delete_eq. by rewrite (proj2 (Z.eqb_eq _ _)) by lia.
      * rewrite lookup_insert_eq, (proj2 (Z.eqb_neq _ _)) by lia. f_equal; lia.
    + rewrite in_workspace_other in C by done. destruct (_ - 1 =? 0).
      * rewrite lookup_delete_ne by done. by rewrite C.
      * rewrite lookup_insert_ne by done. by rewrite C.
  - rewrite Hu, !total_units_app. change (total_units (i :: post)) with (units i + total_units post). lia.
Qed.

Lemma remove_item_within q pre i post : within_limits q -> _items q = (pre ++ i :: post)%list ->
  within_limits (remove_item i (pre ++ post)%list q).
Proof.
  intros [L1 L2 L3] Hq. rewrite Hq in L1, L2. split; cbn.
  - rewrite length_app in *. cbn in L1. lia.
  - intros ws. specialize (L2 ws). rewrite workspace_items_app in *. rewrite workspace_items_one in L2. destruct (in_workspace ws i); lia.
  - pose proof (units_nonneg i). lia.
Qed.

(** ** One item enters *)

(** Why an item is not taken. *)
Definition refused_for (i : BoundedWorkItem) (now : string) (q : BoundedWorkQueue) : option QueueDecision :=
  let decide_ status error retry := Some (queue_decision status (work_id i) error retry) in
  match _by_id q !! work_id i with
  | Some existing =>
      if String.eqb existing (payload_of i) then decide_ "duplicate" None None
      else decide_ "rejected" (Some "work_binding_conflict") None
  | None =>
      if bool_decide (_expired i now = Ok true) then decide_ "rejected" (Some "work_deadline_expired") None
      else if max_items l <=? Z.of_nat (length (_items q)) then decide_ "retry_later" (Some "queue_full") (Some "1000")
      else if per_workspace_max_items l <=? workspace_items (wi_workspace_ref_hash i) (_items q)
      then decide_ "retry_later" (Some "workspace_queue_full") (Some "1000")
      else if max_cost_units l <? _cost q + units i then decide_ "retry_later" (Some "queue_cost_budget_exceeded") (Some "1000")
      else None
  end.

Definition enqueued (i : BoundedWorkItem) (q : BoundedWorkQueue) : BoundedWorkQueue :=
  enqueue i (payload_of i) (workspace_items (wi_workspace_ref_hash i) (_items q)) q.

Lemma queue_submit_run i now n q : queue_ok q -> work_valid i -> _timestamp now = Ok n ->
  queue_submit l i now q =
    match refused_for i now q with
    | Some d => (q, Ok d)
    | None => (enqueued i q, Ok (queue_decision "accepted" (work_id i) None None))
    end.
Proof.
  intros [A _] Hi Hn. destruct (expired_total i now n Hi Hn) as [b Hb].
  assert (C : default 0 (_workspace_counts q !! wi_workspace_ref_hash i) = workspace_items (wi_workspace_ref_hash i) (_items q)).
  { rewrite (ac_counts _ A). unfold positive_entry. destruct (_ =? 0) eqn:E; cbn; lia. }
  unfold queue_submit, refused_for, enqueued, st_get, st_lift, st_modify, mbind, st_bind.
  rewrite Hn, (payload_of_ok _ Hi), Hb. cbv zeta beta iota. destruct (_by_id q !! work_id i) as [e|].
  - by destruct (String.eqb e (payload_of i)).
  - rewrite C. destruct b; [done|]. cbv iota. rewrite (bool_decide_eq_false_2 (Ok false = Ok true)) by done.
    by repeat (case_match; [done|]).
Qed.

Lemma refused_not_accepted i now q d : refused_for i now q = Some d -> String.eqb (qd_status d) "accepted" = false.
Proof. unfold refused_for. repeat case_match; intros [= <-]; done. Qed.

Lemma not_refused i now q : refused_for i now q = None ->
  _by_id q !! work_id i = None /\ Z.of_nat (length (_items q)) < max_items l /\
  workspace_items (wi_workspace_ref_hash i) (_items q) < per_workspace_max_items l /\ _cost q + units i <= max_cost_units l.
Proof. unfold refused_for. repeat case_match; try done. intros _. split; [done|]. lia. Qed.

Lemma enqueued_ok i now q : queue_ok q -> work_valid i -> refused_for i now q = None -> queue_ok (enqueued i q).
Proof.
  intros [[Hn Hv Hb Hc Hu] [L1 L2 L3]] Hi (H0 & H1 & H2 & H3)%not_refused. split; split; cbn.
  - rewrite map_app. apply list.NoDup_app. split_and!; [done | | apply NoDup_singleton].
    intros x Hx ->%list_elem_of_singleton. apply list_elem_of_fmap in Hx as (v & Hv' & Hvi).
    assert (_by_id q !! work_id i = Some (payload_of v)) by (apply Hb; by exists v). congruence.
  - apply list.Forall_app. split; [done|]. by constructor.
  - intros id p. rewrite lookup_insert_Some, Hb. split.
    + intros [[<- <-] | (Hne & v & ? & ? & ?)]; [exists i | exists v]; split_and!; try done; apply elem_of_app; [right; by left | by left].
    + intros (v & [Hv' | ->%list_elem_of_singleton]%elem_of_app & <- & <-); [right | by left].
      assert (E : _by_id q !! work_id v = Some (payload_of v)) by (apply Hb; by exists v).
      split; [congruence | by exists v].
  - intros ws. rewrite workspace_items_last.
    destruct (decide (ws = wi_workspace_ref_hash i)) as [->|Hne].
    + rewrite lookup_insert_eq, in_workspace_self. pose proof (workspace_items_nonneg (wi_workspace_ref_hash i) (_items q)).
      unfold positive_entry. rewrite (proj2 (Z.eqb_neq _ _)) by lia. f_equal; lia.
    + rewrite lookup_insert_ne, in_workspace_other by done. rewrite Hc. f_equal; lia.
  - rewrite total_units_app, Hu. cbn. lia.
  - rewrite length_app. cbn. lia.
  - intros ws. specialize (L2 ws). rewrite workspace_items_last.
    destruct (in_workspace ws i) eqn:E; [|lia]. apply String.eqb_eq in E as <-. lia.
  - done.
Qed.

(** Taking the item back restores the queue. *)
Lemma remove_enqueued i now q : accounted q -> refused_for i now q = None -> remove_item i (_items q) (enqueued i q) = q.
Proof.
  intros [Hn Hv Hb Hc Hu] (H0 & _)%not_refused. unfold remove_item, enqueued, enqueue. cbn.
  rewrite workspace_items_last, in_workspace_self.
  pose proof (Hc (wi_workspace_ref_hash i)) as C. pose proof (workspace_items_nonneg (wi_workspace_ref_hash i) (_items q)).
  unfold positive_entry in C. destruct q as [items ids counts cost]. cbn in *. f_equal; [by rewrite delete_insert_id | | lia].
  destruct (workspace_items _ items =? 0) eqn:E in C.
  - rewrite (proj2 (Z.eqb_eq _ _)) by lia. by rewrite delete_insert_id.
  - rewrite (proj2 (Z.eqb_neq _ _)) by lia. rewrite insert_insert_eq. apply insert_id. rewrite C. f_equal; lia.
Qed.

(** ** Items taken out *)

(** The first item whose deadline has not passed, and what is behind it. *)
Fixpoint first_live (now : string) (items : list BoundedWorkItem) : option BoundedWorkItem * list BoundedWorkItem :=
  match items with
  | [] => (None, [])
  | i :: items => if bool_decide (_expired i now = Ok true) then first_live now items else (Some i, items)
  end.

Lemma pop_loop_run now n : _timestamp now = Ok n -> forall items q, queue_ok q -> _items q = items ->
  exists q', pop_loop now items q = (q', Ok (fst (first_live now items))) /\ queue_ok q' /\ _items q' = snd (first_live now items).
Proof.
  intros Hn. induction items as [|i items IH]; intros q Hq Hi; [by exists q|].
  destruct Hq as [A L].
  pose proof (remove_accounting_run q [] i items A Hi) as Hr. cbn [app] in Hr.
  pose proof (remove_item_accounted q [] i items A Hi) as A'. pose proof (remove_item_within q [] i items L Hi) as L'. cbn [app] in A', L'.
  assert (Hv : work_valid i) by (pose proof (ac_valid _ A) as V; rewrite Hi in V; by apply list.Forall_cons in V as [? _]).
  destruct (expired_total i now n Hv Hn) as [b Hb].
  cbn [pop_loop first_live]. rewrite (st_bind_run _ _ q (set_items items q) tt) by done. rewrite (st_bind_run _ _ _ _ _ Hr).
  rewrite (st_bind_run _ _ _ (remove_item i items q) b) by (unfold st_lift; by rewrite Hb). rewrite Hb.
  destruct b.
  - rewrite bool_decide_true by done. by apply IH.
  - rewrite bool_decide_false by done. by exists (remove_item i items q).
Qed.

Lemma queue_pop_run now n q : _timestamp now = Ok n -> queue_ok q ->
  exists q', queue_pop now q = (q', Ok (fst (first_live now (_items q)))) /\ queue_ok q' /\ _items q' = snd (first_live now (_items q)).
Proof.
  intros Hn Hq. unfold queue_pop. rewrite (st_bind_run _ _ q q n) by (unfold st_lift; by rewrite Hn).
  rewrite (st_bind_run _ _ q q (_items q)) by done. by apply (pop_loop_run now n).
Qed.

Lemma work_of_payload_ok i : work_valid i -> work_of_payload (payload_of i) = Ok i.
Proof.
  intros Hi. destruct (work_reread i _ Hi (payload_of_ok i Hi)) as (ms & Hms & Hw). unfold work_of_payload. by rewrite Hms.
Qed.

Lemma filter_out_one pre i post : NoDup (map work_id (pre ++ i :: post)) ->
  List.filter (fun v => negb (String.eqb (work_id v) (work_id i))) (pre ++ i :: post) = (pre ++ post)%list.
Proof.
  rewrite map_app, list.NoDup_app. cbn. rewrite list.NoDup_cons. intros (_ & H1 & H2 & _). rewrite List.filter_app. cbn.
  rewrite String.eqb_refl. cbn.
  assert (K : forall vs, work_id i ∉ map work_id vs -> List.filter (fun v => negb (String.eqb (work_id v) (work_id i))) vs = vs).
  { induction vs as [|v vs IH]; [done|]. cbn. rewrite not_elem_of_cons. intros [Hv Hvs].
    rewrite (proj2 (String.eqb_neq _ _)) by congruence. cbn. by rewrite IH. }
  rewrite !K; [done | done |]. intros H. apply (H1 _ H). by left.
Qed.

Lemma queue_remove_run q pre i post : accounted q -> _items q = (pre ++ i :: post)%list ->
  queue_remove (work_id i) q = (remove_item i (pre ++ post)%list q, Ok true).
Proof.
  intros A Hq. assert (Hin : i ∈ _items q) by (rewrite Hq; apply elem_of_app; right; by left).
  assert (Hv : work_valid i) by (pose proof (ac_valid _ A) as V; by apply (proj1 (list.Forall_forall _ _) V)).
  assert (Hb : _by_id q !! work_id i = Some (payload_of i)) by (apply (ac_by_id _ A); by exists i).
  unfold queue_remove. rewrite (st_bind_run _ _ q q q) by done. rewrite Hb.
  rewrite (st_bind_run _ _ q q i) by (unfold st_lift; by rewrite work_of_payload_ok).
  rewrite Hq, filter_out_one by (rewrite <- Hq; apply (ac_ids _ A)).
  rewrite (st_bind_run _ _ q (set_items (pre ++ post)%list q) tt) by done.
  by rewrite (st_bind_run _ _ _ _ _ (remove_accounting_run q pre i post A Hq)).
Qed.

Lemma queue_remove_absent q id : _by_id q !! id = None -> queue_remove id q = (q, Ok false).
Proof. intros H. unfold queue_remove. rewrite (st_bind_run _ _ q q q) by done. by rewrite H. Qed.

(** [remove] always answers, and keeps the queue in order. *)
Lemma queue_remove_ok q id : queue_ok q ->
  exists q', queue_remove id q = (q', Ok (bool_decide (id ∈ map work_id (_items q)))) /\ queue_ok q'.
Proof.
  intros [A L]. destruct (_by_id q !! id) as [p|] eqn:E.
  - apply (ac_by_id _ A) in E as (i & Hi & <- & <-). rewrite bool_decide_true by (by apply list_elem_of_fmap_2).
    apply list_elem_of_split in Hi as (pre & post & Hq). exists (remove_item i (pre ++ post)%list q).
    split; [by apply queue_remove_run|]. split; [by apply remove_item_accounted | by apply remove_item_within].
  - exists q. rewrite bool_decide_false.
    + split; [by apply queue_remove_absent | done].
    + intros (i & -> & Hi)%list_elem_of_fmap. assert (_by_id q !! work_id i = Some (payload_of i)) by (apply (ac_by_id _ A); by exists i). congruence.
Qed.

(** Whatever time is given, no method leaves the queue out of order. *)
Lemma queue_submit_ok i now q : queue_ok q -> work_valid i -> queue_ok (fst (queue_submit l i now q)).
Proof.
  intros Hq Hi. destruct (_timestamp now) as [n|e] eqn:Hn.
  - rewrite (queue_submit_run i now n q Hq Hi Hn). destruct (refused_for i now q) eqn:E; [done|]. by eapply enqueued_ok.
  - unfold queue_submit. rewrite (st_bind_err _ _ q q e); [done|]. unfold st_lift. by rewrite Hn.
Qed.

Lemma queue_pop_ok now q : queue_ok q -> queue_ok (fst (queue_pop now q)).
Proof.
  intros Hq. destruct (_timestamp now) as [n|e] eqn:Hn.
  - by destruct (queue_pop_run now n q Hn Hq) as (q' & -> & ? & _).
  - unfold queue_pop. rewrite (st_bind_err _ _ q q e); [done|]. unfold st_lift. by rewrite Hn.
Qed.

(** ** The retry budget *)

Definition spent_ok (s : Z * Z) : Prop := 1 <= fst s <= max_attempts l /\ 0 <= snd s <= max_total_cost_units l.

Definition budget_ok (b : RetryBudget) : Prop :=
  Z.of_nat (size b) <= max_operations l /\ map_Forall (fun _ s => spent_ok s) b.

Definition spent (b : RetryBudget) (operation : string) : Z * Z := default (0, 0) (b !! operation).

(** Why an operation is not charged. *)
Definition overspent (b : RetryBudget) (operation : string) (cost : Z) : option string :=
  if bool_decide (b !! operation = None) && (max_operations l <=? Z.of_nat (size b)) then Some "operation_budget_store_full"
  else if max_attempts l <? fst (spent b operation) + 1 then Some "retry_attempt_budget_exceeded"
  else if max_total_cost_units l <? snd (spent b operation) + cost then Some "retry_cost_budget_exceeded"
  else None.

Definition charged (b : RetryBudget) (operation : string) (cost : Z) : RetryBudget :=
  <[operation := (fst (spent b operation) + 1, snd (spent b operation) + cost)]> b.

Lemma reserve_run op c cost b : _hex64 op = Ok op -> _uint true c = Ok cost ->
  exists d, reserve l op c b = (if bool_decide (overspent b op (Z.of_N cost) = None) then charged b op (Z.of_N cost) else b, Ok d) /\
    bd_allowed d = bool_decide (overspent b op (Z.of_N cost) = None) /\ bd_error_code d = overspent b op (Z.of_N cost).
Proof.
  intros Ho Hc. unfold reserve. rewrite (st_bind_run _ _ b b op) by (unfold st_lift; by rewrite Ho).
  rewrite (st_bind_run _ _ b b cost) by (unfold st_lift; by rewrite Hc). rewrite (st_bind_run _ _ b b b) by done.
  unfold overspent, charged, spent. destruct (_ && _); [by eexists|]. destruct (default (0, 0) (b !! op)) as [attempts total]. cbn [fst snd].
  destruct (max_attempts l <? _); [by eexists|]. destruct (max_total_cost_units l <? _); by eexists.
Qed.

Lemma charged_ok b op cost : 0 <= cost -> budget_ok b -> overspent b op cost = None -> budget_ok (charged b op cost).
Proof.
  intros Hc [Hs Hf]. unfold overspent, charged, spent. destruct (b !! op) as [s|] eqn:E.
  - rewrite bool_decide_false by done. cbn [andb default]. repeat case_match; try done. intros _.
    split; [rewrite map_size_insert_Some by eauto; done|]. apply map_Forall_insert_2; [|done].
    pose proof (map_Forall_lookup_1 _ _ _ _ Hf E) as [? ?]. split; cbn in *; lia.
  - rewrite bool_decide_true by done. cbn [andb default fst snd]. repeat case_match; try done. intros _.
    split; [rewrite map_size_insert_None by done; lia|]. apply map_Forall_insert_2; [|done]. split; cbn; lia.
Qed.

Lemma reserve_ok op c b : budget_ok b -> budget_ok (fst (reserve l op c b)).
Proof.
  intros Hb. destruct (_hex64 op) as [o|e] eqn:Ho.
  - assert (o = op) as -> by (by apply checked_ok in Ho as [_ ?]).
    destruct (_uint true c) as [cost|e] eqn:Hc.
    + destruct (reserve_run op c cost b Ho Hc) as (d & -> & _). cbn. destruct (bool_decide _) eqn:E; [|done].
      apply bool_decide_eq_true in E. apply charged_ok; [lia | done..].
    + unfold reserve. rewrite (st_bind_run _ _ b b op) by (unfold st_lift; by rewrite Ho).
      rewrite (st_bind_err _ _ b b e); [done|]. unfold st_lift. by rewrite Hc.
  - unfold reserve. rewrite (st_bind_err _ _ b b e); [done|]. unfold st_lift. by rewrite Ho.
Qed.

Lemma budget_delete_ok op b : budget_ok b -> budget_ok (delete op b).
Proof.
  intros [Hs Hf]. split; [|by apply map_Forall_delete]. rewrite map_size_delete. destruct (b !! op); cbn; lia.
Qed.

(** A refund of an operation with its attempts and its cost. *)
Lemma rollback_ok op c b : budget_ok b -> budget_ok (fst (rollback op c b)).
Proof.
  intros Hb. unfold rollback, st_lift, st_get, st_modify, mbind, st_bind.
  destruct (_hex64 op); [|done]. destruct (_uint true c) as [cost|]; [|done]. destruct (b !! op) as [[attempts total]|] eqn:E; [|done].
  destruct ((attempts <? 1) || (total <? Z.of_N cost)) eqn:G; cbn [negb ensure]; [done|].
  destruct (attempts - 1 =? 0) eqn:A; cbn [fst]; [by apply budget_delete_ok|].
  destruct Hb as [Hs Hf]. pose proof (map_Forall_lookup_1 _ _ _ _ Hf E) as [? ?].
  split; [rewrite map_size_insert_Some by eauto; done|]. apply map_Forall_insert_2; [|done]. split; cbn in *; lia.
Qed.

Lemma complete_ok op b : budget_ok b -> budget_ok (fst (complete op b)).
Proof.
  intros Hb. unfold complete, st_lift, st_modify, mbind, st_bind. destruct (_hex64 op); [by apply budget_delete_ok | done].
Qed.

(** ** The circuit *)

(** A circuit that is not closed has tripped and knows when; only a half-open one has a
    probe out. *)
Definition circuit_ok (c : CircuitBreaker) : Prop :=
  0 <= _failures c /\ (_half_open_inflight c = true -> _state c = HALF_OPEN) /\
  (_failures c < failure_threshold l <-> _state c = CLOSED) /\ (_state c <> CLOSED -> exists t, _opened_at c = Some t).

Lemma take_probe_ok c : circuit_ok c -> _state c <> CLOSED -> _state c <> OPEN -> circuit_ok (fst (take_probe c)).
Proof.
  intros Hok Hc Ho. unfold take_probe, st_get, st_modify, mbind, st_bind. destruct (_half_open_inflight c) eqn:E; [done|].
  destruct Hok as (H0 & H1 & H2 & H3). split_and!; cbn; try done. intros _. by destruct (_state c).
Qed.

Lemma before_call_ok now c : circuit_ok c -> circuit_ok (fst (before_call l now c)).
Proof.
  intros Hc. unfold before_call, st_get, st_lift, st_modify, mbind, st_bind. destruct (_timestamp now) as [n|]; [|done].
  destruct (_state c) eqn:Es; [done | |].
  - destruct (_opened_at c) as [t|] eqn:Et; [|done]. cbn [of_option]. destruct (_ <? _); [done|].
    apply take_probe_ok; cbn; try done. destruct Hc as (H0 & H1 & H2 & H3). split_and!; cbn; try done; [|eauto].
    rewrite H2, Es. by split.
  - apply take_probe_ok; [done | congruence..].
Qed.

Lemma cancel_probe_ok c : circuit_ok c -> circuit_ok (fst (cancel_probe c)).
Proof.
  intros Hok. unfold cancel_probe, st_modify. cbn. destruct (_state c) eqn:E; try done.
  destruct Hok as (H0 & H1 & H2 & H3). split_and!; cbn; try done; [by rewrite H2, E | intros _; apply H3; congruence].
Qed.

Lemma circuit_failure_ok now c : circuit_ok c -> circuit_ok (fst (circuit_failure l now c)).
Proof.
  intros (H0 & H1 & H2 & H3). unfold circuit_failure, st_lift, st_modify, mbind, st_bind. destruct (_timestamp now) as [n|]; [|done].
  cbn. assert (K : _state c <> CLOSED -> failure_threshold l <= _failures c) by (intros Hn; apply Z.nlt_ge; by intros ?%H2).
  unfold circuit_ok. cbn. destruct (match _state c with HALF_OPEN => true | _ => failure_threshold l <=? _failures c + 1 end) eqn:T.
  - assert (failure_threshold l <= _failures c + 1) by (destruct (_state c); try lia; specialize (K ltac:(done)); lia).
    split_and!; [lia | done | split; [lia | done] | eauto].
  - destruct (_state c) eqn:E; [| specialize (K ltac:(done)); lia | done]. split_and!; [lia | done | split; [done | lia] | done].
Qed.

(** ** The three together, under interleaving *)

Definition pressure_ok (p : Pressure) : Prop := queue_ok (queue p) /\ budget_ok (budget p) /\ circuit_ok (circuit p).

(** A method of one of the three objects, from any thread. *)
Inductive atomic : Pressure -> Pressure -> Prop :=
| at_queue_submit i now p : work_valid i -> atomic p (on_queue (queue_submit l i now) p).1
| at_queue_pop now p : atomic p (on_queue (queue_pop now) p).1
| at_queue_remove id p : atomic p (on_queue (queue_remove id) p).1
| at_reserve operation cost p : atomic p (on_budget (reserve l operation cost) p).1
| at_rollback operation cost p : atomic p (on_budget (rollback operation cost) p).1
| at_complete operation p : atomic p (on_budget (complete operation) p).1
| at_before_call now p : atomic p (on_circuit (before_call l now) p).1
| at_cancel_probe p : atomic p (on_circuit cancel_probe p).1
| at_circuit_success p : atomic p (on_circuit circuit_success p).1
| at_circuit_failure now p : atomic p (on_circuit (circuit_failure l now) p).1.

(** A method of the controller, with what other threads do between its steps. *)
Inductive call : Pressure -> Pressure -> Prop :=
| call_atomic p p' : atomic p p' -> call p p'
| call_submit others i now p : (forall p, rtc atomic p (others p)) -> work_valid i -> call p (submit l others i now p).1
| call_record_success others operation p : (forall p, rtc atomic p (others p)) -> call p (record_success others operation p).1
| call_record_failure now p : call p (record_failure l now p).1
| call_cancel others i p : (forall p, rtc atomic p (others p)) -> call p (cancel others i p).1.

Lemma on_queue_ok {A} (m : st BoundedWorkQueue operability_error A) p : pressure_ok p -> queue_ok (m (queue p)).1 -> pressure_ok (on_queue m p).1.
Proof. intros (? & ? & ?). unfold on_queue. by destruct (m (queue p)). Qed.
Lemma on_budget_ok {A} (m : st (gmap string (Z * Z)) operability_error A) p : pressure_ok p -> budget_ok (m (budget p)).1 -> pressure_ok (on_budget m p).1.
Proof. intros (? & ? & ?). unfold on_budget. by destruct (m (budget p)). Qed.
Lemma on_circuit_ok {A} (m : st CircuitBreaker operability_error A) p : pressure_ok p -> circuit_ok (m (circuit p)).1 -> pressure_ok (on_circuit m p).1.
Proof. intros (? & ? & ?). unfold on_circuit. by destruct (m (circuit p)). Qed.

Lemma closed_ok : limits_ok l = true -> circuit_ok closed_circuit.
Proof. unfold limits_ok. intros H. split_and_bool. split_and!; cbn; try done; try lia; split; [done | lia]. Qed.

Lemma atomic_ok p p' : limits_ok l = true -> pressure_ok p -> atomic p p' -> pressure_ok p'.
Proof.
  intros Hl Hp Ha. pose proof Hp as (Hq & Hb & Hc).
  destruct Ha; [apply on_queue_ok | apply on_queue_ok | apply on_queue_ok | apply on_budget_ok | apply on_budget_ok | apply on_budget_ok
               | apply on_circuit_ok | apply on_circuit_ok | apply on_circuit_ok | apply on_circuit_ok]; try done.
  - by apply queue_submit_ok.
  - by apply queue_pop_ok.
  - by destruct (queue_remove_ok (queue p) id Hq) as (q' & -> & ?).
  - by apply reserve_ok.
  - by apply rollback_ok.
  - by apply complete_ok.
  - by apply before_call_ok.
  - by apply cancel_probe_ok.
  - by apply closed_ok.
  - by apply circuit_failure_ok.
Qed.

Lemma atomic_steps_ok p p' : limits_ok l = true -> pressure_ok p -> rtc atomic p p' -> pressure_ok p'.
Proof. intros Hl Hp Hs. induction Hs as [|x y z Ha _ IH]; [done|]. by apply IH, (atomic_ok x y). Qed.

(** The steps of a method of the controller are atomic steps. *)
Section Steps.
Context (others : Pressure -> Pressure) (Ho : forall p, rtc atomic p (others p)).

Lemma keeps_once {A} (m : st Pressure operability_error A) : (forall p, atomic p (m p).1) -> keeps (rtc atomic) m.
Proof. intros H p. by apply rtc_once. Qed.
Lemma keeps_meanwhile {A} (m : st Pressure operability_error A) : (forall p, atomic p (m p).1) -> keeps (rtc atomic) (meanwhile others m).
Proof using Ho. intros H p. etrans; [apply Ho | by apply rtc_once]. Qed.

(** A chain of calls, each an atomic step or nothing. *)
Ltac keep_calls :=
  repeat first
    [ apply keeps_bind; [apply _ | | intros ?]
    | apply keeps_meanwhile; by constructor
    | apply keeps_once; by constructor
    | apply keeps_pure; [apply _ | done]
    | case_match ].

Lemma submit_steps i now : work_valid i -> keeps (rtc atomic) (submit l others i now).
Proof using Ho. intros Hi. unfold submit. keep_calls. Qed.

Lemma record_success_steps operation : keeps (rtc atomic) (record_success others operation).
Proof using Ho. unfold record_success. keep_calls. Qed.

Lemma cancel_steps i : keeps (rtc atomic) (cancel others i).
Proof using Ho. unfold cancel. keep_calls. Qed.
End Steps.

Lemma call_steps p p' : call p p' -> rtc atomic p p'.
Proof.
  destruct 1; [by apply rtc_once | by apply submit_steps | by apply record_success_steps | apply rtc_once; constructor | by apply cancel_steps].
Qed.

Lemma idle_ok : limits_ok l = true -> pressure_ok idle.
Proof.
  intros Hl. split; [by apply empty_queue_ok|]. split; [|by apply closed_ok]. split; [|apply map_Forall_empty].
  unfold limits_ok in Hl. split_and_bool. unfold idle; cbn [budget]; rewrite map_size_empty. lia.
Qed.
End Accounts.
