(* ===== verification/BackpressureSample.v ===== *)
(** * Two work items and a small controller, for evaluation *)
From S2P Require Import Prelude Digest Sha256 Json Canonical Text Contracts Timestamps OperabilityContracts Backpressure.
Open Scope string_scope.
#[local] Open Scope Z_scope.

Definition sample_limits : Limits :=
  {| max_items := 2; max_cost_units := 100; per_workspace_max_items := 2; max_operations := 2; max_attempts := 2;
     max_total_cost_units := 50; failure_threshold := 2; reset_after_seconds := 10 |}.

Definition sixty_four (c : string) : string := str_concat (repeat c 64).

Definition draft_item (operation cost : string) : BoundedWorkItem :=
  {| work_id := ""; wi_workspace_ref_hash := sixty_four "a"; wi_operation_ref_hash := operation; work_type := "embed.batch";
     payload_ref_digest := sixty_four "b"; cost_units := cost; enqueued_at := "2024-01-01T00:00:00Z";
     deadline_at := "2024-01-01T09:00:20+09:00" |}.

Definition made_item (draft : BoundedWorkItem) : BoundedWorkItem :=
  match work_create (U := unicode_sample) draft with Ok i => i | Err _ => draft end.

Definition item_a : BoundedWorkItem := Eval vm_compute in made_item (draft_item (sixty_four "1") "40").
Definition item_b : BoundedWorkItem := Eval vm_compute in made_item (draft_item (sixty_four "2") "60").

Definition sample_now : string := "2024-01-01T00:00:15Z".
Definition sample_instant : Z := Eval vm_compute in default 0 (parse_timestamp sample_now).

Lemma item_a_valid : work_valid (U := unicode_sample) item_a.
Proof. vm_compute. reflexivity. Qed.
Lemma item_b_valid : work_valid (U := unicode_sample) item_b.
Proof. vm_compute. reflexivity. Qed.
Lemma sample_now_ok : _timestamp sample_now = Ok sample_instant.
Proof. vm_compute. reflexivity. Qed.
Lemma sample_limits_ok : limits_ok sample_limits = true.
Proof. reflexivity. Qed.

(** A test vector of RFC 4231. *)
Example hmac_hi_there :
  hmac_sha256_hex (str_concat (repeat (String "011" "") 20)) "Hi There" =
  "b0344c61d8db38535ca8afceaf0bf12b881dc200c9833da726e9376c2e32cff7".
Proof. vm_compute. reflexivity. Qed.

(** An open circuit, tripped five seconds ago. *)
Definition open_circuit : CircuitBreaker :=
  {| _state := OPEN; _failures := 2; _opened_at := Some (sample_instant - 5 * SECOND); _half_open_inflight := false |}.

(** One that may be tried again. *)
Definition due_circuit : CircuitBreaker :=
  {| _state := OPEN; _failures := 2; _opened_at := Some (sample_instant - 10 * SECOND); _half_open_inflight := false |}.

Definition recovering : Pressure := {| queue := empty_queue; budget := ∅; circuit := due_circuit |}.
