(* ===== verification/BackpressureTheorems.v ===== *)
(** * Bounded work: what the queue, the budget and the circuit promise

    The queue behaves as a list with a limit on its length, on the share of a workspace and
    on the cost; the three objects keep their invariant under any interleaving; [submit] of
    the controller takes effect in all three or in none; a circuit that has tripped waits
    and then lets one call through. *)
From S2P Require Import Prelude Digest Sha256 Json Canonical Contracts Timestamps OperabilityContracts Backpressure BackpressureInvariants.
From S2P Require Import BackpressureSample.
Open Scope string_scope.
#[local] Open Scope Z_scope.

(** ** The queue as a list *)

Section Spec.
Context {U : Unicode} {D : Digest} {R : JsonReader} (l : Limits).

Definition same_id (id : string) (i : BoundedWorkItem) : bool := String.eqb (work_id i) id.

(** [submit] with nothing but the list of the items. *)
Definition spec_submit (i : BoundedWorkItem) (now : string) (items : list BoundedWorkItem) : QueueDecision * list BoundedWorkItem :=
  let answer status error retry := (queue_decision status (work_id i) error retry, items) in
  match List.find (same_id (work_id i)) items with
  | Some v => if String.eqb (payload_of v) (payload_of i) then answer "duplicate" None None
              else answer "rejected" (Some "work_binding_conflict") None
  | None =>
      if bool_decide (_expired i now = Ok true) then answer "rejected" (Some "work_deadline_expired") None
      else if max_items l <=? Z.of_nat (length items) then answer "retry_later" (Some "queue_full") (Some "1000")
      else if per_workspace_max_items l <=? workspace_items (wi_workspace_ref_hash i) items
      then answer "retry_later" (Some "workspace_queue_full") (Some "1000")
      else if max_cost_units l <? total_units (items ++ [i]) then answer "retry_later" (Some "queue_cost_budget_exceeded") (Some "1000")
      else (queue_decision "accepted" (work_id i) None None, (items ++ [i])%list)
  end.

Definition spec_remove (id : string) (items : list BoundedWorkItem) : bool * list BoundedWorkItem :=
  (existsb (same_id id) items, List.filter (fun v => negb (same_id id v)) items).

Lemma find_by_id q i : accounted q ->
  _by_id q !! work_id i = payload_of <$> List.find (same_id (work_id i)) (_items q).
Proof.
  intros A. destruct (List.find _ _) as [v|] eqn:E.
  - apply List.find_some in E as [Hv Hi%String.eqb_eq]. apply (ac_by_id _ A). exists v. split_and!; [by apply list_elem_of_In | done | done].
  - destruct (_by_id q !! work_id i) as [p|] eqn:F; [|done]. apply (ac_by_id _ A) in F as (v & Hv & Hi & _).
    pose proof (List.find_none _ _ E v (proj1 (list_elem_of_In _ _) Hv)) as G. unfold same_id in G. rewrite Hi, String.eqb_refl in G. done.
Qed.

Lemma spec_submit_ok i now q : accounted q ->
  spec_submit i now (_items q) =
    match refused_for l i now q with
    | Some d => (d, _items q)
    | None => (queue_decision "accepted" (work_id i) None None, (_items q ++ [i])%list)
    end.
Proof.
  intros A. unfold spec_submit, refused_for. rewrite (find_by_id q i A), total_units_app, <- (ac_cost _ A).
  change (total_units [i]) with (units i + 0). rewrite Z.add_0_r.
  destruct (List.find _ _) as [v|]; cbn [fmap option_fmap option_map].
  - by destruct (String.eqb _ _).
  - by repeat (case_match; [done|]).
Qed.

Lemma remove_absent_spec q id : accounted q -> _by_id q !! id = None -> spec_remove id (_items q) = (false, _items q).
Proof.
  intros A H. unfold spec_remove.
  assert (K : forall v, v ∈ _items q -> same_id id v = false).
  { intros v Hv. apply String.eqb_neq. intros <-. assert (_by_id q !! work_id v = Some (payload_of v)) by (apply (ac_by_id _ A); by exists v). congruence. }
  clear A H. induction (_items q) as [|v vs IH]; [done|]. cbn. rewrite K by left. cbn.
  specialize (IH (fun w Hw => K w ltac:(by right))). by injection IH as -> ->.
Qed.

(** C24: the queue, which keeps an index and running totals, refines a plain list of items.
    From a queue in order, [submit] of a valid item, [pop] and [remove] always answer, give
    the answer computed from the list alone, leave the list the specification leaves, and
    keep the queue in order: a duplicate is recognised, the first unmet limit is named, an
    item goes to the end, [pop] takes the first item that has not expired and drops those
    before it, and [remove] takes out the item and no other. *)
Theorem queue_refines_list now n q : queue_ok l q -> _timestamp now = Ok n ->
  (forall i, work_valid i ->
     exists q', queue_submit l i now q = (q', Ok (spec_submit i now (_items q)).1) /\
                _items q' = (spec_submit i now (_items q)).2 /\ queue_ok l q') /\
  (exists q', queue_pop now q = (q', Ok (first_live now (_items q)).1) /\ _items q' = (first_live now (_items q)).2 /\ queue_ok l q') /\
  (forall id, exists q', queue_remove id q = (q', Ok (spec_remove id (_items q)).1) /\
                _items q' = (spec_remove id (_items q)).2 /\ queue_ok l q').
Proof.
  intros Hq Hn. split_and!.
  - intros i Hi. rewrite (queue_submit_run l i now n q Hq Hi Hn), (spec_submit_ok i now q (proj1 Hq)).
    destruct (refused_for l i now q) eqn:E; [by exists q|]. exists (enqueued i q). split_and!; [done..|]. by eapply enqueued_ok.
  - destruct (queue_pop_run l now n q Hn Hq) as (q' & H1 & H2 & H3). by exists q'.
  - intros id. destruct Hq as [A L]. destruct (_by_id q !! id) as [p|] eqn:E.
    + apply (ac_by_id _ A) in E as (i & Hi & <- & <-). pose proof Hi as (pre & post & Hs)%list_elem_of_split.
      exists (remove_item i (pre ++ post)%list q). split_and!.
      * rewrite (queue_remove_run q pre i post A Hs). unfold spec_remove. repeat f_equal. symmetry. apply existsb_exists.
        exists i. split; [by apply list_elem_of_In | apply String.eqb_refl].
      * unfold spec_remove, same_id. cbn [snd]. rewrite Hs, filter_out_one; [done|]. rewrite <- Hs. apply (ac_ids _ A).
      * split; [by apply remove_item_accounted | by apply remove_item_within].
    + exists q. by rewrite (queue_remove_absent q id E), (remove_absent_spec q id A E).
Qed.
End Spec.

Lemma queue_refines_list_witness :
  queue_ok (U := unicode_sample) sample_limits empty_queue /\
  exists q', queue_submit (U := unicode_sample) sample_limits item_a sample_now empty_queue =
             (q', Ok (queue_decision "accepted" (work_id item_a) None None)) /\ _items q' = [item_a].
Proof.
  split; [exact (empty_queue_ok (U := unicode_sample) sample_limits sample_limits_ok)|].
  destruct (proj1 (queue_refines_list (U := unicode_sample) sample_limits sample_now sample_instant empty_queue
    (empty_queue_ok (U := unicode_sample) sample_limits sample_limits_ok) sample_now_ok) item_a item_a_valid) as (q' & H1 & H2 & _).
  exists q'. split; [rewrite H1 | rewrite H2]; vm_compute; reflexivity.
Defined.

(** ** The invariant under interleaving *)

Section Bounded.
Context {U : Unicode} {D : Digest} {R : JsonReader} (l : Limits).

(** C21: whatever methods of the queue, the budget, the circuit and the controller run, in
    any order, other threads acting between the steps of the controller and methods raising
    on the way: the queue's index and totals are exactly those of its items, the items, the
    items of each workspace and the cost stay within the limits, no operation exceeds its
    attempts or its cost and no more operations are tracked than allowed, only a half-open
    circuit has a probe out, and a circuit is closed exactly when its failures are below
    the threshold. *)
Theorem backpressure_bounded p : limits_ok l = true -> rtc (call l) idle p ->
  (Z.of_nat (length (_items (queue p))) <= max_items l /\
   (forall ws, workspace_items ws (_items (queue p)) <= per_workspace_max_items l) /\
   total_units (_items (queue p)) <= max_cost_units l) /\
  (_cost (queue p) = total_units (_items (queue p)) /\
   (forall ws, _workspace_counts (queue p) !! ws = positive_entry (workspace_items ws (_items (queue p)))) /\
   NoDup (map work_id (_items (queue p))) /\
   (forall id payload, _by_id (queue p) !! id = Some payload <->
      exists i, i ∈ _items (queue p) /\ work_id i = id /\ record_bytes (work_to_mapping i) = Ok payload)) /\
  (Z.of_nat (size (budget p)) <= max_operations l /\
   (forall operation attempts total, budget p !! operation = Some (attempts, total) ->
      1 <= attempts <= max_attempts l /\ 0 <= total <= max_total_cost_units l)) /\
  ((_half_open_inflight (circuit p) = true -> _state (circuit p) = HALF_OPEN) /\
   (_failures (circuit p) < failure_threshold l <-> _state (circuit p) = CLOSED)).
Proof.
  intros Hl Hr.
  assert (Hp : pressure_ok l p).
  { apply (atomic_steps_ok l idle p Hl (idle_ok l Hl)). clear Hl. induction Hr as [|x y z Hc _ IH]; [done|]. etrans; [by apply call_steps | exact IH]. }
  destruct Hp as (([Hn Hv Hb Hc Hu] & [L1 L2 L3]) & [Bs Bf] & (C0 & C1 & C2 & C3)). split_and!; try done.
  - by rewrite <- Hu.
  - intros id payload. rewrite Hb. split; intros (i & Hi & <- & Hp); exists i; split_and!; try done.
    + rewrite <- Hp. apply payload_of_ok. by apply (proj1 (list.Forall_forall _ _) Hv).
    + unfold payload_of. by rewrite Hp.
  - intros op attempts total Hop. exact (map_Forall_lookup_1 _ _ _ _ Bf Hop).
Qed.

End Bounded.

(** One item submitted to the idle controller. *)
Definition one_submitted : Pressure := (submit (U := unicode_sample) sample_limits (fun p => p) item_a sample_now idle).1.

Lemma backpressure_bounded_witness :
  rtc (call (U := unicode_sample) sample_limits) idle one_submitted /\ total_units (_items (queue one_submitted)) = 40 /\
  total_units (_items (queue one_submitted)) <= max_cost_units sample_limits.
Proof.
  assert (R : rtc (call (U := unicode_sample) sample_limits) idle one_submitted).
  { apply rtc_once. apply (call_submit (U := unicode_sample) sample_limits (fun p => p) item_a sample_now idle);
      [intros p; apply rtc_refl | exact item_a_valid]. }
  split; [exact R|]. split; [vm_compute; reflexivity|].
  exact (proj2 (proj2 (proj1 (backpressure_bounded (U := unicode_sample) sample_limits one_submitted sample_limits_ok R)))).
Defined.

(** ** Admission by the circuit *)

Section Circuit.
Context (l : Limits).

Definition admits (now : Z) (c : CircuitBreaker) : bool :=
  match _state c with
  | CLOSED => true
  | OPEN => reset_after_seconds l * SECOND <=? now - default 0 (_opened_at c)
  | HALF_OPEN => negb (_half_open_inflight c)
  end.

(** The circuit after a call went through. *)
Definition with_call (c : CircuitBreaker) : CircuitBreaker :=
  match _state c with CLOSED => c | _ => set_probe HALF_OPEN true c end.

Lemma before_call_run now n c : circuit_ok l c -> _timestamp now = Ok n ->
  exists d, before_call l now c = (if admits n c then with_call c else c, Ok d) /\ cd_allowed d = admits n c.
Proof.
  intros (H0 & H1 & H2 & H3) Hn. unfold before_call, take_probe, admits, with_call, st_get, st_lift, st_modify, mbind, st_bind. rewrite Hn.
  destruct (_state c) eqn:E; [by eexists | |].
  - destruct (H3 ltac:(done)) as [t Ht]. rewrite Ht. cbn [of_option default]. rewrite Z.ltb_antisym.
    destruct (_ <=? _); cbn [negb]; [|by eexists]. cbn. by eexists.
  - destruct (_half_open_inflight c) eqn:F; cbn; [by eexists|]. rewrite E. by eexists.
Qed.

Lemma probe_refuses now n c : _timestamp now = Ok n -> _state c = HALF_OPEN -> _half_open_inflight c = true ->
  before_call l now c = (c, Ok (refuse HALF_OPEN "circuit_half_open_busy" "1000")).
Proof.
  intros Hn Hs Hi. unfold before_call, take_probe, st_get, st_lift, mbind, st_bind. rewrite Hn, Hs. cbn. by rewrite Hi, Hs.
Qed.

(** A circuit that has tripped, asked at times that can be read, always answers, lets a
    call through when the reset time has passed or, half open, no probe is out, and lets at
    most one through: while it is open and the reset time has not passed it refuses, unchanged, and
    says to come back after at least a millisecond and no more than the reset time; and
    once a call is let through, whatever calls come after it are refused and change
    nothing, until that call succeeds, fails or is given up. *)
Theorem tripped_circuit_single_probe c now n : limits_ok l = true -> circuit_ok l c -> _state c <> CLOSED -> _timestamp now = Ok n ->
  (forall t, _state c = OPEN -> _opened_at c = Some t -> n - t < reset_after_seconds l * SECOND ->
     exists ms, before_call l now c = (c, Ok (refuse OPEN "circuit_open" (str_of_Z ms))) /\ 1 <= ms /\
                (t <= n -> ms <= reset_after_seconds l * 1000)) /\
  (forall c' d, before_call l now c = (c', Ok d) -> cd_allowed d = true ->
     forall nows, Forall (fun s => exists m, _timestamp s = Ok m) nows ->
     exists ds, st_map (before_call l) nows c' = (c', Ok ds) /\ Forall (fun d => cd_allowed d = false) ds) /\
  (exists c' d, before_call l now c = (c', Ok d) /\ cd_allowed d = admits n c /\ (cd_allowed d = false -> c' = c)).
Proof.
  intros Hl Hc Hs Hn. destruct (before_call_run now n c Hc Hn) as (d0 & Hd0 & Ha0). split_and!.
  - intros t Ho Ht Hlt. exists (Z.max 1 ((reset_after_seconds l * SECOND - (n - t)) / 1000)). split_and!; [|lia|].
    + unfold before_call, st_get, st_lift, mbind, st_bind. rewrite Hn, Ho, Ht. cbn [of_option]. by rewrite (proj2 (Z.ltb_lt _ _) Hlt).
    + intros Hle. unfold limits_ok in Hl. split_and_bool. apply Z.max_lub; [lia|]. unfold SECOND in *.
      apply Z.div_le_upper_bound; lia.
  - intros c' d Hb Hd nows Hns. rewrite Hd0 in Hb. injection Hb as <- <-. rewrite Hd in Ha0. rewrite <- Ha0. unfold with_call.
    assert (match _state c with CLOSED => c | _ => set_probe HALF_OPEN true c end = set_probe HALF_OPEN true c) as -> by (by destruct (_state c)).
    induction Hns as [|s nows [m Hm] _ (ds & Hds & Hf)]; [by exists []|].
    exists (refuse HALF_OPEN "circuit_half_open_busy" "1000" :: ds). split; [|by constructor].
    cbn [st_map]. rewrite (st_bind_run _ _ _ _ _ (probe_refuses s m (set_probe HALF_OPEN true c) Hm eq_refl eq_refl)). by rewrite (st_bind_run _ _ _ _ _ Hds).
  - eexists _, d0. split_and!; [exact Hd0 | done |]. rewrite Ha0. by intros ->.
Qed.
End Circuit.

Lemma open_circuit_ok : circuit_ok sample_limits open_circuit.
Proof. split_and!; cbn; try done. intros _. by eexists. Qed.

Lemma tripped_circuit_single_probe_witness :
  circuit_ok sample_limits open_circuit /\ exists ms, before_call sample_limits sample_now open_circuit =
    (open_circuit, Ok (refuse OPEN "circuit_open" (str_of_Z ms))) /\ 1 <= ms <= 10000.
Proof.
  split; [exact open_circuit_ok|].
  destruct (proj1 (tripped_circuit_single_probe sample_limits open_circuit sample_now sample_instant sample_limits_ok open_circuit_ok
    ltac:(discriminate) sample_now_ok) (sample_instant - 5 * SECOND) eq_refl eq_refl ltac:(vm_compute; reflexivity)) as (ms & H1 & H2 & H3).
  exists ms. split; [exact H1|]. split; [exact H2|]. exact (H3 ltac:(vm_compute; discriminate)).
Defined.

(** ** Submission *)

Section Submission.
Context {U : Unicode} {D : Digest} {R : JsonReader} (l : Limits).

(** What a valid item is charged. *)
Lemma work_charge i : work_valid i ->
  exists cost, _hex64 (wi_operation_ref_hash i) = Ok (wi_operation_ref_hash i) /\ _uint true (cost_units i) = Ok cost /\ units i = Z.of_N cost.
Proof.
  intros Hi. destruct (proj2 (work_post_facts _ _ Hi)) as [[cost Hc] _]. exists cost. split_and!; [|done|].
  - unfold work_valid, work_post_init in Hi. apply bind_ok in Hi as (hs & Hm%map_checked_ok & _).
    repeat match goal with H : Forall _ (_ :: _) |- _ => apply list.Forall_cons in H as [? H] end.
    unfold _hex64, checked. match goal with H : is_hex64 (wi_operation_ref_hash i) = true |- _ => by rewrite H end.
  - unfold _uint in Hc. apply bind_ok in Hc as (? & _ & (? & _ & Hc)%bind_ok). unfold units.
    destruct (int_of_str _); [by injection Hc as -> | done].
Qed.

Lemma on_queue_run {A} (m : st BoundedWorkQueue operability_error A) p q r :
  m (queue p) = (q, r) -> on_queue m p = ({| queue := q; budget := budget p; circuit := circuit p |}, r).
Proof. unfold on_queue. by intros ->. Qed.
Lemma on_budget_run {A} (m : st (gmap string (Z * Z)) operability_error A) p b r :
  m (budget p) = (b, r) -> on_budget m p = ({| queue := queue p; budget := b; circuit := circuit p |}, r).
Proof. unfold on_budget. by intros ->. Qed.
Lemma on_circuit_run {A} (m : st CircuitBreaker operability_error A) p c r :
  m (circuit p) = (c, r) -> on_circuit m p = ({| queue := queue p; budget := budget p; circuit := c |}, r).
Proof. unfold on_circuit. by intros ->. Qed.

Definition quiet (p : Pressure) : Pressure := p.

(** The circuit with no probe out. *)
Definition released (c : CircuitBreaker) : CircuitBreaker := (cancel_probe c).1.

(** The circuit once a probe was offered to a call that then gave it back: one whose reset
    time has passed is half open, any other is what it was. *)
Definition offered (n : Z) (c : CircuitBreaker) : CircuitBreaker :=
  match _state c with OPEN => if admits l n c then set_probe HALF_OPEN false c else c | _ => c end.

Lemma released_with_call n c : circuit_ok l c -> admits l n c = true -> released (with_call c) = offered n c.
Proof.
  unfold with_call, released, offered, cancel_probe, st_modify. intros (_ & H1 & _ & _) Ha. rewrite Ha. unfold admits in Ha. cbn.
  destruct (_state c) eqn:E; cbn; [by rewrite E | done |]. rewrite negb_true_iff in Ha. destruct c; cbn in *; by subst.
Qed.

Lemma refused_offered n c : admits l n c = false -> offered n c = c.
Proof. unfold offered. intros ->. by destruct (_state c). Qed.

(** An item taken in and taken out again. *)
Lemma remove_after_enqueue i now q : queue_ok l q -> work_valid i -> refused_for l i now q = None ->
  queue_remove (work_id i) (enqueued i q) = (q, Ok true).
Proof.
  intros Hq Hi Hr. rewrite (queue_remove_run (enqueued i q) (_items q) i []); [| by eapply enqueued_ok | done].
  rewrite app_nil_r. by rewrite (remove_enqueued l i now q (proj1 Hq) Hr).
Qed.

Lemma rollback_after_charge op c cost b : budget_ok l b -> _hex64 op = Ok op -> _uint true c = Ok cost ->
  rollback op c (charged b op (Z.of_N cost)) = (b, Ok tt).
Proof.
  intros [_ Hf] Ho Hc. unfold rollback, charged, spent. rewrite (st_bind_run _ _ _ _ op) by (unfold st_lift; by rewrite Ho).
  rewrite (st_bind_run _ _ _ _ cost) by (unfold st_lift; by rewrite Hc). unfold st_get, st_modify, st_lift, mbind, st_bind. rewrite lookup_insert_eq.
  destruct (b !! op) as [[attempts total]|] eqn:E; cbn [default fst snd].
  - pose proof (map_Forall_lookup_1 _ _ _ _ Hf E) as [? ?]. cbn in *.
    assert ((attempts + 1 <? 1) || (total + Z.of_N cost <? Z.of_N cost) = false) as -> by lia. cbn [negb ensure].
    rewrite (proj2 (Z.eqb_neq _ _)) by lia. rewrite insert_insert_eq, insert_id; [done|]. rewrite E. repeat f_equal; lia.
  - assert ((0 + 1 <? 1) || (0 + Z.of_N cost <? Z.of_N cost) = false) as -> by lia. cbn [negb ensure].
    change (0 + 1 - 1 =? 0) with true. cbv iota. cbv beta. by rewrite delete_insert_id.
Qed.

(** Whether [submit] takes the item when it is alone. *)
Definition takes (i : BoundedWorkItem) (now : string) (n : Z) (p : Pressure) : Prop :=
  admits l n (circuit p) = true /\ refused_for l i now (queue p) = None /\
  overspent l (budget p) (wi_operation_ref_hash i) (units i) = None.

Definition with_circuit (f : CircuitBreaker -> CircuitBreaker) (p : Pressure) : Pressure :=
  {| queue := queue p; budget := budget p; circuit := f (circuit p) |}.
Definition with_item (i : BoundedWorkItem) (p : Pressure) : Pressure :=
  {| queue := enqueued i (queue p); budget := budget p; circuit := circuit p |}.
Definition without_item (i : BoundedWorkItem) (p : Pressure) : Pressure :=
  {| queue := (queue_remove (work_id i) (queue p)).1; budget := budget p; circuit := circuit p |}.
Definition with_charge (i : BoundedWorkItem) (p : Pressure) : Pressure :=
  {| queue := queue p; budget := charged (budget p) (wi_operation_ref_hash i) (units i); circuit := circuit p |}.

(** What a submission leaves, and answers, while [others] act between its steps: [p1] is
    what it finds when it comes to the queue, [p2] when it comes to the budget. *)
Definition outcome (others : Pressure -> Pressure) (i : BoundedWorkItem) (now : string) (n : Z) (p p' : Pressure) (d : QueueDecision) : Prop :=
  let p1 := others (with_circuit with_call p) in
  let p2 := others (with_item i p1) in
  if admits l n (circuit p) then
    match refused_for l i now (queue p1) with
    | Some refusal => d = refusal /\ p' = with_circuit released (others p1)
    | None =>
        match overspent l (budget p2) (wi_operation_ref_hash i) (units i) with
        | Some error => d = queue_decision "rejected" (work_id i) (Some error) None /\
            p' = with_circuit released (others (without_item i (others p2)))
        | None => d = queue_decision "accepted" (work_id i) None None /\ p' = with_charge i p2
        end
    end
  else qd_status d = "retry_later" /\ p' = p.

Lemma pressure_eta p : {| queue := queue p; budget := budget p; circuit := circuit p |} = p.
Proof. by destruct p. Qed.

Lemma submit_outcome others i now n p : limits_ok l = true -> (forall p, rtc (atomic l) p (others p)) ->
  pressure_ok l p -> work_valid i -> _timestamp now = Ok n ->
  exists p' d, submit l others i now p = (p', Ok d) /\ outcome others i now n p p' d.
Proof.
  intros Hl Ho Hp Hi Hn. pose proof Hp as (Hq & Hb & Hc). destruct (before_call_run l now n _ Hc Hn) as (g & Hg & Ha).
  assert (Hk : forall q, pressure_ok l q -> pressure_ok l (others q)) by (intros q Hq'; by apply (atomic_steps_ok l q)).
  unfold submit, outcome. rewrite (st_bind_run _ _ _ _ _ (on_circuit_run _ p _ _ Hg)). rewrite Ha.
  destruct (admits l n (circuit p)) eqn:Had; [|destruct p; by eexists _, _].
  change {| queue := queue p; budget := budget p; circuit := with_call (circuit p) |} with (with_circuit with_call p).
  assert (H1 : pressure_ok l (others (with_circuit with_call p))).
  { apply Hk. split_and!; [done..|]. pose proof (before_call_ok l now _ Hc) as K. by rewrite Hg in K. }
  set (p1 := others (with_circuit with_call p)) in *. pose proof (queue_submit_run l i now n _ (proj1 H1) Hi Hn) as Hs.
  unfold meanwhile. fold p1. destruct (refused_for l i now (queue p1)) as [d|] eqn:Er.
  - erewrite st_bind_run by (apply on_queue_run; exact Hs). rewrite (refused_not_accepted l i now (queue p1) d Er).
    rewrite pressure_eta. erewrite st_bind_run by (by apply on_circuit_run). by eexists _, d.
  - erewrite st_bind_run by (apply on_queue_run; exact Hs). cbn [qd_status queue_decision String.eqb Ascii.eqb Bool.eqb].
    change {| queue := enqueued i (queue p1); budget := budget p1; circuit := circuit p1 |} with (with_item i p1).
    set (p2 := others (with_item i p1)).
    assert (H2 : pressure_ok l p2) by (apply Hk; destruct H1 as (? & ? & ?); split_and!; [by eapply enqueued_ok | done | done]).
    destruct (work_charge i Hi) as (cost & Hop & Hu & Hz). destruct (reserve_run l _ _ cost (budget p2) Hop Hu) as (d & Hd & Hda & Hde).
    rewrite <- Hz in Hd, Hda, Hde. erewrite st_bind_run by (apply on_budget_run; exact Hd). rewrite Hda, Hde.
    destruct (overspent l (budget p2) _ _) as [error|]; [|rewrite bool_decide_true by done; by eexists _, _].
    rewrite bool_decide_false by done. rewrite pressure_eta.
    destruct (queue_remove_ok l _ (work_id i) (proj1 (Hk _ H2))) as (q' & Hr & _).
    erewrite st_bind_run by (apply on_queue_run; exact Hr). erewrite st_bind_run by (by apply on_circuit_run).
    eexists _, _. unfold without_item. by rewrite Hr.
Qed.
End Submission.

Section AllOrNothing.
Context {U : Unicode} {D : Digest} {R : JsonReader} (l : Limits).

Lemma quiet_steps p : rtc (atomic l) p (quiet p).
Proof. apply rtc_refl. Qed.

(** Alone between its steps, a submission takes the item or leaves the queue and the budget. *)
Lemma quiet_outcome i now n p p' d : pressure_ok l p -> work_valid i -> outcome l quiet i now n p p' d ->
  (qd_status d = "accepted" <-> takes l i now n p) /\
  (qd_status d = "accepted" -> p' = with_charge i (with_item i (with_circuit with_call p))) /\
  (qd_status d <> "accepted" -> p' = with_circuit (offered l n) p).
Proof.
  intros (Hq & Hb & Hc) Hi. unfold outcome, takes, quiet. cbn [queue budget circuit with_circuit with_item].
  destruct (admits l n (circuit p)) eqn:Had.
  - destruct (refused_for l i now (queue p)) as [r|] eqn:Er.
    + intros [-> ->]. apply refused_not_accepted, String.eqb_neq in Er. split_and!; [|done|].
      * split; [done | by intros (_ & [=] & _)].
      * intros _. unfold with_circuit. cbn [queue budget circuit]. by rewrite (released_with_call l n _ Hc Had).
    + destruct (overspent l _ _ _) as [e|].
      * intros [-> ->]. split_and!; [split; [done | by intros (_ & _ & [=])] | done |].
        intros _. unfold with_circuit, without_item, with_item. cbn [queue budget circuit].
        rewrite (remove_after_enqueue l i now) by done. cbn [fst].
        by rewrite (released_with_call l n _ Hc Had).
      * intros [-> ->]. by split_and!.
  - intros [Hd ->]. rewrite Hd. split_and!; [split; [done | by intros ([=] & _)] | done |].
    intros _. unfold with_circuit. rewrite (refused_offered l n _ Had). by destruct p.
Qed.

(** C22: [submit] of a valid item to a controller in order, at a time that can be read,
    always answers and keeps the controller in order, whatever other threads do to the
    queue, the budget and the circuit between its steps; what it leaves is the stated
    function of what it finds at each step ([outcome]).  When nobody acts between its steps
    it takes effect wholly or not at all.  It says [accepted] exactly when the circuit
    admits a call, the queue does not refuse the item and the operation's budget covers it,
    and then the item is the queue's last, one attempt and its cost are charged and a
    circuit that was not closed has its probe out.  Otherwise the queue and the budget are
    what they were, also when the item was already queued and its charge refused, and so is
    the circuit, but that an open circuit whose reset time has passed stays half open, with
    no probe out.  Giving up an item that was taken restores the same: the queue and the
    budget, and the circuit but for that opening. *)
Theorem submit_all_or_nothing i now n p : limits_ok l = true -> pressure_ok l p -> work_valid i -> _timestamp now = Ok n ->
  (forall others, (forall p, rtc (atomic l) p (others p)) ->
     exists p' d, submit l others i now p = (p', Ok d) /\ pressure_ok l p' /\ outcome l others i now n p p' d) /\
  exists p' d, submit l quiet i now p = (p', Ok d) /\
    (qd_status d = "accepted" <-> takes l i now n p) /\
    (qd_status d = "accepted" ->
       p' = with_charge i (with_item i (with_circuit with_call p)) /\
       cancel quiet i p' = (with_circuit (offered l n) p, Ok tt)) /\
    (qd_status d <> "accepted" -> p' = with_circuit (offered l n) p).
Proof.
  intros Hl Hp Hi Hn. split.
  - intros others Ho. destruct (submit_outcome l others i now n p Hl Ho Hp Hi Hn) as (p' & d & Hs & Hout). exists p', d. split_and!; [done | | done].
    pose proof (submit_steps l others Ho i now Hi p) as St. rewrite Hs in St. by apply (atomic_steps_ok l p p').
  - destruct (submit_outcome l quiet i now n p Hl quiet_steps Hp Hi Hn) as (p' & d & Hs & Hout). exists p', d.
    destruct (quiet_outcome i now n p p' d Hp Hi Hout) as (H1 & H2 & H3). split_and!; [done | done | | done].
    intros Hd. split; [by apply H2|]. rewrite (H2 Hd). apply H1 in Hd as (Hadm & Href & Hov). destruct Hp as (Hq & Hb & Hc).
    destruct (work_charge i Hi) as (cost & Hop & Hu & Hz). unfold cancel, meanwhile, quiet.
    erewrite st_bind_run by (apply on_queue_run, (remove_after_enqueue l i now); done). cbv iota.
    erewrite st_bind_run by (apply on_budget_run; cbn [budget with_charge with_item with_circuit]; rewrite Hz; by apply (rollback_after_charge l)).
    unfold with_circuit. by rewrite <- (released_with_call l n _ Hc Hadm).
Qed.
End AllOrNothing.

Lemma recovering_ok : pressure_ok (U := unicode_sample) sample_limits recovering.
Proof.
  split; [by apply empty_queue_ok|]. split.
  - split; [vm_compute; discriminate | apply map_Forall_empty].
  - split_and!; cbn; try done. intros _. by eexists.
Qed.

(** Another thread takes what there is, between any two steps. *)
Definition popper (p : Pressure) : Pressure := (on_queue (queue_pop sample_now) p).1.

Lemma submit_all_or_nothing_witness :
  (exists p' d, submit (U := unicode_sample) sample_limits popper item_b sample_now recovering = (p', Ok d) /\
     outcome (U := unicode_sample) sample_limits popper item_b sample_now sample_instant recovering p' d /\
     queue p' = empty_queue) /\
  (exists p' d, submit (U := unicode_sample) sample_limits quiet item_a sample_now recovering = (p', Ok d) /\ qd_status d = "accepted") /\
  exists p' d, submit (U := unicode_sample) sample_limits quiet item_b sample_now recovering = (p', Ok d) /\
    qd_status d = "rejected" /\ queue p' = empty_queue /\ budget p' = ∅.
Proof.
  split_and!.
  - destruct (proj1 (submit_all_or_nothing (U := unicode_sample) sample_limits item_b sample_now sample_instant recovering sample_limits_ok
      recovering_ok item_b_valid sample_now_ok) popper) as (p' & d & H1 & _ & H2).
    { intros p. apply rtc_once. constructor. }
    exists p', d. split; [exact H1|]. split; [exact H2|].
    assert (E : queue (submit (U := unicode_sample) sample_limits popper item_b sample_now recovering).1 = empty_queue) by (vm_compute; reflexivity).
    by rewrite H1 in E.
  - destruct (proj2 (submit_all_or_nothing (U := unicode_sample) sample_limits item_a sample_now sample_instant recovering sample_limits_ok
      recovering_ok item_a_valid sample_now_ok)) as (p' & d & H1 & H2 & _).
    exists p', d. split; [exact H1|]. apply H2. vm_compute. split_and!; reflexivity.
  - destruct (proj2 (submit_all_or_nothing (U := unicode_sample) sample_limits item_b sample_now sample_instant recovering sample_limits_ok
      recovering_ok item_b_valid sample_now_ok)) as (p' & d & H1 & _ & _ & H3).
    assert (E : (submit (U := unicode_sample) sample_limits quiet item_b sample_now recovering).2 =
      Ok (queue_decision "rejected" (work_id item_b) (Some "retry_cost_budget_exceeded") None)) by (vm_compute; reflexivity).
    rewrite H1 in E. cbn [snd] in E. injection E as ->. eexists p', _. split; [exact H1|]. split; [reflexivity|].
    rewrite (H3 ltac:(discriminate)). unfold with_circuit. cbn [queue budget]. split; reflexivity.
Defined.

(** ** Two ways to lose the probe of a half-open circuit *)

(** The item that was let through as the probe. *)
Definition probing : Pressure := (submit (U := unicode_sample) sample_limits quiet item_a sample_now recovering).1.

(** [cancel] releases the probe whichever item it is given: after giving up an item that
    was never queued, a second call is let through while the first is still under way. *)
Example cancel_releases_the_probe_of_another :
  _half_open_inflight (circuit probing) = true /\
  let after := (cancel (U := unicode_sample) quiet item_b probing).1 in
  _items (queue after) = [item_a] /\ admits sample_limits sample_instant (circuit after) = true.
Proof. vm_compute. auto. Qed.

Definition past_deadline : string := "2024-01-01T00:01:00Z".

(** [pop] drops an expired item without giving back its charge or its probe: the queue is
    empty, one attempt is spent, and the circuit refuses every call. *)
Example expired_probe_is_never_settled :
  let '(p, r) := on_queue (queue_pop past_deadline) probing in
  r = Ok None /\ _items (queue p) = [] /\ budget p !! sixty_four "1" = Some (1, 40) /\
  forall n, admits sample_limits n (circuit p) = false.
Proof. vm_compute. auto. Qed.
