(* ===== verification/Operability.v ===== *)
(** * Audit, telemetry and export (memory_core/operability.py)

    The bounded audit store and the recorder that hashes every reference, the telemetry
    port with its closed list of metrics and its bound on what it remembers, the bounded
    store of projection jobs, and the export gateway, which is written against the
    interfaces [AuditSink] and [ProjectionJobSubmitter]. *)
From S2P Require Import Prelude Digest Json Canonical Contracts Timestamps Policy OperabilityContracts.
Open Scope string_scope.

(** ** Ports *)

(** [AuditSink.append] *)
Class AuditSink (A : Type) : Type := sink_append : AuditReference -> st A operability_error string.

(** [TelemetrySink.emit] *)
Class TelemetrySink (T : Type) : Type := sink_emit : TelemetryPoint -> st T operability_error unit.

(** [ProjectionJobSubmitter] *)
Class ProjectionJobSubmitter (J : Type) : Type := {
  job_submit : ExportProjectionJob -> st J operability_error string;
  job_cancel : string -> st J operability_error bool;
}.

(** What the gateway relies on: a submission that is not accepted changes nothing, and
    cancelling the job just accepted takes it out again. *)
Class SubmitterLaws (J : Type) `{!ProjectionJobSubmitter J} : Type := {
  jobs_ok : J -> Prop;
  submit_keeps_ok : forall job s, jobs_ok s -> jobs_ok (job_submit job s).1;
  submit_unaccepted : forall job s s' r, jobs_ok s -> job_submit job s = (s', r) -> r <> Ok "accepted" -> s' = s;
  cancel_undoes_submit : forall job s s', jobs_ok s -> job_submit job s = (s', Ok "accepted") ->
    job_cancel (job_id job) s' = (s, Ok true);
}.

Section Stores.
Context {U : Unicode} {D : Digest} {R : JsonReader}.

(** The members of a parsed object. *)
Definition loads_mapping (payload : string) : result operability_error mapping :=
  j ← of_option OpValueError (json_loads payload);
  match j with JObj ms => Ok (map (fun kv => (kv.1, of_json kv.2)) ms) | _ => Err OpTypeError end.

(** ** [BoundedInMemoryAuditSink] *)

Record BoundedInMemoryAuditSink : Type := { max_records : Z; _records : gmap string string }.

Definition audit_sink (max_records : Z) : result operability_error BoundedInMemoryAuditSink :=
  _ ← ensure (1 <=? max_records)%Z OpValueError; Ok {| max_records := max_records; _records := ∅ |}.

Definition set_records (m : gmap string string) (s : BoundedInMemoryAuditSink) : BoundedInMemoryAuditSink :=
  {| max_records := max_records s; _records := m |}.

#[export] Instance bounded_audit_sink : AuditSink BoundedInMemoryAuditSink := fun record =>
  payload ← st_lift (record_bytes (audit_to_mapping record));
  s ← st_get;
  match _records s !! audit_id record with
  | Some existing =>
      _ ← st_lift (ensure (String.eqb existing payload) (OpError "audit_binding_conflict")); mret "duplicate"
  | None =>
      _ ← st_lift (ensure (Z.of_nat (size (_records s)) <? max_records s)%Z AuditCapacityExceeded);
      _ ← st_modify (set_records (<[audit_id record := payload]> (_records s)));
      mret "stored"
  end.

(** [records]: in the order of the identifiers. *)
Definition records (s : BoundedInMemoryAuditSink) : result operability_error (list AuditReference) :=
  map_result (fun kv => m ← loads_mapping kv.2; audit_from_mapping m) (sort_on fst (map_to_list (_records s))).

Definition sink_length (s : BoundedInMemoryAuditSink) : Z := Z.of_nat (size (_records s)).

(** ** [BoundedProjectionJobSubmitter] *)

Record BoundedProjectionJobSubmitter : Type := { max_jobs : Z; _jobs : gmap string string; _order : list string }.

Definition job_submitter (max_jobs : Z) : result operability_error BoundedProjectionJobSubmitter :=
  _ ← ensure (1 <=? max_jobs)%Z OpValueError; Ok {| max_jobs := max_jobs; _jobs := ∅; _order := [] |}.

Definition set_jobs (jobs : gmap string string) (order : list string) (s : BoundedProjectionJobSubmitter) : BoundedProjectionJobSubmitter :=
  {| max_jobs := max_jobs s; _jobs := jobs; _order := order |}.

Definition bounded_submit (job : ExportProjectionJob) : st BoundedProjectionJobSubmitter operability_error string :=
  payload ← st_lift (record_bytes (export_job_to_mapping job));
  s ← st_get;
  match _jobs s !! job_id job with
  | Some existing =>
      _ ← st_lift (ensure (String.eqb existing payload) (OpError "export_job_binding_conflict")); mret "duplicate"
  | None =>
      if (max_jobs s <=? Z.of_nat (size (_jobs s)))%Z then mret "queue_full"
      else _ ← st_modify (set_jobs (<[job_id job := payload]> (_jobs s)) (_order s ++ [job_id job])%list); mret "accepted"
  end.

Definition bounded_cancel (id : string) : st BoundedProjectionJobSubmitter operability_error bool :=
  s ← st_get;
  match _jobs s !! id with
  | None => mret false
  | Some _ =>
      _ ← st_modify (set_jobs (delete id (_jobs s)) (List.filter (fun v => negb (String.eqb v id)) (_order s))); mret true
  end.

Definition job_count (s : BoundedProjectionJobSubmitter) : Z := Z.of_nat (size (_jobs s)).

#[export] Instance bounded_submitter : ProjectionJobSubmitter BoundedProjectionJobSubmitter :=
  {| job_submit := bounded_submit; job_cancel := bounded_cancel |}.

(** [pop] *)
Definition job_pop : st BoundedProjectionJobSubmitter operability_error (option ExportProjectionJob) :=
  s ← st_get;
  match _order s with
  | [] => mret None
  | id :: order =>
      _ ← st_modify (set_jobs (_jobs s) order);
      payload ← st_lift (of_option OpKeyError (_jobs s !! id));
      _ ← st_modify (set_jobs (delete id (_jobs s)) order);
      job ← st_lift (m ← loads_mapping payload; export_job_from_mapping m);
      mret (Some job)
  end.
End Stores.

(** ** [AuditRecorder] *)

Record AuditRecorder : Type := { hasher : ReferenceHasher; policy_version : string }.

Definition audit_recorder (h : ReferenceHasher) (version : string) : result operability_error AuditRecorder :=
  _ ← _code version; Ok {| hasher := h; policy_version := version |}.

(** The arguments of [record]. *)
Record AuditEvent : Type := {
  ev_workspace_id : string; ev_actor_id : string; ev_operation_id : string; ev_correlation_id : string;
  ev_action : string; ev_outcome : string; ev_reason_code : string; ev_occurred_at : string;
  ev_generation_id : option string; ev_object_refs : list string;
}.

Section Recorder.
Context {U : Unicode} {D : Digest}.

(** The record of an event: every identifier goes through the hasher. *)
Definition audit_of (a : AuditRecorder) (e : AuditEvent) : result operability_error AuditReference :=
  w ← reference_digest (hasher a) (ev_workspace_id e);
  actor ← reference_digest (hasher a) (ev_actor_id e);
  operation ← reference_digest (hasher a) (ev_operation_id e);
  correlation ← reference_digest (hasher a) (ev_correlation_id e);
  refs ← map_result (reference_digest (hasher a)) (ev_object_refs e);
  audit_create {| audit_id := ""; au_workspace_ref_hash := w; au_actor_ref_hash := actor; au_operation_ref_hash := operation;
                  au_correlation_ref_hash := correlation; au_action := ev_action e; au_outcome := ev_outcome e;
                  au_reason_code := ev_reason_code e; au_generation_id := ev_generation_id e;
                  au_object_ref_digests := sorted_unique refs; au_policy_version := policy_version a;
                  au_occurred_at := ev_occurred_at e |}.

(** [AuditRecorder.record] *)
Definition record_event {A} `{!AuditSink A} (a : AuditRecorder) (e : AuditEvent) : st A operability_error AuditReference :=
  record ← st_lift (audit_of a e); _ ← sink_append record; mret record.
End Recorder.

(** ** [PrivacyPreservingTelemetry] *)

Record TelemetryMetricAllowlist : Type := {
  value_buckets : list string; status_codes : list string; max_cardinality : Z; retention_seconds : Z;
}.

Definition metric_allowlist (m : TelemetryMetricAllowlist) : result operability_error TelemetryMetricAllowlist :=
  _ ← _sorted_strings is_code false (value_buckets m);
  _ ← _sorted_strings is_code false (status_codes m);
  _ ← ensure ((1 <=? max_cardinality m) && (1 <=? retention_seconds m))%Z OpValueError;
  Ok m.

Definition telemetry_allowlist (metrics : list (string * TelemetryMetricAllowlist)) : result operability_error (list (string * TelemetryMetricAllowlist)) :=
  _ ← ensure (negb (bool_decide (map fst metrics = []))) OpValueError;
  _ ← map_result _code (map fst metrics);
  Ok metrics.

Definition DEFAULT_TELEMETRY_ALLOWLIST : list (string * TelemetryMetricAllowlist) :=
  [("queue.depth", {| value_buckets := ["small"]; status_codes := ["ok"]; max_cardinality := 256; retention_seconds := 86400 |})].

Record TelemetryDeliveryResult : Type := {
  td_status : string; td_point_id : string; td_error_code : option string; td_audit_id : option string;
}.

(** When each admitted point of each metric was last admitted. *)
Notation metric_points := (gmap string (gmap string Z)).

Section Telemetry.
Context {U : Unicode} {D : Digest} (allowlist : list (string * TelemetryMetricAllowlist)).

(** Older than the metric keeps. *)
Definition too_old (policy : TelemetryMetricAllowlist) (current t : Z) : bool :=
  (retention_seconds policy * SECOND <? current - t)%Z.

Definition not_expired (policy : TelemetryMetricAllowlist) (current : Z) (seen : gmap string Z) : gmap string Z :=
  filter (fun kv => too_old policy current kv.2 = false) seen.

(** [_admit]: the reason a point is turned away. *)
Definition _admit (point : TelemetryPoint) (occurred_at : string) : st metric_points operability_error (option string) :=
  match assoc (metric_name point) allowlist with
  | None => mret (Some "telemetry_metric_not_allowed")
  | Some policy =>
      if negb (str_mem (value_bucket point) (value_buckets policy)) then mret (Some "telemetry_value_bucket_not_allowed")
      else if negb (str_mem (status_code point) (status_codes policy)) then mret (Some "telemetry_status_not_allowed")
      else
        current ← st_lift (_timestamp occurred_at);
        bucket ← st_lift (_timestamp (time_bucket point));
        if ((current <? bucket)%Z || too_old policy current bucket) then mret (Some "telemetry_retention_exceeded")
        else
          points ← st_get;
          let seen := not_expired policy current (default ∅ (points !! metric_name point)) in
          _ ← st_modify <[metric_name point := seen]>;
          if bool_decide (seen !! point_id point = None) && (max_cardinality policy <=? Z.of_nat (size seen))%Z
          then mret (Some "telemetry_cardinality_exceeded")
          else _ ← st_modify <[metric_name point := <[point_id point := current]> seen]>; mret None
  end.

Context {T A : Type} `{!TelemetrySink T} `{!AuditSink A}.

Record Telemetry : Type := { _metric_points : metric_points; telemetry_sink : T; telemetry_audit : A }.

Definition delivery (status id : string) (error audit : option string) : TelemetryDeliveryResult :=
  {| td_status := status; td_point_id := id; td_error_code := error; td_audit_id := audit |}.

(** [emit]; the arguments of the audit record are those of [e], whose action, outcome,
    reason and references are fixed here. *)
Definition telemetry_event (point : TelemetryPoint) (e : AuditEvent) : AuditEvent :=
  {| ev_workspace_id := ev_workspace_id e; ev_actor_id := ev_actor_id e; ev_operation_id := ev_operation_id e;
     ev_correlation_id := ev_correlation_id e; ev_action := "telemetry.emit"; ev_outcome := "degraded";
     ev_reason_code := "telemetry_unavailable"; ev_occurred_at := ev_occurred_at e; ev_generation_id := None;
     ev_object_refs := [point_id point] |}.

Definition emit (a : AuditRecorder) (point : TelemetryPoint) (e : AuditEvent) : st Telemetry operability_error TelemetryDeliveryResult := fun s =>
  match _admit point (ev_occurred_at e) (_metric_points s) with
  | (points, Err err) => ({| _metric_points := points; telemetry_sink := telemetry_sink s; telemetry_audit := telemetry_audit s |}, Err err)
  | (points, Ok (Some rejection)) =>
      ({| _metric_points := points; telemetry_sink := telemetry_sink s; telemetry_audit := telemetry_audit s |},
       Ok (delivery "rejected" (point_id point) (Some rejection) None))
  | (points, Ok None) =>
      match sink_emit point (telemetry_sink s) with
      | (t, Ok _) =>
          ({| _metric_points := points; telemetry_sink := t; telemetry_audit := telemetry_audit s |},
           Ok (delivery "delivered" (point_id point) None None))
      | (t, Err _) =>
          let '(audit, r) := record_event a (telemetry_event point e) (telemetry_audit s) in
          ({| _metric_points := points; telemetry_sink := t; telemetry_audit := audit |},
           match r with
           | Ok record => Ok (delivery "audit_only" (point_id point) (Some "telemetry_unavailable") (Some (audit_id record)))
           | Err _ => Err TelemetryAuditUnavailable
           end)
      end
  end.
End Telemetry.

(** ** [ExportRequestGateway] *)

Record ExportSubmissionResult : Type := {
  es_status : string; es_request_id : string; es_job_id : option string; es_error_code : option string; es_audit_id : option string;
}.

Section Gateway.
Context {U : Unicode} {D : Digest} {J A : Type} `{!ProjectionJobSubmitter J} `{!AuditSink A}.
Context (recorder : AuditRecorder) (gateway_now : string).

Record Exports : Type := { jobs : J; audits : A }.

Definition on_jobs {X} (m : st J operability_error X) : st Exports operability_error X := fun s =>
  let '(j, r) := m (jobs s) in ({| jobs := j; audits := audits s |}, r).
Definition on_audits {X} (m : st A operability_error X) : st Exports operability_error X := fun s =>
  let '(a, r) := m (audits s) in ({| jobs := jobs s; audits := a |}, r).

(** [try: m  except Exception: h] *)
Definition st_catch {X} (m : st Exports operability_error X) (h : operability_error -> st Exports operability_error X) :
  st Exports operability_error X := fun s =>
  match m s with (s', Ok x) => (s', Ok x) | (s', Err e) => h e s' end.

Definition export_policy_request (request : ExportRequest) (s : Sensitivity) : PolicyRequest :=
  {| request_workspace_id := er_workspace_id request; request_actor_id := er_actor_id request; action := "export.request";
     now := gateway_now; object_sensitivity := s |}.

Definition export_event (request : ExportRequest) (correlation_id outcome reason_code : string) (refs : list string) : AuditEvent :=
  {| ev_workspace_id := er_workspace_id request; ev_actor_id := er_actor_id request; ev_operation_id := request_id request;
     ev_correlation_id := correlation_id; ev_action := "export.request"; ev_outcome := outcome; ev_reason_code := reason_code;
     ev_occurred_at := gateway_now; ev_generation_id := Some (er_as_of_generation_id request); ev_object_refs := refs |}.

Definition submission (status : string) (request : ExportRequest) (job error audit : option string) : ExportSubmissionResult :=
  {| es_status := status; es_request_id := request_id request; es_job_id := job; es_error_code := error; es_audit_id := audit |}.

(** [ExportRequestGateway.submit] *)
Definition export_submit (request : ExportRequest) (token : CapabilityToken) (correlation_id : string) :
  st Exports operability_error ExportSubmissionResult :=
  sensitivity ← st_lift (of_option OpValueError (sensitivity_of (er_max_sensitivity request)));
  let decision := authorize token (export_policy_request request sensitivity) in
  let intent := er_delivery_intent_ref request in
  if allowed decision then
    job ← st_lift (job_from_request request);
    status ← st_catch (on_jobs (job_submit job)) (fun _ => mret "unavailable");
    if String.eqb status "duplicate" then mret (submission "accepted" request (Some (job_id job)) None None)
    else if String.eqb status "accepted" then
      record ← st_catch
        (on_audits (record_event recorder (export_event request correlation_id "accepted" "projection_job_queued" [job_id job; intent])))
        (fun e => _ ← on_jobs (job_cancel (job_id job)); st_throw e);
      mret (submission "accepted" request (Some (job_id job)) None (Some (audit_id record)))
    else
      let reason := if String.eqb status "queue_full" then "export_queue_full" else "export_queue_unavailable" in
      record ← on_audits (record_event recorder (export_event request correlation_id "deferred" reason [job_id job; intent]));
      mret (submission "retry_later" request None (Some reason) (Some (audit_id record)))
  else
    let reason := reason_value (reason decision) in
    record ← on_audits (record_event recorder (export_event request correlation_id "denied" reason [intent]));
    mret (submission "rejected" request None (Some reason) (Some (audit_id record))).
End Gateway.
