(* ===== verification/OperabilityTheorems.v ===== *)
(** * Audit, telemetry and export: what they promise

    The bounded stores keep within their bounds, the job store honours the interface of the
    export gateway, telemetry lets through only what its list names and remembers no more
    points than it may, and an export job is left behind only by a request the policy
    allows and the audit has recorded. *)
From S2P Require Import Prelude Digest Sha256 Json Canonical Contracts Timestamps Policy OperabilityContracts Backpressure.
From S2P Require Import BackpressureInvariants BackpressureSample Operability.
Open Scope string_scope.
#[local] Open Scope Z_scope.

(** ** The job store *)

Section JobStore.
Context {U : Unicode} {D : Digest}.

Record job_store_ok (s : BoundedProjectionJobSubmitter) : Prop := {
  js_order : NoDup (_order s);
  js_jobs : forall id, id ∈ _order s <-> is_Some (_jobs s !! id);
  js_bound : Z.of_nat (size (_jobs s)) <= max_jobs s;
}.

Lemma filter_absent id ids : id ∉ ids -> List.filter (fun v => negb (String.eqb v id)) ids = ids.
Proof.
  induction ids as [|v ids IH]; [done|]. cbn. rewrite not_elem_of_cons. intros [Hv Hids].
  rewrite (proj2 (String.eqb_neq _ _)) by congruence. cbn. by rewrite IH.
Qed.

Lemma filter_other id v ids : v ∈ List.filter (fun v => negb (String.eqb v id)) ids <-> v <> id /\ v ∈ ids.
Proof. rewrite list_elem_of_In, List.filter_In, <- list_elem_of_In, negb_true_iff, String.eqb_neq. tauto. Qed.

(** The outcomes of a submission. *)
Lemma bounded_submit_run job s : job_store_ok s ->
  (exists e, bounded_submit job s = (s, Err e)) \/
  (exists status, bounded_submit job s = (s, Ok status) /\ (status = "duplicate" \/ status = "queue_full")) \/
  (exists payload, record_bytes (export_job_to_mapping job) = Ok payload /\ _jobs s !! job_id job = None /\
     Z.of_nat (size (_jobs s)) < max_jobs s /\
     bounded_submit job s = (set_jobs (<[job_id job := payload]> (_jobs s)) (_order s ++ [job_id job])%list s, Ok "accepted")).
Proof.
  intros Hs. unfold bounded_submit, st_lift, st_get, st_modify, mbind, st_bind.
  destruct (record_bytes _) as [payload|e] eqn:E; [|left; by eexists].
  destruct (_jobs s !! job_id job) as [existing|] eqn:F.
  - destruct (String.eqb existing payload); cbn [ensure]; [|left; by eexists]. right; left. eexists. split; [done | by left].
  - destruct (_ <=? _) eqn:G; [right; left; eexists; split; [done | by right]|]. right; right. exists payload. split_and!; try done. lia.
Qed.

Lemma bounded_submit_ok job s : job_store_ok s -> job_store_ok (bounded_submit job s).1.
Proof.
  intros Hs. destruct (bounded_submit_run job s Hs) as [(e & ->) | [(st & -> & _) | (payload & _ & Hn & Hb & ->)]]; [done..|].
  destruct Hs as [H1 H2 H3]. split; cbn.
  - apply list.NoDup_app. split_and!; [done | | apply NoDup_singleton]. intros v Hv ->%list_elem_of_singleton.
    apply H2 in Hv as [? Hv]. congruence.
  - intros id. rewrite elem_of_app, list_elem_of_singleton, H2, lookup_insert_is_Some. destruct (decide (job_id job = id)); naive_solver.
  - rewrite map_size_insert_None by done. lia.
Qed.

Lemma bounded_cancel_ok id s : job_store_ok s -> job_store_ok (bounded_cancel id s).1.
Proof.
  intros Hs. unfold bounded_cancel, st_get, st_modify, mbind, st_bind. destruct (_jobs s !! id) eqn:E; [|done].
  destruct Hs as [H1 H2 H3]. split; cbn.
  - by apply NoDup_filtered.
  - intros v. rewrite filter_other, H2, lookup_delete_is_Some. naive_solver.
  - rewrite map_size_delete, E. cbn. lia.
Qed.

Lemma bounded_submit_unaccepted job s s' r : job_store_ok s -> bounded_submit job s = (s', r) -> r <> Ok "accepted" -> s' = s.
Proof.
  intros Hs H Hr. destruct (bounded_submit_run job s Hs) as [(e & E) | [(st & E & _) | (p & _ & _ & _ & E)]]; rewrite E in H; by injection H as <- <-.
Qed.

Lemma bounded_cancel_undoes job s s' : job_store_ok s -> bounded_submit job s = (s', Ok "accepted") ->
  bounded_cancel (job_id job) s' = (s, Ok true).
Proof.
  intros Hs H. destruct (bounded_submit_run job s Hs) as [(e & E) | [(st & E & Hst) | (p & _ & Hn & _ & E)]]; rewrite E in H.
  - discriminate H.
  - injection H as _ ->. by destruct Hst.
  - injection H as <-. unfold bounded_cancel, st_get, st_modify, mbind, st_bind. cbn. rewrite lookup_insert_eq. cbn.
    rewrite delete_insert_id by done. rewrite List.filter_app, filter_absent.
    + cbn. rewrite String.eqb_refl. cbn. rewrite app_nil_r. by destruct s.
    + intros Hi%(js_jobs _ Hs). rewrite Hn in Hi. by destruct Hi.
Qed.

(** The bounded store honours the interface. *)
#[export] Instance bounded_submitter_laws : SubmitterLaws BoundedProjectionJobSubmitter :=
  {| jobs_ok := job_store_ok; submit_keeps_ok := bounded_submit_ok; submit_unaccepted := bounded_submit_unaccepted;
     cancel_undoes_submit := bounded_cancel_undoes |}.
End JobStore.

Section JobSteps.
Context {U : Unicode} {D : Digest} {R : JsonReader}.

Lemma job_pop_ok s : job_store_ok s -> job_store_ok (job_pop s).1.
Proof.
  intros Hs. unfold job_pop, st_get, st_modify, st_lift, mbind, st_bind. destruct (_order s) as [|id order] eqn:E; [done|].
  destruct Hs as [H1 H2 H3]. rewrite E in H1, H2. apply list.NoDup_cons in H1 as [Hi H1].
  destruct (proj1 (H2 id) ltac:(by left)) as [p Hp]. cbn. rewrite Hp. cbn [of_option].
  assert (K : job_store_ok (set_jobs (delete id (_jobs s)) order s)).
  { split; cbn; [done | |].
    - intros v. rewrite lookup_delete_is_Some, <- H2, elem_of_cons. destruct (decide (v = id)) as [->|]; naive_solver.
    - rewrite map_size_delete, Hp. cbn. lia. }
  by repeat case_match; simplify_eq/=.
Qed.

(** The calls of the job store. *)
Inductive job_call : BoundedProjectionJobSubmitter -> BoundedProjectionJobSubmitter -> Prop :=
| call_job_submit job s : job_call s (job_submit job s).1
| call_job_cancel id s : job_call s (job_cancel id s).1
| call_job_pop s : job_call s (job_pop s).1.

Lemma job_calls_ok s s' : rtc job_call s s' -> job_store_ok s -> job_store_ok s'.
Proof.
  induction 1 as [|x y z Hc _ IH]; [done|]. intros Hx. apply IH.
  destruct Hc; [by apply bounded_submit_ok | by apply bounded_cancel_ok | by apply job_pop_ok].
Qed.
End JobSteps.

(** ** Telemetry *)

Section Telemetry.
Context {U : Unicode} {D : Digest} (allowlist : list (string * TelemetryMetricAllowlist)).
Context {T A : Type} `{!TelemetrySink T} `{!AuditSink A}.

(** Every metric remembered is of the list, with no more points than it may have. *)
Definition points_ok (m : gmap string (gmap string Z)) : Prop :=
  forall metric seen, m !! metric = Some seen ->
  exists policy, assoc metric allowlist = Some policy /\ Z.of_nat (size seen) <= max_cardinality policy.

(** What the list asks of a point at an instant. *)
Record admissible (point : TelemetryPoint) (policy : TelemetryMetricAllowlist) (current bucket : Z) : Prop := {
  ad_metric : assoc (metric_name point) allowlist = Some policy;
  ad_value : value_bucket point ∈ value_buckets policy;
  ad_status : status_code point ∈ status_codes policy;
  ad_past : bucket <= current;
  ad_kept : current - bucket <= retention_seconds policy * SECOND;
}.

Lemma not_expired_size policy current seen : (size (not_expired policy current seen) <= size seen)%nat.
Proof. apply map_subseteq_size, map_filter_subseteq. Qed.

Lemma points_ok_insert m metric seen policy : points_ok m -> assoc metric allowlist = Some policy ->
  Z.of_nat (size seen) <= max_cardinality policy -> points_ok (<[metric := seen]> m).
Proof.
  intros Hm Hp Hs v w [[<- <-] | [_ H]]%lookup_insert_Some; [by exists policy | by apply Hm].
Qed.

Lemma admit_run point at_ m m' r : Forall (fun kv => 1 <= max_cardinality kv.2) allowlist -> points_ok m ->
  _admit allowlist point at_ m = (m', r) ->
  points_ok m' /\
  (r = Ok None -> exists policy current bucket, _timestamp at_ = Ok current /\ _timestamp (time_bucket point) = Ok bucket /\
     admissible point policy current bucket /\ exists seen, m' !! metric_name point = Some seen /\ seen !! point_id point = Some current).
Proof.
  intros Hl Hm H. unfold _admit in H. destruct (assoc (metric_name point) allowlist) as [policy|] eqn:Ep; [|by injection H as <- <-].
  destruct (str_mem (value_bucket point) _) eqn:Ev; [|by injection H as <- <-]. cbn [negb] in H.
  destruct (str_mem (status_code point) _) eqn:Es; [|by injection H as <- <-]. cbn [negb] in H.
  unfold st_lift, st_get, st_modify, mbind, st_bind in H.
  destruct (_timestamp at_) as [current|] eqn:Ec; [|by injection H as <- <-].
  destruct (_timestamp (time_bucket point)) as [bucket|] eqn:Eb; [|by injection H as <- <-].
  destruct ((current <? bucket) || too_old policy current bucket) eqn:Et; [by injection H as <- <-|].
  apply orb_false_iff in Et as [Et1 Et2]. unfold too_old in Et2. apply str_mem_spec in Ev, Es.
  set (seen := not_expired policy current (default ∅ (m !! metric_name point))) in H.
  assert (Hmax : 1 <= max_cardinality policy).
  { apply assoc_Some_elem in Ep. by apply (proj1 (list.Forall_forall _ _) Hl) in Ep. }
  assert (Hs : Z.of_nat (size seen) <= max_cardinality policy).
  { assert (Hw : Z.of_nat (size (default ∅ (m !! metric_name point))) <= max_cardinality policy).
    { destruct (m !! metric_name point) as [w|] eqn:Ew.
      - destruct (Hm _ _ Ew) as (policy' & Hp' & Hw). assert (policy' = policy) as -> by congruence. exact Hw.
      - change (Z.of_nat (size (∅ : gmap string Z)) <= max_cardinality policy). rewrite map_size_empty. lia. }
    pose proof (not_expired_size policy current (default ∅ (m !! metric_name point))). unfold seen. lia. }
  destruct (bool_decide (seen !! point_id point = None) && _) eqn:Ef in H; injection H as <- <-.
  - split; [by eapply points_ok_insert | done].
  - split.
    + eapply points_ok_insert; [by eapply points_ok_insert | exact Ep |]. destruct (seen !! point_id point) as [t|] eqn:Eo.
      * rewrite map_size_insert_Some by eauto. done.
      * rewrite bool_decide_true in Ef by done. cbn in Ef. rewrite map_size_insert_None by done. lia.
    + intros _. exists policy, current, bucket. split_and!; try done.
      * split; try done; lia.
      * eexists. rewrite lookup_insert_eq. split; [done|]. by rewrite lookup_insert_eq.
Qed.

Lemma emit_admit a point e s :
  _metric_points (emit allowlist a point e s).1 = (_admit allowlist point (ev_occurred_at e) (_metric_points s)).1.
Proof. unfold emit. destruct (_admit _ _ _ _) as [points [[rejection|]|err]]; [done | | done]. repeat case_match; done. Qed.

(** Whatever the audit and telemetry ports do, [emit] keeps the memory of telemetry
    bounded: only metrics of the list are remembered, each with at most its cardinality of
    points.  A point reaches the telemetry port only when its metric, value and status are
    of the list, its bucket is not in the future and no older than the retention, and it
    has been counted; otherwise both ports are left alone.  When the port fails, the event
    goes to the audit, and when the audit fails too the caller is told. *)
Theorem telemetry_bounded a point e s s' r : Forall (fun kv => 1 <= max_cardinality kv.2) allowlist -> points_ok (_metric_points s) ->
  emit allowlist a point e s = (s', r) ->
  points_ok (_metric_points s') /\
  ((telemetry_sink s' = telemetry_sink s /\ telemetry_audit s' = telemetry_audit s /\
    ((exists err, r = Err err) \/ exists reason, r = Ok (delivery "rejected" (point_id point) (Some reason) None))) \/
   (exists policy current bucket seen, _timestamp (ev_occurred_at e) = Ok current /\ _timestamp (time_bucket point) = Ok bucket /\
     admissible point policy current bucket /\
     _metric_points s' !! metric_name point = Some seen /\ seen !! point_id point = Some current /\
     match sink_emit point (telemetry_sink s) with
     | (t, Ok _) => telemetry_sink s' = t /\ telemetry_audit s' = telemetry_audit s /\ r = Ok (delivery "delivered" (point_id point) None None)
     | (t, Err _) => telemetry_sink s' = t /\
         match record_event a (telemetry_event point e) (telemetry_audit s) with
         | (audit, Ok record) => telemetry_audit s' = audit /\
             r = Ok (delivery "audit_only" (point_id point) (Some "telemetry_unavailable") (Some (audit_id record)))
         | (audit, Err _) => telemetry_audit s' = audit /\ r = Err TelemetryAuditUnavailable
         end
     end)).
Proof.
  intros Hl Hs H. destruct (_admit allowlist point (ev_occurred_at e) (_metric_points s)) as [m' r'] eqn:Ea.
  destruct (admit_run _ _ _ _ _ Hl Hs Ea) as [Hm Ha]. split.
  { pose proof (emit_admit a point e s) as K. rewrite H, Ea in K. cbn in K. by rewrite K. }
  unfold emit in H. rewrite Ea in H. destruct r' as [[rejection|]|err].
  - left. injection H as <- <-. split_and!; [done.. |]. right. by eexists.
  - right. destruct (Ha eq_refl) as (policy & current & bucket & Hc & Hb & Had & seen & Hseen & Hpoint).
    exists policy, current, bucket, seen.
    assert (K : _metric_points s' = m') by (pose proof (emit_admit a point e s) as K; unfold emit in K; rewrite Ea in K; rewrite H in K; by cbn in K).
    rewrite K. do 5 (split; [done|]).
    destruct (sink_emit point (telemetry_sink s)) as [t [[]|err]]; [by injection H as <- <-|].
    destruct (record_event a _ (telemetry_audit s)) as [audit [record|err']]; by injection H as <- <-.
  - left. injection H as <- <-. split_and!; [done.. |]. left. by eexists.
Qed.
End Telemetry.

(** A port that keeps the points it is given. *)
#[local] Instance listing_sink : TelemetrySink (list TelemetryPoint) := fun point => st_modify (cons point).

Definition sample_recorder : AuditRecorder :=
  {| hasher := {| hash_key := sixty_four "k"; hash_namespace := "audit-ref-v1" |}; policy_version := "policy.v1" |}.

Definition draft_point (value : string) : TelemetryPoint :=
  {| point_id := ""; tp_workspace_ref_hash := sixty_four "a"; metric_name := "queue.depth"; time_bucket := "2024-01-01T00:00:00Z";
     value_bucket := value; tp_count := "3"; status_code := "ok" |}.
Definition made_point (draft : TelemetryPoint) : TelemetryPoint :=
  match point_create (U := unicode_sample) draft with Ok p => p | Err _ => draft end.
Definition small_point : TelemetryPoint := Eval vm_compute in made_point (draft_point "small").
Definition huge_point : TelemetryPoint := Eval vm_compute in made_point (draft_point "huge").

Definition sample_event : AuditEvent :=
  {| ev_workspace_id := "w"; ev_actor_id := "a"; ev_operation_id := "o"; ev_correlation_id := "c"; ev_action := ""; ev_outcome := "";
     ev_reason_code := ""; ev_occurred_at := sample_now; ev_generation_id := None; ev_object_refs := [] |}.

Definition sample_telemetry : Telemetry (T := list TelemetryPoint) (A := BoundedInMemoryAuditSink) :=
  {| _metric_points := ∅; telemetry_sink := []; telemetry_audit := {| max_records := 1; _records := ∅ |} |}.

Definition emit_sample (point : TelemetryPoint) :=
  emit (A := BoundedInMemoryAuditSink) (U := unicode_sample) DEFAULT_TELEMETRY_ALLOWLIST
    (AuditSink0 := bounded_audit_sink (U := unicode_sample)) sample_recorder point sample_event sample_telemetry.

Lemma huge_turned_away : telemetry_sink (emit_sample huge_point).1 = [].
Proof. vm_compute. reflexivity. Qed.
Lemma small_delivered : telemetry_sink (emit_sample small_point).1 = [small_point].
Proof. vm_compute. reflexivity. Qed.

Lemma telemetry_bounded_witness :
  telemetry_sink (emit_sample huge_point).1 = [] /\ telemetry_sink (emit_sample small_point).1 = [small_point] /\
  points_ok DEFAULT_TELEMETRY_ALLOWLIST (_metric_points (emit_sample small_point).1).
Proof.
  assert (Hl : Forall (fun kv => 1 <= max_cardinality kv.2) DEFAULT_TELEMETRY_ALLOWLIST) by (repeat constructor; vm_compute; discriminate).
  assert (H0 : points_ok DEFAULT_TELEMETRY_ALLOWLIST (_metric_points sample_telemetry)) by (intros m w Hw; discriminate Hw).
  split; [exact huge_turned_away|]. split; [exact small_delivered|].
  destruct (emit_sample small_point) as [s r] eqn:E. unfold emit_sample in E.
  exact (proj1 (telemetry_bounded (AuditSink0 := bounded_audit_sink (U := unicode_sample)) (U := unicode_sample) DEFAULT_TELEMETRY_ALLOWLIST
    sample_recorder small_point sample_event sample_telemetry s r Hl H0 E)).
Defined.

(** ** Export *)

Section Exporting.
Context {U : Unicode} {D : Digest} {J A : Type} `{!ProjectionJobSubmitter J} `{!SubmitterLaws J} `{!AuditSink A}.
Context (recorder : AuditRecorder) (gateway_now : string).

Lemma on_jobs_run {X} (m : st J operability_error X) (s : Exports (J := J) (A := A)) j r :
  m (jobs s) = (j, r) -> on_jobs m s = ({| jobs := j; audits := audits s |}, r).
Proof. unfold on_jobs. by intros ->. Qed.

Lemma on_audits_run {X} (m : st A operability_error X) (s : Exports (J := J) (A := A)) a r :
  m (audits s) = (a, r) -> on_audits m s = ({| jobs := jobs s; audits := a |}, r).
Proof. unfold on_audits. by intros ->. Qed.

Lemma sorted_strings_ok ok b l l' : _sorted_strings ok b l = Ok l' -> l' = l.
Proof. unfold _sorted_strings. intros H. inv_checks H. done. Qed.

Lemma catch_ok {X} (m : st (Exports (J := J) (A := A)) operability_error X) h s s' x : m s = (s', Ok x) -> st_catch m h s = (s', Ok x).
Proof. unfold st_catch. by intros ->. Qed.
Lemma catch_err {X} (m : st (Exports (J := J) (A := A)) operability_error X) h s s' e : m s = (s', Err e) -> st_catch m h s = h e s'.
Proof. unfold st_catch. by intros ->. Qed.

(** A validated request has a known sensitivity, within the ceiling of its target, and asks
    for no forbidden field. *)
Lemma export_request_facts r r' : export_request_post_init r = Ok r' ->
  exists s ceiling, sensitivity_of (er_max_sensitivity r) = Some s /\ assoc (er_target_class r) EXPORT_TARGET_CEILINGS = Some ceiling /\
    (rank s <= rank ceiling)%nat /\ existsb forbidden_field (er_field_allowlist r) = false.
Proof.
  unfold export_request_post_init. intros H. inv_checks H.
  match goal with E : _sorted_strings _ _ _ = Ok _ |- _ => apply sorted_strings_ok in E as -> end.
  match goal with E : within_ceiling _ _ = Ok _ |- _ => unfold within_ceiling in E;
    apply bind_ok in E as (c & Hc%of_option_ok & (sv & Hs%of_option_ok & Hr%ensure_ok)%bind_ok) end.
  exists sv, c. split_and!; try done; [by apply Nat.leb_le | by apply negb_true_iff].
Qed.

Lemma job_of_request r job : job_from_request r = Ok job -> exists id, job = job_of r id.
Proof.
  unfold job_from_request, export_job_post_init. intros H. inv_result H. by eexists.
Qed.

(** The audit sink is the only thing [record_event] changes, and its answer is its own. *)
Lemma record_event_ok e (a a' : A) record : record_event recorder e a = (a', Ok record) ->
  audit_of recorder e = Ok record /\ exists status, sink_append record a = (a', Ok status).
Proof.
  unfold record_event. intros (s1 & v & [-> Hv]%st_lift_ok & H)%st_bind_ok. apply st_bind_ok in H as (s2 & status & Hs & [= <- <-]). eauto.
Qed.

Lemma audits_then_answer {X Y} (m : st A operability_error X) (f : X -> Y) (s s' : Exports (J := J) (A := A)) r :
  (x ← on_audits m; mret (f x)) s = (s', r) ->
  jobs s' = jobs s /\ forall y, r = Ok y -> exists x, m (audits s) = (audits s', Ok x) /\ y = f x.
Proof.
  unfold mbind, st_bind, on_audits. destruct (m (audits s)) as [a [x|e]]; intros [= <- <-]; (split; [done|]); intros y [= <-].
  by exists x.
Qed.

(** C23: a request to export leaves a projection job behind only when the policy grants the
    token the export of that workspace, actor and sensitivity at that time, the submitter
    accepted the job, and the audit took the record of it; then the answer is [accepted]
    with the identifiers of both.  In every other case, a refused, full, failing or
    conflicting submitter and an audit that raises after the job was accepted included, the
    jobs are what they were.  The job carries the request's own fields, none of them
    forbidden, at a sensitivity within the ceiling of its target and within the token's; and
    a request the policy refuses is answered with its reason once the audit has it. *)
Theorem export_only_when_authorized request token correlation_id (s s' : Exports (J := J) (A := A)) r :
  export_request_post_init request = Ok request -> jobs_ok (jobs s) ->
  export_submit recorder gateway_now request token correlation_id s = (s', r) ->
  exists sensitivity, sensitivity_of (er_max_sensitivity request) = Some sensitivity /\
  let asked := export_policy_request gateway_now request sensitivity in
  (jobs s' = jobs s \/
   granted token asked /\ exists job ceiling record status,
     job_submit job (jobs s) = (jobs s', Ok "accepted") /\
     audit_of recorder (export_event gateway_now request correlation_id "accepted" "projection_job_queued"
       [job_id job; er_delivery_intent_ref request]) = Ok record /\
     sink_append record (audits s) = (audits s', Ok status) /\
     r = Ok (submission "accepted" request (Some (job_id job)) None (Some (audit_id record))) /\
     job_from_request request = Ok job /\ ej_field_allowlist job = er_field_allowlist request /\
     existsb forbidden_field (ej_field_allowlist job) = false /\
     assoc (ej_target_class job) EXPORT_TARGET_CEILINGS = Some ceiling /\
     (rank sensitivity <= rank ceiling)%nat /\ (rank sensitivity <= rank (Policy.max_sensitivity token))%nat) /\
  (forall x, r = Ok x -> es_status x = "accepted" -> granted token asked) /\
  (~ granted token asked -> forall x, r = Ok x -> exists record status,
     x = submission "rejected" request None (Some (reason_value (reason (authorize token asked)))) (Some (audit_id record)) /\
     sink_append record (audits s) = (audits s', Ok status)).
Proof.
  intros Hv Hj H. destruct (export_request_facts _ _ Hv) as (sv & ceiling & Hs & Hc & Hr & Hf). exists sv. split; [done|]. cbv zeta.
  unfold export_submit in H. rewrite (st_bind_run _ _ s s sv) in H by (unfold st_lift; by rewrite Hs).
  pose proof (authorize_granted token (export_policy_request gateway_now request sv)) as G.
  destruct (allowed (authorize token _)) eqn:Ea.
  - pose proof (proj1 G eq_refl) as Hg. split; [|by split].
    destruct (job_from_request request) as [job|err] eqn:Ejob.
    2: { rewrite (st_bind_err _ _ s s err) in H by done. injection H as <- <-. by left. }
    rewrite (st_bind_run _ _ s s job) in H by done. destruct (job_submit job (jobs s)) as [j q] eqn:Ej.
    rewrite (st_bind_run _ _ s {| jobs := j; audits := audits s |} (match q with Ok status => status | Err _ => "unavailable" end)) in H
      by (unfold st_catch; rewrite (on_jobs_run _ s j q Ej); by destruct q).
    destruct (decide (q = Ok "accepted")) as [->|Hq].
    + cbn [String.eqb Ascii.eqb Bool.eqb] in H.
      destruct (record_event recorder (export_event gateway_now request correlation_id "accepted" "projection_job_queued"
        [job_id job; er_delivery_intent_ref request]) (audits s)) as [a [record|err]] eqn:Er.
      * rewrite (st_bind_run _ _ _ {| jobs := j; audits := a |} record) in H by (apply catch_ok, (on_audits_run _ {| jobs := j; audits := audits s |}), Er).
        injection H as <- <-. right. split; [done|]. destruct (record_event_ok _ _ _ _ Er) as (Ha & status & Hsink).
        destruct (job_of_request _ _ Ejob) as [id Hid]. exists job, ceiling, record, status. cbn [jobs audits].
        split_and!; try done; try (by rewrite Hid). apply (granted_rank _ _ Hg).
      * left. rewrite (st_bind_err _ _ _ {| jobs := jobs s; audits := a |} err) in H; [by injection H as <- <-|].
        rewrite (catch_err _ _ _ {| jobs := j; audits := a |} err) by (apply (on_audits_run _ {| jobs := j; audits := audits s |}), Er).
        by rewrite (st_bind_run _ _ _ _ _ (on_jobs_run _ {| jobs := j; audits := a |} _ _ (cancel_undoes_submit _ _ _ Hj Ej))).
    + left. pose proof (submit_unaccepted _ _ _ _ Hj Ej Hq) as ->.
      destruct q as [status|e].
      * destruct (String.eqb status "duplicate"); [by injection H as <- <-|].
        destruct (String.eqb status "accepted") eqn:E; [apply String.eqb_eq in E; congruence|].
        by apply audits_then_answer in H as [-> _].
      * by apply audits_then_answer in H as [-> _].
  - assert (Hn : ~ granted token (export_policy_request gateway_now request sv)) by (intros X%G; done).
    apply audits_then_answer in H as [Hjobs Hans]. split; [by left|].
    split; intros; destruct (Hans _ ltac:(eassumption)) as (record & Hrec & ->); [done|].
    destruct (record_event_ok _ _ _ _ Hrec) as (_ & status & Hsink). by exists record, status.
Qed.
End Exporting.

Definition draft_request : ExportRequest :=
  {| request_id := ""; er_workspace_id := "w"; er_actor_id := "a"; er_as_of_generation_id := sixty_four "1"; er_target_class := "internal_projection";
     er_projection_profile := "summary.v1"; er_field_allowlist := ["title"; "summary.text"]; er_max_sensitivity := "internal";
     er_delivery_intent_ref := sixty_four "d"; er_requested_at := sample_now |}.
Definition sample_request : ExportRequest := Eval vm_compute in
  match export_request_create (U := unicode_sample) draft_request with Ok r => r | Err _ => draft_request end.

Definition export_token : CapabilityToken :=
  {| token_id := "t"; token_workspace_id := "w"; token_actor_id := "a"; actions := ["export.request"]; Policy.max_sensitivity := PRIVATE;
     expires_at := "2024-01-02T00:00:00Z" |}.

(** A gateway whose audit store takes [n] records. *)
Definition sample_exports (n : Z) : Exports (J := BoundedProjectionJobSubmitter) (A := BoundedInMemoryAuditSink) :=
  {| jobs := {| max_jobs := 1; _jobs := ∅; _order := [] |}; audits := {| max_records := n; _records := ∅ |} |}.

Definition export_sample (n : Z) (token : CapabilityToken) :=
  export_submit (U := unicode_sample) (J := BoundedProjectionJobSubmitter) (A := BoundedInMemoryAuditSink)
    (ProjectionJobSubmitter0 := bounded_submitter (U := unicode_sample)) (AuditSink0 := bounded_audit_sink (U := unicode_sample))
    sample_recorder sample_now sample_request token "c" (sample_exports n).

Lemma sample_store_ok : job_store_ok (jobs (sample_exports 0)).
Proof.
  split; [constructor | | vm_compute; discriminate]. intros id. cbn. rewrite lookup_empty. split; [by intros ?%elem_of_nil | by intros [? ?]].
Qed.

Definition status_of (r : result operability_error ExportSubmissionResult) : string :=
  match r with Ok x => es_status x | Err _ => "" end.

Lemma export_accepted : status_of (export_sample 1 export_token).2 = "accepted".
Proof. vm_compute. reflexivity. Qed.
Lemma export_left_job : length (_order (jobs (export_sample 1 export_token).1)) = 1%nat.
Proof. vm_compute. reflexivity. Qed.
Lemma export_not_audited : (export_sample 0 export_token).2 = Err AuditCapacityExceeded.
Proof. vm_compute. reflexivity. Qed.

(** The job is queued when the audit has room, and taken back when it has none. *)
Lemma export_only_when_authorized_witness :
  (granted export_token (export_policy_request sample_now sample_request INTERNAL) /\ length (_order (jobs (export_sample 1 export_token).1)) = 1%nat) /\
  (export_sample 0 export_token).2 = Err AuditCapacityExceeded /\
  jobs (export_sample 0 export_token).1 = jobs (sample_exports 0).
Proof.
  assert (Hv : export_request_post_init (U := unicode_sample) sample_request = Ok sample_request) by (vm_compute; reflexivity).
  pose proof export_not_audited as E.
  split; [split|split; [exact E|]].
  - pose proof export_accepted as E1. destruct (export_sample 1 export_token) as [s r] eqn:E'. unfold export_sample in E'. cbn [snd] in E1.
    destruct (export_only_when_authorized (U := unicode_sample) (SubmitterLaws0 := bounded_submitter_laws (U := unicode_sample))
      (AuditSink0 := bounded_audit_sink (U := unicode_sample)) sample_recorder sample_now sample_request export_token "c" (sample_exports 1)
      s r Hv sample_store_ok E') as (sv & Hs & _ & H & _).
    injection Hs as <-. destruct r as [x|]; [|discriminate E1]. exact (H x eq_refl E1).
  - exact export_left_job.
  - destruct (export_sample 0 export_token) as [s r] eqn:E'. unfold export_sample in E'. cbn [snd] in E.
    destruct (export_only_when_authorized (U := unicode_sample) (SubmitterLaws0 := bounded_submitter_laws (U := unicode_sample))
      (AuditSink0 := bounded_audit_sink (U := unicode_sample)) sample_recorder sample_now sample_request export_token "c" (sample_exports 0)
      s r Hv sample_store_ok E') as (sv & _ & [H | (_ & ? & ? & ? & ? & _ & _ & _ & H & _)] & _);
      [exact H|]. rewrite E in H. discriminate H.
Defined.
