(* ===== verification/Calendar.v ===== *)
(** * Months and years as ranges of days

    Which days of the calendar of [datetime] a month and a year hold: the days from its
    first day to the day before the next one's. *)
From S2P Require Import Prelude Timestamps.
#[local] Open Scope Z_scope.

Definition year_of (day : Z) : Z := (ord2ymd day).1.1.

(** Months, numbered through the years. *)
Definition month_index (day : Z) : Z := let '(y, m, _) := ord2ymd day in 12 * y + (m - 1).

Definition is_day (x : Z) : Prop := 0 <= x < MAX_DAYS.

Ltac month_cases m :=
  let H := fresh in
  assert (m = 1 \/ m = 2 \/ m = 3 \/ m = 4 \/ m = 5 \/ m = 6 \/ m = 7 \/ m = 8 \/ m = 9 \/ m = 10 \/ m = 11 \/ m = 12) as H
    by lia; repeat destruct H as [H | H]; subst m.

Lemma days_in_month_range leap m : 1 <= m <= 12 -> 28 <= days_in_month leap m <= 31.
Proof. intros Hm. month_cases m; destruct leap; eval_months; lia. Qed.

Lemma next_month_first leap m : 1 <= m < 12 -> days_before_month leap (m + 1) = days_before_month leap m + days_in_month leap m.
Proof. intros Hm. month_cases m; try lia; destruct leap; vm_compute; reflexivity. Qed.

Lemma january leap : days_before_month leap 1 = 0.
Proof. by destruct leap. Qed.

Lemma december leap : days_before_month leap 12 + 31 = year_length leap.
Proof. destruct leap; vm_compute; reflexivity. Qed.

Lemma next_year_first y : days_before_year (y + 1) = days_before_year y + year_length (is_leap y).
Proof.
  unfold days_before_year, is_leap. replace (y + 1 - 1) with y by lia.
  destruct (Z.eqb_spec (y mod 4) 0), (Z.eqb_spec (y mod 100) 0), (Z.eqb_spec (y mod 400) 0); cbn [andb orb negb year_length]; div_lia.
Qed.

(** The first day after a month. *)
Definition month_end (y m : Z) : Z := ymd2ord y m 1 + days_in_month (is_leap y) m.

Lemma month_end_next y m : 1 <= m < 12 -> month_end y m = ymd2ord y (m + 1) 1.
Proof. intros Hm. unfold month_end, ymd2ord. rewrite next_month_first by done. lia. Qed.

Lemma month_end_december y : month_end y 12 = ymd2ord (y + 1) 1 1.
Proof.
  unfold month_end, ymd2ord. rewrite next_year_first. pose proof (december (is_leap y)).
  assert (E : days_in_month (is_leap y) 12 = 31) by (by destruct (is_leap y)). rewrite january. lia.
Qed.

Lemma valid_date_ok y m d :
  valid_date y m d = true <-> 1 <= y <= 9999 /\ 1 <= m <= 12 /\ 1 <= d <= days_in_month (is_leap y) m.
Proof. unfold valid_date. rewrite !andb_true_iff, !Z.leb_le. lia. Qed.

Lemma month_span y m x : 1 <= y <= 9999 -> 1 <= m <= 12 -> is_day x ->
  (ymd2ord y m 1 <= x < month_end y m <-> month_index x = 12 * y + (m - 1)).
Proof.
  intros Hy Hm Hx. unfold month_index, month_end. split.
  - intros H. replace x with (ymd2ord y m (x - ymd2ord y m 1 + 1)) by (unfold ymd2ord; lia).
    rewrite ord2ymd_ymd2ord; [done|]. apply valid_date_ok. lia.
  - pose proof (ymd2ord_ord2ymd x Hx) as Ho. destruct (ord2ymd x) as [[y' m'] d]. destruct Ho as [Hv Ho].
    apply valid_date_ok in Hv. intros E. assert (y' = y /\ m' = m) as [-> ->] by lia. unfold ymd2ord in *. lia.
Qed.

Lemma year_span y x : 1 <= y <= 9999 -> is_day x -> (ymd2ord y 1 1 <= x < ymd2ord (y + 1) 1 1 <-> year_of x = y).
Proof.
  intros Hy Hx. unfold year_of.
  assert (E : ymd2ord y 1 1 = days_before_year y) by (unfold ymd2ord; rewrite january; lia).
  assert (E1 : ymd2ord (y + 1) 1 1 = days_before_year (y + 1)) by (unfold ymd2ord; rewrite january; lia).
  rewrite E, E1, next_year_first. split.
  - intros H. pose proof (month_day_spec (is_leap y) (x - days_before_year y)) as Hmd.
    destruct (month_day _ _ _) as [m d]. destruct Hmd as (Hm & Hd & Hn); [lia|].
    replace x with (ymd2ord y m d) by (unfold ymd2ord; lia). rewrite ord2ymd_ymd2ord; [done|]. by apply valid_date_ok.
  - pose proof (ymd2ord_ord2ymd x Hx) as Ho. destruct (ord2ymd x) as [[y' m'] d]. destruct Ho as [Hv Ho].
    apply valid_date_ok in Hv. cbn. intros ->. unfold ymd2ord in Ho.
    destruct (month_day_inv (is_leap y) m' d) as [_ Hn]; [lia..|]. lia.
Qed.

(** The first days of the years 1 to 10000. *)
Lemma first_day_range y m : 1 <= y <= 9999 -> 1 <= m <= 12 -> is_day (ymd2ord y m 1).
Proof.
  intros Hy Hm. assert (Hv : valid_fields {| f_year := y; f_month := m; f_day := 1; f_hour := 0; f_minute := 0; f_second := 0 |} = true).
  { apply valid_fields_ok. cbn. split; [|lia]. apply valid_date_ok. pose proof (days_in_month_range (is_leap y) m Hm). lia. }
  destruct (instant_range _ Hv) as [Hr _]. unfold in_range, instant, is_day, MAX_DAYS, DAY, SECOND in *. cbn in Hr. lia.
Qed.

Lemma year_first_le y y' m m' : y < y' -> 1 <= m <= 12 -> 1 <= m' <= 12 -> ymd2ord y m 1 < ymd2ord y' m' 1.
Proof.
  intros Hy Hm Hm'. unfold ymd2ord.
  assert (Hle : days_before_year (y + 1) <= days_before_year y') by (unfold days_before_year; div_lia).
  rewrite next_year_first in Hle.
  assert (days_before_month (is_leap y) m < year_length (is_leap y)) by (month_cases m; destruct (is_leap y); vm_compute; reflexivity).
  assert (0 <= days_before_month (is_leap y') m') by (month_cases m'; destruct (is_leap y'); vm_compute; congruence). lia.
Qed.
