(* ===== verification/TimeZones.v ===== *)
(** * Time zones and local time (zoneinfo as memory_runtime/temporal.py uses it)

    A [ZoneInfo] as what [datetime] asks of it: the offset of a local time, with its fold,
    and the offset at an instant.  [ZoneLaws] is what the documentation of [datetime]
    promises of a zone; a zone given by its transitions, as zoneinfo reads them from the
    database, meets it.  [_localize_strict] of temporal.py is the one operation that turns
    a local time into an instant. *)
From S2P Require Import Prelude Timestamps RuntimeContracts.
#[local] Open Scope Z_scope.

(** The runtime's contract errors, and Python's own that are not among them. *)
Inductive temporal_error : Type :=
| TeContract (e : runtime_error)
| TeOverflowError
| TeValueError
| TeTypeError.

#[export] Instance temporal_error_eq_dec : EqDecision temporal_error.
Proof. solve_decision. Defined.

Notation InvalidContractValue := (TeContract RtInvalidValue).

(** Offsets are east of UTC; the fold is 1 for the second occurrence of a repeated time. *)
Record ZoneInfo : Type := {
  zone_key : string;
  utcoffset : Z -> bool -> Z;
  offset_at : Z -> Z * bool;
}.

(** [naive.replace(tzinfo=zone, fold=fold).astimezone(timezone.utc)]; [None] is OverflowError. *)
Definition to_utc (zone : ZoneInfo) (naive : Z) (fold : bool) : option Z := add_delta naive (- utcoffset zone naive fold).

(** [value.astimezone(zone)]: the local time and its fold; no datetime is out of range. *)
Definition to_local (zone : ZoneInfo) (value : Z) : option (Z * bool) :=
  if decide (in_range value) then
    let '(offset, fold) := offset_at zone value in
    local ← add_delta value offset; Some (local, fold)
  else None.

(** An instant survives the way to local time and back, offsets are whole seconds, and
    less than a day. *)
Class ZoneLaws (zone : ZoneInfo) : Prop := {
  local_and_back u n fold : to_local zone u = Some (n, fold) -> to_utc zone n fold = Some u;
  whole_offset u : fst (offset_at zone u) mod SECOND = 0;
  bounded_offset u : - DAY < fst (offset_at zone u) < DAY;
  bounded_utcoffset n fold : - DAY < utcoffset zone n fold < DAY;
}.

(** ** [_localize_strict] *)

Definition fold_key (fold : bool) : string := if fold then "1" else "0".

(** One round of the loop: the instant, if it shows this local time with this fold. *)
Definition fold_candidate (zone : ZoneInfo) (naive : Z) (fold : bool) : result temporal_error (list (string * Z)) :=
  utc_value ← of_option TeOverflowError (to_utc zone naive fold);
  round_trip ← of_option TeOverflowError (to_local zone utc_value);
  Ok (if decide (round_trip = (naive, fold)) then [(fold_key fold, utc_value)] else []).

Definition select_candidate (candidates : list (string * Z)) (fold : option string) : result temporal_error Z :=
  match remove_dups (map snd candidates), fold with
  | [], _ => Err InvalidContractValue
  | [instant], None => Ok instant
  | [instant], Some f =>
      match candidates with
      | (only_fold, _) :: _ => if String.eqb f only_fold then Ok instant else Err InvalidContractValue
      | [] => Err InvalidContractValue
      end
  | _, None => Err InvalidContractValue
  | _, Some f => of_option InvalidContractValue (assoc f candidates)
  end.

Definition _localize_strict (zone : ZoneInfo) (naive : Z) (fold : option string) : result temporal_error Z :=
  first ← fold_candidate zone naive false;
  second ← fold_candidate zone naive true;
  select_candidate (first ++ second) fold.

(** ** What it returns *)

Lemma remove_dups_two (x y : Z) : x <> y -> remove_dups [x; y] = [x; y].
Proof. intros Hne. cbn. unfold decide_rel. destruct (list_elem_of_dec x [y]) as [Hx|]; [set_solver | done]. Qed.

Lemma add_delta_ok t d t' : add_delta t d = Some t' <-> t' = t + d /\ in_range t'.
Proof. unfold add_delta. case_decide; split; [intros [= <-] | intros [-> _] | done | intros [-> ?]]; by auto. Qed.

Lemma to_utc_range zone n fold u : to_utc zone n fold = Some u -> in_range u.
Proof. by intros [_ ?]%add_delta_ok. Qed.

(** The clock of the zone shows [naive] at the instant [u]. *)
Definition shows (zone : ZoneInfo) (naive u : Z) : Prop := exists fold, to_local zone u = Some (naive, fold).

(** Away from the ends of the calendar, where a conversion may leave it. *)
Definition inland (naive : Z) : Prop := 2 * DAY <= naive < (MAX_DAYS - 2) * DAY.

Section Localize.
Context (zone : ZoneInfo) {L : ZoneLaws zone}.

Lemma fold_candidate_inland naive fold : inland naive -> exists l, fold_candidate zone naive fold = Ok l /\
  (forall u, to_local zone u = Some (naive, fold) -> l = [(fold_key fold, u)]) /\
  (l = [] \/ exists u, l = [(fold_key fold, u)] /\ to_local zone u = Some (naive, fold)).
Proof using L.
  intros Hn. unfold fold_candidate. pose proof (bounded_utcoffset naive fold) as Ho.
  unfold inland, MAX_DAYS, DAY, SECOND in *. destruct (to_utc zone naive fold) as [v|] eqn:E.
  2: { unfold to_utc, add_delta, in_range, MAX_DAYS, DAY, SECOND in E. case_decide; [done | lia]. }
  cbn [of_option mbind result_bind]. destruct (to_local zone v) as [[n f]|] eqn:E2.
  2: { unfold to_local in E2. rewrite decide_True in E2 by (by eapply to_utc_range). apply add_delta_ok in E as [-> _].
       pose proof (bounded_offset (naive + - utcoffset zone naive fold)) as Hb. destruct (offset_at zone _) as [o f].
       cbn in Hb. unfold add_delta, in_range, MAX_DAYS, DAY, SECOND in *. case_decide; [done | lia]. }
  cbn [of_option mbind result_bind]. eexists. split; [done|]. split.
  - intros u Hu. pose proof (local_and_back _ _ _ Hu) as Hb. rewrite E in Hb. injection Hb as ->.
    rewrite E2 in Hu. injection Hu as -> ->. by rewrite decide_True.
  - case_decide as Hd; [right; injection Hd as -> -> | by left]. eauto.
Qed.

(** The candidates are the instants that show the time, each under its fold. *)
Lemma candidates_inland naive : inland naive -> exists l, 
  (forall fold, _localize_strict zone naive fold = select_candidate l fold) /\
  ((l = [] /\ forall u, ~ shows zone naive u) \/
   (exists f u, l = [(fold_key f, u)] /\ to_local zone u = Some (naive, f) /\ forall u', shows zone naive u' -> u' = u) \/
   (exists u0 u1, l = [("0", u0); ("1", u1)]%string /\ u0 <> u1 /\
      to_local zone u0 = Some (naive, false) /\ to_local zone u1 = Some (naive, true))).
Proof using L.
  intros Hn. destruct (fold_candidate_inland naive false Hn) as (l0 & E0 & H0 & C0).
  destruct (fold_candidate_inland naive true Hn) as (l1 & E1 & H1 & C1).
  exists (l0 ++ l1)%list. split.
  { intros fold. unfold _localize_strict. rewrite E0. cbn [mbind result_bind]. by rewrite E1. }
  destruct C0 as [-> | (u0 & -> & K0)], C1 as [-> | (u1 & -> & K1)]; cbn [app].
  - left. split; [done|]. intros u [[|] Hu]; [by apply H1 in Hu | by apply H0 in Hu].
  - right. left. exists true, u1. split; [done|]. split; [done|]. intros u' [[|] Hu]; [|by apply H0 in Hu].
    apply H1 in Hu. by injection Hu.
  - right. left. exists false, u0. split; [done|]. split; [done|]. intros u' [[|] Hu]; [by apply H1 in Hu|].
    apply H0 in Hu. by injection Hu.
  - right. right. exists u0, u1. split; [done|]. split; [|done]. intros ->. rewrite K0 in K1. discriminate K1.
Qed.
End Localize.

Section Answers.
Context (zone : ZoneInfo) {L : ZoneLaws zone} (naive : Z) (Hn : inland naive).

Lemma localize_unique u :
  _localize_strict zone naive None = Ok u <-> shows zone naive u /\ forall u', shows zone naive u' -> u' = u.
Proof using L Hn.
  destruct (candidates_inland zone naive Hn) as (l & -> & [[-> Hno] | [(f & v & -> & Hv & Hu) | (u0 & u1 & -> & Hne & H0 & H1)]]).
  - split; [done|]. intros [Hs _]. by destruct (Hno u).
  - cbn. split; [intros [= <-] | intros [Hs _]; by rewrite (Hu u Hs)]. split; [by exists f | done].
  - unfold select_candidate. cbn [map snd]. rewrite remove_dups_two by done. split; [done|]. intros [_ Hu].
    destruct Hne. rewrite (Hu u0), (Hu u1); [done | by exists true | by exists false].
Qed.

Lemma localize_fold fold u :
  _localize_strict zone naive (Some (fold_key fold)) = Ok u <-> to_local zone u = Some (naive, fold).
Proof using L Hn.
  destruct (candidates_inland zone naive Hn) as (l & -> & [[-> Hno] | [(f & v & -> & Hv & Hu) | (u0 & u1 & -> & Hne & H0 & H1)]]).
  - split; [done|]. intros Hs. destruct (Hno u). by exists fold.
  - unfold select_candidate. cbn [map snd]. change (remove_dups [v]) with [v].
    assert (E : String.eqb (fold_key fold) (fold_key f) = bool_decide (fold = f)) by (by destruct fold, f).
    rewrite E. case_bool_decide as Hf; [subst f|].
    + split; [by intros [= <-]|]. intros Hs. f_equal. symmetry. apply Hu. by exists fold.
    + split; [done|]. intros Hs. assert (u = v) as -> by (apply Hu; by exists fold). rewrite Hv in Hs. by injection Hs as ->.
  - assert (E : forall f, select_candidate [("0", u0); ("1", u1)]%string (Some (fold_key f)) = Ok (if f then u1 else u0)).
    { intros f. unfold select_candidate. cbn [map snd]. rewrite remove_dups_two by done. by destruct f. }
    rewrite E. clear E. assert (Hl : to_local zone (if fold then u1 else u0) = Some (naive, fold)) by (by destruct fold).
    split; [by intros [= <-]|]. intros Hs. apply local_and_back in Hs. apply local_and_back in Hl.
    rewrite Hs in Hl. by injection Hl as ->.
Qed.

Lemma localize_error fold e : _localize_strict zone naive fold = Err e -> e = InvalidContractValue.
Proof using L Hn.
  destruct (candidates_inland zone naive Hn) as (l & -> & _). unfold select_candidate.
  destruct (remove_dups _) as [|? [|? ?]], fold as [s|]; try (by intros [= <-]).
  - destruct l as [|[k t] l]; [by intros [= <-]|]. destruct (String.eqb _ _); by intros [= <-].
  - destruct (assoc s l); by intros [= <-].
Qed.
End Answers.

(** C33: a local time becomes the instant at which the zone's clock shows it: without a fold
    exactly when there is one such instant, with a fold exactly the instant that shows the
    time with that fold.  Skipped and ambiguous times, and folds that do not occur, are
    refused as invalid contract values and in no other way. *)
Theorem localize_strict_correct (zone : ZoneInfo) (L : ZoneLaws zone) naive : inland naive ->
  (forall u, _localize_strict zone naive None = Ok u <-> shows zone naive u /\ forall u', shows zone naive u' -> u' = u) /\
  (forall fold u, _localize_strict zone naive (Some (fold_key fold)) = Ok u <-> to_local zone u = Some (naive, fold)) /\
  (forall fold e, _localize_strict zone naive fold = Err e -> e = InvalidContractValue).
Proof.
  intros Hn. split; [intros u; by apply localize_unique|].
  split; [intros fold u; by apply localize_fold | intros fold e; by apply localize_error].
Qed.

(** ** A zone by its transitions *)

(** The instants at which the offset changes, each with the new offset. *)
Notation transitions := (list (Z * Z)).

(** The offset at [u], and whether [u] repeats a local time: less has passed since the last
    transition than the clock was set back ([ZoneInfo.fromutc]). *)
Fixpoint offset_after (cur : Z) (fold : bool) (ts : transitions) (u : Z) : Z * bool :=
  match ts with
  | (t, next) :: ts => if t <=? u then offset_after next (u - t <? cur - next) ts u else (cur, fold)
  | [] => (cur, fold)
  end.

(** The offset of a local time: a transition has passed when the clock shows at least the
    later (for fold 0) or the earlier (fold 1) of its two local times. *)
Fixpoint local_offset (cur : Z) (ts : transitions) (n : Z) (fold : bool) : Z :=
  match ts with
  | (t, next) :: ts =>
      if t + (if fold then Z.min cur next else Z.max cur next) <=? n then local_offset next ts n fold else cur
  | [] => cur
  end.

Definition zone_of (key : string) (first : Z) (ts : transitions) : ZoneInfo :=
  {| zone_key := key; utcoffset := local_offset first ts; offset_at := offset_after first false ts |}.

Definition whole_short (offset : Z) : bool := (offset mod SECOND =? 0) && (- DAY <? offset) && (offset <? DAY).

(** Every offset is whole and short, and transitions are two days apart. *)
Fixpoint regular (since : Z) (ts : transitions) : bool :=
  match ts with
  | (t, next) :: ts => (since + 2 * DAY <=? t) && whole_short next && regular t ts
  | [] => true
  end.

Definition regular_zone (first : Z) (ts : transitions) : bool :=
  whole_short first && match ts with (t, next) :: ts => whole_short next && regular t ts | [] => true end.

Lemma offset_after_short cur fold ts since u : whole_short cur = true -> regular since ts = true ->
  whole_short (offset_after cur fold ts u).1 = true.
Proof.
  revert cur fold since; induction ts as [|[t next] ts IH]; intros cur fold since Hc Hr; [done|]. cbn in *. split_and_bool.
  destruct (t <=? u); [by apply (IH _ _ t) | done].
Qed.

Lemma local_offset_short cur fold ts since n : whole_short cur = true -> regular since ts = true ->
  whole_short (local_offset cur ts n fold) = true.
Proof.
  revert cur since; induction ts as [|[t next] ts IH]; intros cur since Hc Hr; [done|]. cbn in *. split_and_bool.
  destruct (t + _ <=? n); [by apply (IH _ t) | done].
Qed.

(** [since] is the last transition: the clock went from [prev] to [cur] there. *)
Lemma local_offset_at prev cur fold ts since u : whole_short prev = true -> whole_short cur = true -> regular since ts = true ->
  since <= u -> fold = (u - since <? prev - cur) ->
  let '(offset, f) := offset_after cur fold ts u in local_offset cur ts (u + offset) f = offset /\ since + cur <= u + offset.
Proof.
  revert prev cur fold since; induction ts as [|[t next] ts IH]; intros prev cur fold since Hp Hc Hr Hs ->; cbn.
  - split; [done | lia].
  - cbn in Hr. apply andb_true_iff in Hr as [[Ht Hw]%andb_true_iff Hr]. apply Z.leb_le in Ht.
    destruct (Z.leb_spec t u) as [Hu|Hu].
    + specialize (IH cur next _ t Hc Hw Hr Hu eq_refl).
      destruct (offset_after next _ ts u) as [offset f] eqn:E.
      assert (Ho : whole_short offset = true).
      { pose proof (offset_after_short next (u - t <? cur - next) ts t u Hw Hr) as Hx. by rewrite E in Hx. }
      destruct IH as [IH Hle]. split; [|unfold whole_short, DAY, SECOND in *; lia].
      destruct (Z.leb_spec (t + (if f then Z.min cur next else Z.max cur next)) (u + offset)) as [Hx|Hx]; [done|].
      exfalso. destruct f.
      * lia.
      * destruct ts as [|[t' next'] ts]; cbn in E; [injection E as <- Hf; lia|].
        destruct (Z.leb_spec t' u); [|injection E as <- Hf; lia].
        cbn in Hr. unfold whole_short, DAY, SECOND in *. lia.
    + destruct (Z.ltb_spec (u - since) (prev - cur)); split; try lia;
        match goal with |- context [if ?b then _ else _] => destruct b eqn:E end; try done;
        unfold whole_short, DAY, SECOND in *; lia.
Qed.

Lemma zone_of_laws key first ts : regular_zone first ts = true -> ZoneLaws (zone_of key first ts).
Proof.
  unfold regular_zone. intros [Hf Hr]%andb_true_iff.
  assert (exists since, regular since ts = true) as (since & Hr').
  { destruct ts as [|[t next] ts]; [by exists 0|]. exists (t - 2 * DAY). cbn. apply andb_true_iff in Hr as [-> ->].
    by replace (t - 2 * DAY + 2 * DAY <=? t) with true by lia. }
  assert (Hw : forall o, whole_short o = true -> o mod SECOND = 0 /\ - DAY < o < DAY).
  { intros o. unfold whole_short. rewrite !andb_true_iff, Z.eqb_eq, !Z.ltb_lt. lia. }
  split.
  - intros u n fold. unfold to_local, to_utc. cbn. intros H.
    assert (E : let '(offset, f) := offset_after first false ts u in local_offset first ts (u + offset) f = offset).
    { destruct ts as [|[t next] ts]; [done|]. cbn. destruct (Z.leb_spec t u) as [Hu|Hu].
      - cbn in Hr'. apply andb_true_iff in Hr' as [[_ Hn]%andb_true_iff Hr'].
        pose proof (local_offset_at first next _ ts t u Hf Hn Hr' Hu eq_refl) as Hx.
        pose proof (offset_after_short next (u - t <? first - next) ts t u Hn Hr') as Ho.
        destruct (offset_after next _ ts u) as [offset f] eqn:E. destruct Hx as [Hx Hle].
        destruct (Z.leb_spec (t + (if f then Z.min first next else Z.max first next)) (u + offset)) as [Hy|Hy]; [done|].
        exfalso. destruct f; [lia|]. destruct ts as [|[t' next'] ts]; cbn in E; [injection E as <- Hf'; lia|].
        destruct (Z.leb_spec t' u); [|injection E as <- Hf'; lia]. cbn in Hr', Ho. unfold whole_short, DAY, SECOND in *. lia.
      - destruct (Z.leb_spec (t + Z.max first next) (u + first)); [lia | done]. }
    destruct (decide (in_range u)); [|done].
    destruct (offset_after first false ts u) as [offset f]. apply bind_Some in H as (l & [-> _]%add_delta_ok & [= <- <-]).
    rewrite E.
    apply add_delta_ok. split; [lia | done].
  - intros u. apply Hw. by apply (offset_after_short first false ts since).
  - intros u. apply Hw. by apply (offset_after_short first false ts since).
  - intros n fold. apply Hw. by apply (local_offset_short first fold ts since).
Qed.

(** ** New York in 2024: from standard to summer time and back *)

Definition HOUR : Z := 3600 * SECOND.
Definition new_york : ZoneInfo :=
  zone_of "America/New_York" (-5 * HOUR)
    [(ymd2ord 2024 3 10 * DAY + 7 * HOUR, -4 * HOUR); (ymd2ord 2024 11 3 * DAY + 6 * HOUR, -5 * HOUR)].

#[export] Instance new_york_laws : ZoneLaws new_york.
Proof. apply zone_of_laws. vm_compute. reflexivity. Qed.

(** Half past two is skipped in March; half past one comes twice in November. *)
Example skipped_time : _localize_strict new_york (ymd2ord 2024 3 10 * DAY + 5 * HOUR / 2) None = Err InvalidContractValue.
Proof. vm_compute. reflexivity. Qed.
Example repeated_time :
  let naive := ymd2ord 2024 11 3 * DAY + 3 * HOUR / 2 in
  _localize_strict new_york naive None = Err InvalidContractValue /\
  _localize_strict new_york naive (Some "0"%string) = Ok (naive + 4 * HOUR) /\
  _localize_strict new_york naive (Some "1"%string) = Ok (naive + 5 * HOUR).
Proof. vm_compute. auto. Qed.

Lemma localize_strict_correct_witness :
  let naive := ymd2ord 2024 11 3 * DAY + 3 * HOUR / 2 in
  _localize_strict new_york naive (Some "1"%string) = Ok (naive + 5 * HOUR) /\
  forall u, _localize_strict new_york naive None <> Ok u.
Proof.
  assert (Hn : inland (ymd2ord 2024 11 3 * DAY + 3 * HOUR / 2)) by (vm_compute; split; congruence).
  destruct (localize_strict_correct new_york new_york_laws _ Hn) as (H1 & H2 & _). split.
  - apply (H2 true). vm_compute. reflexivity.
  - intros u [_ Hu]%H1.
    assert (E : ymd2ord 2024 11 3 * DAY + 3 * HOUR / 2 + 4 * HOUR = ymd2ord 2024 11 3 * DAY + 3 * HOUR / 2 + 5 * HOUR).
    { rewrite (Hu (_ + 4 * HOUR)), (Hu (_ + 5 * HOUR)); [reflexivity | exists true | exists false]; vm_compute; reflexivity. }
    vm_compute in E. discriminate E.
Defined.
