(* ===== verification/Temporal.v ===== *)
(** * Temporal resolution (memory_runtime/temporal.py)

    The contract [TemporalResolution] with its content-derived identifier, the expressions
    and their aliases, and [TemporalResolver.resolve]: relative and absolute expressions
    against an instant and a time zone.  Lower case and the digits of other scripts are
    the Unicode database's ([UnicodeCase], [UnicodeDecimal]); the zone database is behind
    [TimezoneProvider]. *)
From S2P Require Import Prelude Digest Json Canonical Text Contracts Timestamps RuntimeContracts TimeZones.
Open Scope string_scope.

Definition TEMPORAL_RESOLUTION_VERSION : string := "phase4-temporal-resolution-v1".
Definition _TEMPORAL_DOMAIN : string := "wiki.runtime.temporal-resolution.v1" +:+ NUL.

(** ** Modes, precisions and sources *)

Inductive TemporalMode : Type := MODE_NONE | MODE_AS_OF | MODE_INTERVAL | MODE_INSTANT.

#[export] Instance temporal_mode_eq_dec : EqDecision TemporalMode.
Proof. solve_decision. Defined.

Definition mode_value (m : TemporalMode) : string :=
  match m with MODE_NONE => "none" | MODE_AS_OF => "as_of" | MODE_INTERVAL => "interval" | MODE_INSTANT => "instant" end.
Definition mode_of : string -> option TemporalMode := enum_of mode_value [MODE_NONE; MODE_AS_OF; MODE_INTERVAL; MODE_INSTANT].

Inductive TemporalPrecision : Type := P_UNSPECIFIED | P_SECOND | P_DAY | P_WEEK | P_MONTH | P_YEAR | P_ROLLING.

#[export] Instance temporal_precision_eq_dec : EqDecision TemporalPrecision.
Proof. solve_decision. Defined.

Definition precision_value (p : TemporalPrecision) : string :=
  match p with
  | P_UNSPECIFIED => "unspecified" | P_SECOND => "second" | P_DAY => "day" | P_WEEK => "week"
  | P_MONTH => "month" | P_YEAR => "year" | P_ROLLING => "rolling"
  end.
Definition precision_of : string -> option TemporalPrecision :=
  enum_of precision_value [P_UNSPECIFIED; P_SECOND; P_DAY; P_WEEK; P_MONTH; P_YEAR; P_ROLLING].

Inductive TemporalSource : Type := SOURCE_NONE | EXPLICIT_FIELD | QUERY_TEXT.

#[export] Instance temporal_source_eq_dec : EqDecision TemporalSource.
Proof. solve_decision. Defined.

Definition source_value (s : TemporalSource) : string :=
  match s with SOURCE_NONE => "none" | EXPLICIT_FIELD => "explicit_field" | QUERY_TEXT => "query_text" end.
Definition source_of : string -> option TemporalSource := enum_of source_value [SOURCE_NONE; EXPLICIT_FIELD; QUERY_TEXT].

(** The decimal value of one character: [\d] and [int] in Python know the digits of every
    script. *)
Class UnicodeDecimal : Type := {
  decimal : string -> option Z;
  decimal_range c d : decimal c = Some d -> (0 <= d <= 9)%Z;
  decimal_ascii c : decimal (String c "") = if is_digit c then Some (digit_value c) else None;
}.

(** The zones by name ([ZoneInfo] and its errors are the standard library's). *)
Class TimezoneProvider : Type := {
  tz_version : string;
  tz_get : string -> result temporal_error ZoneInfo;
}.

Section Values.
Context {U : Unicode} {D : Digest}.

Definition as_text (v : pyval) : result temporal_error string :=
  match v with PStr s => Ok s | _ => Err InvalidContractValue end.

Definition _nonempty (v : pyval) (maximum : nat) : result temporal_error string :=
  value ← as_text v;
  let normalized := nfc value in
  _ ← ensure (str_nonempty normalized && str_nonempty (py_strip normalized) && (length (chars normalized) <=? maximum)%nat)
        InvalidContractValue;
  Ok normalized.

Definition _safe_code (v : pyval) : result temporal_error string :=
  text ← _nonempty v 128; _ ← ensure (is_safe_code text) InvalidContractValue; Ok text.

Definition _hex64 (v : pyval) : result temporal_error string :=
  text ← _nonempty v 64; _ ← ensure (is_hex64 text) InvalidContractValue; Ok text.

Definition _strict_mapping (data : mapping) (fields : list string) : result temporal_error mapping :=
  _ ← ensure (keys_within data fields) (TeContract RtUnknownField);
  _ ← ensure (has_keys data fields) InvalidContractValue;
  Ok data.

Definition _reason_codes (v : pyval) : result temporal_error (list string) :=
  match v with
  | PList l | PTuple l =>
      codes ← map_result _safe_code l;
      _ ← ensure (bool_decide (sorted_unique codes = codes)) InvalidContractValue;
      Ok codes
  | _ => Err InvalidContractValue
  end.

Definition _identity_hash (payload : mapping) : result temporal_error string :=
  map_err TeContract (_hash _TEMPORAL_DOMAIN payload).

(** [SystemTimezoneProvider.get], over the installed database. *)
Definition system_get (load : string -> option ZoneInfo) (name : string) : result temporal_error ZoneInfo :=
  let normalized := nfc name in
  _ ← ensure (str_nonempty normalized && (length (chars normalized) <=? 128)%nat &&
              negb (if Json.strip "/" normalized then true else false) && negb (if Json.strip "." normalized then true else false) &&
              negb (str_contains ".." normalized)) InvalidContractValue;
  zone ← of_option InvalidContractValue (load normalized);
  _ ← ensure (String.eqb (zone_key zone) normalized) InvalidContractValue;
  Ok zone.

Definition SystemTimezoneProvider (version : string) (load : string -> option ZoneInfo) : TimezoneProvider :=
  {| tz_version := version; tz_get := system_get load |}.

(** ** TemporalResolution *)

Record TemporalResolution : Type := {
  tr_resolution_id : string;
  tr_operation_id : string;
  tr_timezone : string;
  tr_tzdb_version : string;
  tr_as_of_at : string;
  tr_mode : string;
  tr_source : string;
  tr_expression_kind : string;
  tr_precision : string;
  tr_start_at : option string;
  tr_end_at : option string;
  tr_duration_seconds : option string;
  tr_fold : option string;
  tr_requires_clarification : bool;
  tr_reason_codes : list string;
}.

Definition RESOLUTION_FIELDS : list string :=
  ["temporal_resolution_version"; "resolution_id"; "operation_id"; "timezone"; "tzdb_version"; "as_of_at"; "mode"; "source";
   "expression_kind"; "precision"; "start_at"; "end_at"; "duration_seconds"; "fold"; "requires_clarification";
   "reason_codes"].

Definition resolution_to_mapping (r : TemporalResolution) : mapping :=
  [("temporal_resolution_version", PStr TEMPORAL_RESOLUTION_VERSION); ("resolution_id", PStr (tr_resolution_id r));
   ("operation_id", PStr (tr_operation_id r)); ("timezone", PStr (tr_timezone r));
   ("tzdb_version", PStr (tr_tzdb_version r)); ("as_of_at", PStr (tr_as_of_at r)); ("mode", PStr (tr_mode r));
   ("source", PStr (tr_source r)); ("expression_kind", PStr (tr_expression_kind r)); ("precision", PStr (tr_precision r));
   ("start_at", py_opt (tr_start_at r)); ("end_at", py_opt (tr_end_at r));
   ("duration_seconds", py_opt (tr_duration_seconds r)); ("fold", py_opt (tr_fold r));
   ("requires_clarification", PBool (tr_requires_clarification r)); ("reason_codes", py_strs (tr_reason_codes r))].

(** [{key: values[key] for key in FIELDS - {"resolution_id"}}] *)
Definition resolution_identity (values : mapping) : mapping :=
  List.filter (fun kv => negb (String.eqb kv.1 "resolution_id")) values.

Definition expected_precision (kind : string) : option TemporalPrecision :=
  assoc kind
    [("today", P_DAY); ("yesterday", P_DAY); ("tomorrow", P_DAY); ("date", P_DAY); ("date_range", P_DAY);
     ("this_week", P_WEEK); ("last_week", P_WEEK); ("next_week", P_WEEK);
     ("this_month", P_MONTH); ("last_month", P_MONTH); ("next_month", P_MONTH); ("month", P_MONTH);
     ("this_year", P_YEAR); ("last_year", P_YEAR); ("next_year", P_YEAR); ("year", P_YEAR);
     ("rolling_7d", P_ROLLING); ("rolling_24h", P_ROLLING); ("rolling", P_ROLLING)].

Definition str_of_Z (z : Z) : string := if (z <? 0)%Z then "-" +:+ str_of_N (Z.to_N (- z)) else str_of_N (Z.to_N z).

(** [str(int((end - start).total_seconds()))] *)
Definition duration_text (start end_ : Z) : string := str_of_Z (Z.quot (end_ - start) SECOND).

(** [parse_utc_timestamp(value) if value is not None else None] *)
Definition optional_instant (v : pyval) : result temporal_error (option (string * Z)) :=
  match v with PNone => Ok None | _ => t ← map_err TeContract (timestamp v); Ok (Some t) end.

(** [value not in {None, "0", "1"}] *)
Definition check_fold (v : pyval) : result temporal_error (option string) :=
  _ ← ensure (hashable v) TeTypeError;
  match v with
  | PNone => Ok None
  | PStr s => _ ← ensure (String.eqb s "0" || String.eqb s "1") InvalidContractValue; Ok (Some s)
  | _ => Err InvalidContractValue
  end.

(** The interval and its duration. *)
Definition check_interval (mode : TemporalMode) (precision : TemporalPrecision) (start end_ : option (string * Z))
    (duration : pyval) (fold : option string) : result temporal_error (option string) :=
  if bool_decide (mode = MODE_INTERVAL \/ mode = MODE_INSTANT) then
    match start, end_ with
    | Some s, Some e =>
        _ ← ensure (s.2 <? e.2)%Z InvalidContractValue;
        d ← map_err TeContract (canonical_integer duration);
        _ ← ensure (String.eqb d (duration_text s.2 e.2)) InvalidContractValue;
        _ ← ensure (negb (bool_decide (mode = MODE_INSTANT)) ||
                    (bool_decide (precision = P_SECOND) && String.eqb (duration_text s.2 e.2) "1")) InvalidContractValue;
        Ok (Some d)
    | _, _ => Err InvalidContractValue
    end
  else
    _ ← ensure (bool_decide (start = None) && bool_decide (end_ = None) &&
                match duration with PNone => true | _ => false end && bool_decide (fold = None)) InvalidContractValue;
    Ok None.

(** What each mode says of the source, the kind, the precision, the fold and the reasons. *)
Definition consistent (mode : TemporalMode) (source : TemporalSource) (kind : string) (precision : TemporalPrecision)
    (fold : option string) (clarify : bool) (reasons : list string) : bool :=
  let asserted := negb (bool_decide (source = SOURCE_NONE)) && negb clarify && bool_decide (reasons = []) in
  match mode with
  | MODE_NONE =>
      bool_decide (precision = P_UNSPECIFIED) &&
      (if String.eqb kind "none" then bool_decide (source = SOURCE_NONE) && negb clarify && bool_decide (reasons = [])
       else String.eqb kind "ambiguous" && bool_decide (source = QUERY_TEXT) && clarify &&
            bool_decide (reasons = ["temporal_ambiguous"]))
  | MODE_AS_OF => bool_decide (precision = P_SECOND) && String.eqb kind "now" && asserted
  | MODE_INSTANT =>
      asserted && str_mem kind ["local_instant"; "utc_instant"] &&
      (negb (String.eqb kind "utc_instant") || bool_decide (fold = None))
  | MODE_INTERVAL => asserted && bool_decide (fold = None) && bool_decide (expected_precision kind = Some precision)
  end.

(** A check of a value that is then kept as it was given. *)
Definition kept_text (check : pyval -> result temporal_error string) (v : pyval) : result temporal_error string :=
  _ ← check v; as_text v.

(** [__post_init__], on the values of the fields. *)
Definition resolution_post_init (values : mapping) : result temporal_error TemporalResolution :=
  _ ← ensure (py_str_eqb (field values "temporal_resolution_version") TEMPORAL_RESOLUTION_VERSION)
        (TeContract RtUnsupportedVersion);
  op ← kept_text _hex64 (field values "operation_id");
  zone ← kept_text (fun v => _nonempty v 128) (field values "timezone");
  version ← kept_text (fun v => _nonempty v 128) (field values "tzdb_version");
  as_of ← map_err TeContract (timestamp (field values "as_of_at"));
  m ← as_text (field values "mode"); mode ← of_option InvalidContractValue (mode_of m);
  p ← as_text (field values "precision"); precision ← of_option InvalidContractValue (precision_of p);
  s ← as_text (field values "source"); source ← of_option InvalidContractValue (source_of s);
  kind ← kept_text _safe_code (field values "expression_kind");
  clarify ← match field values "requires_clarification" with PBool b => Ok b | _ => Err InvalidContractValue end;
  reasons ← _reason_codes (field values "reason_codes");
  fold ← check_fold (field values "fold");
  start ← optional_instant (field values "start_at");
  end_ ← optional_instant (field values "end_at");
  duration ← check_interval mode precision start end_ (field values "duration_seconds") fold;
  _ ← ensure (negb clarify || bool_decide (mode = MODE_NONE)) InvalidContractValue;
  _ ← ensure (consistent mode source kind precision fold clarify reasons) InvalidContractValue;
  id ← as_text (field values "resolution_id");
  let r := {| tr_resolution_id := id; tr_operation_id := op; tr_timezone := zone; tr_tzdb_version := version;
              tr_as_of_at := as_of.1; tr_mode := m; tr_source := s; tr_expression_kind := kind; tr_precision := p;
              tr_start_at := fst <$> start; tr_end_at := fst <$> end_; tr_duration_seconds := duration; tr_fold := fold;
              tr_requires_clarification := clarify; tr_reason_codes := reasons |} in
  expected ← _identity_hash (resolution_identity (resolution_to_mapping r));
  _ ← ensure (String.eqb id expected) InvalidContractValue;
  Ok r.

Definition resolution_from_mapping (data : mapping) : result temporal_error TemporalResolution :=
  values ← _strict_mapping data RESOLUTION_FIELDS;
  reasons ← _reason_codes (field values "reason_codes");
  resolution_post_init (assoc_set "reason_codes" (PTuple (map PStr reasons)) values).
End Values.

(** ** Expressions *)

Definition _ALIAS_GROUPS : list (string * list string) :=
  [("now", ["now"; "current"; "currently"; "지금"; "현재"]);
   ("today", ["today"; "오늘"]);
   ("yesterday", ["yesterday"; "어제"]);
   ("tomorrow", ["tomorrow"; "내일"]);
   ("this_week", ["this week"; "this_week"; "이번 주"; "이번주"]);
   ("last_week", ["last week"; "last_week"; "지난 주"; "지난주"]);
   ("next_week", ["next week"; "next_week"; "다음 주"; "다음주"]);
   ("this_month", ["this month"; "this_month"; "이번 달"; "이번달"]);
   ("last_month", ["last month"; "last_month"; "지난 달"; "지난달"]);
   ("next_month", ["next month"; "next_month"; "다음 달"; "다음달"]);
   ("this_year", ["this year"; "this_year"; "올해"]);
   ("last_year", ["last year"; "last_year"; "작년"]);
   ("next_year", ["next year"; "next_year"; "내년"]);
   ("rolling_7d", ["last 7 days"; "지난 7일"]);
   ("rolling_24h", ["last 24 hours"; "지난 24시간"])].

(** [re.sub(r"\s+", " ", t)] *)
Fixpoint collapse_spaces (blank : bool) (t : text) : text :=
  match t with
  | [] => []
  | c :: t => if is_space c then (if blank then collapse_spaces true t else " " :: collapse_spaces true t)
              else c :: collapse_spaces false t
  end.

(** A character of [[a-z0-9_]]. *)
Definition is_token_char (c : string) : bool :=
  match c with String a "" => is_lower a || is_digit a || Ascii.eqb a "_" | _ => false end.

(** [re.search] of a literal that is neither preceded nor followed by a token character. *)
Fixpoint find_word (before : bool) (k t : text) : bool :=
  (negb before && match after_prefix k t with
                  | Some (c :: _) => negb (is_token_char c)
                  | Some [] => true
                  | None => false
                  end) ||
  match t with c :: t' => find_word (is_token_char c) k t' | [] => false end.

Section Expressions.
Context {U : Unicode} {L : UnicodeCase}.

Definition _normalized_expression (value : string) : string :=
  str_concat (collapse_spaces false (chars (py_lower (py_strip (nfc value))))).

Definition _ALIAS_TO_KIND : list (string * string) :=
  foldl (fun table kind_alias => assoc_set (_normalized_expression kind_alias.2) kind_alias.1 table) []
    (concat (map (fun g => map (pair g.1) g.2) _ALIAS_GROUPS)).

(** [alias] occurs in the normalized text: an ASCII alias as a word, another anywhere. *)
Definition alias_occurs (normalized alias : string) : bool :=
  if str_nonempty alias && forallb (fun c => is_token_char c || String.eqb c " ") (chars alias)
  then find_word false (chars alias) (chars normalized)
  else if find_sub (chars alias) (chars normalized) then true else false.

(** The set of the kinds, as a list without repetitions. *)
Definition _query_matches (query_text : option string) : list string :=
  match query_text with
  | Some q =>
      if str_nonempty q then
        let normalized := _normalized_expression q in
        remove_dups (map snd (List.filter (fun entry => alias_occurs normalized entry.1) _ALIAS_TO_KIND))
      else []
  | None => []
  end.

(** [re.fullmatch("^rolling:(0|[1-9][0-9]*)([dh])$", s)] *)
Definition rolling_parts (expression : string) : option (string * string) :=
  rest ← Json.strip "rolling:" expression;
  match rev (chars rest) with
  | unit :: amount =>
      let amount := str_concat (rev amount) in
      if is_canonical_int amount && (String.eqb unit "d" || String.eqb unit "h") then Some (amount, unit) else None
  | [] => None
  end.

Definition starts (expression prefix : string) : bool := if Json.strip prefix expression then true else false.

Definition _kind_for_expression (expression : string) : result temporal_error string :=
  match assoc expression _ALIAS_TO_KIND with
  | Some kind => Ok kind
  | None =>
      if str_mem expression (map fst _ALIAS_GROUPS) then Ok expression
      else if starts expression "date:" then Ok "date"
      else if starts expression "month:" then Ok "month"
      else if starts expression "year:" then Ok "year"
      else if starts expression "range:" then Ok "date_range"
      else if starts expression "local:" then Ok "local_instant"
      else if starts expression "utc:" then Ok "utc_instant"
      else match rolling_parts expression with
           | Some (amount, unit) =>
               if String.eqb amount "7" && String.eqb unit "d" then Ok "rolling_7d"
               else if String.eqb amount "24" && String.eqb unit "h" then Ok "rolling_24h"
               else Ok "rolling"
           | None => Err InvalidContractValue
           end
  end.
End Expressions.

(** ** Dates in expressions *)

(** [date.fromisoformat] of the canonical text, as the number of the day; a date with
    digits of other scripts is not the one [isoformat] writes. *)
Definition _parse_date (value : string) : result temporal_error Z :=
  match String.list_ascii_of_string value with
  | [y1; y2; y3; y4; c1; m1; m2; c2; d1; d2] =>
      let y := number [y1; y2; y3; y4] in let m := number [m1; m2] in let d := number [d1; d2] in
      _ ← ensure (forallb is_digit [y1; y2; y3; y4; m1; m2; d1; d2] && bool_decide ([c1; c2] = ["-"; "-"]%char) &&
                  valid_date y m d) InvalidContractValue;
      Ok (ymd2ord y m d)
  | _ => Err InvalidContractValue
  end.

(** [date(year, month, day)]: out of range is ValueError. *)
Definition new_date (year month day : Z) : result temporal_error Z :=
  if valid_date year month day then Ok (ymd2ord year month day) else Err TeValueError.

(** [date + timedelta(days=n)] *)
Definition add_days (day n : Z) : result temporal_error Z :=
  if (0 <=? day + n)%Z && (day + n <? MAX_DAYS)%Z then Ok (day + n)%Z else Err TeOverflowError.

(** [datetime + timedelta] *)
Definition shift (t delta : Z) : result temporal_error Z := of_option TeOverflowError (add_delta t delta).

Section Dates.
Context {N : UnicodeDecimal}.

(** [int] of a sequence of digits. *)
Definition int_of_digits (l : text) : option Z :=
  foldl (fun a c => a ← a; d ← decimal c; Some (10 * a + d)%Z) (Some 0%Z) l.

Definition _parse_month (value : string) : result temporal_error (Z * Z) :=
  match chars value with
  | [y1; y2; y3; y4; c; m1; m2] =>
      _ ← ensure (String.eqb c "-") InvalidContractValue;
      year ← of_option InvalidContractValue (int_of_digits [y1; y2; y3; y4]);
      month ← of_option InvalidContractValue (int_of_digits [m1; m2]);
      _ ← ensure ((1 <=? month) && (month <=? 12))%Z InvalidContractValue;
      Ok (year, month)
  | _ => Err InvalidContractValue
  end.

Definition _parse_year (value : string) : result temporal_error Z :=
  _ ← ensure (length (chars value) =? 4)%nat InvalidContractValue;
  year ← of_option InvalidContractValue (int_of_digits (chars value));
  _ ← ensure ((1 <=? year) && (year <=? 9999))%Z InvalidContractValue;
  Ok year.

Definition _next_month (year month : Z) : result temporal_error (Z * Z) :=
  if (month =? 12)%Z then
    _ ← ensure (negb (year =? 9999)%Z) InvalidContractValue; Ok ((year + 1)%Z, 1%Z)
  else Ok (year, (month + 1)%Z).

Definition ascii_decimal (c : string) : bool := match c with String a "" => is_digit a | _ => false end.

(** [strptime(value.upper(), "%Y-%m-%dT%H:%M:%S")] of a text that matches [_LOCAL_SECOND]:
    its directives take digits of other scripts only where they say [\d]. *)
Definition parse_local (value : string) : result temporal_error Z :=
  match chars value with
  | [y1; y2; y3; y4; c1; m1; m2; c2; d1; d2; c3; h1; h2; c4; n1; n2; c5; s1; s2] =>
      _ ← ensure (bool_decide ([c1; c2; c4; c5] = ["-"; "-"; ":"; ":"]) && (String.eqb c3 "T" || String.eqb c3 "t"))
            InvalidContractValue;
      year ← of_option InvalidContractValue (int_of_digits [y1; y2; y3; y4]);
      month ← of_option InvalidContractValue (int_of_digits [m1; m2]);
      day ← of_option InvalidContractValue (int_of_digits [d1; d2]);
      hour ← of_option InvalidContractValue (int_of_digits [h1; h2]);
      minute ← of_option InvalidContractValue (int_of_digits [n1; n2]);
      second ← of_option InvalidContractValue (int_of_digits [s1; s2]);
      let f := {| f_year := year; f_month := month; f_day := day; f_hour := hour; f_minute := minute; f_second := second |} in
      _ ← ensure (forallb ascii_decimal [m1; m2; d1; h1; n1; s1] &&
                  (ascii_decimal d2 || str_mem d1 ["1"; "2"]) && (ascii_decimal h2 || str_mem h1 ["0"; "1"]) &&
                  valid_fields f) InvalidContractValue;
      Ok (instant f)
  | _ => Err InvalidContractValue
  end.
End Dates.

(** [str.upper], which gives no character of a timestamp for one beyond ASCII. *)
Definition upper_char (c : ascii) : ascii := if is_lower c then ascii_of_N (N_of_ascii c - 32) else c.
Definition ascii_upper (s : string) : string :=
  String.string_of_list_ascii (map upper_char (String.list_ascii_of_string s)).

(** ** The resolver *)

Section Resolver.
Context {U : Unicode} {D : Digest} {L : UnicodeCase} {N : UnicodeDecimal} {P : TimezoneProvider}.

(** [TemporalResolution.create], with the declared types of the fields. *)
Definition resolution_create (operation_id timezone tzdb as_of_at : string) (mode : TemporalMode) (source : TemporalSource)
    (kind : string) (precision : TemporalPrecision) (start_at end_at duration fold : option string) (clarify : bool)
    (reasons : list string) : result temporal_error TemporalResolution :=
  let reasons := sorted_unique reasons in
  let values :=
    [("temporal_resolution_version", PStr TEMPORAL_RESOLUTION_VERSION); ("operation_id", PStr operation_id);
     ("timezone", PStr timezone); ("tzdb_version", PStr tzdb); ("as_of_at", PStr as_of_at); ("mode", PStr (mode_value mode));
     ("source", PStr (source_value source)); ("expression_kind", PStr kind); ("precision", PStr (precision_value precision));
     ("start_at", py_opt start_at); ("end_at", py_opt end_at); ("duration_seconds", py_opt duration);
     ("fold", py_opt fold); ("requires_clarification", PBool clarify); ("reason_codes", PTuple (map PStr reasons))] in
  id ← _identity_hash (assoc_set "reason_codes" (py_strs reasons) values);
  resolution_post_init (("resolution_id", PStr id) :: values).

Definition _make (operation_id timezone as_of_at : string) (mode : TemporalMode) (source : TemporalSource) (kind : string)
    (precision : TemporalPrecision) (interval : option (Z * Z)) (fold : option string) (clarify : bool)
    (reasons : list string) : result temporal_error TemporalResolution :=
  resolution_create operation_id timezone tz_version as_of_at mode source kind precision
    ((fun i => format_utc_timestamp i.1) <$> interval) ((fun i => format_utc_timestamp i.2) <$> interval)
    ((fun i => duration_text i.1 i.2) <$> interval) fold clarify reasons.

(** [_midnight_utc]: the start of a local day. *)
Definition _midnight_utc (zone : ZoneInfo) (day : Z) : result temporal_error Z := _localize_strict zone (day * DAY) None.

(** [if temporal_fold is not None: raise InvalidContractValue] *)
Definition no_fold (temporal_fold : option string) : result temporal_error unit :=
  ensure (bool_decide (temporal_fold = None)) InvalidContractValue.

Section Expression.
Context (operation_id timezone_name as_of_at : string) (zone : ZoneInfo) (as_of : Z) (source : TemporalSource).

Definition make_interval (kind : string) (precision : TemporalPrecision) (start end_ : Z) : result temporal_error TemporalResolution :=
  _make operation_id timezone_name as_of_at MODE_INTERVAL source kind precision (Some (start, end_)) None false [].

(** The days from [first] on: [days] of them. *)
Definition resolve_days (kind : string) (precision : TemporalPrecision) (first days : Z) : result temporal_error TemporalResolution :=
  start ← _midnight_utc zone first;
  next ← add_days first days;
  end_ ← _midnight_utc zone next;
  make_interval kind precision start end_.

Definition resolve_week (kind : string) (offset local_date : Z) : result temporal_error TemporalResolution :=
  monday ← add_days local_date (- (local_date mod 7));
  first ← add_days monday (7 * offset);
  resolve_days kind P_WEEK first 7.

(** From the first day of a month to the first day of the next. *)
Definition resolve_month (kind : string) (year month : Z) : result temporal_error TemporalResolution :=
  next ← _next_month year month;
  first ← new_date year month 1;
  start ← _midnight_utc zone first;
  last ← new_date next.1 next.2 1;
  end_ ← _midnight_utc zone last;
  make_interval kind P_MONTH start end_.

Definition resolve_near_month (kind : string) (local_date : Z) : result temporal_error TemporalResolution :=
  let '(year, month, _) := ord2ymd local_date in
  if String.eqb kind "last_month" then
    if (month =? 1)%Z then resolve_month kind (year - 1) 12 else resolve_month kind year (month - 1)
  else if String.eqb kind "next_month" then
    next ← _next_month year month; resolve_month kind next.1 next.2
  else resolve_month kind year month.

Definition resolve_year (kind : string) (year : Z) : result temporal_error TemporalResolution :=
  first ← new_date year 1 1;
  start ← _midnight_utc zone first;
  last ← new_date (year + 1) 1 1;
  end_ ← _midnight_utc zone last;
  make_interval kind P_YEAR start end_.

Definition resolve_near_year (kind : string) (offset local_date : Z) : result temporal_error TemporalResolution :=
  let year := ((ord2ymd local_date).1.1 + offset)%Z in
  _ ← ensure ((1 <=? year) && (year <? 9999))%Z InvalidContractValue;
  resolve_year kind year.

(** The time until [as_of]. *)
Definition resolve_rolling (kind : string) (delta : Z) : result temporal_error TemporalResolution :=
  start ← shift as_of (- delta);
  make_interval kind P_ROLLING start as_of.

Definition resolve_range (body : string) : result temporal_error TemporalResolution :=
  _ ← ensure (count_char "/" (chars body) =? 1)%nat InvalidContractValue;
  parts ← of_option InvalidContractValue (split_once "/" (chars body));
  first ← _parse_date (str_concat parts.1);
  last ← _parse_date (str_concat parts.2);
  _ ← ensure (first <=? last)%Z InvalidContractValue;
  start ← _midnight_utc zone first;
  next ← add_days last 1;
  end_ ← _midnight_utc zone next;
  make_interval "date_range" P_DAY start end_.

Definition make_instant (kind : string) (instant : Z) (fold : option string) : result temporal_error TemporalResolution :=
  end_ ← shift instant SECOND;
  _make operation_id timezone_name as_of_at MODE_INSTANT source kind P_SECOND (Some (instant, end_)) fold false [].

Definition resolve_rolling_amount (amount unit : string) : result temporal_error TemporalResolution :=
  n ← of_option InvalidContractValue (int_of_str amount);
  let n := Z.of_N n in
  _ ← ensure (0 <? n)%Z InvalidContractValue;
  _ ← ensure (negb ((String.eqb unit "d" && (3650 <? n)%Z) || (String.eqb unit "h" && (87600 <? n)%Z))) InvalidContractValue;
  resolve_rolling "rolling" (if String.eqb unit "d" then n * DAY else n * HOUR).

(** The expressions with a prefix, from [expression.startswith("date:")] on. *)
Definition resolve_absolute (expression : string) (temporal_fold : option string) : result temporal_error TemporalResolution :=
  if Json.strip "date:" expression is Some body then
    _ ← no_fold temporal_fold;
    selected ← _parse_date body;
    resolve_days "date" P_DAY selected 1
  else if Json.strip "month:" expression is Some body then
    _ ← no_fold temporal_fold;
    '(year, month) ← _parse_month body;
    resolve_month "month" year month
  else if Json.strip "year:" expression is Some body then
    _ ← no_fold temporal_fold;
    year ← _parse_year body;
    _ ← ensure (negb (year =? 9999)%Z) InvalidContractValue;
    resolve_year "year" year
  else if Json.strip "range:" expression is Some body then
    _ ← no_fold temporal_fold;
    resolve_range body
  else if Json.strip "local:" expression is Some body then
    naive ← parse_local body;
    instant ← _localize_strict zone naive temporal_fold;
    make_instant "local_instant" instant temporal_fold
  else if Json.strip "utc:" expression is Some body then
    _ ← no_fold temporal_fold;
    instant ← of_option InvalidContractValue (parse_utc_timestamp (ascii_upper body));
    make_instant "utc_instant" instant None
  else match rolling_parts expression with
       | Some (amount, unit) => _ ← no_fold temporal_fold; resolve_rolling_amount amount unit
       | None => Err InvalidContractValue
       end.

Definition _resolve_expression (expression : string) (temporal_fold : option string) : result temporal_error TemporalResolution :=
  kind ← _kind_for_expression expression;
  let kind := default kind (assoc expression _ALIAS_TO_KIND) in
  let kind := if str_mem expression (map fst _ALIAS_GROUPS) then expression else kind in
  local ← of_option TeOverflowError (to_local zone as_of);
  let local_date := (local.1 / DAY)%Z in
  if String.eqb kind "now" then
    _ ← no_fold temporal_fold;
    _make operation_id timezone_name as_of_at MODE_AS_OF source "now" P_SECOND None None false []
  else if assoc kind [("today", 0); ("yesterday", -1); ("tomorrow", 1)]%Z is Some offset then
    _ ← no_fold temporal_fold;
    first ← add_days local_date offset;
    resolve_days kind P_DAY first 1
  else if assoc kind [("this_week", 0); ("last_week", -1); ("next_week", 1)]%Z is Some offset then
    _ ← no_fold temporal_fold;
    resolve_week kind offset local_date
  else if str_mem kind ["this_month"; "last_month"; "next_month"] then
    _ ← no_fold temporal_fold;
    resolve_near_month kind local_date
  else if assoc kind [("this_year", 0); ("last_year", -1); ("next_year", 1)]%Z is Some offset then
    _ ← no_fold temporal_fold;
    resolve_near_year kind offset local_date
  else if assoc kind [("rolling_7d", 7 * DAY); ("rolling_24h", 24 * HOUR)]%Z is Some delta then
    _ ← no_fold temporal_fold;
    resolve_rolling kind delta
  else resolve_absolute expression temporal_fold.
End Expression.

(** [except OverflowError] *)
Definition catch_overflow {A} (m : result temporal_error A) : result temporal_error A :=
  map_err (fun e => if decide (e = TeOverflowError) then InvalidContractValue else e) m.

Definition resolve (operation_id timezone_name as_of_at : string) (explicit_expression query_text temporal_fold : option string)
    : result temporal_error TemporalResolution :=
  _ ← _hex64 (PStr operation_id);
  zone ← tz_get timezone_name;
  as_of ← of_option InvalidContractValue (parse_utc_timestamp as_of_at);
  _ ← ensure (match temporal_fold with Some f => String.eqb f "0" || String.eqb f "1" | None => true end) InvalidContractValue;
  let query_kinds := _query_matches query_text in
  let resolved source expression :=
    catch_overflow (_resolve_expression operation_id (zone_key zone) as_of_at zone as_of source expression temporal_fold) in
  let unresolved source kind clarify reasons :=
    _ ← no_fold temporal_fold;
    _make operation_id timezone_name as_of_at MODE_NONE source kind P_UNSPECIFIED None None clarify reasons in
  match explicit_expression with
  | Some e =>
      text ← _nonempty (PStr e) 256;
      let expression := _normalized_expression text in
      kind ← _kind_for_expression expression;
      _ ← ensure (bool_decide (query_kinds = []) || bool_decide (query_kinds = [kind])) InvalidContractValue;
      resolved EXPLICIT_FIELD expression
  | None =>
      match query_kinds with
      | [] => unresolved SOURCE_NONE "none" false []
      | [expression] => resolved QUERY_TEXT expression
      | _ => unresolved QUERY_TEXT "ambiguous" true ["temporal_ambiguous"]
      end
  end.
End Resolver.

(** ** The model on an example *)

(** The digits of ASCII alone. *)
Definition decimal_sample : UnicodeDecimal.
Proof.
  refine {| decimal := fun c => match c with String a "" => if is_digit a then Some (digit_value a) else None | _ => None end |}.
  - intros [|a [|? ?]] d; try done. destruct (is_digit a) eqn:E; [|done]. intros [= <-].
    unfold is_digit in E. rewrite andb_true_iff, !N.leb_le in E. unfold digit_value. lia.
  - done.
Defined.

Definition new_york_only : TimezoneProvider :=
  SystemTimezoneProvider (U := unicode_sample) "system:2024a"
    (fun name => if String.eqb name "America/New_York" then Some new_york else None).

Definition sample_resolve (explicit query fold : option string) : result temporal_error TemporalResolution :=
  resolve (U := unicode_sample) (D := pad_digest) (L := case_sample) (N := decimal_sample) (P := new_york_only)
    (String.string_of_list_ascii (repeat "a"%char 64)) "America/New_York" "2024-03-11T02:30:00Z" explicit query fold.

(** The evening of March 10th in New York; that day has 23 hours. *)
Example today_is_short :
  (r ← sample_resolve None (Some "what did I read  Today?") None;
   Ok (tr_start_at r, tr_end_at r, tr_duration_seconds r, tr_source r)) =
  Ok (Some "2024-03-10T05:00:00Z", Some "2024-03-11T04:00:00Z", Some "82800", "query_text").
Proof. vm_compute. reflexivity. Qed.

Example this_week_in_korean :
  (r ← sample_resolve None (Some "이번 주 메모") None; Ok (tr_start_at r, tr_end_at r)) =
  Ok (Some "2024-03-04T05:00:00Z", Some "2024-03-11T04:00:00Z").
Proof. vm_compute. reflexivity. Qed.

Example two_periods_ask :
  (r ← sample_resolve None (Some "today or yesterday") None; Ok (tr_expression_kind r, tr_requires_clarification r)) =
  Ok ("ambiguous", true).
Proof. vm_compute. reflexivity. Qed.

(** A month of the year 0 is not refused as an invalid contract value. *)
Example month_of_year_zero : sample_resolve (Some "month:0000-05") None None = Err TeValueError.
Proof. vm_compute. reflexivity. Qed.
