(* ===== verification/TemporalTheorems.v ===== *)
(** * What the temporal resolver answers

    Every answer is a valid resolution that reads back from its mapping; and an expression
    that names a day, a week, a month or a year is answered with the local midnights that
    bound exactly the days of that period. *)
From S2P Require Import Prelude Digest Json Canonical Text Contracts Timestamps RuntimeContracts Calendar TimeZones Temporal.
Open Scope string_scope.

(** ** What is stored reads back *)

Section Stored.
Context {U : Unicode} {D : Digest}.

Lemma te_nonempty_again v n s : _nonempty v n = Ok s -> _nonempty (PStr s) n = Ok s.
Proof. unfold _nonempty. intros H. inv_result H. subst s. cbn. by rewrite nfc_idem, E0. Qed.

Lemma te_safe_code_again v s : _safe_code v = Ok s -> _safe_code (PStr s) = Ok s.
Proof.
  unfold _safe_code. intros H. inv_result H. subst. apply te_nonempty_again in E. rewrite E. cbn. by rewrite E0.
Qed.

Lemma reason_codes_again v l : _reason_codes v = Ok l -> _reason_codes (PTuple (map PStr l)) = Ok l /\ _reason_codes (py_strs l) = Ok l.
Proof.
  intros H. assert (Hl : map_result _safe_code (map PStr l) = Ok l /\ sorted_unique l = l).
  { assert (exists vs, (codes ← map_result _safe_code vs; _ ← ensure (bool_decide (sorted_unique codes = codes)) InvalidContractValue;
      Ok codes) = Ok l) as [vs Hv] by (destruct v as [| | | | |vs|vs| | |]; try (discriminate H); exists vs; exact H).
    inv_checks Hv. subst. split_and_bool. split; [|done]. apply map_result_ok in E. apply map_result_ok. clear -E.
    induction E; cbn; constructor; eauto using te_safe_code_again. }
  destruct Hl as [Hl Hs]. unfold py_strs, _reason_codes. rewrite Hl. cbn [mbind result_bind]. by rewrite bool_decide_true.
Qed.

Lemma kept_again check v s : kept_text check v = Ok s -> v = PStr s /\ kept_text check (PStr s) = Ok s.
Proof. unfold kept_text. intros H. inv_result H. destruct v; try discriminate H. injection H as ->. by rewrite E. Qed.

Lemma as_text_ok v s : as_text v = Ok s -> v = PStr s.
Proof. destruct v; try done. by intros [= ->]. Qed.

Lemma timestamp_again v p : timestamp v = Ok p -> timestamp (PStr p.1) = Ok p.
Proof. intros [_ H]%timestamp_ok. cbn. rewrite H. by destruct p. Qed.

Lemma optional_instant_again v o : optional_instant v = Ok o -> optional_instant (py_opt (fst <$> o)) = Ok o.
Proof.
  intros H. destruct o as [p|]; [|done]. cbn [fmap option_fmap option_map py_opt optional_instant].
  assert (Hp : timestamp v = Ok p).
  { destruct v; try discriminate H; unfold optional_instant in H; inv_result H; subst; by apply map_err_ok in E. }
  by rewrite (timestamp_again _ _ Hp).
Qed.

Lemma check_fold_again v f : check_fold v = Ok f -> check_fold (py_opt f) = Ok f.
Proof.
  unfold check_fold at 1. intros H. apply bind_ok in H as (u & _ & H). destruct v; try discriminate H.
  - by injection H as <-.
  - inv_result H. subst. unfold check_fold. cbn. by rewrite E.
Qed.

Lemma check_interval_again m p s e v f d : check_interval m p s e v f = Ok d -> check_interval m p s e (py_opt d) f = Ok d.
Proof.
  unfold check_interval. destruct (bool_decide (m = _ \/ _)).
  - destruct s as [s|], e as [e|]; try done. intros (u & Hu & H)%bind_ok. apply bind_ok in H as (n & Hn%map_err_ok & H).
    rewrite Hu. clear Hu. cbn [mbind result_bind].
    apply bind_ok in H as (? & H1 & (? & H2 & [= <-])%bind_ok).
    assert (Hc : canonical_integer (PStr n) = Ok n).
    { destruct v; try discriminate Hn. cbn in Hn |- *. destruct (is_canonical_int s0) eqn:Hi; [|done].
      injection Hn as <-. by rewrite Hi. }
    cbn [py_opt]. rewrite Hc. cbn [map_err mbind result_bind]. rewrite H1. cbn [mbind result_bind]. by rewrite H2.
  - intros H. inv_checks H. subst d. split_and_bool. cbn. by rewrite !bool_decide_true by done.
Qed.

(** The mapping of a resolution, with its reasons as a tuple. *)
Definition stored_values (r : TemporalResolution) : mapping :=
  assoc_set "reason_codes" (PTuple (map PStr (tr_reason_codes r))) (resolution_to_mapping r).

Lemma post_init_again values r : resolution_post_init values = Ok r ->
  resolution_post_init (stored_values r) = Ok r /\ _reason_codes (py_strs (tr_reason_codes r)) = Ok (tr_reason_codes r).
Proof.
  unfold resolution_post_init at 1. intros H. inv_result H.
  repeat match goal with
  | E : kept_text _ (field values _) = Ok _ |- _ => apply kept_again in E as [_ E]
  | E : map_err TeContract (timestamp (field values _)) = Ok _ |- _ => apply map_err_ok, timestamp_again in E
  | E : as_text (field values _) = Ok _ |- _ => apply as_text_ok in E
  | E : _reason_codes (field values _) = Ok _ |- _ => apply reason_codes_again in E as [E ?]
  | E : check_fold (field values _) = Ok _ |- _ => apply check_fold_again in E
  | E : optional_instant (field values _) = Ok _ |- _ => apply optional_instant_again in E
  | E : check_interval _ _ _ _ (field values _) _ = Ok _ |- _ => apply check_interval_again in E
  end.
  subst r. split; [|done]. unfold resolution_post_init, stored_values, resolution_to_mapping.
  cbn -[kept_text as_text _reason_codes check_fold optional_instant check_interval timestamp mode_of precision_of source_of
        consistent _identity_hash resolution_identity resolution_to_mapping ensure py_opt mbind map_err of_option].
  cbn [ensure mbind result_bind]. rewrite E3. cbn [map_err]. replay.
  cbn [as_text mbind result_bind]. rewrite E5. cbn [mbind result_bind]. rewrite E7. cbn [mbind result_bind].
  rewrite E9. cbn [mbind result_bind]. replay. cbn [as_text mbind result_bind]. 
  match goal with |- mbind _ ?m = _ => rewrite (E20 : m = Ok a20) end. cbn [mbind result_bind]. by rewrite E21.
Qed.

Lemma resolution_again values r : resolution_post_init values = Ok r ->
  resolution_from_mapping (resolution_to_mapping r) = Ok r.
Proof.
  intros [H1 H2]%post_init_again. unfold resolution_from_mapping, _strict_mapping.
  change (keys_within _ _) with true. change (has_keys _ _) with true. cbn [ensure mbind result_bind].
  change (field (resolution_to_mapping r) "reason_codes") with (py_strs (tr_reason_codes r)). by rewrite H2.
Qed.
End Stored.

(** ** Every answer is a constructed resolution *)

Section Made.
Context {U : Unicode} {D : Digest} {L : UnicodeCase} {N : UnicodeDecimal} {P : TimezoneProvider}.

Definition made (m : result temporal_error TemporalResolution) : Prop :=
  forall r, m = Ok r -> exists values, resolution_post_init values = Ok r.

Lemma made_bind {A} (m : result temporal_error A) f : (forall a, m = Ok a -> made (f a)) -> made (m ≫= f).
Proof. intros H r (a & Ha & Hr)%bind_ok. by apply (H a). Qed.

Lemma made_err e : made (Err e).
Proof. done. Qed.

Lemma made_make op tz at_ mode source kind precision i fold clarify reasons :
  made (_make op tz at_ mode source kind precision i fold clarify reasons).
Proof. intros r (id & _ & H)%bind_ok. eauto. Qed.

Lemma made_catch m : made m -> made (catch_overflow m).
Proof. intros H r Hr%map_err_ok. by apply H. Qed.

Ltac made_tac :=
  repeat match goal with
  | |- made (_make _ _ _ _ _ _ _ _ _ _ _) => apply made_make
  | |- made (make_interval _ _ _ _ _ _ _ _) => apply made_make
  | |- made (Err _) => apply made_err
  | |- made (mbind _ _) => apply made_bind; intros ? _
  | |- made (catch_overflow _) => apply made_catch
  | |- made (if ?b then _ else _) => destruct b
  | |- made (match ?x with _ => _ end) => destruct x
  end.

Section Expression.
Context (op tz at_ : string) (zone : ZoneInfo) (as_of : Z) (source : TemporalSource).

Lemma made_days kind p first days : made (resolve_days op tz at_ zone source kind p first days).
Proof. unfold resolve_days. made_tac. Qed.
Lemma made_month kind y m : made (resolve_month op tz at_ zone source kind y m).
Proof. unfold resolve_month. made_tac. Qed.
Lemma made_year kind y : made (resolve_year op tz at_ zone source kind y).
Proof. unfold resolve_year. made_tac. Qed.
Lemma made_rolling kind delta : made (resolve_rolling op tz at_ as_of source kind delta).
Proof. unfold resolve_rolling. made_tac. Qed.

Lemma made_absolute expression fold : made (resolve_absolute op tz at_ zone as_of source expression fold).
Proof.
  unfold resolve_absolute, resolve_range, make_instant, resolve_rolling_amount.
  made_tac; first [apply made_days | apply made_month | apply made_year | apply made_rolling].
Qed.

Lemma made_expression expression fold : made (_resolve_expression op tz at_ zone as_of source expression fold).
Proof.
  unfold _resolve_expression, resolve_week, resolve_near_month, resolve_near_year. cbv zeta.
  made_tac; first [apply made_days | apply made_month | apply made_year | apply made_rolling | apply made_absolute].
Qed.
End Expression.

Lemma resolve_made op name at_ explicit query fold : made (resolve op name at_ explicit query fold).
Proof. unfold resolve. cbv zeta. made_tac; apply made_expression. Qed.
End Made.

(** Whatever the resolver answers is a valid resolution, and survives the wire: printed
    and parsed again it is accepted as the same resolution, its identifier still binding. *)
Theorem resolution_roundtrip {U : Unicode} {D : Digest} {L : UnicodeCase} {N : UnicodeDecimal} {P : TimezoneProvider}
    op name at_ explicit query fold r :
  resolve op name at_ explicit query fold = Ok r -> resolution_from_mapping (resolution_to_mapping r) = Ok r.
Proof. intros [values H]%resolve_made. by apply (resolution_again values). Qed.

(** ** The interval of an expression *)

Section Interval.
Context {U : Unicode} {D : Digest} {L : UnicodeCase} {N : UnicodeDecimal} {P : TimezoneProvider}.

(** A text that [_nonempty] accepts. *)
Definition accepted (n : nat) (s : string) : Prop := is_ok (_nonempty (PStr s) n) = true.

Lemma kept_accepted n s : accepted n s -> kept_text (fun v => _nonempty v n) (PStr s) = Ok s.
Proof. unfold accepted, kept_text. by destruct (_nonempty (PStr s) n). Qed.

Lemma kept_hex64 s : is_ok (_hex64 (PStr s)) = true -> kept_text _hex64 (PStr s) = Ok s.
Proof. unfold kept_text. by destruct (_hex64 (PStr s)). Qed.

(** The resolution asserts the interval from [s] to [e]. *)
Definition asserts (r : TemporalResolution) (kind : string) (s e : Z) : Prop :=
  tr_mode r = "interval" /\ tr_expression_kind r = kind /\ tr_requires_clarification r = false /\
  tr_start_at r = Some (format_utc_timestamp s) /\ tr_end_at r = Some (format_utc_timestamp e) /\
  tr_duration_seconds r = Some (duration_text s e).

Definition whole_instant (t : Z) : Prop := in_range t /\ whole_second t = t.

Lemma parse_whole t : whole_instant t -> parse_utc_timestamp (format_utc_timestamp t) = Some t.
Proof. intros [Hr Hw]. by rewrite parse_format, Hw. Qed.

Lemma duration_canonical s e : (s < e)%Z -> is_canonical_int (duration_text s e) = true.
Proof.
  intros H. unfold duration_text, str_of_Z.
  assert ((Z.quot (e - s) SECOND <? 0)%Z = false) as -> by (apply Z.ltb_ge, Z.quot_pos; unfold SECOND; lia).
  apply str_of_N_canonical.
Qed.

Lemma calendar_code kind p : expected_precision kind = Some p -> is_ok (_safe_code (PStr kind)) = true.
Proof.
  unfold expected_precision. intros H.
  assert (Hk : is_ascii kind = true /\ str_nonempty (py_strip kind) && (length (chars kind) <=? 128)%nat && is_safe_code kind = true).
  { apply assoc_Some_elem in H. repeat (apply list.elem_of_cons in H as [[= -> ->] | H]; [split; vm_compute; reflexivity|]). by apply list.not_elem_of_nil in H. }
  destruct Hk as [Ha Hk]. split_and_bool. unfold _safe_code, _nonempty. cbn [as_text mbind result_bind].
  rewrite (nfc_ascii _ Ha).
  assert (str_nonempty kind = true) as -> by (by destruct kind).
  match goal with H : str_nonempty _ = true |- _ => rewrite H end.
  match goal with H : (_ <=? _)%nat = true |- _ => rewrite H end. cbn.
  match goal with H : is_safe_code _ = true |- _ => by rewrite H end.
Qed.

Context (op tz at_ : string) (source : TemporalSource) (t : Z).
Context (Hop : is_ok (_hex64 (PStr op)) = true) (Htz : accepted 128 tz) (Hv : accepted 128 tz_version)
        (Hat : parse_utc_timestamp at_ = Some t) (Hs : source <> SOURCE_NONE).

Lemma make_interval_cases kind p s e : expected_precision kind = Some p -> whole_instant s -> whole_instant e ->
  if (s <? e)%Z then exists r, make_interval op tz at_ source kind p s e = Ok r /\ asserts r kind s e
  else make_interval op tz at_ source kind p s e = Err InvalidContractValue.
Proof using Hop Htz Hv Hat Hs.
  intros Hk Ws We. unfold make_interval, _make, resolution_create. cbn [fmap option_fmap option_map fst snd].
  change (sorted_unique []) with (@nil string). set (values := assoc_set _ _ _).
  assert (exists h, _hash _TEMPORAL_DOMAIN values = Ok h) as [h Hh].
  { apply hash_total; [reflexivity|]. subst values. cbn [assoc_set String.eqb Ascii.eqb Bool.eqb py_opt].
    repeat (apply list.Forall_cons; split; [by eexists|]). by apply list.Forall_nil. }
  assert (Hid : _identity_hash values = Ok h) by (unfold _identity_hash; by rewrite Hh). rewrite Hid. cbn [mbind result_bind].
  unfold resolution_post_init.
  cbn -[kept_text as_text _reason_codes check_fold optional_instant check_interval timestamp mode_of precision_of source_of
        consistent _identity_hash resolution_identity resolution_to_mapping ensure py_opt mbind map_err of_option
        mode_value source_value precision_value duration_text].
  cbn [ensure mbind result_bind]. rewrite kept_hex64 by done. cbn [mbind result_bind].
  rewrite !kept_accepted by done. cbn [mbind result_bind timestamp]. rewrite Hat. cbn [of_option mbind result_bind map_err as_text].
  assert (E1 : precision_of (precision_value p) = Some p) by (by destruct p).
  assert (E2 : source_of (source_value source) = Some source) by (by destruct source).
  rewrite E1, E2. change (mode_of (mode_value MODE_INTERVAL)) with (Some MODE_INTERVAL). cbn [of_option mbind result_bind].
  pose proof (calendar_code _ _ Hk) as Hc.
  assert (E3 : kept_text _safe_code (PStr kind) = Ok kind) by (unfold kept_text; by destruct (_safe_code (PStr kind))).
  rewrite E3. cbn [mbind result_bind]. change (_reason_codes _) with (@Ok temporal_error text []).
  change (check_fold _) with (@Ok temporal_error (option string) None).
  cbn [mbind result_bind optional_instant py_opt timestamp]. rewrite !parse_whole by done.
  cbn [of_option mbind result_bind map_err check_interval]. unfold check_interval. change (bool_decide (MODE_INTERVAL = MODE_INTERVAL \/ _)) with true. cbn [snd].
  destruct (Z.ltb_spec s e) as [Hlt|Hle]; [|done]. cbn [ensure mbind result_bind canonical_integer].
  rewrite duration_canonical by done. cbn [map_err mbind result_bind]. rewrite String.eqb_refl. cbn [ensure mbind result_bind].
  change (bool_decide (MODE_INTERVAL = MODE_INSTANT)) with false. cbn [negb orb ensure mbind result_bind].
  assert (E4 : consistent MODE_INTERVAL source kind p None false [] = true).
  { cbn [consistent]. rewrite Hk. destruct source; [done|..]; by destruct p. }
  rewrite E4. cbn [ensure mbind result_bind]. eexists. split.
  - match goal with |- mbind _ ?m = _ => rewrite (Hid : m = Ok h) end. cbn [mbind result_bind]. by rewrite String.eqb_refl.
  - unfold asserts; cbn. done.
Qed.

(** ** The days of a period *)

Context (zone : ZoneInfo) {Z0 : ZoneLaws zone}.

(** The one instant at which the zone's clock shows [n]. *)
Definition only_instant (n u : Z) : Prop := shows zone n u /\ forall u', shows zone n u' -> u' = u.

Lemma shows_whole a u : shows zone (a * DAY) u -> whole_instant u.
Proof using Z0.
  unfold shows, to_local, whole_instant, whole_second. intros (f & H). destruct (decide (in_range u)) as [Hr|]; [|done].
  pose proof (whole_offset u) as Ho. destruct (offset_at zone u) as [o g]. cbn in Ho.
  apply bind_Some in H as (l & [-> _]%add_delta_ok & [= H _]). split; [done|]. unfold DAY, SECOND in *. div_lia.
Qed.

Definition inland_day (a : Z) : Prop := (2 <= a < MAX_DAYS - 2)%Z.

Lemma midnight_ok a u : inland_day a -> _midnight_utc zone a = Ok u <-> only_instant (a * DAY) u.
Proof using Z0. intros Ha. apply localize_unique; [done|]. unfold inland_day, inland, DAY, SECOND in *. lia. Qed.

Lemma midnight_err a e : inland_day a -> _midnight_utc zone a = Err e -> e = InvalidContractValue.
Proof using Z0. intros Ha. apply localize_error; [done|]. unfold inland_day, inland, DAY, SECOND in *. lia. Qed.

(** From the midnight of [a] to the midnight of [b]. *)
Definition span (kind : string) (p : TemporalPrecision) (a b : Z) : result temporal_error TemporalResolution :=
  start ← _midnight_utc zone a; end_ ← _midnight_utc zone b; make_interval op tz at_ source kind p start end_.

(** The answer [m] is the interval between the two midnights, when each is one instant and
    they are in order, and is refused as an invalid value otherwise. *)
Definition answers (m : result temporal_error TemporalResolution) (kind : string) (a b : Z) : Prop :=
  (forall s e, only_instant (a * DAY) s -> only_instant (b * DAY) e -> (s < e)%Z -> exists r, m = Ok r /\ asserts r kind s e) /\
  (forall r, m = Ok r -> exists s e, only_instant (a * DAY) s /\ only_instant (b * DAY) e /\ (s < e)%Z /\ asserts r kind s e) /\
  (forall e, m = Err e -> e = InvalidContractValue).

Lemma span_answers kind p a b : expected_precision kind = Some p -> inland_day a -> inland_day b ->
  answers (span kind p a b) kind a b.
Proof using Hop Htz Hv Hat Hs Z0.
  intros Hk Ha Hb. unfold span. destruct (_midnight_utc zone a) as [s|e1] eqn:Es; cycle 1.
  { split; [|split; [done|]]; cbn; [|intros e [= <-]; exact (midnight_err a _ Ha Es)].
    intros s e Hs1 _ _. apply midnight_ok in Hs1; [|done]. by rewrite Es in Hs1. }
  destruct (_midnight_utc zone b) as [e|e1] eqn:Ee; cycle 1.
  { split; [|split; [done|]]; cbn; [|intros e [= <-]; exact (midnight_err b _ Hb Ee)].
    intros s' e _ He1 _. apply midnight_ok in He1; [|done]. by rewrite Ee in He1. }
  apply midnight_ok in Es, Ee; [|done..]. cbn [mbind result_bind].
  pose proof (make_interval_cases kind p s e Hk (shows_whole a s (proj1 Es)) (shows_whole b e (proj1 Ee))) as Hm.
  destruct (Z.ltb_spec s e) as [Hlt|Hle].
  - destruct Hm as (r & -> & Hr). split; [|split; [|done]].
    + intros s' e' Hs' He' _. exists r. rewrite (proj2 Es s' (proj1 Hs')), (proj2 Ee e' (proj1 He')). done.
    + intros r' [= <-]. by exists s, e.
  - rewrite Hm. split; [|split; [done | by intros ? [= <-]]].
    intros s' e' Hs' He' Hlt. rewrite (proj2 Es s' (proj1 Hs')), (proj2 Ee e' (proj1 He')) in Hlt. lia.
Qed.

Lemma catch_answers m kind a b : answers m kind a b -> answers (catch_overflow m) kind a b.
Proof.
  intros (H1 & H2 & H3). unfold catch_overflow. split; [|split].
  - intros s e Hs' He Hlt. destruct (H1 s e Hs' He Hlt) as (r & -> & Hr). by exists r.
  - intros r Hr%map_err_ok. by apply H2.
  - intros e. destruct m as [r|e']; [done|]. cbn. rewrite (H3 e' eq_refl). by intros [= <-].
Qed.
End Interval.

(** ** Which days a period has *)

(** The number of the day, week, month or year that a day is in. *)
Definition period_index (p : TemporalPrecision) (x : Z) : Z :=
  match p with P_WEEK => x / 7 | P_MONTH => month_index x | P_YEAR => year_of x | _ => x end.

(** The expressions that name a period: its unit, and how many units from now. *)
Definition calendar_kinds : list (string * (TemporalPrecision * Z)) :=
  [("today", (P_DAY, 0)); ("yesterday", (P_DAY, -1)); ("tomorrow", (P_DAY, 1));
   ("this_week", (P_WEEK, 0)); ("last_week", (P_WEEK, -1)); ("next_week", (P_WEEK, 1));
   ("this_month", (P_MONTH, 0)); ("last_month", (P_MONTH, -1)); ("next_month", (P_MONTH, 1));
   ("this_year", (P_YEAR, 0)); ("last_year", (P_YEAR, -1)); ("next_year", (P_YEAR, 1))]%Z.

(** The days from [a] up to [b] are those of the period [offset] units from the one of [d]. *)
Definition period_days (p : TemporalPrecision) (offset d a b : Z) : Prop :=
  inland_day a /\ inland_day b /\ forall x, is_day x -> (a <= x < b <-> period_index p x = period_index p d + offset)%Z.

(** The year of [d], with room for a year before and after. *)
Definition middle_year (d : Z) : Prop := is_day d /\ (3 <= year_of d <= 9997)%Z.

Section Periods.
#[local] Open Scope Z_scope.

Lemma middle_bounds d : middle_year d -> 366 <= d < MAX_DAYS - 366.
Proof.
  intros [Hd Hy]. pose proof (proj2 (year_span (year_of d) d ltac:(lia) Hd) eq_refl) as Hs.
  pose proof (year_first_le 2 (year_of d) 1 1 ltac:(lia) ltac:(lia) ltac:(lia)) as H1.
  pose proof (year_first_le (year_of d + 1) 9999 1 1 ltac:(lia) ltac:(lia) ltac:(lia)) as H2.
  change (ymd2ord 2 1 1) with 365 in H1. change (ymd2ord 9999 1 1) with (MAX_DAYS - 365) in H2. lia.
Qed.

Lemma inland_first y m : 2 <= y <= 9999 -> 1 <= m <= 12 -> y < 9999 \/ m = 1 -> inland_day (ymd2ord y m 1).
Proof.
  intros Hy Hm Hl. unfold inland_day. pose proof (year_first_le 1 y 1 m ltac:(lia) ltac:(lia) Hm) as H1.
  change (ymd2ord 1 1 1) with 0 in H1.
  assert (H2 : ymd2ord 2 1 1 <= ymd2ord y m 1).
  { destruct (Z.eq_dec y 2) as [->|]; [|pose proof (year_first_le 2 y 1 m ltac:(lia) ltac:(lia) Hm); lia].
    month_cases m; vm_compute; congruence. }
  change (ymd2ord 2 1 1) with 365 in H2.
  assert (H3 : ymd2ord y m 1 <= ymd2ord 9999 1 1).
  { destruct Hl as [Hl| ->]; [pose proof (year_first_le y 9999 m 1 Hl Hm ltac:(lia)); lia|].
    destruct (Z.eq_dec y 9999) as [->|]; [lia | pose proof (year_first_le y 9999 1 1 ltac:(lia) Hm ltac:(lia)); lia]. }
  change (ymd2ord 9999 1 1) with (MAX_DAYS - 365) in H3. lia.
Qed.

Lemma day_period d offset : middle_year d -> -1 <= offset <= 1 -> period_days P_DAY offset d (d + offset) (d + offset + 1).
Proof. intros Hd%middle_bounds Ho. unfold period_days, inland_day. cbn [period_index]. split; [lia|]. split; [lia|]. lia. Qed.

Lemma week_period d offset : middle_year d -> -1 <= offset <= 1 ->
  let first := d + - (d mod 7) + 7 * offset in period_days P_WEEK offset d first (first + 7).
Proof.
  intros Hd%middle_bounds Ho. unfold period_days, inland_day. cbn [period_index].
  split; [div_lia|]. split; [div_lia|]. intros x _. div_lia.
Qed.

(** The month [offset] months from [y], [m]. *)
Lemma month_period d y m offset y' m' : is_day d -> (ord2ymd d).1 = (y, m) ->
  12 * y' + (m' - 1) = 12 * y + (m - 1) + offset -> 2 <= y' < 9999 -> 1 <= m' <= 12 ->
  period_days P_MONTH offset d (ymd2ord y' m' 1) (month_end y' m').
Proof.
  intros Hd Hym Hidx Hy' Hm'. unfold period_days. cbn [period_index].
  split; [apply inland_first; lia|]. split.
  - destruct (Z.eq_dec m' 12) as [->|]; [rewrite month_end_december | rewrite month_end_next by lia]; apply inland_first; lia.
  - intros x Hx. rewrite (month_span y' m' x) by (exact Hx || lia). rewrite Hidx.
    assert (month_index d = 12 * y + (m - 1)) as -> by (unfold month_index; destruct (ord2ymd d) as [[? ?] ?]; cbn in Hym; congruence).
    done.
Qed.

Lemma year_period d offset : middle_year d -> -1 <= offset <= 1 ->
  period_days P_YEAR offset d (ymd2ord (year_of d + offset) 1 1) (ymd2ord (year_of d + offset + 1) 1 1).
Proof.
  intros [Hd Hy] Ho. unfold period_days. cbn [period_index].
  split; [apply inland_first; lia|]. split; [apply inland_first; lia|]. intros x Hx. rewrite year_span by (exact Hx || lia). done.
Qed.
End Periods.

(** ** The expressions compute these days *)

Section Expressions.
Context {U : Unicode} {D : Digest} {L : UnicodeCase} {N : UnicodeDecimal} {P : TimezoneProvider}.
Context (op tz at_ : string) (source : TemporalSource) (zone : ZoneInfo) (t : Z).

Notation span := (span op tz at_ source zone).

Lemma add_days_ok d n : is_day (d + n) -> add_days d n = Ok (d + n)%Z.
Proof. unfold add_days, is_day. intros H. by replace ((0 <=? d + n) && (d + n <? MAX_DAYS))%Z with true by lia. Qed.

Lemma inland_is_day a : inland_day a -> is_day a.
Proof. unfold inland_day, is_day. lia. Qed.

Lemma days_span kind p first n : is_day (first + n) ->
  resolve_days op tz at_ zone source kind p first n = span kind p first (first + n).
Proof. intros H. unfold resolve_days, TemporalTheorems.span. rewrite add_days_ok by done. done. Qed.

Lemma new_first y m : (1 <= y <= 9999 -> 1 <= m <= 12 -> new_date y m 1 = Ok (ymd2ord y m 1))%Z.
Proof.
  intros Hy Hm. unfold new_date. pose proof (days_in_month_range (is_leap y) m Hm).
  by rewrite (proj2 (valid_date_ok y m 1)) by lia.
Qed.

Lemma month_spans kind y m : (1 <= y < 9999 -> 1 <= m <= 12 ->
  resolve_month op tz at_ zone source kind y m = span kind P_MONTH (ymd2ord y m 1) (month_end y m))%Z.
Proof.
  intros Hy Hm. unfold resolve_month, _next_month, TemporalTheorems.span. rewrite new_first by lia.
  destruct (Z.eqb_spec m 12) as [->|].
  - replace (y =? 9999)%Z with false by lia. cbn [negb ensure mbind result_bind fst snd].
    rewrite new_first, month_end_december by lia. done.
  - cbn [mbind result_bind fst snd]. rewrite new_first, month_end_next by lia. done.
Qed.

Lemma year_spans kind y : (1 <= y < 9999)%Z ->
  resolve_year op tz at_ zone source kind y = span kind P_YEAR (ymd2ord y 1 1) (ymd2ord (y + 1) 1 1).
Proof. intros Hy. unfold resolve_year, TemporalTheorems.span. rewrite !new_first by lia. done. Qed.

(** A kind is its own expression, whatever the aliases are. *)
Lemma own_kind kind : str_mem kind (map fst _ALIAS_GROUPS) = true -> exists k, _kind_for_expression kind = Ok k.
Proof. intros H. unfold _kind_for_expression. destruct (assoc kind _ALIAS_TO_KIND); [eauto|]. rewrite H. eauto. Qed.

Lemma day_branch kind p d offset : middle_year d -> (-1 <= offset <= 1)%Z ->
  (first ← add_days d offset; resolve_days op tz at_ zone source kind p first 1) = span kind p (d + offset) (d + offset + 1).
Proof.
  intros Hd%middle_bounds Ho. rewrite add_days_ok by (unfold is_day; lia). cbn [mbind result_bind].
  apply days_span. unfold is_day. lia.
Qed.

Lemma week_branch kind d offset : middle_year d -> (-1 <= offset <= 1)%Z ->
  resolve_week op tz at_ zone source kind offset d =
  span kind P_WEEK (d + - (d mod 7) + 7 * offset) (d + - (d mod 7) + 7 * offset + 7).
Proof.
  intros Hd%middle_bounds Ho. unfold resolve_week.
  rewrite add_days_ok by (unfold is_day; div_lia). cbn [mbind result_bind].
  rewrite add_days_ok by (unfold is_day; div_lia). cbn [mbind result_bind]. apply days_span. unfold is_day. div_lia.
Qed.

Lemma month_branch kind d offset : middle_year d ->
  In (kind, offset) [("this_month", 0); ("last_month", -1); ("next_month", 1)]%Z ->
  exists a b, resolve_near_month op tz at_ zone source kind d = span kind P_MONTH a b /\ period_days P_MONTH offset d a b.
Proof.
  intros [Hd Hy] Hk. pose proof (ymd2ord_ord2ymd d Hd) as Hv. pose proof (month_period d) as Hp.
  unfold year_of in Hy. unfold resolve_near_month. destruct (ord2ymd d) as [[y m] dd]. cbn [fst snd] in *.
  destruct Hv as [(_ & Hm & _)%valid_date_ok _].
  assert (Hgo : forall y' m', (12 * y' + (m' - 1) = 12 * y + (m - 1) + offset -> 2 <= y' < 9999 -> 1 <= m' <= 12 ->
    exists a b, resolve_month op tz at_ zone source kind y' m' = span kind P_MONTH a b /\ period_days P_MONTH offset d a b)%Z).
  { intros y' m' Hi Hy' Hm'. exists (ymd2ord y' m' 1), (month_end y' m'). split; [apply month_spans; lia | by apply (Hp y m)]. }
  destruct Hk as [[= <- <-] | [[= <- <-] | [[= <- <-] | []]]]; cbn [String.eqb Ascii.eqb Bool.eqb].
  - apply Hgo; lia.
  - destruct (Z.eqb_spec m 1); apply Hgo; lia.
  - unfold _next_month. destruct (Z.eqb_spec m 12).
    + replace (y =? 9999)%Z with false by lia. cbn [negb ensure mbind result_bind fst snd]. apply Hgo; lia.
    + cbn [mbind result_bind fst snd]. apply Hgo; lia.
Qed.

Lemma year_branch kind d offset : middle_year d -> (-1 <= offset <= 1)%Z ->
  resolve_near_year op tz at_ zone source kind offset d =
  span kind P_YEAR (ymd2ord (year_of d + offset) 1 1) (ymd2ord (year_of d + offset + 1) 1 1).
Proof.
  intros [_ Hy] Ho. unfold resolve_near_year. fold (year_of d).
  replace ((1 <=? year_of d + offset) && (year_of d + offset <? 9999))%Z with true by lia.
  cbn [ensure mbind result_bind]. apply year_spans. lia.
Qed.

Lemma calendar_span kind p offset local f : assoc kind calendar_kinds = Some (p, offset) ->
  to_local zone t = Some (local, f) -> middle_year (local / DAY) ->
  exists a b, period_days p offset (local / DAY) a b /\ expected_precision kind = Some p /\
    _resolve_expression op tz at_ zone t source kind None = span kind p a b.
Proof.
  intros Hk Hl Hd. set (d := (local / DAY)%Z) in *. apply assoc_Some_elem in Hk.
  unfold _resolve_expression. assert (Hg : str_mem kind (map fst _ALIAS_GROUPS) = true).
  { repeat (apply list.elem_of_cons in Hk as [[= -> _ _] | Hk]; [reflexivity|]). by apply list.not_elem_of_nil in Hk. }
  destruct (own_kind kind Hg) as [k0 ->]. rewrite Hg, Hl. cbv zeta. cbn [mbind result_bind of_option fst]. fold d. clear k0 Hg Hl.
  assert (Hm : forall offset, (-1 <= offset <= 1)%Z -> period_days P_DAY offset d (d + offset) (d + offset + 1)) by eauto using day_period.
  repeat (apply list.elem_of_cons in Hk as [[= -> -> ->] | Hk];
    [cbn [str_mem assoc String.eqb Ascii.eqb Bool.eqb no_fold ensure mbind result_bind orb]; unfold no_fold;
     cbn [bool_decide ensure mbind result_bind];
     first [ rewrite day_branch by (done || lia); eexists _, _; split; [by apply day_period | done]
           | rewrite week_branch by (done || lia); eexists _, _; split; [by apply week_period | done]
           | rewrite year_branch by (done || lia); eexists _, _; split; [by apply year_period | done]
           | match goal with |- context [period_days P_MONTH ?o _ _ _] =>
               match goal with |- context [resolve_near_month _ _ _ _ _ ?k _] =>
                 destruct (month_branch k d o Hd) as (a & b & Hab & Hp); [cbn; auto | exists a, b; split; [exact Hp | split; [done | exact Hab]]]
               end end ] |]).
  by apply list.not_elem_of_nil in Hk.
Qed.
End Expressions.

(** C20: a query that names one period is answered with that period: the interval runs from
    the one instant at which the zone's clock shows the midnight of its first day to the one
    that shows the midnight after its last, the days being exactly those in the same day,
    week, month or year as the local date of the request, shifted by the expression; when
    a midnight is skipped or repeated the query is refused as an invalid contract value. *)
Theorem resolve_covers_period {U : Unicode} {D : Digest} {L : UnicodeCase} {N : UnicodeDecimal} {P : TimezoneProvider}
    op name at_ q kind p offset zone (Z0 : ZoneLaws zone) t local f :
  is_ok (_hex64 (PStr op)) = true -> tz_get name = Ok zone -> accepted 128 (zone_key zone) -> accepted 128 tz_version ->
  parse_utc_timestamp at_ = Some t -> to_local zone t = Some (local, f) -> middle_year (local / DAY) ->
  _query_matches (Some q) = [kind] -> assoc kind calendar_kinds = Some (p, offset) ->
  exists a b, period_days p offset (local / DAY) a b /\
    answers zone (resolve op name at_ None (Some q) None) kind a b.
Proof.
  intros Hop Hz Hk Hv Hat Hl Hd Hq Hc.
  destruct (calendar_span op (zone_key zone) at_ QUERY_TEXT zone t kind p offset local f Hc Hl Hd) as (a & b & Hp & He & Hs).
  exists a, b. split; [exact Hp|]. unfold resolve. rewrite Hz, Hat, Hq.
  assert (exists v, _hex64 (PStr op) = Ok v) as [v Ev] by (destruct (_hex64 (PStr op)); [eauto | done]).
  rewrite Ev. cbn [mbind result_bind of_option ensure]. rewrite Hs.
  apply catch_answers, span_answers with t; try done; apply Hp.
Qed.

Lemma resolve_covers_period_witness :
  let local := (ymd2ord 2024 3 11 * DAY - 3 * HOUR / 2)%Z in
  exists a b, period_days P_WEEK (-1) (local / DAY) a b /\
    answers new_york (sample_resolve None (Some "notes of last week") None) "last_week" a b.
Proof.
  intros local.
  assert (Hz : tz_get (TimezoneProvider := new_york_only) "America/New_York" = Ok new_york) by reflexivity.
  assert (Hl : to_local new_york (ymd2ord 2024 3 11 * DAY + 5 * HOUR / 2)%Z = Some (local, false)) by (vm_compute; reflexivity).
  assert (Hd : middle_year (local / DAY)) by (split; [split|split]; vm_compute; congruence).
  refine (resolve_covers_period (U := unicode_sample) (D := pad_digest) (L := case_sample) (N := decimal_sample) (P := new_york_only)
    _ "America/New_York" "2024-03-11T02:30:00Z" "notes of last week" "last_week"
    P_WEEK (-1)%Z new_york new_york_laws _ local false _ Hz _ _ _ Hl Hd _ _); vm_compute; reflexivity.
Defined.

Lemma resolution_roundtrip_witness :
  exists r, sample_resolve (Some "local:2024-11-03T01:30:00") None (Some "1") = Ok r /\
    resolution_from_mapping (U := unicode_sample) (D := pad_digest) (resolution_to_mapping r) = Ok r.
Proof.
  destruct (sample_resolve (Some "local:2024-11-03T01:30:00") None (Some "1")) as [r|e] eqn:E; [|vm_compute in E; discriminate E].
  exists r. split; [reflexivity|]. unfold sample_resolve in E.
  exact (resolution_roundtrip (U := unicode_sample) (D := pad_digest) (L := case_sample) (N := decimal_sample) (P := new_york_only)
    _ _ _ _ _ _ r E).
Defined.
