(* ===== verification/Registries.v ===== *)
(** * Schema and kind registries (memory_core/registries.py)

    Reads may upcast old artifacts through registered migrations; writes always use the
    write version; kinds are bound to a registered schema.  Validators and migrations are
    Python callables: functions from the normalized payload that return a mapping or raise. *)
From stdpp Require Import relations.
From S2P Require Import Prelude Digest Json Contracts Canonical Hashing Models Claims Assembler.
Open Scope string_scope.

Definition REGISTRY_SNAPSHOT_VERSION : string := "phase3-registry-snapshot-v1".
Definition SCHEMA_ARTIFACT_VERSION : string := "phase3-schema-artifact-v1".

Inductive reg_error : Type :=
| UnknownSchema | UnsupportedSchemaVersion | SchemaValidationError | MigrationPathError
| UnknownKind | KindRegistrationError | RegContract (e : core_error) | RegKeyError | RegOutOfFuel.

#[export] Instance reg_error_eq_dec : EqDecision reg_error.
Proof. solve_decision. Defined.

(** ** Versions: canonical positive integer strings *)

Definition _positive_version (value : string) : result reg_error N :=
  _ ← ensure (is_positive_int value) (RegContract InvalidContractValue);
  of_option (RegContract InvalidContractValue) (int_of_str value).

Record VersionedArtifact : Type := {
  schema_family : string;
  schema_version : string;
  payload : json;
}.

Record SchemaDefinition : Type := {
  def_family : string;
  def_version : string;
  schema_digest : string;
  readable : bool;
  writable : bool;
  canonical_fixture_digest : string;
}.

#[export] Instance schema_definition_eq_dec : EqDecision SchemaDefinition.
Proof. solve_decision. Defined.

(** [None]: the callable raised. *)
Definition SchemaValidator : Type := json -> option pyval.
Definition SchemaMigration : Type := json -> option pyval.

Record SchemaRegistry : Type := {
  definitions : gmap (string * string) SchemaDefinition;
  validators : gmap (string * string) SchemaValidator;
  write_versions : gmap string string;
  migrations : gmap (string * string) (string * SchemaMigration);
}.

Definition empty_registry : SchemaRegistry :=
  {| definitions := ∅; validators := ∅; write_versions := ∅; migrations := ∅ |}.

(** The items of a dict in the order of their keys. *)
Definition sorted_pairs {A} (m : gmap (string * string) A) : list (string * string * A) :=
  py_sort (fun x y => pair_leb x.1 y.1) (map_to_list m).
Definition sorted_items {A} (m : gmap string A) : list (string * A) := sort_on fst (map_to_list m).

Section Schemas.
Context {U : Unicode} {D : Digest} {R : JsonReader}.

Definition _digest (value : list (string * pyval)) : result reg_error string :=
  data ← map_err RegContract (Contracts.canonical_bytes (py_record value)); Ok (sha256_hex data).

(** [json.loads(canonical_bytes({"payload": dict(payload)}))["payload"]] *)
Definition _normalize_payload (p : pyval) : result reg_error json :=
  match p with
  | PDict kvs | PMap kvs =>
      data ← map_err RegContract (Contracts.canonical_bytes (py_record [("payload", PDict kvs)]));
      j ← of_option RegKeyError (json_loads data);
      match j with
      | JObj ms => of_option RegKeyError (assoc "payload" ms)
      | _ => Err RegKeyError
      end
  | _ => Err SchemaValidationError
  end.

(** [VersionedArtifact.create], through [__post_init__]. *)
Definition artifact_create (family version : string) (p : pyval) : result reg_error VersionedArtifact :=
  _ ← ensure (str_nonempty family) (RegContract InvalidContractValue);
  _ ← _positive_version version;
  j ← _normalize_payload p;
  Ok {| schema_family := family; schema_version := version; payload := j |}.

Definition artifact_to_mapping (a : VersionedArtifact) : list (string * pyval) :=
  [("artifact_schema_version", PStr SCHEMA_ARTIFACT_VERSION);
   ("schema_family", PStr (schema_family a)); ("schema_version", PStr (schema_version a));
   ("payload", of_json (payload a))].

Definition artifact_digest (a : VersionedArtifact) : result reg_error string := _digest (artifact_to_mapping a).

(** [SchemaDefinition.__post_init__] *)
Definition definition_post_init (d : SchemaDefinition) : result reg_error unit :=
  _ ← ensure (str_nonempty (def_family d)) (RegContract InvalidContractValue);
  _ ← _positive_version (def_version d);
  _ ← ensure (is_hex64 (schema_digest d)) (RegContract InvalidContractValue);
  _ ← ensure (is_hex64 (canonical_fixture_digest d)) (RegContract InvalidContractValue);
  ensure (readable d) (RegContract InvalidContractValue).

Definition definition_to_mapping (d : SchemaDefinition) : list (string * pyval) :=
  [("schema_family", PStr (def_family d)); ("schema_version", PStr (def_version d));
   ("schema_digest", PStr (schema_digest d)); ("readable", PBool (readable d));
   ("writable", PBool (writable d)); ("canonical_fixture_digest", PStr (canonical_fixture_digest d))].

(** [try: _normalize_payload(f(payload)) except Exception: raise e] *)
Definition run_callable (e : reg_error) (f : json -> option pyval) (p : json) : result reg_error json :=
  reraise e (v ← of_option e (f p); _normalize_payload v).

Definition set_write_version (family version : string) : st SchemaRegistry reg_error unit := fun r =>
  match definitions r !! (family, version) with
  | None => (r, Err UnknownSchema)
  | Some d =>
      if writable d then
        match write_versions r !! family with
        | Some current =>
            match _positive_version version, _positive_version current with
            | Ok v, Ok c =>
                if (v <? c)%N then (r, Err SchemaValidationError)
                else ({| definitions := definitions r; validators := validators r;
                         write_versions := <[family := version]> (write_versions r);
                         migrations := migrations r |}, Ok tt)
            | Err e, _ | _, Err e => (r, Err e)
            end
        | None => ({| definitions := definitions r; validators := validators r;
                      write_versions := <[family := version]> (write_versions r);
                      migrations := migrations r |}, Ok tt)
        end
      else (r, Err SchemaValidationError)
  end.

Definition register_checks (d : SchemaDefinition) (validator : SchemaValidator) (fixture : VersionedArtifact)
    (r : SchemaRegistry) : result reg_error unit :=
  _ ← ensure (String.eqb (schema_family fixture) (def_family d) && String.eqb (schema_version fixture) (def_version d))
        SchemaValidationError;
  h ← artifact_digest fixture;
  _ ← ensure (String.eqb h (canonical_fixture_digest d)) SchemaValidationError;
  validated ← run_callable SchemaValidationError validator (payload fixture);
  _ ← ensure (json_eqb validated (payload fixture)) SchemaValidationError;
  ensure (match definitions r !! (def_family d, def_version d) with
          | Some existing => bool_decide (existing = d) | None => true end) SchemaValidationError.

Definition register_schema (d : SchemaDefinition) (validator : SchemaValidator) (fixture : VersionedArtifact)
    : st SchemaRegistry reg_error unit := fun r =>
  match register_checks d validator fixture r with
  | Err e => (r, Err e)
  | Ok _ =>
      let key := (def_family d, def_version d) in
      let r := {| definitions := <[key := d]> (definitions r); validators := <[key := validator]> (validators r);
                  write_versions := write_versions r; migrations := migrations r |} in
      if writable d then set_write_version (def_family d) (def_version d) r else (r, Ok tt)
  end.

Definition register_migration (family from_version to_version : string) (migration : SchemaMigration)
    : st SchemaRegistry reg_error unit := fun r =>
  match (f ← _positive_version from_version;
         t ← _positive_version to_version;
         _ ← ensure (negb (t <=? f)%N) MigrationPathError;
         _ ← ensure (bool_decide (is_Some (definitions r !! (family, from_version)))) UnknownSchema;
         _ ← ensure (bool_decide (is_Some (definitions r !! (family, to_version)))) UnknownSchema;
         ensure (match migrations r !! (family, from_version) with
                 | Some existing => String.eqb existing.1 to_version | None => true end) MigrationPathError) with
  | Err e => (r, Err e)
  | Ok _ => ({| definitions := definitions r; validators := validators r; write_versions := write_versions r;
                migrations := <[(family, from_version) := (to_version, migration)]> (migrations r) |}, Ok tt)
  end.

(** [definition]: unknown family, or unknown version of a known family. *)
Definition definition_of (r : SchemaRegistry) (family version : string) : result reg_error SchemaDefinition :=
  match definitions r !! (family, version) with
  | Some d => Ok d
  | None => Err (if existsb (fun kv => String.eqb kv.1.1 family) (map_to_list (definitions r))
                 then UnsupportedSchemaVersion else UnknownSchema)
  end.

Definition current_write_version (r : SchemaRegistry) (family : string) : result reg_error string :=
  of_option UnknownSchema (write_versions r !! family).

Definition validate (r : SchemaRegistry) (a : VersionedArtifact) : result reg_error VersionedArtifact :=
  d ← definition_of r (schema_family a) (schema_version a);
  _ ← ensure (readable d) UnsupportedSchemaVersion;
  validator ← of_option RegKeyError (validators r !! (schema_family a, schema_version a));
  p ← run_callable SchemaValidationError validator (payload a);
  artifact_create (schema_family a) (schema_version a) (of_json p).

(** One round of [read_latest]'s loop. *)
Definition migrate_once (r : SchemaRegistry) (target : string) (visited : list string) (current : VersionedArtifact)
    : result reg_error VersionedArtifact :=
  _ ← ensure (negb (str_mem (schema_version current) visited)) MigrationPathError;
  entry ← of_option MigrationPathError (migrations r !! (schema_family current, schema_version current));
  p ← run_callable MigrationPathError entry.2 (payload current);
  next ← artifact_create (schema_family current) entry.1 (of_json p);
  next ← validate r next;
  n ← _positive_version (schema_version next);
  t ← _positive_version target;
  _ ← ensure (negb (t <? n)%N) MigrationPathError;
  Ok next.

Fixpoint migrate_loop (fuel : nat) (r : SchemaRegistry) (target : string) (visited : list string)
    (current : VersionedArtifact) : result reg_error VersionedArtifact :=
  if String.eqb (schema_version current) target then Ok current
  else match fuel with
       | 0 => Err RegOutOfFuel
       | S fuel =>
           next ← migrate_once r target visited current;
           migrate_loop fuel r target (schema_version current :: visited) next
       end.

(** Each round visits another version that has a migration. *)
Definition read_latest (r : SchemaRegistry) (a : VersionedArtifact) : result reg_error VersionedArtifact :=
  current ← validate r a;
  target ← current_write_version r (schema_family current);
  migrate_loop (S (size (migrations r))) r target [] current.

Definition write_artifact (r : SchemaRegistry) (family : string) (p : pyval) : result reg_error VersionedArtifact :=
  version ← current_write_version r family;
  a ← artifact_create family version p;
  validate r a.

Definition with_digest (body : list (string * pyval)) : result reg_error (list (string * pyval)) :=
  h ← _digest body; Ok (body ++ [("snapshot_digest", PStr h)])%list.

Definition schema_snapshot (r : SchemaRegistry) : result reg_error (list (string * pyval)) :=
  with_digest
    [("registry_snapshot_version", PStr REGISTRY_SNAPSHOT_VERSION);
     ("schemas", PList (map (fun kv => py_record (definition_to_mapping kv.2)) (sorted_pairs (definitions r))));
     ("write_versions", py_str_dict (sorted_items (write_versions r)));
     ("migrations", PList (map (fun kv =>
        py_record [("schema_family", PStr kv.1.1); ("from_version", PStr kv.1.2); ("to_version", PStr kv.2.1)])
        (sorted_pairs (migrations r))))].

(** ** Kinds *)

Definition BUILTIN_KINDS : list string := ["fact"; "decision"; "note"; "idea"; "task"; "event"; "source_record"].

Definition is_lower (c : ascii) : bool := let n := N_of_ascii c in (97 <=? n)%N && (n <=? 122)%N.

(** Dot-separated names, each a lower-case letter followed by lower-case letters, digits and
    underscores. *)
Fixpoint kind_name_from (start : bool) (s : string) : bool :=
  match s with
  | EmptyString => negb start
  | String c s =>
      if start then is_lower c && kind_name_from false s
      else if Ascii.eqb c "." then kind_name_from true s
      else (is_lower c || is_digit c || Ascii.eqb c "_") && kind_name_from false s
  end.
Definition kind_name_ok (s : string) : bool := kind_name_from true s.

Record KindDefinition : Type := {
  kind : string;
  kind_schema_family : string;
  kind_schema_version : string;
  lifecycle_states : list string;
  built_in : bool;
  creatable : bool;
  definition_id : string;
}.

#[export] Instance kind_definition_eq_dec : EqDecision KindDefinition.
Proof. solve_decision. Defined.

Definition kind_body (name family version : string) (states : list string) (builtin can_create : bool)
    : list (string * pyval) :=
  [("kind", PStr name); ("schema_family", PStr family); ("schema_version", PStr version);
   ("lifecycle_states", py_strs states); ("built_in", PBool builtin); ("creatable", PBool can_create)].

Definition kind_body_of (k : KindDefinition) : list (string * pyval) :=
  kind_body (kind k) (kind_schema_family k) (kind_schema_version k) (lifecycle_states k) (built_in k) (creatable k).

Definition kind_to_mapping (k : KindDefinition) : list (string * pyval) :=
  (kind_body_of k ++ [("definition_id", PStr (definition_id k))])%list.

Definition kind_post_init (k : KindDefinition) : result reg_error unit :=
  _ ← ensure (kind_name_ok (kind k)) KindRegistrationError;
  _ ← ensure (Bool.eqb (built_in k) (str_mem (kind k) BUILTIN_KINDS)) KindRegistrationError;
  _ ← ensure (built_in k || str_contains "." (kind k)) KindRegistrationError;
  _ ← _positive_version (kind_schema_version k);
  _ ← ensure (str_nonempty (kind_schema_family k)) KindRegistrationError;
  _ ← ensure (bool_decide (lifecycle_states k <> [])
              && bool_decide (sorted_unique (lifecycle_states k) = lifecycle_states k)) KindRegistrationError;
  h ← _digest (kind_body_of k);
  ensure (String.eqb (definition_id k) h) KindRegistrationError.

(** [KindDefinition.create] *)
Definition kind_create (name family version : string) (states : list string) (can_create : bool)
    : result reg_error KindDefinition :=
  let states := sorted_unique states in
  let builtin := str_mem name BUILTIN_KINDS in
  h ← _digest (kind_body name family version states builtin can_create);
  let k := {| kind := name; kind_schema_family := family; kind_schema_version := version;
              lifecycle_states := states; built_in := builtin; creatable := can_create; definition_id := h |} in
  _ ← kind_post_init k;
  Ok k.

(** The kinds, beside the schema registry they share with others. *)
Record KindRegistry : Type := { schemas : SchemaRegistry; kinds : gmap string KindDefinition }.

Definition put_kind (name : string) (k : KindDefinition) (r : KindRegistry) : KindRegistry :=
  {| schemas := schemas r; kinds := <[name := k]> (kinds r) |}.

Definition kind_register_checks (k : KindDefinition) (r : KindRegistry) : result reg_error unit :=
  schema ← definition_of (schemas r) (kind_schema_family k) (kind_schema_version k);
  _ ← ensure (readable schema) KindRegistrationError;
  _ ← (if creatable k
       then w ← current_write_version (schemas r) (kind_schema_family k);
            ensure (String.eqb w (kind_schema_version k)) KindRegistrationError
       else Ok tt);
  ensure (match kinds r !! kind k with Some existing => bool_decide (existing = k) | None => true end)
    KindRegistrationError.

Definition register_kind (k : KindDefinition) : st KindRegistry reg_error unit := fun r =>
  match kind_register_checks k r with
  | Ok _ => (put_kind (kind k) k r, Ok tt)
  | Err e => (r, Err e)
  end.

Definition resolve_kind (name : string) (r : KindRegistry) : result reg_error KindDefinition :=
  of_option UnknownKind (kinds r !! name).

Definition assert_creatable (name : string) (r : KindRegistry) : result reg_error KindDefinition :=
  k ← resolve_kind name r;
  _ ← ensure (creatable k) KindRegistrationError;
  Ok k.

Definition retire (name : string) : st KindRegistry reg_error KindDefinition := fun r =>
  match (k ← resolve_kind name r;
         kind_create (kind k) (kind_schema_family k) (kind_schema_version k) (lifecycle_states k) false) with
  | Ok retired => (put_kind name retired r, Ok retired)
  | Err e => (r, Err e)
  end.

Definition validate_artifact (name : string) (a : VersionedArtifact) (r : KindRegistry)
    : result reg_error VersionedArtifact :=
  k ← resolve_kind name r;
  _ ← ensure (String.eqb (schema_family a) (kind_schema_family k)) KindRegistrationError;
  read_latest (schemas r) a.

Definition kind_snapshot (r : KindRegistry) : result reg_error (list (string * pyval)) :=
  with_digest
    [("registry_snapshot_version", PStr REGISTRY_SNAPSHOT_VERSION);
     ("kinds", PList (map (fun kv => py_record (kind_to_mapping kv.2)) (sorted_items (kinds r))))].
End Schemas.

(** ** The invariant of a schema registry *)
Section Invariant.
Context {U : Unicode} {D : Digest} {R : JsonReader}.

(** Everything a program can do with a schema registry. *)
Inductive reg_step : SchemaRegistry -> SchemaRegistry -> Prop :=
| reg_register d validator fixture r : reg_step r (register_schema d validator fixture r).1
| reg_write family version r : reg_step r (set_write_version family version r).1
| reg_migration family f t m r : reg_step r (register_migration family f t m r).1.

Definition version_lt (v w : string) : Prop :=
  exists n m, _positive_version v = Ok n /\ _positive_version w = Ok m /\ (n < m)%N.
Definition version_le (v w : string) : Prop :=
  v = w \/ exists n m, _positive_version v = Ok n /\ _positive_version w = Ok m /\ (n <= m)%N.

(** Write versions are registered and writable; migrations lead to newer registered versions. *)
Record reg_ok (r : SchemaRegistry) : Prop := {
  rg_write : forall f v, write_versions r !! f = Some v ->
    exists d, definitions r !! (f, v) = Some d /\ writable d = true;
  rg_migration : forall f v t m, migrations r !! (f, v) = Some (t, m) ->
    version_lt v t /\ is_Some (definitions r !! (f, t));
  rg_key : forall f v d, definitions r !! (f, v) = Some d -> def_family d = f /\ def_version d = v;
}.

(** What no later step undoes: definitions stay, write versions do not move back. *)
Record reg_extends (r r' : SchemaRegistry) : Prop := {
  rx_definitions : definitions r ⊆ definitions r';
  rx_write : forall f v, write_versions r !! f = Some v ->
    exists v', write_versions r' !! f = Some v' /\ version_le v v';
}.

Lemma version_le_trans u v w : version_le u v -> version_le v w -> version_le u w.
Proof.
  intros [->|(n & m & Hn & Hm & H1)]; [done|]. intros [<-|(m' & k & Hm' & Hk & H2)].
  - right. by exists n, m.
  - right. exists n, k. split; [done|]. split; [done|]. assert (m' = m) as -> by congruence. lia.
Qed.

#[export] Instance reg_extends_preorder : PreOrder reg_extends.
Proof.
  split.
  - intros r. split; [done|]. intros f v Hv. exists v. split; [done | by left].
  - intros a b c [A1 A2] [B1 B2]. split; [by etrans|]. intros f v (v1 & H1 & E1)%A2.
    apply B2 in H1 as (v2 & H2 & E2). exists v2. split; [done | by eapply version_le_trans].
Qed.

Lemma empty_registry_ok : reg_ok empty_registry.
Proof. split; cbn; intros *; by rewrite lookup_empty. Qed.

Lemma set_write_cases family version r :
  (set_write_version family version r).1 = r \/
  (exists d, definitions r !! (family, version) = Some d /\ writable d = true /\
     (forall c, write_versions r !! family = Some c -> version_le c version) /\
     (set_write_version family version r).1 =
       {| definitions := definitions r; validators := validators r;
          write_versions := <[family := version]> (write_versions r); migrations := migrations r |}).
Proof.
  unfold set_write_version. destruct (definitions r !! (family, version)) as [d|] eqn:Ed; [|by left].
  destruct (writable d) eqn:Ew; [|by left]. destruct (write_versions r !! family) as [c|] eqn:Ec.
  - destruct (_positive_version version) as [v|] eqn:Ev, (_positive_version c) as [n|] eqn:En; try by left.
    destruct (N.ltb_spec v n); [by left|]. right. exists d. split; [done|]. split; [done|]. split; [|done].
    intros c' [= <-]. right. by exists n, v.
  - right. exists d. split; [done|]. split; [done|]. by split.
Qed.

Lemma set_write_ok family version r :
  reg_ok r -> reg_ok (set_write_version family version r).1 /\ reg_extends r (set_write_version family version r).1.
Proof.
  intros [H1 H2 H3]. destruct (set_write_cases family version r) as [->|(d & Hd & Hw & Hc & ->)]; [done|]. split.
  - split; cbn; [|done|done]. intros f v. destruct (decide (f = family)) as [->|].
    + rewrite lookup_insert_eq. intros [= <-]. by exists d.
    + rewrite lookup_insert_ne by done. apply H1.
  - split; cbn; [done|]. intros f v Hv. destruct (decide (f = family)) as [->|].
    + exists version. rewrite lookup_insert_eq. split; [done | by apply Hc].
    + exists v. rewrite lookup_insert_ne by done. split; [done | by left].
Qed.

Lemma put_definition_ok d validator r :
  (forall x, definitions r !! (def_family d, def_version d) = Some x -> x = d) -> reg_ok r ->
  let r' := {| definitions := <[(def_family d, def_version d) := d]> (definitions r);
               validators := <[(def_family d, def_version d) := validator]> (validators r);
               write_versions := write_versions r; migrations := migrations r |} in
  reg_ok r' /\ reg_extends r r'.
Proof.
  intros Hx [H1 H2 H3]. cbv zeta.
  assert (Hsub : definitions r ⊆ <[(def_family d, def_version d) := d]> (definitions r)).
  { destruct (definitions r !! (def_family d, def_version d)) as [x|] eqn:E.
    - rewrite (insert_id _ _ _); [done|]. by rewrite E, (Hx x eq_refl).
    - by apply insert_subseteq. }
  split; [split; cbn|split; cbn; [done|]].
  - intros f v (x & Hd & Hw)%H1. exists x. split; [|done]. by eapply lookup_weaken.
  - intros f v t m (Hlt & x & Hd)%H2. split; [done|]. exists x. by eapply lookup_weaken.
  - intros f v x. destruct (decide ((f, v) = (def_family d, def_version d))) as [[= -> ->]|Hne].
    + rewrite lookup_insert_eq. by intros [= <-].
    + rewrite lookup_insert_ne by done. apply H3.
  - intros f v Hv. exists v. split; [done | by left].
Qed.

Lemma register_schema_ok d validator fixture r :
  reg_ok r -> reg_ok (register_schema d validator fixture r).1 /\ reg_extends r (register_schema d validator fixture r).1.
Proof.
  intros Hr. unfold register_schema. destruct (register_checks d validator fixture r) as [u|e] eqn:Ec; [|done].
  assert (Hx : forall x, definitions r !! (def_family d, def_version d) = Some x -> x = d).
  { unfold register_checks in Ec. do 2 apply bind_ok in Ec as (? & _ & Ec). do 3 apply bind_ok in Ec as (? & _ & Ec).
    apply ensure_ok in Ec. intros old Hd. rewrite Hd in Ec. by apply bool_decide_eq_true in Ec. }
  destruct (put_definition_ok d validator r Hx Hr) as [Hr' He]. destruct (writable d); [|done].
  destruct (set_write_ok (def_family d) (def_version d) _ Hr') as [Hr'' He']. split; [done | by etrans].
Qed.

Lemma register_migration_ok family f t m r :
  reg_ok r -> reg_ok (register_migration family f t m r).1 /\ reg_extends r (register_migration family f t m r).1.
Proof.
  intros Hr. unfold register_migration. destruct (_ ≫= _) as [u|e] eqn:Ec; [|done].
  apply bind_ok in Ec as (nf & Hf & Ec). apply bind_ok in Ec as (nt & Ht & Ec).
  apply bind_ok in Ec as (? & Hlt & Ec).
  apply bind_ok in Ec as (? & _ & Ec). apply bind_ok in Ec as (? & Hd & _).
  apply ensure_ok, negb_true_iff, N.leb_gt in Hlt. apply ensure_ok, bool_decide_eq_true in Hd. destruct Hr as [H1 H2 H3]. split; [split; cbn; try done|split; cbn; [done|]].
  - intros f0 v t0 m0. destruct (decide ((f0, v) = (family, f))) as [[= -> ->]|Hne].
    + rewrite lookup_insert_eq. intros [= <- <-]. split; [by exists nf, nt | done].
    + rewrite lookup_insert_ne by done. apply H2.
  - intros f0 v Hv. exists v. split; [done | by left].
Qed.

Lemma reg_steps_ok r r' : rtc reg_step r r' -> reg_ok r -> reg_ok r' /\ reg_extends r r'.
Proof.
  induction 1 as [r|r1 r2 r3 Hs _ IH]; intros Hr; [done|].
  assert (H2 : reg_ok r2 /\ reg_extends r1 r2).
  { destruct Hs; [by apply register_schema_ok | by apply set_write_ok | by apply register_migration_ok]. }
  destruct H2 as [H2 E2]. destruct (IH H2) as [H3 E3]. split; [done | by etrans].
Qed.

(** ** Reading *)

Lemma artifact_create_ok family version p a :
  artifact_create family version p = Ok a -> schema_family a = family /\ schema_version a = version.
Proof.
  unfold artifact_create. intros H. apply bind_ok in H as (? & _ & H). apply bind_ok in H as (? & _ & H).
  apply bind_ok in H as (j & _ & [= <-]). done.
Qed.

Lemma validate_ok r a b :
  validate r a = Ok b -> schema_family b = schema_family a /\ schema_version b = schema_version a.
Proof.
  unfold validate. intros H. do 4 apply bind_ok in H as (? & _ & H). by apply artifact_create_ok in H.
Qed.

Lemma migrate_once_ok r target visited current next :
  migrate_once r target visited current = Ok next ->
  schema_version current ∉ visited /\ schema_family next = schema_family current /\
  (exists m, migrations r !! (schema_family current, schema_version current) = Some (schema_version next, m)) /\
  exists x, validate r x = Ok next.
Proof.
  unfold migrate_once. intros H. apply bind_ok in H as (? & Hv%ensure_ok%negb_true_iff & H).
  apply bind_ok in H as ([t m] & Hm & H). apply bind_ok in H as (p & _ & H).
  apply bind_ok in H as (made & Hx & H). apply bind_ok in H as (checked & Hy & H).
  do 3 apply bind_ok in H as (? & _ & H). injection H as <-.
  destruct (artifact_create_ok _ _ _ _ Hx) as [Ef Ev], (validate_ok _ _ _ Hy) as [Ef' Ev'].
  split; [by rewrite <- str_mem_spec, Hv|]. split; [congruence|]. split; [|by exists made].
  exists m. destruct (migrations r !! _); cbn in Hm; [|done]. injection Hm as ->. cbn in *. by rewrite Ev', Ev.
Qed.

(** The rounds cannot outnumber the migrations. *)
Lemma visited_bound r family visited :
  NoDup visited -> (forall v, v ∈ visited -> is_Some (migrations r !! (family, v))) ->
  length visited <= size (migrations r).
Proof.
  intros Hnd Hv. rewrite <- (length_map (pair family) visited), <- length_map_to_list, <- (length_map fst (map_to_list _)).
  apply NoDup_incl_length.
  - apply NoDup_ListNoDup, NoDup_fmap_2; [|done]. by intros x y [= ->].
  - intros x Hx%list_elem_of_In. apply list_elem_of_In. apply list_elem_of_fmap in Hx as (v & -> & Hx).
    destruct (Hv _ Hx) as [e He]. apply list_elem_of_fmap. exists (family, v, e). split; [done|].
    by apply elem_of_map_to_list.
Qed.

Definition no_fuel_error {A} (m : result reg_error A) : Prop := m <> Err RegOutOfFuel.

Lemma no_fuel_bind {A B} (m : result reg_error A) (f : A -> result reg_error B) :
  no_fuel_error m -> (forall a, no_fuel_error (f a)) -> no_fuel_error (m ≫= f).
Proof. unfold no_fuel_error. destruct m; cbn; [auto | congruence]. Qed.

Lemma no_fuel_ensure c (e : reg_error) : e <> RegOutOfFuel -> no_fuel_error (ensure c e).
Proof. unfold no_fuel_error. destruct c; cbn; congruence. Qed.
Lemma no_fuel_option {A} (o : option A) (e : reg_error) : e <> RegOutOfFuel -> no_fuel_error (of_option e o).
Proof. unfold no_fuel_error. destruct o; cbn; congruence. Qed.
Lemma no_fuel_contract {A} (m : result core_error A) : no_fuel_error (map_err RegContract m).
Proof. unfold no_fuel_error. destruct m; cbn; congruence. Qed.
Lemma no_fuel_callable e f p : e <> RegOutOfFuel -> no_fuel_error (run_callable e f p).
Proof. unfold no_fuel_error, run_callable. destruct (_ ≫= _); cbn; congruence. Qed.

Ltac no_fuel :=
  repeat first
    [ match goal with |- no_fuel_error (_ ≫= _) => apply no_fuel_bind; [|intros ?] end | apply no_fuel_ensure; discriminate | apply no_fuel_option; discriminate
    | apply no_fuel_contract | apply no_fuel_callable; discriminate | discriminate ].

Lemma no_fuel_version v : no_fuel_error (_positive_version v).
Proof. unfold _positive_version. no_fuel. Qed.

Lemma no_fuel_payload p : no_fuel_error (_normalize_payload p).
Proof. unfold _normalize_payload. destruct p; no_fuel; match goal with |- no_fuel_error (match ?a with _ => _ end) => destruct a end; no_fuel. Qed.

Lemma no_fuel_create f v p : no_fuel_error (artifact_create f v p).
Proof. unfold artifact_create. no_fuel; first [apply no_fuel_version | apply no_fuel_payload]. Qed.

Lemma no_fuel_validate r a : no_fuel_error (validate r a).
Proof.
  unfold validate, definition_of. apply no_fuel_bind; [|intros ?; no_fuel; first [apply no_fuel_create | apply no_fuel_version | apply no_fuel_payload]].
  unfold no_fuel_error. destruct (definitions r !! _); [done|]. by destruct (existsb _ _).
Qed.

Lemma no_fuel_once r target visited current : no_fuel_error (migrate_once r target visited current).
Proof.
  unfold migrate_once. no_fuel; first
    [apply no_fuel_create | apply no_fuel_validate | apply no_fuel_version | apply no_fuel_payload].
Qed.

Lemma migrate_loop_spec r target fuel visited current :
  reg_ok r -> NoDup visited ->
  (forall v, v ∈ visited -> is_Some (migrations r !! (schema_family current, v))) ->
  length visited + fuel = S (size (migrations r)) ->
  no_fuel_error (migrate_loop fuel r target visited current) /\
  forall b, migrate_loop fuel r target visited current = Ok b ->
    schema_version b = target /\ schema_family b = schema_family current /\
    version_le (schema_version current) (schema_version b) /\
    (b = current \/ exists x, validate r x = Ok b).
Proof.
  intros Hr. revert visited current. induction fuel as [|fuel IH]; intros visited current Hnd Hv Hlen; cbn [migrate_loop];
    destruct (String.eqb_spec (schema_version current) target) as [Et|Et].
  1, 3: split; [done|]; intros b [= <-]; split; [done|]; split; [done|]; split; by left.
  - exfalso. pose proof (visited_bound r (schema_family current) visited Hnd Hv). lia.
  - destruct (migrate_once r target visited current) as [next|e] eqn:En; cbn [mbind result_bind].
    2:{ split; [|done]. pose proof (no_fuel_once r target visited current) as Hf. by rewrite En in Hf. }
    apply migrate_once_ok in En as (Hnew & Ef & (m & Hm) & x & Hx).
    destruct (IH (schema_version current :: visited) next) as [IH1 IH2].
    + by apply list.NoDup_cons.
    + rewrite Ef. intros v [->|Hin]%elem_of_cons; [by eexists | by apply Hv].
    + cbn. lia.
    + split; [done|]. intros b Hb. destruct (IH2 b Hb) as (E1 & E2 & E3 & E4).
      split; [done|]. split; [congruence|]. split.
      * eapply version_le_trans; [|exact E3]. destruct (rg_migration _ Hr _ _ _ _ Hm) as [(n & k & Hn & Hk & Hlt) _].
        right. exists n, k. split; [done|]. split; [done | lia].
      * right. destruct E4 as [->|E4]; [by exists x | done].
Qed.

Lemma read_latest_spec r a :
  reg_ok r ->
  no_fuel_error (read_latest r a) /\
  forall b, read_latest r a = Ok b ->
    schema_family b = schema_family a /\ write_versions r !! schema_family a = Some (schema_version b) /\
    version_le (schema_version a) (schema_version b) /\ exists x, validate r x = Ok b.
Proof.
  intros Hr. unfold read_latest. destruct (validate r a) as [c|e] eqn:Ev; cbn [mbind result_bind].
  2:{ split; [|done]. pose proof (no_fuel_validate r a) as Hf. by rewrite Ev in Hf. }
  destruct (validate_ok _ _ _ Ev) as [Ef Ever]. unfold current_write_version.
  destruct (write_versions r !! schema_family c) as [t|] eqn:Ew; cbn [of_option mbind result_bind]; [|by split].
  destruct (migrate_loop_spec r t (S (size (migrations r))) [] c Hr) as [H1 H2].
  - constructor.
  - intros v Hin. by apply elem_of_nil in Hin.
  - done.
  - split; [done|]. intros b Hb. destruct (H2 b Hb) as (E1 & E2 & E3 & E4).
    split; [congruence|]. split; [congruence|]. split; [by rewrite <- Ever|].
    destruct E4 as [->|E4]; [by exists a | done].
Qed.
End Invariant.

(** ** Property *)

(** C37: reading upcasts to the write version, and terminates.  In any registry built by
    registrations: migrations lead to newer registered versions and write versions are
    registered and writable; later registrations neither change a definition nor move a
    write version back; [read_latest] ends within as many rounds as there are migrations,
    and what it returns is an artifact of the same family at the family's write version,
    not older than the one read, accepted by that version's validator. *)
Theorem schema_reads_latest {U : Unicode} {D : Digest} {R : JsonReader} r a :
  rtc reg_step empty_registry r ->
  reg_ok r /\ (forall r', rtc reg_step r r' -> reg_extends r r') /\
  read_latest r a <> Err RegOutOfFuel /\
  forall b, read_latest r a = Ok b ->
    schema_family b = schema_family a /\ write_versions r !! schema_family a = Some (schema_version b) /\
    version_le (schema_version a) (schema_version b) /\ exists x, validate r x = Ok b.
Proof.
  intros Hs. destruct (reg_steps_ok _ _ Hs empty_registry_ok) as [Hr _]. split; [done|].
  split; [intros r' Hs'; by apply (reg_steps_ok _ _ Hs')|]. by apply read_latest_spec.
Qed.

(** ** Sample: one family, two versions, one migration *)

Definition sample_fixture (version : string) : VersionedArtifact :=
  {| schema_family := "note"; schema_version := version; payload := JObj [("v", JStr version)] |}.

Definition sample_definition (version : string) : SchemaDefinition :=
  {| def_family := "note"; def_version := version; schema_digest := sha256_hex (D := pad_digest) "schema";
     readable := true; writable := true;
     canonical_fixture_digest :=
       match artifact_digest (U := unicode_sample) (D := pad_digest) (sample_fixture version) with
       | Ok h => h | Err _ => "" end |}.

(** A validator that accepts the payload of its version. *)
Definition sample_validator (version : string) : SchemaValidator := fun p =>
  if json_eqb p (payload (sample_fixture version)) then Some (of_json p) else None.
Definition sample_migration : SchemaMigration := fun _ => Some (PDict [(KStr "v", PStr "2")]).

Definition sample_register (version : string) (r : SchemaRegistry) : SchemaRegistry :=
  (register_schema (U := unicode_sample) (D := pad_digest) (R := canonical_reader)
     (sample_definition version) (sample_validator version) (sample_fixture version) r).1.

Definition sample_registry : SchemaRegistry :=
  (register_migration "note" "1" "2" sample_migration (sample_register "2" (sample_register "1" empty_registry))).1.

Lemma sample_registry_reachable :
  rtc (reg_step (U := unicode_sample) (D := pad_digest) (R := canonical_reader)) empty_registry sample_registry.
Proof.
  eapply rtc_l; [apply (reg_register (sample_definition "1") (sample_validator "1") (sample_fixture "1"))|].
  eapply rtc_l; [apply (reg_register (sample_definition "2") (sample_validator "2") (sample_fixture "2"))|].
  eapply rtc_l; [apply (reg_migration "note" "1" "2" sample_migration) | apply rtc_refl].
Qed.

(** The old note is read at the write version. *)
Example sample_read :
  read_latest (U := unicode_sample) (R := canonical_reader) sample_registry (sample_fixture "1") =
  Ok (sample_fixture "2").
Proof. vm_compute. reflexivity. Qed.

Lemma schema_reads_latest_witness :
  write_versions sample_registry !! "note" = Some "2" /\ version_le "1" "2".
Proof.
  destruct (schema_reads_latest (U := unicode_sample) (D := pad_digest) (R := canonical_reader)
    sample_registry (sample_fixture "1") sample_registry_reachable) as (_ & _ & _ & H).
  destruct (H _ sample_read) as (_ & Hw & Hv & _). split; [exact Hw | exact Hv].
Defined.
