(* ===== verification/Plugins.v ===== *)
(** * The plugin gateway (memory_core/plugins.py)

    Manifests and requests with their validating constructors, the quota store as an
    interface with its laws, and the gateway that admits a request, runs the plugin out of
    process and checks what it answered.  The runner, the output validator and the reading
    of an arbitrary response text are the class [PluginPorts]. *)
From S2P Require Import Prelude Digest Json Canonical Hashing Contracts Policy.
Open Scope string_scope.

Definition PLUGIN_MANIFEST_VERSION : string := "phase3-plugin-manifest-v1".
Definition PLUGIN_REQUEST_VERSION : string := "phase3-plugin-request-v1".
Definition PLUGIN_RESPONSE_VERSION : string := "phase3-plugin-response-v1".

(** A contract error, the [ValueError] of an Enum or of [int], or what the validator raised. *)
Inductive plugin_error : Type := PluginContract (e : core_error) | PluginValueError | PluginValidatorRaised.

#[export] Instance plugin_error_eq_dec : EqDecision plugin_error.
Proof. solve_decision. Defined.

Definition invalid : plugin_error := PluginContract InvalidContractValue.

Definition _positive_integer (v : pyval) (maximum : option N) : result plugin_error (string * N) :=
  match v with
  | PStr s =>
      _ ← ensure (is_positive_int s) invalid;
      _ ← ensure (String.length s <=? INT_MAX_STR_DIGITS)%nat PluginValueError;
      n ← of_option PluginValueError (int_of_str s);
      _ ← ensure (match maximum with Some m => (n <=? m)%N | None => true end) invalid;
      Ok (s, n)
  | _ => Err invalid
  end.

Definition _string_sequence (v : pyval) : result plugin_error (list string) :=
  match v with
  | PList l | PTuple l =>
      items ← map_result (fun x => map_err PluginContract (need_str x)) l;
      _ ← ensure (bool_decide (items <> [])) invalid;
      Ok items
  | _ => Err invalid
  end.

Inductive EgressClass : Type := EGRESS_NONE | EGRESS_PUBLIC | EGRESS_INTERNAL | EGRESS_PRIVATE | EGRESS_RESTRICTED.

#[export] Instance egress_eq_dec : EqDecision EgressClass.
Proof. solve_decision. Defined.

Definition egress_rank (e : EgressClass) : Z :=
  match e with
  | EGRESS_NONE => -1 | EGRESS_PUBLIC => 0 | EGRESS_INTERNAL => 1 | EGRESS_PRIVATE => 2 | EGRESS_RESTRICTED => 3
  end.

Definition egress_value (e : EgressClass) : string :=
  match e with
  | EGRESS_NONE => "none" | EGRESS_PUBLIC => "public" | EGRESS_INTERNAL => "internal"
  | EGRESS_PRIVATE => "private" | EGRESS_RESTRICTED => "secret"
  end.

(** [EgressClass(text)] *)
Definition egress_of (text : string) : option EgressClass :=
  list_find (fun e => egress_value e = text)
    [EGRESS_NONE; EGRESS_PUBLIC; EGRESS_INTERNAL; EGRESS_PRIVATE; EGRESS_RESTRICTED] ≫= fun p => Some p.2.

(** ** PluginManifest *)

Record PluginManifest : Type := {
  plugin_schema_version : string;
  manifest_id : string;
  man_plugin_id : string;
  man_plugin_version : string;
  runner_mode : string;
  allowed_operations : list string;
  required_capabilities : list string;
  egress_class : string;
  max_request_bytes : string;
  max_response_bytes : string;
  timeout_ms : string;
  max_calls_per_operation : string;
  output_schema_id : string;
}.

Definition MANIFEST_FIELDS : list string :=
  ["plugin_schema_version"; "manifest_id"; "plugin_id"; "plugin_version"; "runner_mode";
   "allowed_operations"; "required_capabilities"; "egress_class"; "max_request_bytes";
   "max_response_bytes"; "timeout_ms"; "max_calls_per_operation"; "output_schema_id"].

(** [PluginManifest._identity]: every field but the identifier. *)
Definition manifest_identity (m : PluginManifest) : mapping :=
  [("plugin_schema_version", PStr (plugin_schema_version m));
   ("plugin_id", PStr (man_plugin_id m)); ("plugin_version", PStr (man_plugin_version m));
   ("runner_mode", PStr (runner_mode m));
   ("allowed_operations", py_strs (allowed_operations m));
   ("required_capabilities", py_strs (required_capabilities m));
   ("egress_class", PStr (egress_class m)); ("max_request_bytes", PStr (max_request_bytes m));
   ("max_response_bytes", PStr (max_response_bytes m)); ("timeout_ms", PStr (timeout_ms m));
   ("max_calls_per_operation", PStr (max_calls_per_operation m));
   ("output_schema_id", PStr (output_schema_id m))].

Definition manifest_to_mapping (m : PluginManifest) : mapping :=
  ("manifest_id", PStr (manifest_id m)) :: manifest_identity m.

Section Manifests.
Context {U : Unicode} {D : Digest}.

Definition manifest_digest (m : PluginManifest) : result plugin_error string :=
  b ← map_err PluginContract (canonical_bytes (py_record (manifest_identity m))); Ok (sha256_hex b).

(** [sorted, unique, and non-empty], of non-empty strings *)
Definition canonical_names (l : list string) : bool :=
  bool_decide (l <> []) && bool_decide (sorted_unique l = l) && forallb str_nonempty l.

(** [PluginManifest.__post_init__], on the raw values and the two sequences. *)
Definition manifest_post_init (data : mapping) (ops caps : list string) : result plugin_error PluginManifest :=
  _ ← ensure (py_str_eqb (field data "plugin_schema_version") PLUGIN_MANIFEST_VERSION)
        (PluginContract UnsupportedContractVersion);
  pid ← map_err PluginContract (need_str (field data "plugin_id"));
  ver ← map_err PluginContract (need_str (field data "plugin_version"));
  schema ← map_err PluginContract (need_str (field data "output_schema_id"));
  _ ← ensure (py_str_eqb (field data "runner_mode") "out_of_process") invalid;
  _ ← ensure (canonical_names ops) invalid;
  _ ← ensure (canonical_names caps) invalid;
  egress ← of_option PluginValueError (match field data "egress_class" with PStr s => egress_of s | _ => None end);
  req ← _positive_integer (field data "max_request_bytes") None;
  resp ← _positive_integer (field data "max_response_bytes") None;
  tmo ← _positive_integer (field data "timeout_ms") (Some 120000%N);
  calls ← _positive_integer (field data "max_calls_per_operation") None;
  let m id := {| plugin_schema_version := PLUGIN_MANIFEST_VERSION; manifest_id := id; man_plugin_id := pid;
                 man_plugin_version := ver; runner_mode := "out_of_process"; allowed_operations := ops;
                 required_capabilities := caps; egress_class := egress_value egress;
                 max_request_bytes := req.1; max_response_bytes := resp.1; timeout_ms := tmo.1;
                 max_calls_per_operation := calls.1; output_schema_id := schema |} in
  expected ← manifest_digest (m "");
  _ ← ensure (py_str_eqb (field data "manifest_id") expected) invalid;
  Ok (m expected).

Definition manifest_from_mapping (data : mapping) : result plugin_error PluginManifest :=
  _ ← ensure (keys_within data MANIFEST_FIELDS) (PluginContract UnknownContractField);
  _ ← ensure (has_keys data MANIFEST_FIELDS) invalid;
  ops ← _string_sequence (field data "allowed_operations");
  caps ← _string_sequence (field data "required_capabilities");
  manifest_post_init data ops caps.

(** [PluginManifest.create]: sorts the sequences, computes the identifier; [args] are the
    fields the caller gives, on values of their types. *)
Definition manifest_create (args : PluginManifest) : result plugin_error PluginManifest :=
  ops ← _string_sequence (py_strs (allowed_operations args));
  caps ← _string_sequence (py_strs (required_capabilities args));
  let m id := {| plugin_schema_version := PLUGIN_MANIFEST_VERSION; manifest_id := id;
                 man_plugin_id := man_plugin_id args; man_plugin_version := man_plugin_version args;
                 runner_mode := runner_mode args; allowed_operations := sorted_unique ops;
                 required_capabilities := sorted_unique caps; egress_class := egress_class args;
                 max_request_bytes := max_request_bytes args; max_response_bytes := max_response_bytes args;
                 timeout_ms := timeout_ms args; max_calls_per_operation := max_calls_per_operation args;
                 output_schema_id := output_schema_id args |} in
  id ← manifest_digest (m "");
  manifest_post_init (manifest_to_mapping (m id)) (sorted_unique ops) (sorted_unique caps).

Definition manifest_bytes (m : PluginManifest) : result plugin_error string :=
  map_err PluginContract (canonical_bytes (py_record (manifest_to_mapping m))).
End Manifests.

(** ** PluginRequest *)

Record PluginRequest : Type := {
  req_version : string;
  req_request_id : string;
  req_plugin_id : string;
  req_plugin_version : string;
  req_workspace_id : string;
  req_actor_id : string;
  operation_id : string;
  operation_type : string;
  capability_token_ref : string;
  req_sensitivity : Sensitivity;
  deadline_at : string;
  req_correlation_id : string;
  req_payload : list (string * json);
}.

Definition REQUEST_FIELDS : list string :=
  ["plugin_request_version"; "request_id"; "plugin_id"; "plugin_version"; "workspace_id"; "actor_id";
   "operation_id"; "operation_type"; "capability_token_ref"; "sensitivity"; "deadline_at";
   "correlation_id"; "payload"].

Definition request_to_mapping (r : PluginRequest) : mapping :=
  [("plugin_request_version", PStr (req_version r)); ("request_id", PStr (req_request_id r));
   ("plugin_id", PStr (req_plugin_id r)); ("plugin_version", PStr (req_plugin_version r));
   ("workspace_id", PStr (req_workspace_id r)); ("actor_id", PStr (req_actor_id r));
   ("operation_id", PStr (operation_id r)); ("operation_type", PStr (operation_type r));
   ("capability_token_ref", PStr (capability_token_ref r));
   ("sensitivity", PStr (sensitivity_value (req_sensitivity r)));
   ("deadline_at", PStr (deadline_at r)); ("correlation_id", PStr (req_correlation_id r));
   ("payload", of_json (JObj (req_payload r)))].

(** The key is present and no other is: [set(d) == FIELDS]. *)
Definition dict_items (kvs : list (pykey * pyval)) : option mapping :=
  mapM (fun kv => match kv.1 with KStr k => Some (k, kv.2) | KOther => None end) kvs.

(** [json.loads(canonical_bytes({key: value}))[key]] *)
Section Reload.
Context {U : Unicode} {R : JsonReader}.

Definition reload (key : string) (v : pyval) : result core_error json :=
  data ← canonical_bytes (py_record [(key, v)]);
  j ← of_option InvalidContractValue (json_loads data);
  match j with JObj ms => of_option InvalidContractValue (assoc key ms) | _ => Err InvalidContractValue end.

Definition reload_object (key : string) (v : pyval) : result core_error (list (string * json)) :=
  j ← reload key v;
  match j with JObj ms => Ok ms | _ => Err InvalidContractValue end.

(** [PluginRequest.__post_init__] *)
Definition request_from_values (data : mapping) : result plugin_error PluginRequest :=
  _ ← ensure (py_str_eqb (field data "plugin_request_version") PLUGIN_REQUEST_VERSION)
        (PluginContract UnsupportedContractVersion);
  rid ← map_err PluginContract (need_str (field data "request_id"));
  pid ← map_err PluginContract (need_str (field data "plugin_id"));
  ver ← map_err PluginContract (need_str (field data "plugin_version"));
  ws ← map_err PluginContract (need_str (field data "workspace_id"));
  actor ← map_err PluginContract (need_str (field data "actor_id"));
  op ← map_err PluginContract (need_str (field data "operation_id"));
  type ← map_err PluginContract (need_str (field data "operation_type"));
  tok ← map_err PluginContract (need_str (field data "capability_token_ref"));
  sens ← map_err PluginContract (need_str (field data "sensitivity"));
  deadline ← map_err PluginContract (need_str (field data "deadline_at"));
  corr ← map_err PluginContract (need_str (field data "correlation_id"));
  s ← of_option PluginValueError (sensitivity_of sens);
  _ ← ensure (match field data "payload" with PDict _ => true | _ => false end) invalid;
  p ← map_err PluginContract (reload_object "payload" (field data "payload"));
  Ok {| req_version := PLUGIN_REQUEST_VERSION; req_request_id := rid; req_plugin_id := pid;
        req_plugin_version := ver; req_workspace_id := ws; req_actor_id := actor; operation_id := op;
        operation_type := type; capability_token_ref := tok; req_sensitivity := s; deadline_at := deadline;
        req_correlation_id := corr; req_payload := p |}.

Definition request_from_mapping (data : mapping) : result plugin_error PluginRequest :=
  _ ← ensure (keys_within data REQUEST_FIELDS) (PluginContract UnknownContractField);
  _ ← ensure (has_keys data REQUEST_FIELDS) invalid;
  _ ← ensure (match field data "payload" with PDict _ => true | _ => false end) invalid;
  request_from_values data.

Definition request_bytes (r : PluginRequest) : result core_error string :=
  canonical_bytes (py_record (request_to_mapping r)).
End Reload.

(** ** Quotas *)

Definition quota_key : Type := string * string * string.

(** The quota store: [consume] counts a call against a limit, or refuses. *)
Class QuotaStore (Q : Type) : Type := {
  consume : quota_key -> N -> Q -> Q * bool;
  used : Q -> quota_key -> N;
}.

Class QuotaLaws (Q : Type) `{QuotaStore Q} : Prop := {
  consume_granted : forall k limit q, (consume k limit q).2 = (used q k <? limit)%N;
  consume_counts : forall k limit q k',
    used (consume k limit q).1 k' =
      if bool_decide (k' = k) && (used q k <? limit)%N then (used q k + 1)%N else used q k';
}.

(** [InMemoryPluginQuotaStore]: one counter per workspace, operation and plugin. *)
Notation InMemoryPluginQuotaStore := (gmap (string * string * string) N).

Definition memory_consume (key : quota_key) (limit : N) (counts : InMemoryPluginQuotaStore)
    : InMemoryPluginQuotaStore * bool :=
  let current := default 0%N (counts !! key) in
  if (limit <=? current)%N then (counts, false) else (<[key := (current + 1)%N]> counts, true).

#[export] Instance memory_quota : QuotaStore InMemoryPluginQuotaStore :=
  {| consume := memory_consume; used := fun counts k => default 0%N (counts !! k) |}.

#[export] Instance memory_quota_laws : QuotaLaws InMemoryPluginQuotaStore.
Proof.
  split; cbn; unfold memory_consume.
  - intros k limit q. destruct (N.leb_spec limit (default 0%N (q !! k))); symmetry;
      [by apply N.ltb_ge | by apply N.ltb_lt].
  - intros k limit q k'. destruct (N.leb_spec limit (default 0%N (q !! k))) as [Hl|Hl]; cbn.
    + rewrite (proj2 (N.ltb_ge _ _)) by done. by rewrite andb_false_r.
    + rewrite (proj2 (N.ltb_lt _ _)) by done. rewrite andb_true_r. case_bool_decide; subst;
        [by rewrite lookup_insert_eq | by rewrite lookup_insert_ne].
Qed.

(** ** The gateway *)

(** What running the plugin comes to. *)
Inductive run_outcome : Type := RunBytes (raw : string) | RunNotBytes | RunTimeout | RunCrashed.

Class PluginPorts (W : Type) : Type := {
  runner_invoke : PluginManifest -> string -> N -> W -> W * run_outcome;
  (* [None]: the validator raised *)
  output_validate : string -> list (string * json) -> option bool;
  (* [json.loads(raw.decode("utf-8"))]; [None]: malformed *)
  response_loads : string -> option pyval;
}.

(** [InMemoryPluginOutputValidator.validate]: a schema without a validator accepts nothing. *)
Definition memory_validate (validators : gmap string (list (string * json) -> option bool))
    (schema_id : string) (output : list (string * json)) : option bool :=
  match validators !! schema_id with Some validator => validator output | None => Some false end.

Record PluginInvocationResult : Type := {
  inv_status : string;
  inv_request_id : string;
  inv_plugin_id : string;
  inv_output : list (string * json);
  inv_output_digest : option string;
  inv_error_code : option string;
}.

(** Leaving early: with a result of this status and code, or by an exception. *)
Inductive leave : Type := Rejected (code : string) | Retry (code : string) | Raises (e : plugin_error).

Definition RESPONSE_FIELDS : list string :=
  ["plugin_response_version"; "request_id"; "plugin_id"; "plugin_version"; "output_schema_id"; "output"].

Section Gateway.
Context {U : Unicode} {D : Digest} {R : JsonReader}.
Context {Q : Type} `{QuotaStore Q} {W : Type} {P : PluginPorts W}.
Variable now : string.

Definition plugin_request (m : PluginManifest) (r : PluginRequest) : PolicyRequest :=
  {| request_workspace_id := req_workspace_id r; request_actor_id := req_actor_id r;
     action := "plugin.invoke:" +:+ man_plugin_id m; Policy.now := now;
     object_sensitivity := req_sensitivity r |}.

Definition key_of (m : PluginManifest) (r : PluginRequest) : quota_key :=
  (req_workspace_id r, operation_id r, man_plugin_id m).

Definition limit_of (v : string) : result leave N := x ← map_err Raises (_positive_integer (PStr v) None); Ok x.2.

(** [invoke] up to the quota: the request's bytes. *)
Definition before_quota (m : PluginManifest) (r : PluginRequest) (t : CapabilityToken) : result leave string :=
  _ ← ensure (String.eqb (req_plugin_id r) (man_plugin_id m) && String.eqb (req_plugin_version r) (man_plugin_version m))
        (Rejected "plugin_manifest_mismatch");
  _ ← ensure (str_mem (operation_type r) (allowed_operations m)) (Rejected "plugin_operation_denied");
  _ ← ensure (negb (str_leb (deadline_at r) now)) (Rejected "plugin_deadline_expired");
  let decision := authorize t (plugin_request m r) in
  _ ← ensure (allowed decision) (Rejected ("plugin_policy_" +:+ reason_value (reason decision)));
  _ ← ensure (forallb (fun c => str_mem c (actions t)) (required_capabilities m)) (Rejected "plugin_capability_missing");
  egress ← of_option (Raises PluginValueError) (egress_of (egress_class m));
  level ← of_option (Raises PluginValueError) (egress_of (sensitivity_value (req_sensitivity r)));
  _ ← ensure (negb (bool_decide (egress = EGRESS_NONE) && bool_decide (req_payload r <> []))) (Rejected "plugin_egress_denied");
  _ ← ensure (negb (bool_decide (egress <> EGRESS_NONE) && (egress_rank egress <? egress_rank level)%Z))
        (Rejected "plugin_egress_denied");
  bytes ← map_err (fun e => Raises (PluginContract e)) (request_bytes r);
  limit ← limit_of (max_request_bytes m);
  _ ← ensure (negb (limit <? N.of_nat (String.length bytes))%N) (Rejected "plugin_request_oversized");
  Ok bytes.

(** [invoke] after the plugin answered: the checked output. *)
Definition check_response (m : PluginManifest) (r : PluginRequest) (o : run_outcome)
    : result leave (list (string * json)) :=
  raw ← match o with
        | RunBytes raw => Ok raw
        | RunNotBytes => Err (Rejected "plugin_response_not_bytes")
        | RunTimeout => Err (Retry "plugin_timeout")
        | RunCrashed => Err (Retry "plugin_crashed")
        end;
  limit ← limit_of (max_response_bytes m);
  _ ← ensure (negb (limit <? N.of_nat (String.length raw))%N) (Rejected "plugin_response_oversized");
  decoded ← of_option (Rejected "plugin_response_malformed")
              (v ← response_loads raw; match v with PDict kvs => Some kvs | _ => None end);
  d ← of_option (Rejected "plugin_response_fields_invalid") (dict_items decoded);
  _ ← ensure (keys_within d RESPONSE_FIELDS && has_keys d RESPONSE_FIELDS) (Rejected "plugin_response_fields_invalid");
  _ ← ensure (py_str_eqb (field d "plugin_response_version") PLUGIN_RESPONSE_VERSION)
        (Rejected "plugin_response_version_unsupported");
  _ ← ensure (py_str_eqb (field d "request_id") (req_request_id r) && py_str_eqb (field d "plugin_id") (man_plugin_id m)
              && py_str_eqb (field d "plugin_version") (man_plugin_version m)
              && py_str_eqb (field d "output_schema_id") (output_schema_id m))
        (Rejected "plugin_response_binding_mismatch");
  _ ← ensure (match field d "output" with PDict _ => true | _ => false end) (Rejected "plugin_output_invalid");
  output ← reraise (Rejected "plugin_output_invalid") (reload_object "output" (field d "output"));
  valid ← of_option (Raises PluginValidatorRaised) (output_validate (output_schema_id m) output);
  _ ← ensure valid (Rejected "plugin_output_schema_failed");
  Ok output.

Definition plugin_result (r : PluginRequest) (status : string) (code : option string) (output : list (string * json))
    : result plugin_error PluginInvocationResult :=
  digest ← (if String.eqb status "ok"
            then b ← map_err PluginContract (canonical_bytes (py_record [("output", of_json (JObj output))]));
                 Ok (Some (sha256_hex b))
            else Ok None);
  Ok {| inv_status := status; inv_request_id := req_request_id r; inv_plugin_id := req_plugin_id r;
        inv_output := output; inv_output_digest := digest; inv_error_code := code |}.

Definition leave_with (r : PluginRequest) (l : leave) : result plugin_error PluginInvocationResult :=
  match l with
  | Rejected code => plugin_result r "rejected" (Some code) []
  | Retry code => plugin_result r "retry_later" (Some code) []
  | Raises e => Err e
  end.

Definition invoke (m : PluginManifest) (r : PluginRequest) (t : CapabilityToken)
    : st (Q * W) plugin_error PluginInvocationResult := fun '(q, w) =>
  match before_quota m r t with
  | Err l => ((q, w), leave_with r l)
  | Ok bytes =>
      match limit_of (max_calls_per_operation m) with
      | Err l => ((q, w), leave_with r l)
      | Ok calls =>
          let '(q, granted) := consume (key_of m r) calls q in
          if granted then
            match _positive_integer (PStr (timeout_ms m)) (Some 120000%N) with
            | Err _ => ((q, w), plugin_result r "retry_later" (Some "plugin_crashed") [])
            | Ok (_, timeout) =>
                let '(w, o) := runner_invoke m bytes timeout w in
                match check_response m r o with
                | Err l => ((q, w), leave_with r l)
                | Ok output => ((q, w), plugin_result r "ok" None output)
                end
            end
          else ((q, w), leave_with r (Rejected "plugin_quota_exceeded"))
      end
  end.
End Gateway.

(** ** Manifests: what is accepted, and what its identifier commits to *)
Section ManifestLemmas.
Context {U : Unicode} {D : Digest}.

Lemma positive_integer_ok v mx s n :
  _positive_integer v mx = Ok (s, n) <->
  v = PStr s /\ is_positive_int s = true /\ String.length s <= INT_MAX_STR_DIGITS /\ int_of_str s = Some n /\
  (forall k, mx = Some k -> (n <= k)%N).
Proof.
  destruct v; cbn [_positive_integer]; try (split; [done | by intros [? _]]). rewrite bind_ok. setoid_rewrite bind_ok.
  setoid_rewrite bind_ok. setoid_rewrite bind_ok. setoid_rewrite ensure_ok. split.
  - intros (_ & Hp & _ & Hl%Nat.leb_le & x & Hx & _ & Hm & [= <- <-]). split; [done|]. split; [done|]. split; [done|].
    split; [by destruct (int_of_str s0); cbn in Hx; congruence|]. intros k ->. by apply N.leb_le.
  - intros ([= ->] & Hp & Hl & Hn & Hm). exists tt. split; [done|]. exists tt. split; [by apply Nat.leb_le|].
    exists n. split; [by rewrite Hn|]. exists tt. split; [|done]. destruct mx as [k|]; [|done]. by apply N.leb_le, Hm.
Qed.

(** A canonical positive integer, of value [n]. *)
Definition positive (s : string) (n : N) : Prop := _positive_integer (PStr s) None = Ok (s, n).

Record manifest_valid (m : PluginManifest) : Prop := {
  mv_version : plugin_schema_version m = PLUGIN_MANIFEST_VERSION;
  mv_names : forallb str_nonempty [man_plugin_id m; man_plugin_version m; output_schema_id m] = true;
  mv_runner : runner_mode m = "out_of_process";
  mv_operations : canonical_names (allowed_operations m) = true;
  mv_capabilities : canonical_names (required_capabilities m) = true;
  mv_egress : exists e, egress_class m = egress_value e;
  mv_request : exists n, positive (max_request_bytes m) n;
  mv_response : exists n, positive (max_response_bytes m) n;
  mv_timeout : exists n, positive (timeout_ms m) n /\ (1 <= n <= 120000)%N;
  mv_calls : exists n, positive (max_calls_per_operation m) n;
  mv_id : manifest_digest m = Ok (manifest_id m);
}.

Lemma egress_of_value e : egress_of (egress_value e) = Some e.
Proof. by destruct e. Qed.

Lemma egress_of_inv s e : egress_of s = Some e -> s = egress_value e.
Proof.
  unfold egress_of. intros ([i x] & Hf & [= <-])%bind_Some. by apply list_find_Some in Hf as (_ & <- & _).
Qed.

Lemma positive_ge_1 v mx s n : _positive_integer v mx = Ok (s, n) -> positive s n /\ (1 <= n)%N.
Proof.
  intros (-> & Hp & Hl & Hn & _)%positive_integer_ok. split; [by apply positive_integer_ok|].
  destruct s as [|c s]; [done|]. unfold is_positive_int in Hp. apply andb_true_iff in Hp as [Hp _].
  apply andb_true_iff in Hp as [Hd Hz]. eapply int_of_str_positive; [|exact Hn].
  unfold is_digit in Hd. apply andb_true_iff in Hd as [H1 H2]. apply andb_true_iff. split; [|done].
  apply N.leb_le in H1. apply N.leb_le. assert (N_of_ascii c <> 48%N); [|lia]. intros Hc.
  rewrite <- (ascii_N_embedding c), Hc in Hz. discriminate Hz.
Qed.

Lemma canonical_names_items l : canonical_names l = true -> _string_sequence (py_strs l) = Ok l.
Proof.
  unfold canonical_names. intros [[Hne _]%andb_true_iff Hs]%andb_true_iff. unfold py_strs, _string_sequence.
  assert (map_result (fun x => map_err PluginContract (need_str x)) (map PStr l) = Ok l) as ->.
  { apply map_result_ok. clear Hne. induction l as [|x l IH]; [constructor|].
    cbn -[str_nonempty] in Hs. apply andb_true_iff in Hs as [Hx Hs]. constructor; [|by apply IH].
    cbn [need_str]. by rewrite Hx. }
  cbn [mbind result_bind]. by rewrite Hne.
Qed.

Lemma contract_need v s : map_err PluginContract (need_str v) = Ok s <-> v = PStr s /\ str_nonempty s = true.
Proof. by rewrite map_err_ok, need_str_ok. Qed.

Lemma manifest_post_init_ok data ops caps m :
  manifest_post_init data ops caps = Ok m -> manifest_valid m.
Proof.
  unfold manifest_post_init. intros H. apply bind_ok in H as (_ & _ & H).
  apply bind_ok in H as (pid & [_ Hpid]%contract_need & H). apply bind_ok in H as (ver & [_ Hver]%contract_need & H).
  apply bind_ok in H as (schema & [_ Hsch]%contract_need & H). apply bind_ok in H as (_ & _ & H).
  apply bind_ok in H as (_ & Hops%ensure_ok & H). apply bind_ok in H as (_ & Hcaps%ensure_ok & H).
  apply bind_ok in H as (egress & _ & H). apply bind_ok in H as ([req nreq] & Hreq & H).
  apply bind_ok in H as ([resp nresp] & Hresp & H). apply bind_ok in H as ([tmo ntmo] & Htmo & H).
  apply bind_ok in H as ([calls ncalls] & Hcalls & H). apply bind_ok in H as (expected & Hid & H).
  apply bind_ok in H as (_ & _ & [= <-]). apply positive_ge_1 in Hreq as [Hreq _], Hresp as [Hresp _], Hcalls as [Hcalls _].
  pose proof Htmo as (_ & _ & _ & _ & Hmax)%positive_integer_ok. apply positive_ge_1 in Htmo as [Htmo Hge].
  split; cbn -[str_nonempty]; try done; try by eexists.
  - by rewrite Hpid, Hver, Hsch.
  - exists ntmo. split; [done|]. split; [done | by apply Hmax].
Qed.

Lemma positive_again s n mx :
  positive s n -> (forall k, mx = Some k -> (n <= k)%N) -> _positive_integer (PStr s) mx = Ok (s, n).
Proof. intros (_ & ? & ? & ? & _)%positive_integer_ok Hm. by apply positive_integer_ok. Qed.

Lemma manifest_reparse m : manifest_valid m -> manifest_from_mapping (manifest_to_mapping m) = Ok m.
Proof.
  destruct m as [v id pid ver runner ops caps egress req resp tmo calls schema].
  intros [Hv Hn Hr Ho Hc [e He] [a Ha] [b Hb] (t & Ht & Hbt) [c Hcl] Hid].
  cbn -[str_nonempty] in Hv, Hn, Hr, Ho, Hc, He, Ha, Hb, Ht, Hcl. subst v runner egress. split_and_bool.
  unfold manifest_from_mapping. change (keys_within _ _) with true. change (has_keys _ _) with true.
  cbn [ensure mbind result_bind].
  change (field _ "allowed_operations") with (py_strs ops). change (field _ "required_capabilities") with (py_strs caps).
  rewrite !canonical_names_items by done. cbn [mbind result_bind]. unfold manifest_post_init.
  change (field _ "plugin_schema_version") with (PStr PLUGIN_MANIFEST_VERSION).
  change (field _ "plugin_id") with (PStr pid). change (field _ "plugin_version") with (PStr ver).
  change (field _ "output_schema_id") with (PStr schema). change (field _ "runner_mode") with (PStr "out_of_process").
  change (field _ "egress_class") with (PStr (egress_value e)). change (field _ "max_request_bytes") with (PStr req).
  change (field _ "max_response_bytes") with (PStr resp). change (field _ "timeout_ms") with (PStr tmo).
  change (field _ "max_calls_per_operation") with (PStr calls). change (field _ "manifest_id") with (PStr id).
  assert (Hs : forall s, str_nonempty s = true -> map_err PluginContract (need_str (PStr s)) = Ok s)
    by (intros; by apply contract_need).
  change (py_str_eqb (PStr PLUGIN_MANIFEST_VERSION) PLUGIN_MANIFEST_VERSION) with true.
  change (py_str_eqb (PStr "out_of_process") "out_of_process") with true.
  rewrite !Hs, Ho, Hc by done. cbn [ensure mbind result_bind of_option]. rewrite egress_of_value.
  cbn [ensure mbind result_bind of_option].
  rewrite (positive_again req a), (positive_again resp b), (positive_again tmo t), (positive_again calls c)
    by (done || (intros k [= <-]; lia)).
  cbn [mbind result_bind fst]. cbn [manifest_id] in Hid.
  match goal with |- context [manifest_digest ?m] => change (manifest_digest m) with (manifest_digest
    {| plugin_schema_version := PLUGIN_MANIFEST_VERSION; manifest_id := id; man_plugin_id := pid;
       man_plugin_version := ver; runner_mode := "out_of_process"; allowed_operations := ops;
       required_capabilities := caps; egress_class := egress_value e; max_request_bytes := req;
       max_response_bytes := resp; timeout_ms := tmo; max_calls_per_operation := calls;
       output_schema_id := schema |}) end.
  rewrite Hid. cbn [mbind result_bind py_str_eqb]. by rewrite String.eqb_refl.
Qed.

Lemma plugin_manifest_create_ok args m : manifest_create args = Ok m -> manifest_valid m.
Proof.
  unfold manifest_create. intros H. apply bind_ok in H as (ops & _ & H). apply bind_ok in H as (caps & _ & H).
  apply bind_ok in H as (id & _ & H). by apply manifest_post_init_ok in H.
Qed.

(** Equal up to the NFC form of the texts. *)
Definition same_manifest (m m' : PluginManifest) : Prop :=
  map nfc [plugin_schema_version m; man_plugin_id m; man_plugin_version m; runner_mode m; egress_class m;
           max_request_bytes m; max_response_bytes m; timeout_ms m; max_calls_per_operation m; output_schema_id m] =
  map nfc [plugin_schema_version m'; man_plugin_id m'; man_plugin_version m'; runner_mode m'; egress_class m';
           max_request_bytes m'; max_response_bytes m'; timeout_ms m'; max_calls_per_operation m'; output_schema_id m'] /\
  map nfc (allowed_operations m) = map nfc (allowed_operations m') /\
  map nfc (required_capabilities m) = map nfc (required_capabilities m').

Lemma manifest_id_inj m m' :
  manifest_digest m = Ok (manifest_id m) -> manifest_digest m' = Ok (manifest_id m') -> manifest_id m = manifest_id m' ->
  same_manifest m m' \/
  collision (preimage (py_record (manifest_identity m)) ++ preimage (py_record (manifest_identity m'))).
Proof.
  unfold manifest_digest. intros Hm Hm' Hid. apply bind_ok in Hm as (b & Hb%map_err_ok & [= Hd]).
  apply bind_ok in Hm' as (b' & Hb'%map_err_ok & [= Hd']).
  assert (Hf : forall m, map_free (py_record (manifest_identity m)) = true) by (intros; unfold manifest_identity; dicts_only).
  destruct (contract_digest_inj _ _ _ _ (Hf _) (Hf _) Hb Hb') as [(j & j' & Hj & Hj' & E)|?]; [congruence|left|by right].
  destruct (normalize_record_obj _ _ Hj) as [ms ->], (normalize_record_obj _ _ Hj') as [ms' ->].
  unfold manifest_identity in Hj, Hj'. norm_record Hj. norm_record Hj'. injection Hj as <-. injection Hj' as <-.
  pose proof (json_members _ _ E eq_refl) as Hk. unfold same_manifest. cbn [map].
  pose proof (Hk "plugin_schema_version") as H1. pose proof (Hk "plugin_id") as H2. pose proof (Hk "plugin_version") as H3.
  pose proof (Hk "runner_mode") as H4. pose proof (Hk "egress_class") as H5. pose proof (Hk "max_request_bytes") as H6.
  pose proof (Hk "max_response_bytes") as H7. pose proof (Hk "timeout_ms") as H8.
  pose proof (Hk "max_calls_per_operation") as H9. pose proof (Hk "output_schema_id") as H10.
  pose proof (Hk "allowed_operations") as H11. pose proof (Hk "required_capabilities") as H12. clear Hk E.
  cbn in H1, H2, H3, H4, H5, H6, H7, H8, H9, H10.
  split; [congruence|]. split; apply json_strs_equiv; [cbn in H11 |- *; congruence | cbn in H12 |- *; congruence].
Qed.
End ManifestLemmas.

Lemma reload_ok {U : Unicode} {R : JsonReader} key v j :
  is_ascii key = true -> reload key v = Ok j <-> _normalize v = Ok j.
Proof.
  intros Hk. unfold reload, canonical_bytes, py_record. cbn [map fst snd _normalize str_in_keys existsb].
  rewrite nfc_ascii by done. change (str_in_keys key []) with false. cbn iota.
  destruct (_normalize v) as [x|e] eqn:Hx; cbn [mbind result_bind]; [|done].
  apply contract_normal in Hx as [Hw Hs]. change (sort_on fst ([] ++ [(key, x)])%list) with [(key, x)].
  rewrite json_loads_dumps; [|cbn [json_wf map fst snd forallb]; rewrite Hw; done].
  cbn [of_option mbind result_bind sort_json map fst snd]. rewrite Hs.
  change (sort_on fst [(key, x)]) with [(key, x)]. cbn [assoc]. by rewrite String.eqb_refl.
Qed.

(** ** Admission and response, as what they mean *)
Section GatewayLemmas.
Context {U : Unicode} {D : Digest} {R : JsonReader}.
Context {Q : Type} `{QuotaLaws Q} {W : Type} {P : PluginPorts W}.
Variable now : string.

Record admitted (m : PluginManifest) (r : PluginRequest) (t : CapabilityToken) (bytes : string) : Prop := {
  ad_plugin : req_plugin_id r = man_plugin_id m /\ req_plugin_version r = man_plugin_version m;
  ad_operation : operation_type r ∈ allowed_operations m;
  ad_deadline : str_ltb now (deadline_at r) = true;
  ad_granted : granted t (plugin_request now m r);
  ad_capabilities : required_capabilities m ⊆ actions t;
  ad_egress : exists e, egress_class m = egress_value e /\
    if decide (e = EGRESS_NONE) then req_payload r = []
    else (Z.of_nat (rank (req_sensitivity r)) <= egress_rank e)%Z;
  ad_bytes : request_bytes r = Ok bytes;
  ad_size : exists n, positive (max_request_bytes m) n /\ (N.of_nat (String.length bytes) <= n)%N;
}.

Lemma limit_of_ok v n : limit_of v = Ok n <-> positive v n.
Proof.
  unfold limit_of, positive. rewrite bind_ok. setoid_rewrite map_err_ok. split.
  - intros ([s k] & Hs & [= <-]). pose proof Hs as ([= <-] & _)%positive_integer_ok. done.
  - intros Hn. by exists (v, n).
Qed.

Lemma sensitivity_egress s : exists e, egress_of (sensitivity_value s) = Some e /\ egress_rank e = Z.of_nat (rank s).
Proof. destruct s; eexists; split; reflexivity. Qed.

Lemma forallb_subset (l l' : list string) : forallb (fun c => str_mem c l') l = true <-> l ⊆ l'.
Proof.
  rewrite forallb_forall. setoid_rewrite str_mem_spec. setoid_rewrite <- list_elem_of_In. done.
Qed.

Lemma before_quota_ok m r t bytes :
  manifest_valid m -> before_quota now m r t = Ok bytes <-> admitted m r t bytes.
Proof.
  intros Hm. destruct (mv_egress _ Hm) as [e He]. destruct (mv_request _ Hm) as [n Hn].
  destruct (sensitivity_egress (req_sensitivity r)) as (lv & Hlv & Hrank).
  unfold before_quota. rewrite He, egress_of_value, Hlv, (proj2 (limit_of_ok _ _) Hn).
  cbn [of_option mbind result_bind]. repeat setoid_rewrite bind_ok. repeat setoid_rewrite ensure_ok.
  setoid_rewrite map_err_ok. split.
  - intros (_ & H1 & _ & H2 & _ & H3 & _ & H4 & _ & H5 & _ & H6 & _ & H7 & b & Hb & _ & H8 & [= ->]).
    apply andb_true_iff in H1 as [H1 H1']. apply String.eqb_eq in H1, H1'. apply str_mem_spec in H2.
    apply authorize_granted in H4. apply forallb_subset in H5.
    apply negb_true_iff in H6, H7, H8. apply N.ltb_ge in H8. split; try done.
    + exists e. split; [done|]. destruct (decide (e = EGRESS_NONE)) as [->|Hne].
      * destruct (req_payload r); [done|]. discriminate H6.
      * rewrite (bool_decide_eq_true_2 _ Hne) in H7. apply Z.ltb_ge in H7. lia.
    + by exists n.
  - intros [[A1 A2] A3 A4 A5 A6 (e' & Ee & A7) A8 (n' & Hn' & A9)].
    assert (e' = e) as -> by (rewrite He in Ee; by destruct e, e'). assert (n' = n) as -> by (unfold positive in *; congruence).
    exists tt. split; [by rewrite A1, A2, !String.eqb_refl|]. exists tt. split; [by apply str_mem_spec|].
    exists tt. split; [done|]. exists tt. split; [by apply authorize_granted|]. exists tt. split; [by apply forallb_subset|].
    destruct (decide (e = EGRESS_NONE)) as [->|Hne].
    + exists tt. rewrite A7. split; [done|]. exists tt. split; [done|]. exists bytes. split; [done|].
      exists tt. split; [by apply negb_true_iff, N.ltb_ge | done].
    + exists tt. rewrite (bool_decide_eq_false_2 _ Hne). split; [done|]. exists tt. rewrite (bool_decide_eq_true_2 _ Hne).
      split; [apply negb_true_iff, Z.ltb_ge; lia|]. exists bytes. split; [done|].
      exists tt. split; [by apply negb_true_iff, N.ltb_ge | done].
Qed.

Lemma request_bytes_ok r : stored (req_payload r) -> exists bytes, request_bytes r = Ok bytes.
Proof.
  intros Hp. unfold request_bytes. rewrite contract_bytes_dicts
    by (unfold request_to_mapping, py_record; cbn -[of_json]; by rewrite of_json_map_free).
  assert (Ht : tuple_free (py_record (request_to_mapping r)) = true).
  { unfold request_to_mapping, py_record. cbn -[of_json]. by rewrite of_json_tuple_free. }
  unfold stored in Hp. rewrite (normalize_agrees (of_json (JObj (req_payload r)))), of_json_tuple_free, as_dicts_id in Hp by apply of_json_map_free.
  destruct (normalize (of_json (JObj (req_payload r)))) as [x|] eqn:Hx; [|done]. rewrite Ht.
  eassert (Hb : Canonical.canonical_bytes (py_record (request_to_mapping r)) = Ok _).
  { apply canonical_bytes_ok. eexists. split; [|reflexivity]. unfold request_to_mapping. norm_record_goal.
    rewrite Hx. reflexivity. }
  rewrite Hb. by eexists.
Qed.

Definition rejection (l : leave) : Prop := exists code, l = Rejected code.

Lemma reject_intro code : rejection (Rejected code).
Proof. by exists code. Qed.
Hint Resolve reject_intro : wiki.

(** Short of admission, the gateway rejects: nothing escapes as an exception. *)
Lemma before_quota_err m r t :
  manifest_valid m -> stored (req_payload r) -> errs rejection (before_quota now m r t).
Proof.
  intros Hm Hp. destruct (mv_egress _ Hm) as [e He]. destruct (mv_request _ Hm) as [n Hn].
  destruct (sensitivity_egress (req_sensitivity r)) as (lv & Hlv & _). destruct (request_bytes_ok r Hp) as [b Hb].
  unfold before_quota. rewrite He, egress_of_value, Hlv, (proj2 (limit_of_ok _ _) Hn), Hb. cbn [of_option map_err].
  repeat (apply errs_bind; [eauto with wiki | intros ? _]). eauto with wiki.
Qed.

(** A response the gateway accepts. *)
Record response_ok (m : PluginManifest) (r : PluginRequest) (raw : string) (output : list (string * json)) : Prop := {
  ro_size : exists n, positive (max_response_bytes m) n /\ (N.of_nat (String.length raw) <= n)%N;
  ro_body : exists kvs d, response_loads raw = Some (PDict kvs) /\ dict_items kvs = Some d /\
    keys_within d RESPONSE_FIELDS = true /\ has_keys d RESPONSE_FIELDS = true /\
    field d "plugin_response_version" = PStr PLUGIN_RESPONSE_VERSION /\
    field d "request_id" = PStr (req_request_id r) /\ field d "plugin_id" = PStr (man_plugin_id m) /\
    field d "plugin_version" = PStr (man_plugin_version m) /\
    field d "output_schema_id" = PStr (output_schema_id m) /\
    match field d "output" with PDict _ => true | _ => false end = true /\ _normalize (field d "output") = Ok (JObj output);
  ro_valid : output_validate (output_schema_id m) output = Some true;
}.

Lemma reload_object_ok key v ms :
  is_ascii key = true -> reload_object key v = Ok ms <-> _normalize v = Ok (JObj ms).
Proof.
  intros Hk. unfold reload_object. rewrite bind_ok. setoid_rewrite (reload_ok key v) ; [|done]. split.
  - intros (j & Hj & Hm). destruct j; try done. by injection Hm as ->.
  - intros Hj. by exists (JObj ms).
Qed.

Lemma check_response_ok m r o output :
  check_response m r o = Ok output <-> exists raw, o = RunBytes raw /\ response_ok m r raw output.
Proof.
  unfold check_response. split.
  - intros H1. apply bind_ok in H1 as (raw & Ho & H1). destruct o; try discriminate Ho. injection Ho as ->.
    exists raw. split; [done|]. apply bind_ok in H1 as (n & Hn%limit_of_ok & H1).
    apply bind_ok in H1 as (? & Hs%ensure_ok & H1). apply bind_ok in H1 as (kvs & Hk & H1).
    apply bind_ok in H1 as (d & Hd & H1). apply bind_ok in H1 as (? & Hf%ensure_ok & H1).
    apply bind_ok in H1 as (? & Hv%ensure_ok & H1). apply bind_ok in H1 as (? & Hb%ensure_ok & H1).
    apply bind_ok in H1 as (? & Hob%ensure_ok & H1). apply bind_ok in H1 as (out & Hout%reraise_ok & H1).
    apply bind_ok in H1 as (v & Hval & H1). apply bind_ok in H1 as (? & Hv2%ensure_ok & [= <-]). subst v.
    apply reload_object_ok in Hout; [|done]. split_and_bool. rewrite py_str_eqb_ok in *.
    split; [exists n; split; [done | by apply N.ltb_ge] | | by destruct (output_validate _ _); cbn in Hval; congruence].
    exists kvs, d. destruct (response_loads raw) as [[]|]; try discriminate Hk. injection Hk as ->.
    split; [done|]. split; [by destruct (dict_items kvs); cbn in Hd; congruence|]. done.
  - intros (raw & -> & [(n & Hn & Hs) (kvs & d & Hl & Hd & Hk1 & Hk2 & Hv & B1 & B2 & B3 & B4 & Hob & Hout) Hval]).
    cbn [mbind result_bind]. rewrite (proj2 (limit_of_ok _ _) Hn). cbn [mbind result_bind].
    rewrite (proj2 (N.ltb_ge _ _) Hs). cbn [negb ensure mbind result_bind]. rewrite Hl.
    cbn [option_bind of_option mbind result_bind]. rewrite Hd. cbn [of_option mbind result_bind].
    rewrite Hk1, Hk2. cbn [andb ensure mbind result_bind].
    rewrite (proj2 (py_str_eqb_ok _ _) Hv), (proj2 (py_str_eqb_ok _ _) B1), (proj2 (py_str_eqb_ok _ _) B2),
      (proj2 (py_str_eqb_ok _ _) B3), (proj2 (py_str_eqb_ok _ _) B4). cbn [andb ensure mbind result_bind].
    rewrite Hob.
    rewrite (proj2 (reload_object_ok "output" _ output eq_refl) Hout). cbn [ensure reraise mbind result_bind].
    by rewrite Hval.
Qed.
End GatewayLemmas.

(** ** Properties *)
Section PluginProperties.
Context {U : Unicode} {D : Digest} {R : JsonReader}.

(** A plugin manifest is its content.  Every manifest the constructors accept has the
    supported version, the out-of-process runner mode, sorted names without repetition,
    positive limits and a timeout of at most 120000 ms, and its identifier is the digest of
    the rest; it survives serialization; and two accepted manifests with one identifier
    agree on every field up to NFC, or the bytes hashed for the two identifiers collide. *)
Theorem plugin_manifest_identity :
  (forall data m, manifest_from_mapping data = Ok m -> manifest_valid m) /\
  (forall args m, manifest_create args = Ok m -> manifest_valid m) /\
  (forall m, manifest_valid m -> manifest_from_mapping (manifest_to_mapping m) = Ok m) /\
  (forall m m', manifest_valid m -> manifest_valid m' -> manifest_id m = manifest_id m' ->
     same_manifest m m' \/
     collision (preimage (py_record (manifest_identity m)) ++ preimage (py_record (manifest_identity m')))).
Proof.
  split; [|split; [apply plugin_manifest_create_ok | split; [apply manifest_reparse|]]].
  - intros data m. unfold manifest_from_mapping. intros H. do 4 apply bind_ok in H as (? & _ & H).
    by apply manifest_post_init_ok in H.
  - intros m m' Hm Hm'. by apply manifest_id_inj; apply mv_id.
Qed.

Context {Q : Type} `{QuotaLaws Q} {W : Type} {P : PluginPorts W}.

Lemma rejected_result r l : rejection l -> exists x code, leave_with r l = Ok x /\
  inv_status x = "rejected" /\ inv_output x = [] /\ inv_error_code x = Some code.
Proof. intros [code ->]. by eexists _, code. Qed.

Lemma ok_result r output : stored output -> exists x b, plugin_result r "ok" None output = Ok x /\
  inv_status x = "ok" /\ inv_output x = output /\
  canonical_bytes (py_record [("output", of_json (JObj output))]) = Ok b /\ inv_output_digest x = Some (sha256_hex b).
Proof.
  intros Hs. unfold plugin_result.
  assert (exists b, canonical_bytes (py_record [("output", of_json (JObj output))]) = Ok b) as [b Hb].
  { unfold canonical_bytes, py_record. cbn [map fst snd]. rewrite contract_dict. cbn [contract_entries str_in_keys existsb map].
    unfold stored in Hs. rewrite Hs. by eexists. }
  rewrite String.eqb_refl, Hb. cbn [map_err mbind result_bind]. by eexists _, b.
Qed.

Lemma not_ok_result r l x : leave_with r l = Ok x -> inv_status x <> "ok".
Proof. destruct l; cbn; by intros [= <-]. Qed.

(** The gateway runs a plugin only for an admitted request within its quota.  Admitted
    means: made for this plugin and version, an allowed operation, before its deadline,
    granted by the token at the request's sensitivity, with every required capability, not
    above the manifest's egress class (no payload at all for class none) and not oversized.
    Then the runner runs once on the request's bytes with the manifest's timeout, the call is
    counted, within the limit; and the answer is "ok", with exactly the checked output and
    its digest, just when the response has an acceptable size, the expected fields and
    bindings, and an output the validator accepts.  Any other request is rejected without
    output, without running anything and without using quota. *)
Theorem plugin_runs_only_admitted now m r t q (w : W) q' w' res :
  manifest_valid m -> stored (req_payload r) -> invoke now m r t (q, w) = ((q', w'), res) ->
  (forall bytes calls timeout,
     admitted now m r t bytes -> positive (max_calls_per_operation m) calls -> positive (timeout_ms m) timeout ->
     (used q (key_of m r) < calls)%N ->
     w' = (runner_invoke m bytes timeout w).1 /\
     used q' (key_of m r) = (used q (key_of m r) + 1)%N /\ (used q' (key_of m r) <= calls)%N /\
     forall output,
       (exists x b, res = Ok x /\ inv_status x = "ok" /\ inv_output x = output /\
          canonical_bytes (py_record [("output", of_json (JObj output))]) = Ok b /\
          inv_output_digest x = Some (sha256_hex b)) <->
       (exists raw, (runner_invoke m bytes timeout w).2 = RunBytes raw /\ response_ok m r raw output)) /\
  ((forall bytes calls, admitted now m r t bytes -> positive (max_calls_per_operation m) calls ->
      (calls <= used q (key_of m r))%N) ->
   w' = w /\ (forall k, used q' k = used q k) /\
   exists x code, res = Ok x /\ inv_status x = "rejected" /\ inv_output x = [] /\ inv_error_code x = Some code) /\
  (forall k, k <> key_of m r -> used q' k = used q k).
Proof.
  intros Hm Hp. unfold invoke. destruct (mv_calls _ Hm) as [n Hn]. destruct (mv_timeout _ Hm) as (tm & Htm & Hb).
  pose proof (consume_counts (key_of m r) n q) as Hcount. pose proof (consume_granted (key_of m r) n q) as Hgrant.
  destruct (before_quota now m r t) as [bytes|l] eqn:Eb.
  2:{ intros [= <- <- <-]. pose proof (before_quota_err now m r t Hm Hp l Eb) as Hl. split; [|split; [|done]].
      - intros bytes calls timeout Ha%before_quota_ok; [congruence | done].
      - intros _. split; [done|]. split; [done|]. by apply rejected_result. }
  apply before_quota_ok in Eb as Ha; [|done]. rewrite (proj2 (limit_of_ok _ _) Hn).
  destruct (consume (key_of m r) n q) as [q2 g]. cbn [fst snd] in Hcount, Hgrant. subst g.
  rewrite (positive_again _ tm) by (done || (intros k [= <-]; lia)).
  assert (Hothers : forall k, k <> key_of m r -> used q2 k = used q k)
    by (intros k Hk; by rewrite Hcount, bool_decide_eq_false_2).
  destruct (N.ltb_spec (used q (key_of m r)) n) as [Hlt|Hge].
  - destruct (runner_invoke m bytes tm w) as [w2 o] eqn:Er. intros Hi.
    assert (Hst : q' = q2 /\ w' = w2) by (destruct (check_response m r o); by injection Hi as <- <- <-).
    destruct Hst as [-> ->]. split; [|split; [|done]].
    + intros bytes' calls timeout Ha' Hc Ht _. unfold positive in *.
      assert (bytes' = bytes) as -> by (destruct Ha, Ha'; congruence). assert (timeout = tm) as -> by congruence.
      assert (calls = n) as -> by congruence. rewrite Er, Hcount, bool_decide_eq_true_2 by done. cbn [andb fst snd].
      split; [done|]. split; [done|]. split; [lia|]. intros output.
      rewrite <- check_response_ok. destruct (check_response m r o) as [out|l] eqn:Ech.
      * injection Hi as <-. apply check_response_ok in Ech as (raw & _ & [_ (kvs & d & _ & _ & _ & _ & _ & _ & _ & _ & _ & _ & Hout) _]).
        destruct (ok_result r out (contract_normalize_idem _ _ Hout)) as (x & b & Hx & H1 & H2 & H3 & H4). split.
        -- intros (x' & b' & Hx' & _ & <- & _). congruence.
        -- intros [= <-]. by exists x, b.
      * split; [|done]. intros (x & b & Hx & Hs & _). injection Hi as <-. by destruct (not_ok_result _ _ _ Hx).
    + intros Hno. specialize (Hno _ _ Ha Hn). lia.
  - intros [= <- <- <-]. split; [|split; [|done]].
    + intros bytes' calls timeout _ Hc _ Hlt. unfold positive in *. assert (calls = n) as -> by congruence. lia.
    + intros _. split; [done|]. split; [|exact (rejected_result r _ (reject_intro "plugin_quota_exceeded"))]. intros k. by rewrite Hcount, andb_false_r.
Qed.
End PluginProperties.

(** ** Evaluations *)

Definition sample_args : PluginManifest :=
  {| plugin_schema_version := ""; manifest_id := ""; man_plugin_id := "p"; man_plugin_version := "1";
     runner_mode := "out_of_process"; allowed_operations := ["sum"; "list"]; required_capabilities := ["plugin.invoke:p"];
     egress_class := "internal"; max_request_bytes := "4000"; max_response_bytes := "1000"; timeout_ms := "50";
     max_calls_per_operation := "2"; output_schema_id := "s" |}.

Definition sample_manifest : PluginManifest :=
  match manifest_create (U := unicode_sample) (D := pad_digest) sample_args with Ok m => m | Err _ => sample_args end.

Definition sample_run : PluginRequest :=
  {| req_version := PLUGIN_REQUEST_VERSION; req_request_id := "r"; req_plugin_id := "p"; req_plugin_version := "1";
     req_workspace_id := "ws"; req_actor_id := "alice"; operation_id := "o"; operation_type := "sum";
     capability_token_ref := "t"; req_sensitivity := INTERNAL; deadline_at := "2027"; req_correlation_id := "c";
     req_payload := [("x", JStr "y")] |}.

Definition plugin_token : CapabilityToken :=
  {| token_id := "t"; token_workspace_id := "ws"; token_actor_id := "alice";
     actions := ["plugin.invoke:p"]; max_sensitivity := INTERNAL; expires_at := "2027" |}.

(** A runner that counts its runs and answers with the output [{"z": "1"}]. *)
Definition sample_answer : list (string * json) :=
  [("output", JObj [("z", JStr "1")]); ("output_schema_id", JStr "s"); ("plugin_id", JStr "p");
   ("plugin_response_version", JStr PLUGIN_RESPONSE_VERSION); ("plugin_version", JStr "1"); ("request_id", JStr "r")].

Definition sample_ports : PluginPorts nat :=
  {| runner_invoke := fun _ _ _ w => (S w, RunBytes (json_dumps (JObj sample_answer)));
     output_validate := memory_validate {[ "s" := fun _ => Some true ]};
     response_loads := fun raw => of_json <$> json_loads (JsonReader := canonical_reader) raw |}.

Definition sample_invoke (q : InMemoryPluginQuotaStore) (w : nat) :=
  invoke (U := unicode_sample) (D := pad_digest) (R := canonical_reader) (P := sample_ports) "2026"
    sample_manifest sample_run plugin_token (q, w).
Definition sample_quota : InMemoryPluginQuotaStore := (sample_invoke ∅ 0).1.1.

(** Two calls are answered, the third is over the limit. *)
Example sample_calls :
  (match (sample_invoke ∅ 0).2 with Ok x => inv_output x | Err _ => [] end) = [("z", JStr "1")] /\
  (match sample_invoke (sample_invoke sample_quota 1).1.1 2 with
   | ((_, w), Ok x) => (w, inv_error_code x) | _ => (0, None) end) = (2, Some "plugin_quota_exceeded").
Proof. vm_compute. done. Qed.

Lemma sample_manifest_ok : manifest_valid (U := unicode_sample) (D := pad_digest) sample_manifest.
Proof. apply (plugin_manifest_create_ok (U := unicode_sample) (D := pad_digest) sample_args). vm_compute. reflexivity. Qed.

Lemma plugin_manifest_identity_witness :
  manifest_from_mapping (U := unicode_sample) (D := pad_digest) (manifest_to_mapping sample_manifest) = Ok sample_manifest.
Proof. apply (plugin_manifest_identity (U := unicode_sample) (D := pad_digest)). exact sample_manifest_ok. Defined.

Lemma plugin_runs_only_admitted_witness :
  (sample_invoke ∅ 0).1.2 = 1%nat /\ used sample_quota ("ws", "o", "p") = 1%N.
Proof.
  destruct (plugin_runs_only_admitted (U := unicode_sample) (D := pad_digest) (R := canonical_reader) (P := sample_ports)
    "2026" sample_manifest sample_run plugin_token ∅ 0 (sample_invoke ∅ 0).1.1 (sample_invoke ∅ 0).1.2
    (sample_invoke ∅ 0).2 sample_manifest_ok ltac:(vm_compute; reflexivity) ltac:(vm_compute; reflexivity)) as (H & _ & _).
  destruct (before_quota (U := unicode_sample) "2026" sample_manifest sample_run plugin_token) as [bytes|l] eqn:E;
    [|vm_compute in E; discriminate E].
  destruct (H bytes 2%N 50%N) as (Hw & Hq & _).
  - exact (proj1 (before_quota_ok _ _ _ _ _ sample_manifest_ok) E).
  - reflexivity.
  - reflexivity.
  - reflexivity.
  - split; [exact Hw|]. exact Hq.
Defined.
