(* ===== verification/LedgerGraph.v ===== *)
(** * The graphs of the ledger (infrastructure/second_brain_ledger.py)

    The two graph algorithms of the ledger on their own: the breadth-first search that
    refuses a cycle of support edges ([_reachable]), and the paging of the visible
    candidates by whole connected components ([_page_components]) with its union-find. *)
From S2P Require Import Prelude.
Open Scope string_scope.

(** An edge from a candidate to a candidate. *)
Definition edge : Type := string * string.

(** [SELECT to_candidate_ref ... WHERE from_candidate_ref=?] *)
Definition targets (edges : list edge) (node : string) : list string :=
  map snd (List.filter (fun e => String.eqb e.1 node) edges).

(** ** _reachable *)

(** One turn of [while queue] per unit of fuel; [None] when the fuel is spent. *)
Fixpoint reachable_loop (edges : list edge) (target : string) (fuel : nat) (seen : gset string) (queue : list string)
    : option bool :=
  match fuel with
  | O => None
  | S fuel =>
      match queue with
      | [] => Some false
      | node :: queue =>
          if String.eqb node target then Some true
          else if bool_decide (node ∈ seen) then reachable_loop edges target fuel seen queue
          else reachable_loop edges target fuel ({[node]} ∪ seen) (queue ++ targets edges node)%list
      end
  end.

(** Every node of the queue comes from [start] or from an edge of a node seen for the
    first time. *)
Definition reachable_fuel (edges : list edge) : nat := length edges + 2.

Definition _reachable (edges : list edge) (start target : string) : option bool :=
  reachable_loop edges target (reachable_fuel edges) ∅ [start].

(** ** _page_components *)

(** [find]: the root of [node], halving the path to it. *)
Fixpoint uf_find (fuel : nat) (parent : gmap string string) (node : string) : option (gmap string string * string) :=
  match fuel with
  | O => None
  | S fuel =>
      up ← parent !! node;
      if String.eqb up node then Some (parent, node)
      else above ← parent !! up;
           uf_find fuel (<[node := above]> parent) above
  end.

Section Pages.
Context (fuel : nat).

Definition uf_union (parent : gmap string string) (left right : string) : option (gmap string string) :=
  '(parent, root_left) ← uf_find fuel parent left;
  '(parent, root_right) ← uf_find fuel parent right;
  Some (if String.eqb root_left root_right then parent else <[root_left := root_right]> parent).

(** [for source, target in ...: if source in refs and target in refs: union(...)] *)
Fixpoint union_edges (refs : list string) (parent : gmap string string) (edges : list edge)
    : option (gmap string string) :=
  match edges with
  | [] => Some parent
  | (source, target) :: edges =>
      if str_mem source refs && str_mem target refs
      then parent ← uf_union parent source target; union_edges refs parent edges
      else union_edges refs parent edges
  end.

(** [groups.setdefault(find(candidate_ref), []).append(candidate_ref)] *)
Definition group_append (root candidate : string) (groups : list (string * list string)) : list (string * list string) :=
  assoc_set root (default [] (assoc root groups) ++ [candidate])%list groups.

Fixpoint group_refs (parent : gmap string string) (refs : list string) (groups : list (string * list string))
    : option (list (string * list string)) :=
  match refs with
  | [] => Some groups
  | candidate :: refs =>
      '(parent, root) ← uf_find fuel parent candidate;
      group_refs parent refs (group_append root candidate groups)
  end.
End Pages.

(** [members[0]] *)
Definition head_ref (members : list string) : string := hd "" members.

(** The components of all the visible candidates, ordered by their least member. *)
Definition components (refs : list string) (edges : list edge) : option (list (list string)) :=
  let fuel := S (length refs) in
  parent ← union_edges fuel refs (list_to_map (map (fun r => (r, r)) refs)) edges;
  groups ← group_refs fuel parent refs [];
  Some (sort_on head_ref (map (fun g => sort_str g.2) groups)).

(** The loop that emits components: what is displayed, how many components and the least
    member of the last. *)
Fixpoint emit (page_size total : nat) (components : list (list string)) (displayed : list string)
    (emitted : nat) (last_min : option string) : list string * nat * option string :=
  match components with
  | [] => (displayed, emitted, last_min)
  | component :: components =>
      if (0 <? emitted)%nat && (page_size <? total + length component)%nat then (displayed, emitted, last_min)
      else emit page_size (total + length component) components (displayed ++ component)%list (S emitted)
             (Some (head_ref component))
  end.

Record page : Type := { displayed : list string; has_more : bool; last_component_min : option string }.

Definition page_of (components : list (list string)) (resume_after : string) (page_size : nat) : page :=
  let remaining := List.filter (fun c => str_ltb resume_after (head_ref c)) components in
  let '(shown, emitted, last_min) := emit page_size 0 remaining [] 0 None in
  {| displayed := shown; has_more := (emitted <? length remaining)%nat; last_component_min := last_min |}.

(** A set of candidates is enumerated as [elements] does; the result does not depend on
    the order ([components_spec]). *)
Definition _page_components (candidate_refs : list string) (support_edges conflict_edges : list edge)
    (resume_after : string) (page_size : nat) : option page :=
  let refs := elements (list_to_set candidate_refs : gset string) in
  components ← components refs (support_edges ++ conflict_edges);
  Some (page_of components resume_after page_size).

Example two_pages :
  _page_components ["d"; "a"; "c"; "b"; "a"] [("d", "a")] [("b", "x")] "" 2 =
  Some {| displayed := ["a"; "d"]; has_more := true; last_component_min := Some "a" |} /\
  _page_components ["d"; "a"; "c"; "b"] [("d", "a")] [] "a" 2 =
  Some {| displayed := ["b"; "c"]; has_more := false; last_component_min := Some "c" |}.
Proof. split; vm_compute; reflexivity. Qed.

Example cycle_found : _reachable [("a", "b"); ("b", "c"); ("c", "a")] "a" "d" = Some false /\
  _reachable [("a", "b"); ("b", "c")] "a" "c" = Some true.
Proof. split; vm_compute; reflexivity. Qed.

(** ** The search decides reachability *)

Definition linked (edges : list edge) (x y : string) : Prop := (x, y) ∈ edges.

Lemma targets_elem edges x y : y ∈ targets edges x <-> linked edges x y.
Proof.
  unfold targets, linked. rewrite list_elem_of_fmap. setoid_rewrite list_elem_of_In. split.
  - intros ([a b] & -> & [Hin E%String.eqb_eq]%filter_In). by cbn in E; subst.
  - intros H. exists (x, y). rewrite filter_In, String.eqb_eq. done.
Qed.

(** The edges whose source has not been seen. *)
Definition unseen (edges : list edge) (seen : gset string) : nat :=
  length (List.filter (fun e => negb (bool_decide (e.1 ∈ seen))) edges).

Lemma unseen_expand edges seen x : x ∉ seen ->
  unseen edges ({[x]} ∪ seen) + length (targets edges x) = unseen edges seen.
Proof.
  intros Hx. unfold unseen, targets. induction edges as [|[a b] edges IH]; [done|]. cbn [List.filter fst].
  destruct (String.eqb_spec a x) as [->|Hne].
  - rewrite (bool_decide_false (x ∈ seen)), bool_decide_true by set_solver. cbn. cbn in IH. lia.
  - destruct (decide (a ∈ seen)); [rewrite !bool_decide_true by set_solver | rewrite !bool_decide_false by set_solver];
      cbn; cbn in IH; lia.
Qed.

Record search (edges : list edge) (start target : string) (seen : gset string) (queue : list string) : Prop := {
  search_from : forall x, x ∈ seen \/ x ∈ queue -> rtc (linked edges) start x;
  search_closed : forall x y, x ∈ seen -> linked edges x y -> y ∈ seen \/ y ∈ queue;
  search_start : start ∈ seen \/ start ∈ queue;
  search_target : target ∉ seen;
}.

(** What is closed under edges is closed under paths. *)
Lemma closed_path edges (X : gset string) x y : (forall x y, x ∈ X -> linked edges x y -> y ∈ X) ->
  rtc (linked edges) x y -> x ∈ X -> y ∈ X.
Proof. intros Hc. induction 1 as [|x y z Hxy _ IH]; eauto. Qed.

Lemma reachable_loop_decides edges start target fuel seen queue :
  length queue + unseen edges seen < fuel -> search edges start target seen queue ->
  exists b, reachable_loop edges target fuel seen queue = Some b /\ (b = true <-> rtc (linked edges) start target).
Proof.
  revert seen queue. induction fuel as [|fuel IH]; intros seen queue Hf [Hr Hc Hs Ht]; [lia|].
  destruct queue as [|node queue]; cbn [reachable_loop].
  - exists false. split; [done|]. split; [done|]. intros Hrt. exfalso.
    destruct Hs as [Hs|Hs]; [|set_solver]. apply Ht, (closed_path edges seen start); [|done|done].
    intros x y Hx Hxy. destruct (Hc _ _ Hx Hxy); [done | set_solver].
  - destruct (String.eqb_spec node target) as [->|Hne].
    + exists true. split; [done|]. split; [|done]. intros _. apply Hr. right. set_solver.
    + cbn [length] in Hf. case_bool_decide as Hd.
      * apply IH; [lia|]. split; [set_solver | intros x y Hx Hl; destruct (Hc x y Hx Hl); set_solver | set_solver | done].
      * apply IH; [rewrite length_app; pose proof (unseen_expand edges seen node Hd); lia|]. split.
        -- intros x Hx. rewrite elem_of_app, targets_elem in Hx.
           assert (Hn : rtc (linked edges) start node) by (apply Hr; set_solver).
           destruct Hx as [Hx|[Hx|Hx]]; [|set_solver | by eapply rtc_r].
           apply elem_of_union in Hx as [->%elem_of_singleton|Hx]; [done | auto].
        -- intros x y Hx Hl. rewrite elem_of_app, targets_elem.
           apply elem_of_union in Hx as [->%elem_of_singleton|Hx]; [auto|]. destruct (Hc x y Hx Hl); set_solver.
        -- set_solver.
        -- set_solver.
Qed.

Lemma unseen_empty edges : unseen edges ∅ = length edges.
Proof.
  unfold unseen. induction edges as [|e edges IH]; [done|]. cbn [List.filter].
  rewrite bool_decide_false by set_solver. cbn [negb length]. by rewrite IH.
Qed.

(** The search ends within its fuel and finds exactly the nodes that a path of edges reaches. *)
Lemma reachable_decides edges start target :
  exists b, _reachable edges start target = Some b /\ (b = true <-> rtc (linked edges) start target).
Proof.
  apply (reachable_loop_decides edges start).
  - unfold reachable_fuel. rewrite unseen_empty. cbn. lia.
  - split; [|set_solver..]. intros x [Hx|Hx]; [set_solver|]. apply list_elem_of_singleton in Hx as ->. done.
Qed.

(** Adding an edge between nodes that no path joins backwards closes no cycle. *)
Definition acyclic (edges : list edge) : Prop := forall x y, linked edges x y -> ~ rtc (linked edges) y x.

Lemma linked_app edges a b x y : linked (edges ++ [(a, b)]) x y <-> linked edges x y \/ (x = a /\ y = b).
Proof. unfold linked. rewrite elem_of_app, list_elem_of_singleton. naive_solver. Qed.

Lemma rtc_linked_app edges a b x y : rtc (linked (edges ++ [(a, b)])) x y ->
  rtc (linked edges) x y \/ (rtc (linked edges) x a /\ rtc (linked (edges ++ [(a, b)])) b y).
Proof.
  induction 1 as [x|x y z Hxy Hyz IH]; [by left|]. apply linked_app in Hxy as [Hxy|[-> ->]]; [|by right].
  destruct IH as [IH|[IH1 IH2]]; [left; by eapply rtc_l | right; split; [by eapply rtc_l | done]].
Qed.

Lemma rtc_linked_last edges a b y : ~ rtc (linked edges) b a ->
  rtc (linked (edges ++ [(a, b)])) b y -> rtc (linked edges) b y.
Proof.
  intros Hn. revert y. apply rtc_ind_r; [done|]. intros y z _ Hyz IH.
  apply linked_app in Hyz as [Hyz|[-> ->]]; [by eapply rtc_r | done].
Qed.

Lemma acyclic_app edges a b : acyclic edges -> ~ rtc (linked edges) b a -> acyclic (edges ++ [(a, b)]).
Proof.
  intros Hac Hn x y [Hxy|[-> ->]]%linked_app Hyx.
  - apply rtc_linked_app in Hyx as [Hyx|[Hya Hbx%rtc_linked_last]]; [by eapply Hac | | done].
    apply Hn. etrans; [exact Hbx|]. by eapply rtc_l.
  - by apply rtc_linked_last in Hyx.
Qed.

(** ** Union-find *)

(** [chain parent x r n]: following parents, [x] reaches the root [r] in [n] steps. *)
Inductive chain (parent : gmap string string) : string -> string -> nat -> Prop :=
| chain_root r : parent !! r = Some r -> chain parent r r 0
| chain_step x y r n : parent !! x = Some y -> x <> y -> chain parent y r n -> chain parent x r (S n).

Definition root_of (parent : gmap string string) (x r : string) : Prop := exists n, chain parent x r n.

(** Exactly the nodes have parents, and every node has a root. *)
Record forest (refs : list string) (parent : gmap string string) : Prop := {
  forest_dom : forall x, is_Some (parent !! x) -> x ∈ refs;
  forest_root : forall x, x ∈ refs -> exists r, root_of parent x r;
}.

Lemma chain_det parent x r n r' n' : chain parent x r n -> chain parent x r' n' -> r = r' /\ n = n'.
Proof.
  intros H. revert r' n'. induction H as [r Hr|x y r n Hx Hne _ IH]; intros r' n' H'; inversion H'; subst; try congruence; [done|].
  simplify_eq. destruct (IH r' n0) as [-> ->]; done.
Qed.

Lemma root_det parent x r r' : root_of parent x r -> root_of parent x r' -> r = r'.
Proof. intros [n H] [n' H']. by destruct (chain_det _ _ _ _ _ _ H H'). Qed.

Lemma chain_end parent x r n : chain parent x r n -> parent !! r = Some r.
Proof. by induction 1. Qed.

(** A path visits each node once, so it is no longer than there are nodes. *)
Lemma chain_bound refs parent x r n : forest refs parent -> chain parent x r n -> n < length refs.
Proof.
  intros Hf H.
  assert (Hp : exists l, length l = S n /\ NoDup l /\ (forall y, y ∈ l -> y ∈ refs /\ exists m, m <= n /\ chain parent y r m)).
  { induction H as [r Hr|x y r n Hx Hne H (l & Hl & Hnd & Hin)].
    - exists [r]. repeat split; [apply NoDup_singleton|..]; apply list_elem_of_singleton in H as ->;
        [by apply (forest_dom _ _ Hf); exists r | exists 0; split; [lia | by constructor]].
    - exists (x :: l). repeat split; [cbn; lia | |..].
      + apply list.NoDup_cons. split; [|done]. intros Hxl. destruct (Hin x Hxl) as [_ (m & Hm & Hc)].
        destruct (chain_det _ _ _ _ _ _ Hc (chain_step _ _ _ _ _ Hx Hne H)) as [_ ?]. lia.
      + apply elem_of_cons in H0 as [->|Hy]; [by apply (forest_dom _ _ Hf); exists y | by apply Hin].
      + apply elem_of_cons in H0 as [->|Hy]; [exists (S n); split; [lia | by econstructor]|].
        destruct (Hin _ Hy) as [_ (m & ? & ?)]. exists m. split; [lia | done]. }
  destruct Hp as (l & Hl & Hnd & Hin).
  assert (length l <= length refs); [|lia]. apply submseteq_length, NoDup_submseteq; [done|]. intros y Hy. by apply Hin.
Qed.

(** Halving a path keeps every root. *)
Lemma chain_halve parent x y z w r n :
  parent !! x = Some y -> x <> y -> parent !! y = Some z ->
  chain parent w r n -> exists m, m <= n /\ chain (<[x := z]> parent) w r m.
Proof.
  intros Hx Hne Hy. revert w r. induction (lt_wf n) as [n _ IH]. intros w r H.
  inversion H as [? Hr|? u ? k Hw Hwu Hu]; subst.
  - exists 0. split; [lia|]. constructor. rewrite lookup_insert_ne; [done|]. congruence.
  - destruct (decide (w = x)) as [->|Hwx].
    + simplify_eq. inversion Hu as [? Hr|? u' ? k' Hy' Hne' Hu']; subst; simplify_eq.
      * exists 1. split; [lia|]. econstructor; [by rewrite lookup_insert_eq | done |].
        constructor. by rewrite lookup_insert_ne.
      * destruct (IH k' ltac:(lia) _ _ Hu') as (m & Hm & Hc). exists (S m). split; [lia|].
        econstructor; [by rewrite lookup_insert_eq | | exact Hc].
        intros ->. destruct (chain_det _ _ _ _ _ _ H Hu'). lia.
    + destruct (IH k ltac:(lia) _ _ Hu) as (m & Hm & Hc). exists (S m). split; [lia|].
      econstructor; [by rewrite lookup_insert_ne | done | exact Hc].
Qed.

Lemma chain_dom parent x r n : chain parent x r n -> is_Some (parent !! x).
Proof. by destruct 1; eexists. Qed.

Lemma halve_forest refs parent x y z : forest refs parent ->
  parent !! x = Some y -> x <> y -> parent !! y = Some z -> forest refs (<[x := z]> parent).
Proof.
  intros [Hd Hr] Hx Hne Hy. split.
  - intros w. destruct (decide (w = x)) as [->|]; [intros _; apply Hd; by eexists | rewrite lookup_insert_ne by done; apply Hd].
  - intros w Hw. destruct (Hr w Hw) as (r & n & Hc). destruct (chain_halve _ _ _ _ _ _ _ Hx Hne Hy Hc) as (m & _ & ?).
    by exists r, m.
Qed.

(** [find] returns the root and changes no root. *)
Lemma find_spec refs fuel parent x r n : forest refs parent -> chain parent x r n -> n < fuel ->
  exists parent', uf_find fuel parent x = Some (parent', r) /\ forest refs parent' /\
    forall w s, root_of parent w s -> root_of parent' w s.
Proof.
  revert parent x n. induction fuel as [|fuel IH]; intros parent x n Hf Hc Hn; [lia|]. cbn [uf_find].
  inversion Hc as [? Hx|? y ? k Hx Hne Hy]; subst; rewrite Hx; cbn [mbind option_bind].
  - rewrite String.eqb_refl. by exists parent.
  - destruct (String.eqb_spec y x) as [->|_]; [done|].
    destruct (chain_dom _ _ _ _ Hy) as [z Hz]. rewrite Hz; cbn [mbind option_bind].
    assert (Hzc : exists k', k' <= k /\ chain parent z r k').
    { inversion Hy as [? Hr|? u ? k' Hu Hne' Hc']; subst; simplify_eq; [exists 0; split; [lia | by constructor] | exists k'; split; [lia | done]]. }
    destruct Hzc as (k' & Hk & Hzc). destruct (chain_halve _ _ _ _ _ _ _ Hx Hne Hz Hzc) as (m & Hm & Hcm).
    destruct (IH (<[x := z]> parent) z m) as (parent' & E & Hf' & Hr'); [by eapply halve_forest | done | lia|].
    exists parent'. split; [done|]. split; [done|]. intros w s [l Hl]. apply Hr'.
    destruct (chain_halve _ _ _ _ _ _ _ Hx Hne Hz Hl) as (m' & _ & ?). by exists m'.
Qed.

Definition same (parent : gmap string string) (x y : string) : Prop := exists r, root_of parent x r /\ root_of parent y r.

Lemma same_end_sym parent x y : same parent x y -> same parent y x.
Proof. intros (r & ? & ?). by exists r. Qed.

Lemma same_trans parent x y z : same parent x y -> same parent y z -> same parent x z.
Proof. intros (r & Hx & Hy) (r' & Hy' & Hz). rewrite (root_det _ _ _ _ Hy Hy') in Hx. by exists r'. Qed.

Lemma same_refl refs parent x : forest refs parent -> x ∈ refs -> same parent x x.
Proof. intros Hf Hx. destruct (forest_root _ _ Hf x Hx) as [r Hr]. by exists r. Qed.

(** Linking one root below another moves exactly the nodes of the first. *)
Lemma chain_link parent a b x r n : parent !! a = Some a -> parent !! b = Some b -> a <> b -> chain parent x r n ->
  exists m, chain (<[a := b]> parent) x (if String.eqb r a then b else r) m.
Proof.
  intros Ha Hb Hne. induction 1 as [r Hr|x y r n Hx Hxy Hy [m IH]].
  - destruct (String.eqb_spec r a) as [->|Hra].
    + exists 1. econstructor; [by rewrite lookup_insert_eq | done |]. constructor. by rewrite lookup_insert_ne.
    + exists 0. constructor. by rewrite lookup_insert_ne.
  - exists (S m). econstructor; [rewrite lookup_insert_ne; [exact Hx|] | done | exact IH]. intros <-. congruence.
Qed.

Lemma union_spec refs fuel parent a b : forest refs parent -> length refs < fuel -> a ∈ refs -> b ∈ refs ->
  exists parent' ra rb, uf_union fuel parent a b = Some parent' /\ forest refs parent' /\
    root_of parent a ra /\ root_of parent b rb /\
    forall x r, root_of parent x r -> root_of parent' x (if String.eqb r ra then rb else r).
Proof.
  intros Hf Hl Ha Hb. destruct (forest_root _ _ Hf a Ha) as (ra & n & Hna), (forest_root _ _ Hf b Hb) as (rb & m & Hmb).
  pose proof (chain_bound _ _ _ _ _ Hf Hna) as Hn. unfold uf_union.
  destruct (find_spec refs fuel parent a ra n) as (p1 & -> & Hf1 & Hr1); [done..|lia|]. cbn [mbind option_bind].
  destruct (Hr1 b rb) as [m' Hm']; [by exists m|]. pose proof (chain_bound _ _ _ _ _ Hf1 Hm') as Hm.
  destruct (find_spec refs fuel p1 b rb m') as (p2 & -> & Hf2 & Hr2); [done..|lia|]. cbn [mbind option_bind].
  assert (Hra : root_of p2 a ra) by (apply Hr2, Hr1; by exists n).
  assert (Hrb : root_of p2 b rb) by (apply Hr2; by exists m').
  destruct Hra as [na Hna2], Hrb as [nb Hnb2]. pose proof (chain_end _ _ _ _ Hna2) as Ea. pose proof (chain_end _ _ _ _ Hnb2) as Eb.
  destruct (String.eqb_spec ra rb) as [->|Hne].
  - exists p2, rb, rb. repeat split; [apply Hf2 | apply Hf2 | by exists n | by exists m|].
    intros x r Hx. destruct (String.eqb_spec r rb) as [->|]; by apply Hr2, Hr1.
  - exists (<[ra := rb]> p2), ra, rb. split; [done|].
    assert (Hlink : forall x r, root_of parent x r -> root_of (<[ra := rb]> p2) x (if String.eqb r ra then rb else r)).
    { intros x r Hx. apply Hr1, Hr2 in Hx as [k Hk]. by apply (chain_link p2 ra rb x r k). }
    repeat split; [| |by exists n | by exists m | done].
    + intros x. destruct (decide (x = ra)) as [->|]; [intros _; apply (forest_dom _ _ Hf2); by eexists|].
      rewrite lookup_insert_ne by done. apply (forest_dom _ _ Hf2).
    + intros x Hx. destruct (forest_root _ _ Hf x Hx) as [r Hr]. eexists. by apply Hlink.
Qed.

Section UnionSame.
Context {refs : list string} {fuel : nat} (Hfuel : length refs < fuel).

(** A union joins the classes of its arguments and nothing else. *)
Lemma union_same parent a b : forest refs parent -> a ∈ refs -> b ∈ refs ->
  exists parent', uf_union fuel parent a b = Some parent' /\ forest refs parent' /\
    (forall x y, same parent x y -> same parent' x y) /\ same parent' a b /\
    forall J : relation string, Equivalence J -> (forall x y, same parent x y -> J x y) -> J a b ->
      forall x y, same parent' x y -> J x y.
Proof using Hfuel.
  intros Hf Ha Hb. destruct (union_spec refs fuel parent a b Hf Hfuel Ha Hb) as (p & ra & rb & E & Hf' & Hra & Hrb & Hroots).
  exists p. split; [done|]. split; [done|]. repeat split.
  - intros x y (r & Hx & Hy). eexists. by split; apply Hroots.
  - exists rb. pose proof (Hroots _ _ Hra) as H1. rewrite String.eqb_refl in H1. split; [done|].
    pose proof (Hroots _ _ Hrb) as H2. by destruct (String.eqb rb ra).
  - intros J HJ Hsub Hab x y (r & [n Hx] & [m Hy]).
    destruct (forest_root _ _ Hf x (forest_dom _ _ Hf' x (chain_dom _ _ _ _ Hx))) as [rx Hrx].
    destruct (forest_root _ _ Hf y (forest_dom _ _ Hf' y (chain_dom _ _ _ _ Hy))) as [ry Hry].
    pose proof (root_det _ _ _ _ (ex_intro _ n Hx) (Hroots _ _ Hrx)) as Ex.
    pose proof (root_det _ _ _ _ (ex_intro _ m Hy) (Hroots _ _ Hry)) as Ey. subst r.
    assert (Jx : rx = ra -> J x a) by (intros ->; apply Hsub; by exists ra).
    assert (Jy : ry = ra -> J y a) by (intros ->; apply Hsub; by exists ra).
    assert (Kx : rx = rb -> J x b) by (intros ->; apply Hsub; by exists rb).
    assert (Ky : ry = rb -> J y b) by (intros ->; apply Hsub; by exists rb).
    destruct (String.eqb_spec rx ra) as [Ex|], (String.eqb_spec ry ra) as [Ey'|].
    + etrans; [by apply Jx|]. symmetry. by apply Jy.
    + etrans; [by apply Jx|]. etrans; [exact Hab|]. symmetry. by apply Ky.
    + etrans; [by apply Kx|]. etrans; [symmetry; exact Hab|]. symmetry. by apply Jy.
    + subst. apply Hsub. by exists ry.
Qed.

(** The edges between two of the nodes. *)
Definition visible (edges : list edge) : list edge :=
  List.filter (fun e => str_mem e.1 refs && str_mem e.2 refs) edges.

Lemma union_edges_same edges parent : forest refs parent ->
  exists parent', union_edges fuel refs parent edges = Some parent' /\ forest refs parent' /\
    (forall x y, same parent x y -> same parent' x y) /\
    (forall x y, linked (visible edges) x y -> same parent' x y) /\
    forall J : relation string, Equivalence J -> (forall x y, same parent x y -> J x y) ->
      (forall x y, linked (visible edges) x y -> J x y) -> forall x y, same parent' x y -> J x y.
Proof using Hfuel.
  revert parent. induction edges as [|[a b] edges IH]; intros parent Hf; cbn [union_edges visible List.filter fst snd].
  { exists parent. repeat split; [apply Hf | apply Hf | done | intros x y Hxy; by apply elem_of_nil in Hxy | eauto]. }
  destruct (str_mem a refs && str_mem b refs) eqn:E; [|by apply IH].
  apply andb_true_iff in E as [Ha%str_mem_spec Hb%str_mem_spec].
  destruct (union_same parent a b Hf Ha Hb) as (p1 & -> & Hf1 & Hmono & Hab & HJ1). cbn [mbind option_bind].
  destruct (IH p1 Hf1) as (p2 & -> & Hf2 & Hmono2 & Hvis & HJ2). exists p2. split; [done|]. split; [done|].
  split; [auto|]. split.
  - intros x y [Exy|Hxy]%elem_of_cons; [injection Exy as -> ->; auto | by apply Hvis].
  - intros J HJ Hsub Hlink. apply HJ2; [done | | intros x y Hxy; apply Hlink; by apply elem_of_cons; right].
    apply HJ1; [done | done |]. apply Hlink. by apply elem_of_cons; left.
Qed.
End UnionSame.
#[global] Arguments visible refs edges : clear implicits.

(** [x] and [y] are transitively joined by edges whose endpoints are both visible. *)
Definition joined (refs : list string) (edges : list edge) : relation string := rtsc (linked (visible refs edges)).

#[export] Instance joined_equivalence refs edges : Equivalence (joined refs edges).
Proof. apply rtsc_equivalence. Qed.

Lemma joined_edge refs edges x y : (x, y) ∈ edges -> x ∈ refs -> y ∈ refs -> joined refs edges x y.
Proof.
  intros H Hx Hy. apply rtsc_lr. unfold linked, visible. apply list_elem_of_In, filter_In. rewrite <- list_elem_of_In.
  split; [done|]. apply andb_true_iff. by split; apply str_mem_spec.
Qed.

Lemma initial_lookup refs x r : (list_to_map (map (fun r => (r, r)) refs) : gmap string string) !! x = Some r -> r = x /\ x ∈ refs.
Proof.
  intros H%elem_of_list_to_map_2. apply list_elem_of_fmap in H as (y & E & Hy). by injection E as -> ->.
Qed.

Lemma initial_forest refs : forest refs (list_to_map (map (fun r => (r, r)) refs)).
Proof.
  split.
  - intros x [r H]. by apply initial_lookup in H as [_ ?].
  - intros x Hx. destruct ((list_to_map (map (fun r => (r, r)) refs) : gmap string string) !! x) as [r|] eqn:E.
    + exists x, 0. destruct (initial_lookup _ _ _ E) as [-> _]. by constructor.
    + exfalso. apply not_elem_of_list_to_map in E. apply E. rewrite <- list_fmap_compose. by rewrite list_fmap_id.
Qed.

Lemma initial_same refs x y : same (list_to_map (map (fun r => (r, r)) refs)) x y -> x = y.
Proof.
  intros (r & [n Hx] & [m Hy]). inversion Hx as [|? u ? k Hu]; inversion Hy as [|? v ? l Hv]; subst; try done;
    repeat match goal with H : list_to_map _ !! _ = Some _ |- _ => apply initial_lookup in H as [-> _] end; done.
Qed.

(** The union-find computes connectivity. *)
Lemma union_edges_joined refs fuel edges : length refs < fuel ->
  exists parent, union_edges fuel refs (list_to_map (map (fun r => (r, r)) refs)) edges = Some parent /\
    forest refs parent /\ forall x y, x ∈ refs -> y ∈ refs -> (same parent x y <-> joined refs edges x y).
Proof.
  intros Hl. destruct (union_edges_same Hl edges _ (initial_forest refs)) as (p & E & Hf & _ & Hvis & HJ).
  exists p. split; [done|]. split; [done|]. intros x y Hx Hy. split.
  - apply HJ; [apply _ | |].
    + intros u v ->%initial_same. reflexivity.
    + intros u v Huv. by apply rtsc_lr.
  - intros H. clear Hy. induction H as [x|x y z Hxy _ IH]; [by eapply same_refl|].
    assert (Hs : same p x y) by (destruct Hxy as [Hxy|Hxy]; [auto | by apply same_end_sym, Hvis]).
    eapply same_trans; [exact Hs|]. apply IH. destruct Hs as (r & _ & n & Hc).
    by apply (forest_dom _ _ Hf), (chain_dom _ _ _ _ Hc).
Qed.

(** ** Components *)

(** [groups] holds the members of [done], each under its root. *)
Record grouped (parent : gmap string string) (done : list string) (groups : list (string * list string)) : Prop := {
  grouped_keys : NoDup groups.*1;
  grouped_members : concat (map snd groups) ≡ₚ done;
  grouped_roots : forall r ms, (r, ms) ∈ groups -> ms <> [] /\ forall x, x ∈ ms -> root_of parent x r;
}.

Lemma assoc_set_member {V} k (v : V) l r ms : NoDup l.*1 -> (r, ms) ∈ assoc_set k v l ->
  (r = k /\ ms = v) \/ (r <> k /\ (r, ms) ∈ l).
Proof.
  induction l as [|[k' v'] l IH]; cbn.
  - intros _ E%list_elem_of_singleton. injection E as -> ->. by left.
  - intros [Hk Hnd]%list.NoDup_cons. destruct (String.eqb_spec k k') as [<-|Hne].
    + intros [E|Hin]%elem_of_cons; [injection E as -> ->; by left|]. right. split; [|by apply elem_of_cons; right].
      intros ->. apply Hk. apply list_elem_of_fmap. by exists (k, ms).
    + intros [E|Hin]%elem_of_cons; [injection E as -> ->; right; split; [done | by apply elem_of_cons; left]|].
      destruct (IH Hnd Hin) as [?|[? ?]]; [by left | right; split; [done | by apply elem_of_cons; right]].
Qed.

Lemma group_append_perm r x groups : concat (map snd (group_append r x groups)) ≡ₚ x :: concat (map snd groups).
Proof.
  unfold group_append. induction groups as [|[k v] groups IH]; cbn; [done|].
  destruct (String.eqb_spec r k) as [<-|Hne]; cbn.
  - rewrite <- app_assoc. symmetry. apply Permutation_middle.
  - rewrite IH. symmetry. apply Permutation_middle.
Qed.

Lemma group_append_grouped parent done groups r x : grouped parent done groups -> root_of parent x r ->
  grouped parent (x :: done) (group_append r x groups).
Proof.
  intros [Hk Hm Hr] Hx. split.
  - by apply assoc_set_NoDup.
  - by rewrite group_append_perm, Hm.
  - intros r' ms Hin. apply assoc_set_member in Hin as [[-> ->]|[_ Hin]]; [|by apply Hr|done].
    split; [by destruct (default _ _)|]. intros y [Hy | ->%list_elem_of_singleton]%elem_of_app; [|done].
    destruct (assoc r groups) as [ms|] eqn:E; [|by apply elem_of_nil in Hy]. apply assoc_Some_elem in E.
    by apply (Hr r ms E).
Qed.

Lemma grouped_mono parent parent' done groups : (forall x r, root_of parent x r -> root_of parent' x r) ->
  grouped parent done groups -> grouped parent' done groups.
Proof. intros Hp [Hk Hm Hr]. split; [done..|]. intros r ms Hin. destruct (Hr r ms Hin). auto. Qed.

Lemma group_refs_grouped refs fuel todo parent done groups : length refs < fuel -> forest refs parent ->
  (forall x, x ∈ todo -> x ∈ refs) -> grouped parent done groups ->
  exists parent' groups', group_refs fuel parent todo groups = Some groups' /\ forest refs parent' /\
    (forall x r, root_of parent x r -> root_of parent' x r) /\ grouped parent' (rev todo ++ done) groups'.
Proof.
  intros Hl. revert parent done groups. induction todo as [|x todo IH]; intros parent done groups Hf Hin Hg; cbn [group_refs].
  { by exists parent, groups. }
  destruct (forest_root _ _ Hf x) as (r & n & Hr); [apply Hin; by apply elem_of_cons; left|].
  destruct (find_spec refs fuel parent x r n Hf Hr) as (p1 & -> & Hf1 & Hr1).
  { pose proof (chain_bound _ _ _ _ _ Hf Hr). lia. }
  cbn [mbind option_bind].
  destruct (IH p1 (x :: done) (group_append r x groups)) as (p2 & groups' & E & Hf2 & Hr2 & Hg'); [done | | |].
  - intros y Hy. apply Hin. by apply elem_of_cons; right.
  - apply group_append_grouped; [by eapply grouped_mono | by apply Hr1; exists n].
  - exists p2, groups'. split; [done|]. split; [done|]. split; [auto|]. cbn. by rewrite <- app_assoc.
Qed.

(** [cs] are the connected components of [refs], each sorted, in the order of their least members. *)
Record partition (refs : list string) (edges : list edge) (cs : list (list string)) : Prop := {
  partition_members : concat cs ≡ₚ refs;
  partition_nonempty : Forall (fun c => c <> []) cs;
  partition_sorted : Forall (ordered str_leb) cs;
  partition_heads : StronglySorted (fun c d => str_ltb (head_ref c) (head_ref d) = true) cs;
  partition_joined : forall c x y, c ∈ cs -> x ∈ c -> y ∈ refs -> (y ∈ c <-> joined refs edges x y);
}.

Lemma head_ref_elem c : c <> [] -> head_ref c ∈ c.
Proof. destruct c; [done|]. intros _. by apply elem_of_cons; left. Qed.

Lemma heads_NoDup cs : NoDup (concat cs) -> Forall (fun c => c <> []) cs -> NoDup (map head_ref cs).
Proof.
  induction cs as [|c cs IH]; cbn; [constructor|]. intros (_ & Hd & Hnd)%list.NoDup_app [Hc Hcs]%list.Forall_cons.
  apply list.NoDup_cons. split; [|by apply IH]. intros (d & E & Hdin)%list_elem_of_fmap.
  apply (Hd (head_ref c)); [by apply head_ref_elem|]. rewrite E. apply list_elem_of_In, in_concat. exists d.
  rewrite <- !list_elem_of_In. split; [done|]. apply head_ref_elem. rewrite list.Forall_forall in Hcs. by apply Hcs.
Qed.

Lemma ordered_strict {A} (key : A -> string) l : ordered (fun x y => str_leb (key x) (key y)) l -> NoDup (map key l) ->
  StronglySorted (fun x y => str_ltb (key x) (key y) = true) l.
Proof.
  induction 1 as [|x l Hl IH Hx]; cbn; [constructor|]. intros [Hn Hnd]%list.NoDup_cons. constructor; [by apply IH|].
  rewrite list.Forall_forall in Hx |- *. intros y Hy. unfold str_ltb. apply negb_true_iff, not_true_iff_false. intros Hle.
  apply Hn. rewrite (str_leb_antisym _ _ (Hx y Hy) Hle). apply list_elem_of_fmap. by exists y.
Qed.

(** What is visible falls into components, whatever the edges. *)
Lemma components_spec refs edges : NoDup refs -> exists cs, components refs edges = Some cs /\ partition refs edges cs.
Proof.
  intros Hnd. unfold components. set (fuel := S (length refs)).
  destruct (union_edges_joined refs fuel edges) as (p & -> & Hf & Hj); [subst fuel; lia|]. cbn [mbind option_bind].
  destruct (group_refs_grouped refs fuel refs p [] []) as (p' & groups & -> & Hf' & Hr & [Hk Hm Hroots]);
    [subst fuel; lia | done | done | by split; [constructor | | intros ? ? ?%elem_of_nil] |]. cbn [mbind option_bind].
  rewrite app_nil_r, <- Permutation_rev in Hm. eexists. split; [done|].
  set (sorted := map (fun g => sort_str g.2) groups).
  assert (Hs : forall c, c ∈ sort_on head_ref sorted -> exists g, g ∈ groups /\ c = sort_str g.2).
  { intros c Hc. rewrite (sort_on_perm_self head_ref sorted) in Hc. by apply list_elem_of_fmap in Hc as (g & -> & Hg); exists g. }
  assert (Hperm : concat (sort_on head_ref sorted) ≡ₚ refs).
  { rewrite (sort_on_perm_self head_ref sorted), <- Hm. subst sorted. clear. induction groups as [|g groups IH]; cbn; [done|].
    unfold sort_str at 1. by rewrite py_sort_perm, IH. }
  assert (Hne : Forall (fun c => c <> []) (sort_on head_ref sorted)).
  { apply list.Forall_forall. intros c ([r ms] & Hg & ->)%Hs. destruct (Hroots r ms Hg) as [Hms _].
    intros E. apply Hms. apply Permutation_nil. rewrite <- (py_sort_perm str_leb ms). unfold sort_str in E; cbn in E. by rewrite E. }
  split; [done | done | | |].
  - apply list.Forall_forall. intros c (g & _ & ->)%Hs. apply sort_str_ordered.
  - apply ordered_strict; [|apply heads_NoDup; [by rewrite Hperm | done]].
    apply (py_sort_ordered (fun c d => str_leb (head_ref c) (head_ref d))); intros; eauto with wiki.
  - intros c x y ([r ms] & Hg & ->)%Hs Hx Hy. unfold sort_str in Hx |- *. cbn [snd] in *. rewrite py_sort_elem in Hx |- *.
    destruct (Hroots r ms Hg) as [_ Hms]. pose proof (Hms x Hx) as Hxr.
    assert (Hxin : x ∈ refs) by (destruct Hxr as [n Hc]; by apply (forest_dom _ _ Hf'), (chain_dom _ _ _ _ Hc)).
    rewrite <- (Hj x y Hxin Hy). split.
    + intros Hyms. destruct (forest_root _ _ Hf x Hxin) as [rx Hrx], (forest_root _ _ Hf y Hy) as [ry Hry].
      exists rx. split; [done|]. rewrite (root_det _ _ _ _ (Hr _ _ Hrx) Hxr), <- (root_det _ _ _ _ (Hr _ _ Hry) (Hms y Hyms)).
      done.
    + intros (rx & Hrx & Hry). rewrite (root_det _ _ _ _ (Hr _ _ Hrx) Hxr) in Hry. apply Hr in Hry.
      rewrite <- Hm in Hy. apply list_elem_of_In, in_concat in Hy as (ms' & Hms' & Hyin). apply list_elem_of_In in Hms', Hyin.
      apply list_elem_of_fmap in Hms' as ([r' ms''] & -> & Hg'). cbn [snd] in Hyin.
      rewrite (root_det _ _ _ _ Hry (proj2 (Hroots r' ms'' Hg') y Hyin)) in Hg.
      pose proof (elem_assoc _ _ _ Hk Hg) as E. rewrite (elem_assoc _ _ _ Hk Hg') in E. by injection E as <-.
Qed.

(** ** Pages *)

Lemma emit_spec page_size comps total shown emitted last_min : exists k, k <= length comps /\
  emit page_size total comps shown emitted last_min =
    ((shown ++ concat (take k comps))%list, emitted + k,
     if k is S j then head_ref <$> comps !! j else last_min) /\
  (emitted = 0 -> comps <> [] -> 0 < k) /\
  (total + length (concat (take k comps)) <= page_size \/ k = 0 \/ (emitted = 0 /\ k = 1)).
Proof.
  revert total shown emitted last_min. induction comps as [|c comps IH]; intros total shown emitted last_min; cbn [emit].
  { exists 0. cbn. rewrite app_nil_r, Nat.add_0_r. naive_solver lia. }
  destruct ((0 <? emitted)%nat && (page_size <? total + length c)%nat) eqn:E.
  { exists 0. cbn. rewrite app_nil_r, Nat.add_0_r. apply andb_true_iff in E as [E%Nat.ltb_lt _]. naive_solver lia. }
  destruct (IH (total + length c) (shown ++ c)%list (S emitted) (Some (head_ref c))) as (k & Hk & -> & _ & Hb).
  exists (S k). cbn [length take concat firstn]. split; [lia|]. rewrite length_app, <- app_assoc. split.
  { f_equal; [f_equal; lia|]. by destruct k. }
  split; [lia|]. apply andb_false_iff in E as [E%Nat.ltb_ge|E%Nat.ltb_ge]; destruct Hb as [Hb|[->|[? _]]]; rewrite ?take_0; cbn; lia.
Qed.

Definition by_head (c d : list string) : Prop := str_ltb (head_ref c) (head_ref d) = true.

Definition remaining (cs : list (list string)) (resume_after : string) : list (list string) :=
  List.filter (fun c => str_ltb resume_after (head_ref c)) cs.

Lemma str_ltb_trans x y z : str_ltb x y = true -> str_ltb y z = true -> str_ltb x z = true.
Proof.
  unfold str_ltb. rewrite !negb_true_iff, <- !not_true_iff_false. intros H1 H2 H3. apply H1.
  destruct (str_leb_total y z) as [H|H]; [by eapply str_leb_trans | done].
Qed.

Lemma str_ltb_irrefl x : str_ltb x x = false.
Proof. unfold str_ltb. by rewrite str_leb_refl. Qed.

Lemma filter_forall {A} (p : A -> bool) l : Forall (fun x => p x = true) l -> List.filter p l = l.
Proof. induction 1 as [|x l Hx _ IH]; cbn; [done|]. by rewrite Hx, IH. Qed.

Lemma filter_keeps_sorted {A} (R : A -> A -> Prop) (p : A -> bool) l : StronglySorted R l -> StronglySorted R (List.filter p l).
Proof.
  induction 1 as [|x l Hl IH Hx]; cbn; [constructor|]. destruct (p x); [|done]. constructor; [done|].
  rewrite list.Forall_forall in Hx |- *. intros y [Hy _]%list_elem_of_In%filter_In. by apply Hx, list_elem_of_In.
Qed.

(** What is left after a component of a sorted list is what follows it. *)
Lemma remaining_after pre c post : StronglySorted by_head (pre ++ c :: post) ->
  remaining (pre ++ c :: post) (head_ref c) = post.
Proof.
  unfold remaining. induction pre as [|d pre IH]; cbn; intros [Hs Hd]%StronglySorted_inv.
  - rewrite str_ltb_irrefl. by apply filter_forall.
  - rewrite list.Forall_forall in Hd. assert (Hdc : by_head d c) by (apply Hd; set_solver).
    destruct (str_ltb (head_ref c) (head_ref d)) eqn:E; [|by apply IH].
    pose proof (str_ltb_trans _ _ _ Hdc E) as H. by rewrite str_ltb_irrefl in H.
Qed.

Lemma remaining_twice cs r m : str_ltb r m = true -> remaining (remaining cs r) m = remaining cs m.
Proof.
  intros Hm. unfold remaining. induction cs as [|c cs IH]; cbn; [done|].
  destruct (str_ltb r (head_ref c)) eqn:E; cbn; [by rewrite IH|].
  destruct (str_ltb m (head_ref c)) eqn:E'; [|done]. pose proof (str_ltb_trans _ _ _ Hm E'). congruence.
Qed.

Lemma remaining_drop cs r k c : StronglySorted by_head cs -> remaining cs r !! k = Some c ->
  remaining cs (head_ref c) = drop (S k) (remaining cs r).
Proof.
  intros Hs Hk. pose proof (filter_keeps_sorted _ (fun c => str_ltb r (head_ref c)) _ Hs) as Hs'. fold (remaining cs r) in Hs'.
  assert (Hrc : str_ltb r (head_ref c) = true).
  { apply list_elem_of_lookup_2, list_elem_of_In, filter_In in Hk as [_ ?]. done. }
  rewrite <- (remaining_twice cs r _ Hrc). rewrite <- (take_drop_middle _ _ _ Hk) in Hs' |- * at 1. by apply remaining_after.
Qed.

(** One page: the first components left, whole, as many as the page holds but at least one. *)
Lemma page_spec cs resume_after page_size : exists k, k <= length (remaining cs resume_after) /\
  page_of cs resume_after page_size =
    {| displayed := concat (take k (remaining cs resume_after));
       has_more := (k <? length (remaining cs resume_after))%nat;
       last_component_min := if k is S j then head_ref <$> remaining cs resume_after !! j else None |} /\
  (remaining cs resume_after <> [] -> 0 < k) /\
  (length (concat (take k (remaining cs resume_after))) <= page_size \/ k <= 1).
Proof.
  destruct (emit_spec page_size (remaining cs resume_after) 0 [] 0 None) as (k & Hk & E & Hpos & Hb).
  exists k. split; [done|]. unfold page_of. fold (remaining cs resume_after). rewrite E. cbn [app plus].
  repeat split; [auto|]. cbn in Hb. lia.
Qed.

(** ** One page after another *)

(** A page displays some of the components, whole; more than it holds only when that is one component. *)
Definition whole_page (cs : list (list string)) (page_size : nat) (p : page) : Prop :=
  exists shown, displayed p = concat shown /\ (forall c, c ∈ shown -> c ∈ cs) /\
    (length (displayed p) <= page_size \/ length shown <= 1).

Definition node_set (refs : list string) : list string := elements (list_to_set refs : gset string).

Lemma remaining_all cs : Forall (fun c => head_ref c <> "") cs -> remaining cs "" = cs.
Proof.
  intros H. apply filter_forall. eapply list.Forall_impl; [exact H|]. intros c Hc. unfold str_ltb.
  apply negb_true_iff, not_true_iff_false. intros Hle. apply Hc, (str_leb_antisym _ _ Hle). by destruct (head_ref c).
Qed.

Lemma page_rest cs r page_size : StronglySorted by_head cs -> exists shown rest,
  remaining cs r = (shown ++ rest)%list /\
  let p := page_of cs r page_size in
  displayed p = concat shown /\ (length (displayed p) <= page_size \/ length shown <= 1) /\
  (has_more p = false -> rest = []) /\
  (has_more p = true -> exists m, last_component_min p = Some m /\ remaining cs m = rest /\ rest <> [] /\ length rest < length (remaining cs r)).
Proof.
  intros Hs. destruct (page_spec cs r page_size) as (k & Hk & -> & Hpos & Hb). set (left := remaining cs r) in *.
  exists (take k left), (drop k left). cbn [displayed has_more last_component_min]. rewrite take_drop, length_take.
  split; [done|]. split; [done|]. split; [lia|]. split.
  - intros E%Nat.ltb_ge. apply drop_ge. lia.
  - intros E%Nat.ltb_lt. assert (Hne : left <> []) by (intros En; rewrite En in E; cbn in E; lia).
    specialize (Hpos Hne). destruct k as [|j]; [lia|]. destruct (lookup_lt_is_Some_2 left j) as [c Hc]; [lia|].
    exists (head_ref c). rewrite Hc. split; [done|]. split; [by apply remaining_drop|]. rewrite length_drop. split; [|lia].
    intros En%(f_equal length). rewrite length_drop in En. cbn in En. lia.
Qed.

Lemma concat_length {A} (cs : list (list A)) : Forall (fun c => c <> []) cs -> length cs <= length (concat cs).
Proof. induction 1 as [|c cs Hc _ IH]; cbn; [done|]. rewrite length_app. destruct c; [done|]. cbn. lia. Qed.

Lemma node_set_length refs : length (node_set refs) <= length refs.
Proof.
  apply submseteq_length, NoDup_submseteq; [unfold node_set; apply NoDup_elements|]. intros x.
  unfold node_set. by rewrite elem_of_elements, elem_of_list_to_set.
Qed.

Lemma node_set_elem refs x : x ∈ node_set refs <-> x ∈ refs.
Proof. unfold node_set. by rewrite elem_of_elements, elem_of_list_to_set. Qed.

Lemma whole_page_joined refs edges cs page_size p : partition (node_set refs) edges cs -> whole_page cs page_size p ->
  (forall x y, x ∈ displayed p -> y ∈ refs -> joined (node_set refs) edges x y -> y ∈ displayed p) /\
  (length (displayed p) <= page_size \/
   forall x y, x ∈ displayed p -> y ∈ displayed p -> joined (node_set refs) edges x y).
Proof.
  intros [Hm _ _ _ Hj] (shown & -> & Hsub & Hb). split.
  - intros x y (c & Hcs & Hx)%list_elem_of_In%in_concat Hy Hxy. apply list_elem_of_In in Hcs, Hx.
    apply list_elem_of_In, in_concat. exists c. rewrite <- !list_elem_of_In. split; [done|].
    apply (Hj c x y); [by apply Hsub | done | by apply node_set_elem | done].
  - destruct Hb as [Hb|Hb]; [by left|right]. intros x y Hx Hy.
    destruct shown as [|c [|d shown]]; cbn in Hx, Hy, Hb; [by apply elem_of_nil in Hx | rewrite app_nil_r in Hx, Hy | lia].
    assert (Hcs : c ∈ cs) by (apply Hsub, list_elem_of_singleton; done).
    apply (Hj c x y Hcs Hx); [|done]. rewrite <- Hm. apply list_elem_of_In, in_concat. exists c. by rewrite <- !list_elem_of_In.
Qed.

(** A single page keeps joined candidates together. *)
Lemma page_components_whole refs support conflicts resume page_size p :
  _page_components refs support conflicts resume page_size = Some p ->
  (forall x, x ∈ displayed p -> x ∈ refs) /\
  forall x y, x ∈ displayed p -> y ∈ refs -> joined (node_set refs) (support ++ conflicts) x y -> y ∈ displayed p.
Proof.
  unfold _page_components. fold (node_set refs).
  destruct (components_spec (node_set refs) (support ++ conflicts)) as (cs & -> & Hp); [unfold node_set; apply NoDup_elements|].
  cbn [mbind option_bind]. intros [= <-].
  destruct (page_rest cs resume page_size (partition_heads _ _ _ Hp)) as (shown & rest & Hr & Hd & Hb & _).
  assert (Hsub : forall c, c ∈ shown -> c ∈ cs).
  { intros c Hin. assert (Hin' : c ∈ remaining cs resume) by (rewrite Hr; apply elem_of_app; by left).
    by apply list_elem_of_In, filter_In in Hin' as [Hin'%list_elem_of_In _]. }
  assert (Hw : whole_page cs page_size (page_of cs resume page_size)) by (by exists shown).
  split; [|by apply (whole_page_joined _ _ _ _ _ Hp Hw)]. intros x Hx. rewrite Hd in Hx. apply node_set_elem.
  rewrite <- (partition_members _ _ _ Hp). apply list_elem_of_In, in_concat in Hx as (c & Hc%list_elem_of_In & Hx).
  apply list_elem_of_In, in_concat. exists c. split; [apply list_elem_of_In; by apply Hsub | done].
Qed.
