(* ===== verification/LedgerContracts.v ===== *)
(** * The ledger's contracts (memory_core/second_brain_ledger_contracts.py)

    Domain-separated canonical bytes, references and instants, the gate states, the
    bitemporal interval, the edges and the payload of a command, the command with its
    matrix of kinds, the signed authority provenance, the receipt, and the trust authority
    that verifies signatures.  [from_mapping] and [__post_init__] are one definition
    where the fields are Python values, two where typed values are passed. *)
From S2P Require Import Prelude Digest Json Canonical Text Contracts Timestamps RuntimeContracts.
Open Scope string_scope.

(** The two contract errors, and the TypeError of an unhashable member test. *)
Inductive contract_error : Type := LcInvalidValue | LcUnknownField | LcTypeError.

#[export] Instance contract_error_eq_dec : EqDecision contract_error.
Proof. solve_decision. Defined.

Definition LEDGER_COMMAND_V2 : string := "second-brain-ledger-command-v2".
Definition LEDGER_RECEIPT_V2 : string := "second-brain-ledger-receipt-v2".
Definition COMMAND_KINDS : list string :=
  ["CREATE_CANDIDATE"; "REVIEW_APPROVE"; "REVIEW_REJECT"; "CORRECT"; "SUPERSEDE"; "REVOKE"; "FORGET"; "DECLARE_CONTRADICTION"].
Definition _REQUIRED_PROVENANCE_COMPONENTS : list string :=
  ["authorization"; "global_floor"; "binding"; "recovery"; "route"; "cohort"; "deletion"; "consent"].

(** ** Values *)

Definition canonical_ledger_bytes (domain : string) (body : list (string * json)) : string :=
  "second-brain-ledger/" +:+ domain +:+ NUL +:+ json_dumps (JObj body).

Definition canonical_ledger_digest {D : Digest} (domain : string) (body : list (string * json)) : string :=
  sha256_hex (canonical_ledger_bytes domain body).

Fixpoint string_keys (kvs : list (pykey * pyval)) : option mapping :=
  match kvs with
  | [] => Some []
  | (KStr k, v) :: kvs => rest ← string_keys kvs; Some ((k, v) :: rest)
  | (KOther, _) :: _ => None
  end.

Definition _strict (data : pyval) (fields : list string) : result contract_error mapping :=
  match data with
  | PDict kvs | PMap kvs =>
      values ← of_option LcInvalidValue (string_keys kvs);
      _ ← ensure (keys_within values fields) LcUnknownField;
      _ ← ensure (has_keys values fields) LcInvalidValue;
      Ok values
  | _ => Err LcInvalidValue
  end.

(** [re.fullmatch("[a-z][a-z0-9_-]{0,63}", name)] *)
Definition is_ref_kind (name : string) : bool :=
  match name with
  | EmptyString => false
  | String c rest =>
      is_lower c && str_forall (fun c => is_lower c || is_digit c || Ascii.eqb c "_" || Ascii.eqb c "-") rest &&
      (String.length rest <=? 63)%nat
  end.

(** The text before the first colon and the text after it. *)
Fixpoint split_colon (s : string) : option (string * string) :=
  match s with
  | EmptyString => None
  | String c rest =>
      if Ascii.eqb c ":" then Some ("", rest)
      else '(name, digest) ← split_colon rest; Some (String c name, digest)
  end.

Definition is_ref (kind : option string) (value : string) : bool :=
  match split_colon value with
  | Some (name, digest) =>
      is_ref_kind name && is_hex64 digest && (if kind is Some k then String.eqb name k else true)
  | None => false
  end.

Definition check_ref (kind : option string) (value : string) : result contract_error string :=
  _ ← ensure (is_ref kind value) LcInvalidValue; Ok value.
Definition check_digest (value : string) : result contract_error string :=
  _ ← ensure (is_hex64 value) LcInvalidValue; Ok value.
Definition check_positive (value : string) : result contract_error string :=
  _ ← ensure (is_positive_int value) LcInvalidValue; Ok value.

(** [isinstance(value, str)] *)
Definition as_str (v : pyval) : result contract_error string :=
  match v with PStr s => Ok s | _ => Err LcInvalidValue end.

Definition _ref (kind : option string) (v : pyval) : result contract_error string := s ← as_str v; check_ref kind s.
Definition _digest (v : pyval) : result contract_error string := s ← as_str v; check_digest s.
(** [_decimal(value, field, True)] *)
Definition _positive (v : pyval) : result contract_error string := s ← as_str v; check_positive s.
(** [isinstance(value, str) and value] *)
Definition _text (v : pyval) : result contract_error string :=
  s ← as_str v; _ ← ensure (str_nonempty s) LcInvalidValue; Ok s.

(** [if value is not None: check(value)] *)
Definition _optional {A} (check : pyval -> result contract_error A) (v : pyval) : result contract_error (option A) :=
  match v with PNone => Ok None | _ => a ← check v; Ok (Some a) end.

(** [value in {...}] for a set of strings: an unhashable value raises TypeError. *)
Definition _member (v : pyval) (allowed : list string) : result contract_error string :=
  _ ← ensure (hashable v) LcTypeError;
  s ← as_str v; _ ← ensure (str_mem s allowed) LcInvalidValue; Ok s.

Definition _version (v : pyval) (expected : string) : result contract_error unit :=
  ensure (py_str_eqb v expected) LcInvalidValue.

(** [_typed_tuple(value, cls, field)] on a value that holds no instance of the class. *)
Definition _typed_tuple {A} (from_mapping : pyval -> result contract_error A) (v : pyval) : result contract_error (list A) :=
  match v with PList l | PTuple l => map_result from_mapping l | _ => Err LcInvalidValue end.

(** ** Instants with a fraction of up to six digits *)

(** [rstrip("0")] *)
Fixpoint rstrip0 (l : list ascii) : list ascii :=
  match l with
  | [] => []
  | c :: l => match rstrip0 l with [] => if Ascii.eqb c "0" then [] else [c] | r => c :: r end
  end.

Definition digits6 (z : Z) : list ascii :=
  (digits2 (z / 10000) ++ digits2 (z / 100 mod 100) ++ digits2 (z mod 100))%list.

(** The 19 characters to the second; the year has four digits, as [%Y] prints it where the
    platform pads it. *)
Definition second_text (t : Z) : list ascii := firstn 19 (write_fields (fields_of t)).

(** [strftime("%Y-%m-%dT%H:%M:%S.%fZ")] *)
Definition micro_text (t : Z) : string :=
  String.string_of_list_ascii (second_text t ++ ["."%char] ++ digits6 (t mod SECOND) ++ ["Z"%char])%list.

(** The canonical text of an instant. *)
Definition instant_text (t : Z) : string :=
  String.string_of_list_ascii
    (second_text t ++ (if (t mod SECOND =? 0)%Z then [] else "."%char :: rstrip0 (digits6 (t mod SECOND))) ++ ["Z"%char])%list.

(** The microseconds that a fraction of at most six digits denotes. *)
Definition fraction_value (digits : list ascii) : Z := number (digits ++ repeat "0"%char (6 - length digits)).

(** [(?:\.\d{1,6})?Z] after the seconds. *)
Definition scan_fraction (l : list ascii) : option Z :=
  match l with
  | [c] => if Ascii.eqb c "Z" then Some 0%Z else None
  | c :: l =>
      let digits := removelast l in
      if Ascii.eqb c "." && Ascii.eqb (List.last l "0"%char) "Z" && forallb is_digit digits &&
         (1 <=? length digits)%nat && (length digits <=? 6)%nat
      then Some (fraction_value digits) else None
  | [] => None
  end.

(** [datetime.fromisoformat] on a text of the pattern. *)
Definition parse_instant (value : string) : option Z :=
  let l := String.list_ascii_of_string value in
  f ← scan_fields (firstn 19 l ++ ["Z"%char])%list;
  micro ← scan_fraction (skipn 19 l);
  if valid_fields f then Some (instant f + micro)%Z else None.

(** The canonical text and the instant. *)
Definition check_instant (value : string) : result contract_error (string * Z) :=
  t ← of_option LcInvalidValue (parse_instant value); Ok (instant_text t, t).
Definition _instant (v : pyval) : result contract_error (string * Z) := s ← as_str v; check_instant s.
Definition _utc (v : pyval) : result contract_error string := p ← _instant v; Ok p.1.

Example instants :
  parse_instant "2024-02-29T12:30:05.25Z" = Some (738944 * DAY + 45005 * SECOND + 250000)%Z /\
  instant_text (738944 * DAY + 45005 * SECOND + 250000) = "2024-02-29T12:30:05.25Z" /\
  micro_text (738944 * DAY + 45005 * SECOND + 250000) = "2024-02-29T12:30:05.250000Z" /\
  instant_text (738944 * DAY + 45005 * SECOND) = "2024-02-29T12:30:05Z".
Proof. vm_compute. done. Qed.

(** ** GateStateV2 *)

Record GateStateV2 : Type := { gate_state : string; gate_epoch : string; gate_digest : string }.

#[export] Instance gate_eq_dec : EqDecision GateStateV2.
Proof. solve_decision. Defined.

Definition gate_from_mapping (data : pyval) : result contract_error GateStateV2 :=
  values ← _strict data ["state"; "epoch"; "digest"];
  s ← _member (field values "state") ["PASS"; "DENY"; "ABSTAIN"];
  e ← _positive (field values "epoch");
  d ← _digest (field values "digest");
  Ok {| gate_state := s; gate_epoch := e; gate_digest := d |}.

Definition gate_to_mapping (g : GateStateV2) : json :=
  JObj [("state", JStr (gate_state g)); ("epoch", JStr (gate_epoch g)); ("digest", JStr (gate_digest g))].

(** ** BitemporalIntervalV2 *)

Record BitemporalIntervalV2 : Type := {
  valid_from : string; valid_to : option string; recorded_from : string; recorded_to : option string }.

#[export] Instance interval_eq_dec : EqDecision BitemporalIntervalV2.
Proof. solve_decision. Defined.

Definition json_of_opt (o : option string) : json := if o is Some s then JStr s else JNull.

(** An end after its start. *)
Definition check_end (start : Z) (v : pyval) : result contract_error (option string) :=
  match v with
  | PNone => Ok None
  | _ => p ← _instant v; _ ← ensure (start <? p.2)%Z LcInvalidValue; Ok (Some p.1)
  end.

Definition interval_from_mapping (data : pyval) : result contract_error BitemporalIntervalV2 :=
  values ← _strict data ["valid_from"; "valid_to"; "recorded_from"; "recorded_to"];
  vf ← _instant (field values "valid_from");
  rf ← _instant (field values "recorded_from");
  vt ← check_end vf.2 (field values "valid_to");
  rt ← check_end rf.2 (field values "recorded_to");
  Ok {| valid_from := vf.1; valid_to := vt; recorded_from := rf.1; recorded_to := rt |}.

Definition interval_to_mapping (i : BitemporalIntervalV2) : json :=
  JObj [("valid_from", JStr (valid_from i)); ("valid_to", json_of_opt (valid_to i));
        ("recorded_from", JStr (recorded_from i)); ("recorded_to", json_of_opt (recorded_to i))].

(** [at] is before the end, when there is one ([if self.valid_to] also skips an empty text). *)
Definition before_end (at_ : Z) (end_ : option string) : result contract_error bool :=
  match end_ with
  | Some s => if str_nonempty s then p ← check_instant s; Ok (at_ <? p.2)%Z else Ok true
  | None => Ok true
  end.

Definition interval_contains (i : BitemporalIntervalV2) (valid_at recorded_at : string) : result contract_error bool :=
  va ← check_instant valid_at; ra ← check_instant recorded_at;
  vf ← check_instant (valid_from i); rf ← check_instant (recorded_from i);
  vt ← before_end va.2 (valid_to i); rt ← before_end ra.2 (recorded_to i);
  Ok ((vf.2 <=? va.2)%Z && vt && (rf.2 <=? ra.2)%Z && rt).

(** ** LedgerEdgeV2 *)

Record LedgerEdgeV2 : Type := {
  edge_kind : string; from_candidate_ref : string; to_candidate_ref : string; edge_workspace_ref : string;
  edge_interval : BitemporalIntervalV2 }.

#[export] Instance ledger_edge_eq_dec : EqDecision LedgerEdgeV2.
Proof. solve_decision. Defined.

Definition edge_from_mapping (data : pyval) : result contract_error LedgerEdgeV2 :=
  values ← _strict data ["edge_kind"; "from_candidate_ref"; "to_candidate_ref"; "workspace_ref"; "interval"];
  k ← _member (field values "edge_kind") ["SUPPORT"; "CONTRADICTION"];
  f ← _ref (Some "candidate") (field values "from_candidate_ref");
  t ← _ref (Some "candidate") (field values "to_candidate_ref");
  w ← _ref (Some "workspace") (field values "workspace_ref");
  i ← interval_from_mapping (field values "interval");
  _ ← ensure (negb (String.eqb f t)) LcInvalidValue;
  Ok {| edge_kind := k; from_candidate_ref := f; to_candidate_ref := t; edge_workspace_ref := w; edge_interval := i |}.

Definition edge_to_mapping (e : LedgerEdgeV2) : json :=
  JObj [("edge_kind", JStr (edge_kind e)); ("from_candidate_ref", JStr (from_candidate_ref e));
        ("to_candidate_ref", JStr (to_candidate_ref e)); ("workspace_ref", JStr (edge_workspace_ref e));
        ("interval", interval_to_mapping (edge_interval e))].

(** ** CommandPayloadV2 *)

Record CommandPayloadV2 : Type := {
  candidate_ref : string; prior_state : string; resulting_state : string; payload_content_digest : option string;
  support_edges : list LedgerEdgeV2; contradiction_edges : list LedgerEdgeV2 }.

#[export] Instance command_payload_eq_dec : EqDecision CommandPayloadV2.
Proof. solve_decision. Defined.

Definition PAYLOAD_FIELDS : list string :=
  ["candidate_ref"; "prior_state"; "resulting_state"; "content_digest"; "support_edges"; "contradiction_edges"].

(** [isinstance(v, list)] *)
Definition need_list (v : pyval) : result contract_error unit :=
  match v with PList _ => Ok tt | _ => Err LcInvalidValue end.

Definition payload_from_mapping (data : pyval) : result contract_error CommandPayloadV2 :=
  values ← _strict data PAYLOAD_FIELDS;
  _ ← need_list (field values "support_edges"); _ ← need_list (field values "contradiction_edges");
  s ← _typed_tuple edge_from_mapping (field values "support_edges");
  c ← _typed_tuple edge_from_mapping (field values "contradiction_edges");
  r ← _ref (Some "candidate") (field values "candidate_ref");
  p ← _member (field values "prior_state") ["ABSENT"; "PENDING"; "APPROVED"; "REJECTED"; "REVOKED"; "FORGOTTEN"];
  q ← _member (field values "resulting_state") ["PENDING"; "APPROVED"; "REJECTED"; "REVOKED"; "FORGOTTEN"];
  d ← _optional _digest (field values "content_digest");
  _ ← ensure (forallb (fun e => String.eqb (edge_kind e) "SUPPORT") s &&
              forallb (fun e => String.eqb (edge_kind e) "CONTRADICTION") c) LcInvalidValue;
  Ok {| candidate_ref := r; prior_state := p; resulting_state := q; payload_content_digest := d;
        support_edges := s; contradiction_edges := c |}.

Definition payload_to_mapping (p : CommandPayloadV2) : list (string * json) :=
  [("candidate_ref", JStr (candidate_ref p)); ("prior_state", JStr (prior_state p));
   ("resulting_state", JStr (resulting_state p)); ("content_digest", json_of_opt (payload_content_digest p));
   ("support_edges", JArr (map edge_to_mapping (support_edges p)));
   ("contradiction_edges", JArr (map edge_to_mapping (contradiction_edges p)))].

(** ** LedgerCommandV2 *)

Record LedgerCommandV2 : Type := {
  command_ref : string; cmd_workspace_ref : string; cmd_capability_ref : string; cmd_authority_epoch : string;
  cmd_subject_ref : string; cmd_action : string; cmd_scope_digest : string; kind : string;
  target_candidate_ref : option string; expected_active_revision_ref : option string;
  related_candidate_refs : list string; interval : BitemporalIntervalV2; cmd_payload : CommandPayloadV2;
  cmd_payload_digest : string; cmd_provenance_ref : string; cmd_provenance_digest : string; command_digest : string }.

#[export] Instance command_eq_dec : EqDecision LedgerCommandV2.
Proof. solve_decision. Defined.

Definition LEDGER_COMMAND_FIELDS : list string :=
  ["command_version"; "command_ref"; "workspace_ref"; "capability_ref"; "authority_epoch"; "subject_ref"; "action";
   "scope_digest"; "kind"; "target_candidate_ref"; "expected_active_revision_ref"; "related_candidate_refs"; "interval";
   "payload"; "command_payload_digest"; "authority_provenance_ref"; "authority_provenance_digest"; "command_digest"].

Definition ledger_command_to_mapping (c : LedgerCommandV2) : list (string * json) :=
  [("command_version", JStr LEDGER_COMMAND_V2); ("command_ref", JStr (command_ref c));
   ("workspace_ref", JStr (cmd_workspace_ref c)); ("capability_ref", JStr (cmd_capability_ref c));
   ("authority_epoch", JStr (cmd_authority_epoch c)); ("subject_ref", JStr (cmd_subject_ref c));
   ("action", JStr (cmd_action c)); ("scope_digest", JStr (cmd_scope_digest c)); ("kind", JStr (kind c));
   ("target_candidate_ref", json_of_opt (target_candidate_ref c));
   ("expected_active_revision_ref", json_of_opt (expected_active_revision_ref c));
   ("related_candidate_refs", JArr (map JStr (related_candidate_refs c)));
   ("interval", interval_to_mapping (interval c)); ("payload", JObj (payload_to_mapping (cmd_payload c)));
   ("command_payload_digest", JStr (cmd_payload_digest c));
   ("authority_provenance_ref", JStr (cmd_provenance_ref c));
   ("authority_provenance_digest", JStr (cmd_provenance_digest c)); ("command_digest", JStr (command_digest c))].

(** [{k: v for k, v in mapping.items() if k not in names}] *)
Definition without {A} (names : list string) (m : list (string * A)) : list (string * A) :=
  List.filter (fun kv => negb (str_mem kv.1 names)) m.

(** A row of the matrix: whether there is a target, how many related candidates, the states
    before and after, whether there is content, and how many edges of each kind. *)
Record kind_rule : Type := {
  rule_target : bool; rule_related : nat; rule_prior : string; rule_result : string; rule_content : bool;
  rule_supports : nat; rule_contradictions : nat }.

Definition rule (t : bool) (n : nat) (prior result : string) (content : bool) (s c : nat) : kind_rule :=
  {| rule_target := t; rule_related := n; rule_prior := prior; rule_result := result; rule_content := content;
     rule_supports := s; rule_contradictions := c |}.

Definition matrix : list (string * kind_rule) :=
  [("CREATE_CANDIDATE", rule false 0 "ABSENT" "PENDING" true 0 0);
   ("REVIEW_APPROVE", rule true 0 "PENDING" "APPROVED" false 0 0);
   ("REVIEW_REJECT", rule true 0 "PENDING" "REJECTED" false 0 0);
   ("CORRECT", rule true 1 "APPROVED" "APPROVED" true 1 0);
   ("SUPERSEDE", rule true 1 "APPROVED" "APPROVED" true 1 0);
   ("REVOKE", rule true 0 "APPROVED" "REVOKED" false 0 0);
   ("FORGET", rule true 0 "APPROVED" "FORGOTTEN" false 0 0);
   ("DECLARE_CONTRADICTION", rule true 1 "APPROVED" "APPROVED" false 0 1)].

Definition follows_rule (c : LedgerCommandV2) (r : kind_rule) : bool :=
  let p := cmd_payload c in
  Bool.eqb (if target_candidate_ref c then true else false) (rule_target r) &&
  (length (related_candidate_refs c) =? rule_related r)%nat &&
  String.eqb (prior_state p) (rule_prior r) && String.eqb (resulting_state p) (rule_result r) &&
  Bool.eqb (if payload_content_digest p then true else false) (rule_content r) &&
  (length (support_edges p) =? rule_supports r)%nat && (length (contradiction_edges p) =? rule_contradictions r)%nat.

(** The ends of the first edge. *)
Definition edge_joins (edges : list LedgerEdgeV2) (f t : option string) : bool :=
  match edges with
  | e :: _ => bool_decide (Some (from_candidate_ref e) = f) && bool_decide (Some (to_candidate_ref e) = t)
  | [] => false
  end.

Definition directed (c : LedgerCommandV2) : bool :=
  let p := cmd_payload c in let related := head (related_candidate_refs c) in
  if String.eqb (kind c) "CORRECT" then edge_joins (support_edges p) related (target_candidate_ref c)
  else if String.eqb (kind c) "SUPERSEDE" then edge_joins (support_edges p) (target_candidate_ref c) related
  else if String.eqb (kind c) "DECLARE_CONTRADICTION" then edge_joins (contradiction_edges p) (target_candidate_ref c) related
  else true.

Definition all_edges (c : LedgerCommandV2) : list LedgerEdgeV2 :=
  (support_edges (cmd_payload c) ++ contradiction_edges (cmd_payload c))%list.

(** The checks on the fields together. *)
Definition command_matrix (c : LedgerCommandV2) : bool :=
  (if assoc (kind c) matrix is Some r then follows_rule c r else false) &&
  (if String.eqb (kind c) "CREATE_CANDIDATE"
   then negb (str_mem (candidate_ref (cmd_payload c)) (related_candidate_refs c))
   else bool_decide (Some (candidate_ref (cmd_payload c)) = target_candidate_ref c)) &&
  directed c &&
  forallb (fun e => String.eqb (edge_workspace_ref e) (cmd_workspace_ref c)) (all_edges c).

Section Digests.
Context {D : Digest}.

(** [_bound(value, field, domain, body)] *)
Definition _bound (v : pyval) (domain : string) (body : list (string * json)) : result contract_error string :=
  d ← _digest v; _ ← ensure (String.eqb d (canonical_ledger_digest domain body)) LcInvalidValue; Ok d.

(** [isinstance(v, (tuple, list))] *)
Definition need_array (v : pyval) : result contract_error unit :=
  match v with PList _ | PTuple _ => Ok tt | _ => Err LcInvalidValue end.

(** A list or tuple of distinct references; [set] raises TypeError on an unhashable member. *)
Definition related_refs (v : pyval) : result contract_error (list string) :=
  match v with
  | PList l | PTuple l =>
      _ ← ensure (forallb hashable l) LcTypeError;
      refs ← map_result (_ref (Some "candidate")) l;
      _ ← ensure (str_unique refs) LcInvalidValue;
      Ok refs
  | _ => Err LcInvalidValue
  end.

(** A creation expects no revision, any other command expects one. *)
Definition expected_revision (kind : string) (v : pyval) : result contract_error (option string) :=
  if String.eqb kind "CREATE_CANDIDATE"
  then match v with PNone => Ok None | _ => Err LcInvalidValue end
  else x ← _ref (Some "revision") v; Ok (Some x).

Definition ledger_command_from_mapping (data : pyval) : result contract_error LedgerCommandV2 :=
  values ← _strict data LEDGER_COMMAND_FIELDS;
  _ ← _version (field values "command_version") LEDGER_COMMAND_V2;
  k ← _member (field values "kind") COMMAND_KINDS;
  r ← _ref (Some "command") (field values "command_ref");
  w ← _ref (Some "workspace") (field values "workspace_ref");
  cap ← _ref (Some "capability") (field values "capability_ref");
  e ← _positive (field values "authority_epoch");
  s ← _ref None (field values "subject_ref");
  sd ← _digest (field values "scope_digest");
  a ← _text (field values "action");
  _ ← need_array (field values "related_candidate_refs");
  i ← interval_from_mapping (field values "interval");
  p ← payload_from_mapping (field values "payload");
  rel ← related_refs (field values "related_candidate_refs");
  t ← _optional (_ref (Some "candidate")) (field values "target_candidate_ref");
  x ← expected_revision k (field values "expected_active_revision_ref");
  pr ← _ref (Some "provenance") (field values "authority_provenance_ref");
  pd ← _digest (field values "authority_provenance_digest");
  d ← _bound (field values "command_payload_digest") "command-payload-v2" (payload_to_mapping p);
  cd ← _digest (field values "command_digest");
  let c := {| command_ref := r; cmd_workspace_ref := w; cmd_capability_ref := cap; cmd_authority_epoch := e;
              cmd_subject_ref := s; cmd_action := a; cmd_scope_digest := sd; kind := k; target_candidate_ref := t;
              expected_active_revision_ref := x; related_candidate_refs := rel; interval := i; cmd_payload := p;
              cmd_payload_digest := d; cmd_provenance_ref := pr; cmd_provenance_digest := pd; command_digest := cd |} in
  _ ← ensure (command_matrix c) LcInvalidValue;
  _ ← ensure (String.eqb cd (canonical_ledger_digest "command-v2" (without ["command_digest"] (ledger_command_to_mapping c)))) LcInvalidValue;
  Ok c.

(** ** AuthorityProvenanceV2 *)

Record AuthorityProvenanceV2 : Type := {
  provenance_ref : string; provenance_digest : string; signer_ref : string; key_id : string; signature : string;
  component_states : list GateStateV2; transaction_cut : string; issued_at : string; expires_at : string;
  pv_workspace_ref : string; pv_capability_ref : string; pv_authority_epoch : string; pv_subject_ref : string;
  pv_action : string; query_digest : option string; pv_scope_digest : option string; request_digest : option string;
  command_payload_digest : option string }.

#[export] Instance provenance_eq_dec : EqDecision AuthorityProvenanceV2.
Proof. solve_decision. Defined.

Definition PROVENANCE_FIELDS : list string :=
  ["provenance_version"; "provenance_ref"; "provenance_digest"; "signer_ref"; "signer_algorithm"; "key_id"; "signature";
   "component_labels"; "component_states"; "transaction_cut"; "issued_at"; "expires_at"; "workspace_ref"; "capability_ref";
   "authority_epoch"; "subject_ref"; "action"; "query_digest"; "scope_digest"; "request_digest"; "command_payload_digest"].

Definition provenance_to_mapping (p : AuthorityProvenanceV2) : list (string * json) :=
  [("provenance_version", JStr "second-brain-authority-provenance-v2"); ("provenance_ref", JStr (provenance_ref p));
   ("provenance_digest", JStr (provenance_digest p)); ("signer_ref", JStr (signer_ref p));
   ("signer_algorithm", JStr "Ed25519"); ("key_id", JStr (key_id p)); ("signature", JStr (signature p));
   ("component_labels", JArr (map JStr _REQUIRED_PROVENANCE_COMPONENTS));
   ("component_states", JArr (map gate_to_mapping (component_states p)));
   ("transaction_cut", JStr (transaction_cut p)); ("issued_at", JStr (issued_at p)); ("expires_at", JStr (expires_at p));
   ("workspace_ref", JStr (pv_workspace_ref p)); ("capability_ref", JStr (pv_capability_ref p));
   ("authority_epoch", JStr (pv_authority_epoch p)); ("subject_ref", JStr (pv_subject_ref p));
   ("action", JStr (pv_action p)); ("query_digest", json_of_opt (query_digest p));
   ("scope_digest", json_of_opt (pv_scope_digest p)); ("request_digest", json_of_opt (request_digest p));
   ("command_payload_digest", json_of_opt (command_payload_digest p))].

Definition signing_body (p : AuthorityProvenanceV2) : list (string * json) :=
  without ["provenance_digest"; "signature"] (provenance_to_mapping p).

(** A non-empty text of at most 4096 characters, none of them whitespace. *)
Definition is_signature (s : string) : bool :=
  str_nonempty s && (length (chars s) <=? 4096)%nat && forallb (fun c => negb (is_space c)) (chars s).

Definition _signature (v : pyval) : result contract_error string :=
  s ← as_str v; _ ← ensure (is_signature s) LcInvalidValue; Ok s.

(** [tuple(v) == _REQUIRED_PROVENANCE_COMPONENTS] *)
Definition required_labels (v : pyval) : bool :=
  match v with
  | PList l | PTuple l =>
      bool_decide (length l = length _REQUIRED_PROVENANCE_COMPONENTS) &&
      forallb (fun ab => py_str_eqb ab.1 ab.2) (zip l _REQUIRED_PROVENANCE_COMPONENTS)
  | _ => false
  end.

(** The epochs and digests of the components are pairwise distinct. *)
Definition distinct_components (states : list GateStateV2) : bool :=
  bool_decide (NoDup (map (fun g => (gate_epoch g, gate_digest g)) states)).

Definition provenance_from_mapping (data : pyval) : result contract_error AuthorityProvenanceV2 :=
  values ← _strict data PROVENANCE_FIELDS;
  states ← _typed_tuple gate_from_mapping (field values "component_states");
  _ ← ensure (required_labels (field values "component_labels") && (length states =? 8)%nat) LcInvalidValue;
  _ ← _version (field values "provenance_version") "second-brain-authority-provenance-v2";
  r ← _ref (Some "provenance") (field values "provenance_ref");
  sg ← _ref (Some "signer") (field values "signer_ref");
  k ← _ref (Some "key") (field values "key_id");
  _ ← _version (field values "signer_algorithm") "Ed25519";
  si ← _signature (field values "signature");
  cut ← _positive (field values "transaction_cut");
  w ← _ref (Some "workspace") (field values "workspace_ref");
  cap ← _ref (Some "capability") (field values "capability_ref");
  e ← _positive (field values "authority_epoch");
  su ← _ref None (field values "subject_ref");
  a ← _text (field values "action");
  q ← _optional _digest (field values "query_digest");
  sd ← _optional _digest (field values "scope_digest");
  rd ← _optional _digest (field values "request_digest");
  pd ← _optional _digest (field values "command_payload_digest");
  issued ← _instant (field values "issued_at");
  expires ← _instant (field values "expires_at");
  _ ← ensure ((issued.2 <? expires.2)%Z && distinct_components states) LcInvalidValue;
  d ← _digest (field values "provenance_digest");
  let p := {| provenance_ref := r; provenance_digest := d; signer_ref := sg; key_id := k; signature := si;
              component_states := states; transaction_cut := cut; issued_at := issued.1; expires_at := expires.1;
              pv_workspace_ref := w; pv_capability_ref := cap; pv_authority_epoch := e; pv_subject_ref := su;
              pv_action := a; query_digest := q; pv_scope_digest := sd; request_digest := rd;
              command_payload_digest := pd |} in
  _ ← ensure (String.eqb d (canonical_ledger_digest "authority-provenance-v2" (signing_body p))) LcInvalidValue;
  Ok p.

(** [validate_at] *)
Definition provenance_validate_at (p : AuthorityProvenanceV2) (now : string) : result contract_error unit :=
  n ← check_instant now; i ← check_instant (issued_at p); e ← check_instant (expires_at p);
  ensure ((i.2 <=? n.2)%Z && (n.2 <? e.2)%Z) LcInvalidValue.

(** ** LedgerReceiptV2 *)

Record LedgerReceiptV2 : Type := {
  rc_version : string; rc_command_ref : string; rc_workspace_ref : string; rc_transaction_cut : string;
  rc_ledger_epoch : string; receipt_digest : string }.

Definition receipt_body (version command_ref workspace_ref cut epoch : string) : list (string * json) :=
  [("receipt_version", JStr version); ("command_ref", JStr command_ref); ("workspace_ref", JStr workspace_ref);
   ("transaction_cut", JStr cut); ("ledger_epoch", JStr epoch)].

Definition receipt_post_init (r : LedgerReceiptV2) : result contract_error LedgerReceiptV2 :=
  _ ← ensure (String.eqb (rc_version r) LEDGER_RECEIPT_V2) LcInvalidValue;
  _ ← check_ref (Some "command") (rc_command_ref r);
  _ ← check_ref (Some "workspace") (rc_workspace_ref r);
  _ ← check_positive (rc_transaction_cut r);
  _ ← check_positive (rc_ledger_epoch r);
  _ ← check_digest (receipt_digest r);
  _ ← ensure (String.eqb (receipt_digest r) (canonical_ledger_digest "receipt-v2"
       (receipt_body (rc_version r) (rc_command_ref r) (rc_workspace_ref r) (rc_transaction_cut r) (rc_ledger_epoch r))))
     LcInvalidValue;
  Ok r.
End Digests.

(** ** RecallTrustAuthorityV2 *)

(** The cryptographic adapter. *)
Class TrustVerifier : Type := {
  verify_signed_bytes : forall (signer_ref algorithm key_id signature payload : string), bool;
}.

Definition is_token_char (c : ascii) : bool :=
  is_lower c || is_digit c || ((65 <=? N_of_ascii c)%N && (N_of_ascii c <=? 90)%N) || Ascii.eqb c "_" || Ascii.eqb c "-".

(** [_verify] *)
Definition trust_verify {T : TrustVerifier} (signer algorithm key sig domain : string) (body : list (string * json)) : bool :=
  if negb (String.eqb algorithm "Ed25519") || negb (str_nonempty sig && str_forall is_token_char sig) then false
  else verify_signed_bytes signer algorithm key sig (canonical_ledger_bytes domain body).

(** The registered provenances by reference. *)
Definition registry : Type := gmap string AuthorityProvenanceV2.

(** [_provenance] *)
Definition trust_provenance (known : registry) (ref digest : string) : result contract_error AuthorityProvenanceV2 :=
  p ← of_option LcInvalidValue (known !! ref);
  _ ← ensure (String.eqb (provenance_digest p) digest) LcInvalidValue; Ok p.

Definition provenance_signed {T : TrustVerifier} (p : AuthorityProvenanceV2) : bool :=
  trust_verify (signer_ref p) "Ed25519" (key_id p) (signature p) "signed-v2" (signing_body p).

(** [register_verified_provenance] at the instant the clock reads. *)
Definition register_verified_provenance {T : TrustVerifier} (known : registry) (now : string) (p : AuthorityProvenanceV2)
    : result contract_error registry :=
  _ ← provenance_validate_at p now;
  _ ← ensure (provenance_signed p) LcInvalidValue;
  _ ← ensure (match known !! provenance_ref p with Some q => bool_decide (q = p) | None => true end) LcInvalidValue;
  Ok (<[provenance_ref p := p]> known).

(** [mint_recall_trust_authority_v2]: each key is the reference of its provenance. *)
Definition mint_registry (entries : list (string * AuthorityProvenanceV2)) : result contract_error registry :=
  _ ← ensure (forallb (fun e => String.eqb e.1 (provenance_ref e.2)) entries) LcInvalidValue;
  Ok (list_to_map entries).

(** ** Instants read back *)

Lemma rstrip0_split l : l = (rstrip0 l ++ repeat "0"%char (length l - length (rstrip0 l)))%list.
Proof.
  induction l as [|c l IH]; [done|]. cbn [rstrip0 length]. destruct (rstrip0 l) as [|d r] eqn:E.
  - cbn [length app] in IH. rewrite Nat.sub_0_r in IH.
    destruct (Ascii.eqb_spec c "0"%char) as [->|]; cbn [app length repeat]; f_equal; rewrite IH at 1; repeat f_equal; lia.
  - cbn [app length] in *. f_equal. rewrite IH at 1. cbn. repeat f_equal; lia.
Qed.

Lemma rstrip0_forall p l : forallb p l = true -> forallb p (rstrip0 l) = true.
Proof. rewrite (rstrip0_split l) at 1. rewrite forallb_app, andb_true_iff. by intros [? _]. Qed.

Lemma number6 z : (0 <= z < SECOND)%Z -> number (digits6 z) = z /\ forallb is_digit (digits6 z) = true.
Proof.
  unfold SECOND. intros Hz. unfold digits6. pose proof (number2 (z / 10000)) as H1. pose proof (number2 (z / 100 mod 100)) as H2.
  pose proof (number2 (z mod 100)) as H3. destruct H1 as [N1 D1]; [div_lia|]. destruct H2 as [N2 D2]; [div_lia|].
  destruct H3 as [N3 D3]; [div_lia|]. rewrite !forallb_app, D1, D2, D3. split; [|done].
  unfold number, digits2 in *. cbn [foldl app] in *. div_lia.
Qed.

Lemma forallb_last {A} (p : A -> bool) l : forallb p (l ++ [])%list = forallb p l.
Proof. by rewrite app_nil_r. Qed.

Lemma scan_fraction_text z : (0 <= z < SECOND)%Z ->
  scan_fraction ((if (z =? 0)%Z then [] else "."%char :: rstrip0 (digits6 z)) ++ ["Z"%char])%list = Some z.
Proof.
  intros Hz. destruct (Z.eqb_spec z 0) as [->|Hne]; [done|]. destruct (number6 z Hz) as [Hn Hd].
  pose proof (rstrip0_split (digits6 z)) as Hs. set (r := rstrip0 (digits6 z)) in *.
  assert (Hr : r <> []).
  { intros E. rewrite E in Hs. cbn [app length] in Hs. rewrite Hs in Hn. vm_compute in Hn. lia. }
  assert (Hlen : length (digits6 z) = 6) by done.
  assert (Hrl : length r <= 6).
  { apply (f_equal length) in Hs. rewrite length_app, repeat_length in Hs. lia. }
  assert (Hv : fraction_value r = z).
  { unfold fraction_value. by rewrite <- Hlen, <- Hs. }
  cbn [app scan_fraction]. destruct (r ++ ["Z"%char])%list as [|c l] eqn:E; [by destruct r|]. rewrite <- E.
  rewrite removelast_last, last_last. rewrite (rstrip0_forall _ _ Hd : forallb is_digit r = true), Hv.
  destruct r as [|d r]; [done|]. replace (length (d :: r) <=? 6)%nat with true by (symmetry; by apply Nat.leb_le). done.
Qed.

Lemma second_text_write t : (second_text t ++ ["Z"%char])%list = write_fields (fields_of t).
Proof. done. Qed.

Lemma parse_instant_text t : in_range t -> parse_instant (instant_text t) = Some t.
Proof.
  intros Ht. destruct (fields_of_valid t Ht) as [Hv Hi]. unfold parse_instant, instant_text.
  rewrite String.list_ascii_of_string_of_list_ascii.
  set (tail := ((if (t mod SECOND =? 0)%Z then _ else _) ++ _)%list).
  assert (Hl : length (second_text t) = 19) by done.
  rewrite (firstn_app 19), Hl, Nat.sub_diag, firstn_O, app_nil_r, (firstn_all2 (second_text t)) by lia.
  rewrite (skipn_app 19), Hl, Nat.sub_diag, (skipn_all2 (second_text t)) by lia. cbn [skipn app].
  rewrite second_text_write, (scan_write _ Hv). cbn [mbind option_bind]. subst tail.
  rewrite drop_0, scan_fraction_text by (unfold SECOND; apply Z.mod_pos_bound; lia). cbn [mbind option_bind].
  rewrite Hv, Hi. unfold whole_second. f_equal. lia.
Qed.

(** An instant that [strftime] writes with six digits is read back too. *)
Lemma scan_fraction_micro z : (0 <= z < SECOND)%Z -> scan_fraction ("."%char :: digits6 z ++ ["Z"%char])%list = Some z.
Proof.
  intros Hz. destruct (number6 z Hz) as [Hn Hd]. cbn [scan_fraction].
  destruct (digits6 z ++ ["Z"%char])%list as [|c l] eqn:E; [done|]. rewrite <- E, removelast_last, last_last, Hd.
  unfold fraction_value. change (length (digits6 z)) with 6. cbn [Nat.sub repeat Nat.leb andb Ascii.eqb Bool.eqb]. by rewrite app_nil_r, Hn.
Qed.

Lemma parse_micro_text t : in_range t -> parse_instant (micro_text t) = Some t.
Proof.
  intros Ht. destruct (fields_of_valid t Ht) as [Hv Hi]. unfold parse_instant, micro_text.
  rewrite String.list_ascii_of_string_of_list_ascii. set (tail := (["."%char] ++ _)%list).
  assert (Hl : length (second_text t) = 19) by done.
  rewrite (firstn_app 19), Hl, Nat.sub_diag, firstn_O, app_nil_r, (firstn_all2 (second_text t)) by lia.
  rewrite (skipn_app 19), Hl, Nat.sub_diag, (skipn_all2 (second_text t)) by lia. cbn [skipn app].
  rewrite second_text_write, (scan_write _ Hv). cbn [mbind option_bind]. subst tail.
  rewrite drop_0. cbn [app]. rewrite scan_fraction_micro by (unfold SECOND; apply Z.mod_pos_bound; lia). cbn [mbind option_bind].
  rewrite Hv, Hi. unfold whole_second. f_equal. lia.
Qed.

Lemma number_bound l : forallb is_digit l = true -> (0 <= number l < 10 ^ Z.of_nat (length l))%Z.
Proof.
  assert (H : forall l a, (0 <= a)%Z -> forallb is_digit l = true ->
    (0 <= foldl (fun a c => 10 * a + digit_value c) a l < (a + 1) * 10 ^ Z.of_nat (length l))%Z).
  { clear l. induction l as [|c l IH]; intros a Ha Hl; cbn [foldl length forallb] in *; [lia|].
    apply andb_true_iff in Hl as [Hc Hl]. unfold is_digit in Hc. rewrite andb_true_iff, !N.leb_le in Hc.
    assert (Hv : (0 <= digit_value c <= 9)%Z) by (unfold digit_value; lia).
    specialize (IH (10 * a + digit_value c)%Z ltac:(lia) Hl). rewrite Nat2Z.inj_succ, Z.pow_succ_r by lia. nia. }
  intros Hl. specialize (H l 0%Z ltac:(lia) Hl). unfold number. lia.
Qed.

Lemma fraction_range digits : forallb is_digit digits = true -> length digits <= 6 -> (0 <= fraction_value digits < SECOND)%Z.
Proof.
  intros Hd Hl. unfold fraction_value. pose proof (number_bound (digits ++ repeat "0"%char (6 - length digits))) as H.
  rewrite length_app, repeat_length in H. replace (length digits + (6 - length digits)) with 6 in H by lia. apply H.
  rewrite forallb_app, Hd. cbn [andb]. apply forallb_forall. by intros x ->%repeat_spec.
Qed.

Lemma scan_fraction_range l m : scan_fraction l = Some m -> (0 <= m < SECOND)%Z.
Proof.
  destruct l as [|c [|d l]]; cbn [scan_fraction]; [done | destruct (Ascii.eqb _ _); [by intros [= <-] | done] |].
  destruct (_ && _) eqn:E; [|done]. intros [= <-]. rewrite !andb_true_iff, Nat.leb_le in E. apply fraction_range; [apply E|].
  destruct E as [_ E]. by apply Nat.leb_le in E.
Qed.

Lemma parse_instant_range s t : parse_instant s = Some t -> in_range t.
Proof.
  unfold parse_instant. intros (f & _ & H)%bind_Some. apply bind_Some in H as (m & Hm%scan_fraction_range & H).
  destruct (valid_fields f) eqn:Hv; [|done]. injection H as <-. destruct (instant_range f Hv) as [Hr Hz].
  unfold in_range, MAX_DAYS, DAY, SECOND in *. div_lia.
Qed.

(** The canonical text of what was read reads back as itself. *)
Lemma check_instant_idem s p : check_instant s = Ok p -> check_instant p.1 = Ok p /\ p.1 = instant_text p.2.
Proof.
  unfold check_instant. destruct (parse_instant s) as [t|] eqn:E; [|done]. intros [= <-]. cbn [fst snd].
  rewrite parse_instant_text by (by eapply parse_instant_range). done.
Qed.
#[global] Arguments instant_text : simpl never.
#[global] Arguments parse_instant : simpl never.

(** ** What was parsed prints to what parses *)

Definition reparses {A} (from : pyval -> result contract_error A) (to : A -> json) (a : A) : Prop :=
  from (of_json (to a)) = Ok a.

Lemma instant_again v p : _instant v = Ok p -> check_instant p.1 = Ok p.
Proof. unfold _instant. intros (s & _ & H)%bind_ok. by apply check_instant_idem in H as [? _]. Qed.

Lemma check_end_again start v o : check_end start v = Ok o ->
  check_end start (of_json (json_of_opt o)) = Ok o.
Proof.
  intros H. assert (Hv : o = None \/ exists p, _instant v = Ok p /\ (start <? p.2)%Z = true /\ o = Some p.1).
  { assert (E : check_end start v = Ok None \/ check_end start v =
      (p ← _instant v; _ ← ensure (start <? p.2)%Z LcInvalidValue; Ok (Some p.1))) by (destruct v; auto).
    destruct E as [E|E]; rewrite E in H; [injection H as <-; by left | right].
    apply bind_ok in H as (p & Hp & H). apply bind_ok in H as (u & Hu%ensure_ok & H). injection H as <-. eauto. }
  destruct Hv as [->|(p & Hp & Hs & ->)]; [done|]. cbn. apply instant_again in Hp. unfold _instant; cbn. rewrite Hp; cbn. by rewrite Hs.
Qed.

(** A check that accepts a value accepts the text it returns. *)
Definition is_text (f : pyval -> result contract_error string) : Prop := forall v s, f v = Ok s -> f (PStr s) = Ok s.

Lemma checked_is_text (check : string -> result contract_error string) :
  (forall s t, check s = Ok t -> t = s) -> is_text (fun v => s ← as_str v; check s).
Proof. intros Hc v s H. destruct v; try discriminate H. cbn in H |- *. pose proof (Hc _ _ H). by subst. Qed.

Ltac check_text := intros ? ? ?; match goal with H : _ = Ok _ |- _ => inv_result H end; done.
Lemma ref_text k : is_text (_ref k).
Proof. apply checked_is_text. unfold check_ref. check_text. Qed.
Lemma digest_text : is_text _digest.
Proof. apply checked_is_text. unfold check_digest. check_text. Qed.
Lemma positive_text : is_text _positive.
Proof. apply checked_is_text. unfold check_positive. check_text. Qed.
Lemma nonempty_text : is_text _text.
Proof. unfold _text. apply (checked_is_text (fun s => _ ← ensure (str_nonempty s) LcInvalidValue; Ok s)). check_text. Qed.
Lemma signature_text : is_text _signature.
Proof. unfold _signature. apply (checked_is_text (fun s => _ ← ensure (is_signature s) LcInvalidValue; Ok s)). check_text. Qed.
Lemma member_text l : is_text (fun v => _member v l).
Proof.
  intros v s H. unfold _member in *. inv_result H. destruct v; try discriminate. injection E0 as ->. subst. cbn. by rewrite E1.
Qed.

Lemma optional_text f v o : is_text f -> _optional f v = Ok o -> _optional f (of_json (json_of_opt o)) = Ok o.
Proof.
  intros Hf H. destruct o as [s|]; [|done].
  assert (E : f v = Ok s) by (destruct v; cbn in H; try discriminate H; inv_result H; by simplify_eq).
  cbn. by rewrite (Hf _ _ E).
Qed.

Lemma instant_text_again v p : _instant v = Ok p -> _instant (PStr p.1) = Ok p.
Proof. intros H. unfold _instant; cbn. by eapply instant_again. Qed.

(** A tuple of parsed values. *)
Lemma typed_tuple_again {A} (from : pyval -> result contract_error A) (to : A -> json) v l :
  (forall v a, from v = Ok a -> reparses from to a) -> _typed_tuple from v = Ok l ->
  _typed_tuple from (of_json (JArr (map to l))) = Ok l.
Proof.
  intros Hf H. assert (Hl : exists vs, map_result from vs = Ok l) by (destruct v; try discriminate H; eauto).
  destruct Hl as [vs Hvs]. apply map_result_ok in Hvs. cbn. rewrite map_map. apply map_result_ok.
  clear H. induction Hvs as [|v' a vs l Hva _ IH]; [constructor | constructor; [by eapply Hf | exact IH]].
Qed.

(** Parsing again what was accepted field by field. *)
Ltac parse_again :=
  repeat match goal with
  | E : _ref ?k (field ?m ?x) = Ok _ |- _ => apply ref_text in E
  | E : _digest (field ?m ?x) = Ok _ |- _ => apply digest_text in E
  | E : _positive (field ?m ?x) = Ok _ |- _ => apply positive_text in E
  | E : _text (field ?m ?x) = Ok _ |- _ => apply nonempty_text in E
  | E : _signature (field ?m ?x) = Ok _ |- _ => apply signature_text in E
  | E : _member (field ?m ?x) ?l = Ok _ |- _ => apply (member_text l) in E
  | E : _instant (field ?m ?x) = Ok _ |- _ => apply instant_text_again in E
  | E : check_end _ (field ?m ?x) = Ok _ |- _ => apply check_end_again in E
  | E : _optional (_ref ?k) (field ?m ?x) = Ok _ |- _ => apply (optional_text _ _ _ (ref_text k)) in E
  | E : _optional _digest (field ?m ?x) = Ok _ |- _ => apply (optional_text _ _ _ digest_text) in E
  end.

Lemma gate_again v g : gate_from_mapping v = Ok g -> reparses gate_from_mapping gate_to_mapping g.
Proof.
  unfold reparses, gate_from_mapping at 1. intros H. inv_result H. parse_again. subst g.
  unfold gate_from_mapping, gate_to_mapping. cbn -[_member _positive _digest]. replay. done.
Qed.

Lemma interval_again v i : interval_from_mapping v = Ok i -> reparses interval_from_mapping interval_to_mapping i.
Proof.
  unfold reparses, interval_from_mapping at 1. intros H. inv_result H. parse_again. subst i.
  unfold interval_from_mapping, interval_to_mapping. cbn -[_instant check_end json_of_opt]. replay. done.
Qed.

Lemma edge_again v e : edge_from_mapping v = Ok e -> reparses edge_from_mapping edge_to_mapping e.
Proof.
  unfold reparses, edge_from_mapping at 1. intros H. inv_result H. parse_again. subst e.
  match goal with E : interval_from_mapping _ = Ok _ |- _ => apply interval_again in E; unfold reparses in E end.
  unfold edge_from_mapping, edge_to_mapping. cbn -[_ref _member interval_from_mapping interval_to_mapping]. replay. done.
Qed.

Lemma need_list_again {A} (to : A -> json) l : need_list (of_json (JArr (map to l))) = Ok tt.
Proof. done. Qed.

Lemma payload_again v p : payload_from_mapping v = Ok p ->
  reparses payload_from_mapping (fun p => JObj (payload_to_mapping p)) p.
Proof.
  unfold reparses, payload_from_mapping at 1. intros H. inv_result H. parse_again. subst p.
  repeat match goal with E : _typed_tuple edge_from_mapping (field _ _) = Ok _ |- _ =>
    apply (typed_tuple_again edge_from_mapping edge_to_mapping _ _ edge_again) in E end.
  unfold payload_from_mapping, payload_to_mapping.
  cbn -[_ref _member _optional _typed_tuple edge_from_mapping edge_to_mapping json_of_opt].
  cbn [of_json] in *. replay. done.
Qed.

Lemma expected_again k v x : expected_revision k v = Ok x -> expected_revision k (of_json (json_of_opt x)) = Ok x.
Proof.
  unfold expected_revision. destruct (String.eqb k "CREATE_CANDIDATE").
  - destruct v; try discriminate. by intros [= <-].
  - intros H. inv_result H. subst x. apply ref_text in E. cbn [json_of_opt of_json]. by rewrite E.
Qed.

Lemma related_again v l : related_refs v = Ok l -> related_refs (of_json (JArr (map JStr l))) = Ok l.
Proof.
  intros H. assert (Hl : exists vs, (map_result (_ref (Some "candidate")) vs = Ok l /\ str_unique l = true)).
  { assert (E : exists vs, (_ ← ensure (forallb hashable vs) LcTypeError; refs ← map_result (_ref (Some "candidate")) vs;
      _ ← ensure (str_unique refs) LcInvalidValue; Ok refs) = Ok l) by (destruct v; try discriminate H; eauto).
    clear H. destruct E as [vs H]. exists vs. apply bind_ok in H as (u & _ & H). apply bind_ok in H as (refs & Hr & H).
    apply bind_ok in H as (u' & Hu%ensure_ok & H). by injection H as ->. }
  destruct Hl as (vs & Hvs & Hu).
  assert (E : of_json (JArr (map JStr l)) = PList (map PStr l)) by (cbn [of_json]; by rewrite map_map).
  rewrite E. unfold related_refs.
  assert (Hh : forallb hashable (map PStr l) = true) by (clear; induction l; done). rewrite Hh. cbn [ensure mbind result_bind].
  assert (Hm : map_result (_ref (Some "candidate")) (map PStr l) = Ok l).
  { apply map_result_ok in Hvs. apply map_result_ok. clear -Hvs.
    induction Hvs as [|v' a vs l Hva _ IH]; [constructor | constructor; [by eapply ref_text | exact IH]]. }
  rewrite Hm. cbn [mbind result_bind]. by rewrite Hu.
Qed.

Lemma bound_again {D : Digest} v domain body d : _bound v domain body = Ok d -> _bound (PStr d) domain body = Ok d.
Proof. unfold _bound. intros H. inv_result H. subst. apply digest_text in E. rewrite E. cbn. by rewrite E0. Qed.

(** C32: a ledger command survives the wire: printing an accepted command and parsing
    the result accepts it again, as the same command, with every digest still binding. *)
Theorem ledger_command_roundtrip {D : Digest} data c : ledger_command_from_mapping data = Ok c ->
  ledger_command_from_mapping (of_json (JObj (ledger_command_to_mapping c))) = Ok c.
Proof.
  unfold ledger_command_from_mapping at 1. intros H. inv_result H. parse_again. subst c.
  repeat match goal with
  | E : interval_from_mapping (field _ _) = Ok _ |- _ => apply interval_again in E; unfold reparses in E
  | E : payload_from_mapping (field _ _) = Ok _ |- _ => apply payload_again in E; unfold reparses in E
  | E : related_refs (field _ _) = Ok _ |- _ => apply related_again in E
  | E : expected_revision _ (field _ _) = Ok _ |- _ => apply expected_again in E
  | E : _bound (field _ _) _ _ = Ok _ |- _ => apply bound_again in E
  end.
  unfold ledger_command_from_mapping, ledger_command_to_mapping.
  cbn -[_ref _member _optional _digest _positive _text interval_from_mapping payload_from_mapping payload_to_mapping
        interval_to_mapping related_refs expected_revision _bound json_of_opt canonical_ledger_digest command_matrix
        without ledger_command_to_mapping].
  cbn [of_json] in *. replay.
  match goal with E : ensure (String.eqb _ _) _ = Ok ?u |- mbind _ ?m = _ =>
    replace m with (@Ok contract_error unit u) by (symmetry; exact E) end. done.
Qed.

(** A command that creates a candidate, sealed with the digests its parser checks. *)
Definition sample_command {D : Digest} : LedgerCommandV2 :=
  let fill c := String.string_of_list_ascii (repeat c 64) in
  let body := {| candidate_ref := "candidate:" +:+ fill "e"%char; prior_state := "ABSENT"; resulting_state := "PENDING";
                 payload_content_digest := Some (fill "f"%char); support_edges := []; contradiction_edges := [] |} in
  let sealed d :=
    {| command_ref := "command:" +:+ fill "1"%char; cmd_workspace_ref := "workspace:" +:+ fill "a"%char;
       cmd_capability_ref := "capability:" +:+ fill "b"%char; cmd_authority_epoch := "1";
       cmd_subject_ref := "subject:" +:+ fill "c"%char; cmd_action := "WRITE"; cmd_scope_digest := fill "d"%char;
       kind := "CREATE_CANDIDATE"; target_candidate_ref := None; expected_active_revision_ref := None;
       related_candidate_refs := [];
       interval := {| valid_from := "2024-01-01T00:00:00Z"; valid_to := Some "2024-06-01T00:00:00.5Z";
                      recorded_from := "2024-01-01T00:00:00Z"; recorded_to := None |};
       cmd_payload := body; cmd_payload_digest := canonical_ledger_digest "command-payload-v2" (payload_to_mapping body);
       cmd_provenance_ref := "provenance:" +:+ fill "1"%char; cmd_provenance_digest := fill "2"%char; command_digest := d |} in
  sealed (canonical_ledger_digest "command-v2" (without ["command_digest"] (ledger_command_to_mapping (sealed "")))).

Lemma ledger_command_roundtrip_witness :
  let wire := ledger_command_to_mapping (@sample_command pad_digest) in
  @ledger_command_from_mapping pad_digest (of_json (JObj wire)) = Ok (@sample_command pad_digest) /\
  @ledger_command_from_mapping pad_digest
    (of_json (JObj (ledger_command_to_mapping (@sample_command pad_digest)))) = Ok (@sample_command pad_digest).
Proof.
  assert (H : @ledger_command_from_mapping pad_digest
    (of_json (JObj (ledger_command_to_mapping (@sample_command pad_digest)))) = Ok (@sample_command pad_digest))
    by (vm_compute; reflexivity).
  split; [exact H | exact (@ledger_command_roundtrip pad_digest _ _ H)].
Defined.
