(* ===== verification/Decimals.v ===== *)
(** * Decimal text in order

    [(len(a), a) <= (len(b), b)] on the texts of two numbers compares the numbers. *)
From S2P Require Import Prelude Digest Text.
Open Scope string_scope.

(** [length(a)<length(b) OR (length(a)=length(b) AND a<=b)] *)
Definition decimal_leb (a b : string) : bool :=
  (String.length a <? String.length b)%nat || ((String.length a =? String.length b)%nat && str_leb a b).

Fixpoint decimal_value (acc : N) (s : string) : N :=
  match s with
  | EmptyString => acc
  | String c s => decimal_value (10 * acc + (N_of_ascii c - 48)) s
  end.

Lemma decimal_value_bound s acc : str_forall is_digit s = true ->
  (acc * 10 ^ N.of_nat (String.length s) <= decimal_value acc s < (acc + 1) * 10 ^ N.of_nat (String.length s))%N.
Proof.
  revert acc. induction s as [|c s IH]; intros acc H; cbn [decimal_value String.length]; [cbn; lia|].
  cbn [str_forall] in H. apply andb_true_iff in H as [Hc Hs]. specialize (IH (10 * acc + (N_of_ascii c - 48))%N Hs).
  rewrite Nat2N.inj_succ, N.pow_succ_r'.
  assert (N_of_ascii c - 48 <= 9)%N.
  { unfold is_digit, digit_of in Hc. destruct ((48 <=? N_of_ascii c)%N && (N_of_ascii c <=? 57)%N) eqn:E; [|done].
    apply andb_true_iff in E as [_ E%N.leb_le]. lia. }
  nia.
Qed.

Lemma digit_code c : is_digit c = true -> (48 <= N_of_ascii c <= 57)%N /\ digit_of c = Some (N_of_ascii c - 48)%N.
Proof.
  unfold is_digit, digit_of. destruct ((48 <=? N_of_ascii c)%N && (N_of_ascii c <=? 57)%N) eqn:E; [|done].
  apply andb_true_iff in E as [E1%N.leb_le E2%N.leb_le]. done.
Qed.

Lemma int_digits_value s acc : str_forall is_digit s = true -> int_digits acc s = Some (decimal_value acc s).
Proof.
  revert acc. induction s as [|c s IH]; intros acc H; [done|]. cbn [str_forall] in H. apply andb_true_iff in H as [Hc Hs].
  apply digit_code in Hc as [_ Hc]. cbn [int_digits decimal_value]. rewrite Hc, IH by done. do 2 f_equal. lia.
Qed.

(** On digits of the same length the order of the texts is the order of the values. *)
Lemma leb_value s t a : String.length s = String.length t -> str_forall is_digit s = true -> str_forall is_digit t = true ->
  str_leb s t = (decimal_value a s <=? decimal_value a t)%N.
Proof.
  revert t a. induction s as [|c s IH]; intros [|d t] a Hl Hs Ht; try discriminate Hl.
  - cbn. by rewrite N.leb_refl.
  - cbn [str_forall] in Hs, Ht. apply andb_true_iff in Hs as [Hc Hs], Ht as [Hd Ht]. injection Hl as Hl.
    apply digit_code in Hc as [Hc _], Hd as [Hd _]. cbn [decimal_value]. unfold str_leb, String.leb. cbn [String.compare].
    unfold Ascii.compare. destruct (N.compare_spec (N_of_ascii c) (N_of_ascii d)) as [E|E|E].
    + rewrite E. apply IH; done.
    + symmetry. apply N.leb_le. pose proof (decimal_value_bound s (10 * a + (N_of_ascii c - 48)) Hs).
      pose proof (decimal_value_bound t (10 * a + (N_of_ascii d - 48)) Ht). rewrite Hl in *. nia.
    + symmetry. apply N.leb_gt. pose proof (decimal_value_bound s (10 * a + (N_of_ascii c - 48)) Hs).
      pose proof (decimal_value_bound t (10 * a + (N_of_ascii d - 48)) Ht). rewrite Hl in *. nia.
Qed.

Lemma str_of_N_value n : str_forall is_digit (str_of_N n) = true /\ decimal_value 0 (str_of_N n) = n.
Proof.
  unfold str_of_N. pose proof (to_uint_nonnil n) as Hn. pose proof (DecimalN.Unsigned.of_to n) as Hof.
  pose proof (int_unsigned_uint _ Hn) as Hu.
  assert (Hd : str_forall is_digit (NilZero.string_of_uint (N.to_uint n)) = true)
    by (destruct (N.to_uint n); [done | apply string_of_uint_digits ..]).
  split; [done|]. rewrite Hof in Hu. destruct (NilZero.string_of_uint (N.to_uint n)) as [|c s]; [done|].
  cbn [str_forall] in Hd. apply andb_true_iff in Hd as [Hc Hs]. apply digit_code in Hc as [_ Hc].
  cbn [int_unsigned] in Hu. rewrite Hc in Hu. cbn [mbind option_bind] in Hu. rewrite int_digits_value in Hu by done.
  injection Hu as Hu. cbn [decimal_value]. rewrite <- Hu at 1. reflexivity.
Qed.

Lemma digit_count_all s : str_forall is_digit s = true -> digit_count s = String.length s.
Proof.
  induction s as [|c s IH]; [done|]. cbn [str_forall]. intros [Hc Hs]%andb_true_iff. apply digit_code in Hc as [_ Hc].
  cbn [digit_count String.length]. by rewrite Hc, IH.
Qed.

(** A longer text is a larger number. *)
Lemma longer_larger n m : String.length (str_of_N n) < String.length (str_of_N m) -> (n < m)%N.
Proof.
  intros H. destruct (str_of_N_value n) as [Hn En], (str_of_N_value m) as [Hm _].
  apply N.nle_gt. intros Hle. pose proof (decimal_value_bound _ 0 Hn) as Hb. rewrite En in Hb.
  rewrite <- (digit_count_all _ Hm) in H. apply Nat.lt_nge in H. apply H. apply str_of_N_digits; [|lia].
  destruct (str_of_N n) as [|c s] eqn:Es; cbn; [|lia]. cbn in En. subst n. discriminate Es.
Qed.

Lemma decimal_leb_of_N n m : decimal_leb (str_of_N n) (str_of_N m) = (n <=? m)%N.
Proof.
  destruct (str_of_N_value n) as [Hn En], (str_of_N_value m) as [Hm Em]. unfold decimal_leb.
  destruct (lt_eq_lt_dec (String.length (str_of_N n)) (String.length (str_of_N m))) as [[H|H]|H].
  - rewrite (proj2 (Nat.ltb_lt _ _) H). symmetry. apply N.leb_le. apply longer_larger in H. lia.
  - rewrite H, Nat.ltb_irrefl, Nat.eqb_refl. cbn [orb andb]. rewrite (leb_value _ _ 0) by done. by rewrite En, Em.
  - replace (String.length (str_of_N n) <? String.length (str_of_N m))%nat with false by (symmetry; apply Nat.ltb_ge; lia).
    replace (String.length (str_of_N n) =? String.length (str_of_N m))%nat with false by (symmetry; apply Nat.eqb_neq; lia).
    symmetry. apply N.leb_gt. by apply longer_larger.
Qed.

Lemma decimal_leb_trans a b c : decimal_leb a b = true -> decimal_leb b c = true -> decimal_leb a c = true.
Proof.
  unfold decimal_leb. rewrite !orb_true_iff, !andb_true_iff, !Nat.ltb_lt, !Nat.eqb_eq.
  intros [?|[? H1]] [?|[? H2]]; [left; lia.. | right]. split; [lia|]. by eapply str_leb_trans.
Qed.
