(* ===== verification/Ledger.v ===== *)
(** * The ledger's writer (infrastructure/second_brain_ledger.py, infrastructure/lifecycle_db.py)

    The ledger tables of the lifecycle database with the statements the writer runs on
    them, and the operations of [LifecycleLedgerAuthority] that write: registering the
    authority of a workspace, classifying and promoting legacy workspaces, and appending a
    command, in one transaction, with its provenance, its revision and version rows, its
    citation, its edges, the cascade of a revocation, its event and its receipt. *)
From S2P Require Import Prelude Digest Json Canonical Contracts Timestamps RuntimeContracts LedgerContracts LedgerGraph.
Open Scope string_scope.

(** LedgerAuthorityError with its message; the contract errors; sqlite3.IntegrityError of a
    key; EventChainError; what the content store raises; OverflowError of a date. *)
Inductive ledger_error : Type :=
| LedgerAuthorityError (message : string)
| LedgerContract (e : contract_error)
| LedgerEvent (e : core_error)
| IntegrityError
| EventChainError
| ContentStoreError
| OverflowError.

#[export] Instance ledger_error_eq_dec : EqDecision ledger_error.
Proof. solve_decision. Defined.

(** ** Tables *)

Record candidate_row : Type := {
  ca_workspace : string; ca_state : string; ca_revision : string; ca_content : string; ca_epoch : string;
  ca_valid_from : string; ca_valid_to : option string; ca_recorded_from : string; ca_recorded_to : option string }.

Record version_row : Type := {
  ve_candidate : string; ve_revision : string; ve_workspace : string; ve_state : string; ve_content : string;
  ve_epoch : string; ve_valid_from : string; ve_valid_to : option string; ve_recorded_from : string;
  ve_recorded_to : option string; ve_start_cut : string; ve_end_cut : option string; ve_command : string }.

#[export] Instance version_row_eq_dec : EqDecision version_row.
Proof. solve_decision. Defined.

Record revision_row : Type := {
  re_candidate : string; re_workspace : string; re_content : string; re_state : string; re_recorded : string }.

Record transition_row : Type := {
  tr_candidate : string; tr_workspace : string; tr_prior : string; tr_result : string; tr_epoch : string;
  tr_digest : string; tr_recorded : string }.

Record edge_row : Type := {
  ed_ref : string; ed_workspace : string; ed_kind : string; ed_from : string; ed_to : string; ed_state : string;
  ed_valid_from : string; ed_valid_to : option string; ed_recorded_from : string; ed_recorded_to : option string;
  ed_start_cut : string; ed_end_cut : option string }.

Record command_row : Type := {
  co_workspace : string; co_digest : string; co_receipt : string; co_sequence : string; co_epoch : string;
  co_state : string; co_recorded : string }.

Record authority_row : Type := { au_capability : string; au_epoch : string; au_state : string; au_updated : string }.

Record provenance_row : Type := {
  pr_digest : string; pr_workspace : string; pr_command : option string; pr_request : option string; pr_state : string;
  pr_recorded : string; pr_payload_hex : option string }.

Record citation_row : Type := {
  ci_workspace : string; ci_locator_ref : string; ci_locator_digest : string; ci_source_ref : string; ci_content : string;
  ci_generation : string; ci_checkpoint : string; ci_provenance : string; ci_digest : string; ci_state : string;
  ci_recorded : string }.

Record cursor_row : Type := {
  cu_workspace : string; cu_sequence : string; cu_state_digest : string; cu_after : string; cu_recorded : string;
  cu_expires : string }.

Record sequence_row : Type := { sq_sequence : string; sq_epoch : string; sq_updated : string }.

Record migration_row : Type := {
  mi_ref : string; mi_workspace : string; mi_state : string; mi_digest : string; mi_recorded : string }.

Record receipt_row : Type := { mr_workspace : string; mr_state : string }.

Record event_row : Type := { ev_prev : option string; ev_kind : string; ev_ref : string; ev_digest : string }.

Record outbox_row : Type := { ob_kind : string; ob_ref : string; ob_state : string }.

(** Tables that are only looked up by their primary key are maps; those that are scanned or
    ordered by rowid are lists, oldest row first. *)
Record ledger_db : Type := {
  ledger_candidate : gmap string candidate_row;
  ledger_candidate_version : list version_row;
  ledger_revision : gmap string revision_row;
  ledger_transition : gmap string transition_row;
  ledger_edge : list edge_row;
  ledger_command : gmap string command_row;
  ledger_authority : gmap string authority_row;
  ledger_provenance : gmap string provenance_row;
  ledger_citation_commitment : gmap (string * string) citation_row;
  ledger_recall_cursor : gmap string cursor_row;
  ledger_sequence : gmap string sequence_row;
  ledger_migration : list migration_row;
  ledger_migration_receipt : gmap string receipt_row;
  ledger_candidate_version_closure : gmap (string * string) (string * string);
  ledger_edge_closure : gmap string (string * string);
  event_log : list event_row;
  outbox : list outbox_row;
}.

Definition empty_db : ledger_db :=
  {| ledger_candidate := ∅; ledger_candidate_version := []; ledger_revision := ∅; ledger_transition := ∅; ledger_edge := [];
     ledger_command := ∅; ledger_authority := ∅; ledger_provenance := ∅; ledger_citation_commitment := ∅;
     ledger_recall_cursor := ∅; ledger_sequence := ∅; ledger_migration := []; ledger_migration_receipt := ∅;
     ledger_candidate_version_closure := ∅; ledger_edge_closure := ∅; event_log := []; outbox := [] |}.

Definition put_candidate v (d : ledger_db) : ledger_db :=
  {| ledger_candidate := v; ledger_candidate_version := ledger_candidate_version d; ledger_revision :=
     ledger_revision d; ledger_transition := ledger_transition d; ledger_edge := ledger_edge d; ledger_command
     := ledger_command d; ledger_authority := ledger_authority d; ledger_provenance := ledger_provenance d;
     ledger_citation_commitment := ledger_citation_commitment d; ledger_recall_cursor := ledger_recall_cursor d;
     ledger_sequence := ledger_sequence d; ledger_migration := ledger_migration d; ledger_migration_receipt :=
     ledger_migration_receipt d; ledger_candidate_version_closure := ledger_candidate_version_closure d;
     ledger_edge_closure := ledger_edge_closure d; event_log := event_log d; outbox := outbox d |}.
Definition put_versions v (d : ledger_db) : ledger_db :=
  {| ledger_candidate := ledger_candidate d; ledger_candidate_version := v; ledger_revision := ledger_revision
     d; ledger_transition := ledger_transition d; ledger_edge := ledger_edge d; ledger_command := ledger_command
     d; ledger_authority := ledger_authority d; ledger_provenance := ledger_provenance d;
     ledger_citation_commitment := ledger_citation_commitment d; ledger_recall_cursor := ledger_recall_cursor d;
     ledger_sequence := ledger_sequence d; ledger_migration := ledger_migration d; ledger_migration_receipt :=
     ledger_migration_receipt d; ledger_candidate_version_closure := ledger_candidate_version_closure d;
     ledger_edge_closure := ledger_edge_closure d; event_log := event_log d; outbox := outbox d |}.
Definition put_revisions v (d : ledger_db) : ledger_db :=
  {| ledger_candidate := ledger_candidate d; ledger_candidate_version := ledger_candidate_version d;
     ledger_revision := v; ledger_transition := ledger_transition d; ledger_edge := ledger_edge d;
     ledger_command := ledger_command d; ledger_authority := ledger_authority d; ledger_provenance :=
     ledger_provenance d; ledger_citation_commitment := ledger_citation_commitment d; ledger_recall_cursor :=
     ledger_recall_cursor d; ledger_sequence := ledger_sequence d; ledger_migration := ledger_migration d;
     ledger_migration_receipt := ledger_migration_receipt d; ledger_candidate_version_closure :=
     ledger_candidate_version_closure d; ledger_edge_closure := ledger_edge_closure d; event_log := event_log d;
     outbox := outbox d |}.
Definition put_transitions v (d : ledger_db) : ledger_db :=
  {| ledger_candidate := ledger_candidate d; ledger_candidate_version := ledger_candidate_version d;
     ledger_revision := ledger_revision d; ledger_transition := v; ledger_edge := ledger_edge d; ledger_command
     := ledger_command d; ledger_authority := ledger_authority d; ledger_provenance := ledger_provenance d;
     ledger_citation_commitment := ledger_citation_commitment d; ledger_recall_cursor := ledger_recall_cursor d;
     ledger_sequence := ledger_sequence d; ledger_migration := ledger_migration d; ledger_migration_receipt :=
     ledger_migration_receipt d; ledger_candidate_version_closure := ledger_candidate_version_closure d;
     ledger_edge_closure := ledger_edge_closure d; event_log := event_log d; outbox := outbox d |}.
Definition put_edges v (d : ledger_db) : ledger_db :=
  {| ledger_candidate := ledger_candidate d; ledger_candidate_version := ledger_candidate_version d;
     ledger_revision := ledger_revision d; ledger_transition := ledger_transition d; ledger_edge := v;
     ledger_command := ledger_command d; ledger_authority := ledger_authority d; ledger_provenance :=
     ledger_provenance d; ledger_citation_commitment := ledger_citation_commitment d; ledger_recall_cursor :=
     ledger_recall_cursor d; ledger_sequence := ledger_sequence d; ledger_migration := ledger_migration d;
     ledger_migration_receipt := ledger_migration_receipt d; ledger_candidate_version_closure :=
     ledger_candidate_version_closure d; ledger_edge_closure := ledger_edge_closure d; event_log := event_log d;
     outbox := outbox d |}.
Definition put_commands v (d : ledger_db) : ledger_db :=
  {| ledger_candidate := ledger_candidate d; ledger_candidate_version := ledger_candidate_version d;
     ledger_revision := ledger_revision d; ledger_transition := ledger_transition d; ledger_edge := ledger_edge
     d; ledger_command := v; ledger_authority := ledger_authority d; ledger_provenance := ledger_provenance d;
     ledger_citation_commitment := ledger_citation_commitment d; ledger_recall_cursor := ledger_recall_cursor d;
     ledger_sequence := ledger_sequence d; ledger_migration := ledger_migration d; ledger_migration_receipt :=
     ledger_migration_receipt d; ledger_candidate_version_closure := ledger_candidate_version_closure d;
     ledger_edge_closure := ledger_edge_closure d; event_log := event_log d; outbox := outbox d |}.
Definition put_authority v (d : ledger_db) : ledger_db :=
  {| ledger_candidate := ledger_candidate d; ledger_candidate_version := ledger_candidate_version d;
     ledger_revision := ledger_revision d; ledger_transition := ledger_transition d; ledger_edge := ledger_edge
     d; ledger_command := ledger_command d; ledger_authority := v; ledger_provenance := ledger_provenance d;
     ledger_citation_commitment := ledger_citation_commitment d; ledger_recall_cursor := ledger_recall_cursor d;
     ledger_sequence := ledger_sequence d; ledger_migration := ledger_migration d; ledger_migration_receipt :=
     ledger_migration_receipt d; ledger_candidate_version_closure := ledger_candidate_version_closure d;
     ledger_edge_closure := ledger_edge_closure d; event_log := event_log d; outbox := outbox d |}.
Definition put_provenance v (d : ledger_db) : ledger_db :=
  {| ledger_candidate := ledger_candidate d; ledger_candidate_version := ledger_candidate_version d;
     ledger_revision := ledger_revision d; ledger_transition := ledger_transition d; ledger_edge := ledger_edge
     d; ledger_command := ledger_command d; ledger_authority := ledger_authority d; ledger_provenance := v;
     ledger_citation_commitment := ledger_citation_commitment d; ledger_recall_cursor := ledger_recall_cursor d;
     ledger_sequence := ledger_sequence d; ledger_migration := ledger_migration d; ledger_migration_receipt :=
     ledger_migration_receipt d; ledger_candidate_version_closure := ledger_candidate_version_closure d;
     ledger_edge_closure := ledger_edge_closure d; event_log := event_log d; outbox := outbox d |}.
Definition put_citations v (d : ledger_db) : ledger_db :=
  {| ledger_candidate := ledger_candidate d; ledger_candidate_version := ledger_candidate_version d;
     ledger_revision := ledger_revision d; ledger_transition := ledger_transition d; ledger_edge := ledger_edge
     d; ledger_command := ledger_command d; ledger_authority := ledger_authority d; ledger_provenance :=
     ledger_provenance d; ledger_citation_commitment := v; ledger_recall_cursor := ledger_recall_cursor d;
     ledger_sequence := ledger_sequence d; ledger_migration := ledger_migration d; ledger_migration_receipt :=
     ledger_migration_receipt d; ledger_candidate_version_closure := ledger_candidate_version_closure d;
     ledger_edge_closure := ledger_edge_closure d; event_log := event_log d; outbox := outbox d |}.
Definition put_cursors v (d : ledger_db) : ledger_db :=
  {| ledger_candidate := ledger_candidate d; ledger_candidate_version := ledger_candidate_version d;
     ledger_revision := ledger_revision d; ledger_transition := ledger_transition d; ledger_edge := ledger_edge
     d; ledger_command := ledger_command d; ledger_authority := ledger_authority d; ledger_provenance :=
     ledger_provenance d; ledger_citation_commitment := ledger_citation_commitment d; ledger_recall_cursor := v;
     ledger_sequence := ledger_sequence d; ledger_migration := ledger_migration d; ledger_migration_receipt :=
     ledger_migration_receipt d; ledger_candidate_version_closure := ledger_candidate_version_closure d;
     ledger_edge_closure := ledger_edge_closure d; event_log := event_log d; outbox := outbox d |}.
Definition put_sequence v (d : ledger_db) : ledger_db :=
  {| ledger_candidate := ledger_candidate d; ledger_candidate_version := ledger_candidate_version d;
     ledger_revision := ledger_revision d; ledger_transition := ledger_transition d; ledger_edge := ledger_edge
     d; ledger_command := ledger_command d; ledger_authority := ledger_authority d; ledger_provenance :=
     ledger_provenance d; ledger_citation_commitment := ledger_citation_commitment d; ledger_recall_cursor :=
     ledger_recall_cursor d; ledger_sequence := v; ledger_migration := ledger_migration d;
     ledger_migration_receipt := ledger_migration_receipt d; ledger_candidate_version_closure :=
     ledger_candidate_version_closure d; ledger_edge_closure := ledger_edge_closure d; event_log := event_log d;
     outbox := outbox d |}.
Definition put_migration v (d : ledger_db) : ledger_db :=
  {| ledger_candidate := ledger_candidate d; ledger_candidate_version := ledger_candidate_version d;
     ledger_revision := ledger_revision d; ledger_transition := ledger_transition d; ledger_edge := ledger_edge
     d; ledger_command := ledger_command d; ledger_authority := ledger_authority d; ledger_provenance :=
     ledger_provenance d; ledger_citation_commitment := ledger_citation_commitment d; ledger_recall_cursor :=
     ledger_recall_cursor d; ledger_sequence := ledger_sequence d; ledger_migration := v;
     ledger_migration_receipt := ledger_migration_receipt d; ledger_candidate_version_closure :=
     ledger_candidate_version_closure d; ledger_edge_closure := ledger_edge_closure d; event_log := event_log d;
     outbox := outbox d |}.
Definition put_closures v (d : ledger_db) : ledger_db :=
  {| ledger_candidate := ledger_candidate d; ledger_candidate_version := ledger_candidate_version d;
     ledger_revision := ledger_revision d; ledger_transition := ledger_transition d; ledger_edge := ledger_edge
     d; ledger_command := ledger_command d; ledger_authority := ledger_authority d; ledger_provenance :=
     ledger_provenance d; ledger_citation_commitment := ledger_citation_commitment d; ledger_recall_cursor :=
     ledger_recall_cursor d; ledger_sequence := ledger_sequence d; ledger_migration := ledger_migration d;
     ledger_migration_receipt := ledger_migration_receipt d; ledger_candidate_version_closure := v;
     ledger_edge_closure := ledger_edge_closure d; event_log := event_log d; outbox := outbox d |}.
Definition put_events v (d : ledger_db) : ledger_db :=
  {| ledger_candidate := ledger_candidate d; ledger_candidate_version := ledger_candidate_version d;
     ledger_revision := ledger_revision d; ledger_transition := ledger_transition d; ledger_edge := ledger_edge
     d; ledger_command := ledger_command d; ledger_authority := ledger_authority d; ledger_provenance :=
     ledger_provenance d; ledger_citation_commitment := ledger_citation_commitment d; ledger_recall_cursor :=
     ledger_recall_cursor d; ledger_sequence := ledger_sequence d; ledger_migration := ledger_migration d;
     ledger_migration_receipt := ledger_migration_receipt d; ledger_candidate_version_closure :=
     ledger_candidate_version_closure d; ledger_edge_closure := ledger_edge_closure d; event_log := v; outbox :=
     outbox d |}.
Definition put_outbox v (d : ledger_db) : ledger_db :=
  {| ledger_candidate := ledger_candidate d; ledger_candidate_version := ledger_candidate_version d;
     ledger_revision := ledger_revision d; ledger_transition := ledger_transition d; ledger_edge := ledger_edge
     d; ledger_command := ledger_command d; ledger_authority := ledger_authority d; ledger_provenance :=
     ledger_provenance d; ledger_citation_commitment := ledger_citation_commitment d; ledger_recall_cursor :=
     ledger_recall_cursor d; ledger_sequence := ledger_sequence d; ledger_migration := ledger_migration d;
     ledger_migration_receipt := ledger_migration_receipt d; ledger_candidate_version_closure :=
     ledger_candidate_version_closure d; ledger_edge_closure := ledger_edge_closure d; event_log := event_log d;
     outbox := v |}.

(** ** Statements *)

Definition absent {A} (o : option A) : bool := match o with Some _ => false | None => true end.

(** The active support edges, as the search reads them. *)
Definition active (kind : string) (e : edge_row) : bool :=
  String.eqb (ed_kind e) kind && String.eqb (ed_state e) "ACTIVE" && absent (ed_end_cut e).

Definition ends (e : edge_row) : edge := (ed_from e, ed_to e).

Definition support_graph (d : ledger_db) : list edge := map ends (List.filter (active "SUPPORT") (ledger_edge d)).

(** [SELECT ... ORDER BY rowid DESC LIMIT 1] *)
Definition last_migration (d : ledger_db) (ws : string) : option migration_row :=
  list.last (List.filter (fun m => String.eqb (mi_workspace m) ws) (ledger_migration d)).

Definition map_any {V} (p : V -> bool) {K} `{Countable K} (m : gmap K V) : bool := existsb p (map_to_list m).*2.

(** One of the nine tables has a row of the workspace. *)
Definition _legacy_workspace_present (d : ledger_db) (ws : string) : bool :=
  map_any (fun r => String.eqb (co_workspace r) ws) (ledger_command d) ||
  map_any (fun r => String.eqb (ca_workspace r) ws) (ledger_candidate d) ||
  existsb (fun r => String.eqb (ve_workspace r) ws) (ledger_candidate_version d) ||
  map_any (fun r => String.eqb (re_workspace r) ws) (ledger_revision d) ||
  map_any (fun r => String.eqb (tr_workspace r) ws) (ledger_transition d) ||
  existsb (fun r => String.eqb (ed_workspace r) ws) (ledger_edge d) ||
  bool_decide (is_Some (ledger_authority d !! ws)) ||
  map_any (fun r => String.eqb (pr_workspace r) ws) (ledger_provenance d) ||
  bool_decide (is_Some (ledger_sequence d !! ws)).

Section Writer.
Context {U : Unicode} {D : Digest} {T : TrustVerifier} {W : Type}.

(** The database, the trust authority's registry, and everything outside. *)
Record machine : Type := { database : ledger_db; trust : registry; world : W }.

(** The clock's text, the content store ([None]: it raised), and what other connections
    and the rest of the program do before a transaction begins. *)
Class Surroundings : Type := {
  clock : W -> W * string;
  available : string -> W -> W * option bool;
  others : machine -> machine;
}.
Context {S : Surroundings}.

Notation method := (st machine ledger_error).

Definition on_db {A} (f : ledger_db -> ledger_db * result ledger_error A) : method A := fun M =>
  let '(d, r) := f (database M) in ({| database := d; trust := trust M; world := world M |}, r).

Definition read {A} (f : ledger_db -> A) : method A := fun M => (M, Ok (f (database M))).
Definition write (f : ledger_db -> ledger_db) : method unit := on_db (fun d => (f d, Ok tt)).
Definition require (b : bool) (message : string) : method unit := st_lift (ensure b (LedgerAuthorityError message)).
Definition contract {A} (m : result contract_error A) : method A := st_lift (map_err LedgerContract m).

(** [INSERT] of a row whose key must be new. *)
Definition insert_new (taken : ledger_db -> bool) (f : ledger_db -> ledger_db) : method unit :=
  on_db (fun d => if taken d then (d, Err IntegrityError) else (f d, Ok tt)).

(** [with self._db.unit_of_work()]: BEGIN IMMEDIATE waits for the other connections, and an
    exception rolls the database back. *)
Definition unit_of_work {A} (m : method A) : method A := fun M =>
  let M := others M in
  let '(M', r) := m M in
  match r with
  | Ok a => (M', Ok a)
  | Err e => ({| database := database M; trust := trust M'; world := world M' |}, Err e)
  end.

Definition now_text : method string := fun M =>
  let '(w, t) := clock (world M) in ({| database := database M; trust := trust M; world := w |}, Ok t).

(** [_now], then [strftime] of the instant it denotes. *)
Definition _trusted_timestamp : method string :=
  t ← now_text; p ← contract (check_instant t); mret (micro_text p.2).

Definition insert_migration (m : migration_row) : method unit :=
  insert_new (fun d => existsb (fun r => String.eqb (mi_ref r) (mi_ref m)) (ledger_migration d))
             (fun d => put_migration (ledger_migration d ++ [m])%list d).

Definition migration (ws state digest recorded_at : string) : migration_row :=
  {| mi_ref := "migration:" +:+ sha256_hex (ws +:+ digest); mi_workspace := ws; mi_state := state; mi_digest := digest;
     mi_recorded := recorded_at |}.

Definition blocked_digest (ws : string) : string :=
  canonical_ledger_digest "ledger-migration-v2" [("workspace_ref", JStr ws); ("migration_state", JStr "MIGRATION_BLOCKED")].
Definition ready_digest (ws cut : string) : string :=
  canonical_ledger_digest "ledger-migration-v2"
    [("workspace_ref", JStr ws); ("migration_state", JStr "SERVING_READY"); ("transaction_cut", JStr cut)].

Definition classify_transaction (ws recorded_at : string) : method unit :=
  d ← st_gets database;
  if _legacy_workspace_present d ws && negb (existsb (fun m => String.eqb (mi_workspace m) ws) (ledger_migration d))
  then insert_migration (migration ws "MIGRATION_BLOCKED" (blocked_digest ws) recorded_at)
  else mret tt.

Definition _classify_legacy_workspace (ws : string) : method unit :=
  recorded_at ← _trusted_timestamp; unit_of_work (classify_transaction ws recorded_at).

Definition _require_serving_ready (ws : string) : method unit :=
  row ← read (fun d => last_migration d ws);
  require (if row is Some m then String.eqb (mi_state m) "SERVING_READY" else false) "workspace migration is not serving ready".

(** [str(int(text) + 1)].  [int] would refuse a counter of more than 4300 digits, which
    counting transactions never reaches. *)
Definition decimal_succ (text : string) : string := str_of_N (default 0%N (int_of_str text) + 1).

Definition _next_sequence (ws recorded_at : string) : method (string * string) :=
  row ← read (fun d => ledger_sequence d !! ws);
  let sequence := if row is Some r then decimal_succ (sq_sequence r) else "1" in
  let epoch := if row is Some r then decimal_succ (sq_epoch r) else "1" in
  _ ← write (fun d => put_sequence
        (<[ws := {| sq_sequence := sequence; sq_epoch := epoch; sq_updated := recorded_at |}]> (ledger_sequence d)) d);
  mret (sequence, epoch).

(** ** set_authority *)

Definition register_authority (ws : string) (a : authority_row) (recorded_at : string) : method unit :=
  row ← read (fun d => ledger_authority d !! ws);
  _ ← require (absent row) "authority registration is immutable";
  '(sequence, _) ← _next_sequence ws recorded_at;
  _ ← require (String.eqb sequence "1") "authority registration must be the first workspace mutation";
  _ ← insert_new (fun d => bool_decide (is_Some (ledger_authority d !! ws)))
        (fun d => put_authority (<[ws := {| au_capability := au_capability a; au_epoch := au_epoch a;
                                           au_state := au_state a; au_updated := recorded_at |}]> (ledger_authority d)) d);
  insert_migration (migration ws "SERVING_READY" (ready_digest ws sequence) recorded_at).

Definition set_authority (ws : string) (a : authority_row) : method unit :=
  _ ← require (str_mem (au_state a) ["ACTIVE"; "REVOKED"]) "authority state is closed";
  recorded_at ← _trusted_timestamp;
  _ ← _classify_legacy_workspace ws;
  unit_of_work (register_authority ws a recorded_at).

(** ** promote_legacy_workspace *)

(** The verifier's callback runs inside the transaction and returns a text or something else. *)
Definition promote_transaction (ws : string) (verifier : string -> method (option string)) (recorded_at : string)
    : method string :=
  state ← read (fun d => last_migration d ws);
  _ ← require (if state is Some m then String.eqb (mi_state m) "MIGRATION_BLOCKED" else false)
        "workspace is not blocked legacy state";
  answer ← verifier ws;
  receipt_digest ← st_lift (of_option (LedgerAuthorityError "legacy verifier must return an atomic receipt digest") answer);
  _ ← require (length (chars receipt_digest) =? 64)%nat "legacy verifier must return an atomic receipt digest";
  receipt ← read (fun d => ledger_migration_receipt d !! receipt_digest);
  _ ← require (if receipt is Some r then String.eqb (mr_workspace r) ws && String.eqb (mr_state r) "VERIFIED" else false)
        "legacy verifier receipt is not durably verified";
  _ ← insert_migration (migration ws "SERVING_READY" receipt_digest recorded_at);
  mret receipt_digest.

Definition promote_legacy_workspace (ws : string) (verifier : string -> method (option string)) : method string :=
  _ ← _classify_legacy_workspace ws;
  recorded_at ← _trusted_timestamp;
  unit_of_work (promote_transaction ws verifier recorded_at).

(** ** Provenance *)

(** [payload_hex] of the persisted provenance. *)
Definition provenance_hex (p : AuthorityProvenanceV2) : string :=
  hex (canonical_ledger_bytes "authority-provenance-persistence-v2" (provenance_to_mapping p)).

Definition _persist_provenance (p : AuthorityProvenanceV2) (command request : option string) (recorded_at : string) : method unit :=
  row ← read (fun d => ledger_provenance d !! provenance_ref p);
  match row with
  | Some r =>
      require (String.eqb (pr_digest r) (provenance_digest p) && String.eqb (pr_workspace r) (pv_workspace_ref p) &&
               bool_decide (pr_command r = command) && bool_decide (pr_request r = request) &&
               bool_decide (pr_payload_hex r = Some (provenance_hex p)))
        "provenance reference conflicts with durable evidence"
  | None =>
      write (fun d => put_provenance
        (<[provenance_ref p := {| pr_digest := provenance_digest p; pr_workspace := pv_workspace_ref p; pr_command := command;
                                  pr_request := request; pr_state := "VERIFIED"; pr_recorded := recorded_at;
                                  pr_payload_hex := Some (provenance_hex p) |}]> (ledger_provenance d)) d)
  end.

(** The command fields that do not depend on the signed provenance. *)
Definition _command_provenance_binding (c : LedgerCommandV2) : string :=
  canonical_ledger_digest "command-provenance-binding-v2"
    (without ["authority_provenance_ref"; "authority_provenance_digest"; "command_digest"] (ledger_command_to_mapping c)).

(** The provenance authorizes exactly this command and every gate passes. *)
Definition authorizes (p : AuthorityProvenanceV2) (c : LedgerCommandV2) : bool :=
  forallb (fun g => String.eqb (gate_state g) "PASS") (component_states p) && (length (component_states p) =? 8)%nat &&
  String.eqb (pv_workspace_ref p) (cmd_workspace_ref c) && String.eqb (pv_capability_ref p) (cmd_capability_ref c) &&
  String.eqb (pv_authority_epoch p) (cmd_authority_epoch c) && String.eqb (pv_subject_ref p) (cmd_subject_ref c) &&
  String.eqb (pv_action p) (cmd_action c) && bool_decide (pv_scope_digest p = Some (cmd_scope_digest c)) &&
  bool_decide (command_payload_digest p = Some (_command_provenance_binding c)).

(** Every exception of the lookup and of the time check becomes one error. *)
Definition current_provenance (known : registry) (ref digest now : string) : result contract_error AuthorityProvenanceV2 :=
  p ← trust_provenance known ref digest; _ ← provenance_validate_at p now; Ok p.

Definition _verify_command_provenance (c : LedgerCommandV2) (now : string) : method AuthorityProvenanceV2 :=
  known ← st_gets trust;
  p ← st_lift (reraise (LedgerAuthorityError "authority provenance is unavailable or expired")
        (current_provenance known (cmd_provenance_ref c) (cmd_provenance_digest c) now));
  _ ← require (provenance_signed p) "authority provenance signature is invalid";
  _ ← require (authorizes p c) "authority provenance does not exactly authorize this command";
  mret p.

(** ** Edges *)

Definition support_path (d : ledger_db) (start target : string) : bool :=
  default false (_reachable (support_graph d) start target).

(** An active edge that already says the same; a contradiction has no direction. *)
Definition duplicates (d : ledger_db) (e : LedgerEdgeV2) : bool :=
  existsb (fun r =>
    active (edge_kind e) r && String.eqb (ed_workspace r) (edge_workspace_ref e) &&
    ((String.eqb (ed_from r) (from_candidate_ref e) && String.eqb (ed_to r) (to_candidate_ref e)) ||
     (String.eqb (edge_kind e) "CONTRADICTION" &&
      String.eqb (ed_from r) (to_candidate_ref e) && String.eqb (ed_to r) (from_candidate_ref e)))) (ledger_edge d).

(** The candidate is the command's own or one of the workspace. *)
Definition known_end (d : ledger_db) (c : LedgerCommandV2) (ref : string) : bool :=
  String.eqb ref (candidate_ref (cmd_payload c)) ||
  (if ledger_candidate d !! ref is Some r then String.eqb (ca_workspace r) (cmd_workspace_ref c) else false).

Definition validate_edge (d : ledger_db) (c : LedgerCommandV2) (e : LedgerEdgeV2) : result ledger_error unit :=
  _ ← ensure (negb (String.eqb (from_candidate_ref e) (to_candidate_ref e))) (LedgerAuthorityError "self edge is forbidden");
  _ ← ensure (known_end d c (from_candidate_ref e) && known_end d c (to_candidate_ref e))
        (LedgerAuthorityError "edge crosses workspace or references an absent candidate");
  _ ← ensure (negb (duplicates d e)) (LedgerAuthorityError "duplicate edge");
  ensure (negb (String.eqb (edge_kind e) "SUPPORT" && support_path d (to_candidate_ref e) (from_candidate_ref e)))
    (LedgerAuthorityError "support graph cycle").

Definition _validate_edges (c : LedgerCommandV2) : method unit :=
  st_iter (fun e => d ← st_gets database; st_lift (validate_edge d c e)) (all_edges c).

(** The key of the edge and the UNIQUE constraint on its ends and its recording time. *)
Definition edge_taken (r : edge_row) (d : ledger_db) : bool :=
  existsb (fun s => String.eqb (ed_ref s) (ed_ref r) ||
    (String.eqb (ed_workspace s) (ed_workspace r) && String.eqb (ed_kind s) (ed_kind r) && String.eqb (ed_from s) (ed_from r) &&
     String.eqb (ed_to s) (ed_to r) && String.eqb (ed_recorded_from s) (ed_recorded_from r))) (ledger_edge d).

Definition edge_row_of (c : LedgerCommandV2) (sequence now : string) (e : LedgerEdgeV2) : edge_row :=
  {| ed_ref := "edge:" +:+ sha256_hex (command_ref c +:+ edge_kind e +:+ from_candidate_ref e +:+ to_candidate_ref e);
     ed_workspace := edge_workspace_ref e; ed_kind := edge_kind e; ed_from := from_candidate_ref e; ed_to := to_candidate_ref e;
     ed_state := if String.eqb (kind c) "SUPERSEDE" then "SUPERSEDED" else "ACTIVE";
     ed_valid_from := valid_from (edge_interval e); ed_valid_to := valid_to (edge_interval e); ed_recorded_from := now;
     ed_recorded_to := None; ed_start_cut := sequence; ed_end_cut := None |}.

Definition insert_edge (r : edge_row) : method unit :=
  insert_new (edge_taken r) (fun d => put_edges (ledger_edge d ++ [r])%list d).

(** ** Versions *)

Definition insert_version (v : version_row) : method unit :=
  insert_new (fun d => existsb (fun r => String.eqb (ve_candidate r) (ve_candidate v) && String.eqb (ve_revision r) (ve_revision v))
                         (ledger_candidate_version d))
             (fun d => put_versions (ledger_candidate_version d ++ [v])%list d).

Definition insert_closure (candidate revision cut now : string) : method unit :=
  insert_new (fun d => bool_decide (is_Some (ledger_candidate_version_closure d !! (candidate, revision))))
             (fun d => put_closures (<[(candidate, revision) := (cut, now)]> (ledger_candidate_version_closure d)) d).

Definition insert_revision (revision : string) (r : revision_row) : method unit :=
  insert_new (fun d => bool_decide (is_Some (ledger_revision d !! revision)))
             (fun d => put_revisions (<[revision := r]> (ledger_revision d)) d).

(** The current row of a candidate and its version with the same values. *)
Definition version_of (candidate : string) (r : candidate_row) (cut command : string) : version_row :=
  {| ve_candidate := candidate; ve_revision := ca_revision r; ve_workspace := ca_workspace r; ve_state := ca_state r;
     ve_content := ca_content r; ve_epoch := ca_epoch r; ve_valid_from := ca_valid_from r; ve_valid_to := ca_valid_to r;
     ve_recorded_from := ca_recorded_from r; ve_recorded_to := None; ve_start_cut := cut; ve_end_cut := None;
     ve_command := command |}.

Definition revision_of (candidate : string) (r : candidate_row) (now : string) : revision_row :=
  {| re_candidate := candidate; re_workspace := ca_workspace r; re_content := ca_content r; re_state := ca_state r;
     re_recorded := now |}.

(** ** The cascade of a revocation *)

(** [f"cascade:{child}:{row[1]}:{cut}"] *)
Definition cascade_revision (child revision cut : string) : string :=
  "revision:" +:+ sha256_hex ("cascade:" +:+ child +:+ ":" +:+ revision +:+ ":" +:+ cut).

(** The row of a revoked child: a new revision of the same content. *)
Definition revoked_row (child recorded_at authority_epoch cut : string) (r : candidate_row) : candidate_row :=
  {| ca_workspace := ca_workspace r; ca_state := "REVOKED"; ca_revision := cascade_revision child (ca_revision r) cut;
     ca_content := ca_content r; ca_epoch := authority_epoch; ca_valid_from := ca_valid_from r;
     ca_valid_to := ca_valid_to r; ca_recorded_from := recorded_at; ca_recorded_to := None |}.

(** What happens to a supported candidate that is approved. *)
Definition revoke_child (child recorded_at authority_epoch cut : string) : method unit :=
  row ← read (fun d => ledger_candidate d !! child);
  match row with
  | Some r =>
      if String.eqb (ca_state r) "APPROVED" then
        let revoked := revoked_row child recorded_at authority_epoch cut r in
        _ ← insert_closure child (ca_revision r) cut recorded_at;
        _ ← write (fun d => put_candidate (<[child := revoked]> (ledger_candidate d)) d);
        _ ← insert_version (version_of child revoked cut ("cascade:" +:+ cut));
        insert_revision (ca_revision revoked) (revision_of child revoked recorded_at)
      else mret tt
  | None => mret tt
  end.

(** The children of one source: those seen for the first time are queued and revoked. *)
Fixpoint visit_children (recorded_at authority_epoch cut : string) (children : list string) (seen : gset string)
    (queue : list string) : method (gset string * list string) :=
  match children with
  | [] => mret (seen, queue)
  | child :: children =>
      if bool_decide (child ∈ seen) then visit_children recorded_at authority_epoch cut children seen queue
      else _ ← revoke_child child recorded_at authority_epoch cut;
           visit_children recorded_at authority_epoch cut children ({[child]} ∪ seen) (queue ++ [child])%list
  end.

(** One turn of [while queue] per unit of fuel; a spent fuel leaves the queue as it is. *)
Fixpoint cascade_loop (recorded_at authority_epoch cut : string) (fuel : nat) (seen : gset string) (queue : list string)
    : method (list string) :=
  match fuel, queue with
  | _, [] => mret []
  | O, _ => mret queue
  | Datatypes.S fuel, source :: queue =>
      children ← read (fun d => targets (support_graph d) source);
      '(seen, queue) ← visit_children recorded_at authority_epoch cut children seen queue;
      cascade_loop recorded_at authority_epoch cut fuel seen queue
  end.

(** Every node enters the queue once, by an edge. *)
Definition _invalidate_supported_candidates (root recorded_at authority_epoch cut : string) : method unit :=
  fuel ← read (fun d => length (support_graph d) + 1);
  _ ← cascade_loop recorded_at authority_epoch cut fuel {[root]} [root];
  mret tt.

(** ** Citations *)

Definition locator_digest (candidate ws revision content : string) : string :=
  canonical_ledger_digest "citation-locator-v2"
    [("workspace_ref", JStr ws); ("candidate_ref", JStr candidate); ("revision_ref", JStr revision); ("content_digest", JStr content)].

(** The evidence without its own digest. *)
Definition evidence_body (candidate ws revision content : string) : list (string * json) :=
  let l := locator_digest candidate ws revision content in
  [("evidence_version", JStr "second-brain-citation-evidence-v2"); ("locator_ref", JStr ("locator:" +:+ l));
   ("locator_digest", JStr l); ("immutable_source_ref", JStr ("source:" +:+ content)); ("revision_ref", JStr revision)].

Definition _citation_evidence (candidate ws revision content : string) : list (string * json) :=
  let e := evidence_body candidate ws revision content in
  (e ++ [("evidence_digest", JStr (canonical_ledger_digest "citation-evidence-v2" e))])%list.

Definition _citation_digest (candidate : string) (evidence : list (string * json)) : string :=
  canonical_ledger_digest "citation-v2"
    [("citation_version", JStr "second-brain-recall-citation-v2"); ("candidate_ref", JStr candidate); ("evidence", JObj evidence)].

Definition citation_of (c : LedgerCommandV2) (revision content sequence epoch now : string) : citation_row :=
  let candidate := candidate_ref (cmd_payload c) in let ws := cmd_workspace_ref c in
  let l := locator_digest candidate ws revision content in
  {| ci_workspace := ws; ci_locator_ref := "locator:" +:+ l; ci_locator_digest := l; ci_source_ref := "source:" +:+ content;
     ci_content := content;
     ci_generation := "generation:" +:+ canonical_ledger_digest "citation-generation-v2"
       [("workspace_ref", JStr ws); ("transaction_cut", JStr sequence); ("ledger_epoch", JStr epoch)];
     ci_checkpoint := "checkpoint:" +:+ canonical_ledger_digest "citation-checkpoint-v2"
       [("workspace_ref", JStr ws); ("transaction_cut", JStr sequence); ("command_ref", JStr (command_ref c));
        ("revision_ref", JStr revision)];
     ci_provenance := cmd_provenance_digest c;
     ci_digest := _citation_digest candidate (_citation_evidence candidate ws revision content);
     ci_state := "COMMITTED"; ci_recorded := now |}.

Definition _commit_citation (c : LedgerCommandV2) (revision content sequence epoch now : string) : method unit :=
  let key := (candidate_ref (cmd_payload c), revision) in
  insert_new (fun d => bool_decide (is_Some (ledger_citation_commitment d !! key)))
    (fun d => put_citations (<[key := citation_of c revision content sequence epoch now]> (ledger_citation_commitment d)) d).

(** ** Events *)

Definition EVENT_LOG_DOMAIN : string := "wiki-spike.lifecycle-db.event-log.v1" +:+ NUL.

Definition event_chain_head (d : ledger_db) : option string := ev_digest <$> list.last (event_log d).

Definition event_digest (prev : option string) (event_kind ref : string) : result core_error string :=
  data ← Contracts.canonical_bytes (py_record
    [("schema", PStr "wiki-lifecycle-event-v1"); ("prev_digest", PStr (default "" prev)); ("event_kind", PStr event_kind);
     ("ref_digest", PStr ref)]);
  Ok (sha256_hex (EVENT_LOG_DOMAIN +:+ data)).

Definition append_event (prev : option string) (event_kind ref : string) : method string :=
  actual ← read event_chain_head;
  _ ← st_lift (ensure (bool_decide (actual = prev)) EventChainError);
  digest ← st_lift (map_err LedgerEvent (event_digest prev event_kind ref));
  _ ← write (fun d => put_events (event_log d ++ [{| ev_prev := prev; ev_kind := event_kind; ev_ref := ref; ev_digest := digest |}])%list d);
  mret digest.

(** ** append_ledger_command *)

Definition _receipt (c : LedgerCommandV2) (cut epoch digest : string) : method LedgerReceiptV2 :=
  contract (receipt_post_init
    {| rc_version := LEDGER_RECEIPT_V2; rc_command_ref := command_ref c; rc_workspace_ref := cmd_workspace_ref c;
       rc_transaction_cut := cut; rc_ledger_epoch := epoch; receipt_digest := digest |}).

Definition receipt_digest_of (c : LedgerCommandV2) (cut epoch : string) : string :=
  canonical_ledger_digest "receipt-v2" (receipt_body LEDGER_RECEIPT_V2 (command_ref c) (cmd_workspace_ref c) cut epoch).

(** [self._cas.available(digest) if digest else True] *)
Definition content_available (digest : option string) : method bool :=
  match digest with
  | Some s =>
      if str_nonempty s then fun M =>
        let '(w, answer) := available s (world M) in
        ({| database := database M; trust := trust M; world := w |},
         of_option (LedgerAuthorityError "immutable encrypted intent/evidence availability is unavailable") answer)
      else mret true
  | None => mret true
  end.

(** The candidate is as the command expects it. *)
Definition expected_candidate (c : LedgerCommandV2) (current : option candidate_row) : bool :=
  if String.eqb (kind c) "CREATE_CANDIDATE" then absent current
  else match current with
       | Some r => String.eqb (ca_state r) (prior_state (cmd_payload c)) && String.eqb (ca_workspace r) (cmd_workspace_ref c) &&
                   bool_decide (Some (ca_revision r) = expected_active_revision_ref c)
       | None => false
       end.

(** [command.payload.content_digest or (current[3] if current else None)] *)
Definition content_of (c : LedgerCommandV2) (current : option candidate_row) : option string :=
  match payload_content_digest (cmd_payload c) with
  | Some s => if str_nonempty s then Some s else ca_content <$> current
  | None => ca_content <$> current
  end.

Definition active_authority (c : LedgerCommandV2) (row : option authority_row) : bool :=
  match row with
  | Some a => String.eqb (au_capability a) (cmd_capability_ref c) && String.eqb (au_epoch a) (cmd_authority_epoch c) &&
              String.eqb (au_state a) "ACTIVE"
  | None => false
  end.

(** [UPDATE ledger_candidate SET recorded_to_at=? WHERE candidate_ref=? AND recorded_to_at IS NULL] *)
Definition close_candidate (candidate now : string) : method unit :=
  write (fun d => put_candidate (alter (fun r =>
    match ca_recorded_to r with
    | None => {| ca_workspace := ca_workspace r; ca_state := ca_state r; ca_revision := ca_revision r;
                 ca_content := ca_content r; ca_epoch := ca_epoch r; ca_valid_from := ca_valid_from r;
                 ca_valid_to := ca_valid_to r; ca_recorded_from := ca_recorded_from r; ca_recorded_to := Some now |}
    | Some _ => r
    end) candidate (ledger_candidate d)) d).

(** The rows of the new revision: the candidate's current row, its version, its revision,
    its citation and the transition. *)
Definition record_revision (c : LedgerCommandV2) (revision content sequence epoch now : string) : method unit :=
  let p := cmd_payload c in let candidate := candidate_ref p in
  let row := {| ca_workspace := cmd_workspace_ref c; ca_state := resulting_state p; ca_revision := revision;
                ca_content := content; ca_epoch := cmd_authority_epoch c; ca_valid_from := valid_from (interval c);
                ca_valid_to := valid_to (interval c); ca_recorded_from := now; ca_recorded_to := None |} in
  _ ← write (fun d => put_candidate (<[candidate := row]> (ledger_candidate d)) d);
  _ ← insert_version (version_of candidate row sequence (command_ref c));
  _ ← insert_revision revision (revision_of candidate row now);
  _ ← _commit_citation c revision content sequence epoch now;
  insert_new (fun d => bool_decide (is_Some (ledger_transition d !! command_ref c)))
    (fun d => put_transitions (<[command_ref c :=
       {| tr_candidate := candidate; tr_workspace := cmd_workspace_ref c; tr_prior := prior_state p; tr_result := resulting_state p;
          tr_epoch := cmd_authority_epoch c; tr_digest := command_digest c; tr_recorded := now |}]> (ledger_transition d)) d).

Definition record_command (c : LedgerCommandV2) (digest sequence epoch now : string) : method unit :=
  _ ← insert_new (fun d => bool_decide (is_Some (ledger_command d !! command_ref c)))
        (fun d => put_commands (<[command_ref c :=
           {| co_workspace := cmd_workspace_ref c; co_digest := command_digest c; co_receipt := digest; co_sequence := sequence;
              co_epoch := epoch; co_state := "COMMITTED"; co_recorded := now |}]> (ledger_command d)) d);
  head ← read event_chain_head;
  _ ← append_event head "LEDGER_COMMAND" (command_digest c);
  write (fun d => put_outbox (outbox d ++ [{| ob_kind := "LEDGER_COMMAND"; ob_ref := command_digest c; ob_state := "PENDING" |}])%list d).

(** Everything that is checked before anything but the provenance is written: the current
    row of the candidate. *)
Definition admit_command (c : LedgerCommandV2) (now : string) : method (option candidate_row) :=
  _ ← _require_serving_ready (cmd_workspace_ref c);
  current_sequence ← read (fun d => ledger_sequence d !! cmd_workspace_ref c);
  p ← _verify_command_provenance c now;
  ok ← content_available (payload_content_digest (cmd_payload c));
  _ ← require ok "immutable encrypted intent/evidence is unavailable";
  authority ← read (fun d => ledger_authority d !! cmd_workspace_ref c);
  _ ← require (active_authority c authority) "capability or expected authority epoch is stale";
  _ ← _persist_provenance p (Some (command_ref c)) None now;
  current ← read (fun d => ledger_candidate d !! candidate_ref (cmd_payload c));
  _ ← require (expected_candidate c current)
        (if String.eqb (kind c) "CREATE_CANDIDATE" then "candidate already exists" else "candidate expected revision/state is stale");
  _ ← require (if current_sequence is Some r then String.eqb (transaction_cut p) (sq_sequence r) else false)
        "authority provenance does not exactly authorize this command";
  _ ← _validate_edges c;
  mret current.

Definition revision_ref_of (c : LedgerCommandV2) : string := "revision:" +:+ sha256_hex (command_ref c +:+ command_digest c).

Definition commit_command (c : LedgerCommandV2) (now : string) (current : option candidate_row) : method LedgerReceiptV2 :=
  let candidate := candidate_ref (cmd_payload c) in
  '(sequence, epoch) ← _next_sequence (cmd_workspace_ref c) now;
  content ← st_lift (of_option (LedgerAuthorityError "candidate content is absent") (content_of c current));
  _ ← require (str_nonempty content) "candidate content is absent";
  _ ← match current with
      | Some r => _ ← close_candidate candidate now; insert_closure candidate (ca_revision r) sequence now
      | None => mret tt
      end;
  _ ← record_revision c (revision_ref_of c) content sequence epoch now;
  _ ← st_iter (fun e => insert_edge (edge_row_of c sequence now e)) (all_edges c);
  _ ← (if str_mem (kind c) ["REVOKE"; "FORGET"]
       then _invalidate_supported_candidates candidate now (cmd_authority_epoch c) sequence else mret tt);
  _ ← record_command c (receipt_digest_of c sequence epoch) sequence epoch now;
  _receipt c sequence epoch (receipt_digest_of c sequence epoch).

Definition append_transaction (c : LedgerCommandV2) : method LedgerReceiptV2 :=
  prior ← read (fun d => ledger_command d !! command_ref c);
  match prior with
  | Some r =>
      _ ← require (String.eqb (co_digest r) (command_digest c)) "command reference was reused with a different digest";
      _receipt c (co_sequence r) (co_epoch r) (co_receipt r)
  | None =>
      now ← _trusted_timestamp;
      current ← admit_command c now;
      commit_command c now current
  end.

Definition append_ledger_command (c : LedgerCommandV2) : method LedgerReceiptV2 :=
  _ ← _classify_legacy_workspace (cmd_workspace_ref c);
  unit_of_work (append_transaction c).
End Writer.
