(* ===== verification/LedgerHistory.v ===== *)
(** * The ledger's history (infrastructure/second_brain_ledger.py)

    What every committed transaction preserves and what a committed command does: the
    support graph stays acyclic, each candidate has exactly one open version and it is its
    current row, commands take consecutive transaction cuts, a command reference is
    committed once, and a revocation reaches exactly the candidates the revoked one
    supports. *)
From S2P Require Import Prelude Digest Json Canonical Contracts Timestamps RuntimeContracts LedgerContracts LedgerGraph Ledger.
Open Scope string_scope.

Section History.
Context {U : Unicode} {D : Digest} {T : TrustVerifier} {W : Type} {S : Surroundings (W := W)}.

Notation machine := (machine (W := W)).
Notation method := (st machine ledger_error).

(** ** What a successful run establishes *)

Definition okp {A} (m : method A) (M : machine) (Q : machine -> A -> Prop) : Prop :=
  forall M' a, m M = (M', Ok a) -> Q M' a.

Lemma okp_bind {A B} (m : method A) (f : A -> method B) M Q :
  okp m M (fun M' a => okp (f a) M' Q) -> okp (m ≫= f) M Q.
Proof. intros H M' b (M1 & a & Hm & Hf)%st_bind_ok. by apply (H M1 a). Qed.

Lemma okp_ret {A} (a : A) M Q : Q M a -> okp (mret a) M Q.
Proof. intros H M' b [= <- <-]. done. Qed.

Lemma okp_mono {A} (m : method A) M (Q Q' : machine -> A -> Prop) :
  okp m M Q -> (forall M' a, Q M' a -> Q' M' a) -> okp m M Q'.
Proof. intros H HQ M' a E. by apply HQ, H. Qed.

Lemma okp_read {A} (f : ledger_db -> A) M Q : Q M (f (database M)) -> okp (read f) M Q.
Proof. intros H M' a [= <- <-]. done. Qed.

Definition with_db (M : machine) (d : ledger_db) : machine := {| database := d; trust := trust M; world := world M |}.

Lemma okp_write f M Q : Q (with_db M (f (database M))) tt -> okp (write f) M Q.
Proof. intros H M' a [= <- <-]. done. Qed.

Lemma okp_insert taken f M Q : (taken (database M) = false -> Q (with_db M (f (database M))) tt) -> okp (insert_new taken f) M Q.
Proof. unfold okp, insert_new, on_db. intros H M' a. destruct (taken (database M)); [done|]. intros [= <- <-]. by apply H. Qed.

Lemma okp_require b s M Q : (b = true -> Q M tt) -> okp (require b s) M Q.
Proof. unfold okp, require, st_lift. intros H M' a. destruct b; cbn; [|done]. intros [= <- <-]. by apply H. Qed.

Lemma okp_lift {A} (r : result ledger_error A) M Q : (forall a, r = Ok a -> Q M a) -> okp (st_lift r) M Q.
Proof. unfold okp, st_lift. intros H M' a [= <- E]. by apply H. Qed.

Lemma okp_gets {A} (f : machine -> A) M Q : Q M (f M) -> okp (st_gets f) M Q.
Proof. intros H M' a [= <- <-]. done. Qed.

Lemma okp_iter {A} (f : A -> method unit) l M (I : list A -> machine -> Prop) :
  I [] M -> (forall done a M, I done M -> okp (f a) M (fun M' _ => I (done ++ [a])%list M')) ->
  okp (st_iter f l) M (fun M' _ => I l M').
Proof.
  intros H Hf. enough (forall done M, I done M -> okp (st_iter f l) M (fun M' _ => I (done ++ l)%list M')) as Hl by by apply (Hl []).
  clear M H. induction l as [|a l IH]; intros done M H; cbn [st_iter].
  - apply okp_ret. by rewrite app_nil_r.
  - apply okp_bind. eapply okp_mono; [by apply Hf|]. intros M1 u H1. cbn beta in H1. eapply okp_mono; [by apply IH|].
    intros M2 v H2. cbn beta in *. by rewrite <- app_assoc in H2.
Qed.

(** A method that does not touch the database. *)
Definition frame {A} (m : method A) : Prop := forall M, database (m M).1 = database M.

Lemma okp_frame {A} (m : method A) M (Q : machine -> A -> Prop) : frame m ->
  (forall M' a, m M = (M', Ok a) -> database M' = database M -> Q M' a) -> okp m M Q.
Proof. intros Hf H M' a E. apply H; [done|]. specialize (Hf M). by rewrite E in Hf. Qed.

Lemma frame_bind {A B} (m : method A) (f : A -> method B) : frame m -> (forall a, frame (f a)) -> frame (m ≫= f).
Proof.
  intros Hm Hf M. unfold mbind, st_bind. specialize (Hm M). destruct (m M) as [M1 [a|e]]; cbn in *; [|done]. by rewrite Hf.
Qed.

Lemma frame_lift {A} (r : result ledger_error A) : frame (st_lift r).
Proof. done. Qed.
Lemma frame_ret {A} (a : A) : frame (mret a).
Proof. done. Qed.
Lemma frame_gets {A} (f : machine -> A) : frame (st_gets f).
Proof. done. Qed.
Lemma frame_read {A} (f : ledger_db -> A) : frame (read f).
Proof. done. Qed.

Lemma frame_timestamp : frame _trusted_timestamp.
Proof.
  unfold _trusted_timestamp. apply frame_bind; [|intros t; apply frame_bind; [apply frame_lift | intros p; apply frame_ret]].
  intros M. unfold now_text. by destruct (clock (world M)).
Qed.

Lemma frame_content digest : frame (content_available digest).
Proof.
  intros M. unfold content_available. destruct digest as [s|]; [|done]. destruct (str_nonempty s); [|done].
  by destruct (available s (world M)).
Qed.

Lemma frame_provenance c now : frame (_verify_command_provenance c now).
Proof.
  unfold _verify_command_provenance. apply frame_bind; [apply frame_gets | intros known].
  apply frame_bind; [apply frame_lift | intros p]. apply frame_bind; [apply frame_lift | intros _].
  apply frame_bind; [apply frame_lift | intros _; apply frame_ret].
Qed.

Lemma frame_validate c : frame (_validate_edges c).
Proof.
  unfold _validate_edges. induction (all_edges c) as [|e l IH]; cbn [st_iter]; [apply frame_ret|].
  apply frame_bind; [apply frame_bind; [apply frame_gets | intros d; apply frame_lift] | intros _; exact IH].
Qed.

Lemma frame_receipt c cut epoch digest : frame (_receipt c cut epoch digest).
Proof. apply frame_lift. Qed.

(** ** A command that is admitted *)

Record admitted (c : LedgerCommandV2) (d : ledger_db) (current : option candidate_row) : Prop := {
  admitted_current : current = ledger_candidate d !! candidate_ref (cmd_payload c);
  admitted_expected : expected_candidate c current = true;
  admitted_sequence : is_Some (ledger_sequence d !! cmd_workspace_ref c);
  admitted_ready : exists m, last_migration d (cmd_workspace_ref c) = Some m /\ mi_state m = "SERVING_READY";
  admitted_edges : forall e, e ∈ all_edges c -> validate_edge d c e = Ok tt;
}.

Lemma okp_ready ws M (Q : machine -> unit -> Prop) :
  ((exists m, last_migration (database M) ws = Some m /\ mi_state m = "SERVING_READY") -> Q M tt) ->
  okp (_require_serving_ready ws) M Q.
Proof.
  intros H. apply okp_bind, okp_read, okp_require. intros E. apply H.
  destruct (last_migration (database M) ws) as [m|]; [|done]. apply String.eqb_eq in E. eauto.
Qed.

Lemma okp_persist p command request now M (Q : machine -> unit -> Prop) :
  (forall M' v, database M' = put_provenance v (database M) -> Q M' tt) -> okp (_persist_provenance p command request now) M Q.
Proof.
  intros H. apply okp_bind, okp_read. destruct (ledger_provenance (database M) !! provenance_ref p) as [r|].
  - apply okp_require. intros _. apply (H M (ledger_provenance (database M))). by destruct (database M).
  - apply okp_write. eapply H. done.
Qed.

Lemma okp_validate c M (Q : machine -> unit -> Prop) :
  ((forall e, e ∈ all_edges c -> validate_edge (database M) c e = Ok tt) -> Q M tt) -> okp (_validate_edges c) M Q.
Proof.
  intros H. unfold _validate_edges.
  eapply okp_mono; [apply (okp_iter _ _ _ (fun l M' => M' = M /\ forall e, e ∈ l -> validate_edge (database M) c e = Ok tt))|].
  - split; [done | by intros e ?%elem_of_nil].
  - intros l e M' [-> Hl]. apply okp_bind, okp_gets, okp_lift. intros [] He. split; [done|].
    intros e' [He'| ->%list_elem_of_singleton]%elem_of_app; auto.
  - intros M' [] [-> Hl]. by apply H.
Qed.

Lemma admit_spec c now M : okp (admit_command c now) M (fun M' current =>
  admitted c (database M) current /\ exists v, database M' = put_provenance v (database M)).
Proof.
  apply okp_bind, okp_ready. intros Hready. apply okp_bind, okp_read.
  apply okp_bind, okp_frame; [apply frame_provenance | intros M1 p _ E1].
  apply okp_bind, okp_frame; [apply frame_content | intros M2 ok _ E2].
  apply okp_bind, okp_require. intros _. apply okp_bind, okp_read.
  apply okp_bind, okp_require. intros _. apply okp_bind, okp_persist. intros M3 v E3. rewrite E2, E1 in E3.
  apply okp_bind, okp_read. rewrite E3. cbn [ledger_candidate put_provenance].
  apply okp_bind, okp_require. intros Hexp. apply okp_bind, okp_require. intros Hseq.
  apply okp_bind, okp_validate. rewrite E3. intros Hedges. apply okp_ret. split; [|by exists v].
  split; [done | done | | done | done]. by destruct (ledger_sequence (database M) !! cmd_workspace_ref c).
Qed.

(** ** The rows of a command *)

Definition next_cut (d : ledger_db) (ws : string) : string :=
  if ledger_sequence d !! ws is Some r then decimal_succ (sq_sequence r) else "1".
Definition next_epoch (d : ledger_db) (ws : string) : string :=
  if ledger_sequence d !! ws is Some r then decimal_succ (sq_epoch r) else "1".

Lemma okp_sequence ws now M (Q : machine -> string * string -> Prop) :
  let d := database M in
  Q (with_db M (put_sequence (<[ws := {| sq_sequence := next_cut d ws; sq_epoch := next_epoch d ws; sq_updated := now |}]>
       (ledger_sequence d)) d)) (next_cut d ws, next_epoch d ws) ->
  okp (_next_sequence ws now) M Q.
Proof. intros d H. apply okp_bind, okp_read, okp_bind, okp_write, okp_ret. exact H. Qed.

Definition new_row (c : LedgerCommandV2) (content now : string) : candidate_row :=
  {| ca_workspace := cmd_workspace_ref c; ca_state := resulting_state (cmd_payload c); ca_revision := revision_ref_of c;
     ca_content := content; ca_epoch := cmd_authority_epoch c; ca_valid_from := valid_from (interval c);
     ca_valid_to := valid_to (interval c); ca_recorded_from := now; ca_recorded_to := None |}.

(** What a command writes before the cascade. *)
Record revised (c : LedgerCommandV2) (now content : string) (current : option candidate_row) (d d' : ledger_db) : Prop := {
  revised_candidate : ledger_candidate d' = <[candidate_ref (cmd_payload c) := new_row c content now]> (ledger_candidate d);
  revised_new : forall v, v ∈ ledger_candidate_version d ->
    ~ (ve_candidate v = candidate_ref (cmd_payload c) /\ ve_revision v = revision_ref_of c);
  revised_versions : ledger_candidate_version d' =
    (ledger_candidate_version d ++
     [version_of (candidate_ref (cmd_payload c)) (new_row c content now) (next_cut d (cmd_workspace_ref c)) (command_ref c)])%list;
  revised_closures : ledger_candidate_version_closure d' =
    match current with
    | Some r => <[(candidate_ref (cmd_payload c), ca_revision r) := (next_cut d (cmd_workspace_ref c), now)]>
                  (ledger_candidate_version_closure d)
    | None => ledger_candidate_version_closure d
    end;
  revised_unclosed : forall r, current = Some r ->
    ledger_candidate_version_closure d !! (candidate_ref (cmd_payload c), ca_revision r) = None;
  revised_citations : ledger_citation_commitment d !! (candidate_ref (cmd_payload c), revision_ref_of c) = None /\
    ledger_citation_commitment d' =
    <[(candidate_ref (cmd_payload c), revision_ref_of c) :=
        citation_of c (revision_ref_of c) content (next_cut d (cmd_workspace_ref c)) (next_epoch d (cmd_workspace_ref c)) now]>
      (ledger_citation_commitment d);
  revised_edge_closures : ledger_edge_closure d' = ledger_edge_closure d;
  revised_edges : ledger_edge d' = (ledger_edge d ++ map (edge_row_of c (next_cut d (cmd_workspace_ref c)) now) (all_edges c))%list;
  revised_sequence : ledger_sequence d' =
    <[cmd_workspace_ref c := {| sq_sequence := next_cut d (cmd_workspace_ref c); sq_epoch := next_epoch d (cmd_workspace_ref c);
                                sq_updated := now |}]> (ledger_sequence d);
  revised_commands : ledger_command d' = ledger_command d;
  revised_authority : ledger_authority d' = ledger_authority d;
  revised_migration : ledger_migration d' = ledger_migration d;
  revised_events : event_log d' = event_log d;
}.

Lemma okp_insert_edges c sequence now l M (Q : machine -> unit -> Prop) :
  (forall M', database M' = put_edges (ledger_edge (database M) ++ map (edge_row_of c sequence now) l)%list (database M) -> Q M' tt) ->
  okp (st_iter (fun e => insert_edge (edge_row_of c sequence now e)) l) M Q.
Proof.
  intros H. eapply okp_mono;
    [apply (okp_iter _ _ _ (fun l M' => database M' = put_edges (ledger_edge (database M) ++ map (edge_row_of c sequence now) l)%list (database M)))|].
  - cbn. rewrite app_nil_r. by destruct (database M).
  - intros done_ e M' E. apply okp_insert. intros _. cbn [database with_db]. rewrite E, map_app, app_assoc. done.
  - intros M' []. apply H.
Qed.

Lemma version_absent d v :
  existsb (fun r => String.eqb (ve_candidate r) (ve_candidate v) && String.eqb (ve_revision r) (ve_revision v))
    (ledger_candidate_version d) = false ->
  forall r, r ∈ ledger_candidate_version d -> ~ (ve_candidate r = ve_candidate v /\ ve_revision r = ve_revision v).
Proof.
  intros H r Hr [E1 E2]. apply not_true_iff_false in H. apply H, existsb_exists. exists r. rewrite E1, E2, !String.eqb_refl.
  by apply list_elem_of_In in Hr.
Qed.

(** ** The cascade visits what the root supports *)

Section Cascade.
Context (G : list edge) (P : gset string -> machine -> Prop) (root recorded_at authority_epoch cut : string).
Hypothesis P_graph : forall seen M, P seen M -> support_graph (database M) = G.
Hypothesis P_child : forall seen M child, P seen M -> child ∉ seen -> rtc (linked G) root child ->
  okp (revoke_child child recorded_at authority_epoch cut) M (fun M' _ => P ({[child]} ∪ seen) M').

(** The edges that end in a node not seen yet. *)
Definition fresh (seen : gset string) : nat := length (List.filter (fun e => negb (bool_decide (e.2 ∈ seen))) G).

Lemma fresh_child seen x y : linked G x y -> y ∉ seen -> fresh ({[y]} ∪ seen) < fresh seen.
Proof.
  unfold fresh, linked. intros Hxy Hy. revert Hxy. clear P_graph P_child. induction G as [|[a b] l IH]; [by intros ?%elem_of_nil|].
  assert (Hle : length (List.filter (fun e => negb (bool_decide (e.2 ∈ ({[y]} ∪ seen)))) l) <=
                length (List.filter (fun e => negb (bool_decide (e.2 ∈ seen))) l)).
  { clear -l. induction l as [|[a b] l IH]; [done|]. cbn [List.filter snd].
    destruct (decide (b ∈ seen)); [rewrite !bool_decide_true by set_solver; done|].
    rewrite (bool_decide_false (b ∈ seen)) by done. destruct (negb _); cbn in *; lia. }
  intros [E|Hin]%elem_of_cons; cbn [List.filter snd].
  - injection E as -> ->. rewrite (bool_decide_true (b ∈ _)), (bool_decide_false (b ∈ seen)) by set_solver. cbn in *. lia.
  - specialize (IH Hin). destruct (decide (b ∈ seen)); [rewrite !bool_decide_true by set_solver; done|].
    rewrite (bool_decide_false (b ∈ seen)) by done. destruct (negb _); cbn in *; lia.
Qed.

Lemma visit_spec x children seen queue M : rtc (linked G) root x -> (forall y, y ∈ children -> linked G x y) -> P seen M ->
  okp (visit_children recorded_at authority_epoch cut children seen queue) M (fun M' sq =>
    P sq.1 M' /\ (forall y, y ∈ sq.1 <-> y ∈ seen \/ y ∈ children) /\
    (forall y, y ∈ sq.2 -> y ∈ queue \/ y ∈ children) /\
    (forall y, y ∈ queue -> y ∈ sq.2) /\ (forall y, y ∈ children -> y ∈ seen \/ y ∈ sq.2) /\
    length sq.2 + fresh sq.1 <= length queue + fresh seen).
Proof using P_child P_graph.
  intros Hx. revert seen queue M. induction children as [|y children IH]; intros seen queue M Hc HP; cbn [visit_children].
  - apply okp_ret. cbn [fst snd]. split; [done|]. split; [set_solver|]. split; [set_solver|]. split; [done|].
    split; [set_solver | lia].
  - case_bool_decide as Hy.
    + eapply okp_mono; [apply IH; [set_solver +Hc | done]|]. intros M' [s q] (H1 & H2 & H3 & H4 & H5 & H6). cbn [fst snd] in *.
      split; [done|]. split; [set_solver +H2 Hy|]. split; [set_solver +H3|]. split; [done|]. split; [set_solver +H5 Hy | done].
    + apply okp_bind. eapply okp_mono; [apply P_child; [done | done | apply (rtc_r _ x y); [done | apply Hc; set_solver +]]|]. intros M1 [] HP1. cbn beta in HP1.
      eapply okp_mono; [apply IH; [set_solver +Hc | exact HP1]|]. intros M' [s q] (H1 & H2 & H3 & H4 & H5 & H6). cbn [fst snd] in *.
      assert (Hf : fresh ({[y]} ∪ seen) < fresh seen) by (apply (fresh_child seen x y); [apply Hc; set_solver + | done]).
      assert (Hyq : y ∈ q) by (apply H4; set_solver +).
      rewrite length_app in H6. cbn in H6. split; [done|]. split; [set_solver +H2|]. split; [set_solver +H3|].
      split; [set_solver +H4|]. split; [set_solver +H5 Hyq | lia].
Qed.

Lemma cascade_spec fuel seen queue M : length queue + fresh seen <= fuel -> P seen M -> root ∈ seen ->
  (forall x, x ∈ seen -> rtc (linked G) root x) -> (forall x, x ∈ queue -> x ∈ seen) ->
  (forall x y, x ∈ seen -> x ∉ queue -> linked G x y -> y ∈ seen) ->
  okp (cascade_loop recorded_at authority_epoch cut fuel seen queue) M (fun M' left =>
    left = [] /\ exists seen', P seen' M' /\ forall x, x ∈ seen' <-> rtc (linked G) root x).
Proof using P_graph P_child.
  revert seen queue M. induction fuel as [|fuel IH]; intros seen queue M Hf HP Hroot Hreach Hsub Hclosed.
  all: destruct queue as [|x queue]; cbn [cascade_loop].
  1, 3: apply okp_ret; split; [done|]; exists seen; split; [done|]; intros x; split; [apply Hreach|];
    intros Hx; apply (closed_path G seen root x); [|done|done]; intros y z Hy; apply Hclosed; [done | apply not_elem_of_nil].
  - cbn in Hf. lia.
  - apply okp_bind, okp_read. rewrite (P_graph _ _ HP). apply okp_bind.
    eapply okp_mono; [apply (visit_spec x); [apply Hreach, Hsub; set_solver + | intros y; apply targets_elem | exact HP]|].
    intros M1 [s q] (HP1 & Hs & Hq & Hq' & Hc & Hm). cbn [fst snd] in *. setoid_rewrite targets_elem in Hs.
    setoid_rewrite targets_elem in Hq. setoid_rewrite targets_elem in Hc.
    apply IH; [cbn in Hf; lia | done | apply Hs; by left | | |].
    + intros y [Hy|Hy]%Hs; [by apply Hreach|]. apply (rtc_r _ x y); [apply Hreach, Hsub; set_solver + | exact Hy].
    + intros y [Hy|Hy]%Hq; apply Hs; [left; apply Hsub; set_solver +Hy | by right].
    + intros y z Hy Hnq Hyz. apply Hs. assert (Hy' : y ∈ seen) by (apply Hs in Hy as [Hy|Hy]; [done|]; by destruct (Hc y Hy)).
      destruct (decide (y = x)) as [->|Hne]; [by right|]. left. apply (Hclosed y z Hy'); [|done].
      intros [?|Hin]%elem_of_cons; [done|]. by apply Hnq, Hq'.
Qed.
End Cascade.

(** ** Every candidate has one open version, its current row *)

Definition version_key (v : version_row) : string * string := (ve_candidate v, ve_revision v).

Record history (d : ledger_db) : Prop := {
  history_keys : NoDup (map version_key (ledger_candidate_version d));
  history_owner : forall v, v ∈ ledger_candidate_version d -> is_Some (ledger_candidate d !! ve_candidate v);
  history_closed : forall k, is_Some (ledger_candidate_version_closure d !! k) -> k ∈ map version_key (ledger_candidate_version d);
  history_current : forall x r, ledger_candidate d !! x = Some r ->
    ca_recorded_to r = None /\ exists cut command, version_of x r cut command ∈ ledger_candidate_version d;
  history_open : forall v r, v ∈ ledger_candidate_version d -> ledger_candidate d !! ve_candidate v = Some r ->
    (ledger_candidate_version_closure d !! version_key v = None <-> ve_revision v = ca_revision r);
  history_home : forall v r, v ∈ ledger_candidate_version d -> ledger_candidate d !! ve_candidate v = Some r ->
    ve_workspace v = ca_workspace r;
}.

(** One candidate gets a new revision: its open version, if any, is closed. *)
Record superseded (x : string) (row : candidate_row) (cut command now : string) (d d' : ledger_db) : Prop := {
  superseded_candidate : ledger_candidate d' = <[x := row]> (ledger_candidate d);
  superseded_new : forall v, v ∈ ledger_candidate_version d -> ~ (ve_candidate v = x /\ ve_revision v = ca_revision row);
  superseded_versions : ledger_candidate_version d' = (ledger_candidate_version d ++ [version_of x row cut command])%list;
  superseded_closures : ledger_candidate_version_closure d' =
    match ledger_candidate d !! x with
    | Some r => <[(x, ca_revision r) := (cut, now)]> (ledger_candidate_version_closure d)
    | None => ledger_candidate_version_closure d
    end;
  superseded_unclosed : forall r, ledger_candidate d !! x = Some r -> ledger_candidate_version_closure d !! (x, ca_revision r) = None;
}.

(** A candidate of the workspace gets a new revision at the cut. *)
Definition revision_step (ws cut : string) (d d' : ledger_db) : Prop :=
  exists x row command now, ca_workspace row = ws /\ ca_recorded_to row = None /\
    (forall r, ledger_candidate d !! x = Some r -> ca_workspace r = ws) /\ superseded x row cut command now d d'.

Lemma version_of_key x row cut command : version_key (version_of x row cut command) = (x, ca_revision row).
Proof. done. Qed.

Lemma superseded_history x row cut command now d d' : ca_recorded_to row = None ->
  (forall r, ledger_candidate d !! x = Some r -> ca_workspace r = ca_workspace row) ->
  superseded x row cut command now d d' -> history d -> history d'.
Proof.
  intros Hrow Hws [Ec Hnew Ev Ek _] [Hkeys Howner Hclosed Hcurrent Hopen Hhome].
  assert (Hnk : (x, ca_revision row) ∉ map version_key (ledger_candidate_version d)).
  { intros (v & E & Hv)%list_elem_of_fmap. injection E as E1 E2. by apply (Hnew v Hv). }
  split; rewrite ?Ec, ?Ev, ?Ek, ?map_app.
  - apply list.NoDup_app. split; [done|]. split; [|apply NoDup_singleton]. by intros k Hk ->%list_elem_of_singleton.
  - intros v [Hv| ->%list_elem_of_singleton]%elem_of_app; [|cbn; rewrite lookup_insert_eq; by eexists].
    destruct (decide (x = ve_candidate v)) as [->|]; [rewrite lookup_insert_eq; by eexists | rewrite lookup_insert_ne by done; auto].
  - intros k Hk. apply elem_of_app. left. destruct (ledger_candidate d !! x) as [r|] eqn:E; [|auto].
    destruct (decide ((x, ca_revision r) = k)) as [<-|]; [|rewrite lookup_insert_ne in Hk by done; auto].
    destruct (Hcurrent x r E) as (_ & cut' & command' & Hin). apply list_elem_of_fmap. eexists. split; [|exact Hin]. done.
  - intros y r. destruct (decide (x = y)) as [<-|Hne].
    + rewrite lookup_insert_eq. intros [= <-]. split; [done|]. exists cut, command. apply elem_of_app. right. by apply list_elem_of_singleton.
    + rewrite lookup_insert_ne by done. intros (Hr & cut' & command' & Hin)%Hcurrent. split; [done|].
      exists cut', command'. apply elem_of_app. by left.
  - intros v r Hv Hr. apply elem_of_app in Hv as [Hv| ->%list_elem_of_singleton].
    + destruct (decide (x = ve_candidate v)) as [Hx|Hne].
      * rewrite Hx, lookup_insert_eq in Hr. injection Hr as <-. destruct (Howner v Hv) as [r Hr]. rewrite Hx, Hr.
        split; [|intros E; by destruct (Hnew v Hv)]. intros Hn. exfalso.
        destruct (decide (ca_revision r = ve_revision v)) as [Hrev|Hrev].
        -- unfold version_key in Hn. by rewrite Hrev, lookup_insert_eq in Hn.
        -- unfold version_key in Hn. rewrite lookup_insert_ne in Hn by congruence. by apply (Hopen v r Hv Hr) in Hn.
      * rewrite lookup_insert_ne in Hr by done. rewrite <- (Hopen v r Hv Hr).
        destruct (ledger_candidate d !! x) as [r'|]; [|done]. unfold version_key. rewrite lookup_insert_ne; [done | congruence].
    + cbn in Hr. rewrite lookup_insert_eq in Hr. injection Hr as <-. rewrite version_of_key. cbn [ve_revision version_of].
      split; [done|]. intros _. destruct (ledger_candidate d !! x) as [r'|] eqn:E.
      * rewrite lookup_insert_ne.
        -- apply eq_None_not_Some. intros Hs. by apply Hnk, Hclosed.
        -- intros [= Hrev]. destruct (Hcurrent x r' E) as (_ & cut' & command' & Hin). apply Hnk. rewrite <- Hrev.
           apply list_elem_of_fmap. eexists. split; [|exact Hin]. done.
      * apply eq_None_not_Some. intros Hs. by apply Hnk, Hclosed.
  - intros v r [Hv| ->%list_elem_of_singleton]%elem_of_app.
    + destruct (decide (x = ve_candidate v)) as [Hx|Hne]; [|rewrite lookup_insert_ne by done; by apply Hhome].
      rewrite Hx, lookup_insert_eq. intros [= <-]. destruct (Howner v Hv) as [r Hr]. rewrite (Hhome v r Hv Hr).
      apply Hws. by rewrite Hx.
    + cbn. rewrite lookup_insert_eq. by intros [= <-].
Qed.

Lemma revised_superseded c now content d d' :
  revised c now content (ledger_candidate d !! candidate_ref (cmd_payload c)) d d' ->
  superseded (candidate_ref (cmd_payload c)) (new_row c content now) (next_cut d (cmd_workspace_ref c)) (command_ref c) now d d'.
Proof. intros []. by split. Qed.

(** ** What a revoked child changes *)

(** The tables that neither the cascade nor a child's revision touches. *)
Record same_rest (d d' : ledger_db) : Prop := {
  rest_edges : ledger_edge d' = ledger_edge d;
  rest_sequence : ledger_sequence d' = ledger_sequence d;
  rest_commands : ledger_command d' = ledger_command d;
  rest_authority : ledger_authority d' = ledger_authority d;
  rest_migration : ledger_migration d' = ledger_migration d;
  rest_citations : ledger_citation_commitment d' = ledger_citation_commitment d;
  rest_edge_closures : ledger_edge_closure d' = ledger_edge_closure d;
  rest_events : event_log d' = event_log d;
}.

#[export] Instance same_rest_preorder : PreOrder same_rest.
Proof. split; [by intros d; split | intros d1 d2 d3 [] []; split; congruence]. Qed.

Definition approved (r : candidate_row) : bool := String.eqb (ca_state r) "APPROVED".

Lemma okp_revoke child now epoch cut M (Q : machine -> unit -> Prop) :
  (forall M' r, ledger_candidate (database M) !! child = Some r -> approved r = true -> same_rest (database M) (database M') ->
     superseded child (revoked_row child now epoch cut r) cut ("cascade:" +:+ cut) now (database M) (database M') -> Q M' tt) ->
  ((forall r, ledger_candidate (database M) !! child = Some r -> approved r = false) -> Q M tt) ->
  okp (revoke_child child now epoch cut) M Q.
Proof.
  intros Hyes Hno. apply okp_bind, okp_read. destruct (ledger_candidate (database M) !! child) as [r|] eqn:E.
  2: { apply okp_ret, Hno. done. }
  fold (approved r). destruct (approved r) eqn:Ea; [|apply okp_ret, Hno; by intros ? [= <-]].
  apply okp_bind, okp_insert. intros Hk%bool_decide_eq_false. apply okp_bind, okp_write.
  apply okp_bind, okp_insert. intros Hv. apply okp_insert. intros _. apply (Hyes _ r); [done | done | by split |].
  split; [done | exact (version_absent _ _ Hv) | done | by rewrite E |]. intros r' Er'. rewrite E in Er'. injection Er' as <-.
  by apply eq_None_not_Some.
Qed.

(** The row of [x] after the cascade, when the cascade has reached it. *)
Definition after_cascade (now epoch cut : string) (x : string) (r : candidate_row) : candidate_row :=
  if approved r then revoked_row x now epoch cut r else r.

(** ** How a transaction of a workspace extends the history

    Rows are only added; the new ones belong to the workspace and carry its new cut. *)
Record grown (ws cut : string) (d d' : ledger_db) : Prop := {
  grown_versions : exists vs, ledger_candidate_version d' = (ledger_candidate_version d ++ vs)%list /\
    forall v, v ∈ vs -> ve_workspace v = ws /\ ve_start_cut v = cut;
  grown_closures : forall v, v ∈ ledger_candidate_version d ->
    ledger_candidate_version_closure d' !! version_key v = ledger_candidate_version_closure d !! version_key v \/
    (ve_workspace v = ws /\ ledger_candidate_version_closure d !! version_key v = None /\
     exists t, ledger_candidate_version_closure d' !! version_key v = Some (cut, t));
  grown_edges : exists es, ledger_edge d' = (ledger_edge d ++ es)%list /\
    forall e, e ∈ es -> ed_workspace e = ws /\ ed_start_cut e = cut;
  grown_edge_closures : ledger_edge_closure d' = ledger_edge_closure d;
  grown_citations : forall v, v ∈ ledger_candidate_version d ->
    ledger_citation_commitment d' !! version_key v = ledger_citation_commitment d !! version_key v;
  grown_homes : forall x r, ledger_candidate d !! x = Some r ->
    exists r', ledger_candidate d' !! x = Some r' /\ ca_workspace r' = ca_workspace r;
}.

#[export] Instance grown_preorder ws cut : PreOrder (grown ws cut).
Proof.
  split.
  - intros d. split; [exists []; by rewrite app_nil_r; split; [|set_solver] | by left | exists []; by rewrite app_nil_r; split; [|set_solver] | done | done | eauto].
  - intros d1 d2 d3 [(vs & Ev & Hvs) Hk (es & Ee & Hes) Hec Hc Hh] [(vs' & Ev' & Hvs') Hk' (es' & Ee' & Hes') Hec' Hc' Hh']. split.
    + exists (vs ++ vs')%list. rewrite Ev', Ev, app_assoc. split; [done | set_solver +Hvs Hvs'].
    + intros v Hv. assert (Hv2 : v ∈ ledger_candidate_version d2) by (rewrite Ev; set_solver +Hv).
      destruct (Hk v Hv) as [E|(Hw & En & t & E)], (Hk' v Hv2) as [E'|(Hw' & En' & t' & E')].
      * left. congruence.
      * right. rewrite E in En'. eauto.
      * right. rewrite E'. eauto.
      * congruence.
    + exists (es ++ es')%list. rewrite Ee', Ee, app_assoc. split; [done | set_solver +Hes Hes'].
    + congruence.
    + intros v Hv. rewrite Hc'; [by apply Hc | rewrite Ev; set_solver +Hv].
    + intros x r (r1 & H1 & E1)%Hh. destruct (Hh' x r1 H1) as (r2 & H2 & E2). exists r2. split; [done | congruence].
Qed.

Lemma history_key_unique d v w : history d -> v ∈ ledger_candidate_version d -> w ∈ ledger_candidate_version d ->
  version_key v = version_key w -> v = w.
Proof.
  intros H Hv Hw E. apply list_elem_of_lookup in Hv as [i Hi], Hw as [j Hj].
  assert (i = j) as ->; [|congruence]. eapply (NoDup_lookup (map version_key (ledger_candidate_version d)));
    [apply H | by rewrite list_lookup_fmap, Hi | by rewrite list_lookup_fmap, Hj; cbn; rewrite E].
Qed.

Lemma superseded_grown x row cut command now d d' : history d ->
  (forall r, ledger_candidate d !! x = Some r -> ca_workspace r = ca_workspace row) ->
  superseded x row cut command now d d' ->
  (exists es, ledger_edge d' = (ledger_edge d ++ es)%list /\ forall e, e ∈ es -> ed_workspace e = ca_workspace row /\ ed_start_cut e = cut) ->
  ledger_edge_closure d' = ledger_edge_closure d ->
  (forall v, v ∈ ledger_candidate_version d ->
     ledger_citation_commitment d' !! version_key v = ledger_citation_commitment d !! version_key v) ->
  grown (ca_workspace row) cut d d'.
Proof.
  intros Hh Hws [Ec Hnew Ev Ek Hun] He Hec Hci. split; [| | done | done | done |].
  - eexists. split; [exact Ev|]. by intros v ->%list_elem_of_singleton.
  - intros v Hv. rewrite Ek. destruct (ledger_candidate d !! x) as [r|] eqn:E; [|by left].
    destruct (decide ((x, ca_revision r) = version_key v)) as [Hkey|]; [|left; by rewrite lookup_insert_ne].
    right. rewrite <- Hkey, lookup_insert_eq. split; [|split; [by apply Hun | by eexists]].
    destruct (history_current _ Hh x r E) as (_ & cut' & command' & Hin).
    rewrite <- (history_key_unique d _ _ Hh Hin Hv Hkey). by apply Hws.
  - intros y r Hy. rewrite Ec. destruct (decide (x = y)) as [->|]; [|rewrite lookup_insert_ne by done; eauto].
    rewrite lookup_insert_eq. exists row. split; [done|]. symmetry. by apply Hws.
Qed.

(** Both ends of an edge are candidates of its workspace. *)
Definition edges_home (d : ledger_db) : Prop := forall e, e ∈ ledger_edge d ->
  (exists r, ledger_candidate d !! ed_from e = Some r /\ ca_workspace r = ed_workspace e) /\
  (exists r, ledger_candidate d !! ed_to e = Some r /\ ca_workspace r = ed_workspace e).

Definition lives_in (d : ledger_db) (ws x : string) : Prop := exists r, ledger_candidate d !! x = Some r /\ ca_workspace r = ws.

Lemma support_home d ws x y : edges_home d -> rtc (linked (support_graph d)) x y -> lives_in d ws x -> lives_in d ws y.
Proof.
  intros He. induction 1 as [|x y z Hxy _ IH]; [done|]. intros (r & Hr & Hws). apply IH.
  apply list_elem_of_fmap in Hxy as (e & E & Hin). injection E as -> ->.
  apply list_elem_of_In, filter_In in Hin as [Hin%list_elem_of_In _]. destruct (He e Hin) as [(r1 & H1 & E1) (r2 & H2 & E2)].
  exists r2. split; [done|]. congruence.
Qed.

(** What the cascade from [root] has done when it has seen [seen]. *)
Record cascading (root ws now epoch cut : string) (d : ledger_db) (seen : gset string) (d' : ledger_db) : Prop := {
  cascading_root : root ∈ seen;
  cascading_rest : same_rest d d';
  cascading_rows : forall x, ledger_candidate d' !! x =
    if bool_decide (x ∈ seen /\ x <> root) then after_cascade now epoch cut x <$> ledger_candidate d !! x else ledger_candidate d !! x;
  cascading_history : history d';
  cascading_grown : grown ws cut d d';
  cascading_steps : rtc (revision_step ws cut) d d';
}.

Lemma cascading_child root ws now epoch cut d seen M child : lives_in d ws child ->
  cascading root ws now epoch cut d seen (database M) -> child ∉ seen ->
  okp (revoke_child child now epoch cut) M (fun M' _ => cascading root ws now epoch cut d ({[child]} ∪ seen) (database M')).
Proof.
  intros (r & Hr & Hws) [Hroot Hrest Hrows Hhist Hgrown Hsteps] Hc.
  assert (Hrow : ledger_candidate (database M) !! child = Some r) by (rewrite Hrows, bool_decide_false by (intros [? _]; done); done).
  assert (Hne : child <> root) by (intros ->; done).
  assert (Hseen : forall x, x <> child -> bool_decide (x ∈ {[child]} ∪ seen /\ x <> root) = bool_decide (x ∈ seen /\ x <> root)).
  { intros x Hx. apply bool_decide_ext. set_solver +Hx. }
  apply okp_revoke.
  - intros M' r' Hr' Ha Hrest' Hsup. rewrite Hrow in Hr'. injection Hr' as <-. split.
    + set_solver +Hroot.
    + by etrans.
    + intros x. rewrite (superseded_candidate _ _ _ _ _ _ _ Hsup). destruct (decide (child = x)) as [<-|Hx].
      * rewrite lookup_insert_eq, bool_decide_true, Hr by set_solver +Hne. cbn. unfold after_cascade. by rewrite Ha.
      * rewrite lookup_insert_ne, Hrows, Hseen by done. done.
    + eapply superseded_history; [| | exact Hsup | exact Hhist]; [done|]. intros r0 Hr0. rewrite Hrow in Hr0. by injection Hr0 as <-.
    + etrans; [exact Hgrown|]. rewrite <- Hws. change (ca_workspace r) with (ca_workspace (revoked_row child now epoch cut r)).
      eapply superseded_grown; [done | | exact Hsup | | by destruct Hrest' | by destruct Hrest' as [_ _ _ _ _ ->]].
      * intros r0 Hr0. rewrite Hrow in Hr0. by injection Hr0 as <-.
      * exists []. destruct Hrest' as [-> _]. rewrite app_nil_r. split; [done | by intros e ?%elem_of_nil].
    + eapply rtc_r; [exact Hsteps|]. eexists _, _, _, _. split; [|split; [|split; [|exact Hsup]]]; [exact Hws | done |].
      intros r0 Hr0. rewrite Hrow in Hr0. by injection Hr0 as <-.
  - intros Ha. split; [set_solver +Hroot | done | | done | done | done]. intros x. destruct (decide (x = child)) as [->|Hx].
    + rewrite bool_decide_true by set_solver +Hne. rewrite Hrow, Hr. cbn. unfold after_cascade. by rewrite (Ha r Hrow).
    + by rewrite Hrows, Hseen.
Qed.

Lemma okp_cascade root ws now epoch cut M (Q : machine -> unit -> Prop) :
  let d := database M in
  history d -> edges_home d -> lives_in d ws root ->
  (forall M' seen, cascading root ws now epoch cut d seen (database M') ->
     (forall x, x ∈ seen <-> rtc (linked (support_graph d)) root x) -> Q M' tt) ->
  okp (_invalidate_supported_candidates root now epoch cut) M Q.
Proof.
  intros d Hh He Hroot HQ. apply okp_bind, okp_read, okp_bind.
  eapply okp_mono; [apply (cascade_spec (support_graph d) (fun seen M' => cascading root ws now epoch cut d seen (database M')) root)|].
  - intros seen M' H. unfold support_graph. by destruct H as [_ [-> _] _ _ _ _].
  - intros seen M' child H Hc Hreach. apply cascading_child; [|done|done]. by eapply support_home.
  - cbn [length]. unfold fresh. pose proof (List.filter_length_le (fun e : edge => negb (bool_decide (e.2 ∈ ({[root]} : gset string)))) (support_graph d)).
    subst d. unfold edge in *. lia.
  - split; [set_solver + | done | | done | done | done]. intros x. by rewrite bool_decide_false by set_solver +.
  - set_solver +.
  - intros x ->%elem_of_singleton. done.
  - intros x ->%list_elem_of_singleton. set_solver +.
  - intros x y ->%elem_of_singleton Hn. by destruct Hn; apply list_elem_of_singleton.
  - intros M' left (_ & seen & H & Hs). apply okp_ret. by apply (HQ M' seen).
Qed.

(** ** What a command commits *)

Definition revokes (c : LedgerCommandV2) : bool := str_mem (kind c) ["REVOKE"; "FORGET"].

(** The rows of the command itself. *)
Definition command_row_of (c : LedgerCommandV2) (d : ledger_db) (now : string) : command_row :=
  let cut := next_cut d (cmd_workspace_ref c) in let epoch := next_epoch d (cmd_workspace_ref c) in
  {| co_workspace := cmd_workspace_ref c; co_digest := command_digest c; co_receipt := receipt_digest_of c cut epoch;
     co_sequence := cut; co_epoch := epoch; co_state := "COMMITTED"; co_recorded := now |}.

(** [d1]: after the command's own rows; [d2]: after the cascade; [d']: after the command,
    event and outbox rows. *)
Record committed (c : LedgerCommandV2) (now : string) (d d1 d2 d' : ledger_db) : Prop := {
  committed_revised : exists content, content_of c (ledger_candidate d !! candidate_ref (cmd_payload c)) = Some content /\
    revised c now content (ledger_candidate d !! candidate_ref (cmd_payload c)) d d1;
  committed_cascade : if revokes c
    then exists seen, cascading (candidate_ref (cmd_payload c)) (cmd_workspace_ref c) now (cmd_authority_epoch c)
           (next_cut d (cmd_workspace_ref c)) d1 seen d2 /\
         forall x, x ∈ seen <-> rtc (linked (support_graph d1)) (candidate_ref (cmd_payload c)) x
    else d2 = d1;
  committed_fresh : ledger_command d !! command_ref c = None;
  committed_final : exists digest, event_digest (event_chain_head d) "LEDGER_COMMAND" (command_digest c) = Ok digest /\
    d' = put_outbox (outbox d2 ++ [{| ob_kind := "LEDGER_COMMAND"; ob_ref := command_digest c; ob_state := "PENDING" |}])%list
        (put_events (event_log d2 ++ [{| ev_prev := event_chain_head d; ev_kind := "LEDGER_COMMAND"; ev_ref := command_digest c;
                                         ev_digest := digest |}])%list
        (put_commands (<[command_ref c := command_row_of c d now]> (ledger_command d2)) d2));
}.

(** The receipt of a command at a cut. *)
Definition receipt_of (c : LedgerCommandV2) (cut epoch digest : string) : LedgerReceiptV2 :=
  {| rc_version := LEDGER_RECEIPT_V2; rc_command_ref := command_ref c; rc_workspace_ref := cmd_workspace_ref c;
     rc_transaction_cut := cut; rc_ledger_epoch := epoch; receipt_digest := digest |}.

Lemma receipt_value c cut epoch digest (M : machine) : okp (_receipt c cut epoch digest) M (fun M' receipt =>
  M' = M /\ receipt = receipt_of c cut epoch digest /\ receipt_post_init receipt = Ok receipt).
Proof.
  apply okp_lift. intros receipt E%map_err_ok. assert (E' := E). unfold receipt_post_init in E. inv_result E. by subst receipt.
Qed.

Record well_kept (d : ledger_db) : Prop := { kept_history : history d; kept_edges : edges_home d }.

(** The workspace of the edges and of the candidate is the command's. *)
Record homed (c : LedgerCommandV2) (d : ledger_db) : Prop := {
  homed_edges : forall e, e ∈ all_edges c -> edge_workspace_ref e = cmd_workspace_ref c;
  homed_current : forall r, ledger_candidate d !! candidate_ref (cmd_payload c) = Some r -> ca_workspace r = cmd_workspace_ref c;
  homed_ends : forall e, e ∈ all_edges c -> known_end d c (from_candidate_ref e) = true /\ known_end d c (to_candidate_ref e) = true;
}.

Lemma known_end_home c d d1 now content ref :
  ledger_candidate d1 = <[candidate_ref (cmd_payload c) := new_row c content now]> (ledger_candidate d) ->
  known_end d c ref = true -> lives_in d1 (cmd_workspace_ref c) ref.
Proof.
  unfold known_end, lives_in. intros -> [->%String.eqb_eq|H]%orb_true_iff.
  - eexists. by rewrite lookup_insert_eq.
  - destruct (decide (candidate_ref (cmd_payload c) = ref)) as [->|]; [eexists; by rewrite lookup_insert_eq|].
    rewrite lookup_insert_ne by done. destruct (ledger_candidate d !! ref) as [r|]; [|done]. apply String.eqb_eq in H. eauto.
Qed.

Lemma revised_home c now content d d1 : edges_home d -> homed c d ->
  revised c now content (ledger_candidate d !! candidate_ref (cmd_payload c)) d d1 -> edges_home d1.
Proof.
  intros He [Hw Hcur Hends] Hr e Hin. rewrite (revised_edges _ _ _ _ _ _ Hr) in Hin.
  assert (Hkeep : forall x ws, lives_in d ws x -> lives_in d1 ws x).
  { intros x ws (r & Hx & <-). unfold lives_in. rewrite (revised_candidate _ _ _ _ _ _ Hr).
    destruct (decide (candidate_ref (cmd_payload c) = x)) as [<-|]; [|rewrite lookup_insert_ne by done; eauto].
    rewrite lookup_insert_eq. eexists. split; [done|]. by rewrite (Hcur r Hx). }
  apply elem_of_app in Hin as [Hin|(e' & -> & Hin)%list_elem_of_fmap].
  - destruct (He e Hin) as [Hf Ht]. by split; apply Hkeep.
  - destruct (Hends e' Hin) as [Hf Ht]. cbn [ed_from ed_to ed_workspace edge_row_of]. rewrite (Hw e' Hin).
    by split; eapply known_end_home; try apply Hr.
Qed.

Lemma revised_well_kept c now content d d1 : well_kept d -> homed c d ->
  revised c now content (ledger_candidate d !! candidate_ref (cmd_payload c)) d d1 ->
  well_kept d1 /\ lives_in d1 (cmd_workspace_ref c) (candidate_ref (cmd_payload c)).
Proof.
  intros [Hh He] Hhome Hr. split; [split|].
  - eapply superseded_history; [| | by eapply revised_superseded | done]; [done|]. intros r. apply (homed_current _ _ Hhome).
  - by eapply revised_home.
  - unfold lives_in. rewrite (revised_candidate _ _ _ _ _ _ Hr), lookup_insert_eq. by eexists.
Qed.

(** Statements one by one. *)
Lemma okp_close c x now M (Q : machine -> unit -> Prop) current :
  current = ledger_candidate (database M) !! x ->
  (forall M' m, database M' = put_closures (match current with
       | Some r => <[(x, ca_revision r) := (c, now)]> (ledger_candidate_version_closure (database M))
       | None => ledger_candidate_version_closure (database M) end) (put_candidate m (database M)) ->
     (forall row, <[x := row]> m = <[x := row]> (ledger_candidate (database M))) ->
     (forall r, current = Some r -> ledger_candidate_version_closure (database M) !! (x, ca_revision r) = None) -> Q M' tt) ->
  okp (match current with
       | Some r => _ ← close_candidate x now; insert_closure x (ca_revision r) c now
       | None => mret tt end) M Q.
Proof.
  intros -> H. destruct (ledger_candidate (database M) !! x) as [r|] eqn:E.
  - apply okp_bind, okp_write, okp_insert. intros Hn%bool_decide_eq_false. eapply H; [done | |].
    + intros row. apply map_eq. intros y. destruct (decide (x = y)) as [->|]; [by rewrite !lookup_insert_eq|].
      by rewrite !lookup_insert_ne, lookup_alter_ne.
    + intros r' [= <-]. by apply eq_None_not_Some.
  - apply okp_ret. apply (H M (ledger_candidate (database M))); [by destruct (database M) | done | done].
Qed.

Lemma okp_append_event prev event_kind ref M (Q : machine -> string -> Prop) :
  (forall M' digest, event_chain_head (database M) = prev -> event_digest prev event_kind ref = Ok digest ->
     database M' = put_events (event_log (database M) ++
       [{| ev_prev := prev; ev_kind := event_kind; ev_ref := ref; ev_digest := digest |}])%list (database M) -> Q M' digest) ->
  okp (append_event prev event_kind ref) M Q.
Proof.
  intros H. apply okp_bind, okp_read, okp_bind, okp_lift. intros [] Hp%ensure_ok%bool_decide_eq_true.
  apply okp_bind, okp_lift. intros digest Hd%map_err_ok. apply okp_bind, okp_write, okp_ret. by eapply H.
Qed.

Lemma committed_intro c now content d d1 d2 M (Q : machine -> LedgerReceiptV2 -> Prop) :
  let cut := next_cut d (cmd_workspace_ref c) in let epoch := next_epoch d (cmd_workspace_ref c) in
  let current := ledger_candidate d !! candidate_ref (cmd_payload c) in
  content_of c current = Some content -> revised c now content current d d1 ->
  (if revokes c then exists seen, cascading (candidate_ref (cmd_payload c)) (cmd_workspace_ref c) now (cmd_authority_epoch c) cut d1 seen d2 /\
      forall x, x ∈ seen <-> rtc (linked (support_graph d1)) (candidate_ref (cmd_payload c)) x
   else d2 = d1) ->
  database M = d2 ->
  (forall M' receipt, committed c now d d1 d2 (database M') -> receipt = receipt_of c cut epoch (receipt_digest_of c cut epoch) ->
     receipt_post_init receipt = Ok receipt -> Q M' receipt) ->
  okp (_ ← record_command c (receipt_digest_of c cut epoch) cut epoch now; _receipt c cut epoch (receipt_digest_of c cut epoch)) M Q.
Proof.
  intros cut epoch current Hcontent Hr Hc HM HQ. unfold record_command.
  assert (Hrest : ledger_command d2 = ledger_command d /\ event_log d2 = event_log d).
  { destruct (revokes c); [destruct Hc as (seen & [_ [] _ _ _ _] & _) | subst d2]; split; try (etrans; [eassumption|]); apply Hr. }
  destruct Hrest as [Ecmd Eev].
  apply okp_bind, okp_bind, okp_insert. intros Hfresh%bool_decide_eq_false. rewrite HM, Ecmd in Hfresh.
  assert (Ehead : forall v, event_chain_head (put_commands v d2) = event_chain_head d)
    by (intros v; unfold event_chain_head; cbn [event_log put_commands]; by rewrite Eev).
  apply okp_bind, okp_read, okp_bind, okp_append_event. intros M2 digest _ Hd E2.
  cbn [database with_db] in Hd, E2 |- *. rewrite HM in Hd, E2. rewrite Ehead in Hd, E2.
  apply okp_write. eapply okp_mono; [apply receipt_value|]. intros M3 receipt (-> & E3 & Hok). apply HQ; [|done..].
  split; [eauto | done | by apply eq_None_not_Some |]. exists digest. split; [done|]. cbn [database with_db]. rewrite E2. done.
Qed.

Definition committed_receipt (c : LedgerCommandV2) (d : ledger_db) : LedgerReceiptV2 :=
  let cut := next_cut d (cmd_workspace_ref c) in let epoch := next_epoch d (cmd_workspace_ref c) in
  receipt_of c cut epoch (receipt_digest_of c cut epoch).

Lemma okp_commit c now M (Q : machine -> LedgerReceiptV2 -> Prop) : well_kept (database M) -> homed c (database M) ->
  (forall M' receipt d1 d2, committed c now (database M) d1 d2 (database M') ->
     receipt = committed_receipt c (database M) -> receipt_post_init receipt = Ok receipt -> Q M' receipt) ->
  okp (commit_command c now (ledger_candidate (database M) !! candidate_ref (cmd_payload c))) M Q.
Proof.
  intros Hkept Hhome HQ. set (d := database M) in *. apply okp_bind, okp_sequence. cbn beta iota.
  apply okp_bind, okp_lift. intros content Hcontent.
  assert (Hcontent' : content_of c (ledger_candidate d !! candidate_ref (cmd_payload c)) = Some content)
    by (destruct (content_of _ _); [by injection Hcontent as -> | done]).
  apply okp_bind, okp_require. intros _. apply okp_bind, okp_close; [done|].
  intros M2 m E2 Hm Hk. cbn [database with_db ledger_candidate_version_closure put_sequence ledger_candidate] in E2, Hm, Hk.
  apply okp_bind. unfold record_revision. apply okp_bind, okp_write.
  apply okp_bind, okp_insert. intros Hv. apply okp_bind, okp_insert. intros _. apply okp_bind, okp_insert. intros Hci.
  apply okp_insert. intros _. apply okp_bind, okp_insert_edges. intros M3 E3.
  cbn [database with_db] in E3, Hv, Hci. rewrite E2 in E3, Hv, Hci. apply bool_decide_eq_false in Hci.
  assert (Hr : revised c now content (ledger_candidate d !! candidate_ref (cmd_payload c)) d (database M3)).
  { split; rewrite ?E3; try done; [cbn; apply Hm | exact (version_absent _ _ Hv) | split; [by apply eq_None_not_Some | done]]. }
  destruct (revised_well_kept _ _ _ _ _ Hkept Hhome Hr) as [[Hh1 He1] Hlives]. apply okp_bind. fold (revokes c).
  destruct (revokes c) eqn:Erev.
  - eapply okp_cascade; [done..|]. intros M4 seen Hcasc Hseen. eapply committed_intro; [done | exact Hr | | done | by eauto].
    rewrite Erev. eauto.
  - apply okp_ret. eapply committed_intro; [done | exact Hr | by rewrite Erev | done | by eauto].
Qed.
End History.
