(* ===== verification/LedgerInvariants.v ===== *)
(** * What every ledger transaction preserves (infrastructure/second_brain_ledger.py)

    The committed transactions of the lifecycle database as a step relation on the ledger's
    tables, and the invariants of its reachable states. *)
From S2P Require Import Prelude Digest Json Canonical Contracts Timestamps RuntimeContracts LedgerContracts LedgerGraph Ledger LedgerHistory.
Open Scope string_scope.

Section Invariants.
Context {U : Unicode} {D : Digest} {T : TrustVerifier} {W : Type} {S : Surroundings (W := W)}.

Notation machine := (machine (W := W)).
Notation method := (st machine ledger_error).

(** ** A committed command *)

Lemma matrix_homed c d current : command_matrix c = true -> admitted c d current -> homed c d.
Proof.
  intros Hm [-> Hexp _ _ Hedges]. unfold command_matrix in Hm. apply andb_true_iff in Hm as [_ Hws].
  rewrite forallb_forall in Hws. split.
  - intros e He%list_elem_of_In. by apply String.eqb_eq, Hws.
  - intros r Hr. unfold expected_candidate in Hexp. rewrite Hr in Hexp. destruct (String.eqb (kind c) _); [done|].
    apply andb_true_iff in Hexp as [[_ E]%andb_true_iff _]. by apply String.eqb_eq.
  - intros e He. specialize (Hedges e He). unfold validate_edge in Hedges. inv_result Hedges.
    match goal with H : ensure (known_end _ _ _ && _) _ = Ok _ |- _ => by apply ensure_ok, andb_true_iff in H end.
Qed.

(** The matrix gives a command one edge at most. *)
Lemma matrix_edges c : command_matrix c = true -> length (all_edges c) <= 1.
Proof.
  intros [[[H _]%andb_true_iff _]%andb_true_iff _]%andb_true_iff. unfold all_edges. rewrite length_app.
  destruct (assoc (kind c) matrix) as [r|] eqn:E; [|done]. apply assoc_Some_elem in E.
  unfold follows_rule in H. rewrite !andb_true_iff, !Nat.eqb_eq in H. destruct H as [[_ ->] ->].
  assert (Hall : Forall (fun kr => rule_supports kr.2 + rule_contradictions kr.2 <= 1) matrix) by (repeat constructor).
  rewrite list.Forall_forall in Hall. by specialize (Hall _ E).
Qed.

Lemma matrix_revokes c : command_matrix c = true -> revokes c = true -> all_edges c = [].
Proof.
  intros [[[H _]%andb_true_iff _]%andb_true_iff _]%andb_true_iff Hr. unfold revokes, str_mem in Hr. cbn in Hr.
  rewrite orb_false_r, orb_true_iff, !String.eqb_eq in Hr. apply nil_length_inv. unfold all_edges. rewrite length_app.
  destruct Hr as [Hk|Hk]; rewrite Hk in H; cbn in H; unfold follows_rule in H; rewrite !andb_true_iff, !Nat.eqb_eq in H;
    destruct H as [[_ ->] ->]; done.
Qed.

Lemma committed_well_kept c now d d1 d2 d' : well_kept d -> homed c d -> committed c now d d1 d2 d' ->
  well_kept d' /\ grown (cmd_workspace_ref c) (next_cut d (cmd_workspace_ref c)) d d'.
Proof.
  intros Hk Hh [(content & _ & Hr) Hc _ (digest & _ & ->)].
  destruct (revised_well_kept _ _ _ _ _ Hk Hh Hr) as [[Hh1 He1] _].
  assert (Hg1 : grown (cmd_workspace_ref c) (next_cut d (cmd_workspace_ref c)) d d1).
  { eapply (superseded_grown _ (new_row c content now)); [apply Hk | apply Hh | by apply revised_superseded | | apply Hr |].
    - eexists. split; [apply Hr|]. intros e (e' & -> & He)%list_elem_of_fmap. cbn [ed_workspace ed_start_cut edge_row_of].
      by rewrite (homed_edges _ _ Hh e' He).
    - intros v Hv. rewrite (proj2 (revised_citations _ _ _ _ _ _ Hr)), lookup_insert_ne; [done|].
      intros E. injection E as E1 E2. by apply (revised_new _ _ _ _ _ _ Hr v Hv). }
  assert (H2 : well_kept d2 /\ grown (cmd_workspace_ref c) (next_cut d (cmd_workspace_ref c)) d d2).
  { destruct (revokes c); [|by subst d2]. destruct Hc as (seen & [_ Hrest Hrows Hh2 Hg2 _] & _).
    split; [split; [done|] | by etrans]. intros e. rewrite (rest_edges _ _ Hrest). intros He.
    assert (Hkeep : forall x ws, lives_in d1 ws x -> lives_in d2 ws x).
    { intros x ws (r & Hx & <-). destruct (grown_homes _ _ _ _ Hg2 x r Hx) as (r' & Hx' & E). by exists r'. }
    destruct (He1 e He) as [Hf Ht]. by split; apply Hkeep. }
  destruct H2 as [[[] He2] []]. split; [split; [by split | exact He2] | by split].
Qed.

(** ** The support graph stays acyclic *)

Lemma active_new c sequence now e :
  active "SUPPORT" (edge_row_of c sequence now e) = true -> edge_kind e = "SUPPORT".
Proof. unfold active. intros [[H _]%andb_true_iff _]%andb_true_iff. by apply String.eqb_eq in H. Qed.

Lemma validated_edge d c e : validate_edge d c e = Ok tt -> edge_kind e = "SUPPORT" ->
  ~ rtc (linked (support_graph d)) (to_candidate_ref e) (from_candidate_ref e).
Proof.
  intros H Hk Hp. unfold validate_edge in H. inv_result H.
  match goal with H : negb (_ && support_path _ _ _) = true |- _ => rename H into Hc end.
  unfold support_path in Hc. rewrite Hk in Hc.
  destruct (reachable_decides (support_graph d) (to_candidate_ref e) (from_candidate_ref e)) as (b & Eb & Hb).
  rewrite Eb in Hc. apply Hb in Hp as ->. done.
Qed.

Lemma revised_acyclic c now content current current' d d1 : command_matrix c = true -> admitted c d current' ->
  revised c now content current d d1 -> acyclic (support_graph d) -> acyclic (support_graph d1).
Proof.
  intros Hm Ha Hr Hac. unfold support_graph. rewrite (revised_edges _ _ _ _ _ _ Hr).
  pose proof (matrix_edges c Hm) as Hlen. pose proof (admitted_edges _ _ _ Ha) as Hv.
  destruct (all_edges c) as [|e [|]]; [by rewrite app_nil_r | | cbn in Hlen; lia].
  rewrite List.filter_app, map_app. cbn [List.filter map]. destruct (active "SUPPORT" _) eqn:Eact; [|by rewrite app_nil_r].
  apply acyclic_app; [exact Hac|]. apply validated_edge with (c := c); [apply Hv; by apply list_elem_of_singleton | by eapply active_new].
Qed.

Lemma committed_acyclic c now d d1 d2 d' current : command_matrix c = true -> admitted c d current ->
  committed c now d d1 d2 d' -> acyclic (support_graph d) -> acyclic (support_graph d').
Proof.
  intros Hm Ha [(content & _ & Hr) Hc _ (digest & _ & ->)] Hac. apply (revised_acyclic _ _ _ _ _ _ _ Hm Ha Hr) in Hac.
  unfold support_graph. cbn [ledger_edge put_outbox put_events put_commands].
  destruct (revokes c); [destruct Hc as (seen & [_ [-> _] _ _ _ _] & _) | subst d2]; exact Hac.
Qed.

(** ** Transactions

    What the rest of the program does to the tables: the recall path and the rest of the
    lifecycle write provenance, cursors, receipts, events and outbox rows, and leave the
    others alone. *)
Record elsewhere (d d' : ledger_db) : Prop := {
  elsewhere_candidate : ledger_candidate d' = ledger_candidate d;
  elsewhere_versions : ledger_candidate_version d' = ledger_candidate_version d;
  elsewhere_closures : ledger_candidate_version_closure d' = ledger_candidate_version_closure d;
  elsewhere_edges : ledger_edge d' = ledger_edge d;
  elsewhere_edge_closures : ledger_edge_closure d' = ledger_edge_closure d;
  elsewhere_commands : ledger_command d' = ledger_command d;
  elsewhere_authority : ledger_authority d' = ledger_authority d;
  elsewhere_citations : ledger_citation_commitment d' = ledger_citation_commitment d;
  elsewhere_sequence : ledger_sequence d' = ledger_sequence d;
  elsewhere_migration : ledger_migration d' = ledger_migration d;
}.

(** A committed transaction.  The callback of a promotion only looks and writes receipts. *)
Inductive transaction : ledger_db -> ledger_db -> Prop :=
| tx_classify ws now (M M' : machine) :
    classify_transaction ws now M = (M', Ok tt) -> transaction (database M) (database M')
| tx_authority ws a now (M M' : machine) :
    register_authority ws a now M = (M', Ok tt) -> transaction (database M) (database M')
| tx_promote ws (verifier : string -> method (option string)) now (M M' : machine) digest :
    (forall M : machine, elsewhere (database M) (database (verifier ws M).1)) ->
    promote_transaction ws verifier now M = (M', Ok digest) -> transaction (database M) (database M')
| tx_append c (M M' : machine) receipt :
    command_matrix c = true -> append_transaction c M = (M', Ok receipt) -> transaction (database M) (database M')
| tx_elsewhere d d' : elsewhere d d' -> transaction d d'.

#[export] Instance elsewhere_preorder : PreOrder elsewhere.
Proof. split; [by intros d; split | intros d1 d2 d3 [] []; split; congruence]. Qed.

(** What the transactions of one workspace other than commands change. *)
Lemma classify_spec ws now (M : machine) : okp (classify_transaction ws now) M (fun M' _ =>
  database M' = database M \/ exists m, database M' = put_migration (ledger_migration (database M) ++ [m])%list (database M) /\
    mi_workspace m = ws /\ forall m', m' ∈ ledger_migration (database M) -> mi_workspace m' <> ws).
Proof.
  apply okp_bind, okp_gets. destruct (_ && _) eqn:E; [|by apply okp_ret; left].
  apply okp_insert. intros _. right. eexists. split; [done|]. split; [done|].
  apply andb_true_iff in E as [_ E%negb_true_iff]. intros m' Hm Hw. apply not_true_iff_false in E. apply E, existsb_exists.
  exists m'. split; [by apply list_elem_of_In | by apply String.eqb_eq].
Qed.

(** Registration is the first mutation of its workspace. *)
Lemma register_spec ws a now (M : machine) : okp (register_authority ws a now) M (fun M' _ =>
  let d := database M in exists a' m,
  ledger_authority d !! ws = None /\ next_cut d ws = "1" /\ mi_workspace m = ws /\
  database M' = put_migration (ledger_migration d ++ [m])%list (put_authority (<[ws := a']> (ledger_authority d))
    (put_sequence (<[ws := {| sq_sequence := next_cut d ws; sq_epoch := next_epoch d ws; sq_updated := now |}]> (ledger_sequence d)) d))).
Proof.
  apply okp_bind, okp_read, okp_bind, okp_require. intros Ha. apply okp_bind, okp_sequence. cbn beta iota.
  apply okp_bind, okp_require. intros Hs%String.eqb_eq. apply okp_bind, okp_insert. intros _. apply okp_insert. intros _.
  eexists _, _. split; [by destruct (ledger_authority (database M) !! ws)|]. split; [done|]. split; [|done]. done.
Qed.

Lemma okp_elsewhere {A} (m : method A) (M : machine) (Q : machine -> A -> Prop) : (forall M : machine, elsewhere (database M) (database (m M).1)) ->
  (forall (M' : machine) a, elsewhere (database M) (database M') -> Q M' a) -> okp m M Q.
Proof. intros Hm H M' a E. apply H. specialize (Hm M). by rewrite E in Hm. Qed.

Lemma promote_spec ws (verifier : string -> method (option string)) now M : (forall M : machine, elsewhere (database M) (database (verifier ws M).1)) ->
  okp (promote_transaction ws verifier now) M (fun M' _ => exists d m, elsewhere (database M) d /\ mi_workspace m = ws /\
    last_migration (database M) ws <> None /\ database M' = put_migration (ledger_migration d ++ [m])%list d).
Proof.
  intros Hv. apply okp_bind, okp_read, okp_bind, okp_require. intros Hm. apply okp_bind, okp_elsewhere; [done|].
  intros M1 answer H1. apply okp_bind, okp_lift. intros digest _. apply okp_bind, okp_require. intros _.
  apply okp_bind, okp_read, okp_bind, okp_require. intros _. apply okp_bind, okp_insert. intros _. apply okp_ret.
  eexists _, _. split; [exact H1|]. split; [|split; [|reflexivity]]; [done|]. by intros E; rewrite E in Hm.
Qed.

(** A command is replayed or committed. *)
Definition replayed (c : LedgerCommandV2) (M M' : machine) (receipt : LedgerReceiptV2) : Prop :=
  exists r, ledger_command (database M) !! command_ref c = Some r /\ co_digest r = command_digest c /\ M' = M /\
    receipt = receipt_of c (co_sequence r) (co_epoch r) (co_receipt r).

Definition appended (c : LedgerCommandV2) (M M' : machine) (receipt : LedgerReceiptV2) : Prop :=
  exists now v d1 d2, let d := put_provenance v (database M) in
    admitted c d (ledger_candidate d !! candidate_ref (cmd_payload c)) /\
    committed c now d d1 d2 (database M') /\ receipt = committed_receipt c d /\ receipt_post_init receipt = Ok receipt.

Lemma elsewhere_well_kept d d' : elsewhere d d' -> well_kept d -> well_kept d'.
Proof.
  intros [E1 E2 E3 E4 _ _ _ _ _ _] [[] He]. split; [split; rewrite ?E1, ?E2, ?E3; done|].
  unfold edges_home. rewrite E1, E4. exact He.
Qed.

Lemma append_spec c (M : machine) : command_matrix c = true -> well_kept (database M) ->
  okp (append_transaction c) M (fun M' receipt => replayed c M M' receipt \/ appended c M M' receipt).
Proof.
  intros Hm Hk. apply okp_bind, okp_read. destruct (ledger_command (database M) !! command_ref c) as [r|] eqn:E.
  - apply okp_bind, okp_require. intros Hd%String.eqb_eq. eapply okp_mono; [apply receipt_value|].
    intros M' receipt (-> & -> & _). left. by exists r.
  - apply okp_bind, okp_frame; [apply frame_timestamp|]. intros M1 now _ E1.
    apply okp_bind. eapply okp_mono; [apply admit_spec|]. intros M2 current [Ha [v E2]]. rewrite E1 in Ha, E2.
    pose proof (matrix_homed _ _ _ Hm Ha) as Hh. destruct Ha as [-> Hx Hs Hr He].
    replace (ledger_candidate (database M)) with (ledger_candidate (database M2)) by by rewrite E2.
    apply okp_commit.
    + rewrite E2. eapply elsewhere_well_kept; [|exact Hk]. by split.
    + rewrite E2. destruct Hh. by split.
    + rewrite E2. intros M3 receipt d1 d2 Hc Hcut Hok. right. exists now, v, d1, d2. split; [by split | done].
Qed.

(** ** The counter of a workspace

    Registration is cut 1; every later cut is the cut of one command. *)
Definition counter (d : ledger_db) (ws : string) (n : N) : Prop :=
  exists r, ledger_sequence d !! ws = Some r /\ sq_sequence r = str_of_N n.

Record numbered (d : ledger_db) : Prop := {
  numbered_counter : forall ws r, ledger_sequence d !! ws = Some r -> exists n, (1 <= n)%N /\
    sq_sequence r = str_of_N n /\ sq_epoch r = str_of_N n;
  numbered_commands : forall ref co, ledger_command d !! ref = Some co -> exists n k, counter d (co_workspace co) n /\
    co_sequence co = str_of_N k /\ co_epoch co = str_of_N k /\ (2 <= k <= n)%N;
  numbered_distinct : forall ref ref' co co', ledger_command d !! ref = Some co -> ledger_command d !! ref' = Some co' ->
    co_workspace co = co_workspace co' -> co_sequence co = co_sequence co' -> ref = ref';
  numbered_gapless : forall ws n k, counter d ws n -> (2 <= k <= n)%N ->
    exists ref co, ledger_command d !! ref = Some co /\ co_workspace co = ws /\ co_sequence co = str_of_N k;
}.

Lemma decimal_succ_of n : decimal_succ (str_of_N n) = str_of_N (n + 1).
Proof. unfold decimal_succ. by rewrite int_of_str_of_N. Qed.

Lemma counter_unique d ws n m : counter d ws n -> counter d ws m -> n = m.
Proof. intros (r & H & E) (r' & H' & E'). apply str_of_N_inj. congruence. Qed.

Lemma numbered_ext d d' : ledger_sequence d' = ledger_sequence d -> ledger_command d' = ledger_command d ->
  numbered d -> numbered d'.
Proof. intros E1 E2 [H1 H2 H3 H4]. split; unfold counter; rewrite ?E1, ?E2; done. Qed.

Lemma numbered_next d ws r : numbered d -> ledger_sequence d !! ws = Some r -> exists n, (1 <= n)%N /\ counter d ws n /\
  next_cut d ws = str_of_N (n + 1) /\ next_epoch d ws = str_of_N (n + 1).
Proof.
  intros H Hr. destruct (numbered_counter _ H ws r Hr) as (n & Hn & E1 & E2). exists n. split; [done|]. split; [by exists r|].
  unfold next_cut, next_epoch. by rewrite Hr, E1, E2, decimal_succ_of.
Qed.

Lemma numbered_command d d' ws ref co now : numbered d -> is_Some (ledger_sequence d !! ws) -> ledger_command d !! ref = None ->
  co_workspace co = ws -> co_sequence co = next_cut d ws -> co_epoch co = next_epoch d ws ->
  ledger_sequence d' = <[ws := {| sq_sequence := next_cut d ws; sq_epoch := next_epoch d ws; sq_updated := now |}]> (ledger_sequence d) ->
  ledger_command d' = <[ref := co]> (ledger_command d) -> numbered d'.
Proof.
  intros H [r Hr] Hnew Hw Hs He Es Ec. destruct (numbered_next d ws r H Hr) as (n & Hn & Hc & En & Een). rewrite En in Hs, Es.
  rewrite Een in He, Es.
  assert (Hc' : counter d' ws (n + 1)) by (unfold counter; rewrite Es, lookup_insert_eq; by eexists).
  assert (Hkeep : forall ws' m, ws' <> ws -> counter d' ws' m <-> counter d ws' m)
    by (intros ws' m Hne; unfold counter; rewrite Es, lookup_insert_ne by done; done).
  assert (Hold : forall ref' co', ledger_command d !! ref' = Some co' -> co_workspace co' = ws -> co_sequence co' <> str_of_N (n + 1)).
  { intros ref' co' H' Hw' E. destruct (numbered_commands _ H _ _ H') as (m & k & Hm & Ek & _ & Hk). rewrite Hw' in Hm.
    rewrite (counter_unique _ _ _ _ Hm Hc) in Hk. rewrite Ek in E. apply str_of_N_inj in E. lia. }
  split.
  - intros ws' r'. rewrite Es. destruct (decide (ws = ws')) as [<-|Hne]; [|rewrite lookup_insert_ne by done; apply H].
    rewrite lookup_insert_eq. intros [= <-]. exists (n + 1)%N. split; [lia | done].
  - intros ref' co'. rewrite Ec. destruct (decide (ref = ref')) as [<-|Hne].
    + rewrite lookup_insert_eq. intros [= <-]. exists (n + 1)%N, (n + 1)%N. rewrite Hw. repeat split; try done; lia.
    + rewrite lookup_insert_ne by done. intros (m & k & Hm & Ek & Eek & Hk)%(numbered_commands _ H).
      destruct (decide (co_workspace co' = ws)) as [E|Hne']; [|exists m, k; split; [by apply Hkeep | done]].
      rewrite E in *. exists (n + 1)%N, k. rewrite (counter_unique _ _ _ _ Hm Hc) in Hk. repeat split; try done; lia.
  - intros ref1 ref2 c1 c2. rewrite Ec.
    destruct (decide (ref = ref1)) as [<-|N1], (decide (ref = ref2)) as [<-|N2]; [done | | |].
    + rewrite lookup_insert_eq, lookup_insert_ne by done. intros [= <-] H2 Ew Esq. exfalso. apply (Hold _ _ H2); congruence.
    + rewrite lookup_insert_eq, lookup_insert_ne by done. intros H2 [= <-] Ew Esq. exfalso. apply (Hold _ _ H2); congruence.
    + rewrite !lookup_insert_ne by done. apply H.
  - intros ws' m k Hm Hk.
    assert (Hin : forall ref' co', ledger_command d !! ref' = Some co' -> ledger_command d' !! ref' = Some co').
    { intros ref' co' H'. rewrite Ec, lookup_insert_ne; [done | congruence]. }
    destruct (decide (ws' = ws)) as [->|Hne].
    + rewrite (counter_unique _ _ _ _ Hm Hc') in Hk. destruct (decide (k = n + 1)%N) as [->|].
      * exists ref, co. by rewrite Ec, lookup_insert_eq.
      * destruct (numbered_gapless _ H ws n k Hc) as (ref' & co' & H' & ?); [lia|]. eauto.
    + apply Hkeep in Hm; [|done]. destruct (numbered_gapless _ H ws' m k Hm Hk) as (ref' & co' & H' & ?). eauto.
Qed.

Lemma numbered_registered d d' ws now : numbered d -> next_cut d ws = "1" ->
  ledger_sequence d' = <[ws := {| sq_sequence := next_cut d ws; sq_epoch := next_epoch d ws; sq_updated := now |}]> (ledger_sequence d) ->
  ledger_command d' = ledger_command d -> numbered d' /\ ledger_sequence d !! ws = None.
Proof.
  intros H E1 Es Ec. assert (Hnone : ledger_sequence d !! ws = None).
  { destruct (ledger_sequence d !! ws) as [r|] eqn:Hr; [|done]. destruct (numbered_next d ws r H Hr) as (n & Hn & _ & E & _).
    rewrite E1 in E. change "1" with (str_of_N 1) in E. apply str_of_N_inj in E. lia. }
  split; [|done]. unfold next_cut, next_epoch in Es. rewrite Hnone in Es.
  assert (Hkeep : forall ws' m, ws' <> ws -> counter d' ws' m <-> counter d ws' m)
    by (intros ws' m Hne; unfold counter; rewrite Es, lookup_insert_ne by done; done).
  split; rewrite ?Ec.
  - intros ws' r'. rewrite Es. destruct (decide (ws = ws')) as [<-|Hne]; [|rewrite lookup_insert_ne by done; apply H].
    rewrite lookup_insert_eq. intros [= <-]. by exists 1%N.
  - intros ref co Hco. destruct (numbered_commands _ H _ _ Hco) as (n & k & Hn & Hk). exists n, k.
    split; [apply Hkeep; [|apply Hn] | exact Hk].
    intros Hw. rewrite Hw in Hn. destruct Hn as (r & Hr & _). congruence.
  - apply H.
  - intros ws' n k Hn Hk. destruct (decide (ws' = ws)) as [->|Hne].
    + assert (n = 1%N) as ->; [|lia]. destruct Hn as (r & Hr & En). rewrite Es, lookup_insert_eq in Hr. injection Hr as <-.
      change (sq_sequence _) with (str_of_N 1) in En. by apply str_of_N_inj in En.
    + apply Hkeep in Hn; [|done]. by apply (numbered_gapless _ H ws' n).
Qed.

(** ** What every transaction keeps *)

Record kept (d : ledger_db) : Prop := {
  kept_well : well_kept d;
  kept_acyclic : acyclic (support_graph d);
  kept_numbered : numbered d;
}.

Lemma kept_ext d d' : ledger_candidate d' = ledger_candidate d -> ledger_candidate_version d' = ledger_candidate_version d ->
  ledger_candidate_version_closure d' = ledger_candidate_version_closure d -> ledger_edge d' = ledger_edge d ->
  ledger_command d' = ledger_command d -> ledger_sequence d' = ledger_sequence d -> kept d -> kept d'.
Proof.
  intros E1 E2 E3 E4 E5 E6 [[[] He] Ha Hn]. split.
  - split; [split; rewrite ?E1, ?E2, ?E3; done|]. unfold edges_home. by rewrite E1, E4.
  - unfold support_graph. by rewrite E4.
  - by eapply numbered_ext.
Qed.

Lemma kept_elsewhere d d' : elsewhere d d' -> kept d -> kept d'.
Proof. intros []. by apply kept_ext. Qed.

Lemma committed_kept c now d d1 d2 d' current : command_matrix c = true -> admitted c d current ->
  committed c now d d1 d2 d' -> kept d -> kept d'.
Proof.
  intros Hm Ha Hc [Hw Hac Hn]. split.
  - eapply committed_well_kept; [done | by eapply matrix_homed | exact Hc].
  - by eapply committed_acyclic.
  - destruct Hc as [(content & _ & Hr) Hcasc Hfresh (digest & _ & ->)].
    assert (E : ledger_command d2 = ledger_command d1 /\ ledger_sequence d2 = ledger_sequence d1)
      by (destruct (revokes c); [by destruct Hcasc as (seen & [_ [] _ _ _ _] & _) | by subst d2]).
    destruct E as [Ec Es]. eapply (numbered_command d _ (cmd_workspace_ref c) (command_ref c) (command_row_of c d now) now);
      [exact Hn | apply Ha | exact Hfresh | done | done | done | cbn | cbn]; [by rewrite Es, (revised_sequence _ _ _ _ _ _ Hr)|].
    by rewrite Ec, (revised_commands _ _ _ _ _ _ Hr).
Qed.

Lemma transaction_kept d d' : transaction d d' -> kept d -> kept d'.
Proof.
  intros Htx Hk. destruct Htx as [ws now M M' H | ws a now M M' H | ws v now M M' digest Hv H | c M M' receipt Hm H | d d' H].
  - apply classify_spec in H as [E|(m & E & _)]; rewrite E; [exact Hk | by apply (kept_ext (database M))].
  - apply register_spec in H as (a' & m & _ & Hcut & _ & E). destruct Hk as [[[] He] Ha Hn]. rewrite E.
    split; [split; [by split | exact He] | exact Ha |]. by eapply numbered_registered.
  - apply promote_spec in H as (d & m & Hd & _ & _ & E); [|exact Hv]. rewrite E. eapply (kept_ext d); [done..|].
    by eapply kept_elsewhere.
  - apply append_spec in H as [(r & _ & _ & -> & _)|(now & v & d1 & d2 & Ha & Hc & _)]; [done | | exact Hm | apply Hk].
    eapply committed_kept; [done | exact Ha | exact Hc |]. by apply (kept_ext (database M)).
  - by eapply kept_elsewhere.
Qed.

Lemma transactions_kept d d' : rtc transaction d d' -> kept d -> kept d'.
Proof. induction 1; [done|]. eauto using transaction_kept. Qed.

Lemma kept_empty : kept empty_db.
Proof.
  split.
  - split; [|by intros e ?%elem_of_nil].
    split; cbn; [constructor | by intros v ?%elem_of_nil | | | by intros v r ?%elem_of_nil | by intros v r ?%elem_of_nil].
    + intros k [x Hx]. by rewrite lookup_empty in Hx.
    + intros x r Hr. by rewrite lookup_empty in Hr.
  - by intros x y ?%elem_of_nil.
  - split; unfold counter; cbn.
    + intros ws r Hr. by rewrite lookup_empty in Hr.
    + intros ws r Hr. by rewrite lookup_empty in Hr.
    + intros ref ref' co co' Hr. by rewrite lookup_empty in Hr.
    + intros ws n k (r & Hr & _). by rewrite lookup_empty in Hr.
Qed.

(** ** Rows that stay *)

(** A recorded command is never changed, and a workspace keeps its migration. *)
Record lasting (d d' : ledger_db) : Prop := {
  lasting_commands : forall ref co, ledger_command d !! ref = Some co -> ledger_command d' !! ref = Some co;
  lasting_migration : exists ms, ledger_migration d' = (ledger_migration d ++ ms)%list;
}.

#[export] Instance lasting_preorder : PreOrder lasting.
Proof.
  split; [intros d; split; [done | exists []; by rewrite app_nil_r]|].
  intros d1 d2 d3 [H1 (ms & E)] [H2 (ms' & E')]. split; [auto|]. exists (ms ++ ms')%list. by rewrite E', E, app_assoc.
Qed.

Lemma committed_lasting c now d d1 d2 d' : committed c now d d1 d2 d' -> lasting d d'.
Proof.
  intros [(content & _ & Hr) Hcasc Hfresh (digest & _ & ->)].
  assert (E : ledger_command d2 = ledger_command d1 /\ ledger_migration d2 = ledger_migration d1)
    by (destruct (revokes c); [by destruct Hcasc as (seen & [_ [] _ _ _ _] & _) | by subst d2]).
  destruct E as [Ec Em]. split; cbn.
  - intros ref co H. rewrite Ec, (revised_commands _ _ _ _ _ _ Hr), lookup_insert_ne; [done | congruence].
  - exists []. by rewrite Em, (revised_migration _ _ _ _ _ _ Hr), app_nil_r.
Qed.

Lemma transaction_lasting d d' : kept d -> transaction d d' -> lasting d d'.
Proof.
  intros Hk Htx. assert (Hadd : forall d m ms, ledger_command (put_migration (ledger_migration d ++ ms)%list m) = ledger_command d ->
    lasting d (put_migration (ledger_migration d ++ ms)%list m)) by (intros d0 m ms E; split; [by rewrite E | by exists ms]).
  destruct Htx as [ws now M M' H | ws a now M M' H | ws v now M M' digest Hv H | c M M' receipt Hm H | d d' []].
  - apply classify_spec in H as [E|(m & E & _)]; rewrite E; [done | by apply Hadd].
  - apply register_spec in H as (a' & m & _ & _ & _ & E). rewrite E. by apply Hadd.
  - apply promote_spec in H as (d & m & [] & _ & _ & E); [|exact Hv]. rewrite E. split; cbn; [congruence|].
    exists [m]. congruence.
  - apply append_spec in H as [(r & _ & _ & -> & _)|(now & v & d1 & d2 & Ha & Hc & _)]; [done | | exact Hm | apply Hk].
    by destruct (committed_lasting _ _ _ _ _ _ Hc).
  - split; [congruence|]. exists []. rewrite app_nil_r. done.
Qed.

Lemma transactions_lasting d d' : kept d -> rtc transaction d d' -> lasting d d'.
Proof.
  intros Hk H. induction H as [|d1 d2 d3 H1 H2 IH]; [done|]. etrans; [by apply transaction_lasting | apply IH].
  by eapply transaction_kept.
Qed.
(** ** The public operations

    What other connections and the rest of the program do before a transaction begins is
    transactions too. *)
Definition honest : Prop := forall M : machine, rtc transaction (database M) (database (others M)).

Lemma unit_steps {A} (m : method A) (M : machine) : honest ->
  (forall M M' a, m M = (M', Ok a) -> rtc transaction (database M) (database M')) ->
  rtc transaction (database M) (database (unit_of_work m M).1).
Proof.
  intros Ho Hm. unfold unit_of_work. specialize (Hm (others M)). etrans; [apply Ho|].
  destruct (m (others M)) as [M' [a|e]]; cbn; [by eapply Hm | done].
Qed.

Lemma bind_steps {A B} (m : method A) (f : A -> method B) (M : machine) : rtc transaction (database M) (database (m M).1) ->
  (forall M a, rtc transaction (database M) (database (f a M).1)) -> rtc transaction (database M) (database ((m ≫= f) M).1).
Proof.
  intros Hm Hf. unfold mbind, st_bind. destruct (m M) as [M1 [a|e]]; cbn in *; [|done]. etrans; [exact Hm | apply Hf].
Qed.

Lemma frame_steps {A} (m : method A) (M : machine) : frame m -> rtc transaction (database M) (database (m M).1).
Proof. intros ->. done. Qed.

Lemma classify_steps ws (M : machine) : honest -> rtc transaction (database M) (database (_classify_legacy_workspace ws M).1).
Proof.
  intros Ho. apply bind_steps; [apply frame_steps, frame_timestamp|]. intros M1 now. apply unit_steps; [done|].
  intros M2 M3 [] H. by eapply rtc_once, tx_classify.
Qed.

Lemma append_steps c (M : machine) : honest -> command_matrix c = true ->
  rtc transaction (database M) (database (append_ledger_command c M).1).
Proof.
  intros Ho Hm. apply bind_steps; [by apply classify_steps|]. intros M1 _. apply unit_steps; [done|].
  intros M2 M3 receipt H. by eapply rtc_once, tx_append.
Qed.

Lemma authority_steps ws a (M : machine) : honest -> rtc transaction (database M) (database (set_authority ws a M).1).
Proof.
  intros Ho. apply bind_steps; [apply frame_steps, frame_lift|]. intros M1 _.
  apply bind_steps; [apply frame_steps, frame_timestamp|]. intros M2 now.
  apply bind_steps; [by apply classify_steps|]. intros M3 _. apply unit_steps; [done|].
  intros M4 M5 [] H. by eapply rtc_once, tx_authority.
Qed.

Lemma promote_steps ws (verifier : string -> method (option string)) (M : machine) : honest ->
  (forall M : machine, elsewhere (database M) (database (verifier ws M).1)) ->
  rtc transaction (database M) (database (promote_legacy_workspace ws verifier M).1).
Proof.
  intros Ho Hv. apply bind_steps; [by apply classify_steps|]. intros M1 _.
  apply bind_steps; [apply frame_steps, frame_timestamp|]. intros M2 now. apply unit_steps; [done|].
  intros M3 M4 digest H. by eapply rtc_once, tx_promote.
Qed.
End Invariants.
