(* ===== verification/LedgerSample.v ===== *)
(** * A ledger with two candidates, one supporting the other

    Concrete commands, their provenance and the machine they run on, for the witnesses of
    the ledger's theorems: two candidates are created and approved, the second is corrected
    on the support of the first, and the first is revoked. *)
From S2P Require Import Prelude Digest Json Canonical Contracts Timestamps RuntimeContracts LedgerContracts LedgerGraph Ledger LedgerHistory LedgerInvariants.
Open Scope string_scope.

#[local] Existing Instance unicode_sample.
#[local] Existing Instance pad_digest.

#[export] Instance accepting : TrustVerifier := {| verify_signed_bytes := fun _ _ _ _ _ => true |}.

Definition NOW : string := "2024-01-01T00:00:00Z".

(** The clock stands still, all content is there, and nobody else writes. *)
#[export] Instance quiet : Surroundings (W := unit) :=
  {| clock := fun w => (w, NOW); available := fun _ w => (w, Some true); others := fun M => M |}.

Definition fill (c : ascii) : string := String.string_of_list_ascii (repeat c 64).
Definition ws1 : string := "workspace:" +:+ fill "a".
Definition candidate_a : string := "candidate:" +:+ fill "b".
Definition candidate_b : string := "candidate:" +:+ fill "c".
Definition capability : string := "capability:" +:+ fill "d".
Definition always : BitemporalIntervalV2 := {| valid_from := NOW; valid_to := None; recorded_from := NOW; recorded_to := None |}.

Definition support (f t : string) : LedgerEdgeV2 :=
  {| edge_kind := "SUPPORT"; from_candidate_ref := f; to_candidate_ref := t; edge_workspace_ref := ws1; edge_interval := always |}.

(** The command numbered [n]; its provenance is its own reference. *)
Definition command (n : ascii) (k candidate : string) (revision : option string) (related : list string)
    (prior result : string) (content : option string) (supports : list LedgerEdgeV2) : LedgerCommandV2 :=
  {| command_ref := "command:" +:+ fill n; cmd_workspace_ref := ws1; cmd_capability_ref := capability; cmd_authority_epoch := "1";
     cmd_subject_ref := "subject:" +:+ fill "1"; cmd_action := "WRITE"; cmd_scope_digest := fill "2"; kind := k;
     target_candidate_ref := if String.eqb k "CREATE_CANDIDATE" then None else Some candidate;
     expected_active_revision_ref := revision; related_candidate_refs := related; interval := always;
     cmd_payload := {| candidate_ref := candidate; prior_state := prior; resulting_state := result;
                       payload_content_digest := content; support_edges := supports; contradiction_edges := [] |};
     cmd_payload_digest := fill "3"; cmd_provenance_ref := "provenance:" +:+ fill n; cmd_provenance_digest := fill n;
     command_digest := fill n |}.

Definition create_a := command "1" "CREATE_CANDIDATE" candidate_a None [] "ABSENT" "PENDING" (Some (fill "e")) [].
Definition approve_a :=
  command "2" "REVIEW_APPROVE" candidate_a (Some (revision_ref_of create_a)) [] "PENDING" "APPROVED" None [].
Definition create_b := command "3" "CREATE_CANDIDATE" candidate_b None [] "ABSENT" "PENDING" (Some (fill "f")) [].
Definition approve_b :=
  command "4" "REVIEW_APPROVE" candidate_b (Some (revision_ref_of create_b)) [] "PENDING" "APPROVED" None [].
Definition correct_b := command "5" "CORRECT" candidate_b (Some (revision_ref_of approve_b)) [candidate_a] "APPROVED" "APPROVED"
  (Some (fill "0")) [support candidate_a candidate_b].
Definition revoke_a :=
  command "6" "REVOKE" candidate_a (Some (revision_ref_of approve_a)) [] "APPROVED" "REVOKED" None [].

Definition pass : GateStateV2 := {| gate_state := "PASS"; gate_epoch := "1"; gate_digest := fill "4" |}.

(** The provenance of a command that runs at the cut. *)
Definition provenance_at (cut : string) (c : LedgerCommandV2) : AuthorityProvenanceV2 :=
  {| provenance_ref := cmd_provenance_ref c; provenance_digest := cmd_provenance_digest c; signer_ref := "signer:" +:+ fill "5";
     key_id := "key:" +:+ fill "6"; signature := "sig"; component_states := repeat pass 8; transaction_cut := cut;
     issued_at := NOW; expires_at := "2025-01-01T00:00:00Z"; pv_workspace_ref := ws1; pv_capability_ref := capability;
     pv_authority_epoch := "1"; pv_subject_ref := cmd_subject_ref c; pv_action := cmd_action c; query_digest := None;
     pv_scope_digest := Some (cmd_scope_digest c); request_digest := None;
     command_payload_digest := Some (_command_provenance_binding c) |}.

Definition script : list (string * LedgerCommandV2) :=
  [("1", create_a); ("2", approve_a); ("3", create_b); ("4", approve_b); ("5", correct_b); ("6", revoke_a)].

Definition known_provenance : registry :=
  list_to_map (map (fun e => (cmd_provenance_ref e.2, provenance_at e.1 e.2)) script).

Definition machine0 : machine := {| database := empty_db; trust := known_provenance; world := tt |}.

Definition owner : authority_row := {| au_capability := capability; au_epoch := "1"; au_state := "ACTIVE"; au_updated := "" |}.

(** The machine after the registration and the first [n] commands. *)
Definition registered : machine := (set_authority ws1 owner machine0).1.
Definition after (n : nat) : machine :=
  fold_left (fun M e => (append_ledger_command e.2 M).1) (firstn n script) registered.

Example script_runs :
  (append_ledger_command revoke_a (after 5)).2 =
    Ok (receipt_of revoke_a "7" "7" (receipt_digest_of revoke_a "7" "7")) /\
  ca_state <$> ledger_candidate (database (after 6)) !! candidate_b = Some "REVOKED" /\
  map ve_start_cut (ledger_candidate_version (database (after 6))) = ["2"; "3"; "4"; "5"; "6"; "7"; "7"].
Proof. vm_compute. repeat split. Qed.

Lemma quiet_honest : honest.
Proof. by intros M. Qed.

(** The states of the script are reached by transactions. *)
Lemma script_reaches n : rtc transaction empty_db (database (after n)).
Proof.
  unfold after. assert (Hall : Forall (fun e => command_matrix e.2 = true) (firstn n script)).
  { apply list.Forall_take. repeat constructor. }
  assert (Hreg : rtc transaction empty_db (database registered)) by (apply (authority_steps ws1 owner machine0), quiet_honest).
  revert Hreg. generalize registered as M. induction Hall as [|e l Hm _ IH]; intros M HM; [done|].
  cbn [fold_left]. apply IH. etrans; [exact HM|]. apply append_steps; [apply quiet_honest | exact Hm].
Qed.

Lemma script_kept n : kept (database (after n)).
Proof. eapply transactions_kept; [apply script_reaches | apply kept_empty]. Qed.
