(* ===== verification/LedgerTheorems.v ===== *)
(** * What the ledger promises (infrastructure/second_brain_ledger.py)

    The theorems on the states the ledger's transactions reach and on the commands they
    append: the current row of a candidate is its one open version, cuts have no gaps,
    support stays acyclic, a command is committed once, and a revocation reaches exactly
    the approved candidates that the revoked one supports. *)
From S2P Require Import Prelude Digest Json Canonical Contracts Timestamps RuntimeContracts LedgerContracts LedgerGraph Ledger LedgerHistory LedgerInvariants LedgerSample.
Open Scope string_scope.

Section Theorems.
Context {U : Unicode} {D : Digest} {T : TrustVerifier} {W : Type} {S : Surroundings (W := W)}.

Notation machine := (machine (W := W)).
Notation method := (st machine ledger_error).

(** ** Shared lemmas *)

Lemma append_cases c (M M' : machine) receipt : command_matrix c = true -> kept (database M) ->
  append_transaction c M = (M', Ok receipt) -> replayed c M M' receipt \/ appended c M M' receipt.
Proof. intros Hm Hk H. by apply (append_spec c M Hm (kept_well _ Hk)) in H. Qed.

(** After a command its row is there, with the fields of the receipt. *)
Lemma appended_row c (M M' : machine) receipt : command_matrix c = true -> kept (database M) ->
  append_transaction c M = (M', Ok receipt) ->
  exists r, ledger_command (database M') !! command_ref c = Some r /\ co_digest r = command_digest c /\
    receipt = receipt_of c (co_sequence r) (co_epoch r) (co_receipt r) /\ receipt_post_init receipt = Ok receipt.
Proof.
  intros Hm Hk H. assert (Hok : replayed c M M' receipt -> receipt_post_init receipt = Ok receipt).
  { intros (r & Hr & Hd & -> & E). unfold append_transaction, mbind, st_bind, read in H. rewrite Hr in H.
    cbn beta iota in H. unfold require, st_lift in H. rewrite Hd, String.eqb_refl in H. cbn in H.
    by apply receipt_value in H as (_ & E' & Hok). }
  destruct (append_cases c M M' receipt Hm Hk H) as [Hr|(now & v & d1 & d2 & _ & Hc & -> & Hok')].
  - specialize (Hok Hr). destruct Hr as (r & Hr & Hd & -> & ->). by exists r.
  - destruct (committed_final _ _ _ _ _ _ Hc) as (digest & _ & ->). cbn. eexists. rewrite lookup_insert_eq. split; [done|].
    split; [done|]. by split.
Qed.

Lemma replay_run c (M : machine) r : ledger_command (database M) !! command_ref c = Some r ->
  append_transaction c M = if String.eqb (co_digest r) (command_digest c)
    then (M, map_err LedgerContract (receipt_post_init (receipt_of c (co_sequence r) (co_epoch r) (co_receipt r))))
    else (M, Err (LedgerAuthorityError "command reference was reused with a different digest")).
Proof.
  intros Hr. unfold append_transaction, mbind, st_bind, read. rewrite Hr. cbn beta iota. unfold require, st_lift.
  destruct (String.eqb (co_digest r) (command_digest c)); [|done]. done.
Qed.

(** ** The theorems *)

(** Every public operation, refused or not, moves the tables by committed transactions
    alone, when the other connections do too; so the invariants of the states that
    transactions reach hold between all operations. *)
Theorem operations_are_transactions c ws a (verifier : string -> method (option string)) (M : machine) :
  honest -> command_matrix c = true -> (forall M : machine, elsewhere (database M) (database (verifier ws M).1)) ->
  rtc transaction (database M) (database (append_ledger_command c M).1) /\
  rtc transaction (database M) (database (set_authority ws a M).1) /\
  rtc transaction (database M) (database (promote_legacy_workspace ws verifier M).1).
Proof.
  intros Ho Hm Hv. split; [|split]; [by apply append_steps | by apply authority_steps | by apply promote_steps].
Qed.

(** C8: whatever transactions have run, a candidate has exactly one version that no closure
    has ended, and it carries the values of the candidate's current row. *)
Theorem one_open_version d0 d x r : kept d0 -> rtc transaction d0 d -> ledger_candidate d !! x = Some r ->
  exists v, v ∈ ledger_candidate_version d /\ ledger_candidate_version_closure d !! version_key v = None /\
    (exists cut command, v = version_of x r cut command) /\
    forall v', v' ∈ ledger_candidate_version d -> ve_candidate v' = x ->
      ledger_candidate_version_closure d !! version_key v' = None -> v' = v.
Proof.
  intros Hk Htx Hr. apply transactions_kept in Htx as [[Hh _] _ _]; [|done].
  destruct (history_current _ Hh x r Hr) as (_ & cut & command & Hin). exists (version_of x r cut command).
  split; [done|]. split; [by apply (history_open _ Hh _ r)|]. split; [by exists cut, command|].
  intros v' Hv' Hx Hopen. apply (history_key_unique d); [done..|]. rewrite <- Hx in Hr.
  apply (history_open _ Hh v' r Hv' Hr) in Hopen. unfold version_key. by rewrite Hx, Hopen.
Qed.

(** C17: the active support edges never close a cycle. *)
Theorem support_never_cycles d0 d x y : kept d0 -> rtc transaction d0 d ->
  linked (support_graph d) x y -> ~ rtc (linked (support_graph d)) y x.
Proof. intros Hk Htx. apply transactions_kept in Htx as [_ Hac _]; [|done]. apply Hac. Qed.

(** C19: registration takes cut 1 and every later cut of a workspace, up to the current one,
    is the cut of exactly one recorded command. *)
Theorem cuts_without_gaps d0 d ws r : kept d0 -> rtc transaction d0 d -> ledger_sequence d !! ws = Some r ->
  exists n, sq_sequence r = str_of_N n /\ (1 <= n)%N /\ forall k, (2 <= k <= n)%N ->
    exists ref, (exists co, ledger_command d !! ref = Some co /\ co_workspace co = ws /\ co_sequence co = str_of_N k) /\
      forall ref' co, ledger_command d !! ref' = Some co -> co_workspace co = ws -> co_sequence co = str_of_N k -> ref' = ref.
Proof.
  intros Hk Htx Hr. apply transactions_kept in Htx as [_ _ Hn]; [|done].
  destruct (numbered_counter _ Hn ws r Hr) as (n & Hn1 & E & _). exists n. split; [done|]. split; [done|]. intros k Hk'.
  destruct (numbered_gapless _ Hn ws n k) as (ref & co & H1 & H2 & H3); [by exists r | done|].
  exists ref. split; [by exists co|]. intros ref' co' H1' H2' H3'. by eapply (numbered_distinct _ Hn); [exact H1' | exact H1 | congruence..].
Qed.

(** C18: a command is committed once: appending it again, after whatever transactions,
    gives the receipt of the first time and changes nothing, and its reference is refused
    to a command with another digest. *)
Theorem command_commits_once c (M M' M2 : machine) receipt : kept (database M) -> command_matrix c = true ->
  append_transaction c M = (M', Ok receipt) -> rtc transaction (database M') (database M2) ->
  append_transaction c M2 = (M2, Ok receipt) /\
  forall c', command_ref c' = command_ref c -> command_digest c' <> command_digest c ->
    append_transaction c' M2 = (M2, Err (LedgerAuthorityError "command reference was reused with a different digest")).
Proof.
  intros Hk Hm H Htx. destruct (appended_row c M M' receipt Hm Hk H) as (r & Hr & Hd & E & Hok).
  assert (Hk' : kept (database M')) by (eapply transaction_kept; [by eapply tx_append | done]).
  apply (lasting_commands _ _ (transactions_lasting _ _ Hk' Htx)) in Hr. split.
  - rewrite (replay_run c M2 r Hr), Hd, String.eqb_refl, <- E, Hok. done.
  - intros c' Ec Hne. rewrite <- Ec in Hr. rewrite (replay_run c' M2 r Hr), Hd.
    destruct (String.eqb_spec (command_digest c) (command_digest c')); congruence.
Qed.

(** C9: a committed REVOKE or FORGET gives the candidate its final state, revokes every
    approved candidate that the active support edges lead to from it, with a new revision
    of the same content, and leaves every other candidate as it was. *)
Theorem revocation_reaches_supported c (M M' : machine) receipt : kept (database M) -> command_matrix c = true ->
  revokes c = true -> ledger_command (database M) !! command_ref c = None -> append_transaction c M = (M', Ok receipt) ->
  let root := candidate_ref (cmd_payload c) in let supported x := rtc (linked (support_graph (database M))) root x in
  (exists r, ledger_candidate (database M') !! root = Some r /\ ca_state r = resulting_state (cmd_payload c)) /\
  forall x r, x <> root -> ledger_candidate (database M) !! x = Some r -> exists r', ledger_candidate (database M') !! x = Some r' /\
    (supported x -> ca_state r = "APPROVED" -> ca_state r' = "REVOKED" /\ ca_content r' = ca_content r /\ ca_workspace r' = ca_workspace r) /\
    (~ (supported x /\ ca_state r = "APPROVED") -> r' = r).
Proof.
  intros Hk Hm Hrev Hnew H root supported. apply append_cases in H as [(r & Hr & _)|(now & v & d1 & d2 & Ha & Hc & _)]; [congruence | | done..].
  destruct Hc as [(content & _ & Hr) Hcasc _ (digest & _ & ->)]. rewrite Hrev in Hcasc. destruct Hcasc as (seen & Hcasc & Hseen).
  assert (Hg : support_graph d1 = support_graph (database M)).
  { unfold support_graph. rewrite (revised_edges _ _ _ _ _ _ Hr), (matrix_revokes c Hm Hrev), app_nil_r. done. }
  rewrite Hg in Hseen. cbn [database put_outbox put_events put_commands ledger_candidate].
  split.
  - eexists. rewrite (cascading_rows _ _ _ _ _ _ _ _ Hcasc), bool_decide_false by (by intros [_ ?]).
    rewrite (revised_candidate _ _ _ _ _ _ Hr), lookup_insert_eq. done.
  - intros x r Hx Hrow. rewrite (cascading_rows _ _ _ _ _ _ _ _ Hcasc), (revised_candidate _ _ _ _ _ _ Hr), lookup_insert_ne by done. cbn [ledger_candidate put_provenance]. rewrite Hrow.
    destruct (decide (x ∈ seen)) as [Hs|Hs].
    + rewrite bool_decide_true by done. cbn. eexists. split; [done|]. unfold after_cascade, approved. split.
      * by intros _ ->%String.eqb_eq.
      * intros Hn. destruct (String.eqb_spec (ca_state r) "APPROVED"); [|done]. destruct Hn. split; [by apply Hseen | done].
    + rewrite bool_decide_false by (by intros [? _]). eexists. split; [done|]. split; [|done].
      intros Hs'%Hseen. done.
Qed.
End Theorems.

(** ** The theorems on the sample ledger *)

#[local] Existing Instance unicode_sample.
#[local] Existing Instance pad_digest.

(** Unpacks a row of a concrete table. *)
Ltac row_of t := destruct t as [?r|] eqn:?Hr; [|exfalso; match goal with H : _ = None |- _ => vm_compute in H; discriminate H end].

Lemma one_open_version_witness : exists v, v ∈ ledger_candidate_version (database (after 6)) /\ ve_candidate v = candidate_b.
Proof.
  row_of (ledger_candidate (database (after 6)) !! candidate_b).
  destruct (one_open_version empty_db (database (after 6)) candidate_b r kept_empty (script_reaches 6) Hr)
    as (v & Hv & _ & (cut & cmd & ->) & _).
  exists (version_of candidate_b r cut cmd). split; [exact Hv | reflexivity].
Defined.

Lemma support_never_cycles_witness : ~ rtc (linked (support_graph (database (after 6)))) candidate_b candidate_a.
Proof.
  apply (support_never_cycles empty_db (database (after 6)) candidate_a candidate_b kept_empty (script_reaches 6)).
  unfold linked. apply list_elem_of_In. vm_compute. left. reflexivity.
Defined.

Lemma cuts_without_gaps_witness : exists ref co, ledger_command (database (after 6)) !! ref = Some co /\ co_sequence co = "5".
Proof.
  row_of (ledger_sequence (database (after 6)) !! ws1).
  destruct (cuts_without_gaps empty_db (database (after 6)) ws1 r kept_empty (script_reaches 6) Hr) as (n & E & _ & Hn).
  assert (En : n = 7%N) by (apply str_of_N_inj; rewrite <- E; vm_compute in Hr; injection Hr as <-; reflexivity).
  destruct (Hn 5%N) as (ref & (co & H1 & _ & H2) & _); [rewrite En; split; vm_compute; discriminate|].
  exists ref, co. split; [exact H1 | exact H2].
Defined.

Lemma command_commits_once_witness : exists M' receipt,
  append_transaction create_a registered = (M', Ok receipt) /\ append_transaction create_a M' = (M', Ok receipt).
Proof.
  assert (Hok : is_ok (append_transaction create_a registered).2 = true) by (vm_compute; reflexivity).
  destruct (append_transaction create_a registered) as [M' [receipt|e]] eqn:E; [|discriminate Hok].
  exists M', receipt. split; [reflexivity|].
  exact (proj1 (command_commits_once create_a registered M' M' receipt (script_kept 0) eq_refl E (rtc_refl _ _))).
Defined.

Lemma operations_are_transactions_witness :
  rtc transaction (database (after 5)) (database (append_ledger_command revoke_a (after 5)).1).
Proof.
  refine (proj1 (operations_are_transactions revoke_a ws1 owner (fun _ => mret None) (after 5) quiet_honest eq_refl _)).
  intros M. reflexivity.
Defined.

Lemma revocation_reaches_supported_witness : exists M' r, (append_transaction revoke_a (after 5)).1 = M' /\
  ledger_candidate (database M') !! candidate_b = Some r /\ ca_state r = "REVOKED".
Proof.
  assert (Hok : is_ok (append_transaction revoke_a (after 5)).2 = true) by (vm_compute; reflexivity).
  destruct (append_transaction revoke_a (after 5)) as [M' [receipt|e]] eqn:E; [|discriminate Hok].
  exists M'. row_of (ledger_candidate (database (after 5)) !! candidate_b).
  destruct (revocation_reaches_supported revoke_a (after 5) M' receipt (script_kept 5) eq_refl eq_refl) as [_ H];
    [vm_compute; reflexivity | exact E|].
  destruct (H candidate_b r) as (r' & Hr' & Hyes & _); [vm_compute; discriminate | exact Hr|].
  exists r'. split; [reflexivity|]. split; [exact Hr'|].
  apply Hyes; [|vm_compute in Hr; injection Hr as <-; reflexivity]. apply rtc_once. unfold linked. apply list_elem_of_In. vm_compute. left. reflexivity.
Defined.
