(* ===== verification/LedgerTimeline.v ===== *)
(** * The order of a candidate's versions (infrastructure/second_brain_ledger.py)

    A version starts at the cut of the transaction that wrote it and ends at the cut of the
    one that replaced it.  Every transaction keeps the versions of a candidate apart: of any
    two, one has ended when the other starts, so a cut shows one of them at most.  The
    active support edges stay distinct. *)
From S2P Require Import Prelude Digest Json Canonical Contracts Timestamps RuntimeContracts LedgerContracts LedgerGraph Ledger LedgerHistory LedgerInvariants.
Open Scope string_scope.

Section Timeline.
Context {U : Unicode} {D : Digest} {T : TrustVerifier} {W : Type} {S : Surroundings (W := W)}.

Notation machine := (machine (W := W)).
Notation method := (st machine ledger_error).

(** The cut of the last transaction of a workspace, 0 before the first. *)
Definition current_cut (d : ledger_db) (ws : string) : N :=
  default 0%N (r ← ledger_sequence d !! ws; int_of_str (sq_sequence r)).

Lemma counter_current d ws n : counter d ws n -> current_cut d ws = n.
Proof. intros (r & Hr & E). unfold current_cut. rewrite Hr. cbn. by rewrite E, int_of_str_of_N. Qed.

(** The version has ended at cut [m]. *)
Definition ended (d : ledger_db) (v : version_row) (m : N) : Prop :=
  exists k t, ledger_candidate_version_closure d !! version_key v = Some (str_of_N k, t) /\ (k <= m)%N.

Definition starts (v : version_row) (k : N) : Prop := ve_start_cut v = str_of_N k.

Record timeline (b : string -> N) (d : ledger_db) : Prop := {
  timeline_start : forall v, v ∈ ledger_candidate_version d -> exists k, starts v k /\ (k <= b (ve_workspace v))%N;
  timeline_end : forall v c t, v ∈ ledger_candidate_version d -> ledger_candidate_version_closure d !! version_key v = Some (c, t) ->
    exists k, c = str_of_N k /\ (k <= b (ve_workspace v))%N;
  timeline_apart : forall v w, v ∈ ledger_candidate_version d -> w ∈ ledger_candidate_version d ->
    ve_candidate v = ve_candidate w -> v <> w ->
    (exists m, starts w m /\ ended d v m) \/ (exists m, starts v m /\ ended d w m);
}.

Lemma timeline_mono b b' d : (forall ws, (b ws <= b' ws)%N) -> timeline b d -> timeline b' d.
Proof.
  intros Hb [H1 H2 H3]. split; [| |done].
  - intros v Hv. destruct (H1 v Hv) as (k & E & Hk). exists k. split; [done|]. specialize (Hb (ve_workspace v)). lia.
  - intros v c t Hv Hc. destruct (H2 v c t Hv Hc) as (k & E & Hk). exists k. split; [done|]. specialize (Hb (ve_workspace v)). lia.
Qed.

Lemma timeline_ext b d d' : ledger_candidate_version d' = ledger_candidate_version d ->
  ledger_candidate_version_closure d' = ledger_candidate_version_closure d -> timeline b d -> timeline b d'.
Proof. intros E1 E2 [H1 H2 H3]. split; unfold ended; rewrite ?E1, ?E2; done. Qed.

Section Step.
Context (b : string -> N) (ws : string) (d d' : ledger_db) (x command now : string) (row : candidate_row).
Hypothesis Hws : ca_workspace row = ws.
Hypothesis Hrow : ca_recorded_to row = None.
Hypothesis Hhome : forall r, ledger_candidate d !! x = Some r -> ca_workspace r = ws.
Hypothesis Hsup : superseded x row (str_of_N (b ws)) command now d d'.
Hypothesis Hh : history d.
Hypothesis Ht : timeline b d.

Let new : version_row := version_of x row (str_of_N (b ws)) command.

Lemma step_versions v : v ∈ ledger_candidate_version d' <-> v ∈ ledger_candidate_version d \/ v = new.
Proof. rewrite (superseded_versions _ _ _ _ _ _ _ Hsup), elem_of_app, list_elem_of_singleton. done. Qed.

Lemma step_new_open : ledger_candidate_version_closure d' !! version_key new = None.
Proof.
  assert (Hh' : history d') by (eapply superseded_history; [done | | done | done]; intros r Hr; rewrite Hws; by apply Hhome).
  assert (Hc : ledger_candidate d' !! x = Some row) by by rewrite (superseded_candidate _ _ _ _ _ _ _ Hsup), lookup_insert_eq.
  apply (history_open _ Hh' new row); [apply step_versions; by right | done | done].
Qed.

(** An old version keeps its end, or is the current one and ends now. *)
Lemma step_old v : v ∈ ledger_candidate_version d ->
  ledger_candidate_version_closure d' !! version_key v = ledger_candidate_version_closure d !! version_key v \/
  (ledger_candidate_version_closure d' !! version_key v = Some (str_of_N (b ws), now) /\
   ledger_candidate_version_closure d !! version_key v = None /\ ve_workspace v = ws).
Proof.
  intros Hv. rewrite (superseded_closures _ _ _ _ _ _ _ Hsup). destruct (ledger_candidate d !! x) as [r|] eqn:E; [|by left].
  destruct (decide ((x, ca_revision r) = version_key v)) as [Hk|]; [|left; by rewrite lookup_insert_ne].
  right. rewrite <- Hk, lookup_insert_eq. split; [done|]. split; [by apply (superseded_unclosed _ _ _ _ _ _ _ Hsup)|].
  injection Hk as Hx Hr. rewrite (history_home _ Hh v r Hv); [by apply Hhome | by rewrite <- Hx].
Qed.

Lemma step_ended v m : v ∈ ledger_candidate_version d -> ended d v m -> ended d' v m.
Proof.
  intros Hv (k & t & Hc & Hk). exists k, t. split; [|done]. destruct (step_old v Hv) as [->|(_ & Hn & _)]; [done | congruence].
Qed.

(** Every old version of the candidate has ended at the cut. *)
Lemma step_all_ended v : v ∈ ledger_candidate_version d -> ve_candidate v = x -> ended d' v (b ws).
Proof.
  intros Hv Hx. destruct (history_owner _ Hh v Hv) as [r Hr]. rewrite Hx in Hr.
  destruct (ledger_candidate_version_closure d !! version_key v) as [[c t]|] eqn:E.
  - destruct (timeline_end _ _ Ht v c t Hv E) as (k & -> & Hk). apply step_ended; [done|]. exists k, t. split; [done|].
    rewrite (history_home _ Hh v r Hv) in Hk by (by rewrite Hx). by rewrite (Hhome r Hr) in Hk.
  - exists (b ws), now. split; [|lia]. apply (history_open _ Hh v r Hv) in E; [|by rewrite Hx].
    rewrite (superseded_closures _ _ _ _ _ _ _ Hsup), Hr. unfold version_key. by rewrite Hx, E, lookup_insert_eq.
Qed.

Lemma step_timeline : timeline b d'.
Proof.
  split.
  - intros v [Hv| ->]%step_versions; [by apply Ht|]. exists (b ws). split; [done|]. cbn. rewrite Hws. lia.
  - intros v c t [Hv| ->]%step_versions; [|by rewrite step_new_open].
    destruct (step_old v Hv) as [->|(-> & _ & Hw)]; [by apply Ht|]. intros [= <- _]. exists (b ws). rewrite Hw. split; [done | lia].
  - intros v w [Hv| ->]%step_versions [Hw| ->]%step_versions Hx Hne; [| | |done].
    + destruct (timeline_apart _ _ Ht v w Hv Hw Hx Hne) as [(m & Hs & He)|(m & Hs & He)]; [left|right]; exists m;
        (split; [done | by apply step_ended]).
    + left. exists (b ws). split; [done|]. by apply step_all_ended.
    + right. exists (b ws). split; [done|]. by apply step_all_ended.
Qed.

Lemma step_history : history d'.
Proof. eapply superseded_history; [done | | done | done]. intros r Hr. rewrite Hws. by apply Hhome. Qed.
End Step.

Lemma steps_timeline b ws d d' : rtc (revision_step ws (str_of_N (b ws))) d d' -> history d -> timeline b d -> timeline b d'.
Proof.
  intros H. induction H as [|d1 d2 d3 (x & row & command & now & Hw & Hr & Hhome & Hsup) _ IH]; [done|].
  intros Hh Ht. apply IH; [by eapply step_history | by eapply step_timeline].
Qed.

(** ** Distinct edges *)

Definition edges_distinct (d : ledger_db) : Prop := NoDup (support_graph d).

Lemma unduplicated d c e ws : edges_home d -> homed c d -> e ∈ all_edges c -> validate_edge d c e = Ok tt ->
  edge_kind e = "SUPPORT" -> ws = cmd_workspace_ref c -> (from_candidate_ref e, to_candidate_ref e) ∉ support_graph d.
Proof.
  intros He Hc Hin Hv Hk -> Hg. unfold validate_edge in Hv. inv_result Hv.
  match goal with H : ensure (negb (duplicates d e)) _ = Ok _ |- _ => apply ensure_ok, negb_true_iff, not_true_iff_false in H; apply H end.
  unfold support_graph in Hg. apply list_elem_of_fmap in Hg as (r & Eg & Hr). injection Eg as Ef Et.
  apply list_elem_of_In, filter_In in Hr as [Hr Hact]. unfold duplicates. apply existsb_exists. exists r. split; [done|].
  rewrite Hk, Hact, Ef, Et, !String.eqb_refl. apply list_elem_of_In in Hr.
  destruct (He r Hr) as [(r1 & H1 & Ew) _]. destruct (homed_ends _ _ Hc e Hin) as [Hend _]. unfold known_end in Hend.
  rewrite <- Ef in H1. rewrite H1, Ew in Hend. rewrite (homed_edges _ _ Hc e Hin).
  assert (Hw : ed_workspace r = cmd_workspace_ref c).
  { apply orb_true_iff in Hend as [Hx|Hx]; apply String.eqb_eq in Hx; [|done]. rewrite Hx in H1.
    rewrite <- Ew. by apply (homed_current _ _ Hc). }
  by rewrite Hw, String.eqb_refl.
Qed.

(** ** What every transaction keeps in order *)

Record orderly (d : ledger_db) : Prop := {
  orderly_kept : kept d;
  orderly_timeline : timeline (current_cut d) d;
  orderly_edges : edges_distinct d;
  orderly_ends : forall e, e ∈ ledger_edge d -> ed_from e <> ed_to e /\ ed_end_cut e = None;
}.

Lemma orderly_ext d d' : kept d' -> ledger_candidate_version d' = ledger_candidate_version d ->
  ledger_candidate_version_closure d' = ledger_candidate_version_closure d -> ledger_edge d' = ledger_edge d ->
  (forall ws, (current_cut d ws <= current_cut d' ws)%N) -> orderly d -> orderly d'.
Proof.
  intros Hk Ev Ec Ee Hcut [_ Ht He Hs]. split; [done | | |by rewrite Ee].
  - eapply timeline_mono; [exact Hcut|]. by eapply timeline_ext.
  - unfold edges_distinct, support_graph. rewrite Ee. exact He.
Qed.

(** The next cut of a workspace follows its current one. *)
Lemma next_current d ws : numbered d -> is_Some (ledger_sequence d !! ws) -> next_cut d ws = str_of_N (current_cut d ws + 1).
Proof.
  intros Hn [r Hr]. destruct (numbered_next d ws r Hn Hr) as (n & _ & Hc & -> & _). by rewrite (counter_current _ _ _ Hc).
Qed.

Lemma committed_current c now d d1 d2 d' current : numbered d -> admitted c d current -> committed c now d d1 d2 d' ->
  (forall ws, (current_cut d ws <= current_cut d' ws)%N) /\
  next_cut d (cmd_workspace_ref c) = str_of_N (current_cut d' (cmd_workspace_ref c)) /\
  current_cut d' (cmd_workspace_ref c) = (current_cut d (cmd_workspace_ref c) + 1)%N.
Proof.
  intros Hn Ha [(content & _ & Hr) Hcasc _ (digest & _ & ->)]. pose proof (next_current d _ Hn (admitted_sequence _ _ _ Ha)) as Hnext.
  assert (E : ledger_sequence d2 = ledger_sequence d1)
    by (destruct (revokes c); [by destruct Hcasc as (seen & [_ [] _ _ _ _] & _) | by subst d2]).
  unfold current_cut. cbn [ledger_sequence put_outbox put_events put_commands]. rewrite E, (revised_sequence _ _ _ _ _ _ Hr), Hnext.
  fold (current_cut d (cmd_workspace_ref c)). rewrite lookup_insert_eq. cbn [mbind option_bind sq_sequence].
  rewrite int_of_str_of_N. split; [|split; [|]]; [|done|done]. intros ws.
  destruct (decide (cmd_workspace_ref c = ws)) as [<-|]; [|by rewrite lookup_insert_ne].
  rewrite lookup_insert_eq. cbn. rewrite int_of_str_of_N. unfold current_cut. cbn. lia.
Qed.

Lemma revised_step c now content d d1 : homed c d ->
  revised c now content (ledger_candidate d !! candidate_ref (cmd_payload c)) d d1 ->
  revision_step (cmd_workspace_ref c) (next_cut d (cmd_workspace_ref c)) d d1.
Proof.
  intros Hh Hr. exists (candidate_ref (cmd_payload c)), (new_row c content now), (command_ref c), now.
  split; [done|]. split; [done|]. split; [apply Hh | by apply revised_superseded].
Qed.

(** The revisions of a committed command are steps at its cut. *)
Lemma committed_steps c now d d1 d2 d' : homed c d -> committed c now d d1 d2 d' ->
  rtc (revision_step (cmd_workspace_ref c) (next_cut d (cmd_workspace_ref c))) d d2.
Proof.
  intros Hh [(content & _ & Hr) Hcasc _ _]. eapply rtc_l; [by eapply revised_step|].
  destruct (revokes c); [destruct Hcasc as (seen & Hcasc & _); apply Hcasc | by subst d2].
Qed.

Lemma committed_edges c now d d1 d2 d' : committed c now d d1 d2 d' ->
  ledger_edge d' = (ledger_edge d ++ map (edge_row_of c (next_cut d (cmd_workspace_ref c)) now) (all_edges c))%list.
Proof.
  intros [(content & _ & Hr) Hcasc _ (digest & _ & ->)]. cbn. rewrite <- (revised_edges _ _ _ _ _ _ Hr).
  destruct (revokes c); [by destruct Hcasc as (seen & [_ [] _ _ _ _] & _) | by subst d2].
Qed.

Lemma committed_orderly c now d d1 d2 d' current : command_matrix c = true -> admitted c d current ->
  committed c now d d1 d2 d' -> orderly d -> orderly d'.
Proof.
  intros Hm Ha Hc [Hk Ht He Hself]. pose proof (matrix_homed _ _ _ Hm Ha) as Hh.
  destruct (committed_current _ _ _ _ _ _ _ (kept_numbered _ Hk) Ha Hc) as (Hmono & Hnext & _).
  split; [by eapply committed_kept | | |].
  - pose proof (committed_steps _ _ _ _ _ _ Hh Hc) as Hs. rewrite Hnext in Hs.
    apply steps_timeline in Hs; [|apply Hk | by eapply timeline_mono].
    destruct (committed_final _ _ _ _ _ _ Hc) as (digest & _ & ->). by eapply timeline_ext; [..|exact Hs].
  - unfold edges_distinct, support_graph. rewrite (committed_edges _ _ _ _ _ _ Hc), List.filter_app, map_app. apply list.NoDup_app.
    pose proof (matrix_edges c Hm) as Hlen. pose proof (admitted_edges _ _ _ Ha) as Hv.
    split; [exact He|]. destruct (all_edges c) as [|e [|]] eqn:El; [| |cbn in Hlen; lia].
    + split; [by intros x _ ?%elem_of_nil | constructor].
    + cbn [map List.filter]. destruct (active "SUPPORT" _) eqn:Eact; [|split; [by intros x _ ?%elem_of_nil | constructor]].
      split; [|apply NoDup_singleton]. intros x Hx ->%list_elem_of_singleton. revert Hx.
      assert (Hin : e ∈ all_edges c) by (rewrite El; by apply list_elem_of_singleton).
      apply (unduplicated d c e (cmd_workspace_ref c)); [apply Hk | done | done | by apply Hv, list_elem_of_singleton | by eapply active_new | done].
  - intros e. rewrite (committed_edges _ _ _ _ _ _ Hc), elem_of_app. intros [H|(e' & -> & H)%list_elem_of_fmap]; [by apply Hself|].
    split; [|done]. apply (admitted_edges _ _ _ Ha) in H. unfold validate_edge in H. inv_result H.
    match goal with H : ensure (negb (String.eqb _ _)) _ = Ok _ |- _ => by apply ensure_ok, negb_true_iff, String.eqb_neq in H end.
Qed.

Lemma transaction_orderly d d' : transaction d d' -> orderly d -> orderly d'.
Proof.
  intros Htx Ho. assert (Hk' : kept d') by (eapply transaction_kept; [exact Htx | apply Ho]).
  destruct Htx as [ws now M M' H | ws a now M M' H | ws v now M M' digest Hv H | c M M' receipt Hm H | d d' []].
  - apply classify_spec in H as [E|(m & E & _)]; apply (orderly_ext (database M)); try done; by rewrite E.
  - apply register_spec in H as (a' & m & _ & Hcut & _ & E). rewrite E in Hk' |- *.
    apply (orderly_ext (database M)); try done. intros ws'. unfold current_cut. cbn.
    destruct (decide (ws = ws')) as [<-|]; [|by rewrite lookup_insert_ne]. rewrite lookup_insert_eq, Hcut. cbn.
    unfold next_cut in Hcut. destruct (ledger_sequence (database M) !! ws) as [r|] eqn:Er; cbn; [|lia].
    destruct (numbered_counter _ (kept_numbered _ (orderly_kept _ Ho)) ws r Er) as (n & Hn & Es & _).
    rewrite Es, decimal_succ_of in Hcut. change "1" with (str_of_N 1) in Hcut. apply str_of_N_inj in Hcut. lia.
  - apply promote_spec in H as (d & m & [] & _ & _ & E); [|exact Hv]. rewrite E in Hk' |- *.
    apply (orderly_ext (database M)); try done. intros ws'. unfold current_cut. cbn. by replace (ledger_sequence d) with (ledger_sequence (database M)).
  - apply append_spec in H as [(r & _ & _ & -> & _)|(now & v & d1 & d2 & Ha & Hc & _)]; [done | | exact Hm | apply Ho].
    eapply committed_orderly; [done | exact Ha | exact Hc |]. apply (orderly_ext (database M)); try done.
    apply (kept_ext (database M)); try done. apply Ho.
  - apply (orderly_ext d); try done. intros ws'. unfold current_cut. by replace (ledger_sequence d') with (ledger_sequence d).
Qed.

Lemma transactions_orderly d d' : rtc transaction d d' -> orderly d -> orderly d'.
Proof. induction 1; [done|]. eauto using transaction_orderly. Qed.

Lemma orderly_empty : orderly empty_db.
Proof.
  split; [apply kept_empty | | constructor | by intros e ?%elem_of_nil]. split.
  - by intros v ?%elem_of_nil.
  - by intros v c t ?%elem_of_nil.
  - by intros v w ?%elem_of_nil.
Qed.
End Timeline.
