(* ===== verification/LedgerRecall.v ===== *)
(** * The recall path of the ledger (infrastructure/second_brain_ledger.py)

    [LifecycleLedgerAuthority.acquire_recall_snapshot]: the provenance of the request, the
    transaction that selects what is visible at the requested cut and instants, the page of
    whole components and its durable cursor, and the outcome that is put in the served
    snapshot.  The sealing of the snapshot and its contract checks are not modelled. *)
From S2P Require Import Generation.
From S2P Require Import Prelude Digest Json Canonical Text Contracts Timestamps RuntimeContracts Decimals LedgerContracts LedgerGraph Ledger.
Open Scope string_scope.

Definition _CONTINUATION_TTL_SECONDS : Z := 300.
Definition _MAX_RECALL_FETCH_ROWS : N := 4096.
Definition _MAX_RECALL_CLOCK_SKEW_SECONDS : Z := 30.

(** ** RecallContinuationV2 and RecallSnapshotRequestV2 *)

(** The ten fields that a continuation repeats of its request. *)
Record binding : Type := {
  rb_workspace : string; rb_capability : string; rb_epoch : string; rb_subject : string; rb_action : string; rb_query : string;
  rb_scope : string; rb_valid_at : string; rb_recorded_at : string; rb_cut : string }.

(** The generation, checkpoint and freshness values. *)
Record authority_values : Type := {
  generation_ref : string; generation_digest : string; checkpoint_ref : string; checkpoint_digest : string;
  freshness_digest : string; authority_checkpoint_digest : string }.

Record RecallContinuationV2 : Type := {
  continuation_ref : string; ct_binding : binding; ct_provenance_ref : string; ct_provenance_digest : string;
  ct_signer_ref : string; ct_key_id : string; ct_signature : string; ct_authority : authority_values;
  authority_commitment_digest : string; base_snapshot_digest : string; cursor_handle_ref : string;
  cursor_state_digest : string; ct_issued_at : string; ct_expires_at : string; continuation_digest : string }.

Record RecallSnapshotRequestV2 : Type := {
  rq_binding : binding; rq_provenance_ref : string; rq_provenance_digest : string;
  continuation : option RecallContinuationV2; request_digest_of : string }.

Definition binding_members (b : binding) : list (string * json) :=
  [("workspace_ref", JStr (rb_workspace b)); ("capability_ref", JStr (rb_capability b)); ("authority_epoch", JStr (rb_epoch b));
   ("subject_ref", JStr (rb_subject b)); ("action", JStr (rb_action b)); ("query_digest", JStr (rb_query b));
   ("scope_digest", JStr (rb_scope b)); ("valid_at", JStr (rb_valid_at b)); ("recorded_at", JStr (rb_recorded_at b));
   ("transaction_cut", JStr (rb_cut b))].

Definition authority_members (a : authority_values) : list (string * json) :=
  [("generation_ref", JStr (generation_ref a)); ("generation_digest", JStr (generation_digest a));
   ("checkpoint_ref", JStr (checkpoint_ref a)); ("checkpoint_digest", JStr (checkpoint_digest a));
   ("freshness_digest", JStr (freshness_digest a)); ("authority_checkpoint_digest", JStr (authority_checkpoint_digest a))].

Definition continuation_to_mapping (c : RecallContinuationV2) : list (string * json) :=
  ([("continuation_version", JStr "second-brain-recall-continuation-v2"); ("continuation_ref", JStr (continuation_ref c))] ++
   binding_members (ct_binding c) ++
   [("authority_provenance_ref", JStr (ct_provenance_ref c)); ("authority_provenance_digest", JStr (ct_provenance_digest c));
    ("signer_ref", JStr (ct_signer_ref c)); ("signer_algorithm", JStr "Ed25519"); ("key_id", JStr (ct_key_id c));
    ("signature", JStr (ct_signature c))] ++
   authority_members (ct_authority c) ++
   [("authority_commitment_digest", JStr (authority_commitment_digest c)); ("base_snapshot_digest", JStr (base_snapshot_digest c));
    ("cursor_handle_ref", JStr (cursor_handle_ref c)); ("cursor_state_digest", JStr (cursor_state_digest c));
    ("issued_at", JStr (ct_issued_at c)); ("expires_at", JStr (ct_expires_at c));
    ("continuation_digest", JStr (continuation_digest c))])%list.

(** The members of the request that its provenance binds. *)
Definition request_binding (q : RecallSnapshotRequestV2) : list (string * json) :=
  ([("request_version", JStr "second-brain-recall-snapshot-request-v2")] ++ binding_members (rq_binding q) ++
   [("continuation", if continuation q is Some c then JObj (continuation_to_mapping c) else JNull)])%list.

(** ** What is visible *)

(** [column] at the requested cut. *)
Definition at_cut (cut column : string) : bool := decimal_leb column cut.

(** [from<=? AND (to IS NULL OR to>?)], on the texts. *)
Definition in_window (at_ start : string) (end_ : option string) : bool :=
  str_leb start at_ && (if end_ is Some e then str_ltb at_ e else true).

Definition closed_by {K} `{Countable K} (cut : string) (closures : gmap K (string * string)) (k : K) : bool :=
  if closures !! k is Some (end_cut, _) then at_cut cut end_cut else false.

(** The citation that the join finds. *)
Definition citation_row_of (d : ledger_db) (v : version_row) : option citation_row :=
  c ← ledger_citation_commitment d !! (ve_candidate v, ve_revision v);
  if String.eqb (ci_workspace c) (ve_workspace v) && String.eqb (ci_state c) "COMMITTED" &&
     String.eqb (ci_content c) (ve_content v) then Some c else None.

(** A visible edge says that its source was superseded. *)
Definition superseded_at (d : ledger_db) (cut ref : string) : bool :=
  existsb (fun e => String.eqb (ed_from e) ref && String.eqb (ed_kind e) "SUPPORT" && String.eqb (ed_state e) "SUPERSEDED" &&
                    at_cut cut (ed_start_cut e)) (ledger_edge d).

Section Visible.
Context (d : ledger_db) (q : binding).

Definition visible_version (v : version_row) : bool :=
  (if citation_row_of d v then true else false) &&
  String.eqb (ve_workspace v) (rb_workspace q) && String.eqb (ve_state v) "APPROVED" &&
  at_cut (rb_cut q) (ve_start_cut v) &&
  negb (closed_by (rb_cut q) (ledger_candidate_version_closure d) (ve_candidate v, ve_revision v)) &&
  negb (superseded_at d (rb_cut q) (ve_candidate v)) &&
  in_window (rb_valid_at q) (ve_valid_from v) (ve_valid_to v) &&
  in_window (rb_recorded_at q) (ve_recorded_from v) (ve_recorded_to v).

(** [visible_candidates] *)
Definition visible_candidates : list string := map ve_candidate (List.filter visible_version (ledger_candidate_version d)).

(** [ORDER BY v.candidate_ref] *)
Definition candidate_rows : list version_row :=
  sort_on ve_candidate
    (List.filter (fun v => visible_version v && str_mem (ve_candidate v) visible_candidates) (ledger_candidate_version d)).

Definition visible_edge (kind : string) (e : edge_row) : bool :=
  String.eqb (ed_workspace e) (rb_workspace q) && String.eqb (ed_kind e) kind && String.eqb (ed_state e) "ACTIVE" &&
  at_cut (rb_cut q) (ed_start_cut e) && negb (closed_by (rb_cut q) (ledger_edge_closure d) (ed_ref e)) &&
  in_window (rb_valid_at q) (ed_valid_from e) (ed_valid_to e) &&
  in_window (rb_recorded_at q) (ed_recorded_from e) (ed_recorded_to e) &&
  str_mem (ed_from e) visible_candidates && str_mem (ed_to e) visible_candidates.

Definition support_rows : list edge := map ends (List.filter (visible_edge "SUPPORT") (ledger_edge d)).

(** [ORDER BY from_candidate_ref,to_candidate_ref] *)
Definition conflict_rows : list edge := py_sort pair_leb (map ends (List.filter (visible_edge "CONTRADICTION") (ledger_edge d))).
End Visible.

(** The texts are compared, not the instants: a bound with a fraction comes before the whole
    second it follows. *)
Example window_before_recording :
  in_window "2024-01-01T00:00:00Z" "2024-01-01T00:00:00.5Z" None = true /\
  parse_instant "2024-01-01T00:00:00.5Z" = (t ← parse_instant "2024-01-01T00:00:00Z"; Some (t + 500000)%Z).
Proof. split; vm_compute; reflexivity. Qed.

(** ** The operation *)

Section Reader.
Context {U : Unicode} {D : Digest} {T : TrustVerifier} {W : Type} {S : Surroundings (W := W)}.
Context (page_size : nat) (reader_signer reader_key : string).

Notation machine := (machine (W := W)).
Notation method := (st machine ledger_error).

(** [_instant_value], of the canonical instants it is given *)
Definition _instant_value (value : string) : method Z := p ← contract (check_instant value); mret p.2.

Definition _assert_recorded_at_within_skew (recorded_at now : string) : method unit :=
  recorded ← _instant_value recorded_at;
  trusted ← _instant_value now;
  bound ← st_lift (of_option OverflowError (add_delta trusted (_MAX_RECALL_CLOCK_SKEW_SECONDS * SECOND)));
  require (recorded <=? bound)%Z "recall recorded_at exceeds the trusted clock skew bound".

(** The provenance authorizes exactly this request. *)
Definition authorizes_request (p : AuthorityProvenanceV2) (q : RecallSnapshotRequestV2) : bool :=
  (length (component_states p) =? 8)%nat &&
  String.eqb (pv_workspace_ref p) (rb_workspace (rq_binding q)) && String.eqb (pv_capability_ref p) (rb_capability (rq_binding q)) &&
  String.eqb (pv_authority_epoch p) (rb_epoch (rq_binding q)) && String.eqb (pv_subject_ref p) (rb_subject (rq_binding q)) &&
  String.eqb (pv_action p) (rb_action (rq_binding q)) && bool_decide (pv_scope_digest p = Some (rb_scope (rq_binding q))) &&
  bool_decide (request_digest p = Some (canonical_ledger_digest "request-provenance-binding-v2" (request_binding q))) &&
  str_mem (gate_state (hd {| gate_state := ""; gate_epoch := ""; gate_digest := "" |} (component_states p))) ["PASS"; "DENY"; "ABSTAIN"].

(** [component_states[0].state] *)
Definition authorization_state (p : AuthorityProvenanceV2) : string :=
  if head (component_states p) is Some g then gate_state g else "".

Definition _verified_recall_provenance (q : RecallSnapshotRequestV2) : method AuthorityProvenanceV2 :=
  now ← _trusted_timestamp;
  _ ← _assert_recorded_at_within_skew (rb_recorded_at (rq_binding q)) now;
  known ← st_gets trust;
  p ← st_lift (reraise (LedgerAuthorityError "recall authority provenance is unavailable or expired")
        (current_provenance known (rq_provenance_ref q) (rq_provenance_digest q) now));
  _ ← require (provenance_signed p) "recall authority provenance signature is invalid";
  _ ← require (authorizes_request p q) "recall authority provenance does not exactly authorize request";
  _ ← require (negb (String.eqb (authorization_state p) "PASS" &&
                     existsb (fun g => negb (String.eqb (gate_state g) "PASS")) (component_states p)))
        "recall authority provenance does not pass every gate";
  mret p.

(** The text after the first NUL. *)
Fixpoint after_nul (s : string) : option string :=
  match s with
  | EmptyString => None
  | String c s => if Ascii.eqb c "000" then Some s else after_nul s
  end.

(** The provenance that [payload_hex] holds, read back and checked at [now]. *)
Definition reload_payload (payload now : string) : result contract_error AuthorityProvenanceV2 :=
  encoded ← of_option LcInvalidValue (Generation.fromhex payload);
  text ← of_option LcInvalidValue (after_nul encoded);
  j ← of_option LcInvalidValue (json_parse text);
  p ← provenance_from_mapping (of_json j);
  _ ← provenance_validate_at p now;
  Ok p.

Definition _reload_verified_provenance (p : AuthorityProvenanceV2) (now : string) : method AuthorityProvenanceV2 :=
  row ← read (fun d => ledger_provenance d !! provenance_ref p);
  payload ← st_lift (of_option (LedgerAuthorityError "durable authority provenance is unavailable")
    (r ← row;
     if String.eqb (pr_digest r) (provenance_digest p) && String.eqb (pr_state r) "VERIFIED"
     then h ← pr_payload_hex r; if str_nonempty h then Some h else None else None));
  persisted ← st_lift (reraise (LedgerAuthorityError "durable authority provenance is malformed") (reload_payload payload now));
  _ ← require (bool_decide (persisted = p) && provenance_signed persisted) "durable authority provenance failed revalidation";
  mret persisted.

Definition _cursor_state_digest (ws cut after_candidate_ref : string) : string :=
  canonical_ledger_digest "cursor-state-v2"
    [("workspace_ref", JStr ws); ("transaction_cut", JStr cut); ("after_candidate_ref", JStr after_candidate_ref)].

Definition _continuation_window (issued_raw : string) : method (string * string) :=
  issued ← _instant_value issued_raw;
  expires ← st_lift (of_option OverflowError (add_delta issued (_CONTINUATION_TTL_SECONDS * SECOND)));
  mret (instant_text issued, instant_text expires).

(** The durable position that the continuation of the request points at. *)
Definition _resume_after (q : RecallSnapshotRequestV2) (cut : string) : method string :=
  match continuation q with
  | None => mret ""
  | Some c =>
      row ← read (fun d => ledger_recall_cursor d !! cursor_handle_ref c);
      r ← st_lift (of_option (LedgerAuthorityError "continuation cursor is not durably resolvable")
        (r ← row;
         if String.eqb (cu_workspace r) (rb_workspace (rq_binding q)) && String.eqb (cu_sequence r) (rb_cut (ct_binding c)) &&
            String.eqb (cu_state_digest r) (cursor_state_digest c) then Some r else None));
      expires ← _instant_value (cu_expires r);
      now ← _trusted_timestamp;
      trusted ← _instant_value now;
      _ ← require (trusted <? expires)%Z "continuation cursor has expired and can no longer be resumed";
      _ ← require (String.eqb (cursor_state_digest c) (_cursor_state_digest (rb_workspace (rq_binding q)) cut (cu_after r)))
            "continuation cursor does not bind its durable position";
      mret (cu_after r)
  end.

Definition cursor_handle (q : RecallSnapshotRequestV2) (cut state_digest : string) : string :=
  "cursor:" +:+ canonical_ledger_digest "cursor-handle-v2"
    [("workspace_ref", JStr (rb_workspace (rq_binding q))); ("transaction_cut", JStr cut);
     ("query_digest", JStr (rb_query (rq_binding q))); ("scope_digest", JStr (rb_scope (rq_binding q)));
     ("cursor_state_digest", JStr state_digest)].

(** The next position, recorded unless its handle already is. *)
Definition _issue_cursor (q : RecallSnapshotRequestV2) (cut after_candidate_ref : string) : method (string * string) :=
  let ws := rb_workspace (rq_binding q) in
  let state_digest := _cursor_state_digest ws cut after_candidate_ref in
  let handle := cursor_handle q cut state_digest in
  existing ← read (fun d => ledger_recall_cursor d !! handle);
  _ ← match existing with
      | None =>
          now ← _trusted_timestamp;
          '(issued, expires) ← _continuation_window now;
          write (fun d => put_cursors (<[handle := {| cu_workspace := ws; cu_sequence := cut; cu_state_digest := state_digest;
            cu_after := after_candidate_ref; cu_recorded := issued; cu_expires := expires |}]> (ledger_recall_cursor d)) d)
      | Some r =>
          require (String.eqb (cu_workspace r) ws && String.eqb (cu_sequence r) cut && String.eqb (cu_state_digest r) state_digest &&
                   String.eqb (cu_after r) after_candidate_ref) "recall cursor handle conflicts with durable evidence"
      end;
  mret (handle, state_digest).

(** What the transaction has read, for the page. *)
Record recall_page : Type := {
  rp_allowed : bool; rp_rows : list version_row; rp_citations : list (option citation_row); rp_supports : list edge;
  rp_conflicts : list edge; rp_more : bool; rp_cursor : option (string * string) }.

Definition within_cap {A} (l : list A) : bool := (N.of_nat (length l) <=? _MAX_RECALL_FETCH_ROWS)%N.

(** The workspace is served to this capability. *)
Definition serves (d : ledger_db) (p : AuthorityProvenanceV2) (q : binding) : bool :=
  String.eqb (authorization_state p) "PASS" &&
  match ledger_authority d !! rb_workspace q, last_migration d (rb_workspace q) with
  | Some a, Some m => String.eqb (mi_state m) "SERVING_READY" && String.eqb (au_capability a) (rb_capability q) &&
                      String.eqb (au_epoch a) (rb_epoch q) && String.eqb (au_state a) "ACTIVE"
  | _, _ => false
  end.

(** The requested cut is not after the current one. *)
Definition cut_available (d : ledger_db) (q : binding) : bool :=
  if ledger_sequence d !! rb_workspace q is Some r then decimal_leb (rb_cut q) (sq_sequence r) else false.

(** The selection of the rows and of the page. *)
Definition select_page (q : RecallSnapshotRequestV2) (allowed : bool) (resume_after : string) : method recall_page :=
  let b := rq_binding q in
  d ← st_gets database;
  let rows := if allowed then candidate_rows d b else [] in
  _ ← require (within_cap rows) "recall workspace exceeds bounded fetch cap";
  let supports := if allowed then support_rows d b else [] in
  _ ← require (within_cap supports) "recall workspace exceeds bounded fetch cap";
  let conflicts := if allowed then conflict_rows d b else [] in
  _ ← require (within_cap conflicts) "recall workspace exceeds bounded fetch cap";
  page ← st_lift (of_option (LedgerAuthorityError "no page") (_page_components (map ve_candidate rows) supports conflicts resume_after page_size));
  let shown := List.filter (fun v => str_mem (ve_candidate v) (displayed page)) rows in
  cursor ← (if has_more page then c ← _issue_cursor q (rb_cut b) (default "" (last_component_min page)); mret (Some c) else mret None);
  mret {| rp_allowed := allowed; rp_rows := shown; rp_citations := map (citation_row_of d) shown; rp_supports := supports;
          rp_conflicts := conflicts; rp_more := has_more page; rp_cursor := cursor |}.

Definition recall_transaction (q : RecallSnapshotRequestV2) (p : AuthorityProvenanceV2) : method (AuthorityProvenanceV2 * recall_page) :=
  let b := rq_binding q in
  recorded_at ← _trusted_timestamp;
  _ ← _persist_provenance p None (Some (request_digest_of q)) recorded_at;
  now ← _trusted_timestamp;
  p ← _reload_verified_provenance p now;
  d ← st_gets database;
  let allowed := serves d p b in
  _ ← require (negb (String.eqb (authorization_state p) "PASS") || allowed) "recall requires active durable authority and serving migration";
  _ ← require (negb allowed || cut_available d b) "requested transaction cut is unavailable";
  resume ← _resume_after q (rb_cut b);
  page ← select_page q allowed resume;
  mret (p, page).

(** CandidateOutcomeV2 *)
Record candidate_outcome : Type := {
  oc_candidate : string; oc_revision : string; oc_state : string; oc_content : string; oc_supports : list string }.

(** [tuple(sorted(supports.get(candidate_ref, ())))] *)
Definition supports_of (supports : list edge) (candidate : string) : list string :=
  sort_str (map fst (List.filter (fun e => String.eqb e.2 candidate) supports)).

Definition outcome_of (supports : list edge) (v : version_row) : candidate_outcome :=
  {| oc_candidate := ve_candidate v; oc_revision := ve_revision v; oc_state := ve_state v; oc_content := ve_content v;
     oc_supports := supports_of supports (ve_candidate v) |}.

(** [tuple(sorted((row[0], row[1])))] *)
Definition conflict_pair (e : edge) : edge := if str_leb e.1 e.2 then e else (e.2, e.1).

(** The distinct pairs with both sides displayed, in order. *)
Definition conflict_pairs (shown : list string) (conflicts : list edge) : list edge :=
  py_sort pair_leb (elements (list_to_set
    (map conflict_pair (List.filter (fun e => str_mem e.1 shown && str_mem e.2 shown) conflicts)) : gset edge)).

(** A committed citation is served when it still binds its evidence: the evidence. *)
Definition _served_citation (ws : string) (v : version_row) (c : citation_row) : result ledger_error (list (string * json)) :=
  let evidence := _citation_evidence (ve_candidate v) ws (ve_revision v) (ve_content v) in
  let l := locator_digest (ve_candidate v) ws (ve_revision v) (ve_content v) in
  _ ← ensure (String.eqb (ci_locator_ref c) ("locator:" +:+ l) && String.eqb (ci_locator_digest c) l &&
              String.eqb (ci_source_ref c) ("source:" +:+ ve_content v) && String.eqb (ci_digest c) (_citation_digest (ve_candidate v) evidence))
        (LedgerAuthorityError "durable citation commitment failed revalidation");
  Ok evidence.

(** The citations of the page, in the order of its rows. *)
Fixpoint served_citations (ws : string) (rows : list version_row) (citations : list (option citation_row))
    : result ledger_error (list (list (string * json))) :=
  match rows, citations with
  | v :: rows, Some c :: citations => e ← _served_citation ws v c; l ← served_citations ws rows citations; Ok (e :: l)
  | _, _ => Ok []
  end.

(** [any(not self._cas.available(digest) for row in rows)] *)
Fixpoint all_available (rows : list version_row) : method unit :=
  match rows with
  | [] => mret tt
  | v :: rows => fun M =>
      let '(w, answer) := available (ve_content v) (world M) in
      let M := {| database := database M; trust := trust M; world := w |} in
      match answer with
      | Some true => all_available rows M
      | Some false => (M, Err (LedgerAuthorityError "citation content is unavailable or corrupt"))
      | None => (M, Err ContentStoreError)
      end
  end.

(** The chain that the incoming continuation carries on. *)
Definition _incoming_chain (c : option RecallContinuationV2) : option (string * string * string * string) :=
  c ← c;
  Some (base_snapshot_digest c, cursor_state_digest c,
        canonical_ledger_digest "cursor-v2" [("cursor_handle_ref", JStr (cursor_handle_ref c));
          ("cursor_state_digest", JStr (cursor_state_digest c)); ("base_snapshot_digest", JStr (base_snapshot_digest c))],
        continuation_ref c).

(** The unsigned continuation of the next page. *)
Definition _outgoing_continuation (q : RecallSnapshotRequestV2) (cut digest : string) (cursor : option (string * string))
    : method (option (list (string * json))) :=
  match cursor with
  | None => mret None
  | Some (handle, state_digest) =>
      now ← _trusted_timestamp;
      '(issued, expires) ← _continuation_window now;
      mret (Some ([("continuation_version", JStr "second-brain-recall-continuation-v2");
        ("continuation_ref", JStr ("continuation:" +:+ canonical_ledger_digest "continuation-ref-v2"
           [("cursor_handle_ref", JStr handle); ("issued_at", JStr issued)]))] ++
        assoc_set "transaction_cut" (JStr cut) (binding_members (rq_binding q)) ++
        [("authority_provenance_ref", JStr (rq_provenance_ref q)); ("authority_provenance_digest", JStr (rq_provenance_digest q));
         ("signer_ref", JStr reader_signer); ("signer_algorithm", JStr "Ed25519"); ("key_id", JStr reader_key)] ++
        authority_members {| generation_ref := "generation:" +:+ digest; generation_digest := digest;
          checkpoint_ref := "checkpoint:" +:+ digest; checkpoint_digest := digest; freshness_digest := digest;
          authority_checkpoint_digest := digest |} ++
        [("cursor_handle_ref", JStr handle); ("cursor_state_digest", JStr state_digest); ("issued_at", JStr issued);
         ("expires_at", JStr expires)])%list)
  end.

(** What is put in the snapshot besides the values of the request. *)
Record recall_outcome : Type := {
  ro_decision : string; ro_candidates : list candidate_outcome; ro_conflicts : list edge;
  ro_citations : list (list (string * json)); ro_more : bool; ro_chain : option (string * string * string * string);
  ro_continuation : option (list (string * json)) }.

Definition acquire_recall_snapshot (q : RecallSnapshotRequestV2) : method recall_outcome :=
  let b := rq_binding q in
  p ← _verified_recall_provenance q;
  _ ← (if String.eqb (authorization_state p) "PASS" then _classify_legacy_workspace (rb_workspace b) else mret tt);
  '(p, page) ← unit_of_work (recall_transaction q p);
  _ ← all_available (rp_rows page);
  let digest := sha256_hex (rb_workspace b +:+ rb_cut b) in
  citations ← st_lift (served_citations (rb_workspace b) (rp_rows page) (rp_citations page));
  outgoing ← _outgoing_continuation q (rb_cut b) digest (rp_cursor page);
  mret {| ro_decision := if rp_allowed page then "ALLOW" else authorization_state p;
          ro_candidates := map (outcome_of (rp_supports page)) (rp_rows page);
          ro_conflicts := conflict_pairs (map ve_candidate (rp_rows page)) (rp_conflicts page);
          ro_citations := citations; ro_more := rp_more page; ro_chain := _incoming_chain (continuation q);
          ro_continuation := outgoing |}.
End Reader.
