(* ===== verification/LedgerServing.v ===== *)
(** * What a recall is served (infrastructure/second_brain_ledger.py)

    The rows visible at a cut never change once the cut is committed, a cut shows one
    version of a candidate, and a page keeps the display rules of the snapshot contract. *)
From S2P Require Import Prelude Digest Json Canonical Text Contracts Timestamps RuntimeContracts Decimals LedgerContracts LedgerGraph Ledger LedgerHistory LedgerInvariants LedgerTimeline LedgerRecall LedgerSample.
Open Scope string_scope.

Section Serving.
Context {U : Unicode} {D : Digest} {T : TrustVerifier} {W : Type} {S : Surroundings (W := W)}.

Notation machine := (machine (W := W)).
Notation method := (st machine ledger_error).

(** ** One version at a cut *)

Lemma visible_version_parts d q v : visible_version d q v = true ->
  is_Some (citation_row_of d v) /\ ve_workspace v = rb_workspace q /\ ve_state v = "APPROVED" /\
  at_cut (rb_cut q) (ve_start_cut v) = true /\ closed_by (rb_cut q) (ledger_candidate_version_closure d) (version_key v) = false.
Proof.
  unfold visible_version. rewrite !andb_true_iff, !negb_true_iff, !String.eqb_eq.
  intros [[[[[[[H1 H2] H3] H4] H5] _] _] _]. split; [by destruct (citation_row_of d v)|]. done.
Qed.

Lemma ended_hidden d q v m : ended d v m -> at_cut (rb_cut q) (str_of_N m) = true ->
  closed_by (rb_cut q) (ledger_candidate_version_closure d) (version_key v) = true.
Proof.
  intros (k & t & Hc & Hk) Hm. unfold closed_by. rewrite Hc. eapply decimal_leb_trans; [|exact Hm].
  rewrite decimal_leb_of_N. by apply N.leb_le.
Qed.

Lemma visible_unique d q v w : orderly d -> v ∈ ledger_candidate_version d -> w ∈ ledger_candidate_version d ->
  visible_version d q v = true -> visible_version d q w = true -> ve_candidate v = ve_candidate w -> v = w.
Proof.
  intros Ho Hv Hw (_ & _ & _ & Sv & Cv)%visible_version_parts (_ & _ & _ & Sw & Cw)%visible_version_parts Hx.
  apply dec_stable. intros Hne.
  destruct (timeline_apart _ _ (orderly_timeline _ Ho) v w Hv Hw Hx Hne) as [(m & Hs & He)|(m & Hs & He)];
    apply (ended_hidden d q) in He; try congruence; by rewrite <- Hs.
Qed.

Lemma candidate_rows_elem d q v : v ∈ candidate_rows d q <-> v ∈ ledger_candidate_version d /\ visible_version d q v = true.
Proof.
  unfold candidate_rows. rewrite (sort_on_perm_self ve_candidate), list_elem_of_In, filter_In, andb_true_iff.
  rewrite <- list_elem_of_In. split; [naive_solver|]. intros [Hv Hvis]. split; [done|]. split; [done|].
  apply str_mem_spec, list_elem_of_fmap. exists v. split; [done|]. apply list_elem_of_In, filter_In. by rewrite <- list_elem_of_In.
Qed.

Lemma NoDup_versions d : orderly d -> NoDup (ledger_candidate_version d).
Proof. intros Ho. eapply NoDup_fmap_1, (history_keys _ (kept_history _ (kept_well _ (orderly_kept _ Ho)))). Qed.

Lemma candidate_rows_NoDup d q : orderly d -> NoDup (map ve_candidate (candidate_rows d q)).
Proof.
  intros Ho. apply NoDup_fmap_2_strong.
  - intros v w [Hv Vv]%candidate_rows_elem [Hw Vw]%candidate_rows_elem. by apply (visible_unique d q).
  - unfold candidate_rows. rewrite (sort_on_perm_self ve_candidate). by apply NoDup_filtered, NoDup_versions.
Qed.

Lemma candidate_rows_names d q x : x ∈ map ve_candidate (candidate_rows d q) <-> x ∈ visible_candidates d q.
Proof.
  unfold visible_candidates. rewrite !list_elem_of_fmap. setoid_rewrite candidate_rows_elem.
  setoid_rewrite (list_elem_of_In (List.filter _ _)). setoid_rewrite filter_In. setoid_rewrite <- list_elem_of_In. done.
Qed.

(** ** The rows visible at a committed cut stay as they are *)

(** The requested cut is not after the current one. *)
Definition reached (d : ledger_db) (q : binding) : Prop :=
  exists n, counter d (rb_workspace q) n /\ decimal_leb (rb_cut q) (str_of_N n) = true.

Lemma cut_available_reached d q : numbered d -> cut_available d q = true -> reached d q.
Proof.
  unfold cut_available, reached. intros Hn H. destruct (ledger_sequence d !! rb_workspace q) as [r|] eqn:E; [|done].
  destruct (numbered_counter _ Hn _ _ E) as (n & _ & Es & _). exists n. split; [by exists r|]. by rewrite <- Es.
Qed.

(** The next transaction's rows are not visible. *)
Lemma reached_next d q n : counter d (rb_workspace q) n -> decimal_leb (rb_cut q) (str_of_N n) = true ->
  at_cut (rb_cut q) (str_of_N (n + 1)) = false.
Proof.
  intros _ H. apply not_true_iff_false. intros Hv. pose proof (decimal_leb_trans _ _ _ Hv H) as Hle.
  rewrite decimal_leb_of_N in Hle. apply N.leb_le in Hle. lia.
Qed.

(** What decides visibility at a cut is the same in both states. *)
Record same_view (q : binding) (d d' : ledger_db) : Prop := {
  view_versions : exists vs, ledger_candidate_version d' = (ledger_candidate_version d ++ vs)%list /\
    forall v, v ∈ vs -> visible_version d' q v = false;
  view_old : forall v, v ∈ ledger_candidate_version d -> visible_version d' q v = visible_version d q v;
  view_citations : forall v, v ∈ ledger_candidate_version d -> citation_row_of d' v = citation_row_of d v;
  view_edges : exists es, ledger_edge d' = (ledger_edge d ++ es)%list /\
    forall e, e ∈ es -> ed_workspace e <> rb_workspace q \/ at_cut (rb_cut q) (ed_start_cut e) = false;
  view_edge_closures : ledger_edge_closure d' = ledger_edge_closure d;
}.

Lemma filter_none {A} (p : A -> bool) l : (forall x, x ∈ l -> p x = false) -> List.filter p l = [].
Proof.
  induction l as [|x l IH]; intros H; [done|]. cbn. rewrite H by (by left). apply IH. intros y Hy. apply H. by right.
Qed.

Lemma filter_agree {A} (p p' : A -> bool) l : (forall x, x ∈ l -> p x = p' x) -> List.filter p l = List.filter p' l.
Proof.
  induction l as [|x l IH]; intros H; [done|]. cbn. rewrite H by (by left). rewrite IH; [done|]. intros y Hy. apply H. by right.
Qed.

Lemma same_view_rows q d d' : same_view q d d' ->
  candidate_rows d' q = candidate_rows d q /\ support_rows d' q = support_rows d q /\ conflict_rows d' q = conflict_rows d q.
Proof.
  intros [(vs & Ev & Hnew) Hold _ (es & Ee & Hes) Hec].
  assert (Hvis : visible_candidates d' q = visible_candidates d q).
  { unfold visible_candidates. rewrite Ev, List.filter_app, (filter_none _ vs Hnew), app_nil_r. f_equal. by apply filter_agree. }
  assert (Hedge : forall k, List.filter (visible_edge d' q k) (ledger_edge d') = List.filter (visible_edge d q k) (ledger_edge d)).
  { intros k. rewrite Ee, List.filter_app, (filter_none _ es), app_nil_r.
    - apply filter_agree. intros e _. unfold visible_edge. by rewrite Hvis, Hec.
    - intros e He. unfold visible_edge. destruct (Hes e He) as [Hw| ->]; [|by rewrite ?andb_false_r].
      by rewrite (proj2 (String.eqb_neq _ _) Hw). }
  split; [|split; unfold support_rows, conflict_rows; by rewrite Hedge].
  unfold candidate_rows. rewrite Ev, List.filter_app, (filter_none _ vs), app_nil_r.
  - f_equal. apply filter_agree. intros v Hv. by rewrite Hold, Hvis.
  - intros v Hv. by rewrite Hnew.
Qed.

Section Grown.
Context (ws cut : string) (q : binding) (d d' : ledger_db).
Hypothesis Hk : well_kept d.
Hypothesis Hk' : well_kept d'.
Hypothesis Hout : ws <> rb_workspace q \/ at_cut (rb_cut q) cut = false.
Hypothesis Hg : grown ws cut d d'.

Lemma elsewhere_hidden v : ve_workspace v <> rb_workspace q -> visible_version d q v = false /\ visible_version d' q v = false.
Proof.
  intros Hne. unfold visible_version. rewrite (proj2 (String.eqb_neq _ _) Hne). by rewrite !andb_false_r.
Qed.

Lemma grown_citation v : v ∈ ledger_candidate_version d -> citation_row_of d' v = citation_row_of d v.
Proof.
  intros Hv. pose proof (grown_citations _ _ _ _ Hg v Hv) as E. unfold version_key in E. unfold citation_row_of. by rewrite E.
Qed.

(** An edge of another workspace does not start at the candidate. *)
Lemma grown_superseded v : v ∈ ledger_candidate_version d -> ve_workspace v = rb_workspace q ->
  superseded_at d' (rb_cut q) (ve_candidate v) = superseded_at d (rb_cut q) (ve_candidate v).
Proof.
  intros Hv Hw. destruct (grown_edges _ _ _ _ Hg) as (es & Ee & Hes). unfold superseded_at. rewrite Ee, existsb_app.
  replace (existsb _ es) with false; [by rewrite orb_false_r|]. symmetry. apply not_true_iff_false. intros (e & He & H)%existsb_exists.
  apply list_elem_of_In in He. rewrite !andb_true_iff, !String.eqb_eq in H. destruct H as [[[Hf _] _] Hvis].
  destruct (Hes e He) as [Hew Hec]. rewrite Hec in Hvis. destruct Hout as [Hne|Hno]; [|congruence]. apply Hne.
  destruct (kept_edges _ Hk' e) as [(r & Hr & Er) _]; [rewrite Ee; apply elem_of_app; by right|].
  destruct (history_owner _ (kept_history _ Hk) v Hv) as [r0 Hr0]. destruct (grown_homes _ _ _ _ Hg _ _ Hr0) as (r1 & Hr1 & Er1).
  rewrite Hf, Hr1 in Hr. injection Hr as <-. rewrite <- Hew, <- Er, Er1, <- Hw.
  symmetry. by apply (history_home _ (kept_history _ Hk) v r0 Hv).
Qed.

Lemma grown_closed v : v ∈ ledger_candidate_version d -> ve_workspace v = rb_workspace q ->
  closed_by (rb_cut q) (ledger_candidate_version_closure d') (version_key v) =
  closed_by (rb_cut q) (ledger_candidate_version_closure d) (version_key v).
Proof.
  intros Hv Hw. unfold closed_by. destruct (grown_closures _ _ _ _ Hg v Hv) as [->|(Hw' & -> & t & ->)]; [done|].
  destruct Hout as [Hne|Hno]; [congruence | done].
Qed.

Lemma grown_visible v : v ∈ ledger_candidate_version d -> visible_version d' q v = visible_version d q v.
Proof.
  intros Hv. destruct (decide (ve_workspace v = rb_workspace q)) as [Hw|Hw].
  - unfold visible_version. rewrite (grown_citation v Hv), (grown_superseded v Hv Hw).
    pose proof (grown_closed v Hv Hw) as E. unfold version_key in E. by rewrite E.
  - by destruct (elsewhere_hidden v Hw) as [-> ->].
Qed.

Lemma grown_view : same_view q d d'.
Proof.
  split; [| apply grown_visible | apply grown_citation | | apply Hg].
  - destruct (grown_versions _ _ _ _ Hg) as (vs & Ev & Hvs). exists vs. split; [done|]. intros v Hv.
    destruct (Hvs v Hv) as [Hw Hc]. destruct Hout as [Hne|Hno].
    + apply elsewhere_hidden. congruence.
    + unfold visible_version. rewrite Hc, Hno. by rewrite !andb_false_r.
  - destruct (grown_edges _ _ _ _ Hg) as (es & Ee & Hes). exists es. split; [done|]. intros e He.
    destruct (Hes e He) as [-> ->]. done.
Qed.
End Grown.

Lemma same_tables_view q d d' : elsewhere (put_migration (ledger_migration d') (put_sequence (ledger_sequence d') (put_authority (ledger_authority d') d))) d' ->
  same_view q d d'.
Proof.
  intros [_ Ev Ec Ee Eec _ _ Eci _ _]. cbn in *.
  assert (Hci : forall v, citation_row_of d' v = citation_row_of d v) by (intros v; unfold citation_row_of; by rewrite Eci).
  split; [exists []; by rewrite app_nil_r; split; [|intros v ?%elem_of_nil] | | done | exists []; rewrite app_nil_r; split; [done | by intros e ?%elem_of_nil] | done].
  intros v _. unfold visible_version, superseded_at. by rewrite Hci, Ec, Ee.
Qed.

Lemma committed_reached q c now d d1 d2 d' current n m : numbered d -> admitted c d current -> committed c now d d1 d2 d' ->
  counter d (cmd_workspace_ref c) n -> next_cut d (cmd_workspace_ref c) = str_of_N (n + 1) ->
  counter d (rb_workspace q) m -> decimal_leb (rb_cut q) (str_of_N m) = true -> reached d' q.
Proof.
  intros Hn Ha [(content & _ & Hrev) Hcasc _ (digest & _ & ->)] Hcn Enext Hcm Hle.
  assert (E : ledger_sequence d2 = ledger_sequence d1)
    by (destruct (revokes c); [by destruct Hcasc as (seen & [_ [] _ _ _ _] & _) | by subst d2]).
  unfold reached, counter. cbn [ledger_sequence put_outbox put_events put_commands]. rewrite E, (revised_sequence _ _ _ _ _ _ Hrev).
  destruct (decide (cmd_workspace_ref c = rb_workspace q)) as [Ew|].
  - exists (n + 1)%N. rewrite Ew, lookup_insert_eq. rewrite Ew in Hcn, Enext. split; [by eexists|].
    rewrite (counter_unique _ _ _ _ Hcn Hcm). eapply decimal_leb_trans; [exact Hle|]. rewrite decimal_leb_of_N. apply N.leb_le. lia.
  - exists m. rewrite lookup_insert_ne by done. done.
Qed.

Lemma committed_view q c now d d1 d2 d' current : command_matrix c = true -> admitted c d current -> committed c now d d1 d2 d' ->
  well_kept d -> numbered d -> reached d q -> same_view q d d' /\ reached d' q.
Proof.
  intros Hm Ha Hc Hk Hn (m & Hcm & Hle). pose proof (matrix_homed _ _ _ Hm Ha) as Hh.
  destruct (committed_well_kept _ _ _ _ _ _ Hk Hh Hc) as [Hk' Hg].
  destruct (admitted_sequence _ _ _ Ha) as [r Hr]. destruct (numbered_next _ _ _ Hn Hr) as (n & _ & Hcn & Enext & _). split.
  - apply (grown_view (cmd_workspace_ref c) (next_cut d (cmd_workspace_ref c))); [done | done | | done].
    destruct (decide (cmd_workspace_ref c = rb_workspace q)) as [Ew|]; [right|by left]. rewrite Ew in Hcn, Enext. rewrite Ew, Enext.
    rewrite (counter_unique _ _ _ _ Hcn Hcm). by apply (reached_next d).
  - by eapply committed_reached.
Qed.

(** A transaction of any kind leaves the view of a reached cut, and the cut stays reached. *)
Lemma transaction_view q d d' : orderly d -> transaction d d' -> reached d q -> same_view q d d' /\ reached d' q.
Proof.
  intros Ho Htx Hq. assert (Hn : numbered d) by apply Ho.
  destruct Htx as [ws now M M' H | ws a now M M' H | ws v now M M' digest Hv H | c M M' receipt Hm H | d d' []].
  - apply classify_spec in H as [E|(m & E & _)]; rewrite E; (split; [apply same_tables_view; by split | done]).
  - apply register_spec in H as (a' & m & _ & Hcut & _ & E). rewrite E. split; [apply same_tables_view; by split|].
    destruct Hq as (n & (r & Hr & En) & Hle). exists n. split; [|done]. exists r. split; [|done]. cbn.
    rewrite lookup_insert_ne; [done|]. intros ->.
    destruct (numbered_next _ _ _ Hn Hr) as (k & Hk & _ & Ek & _). rewrite Hcut in Ek. change "1" with (str_of_N 1) in Ek.
    apply str_of_N_inj in Ek. lia.
  - apply promote_spec in H as (d & m & Hd & _ & _ & E); [|exact Hv]. rewrite E. split; [apply same_tables_view; destruct Hd; by split|].
    destruct Hq as (n & (r & Hr & En) & Hle). exists n. split; [|done]. exists r. cbn. by rewrite (elsewhere_sequence _ _ Hd).
  - apply append_spec in H as [(r & _ & _ & -> & _)|(now & v & d1 & d2 & Ha & Hc & _)];
      [split; [apply same_tables_view; by split | done] | | exact Hm | apply Ho].
    destruct (committed_view q c now (put_provenance v (database M)) d1 d2 (database M') _ Hm Ha Hc) as [[] Hq'];
      [ | | exact Hq | split; [by split | done]].
    + eapply elsewhere_well_kept; [|apply Ho]. by split.
    + by apply (numbered_ext (database M)).
  - split; [apply same_tables_view; by split|]. destruct Hq as (n & (r & Hr & En) & Hle). exists n. split; [|done]. exists r.
    by replace (ledger_sequence d') with (ledger_sequence d).
Qed.

Lemma transactions_rows q d d' : orderly d -> rtc transaction d d' -> reached d q -> reached d' q /\
  candidate_rows d' q = candidate_rows d q /\ support_rows d' q = support_rows d q /\ conflict_rows d' q = conflict_rows d q /\
  map (citation_row_of d') (candidate_rows d q) = map (citation_row_of d) (candidate_rows d q).
Proof.
  intros Ho H. revert Ho. induction H as [|d1 d2 d3 H12 _ IH]; intros Ho Hq; [done|].
  destruct (transaction_view q _ _ Ho H12 Hq) as [Hv Hq2]. destruct (IH (transaction_orderly _ _ H12 Ho) Hq2) as (H1 & H2 & H3 & H4 & H5).
  destruct (same_view_rows _ _ _ Hv) as (E1 & E2 & E3). split; [done|]. split; [congruence|]. split; [congruence|]. split; [congruence|].
  rewrite E1 in H5. rewrite H5. apply map_ext_in. intros v Hv'%list_elem_of_In. apply candidate_rows_elem in Hv' as [Hv' _].
  by apply (view_citations _ _ _ Hv).
Qed.

(** ** A page and its contract *)

Lemma candidate_rows_sorted d q : orderly d ->
  StronglySorted (fun v w => str_ltb (ve_candidate v) (ve_candidate w) = true) (candidate_rows d q).
Proof.
  intros Ho. apply ordered_strict; [|by apply candidate_rows_NoDup].
  unfold candidate_rows, sort_on. apply py_sort_ordered; [intros x y; apply str_leb_total | intros x y z; apply str_leb_trans].
Qed.

Lemma NoDup_map_filter {A B} (f : A -> B) (p p' : A -> bool) l : (forall x, x ∈ l -> p x = true -> p' x = true) ->
  NoDup (map f (List.filter p' l)) -> NoDup (map f (List.filter p l)).
Proof.
  induction l as [|x l IH]; intros Hp; [done|]. cbn [List.filter]. intros Hn.
  assert (Hn' : NoDup (map f (List.filter p' l))) by (destruct (p' x); [by apply list.NoDup_cons in Hn as [_ ?] | done]).
  assert (IH' := IH (fun y Hy => Hp y (list_elem_of_further _ _ _ Hy)) Hn'). destruct (p x) eqn:E; [|done].
  rewrite (Hp x) in Hn by (by left || done). cbn in Hn |- *. apply list.NoDup_cons in Hn as [Hx _]. apply list.NoDup_cons. split; [|done].
  intros (y & Ey & Hy)%list_elem_of_fmap. apply Hx. apply list_elem_of_fmap. exists y. split; [done|].
  apply list_elem_of_In, filter_In in Hy as [Hy Hpy]. apply list_elem_of_In, filter_In. split; [done|].
  apply Hp; [right; by apply list_elem_of_In | done].
Qed.

Lemma support_rows_NoDup d q : orderly d -> NoDup (support_rows d q).
Proof.
  intros Ho. eapply NoDup_map_filter, (orderly_edges _ Ho). intros e He. unfold visible_edge, active.
  rewrite !andb_true_iff, (proj2 (orderly_ends _ Ho e He)). intros [[[[[[[[_ ->] ->] _] _] _] _] _] _]. done.
Qed.

Lemma visible_edge_ends d q k e : e ∈ map ends (List.filter (visible_edge d q k) (ledger_edge d)) ->
  e.1 ∈ map ve_candidate (candidate_rows d q) /\ e.2 ∈ map ve_candidate (candidate_rows d q) /\
  exists r, r ∈ ledger_edge d /\ ends r = e.
Proof.
  intros (r & -> & Hr)%list_elem_of_fmap. apply list_elem_of_In, filter_In in Hr as [Hr H]. apply list_elem_of_In in Hr.
  unfold visible_edge in H. rewrite !andb_true_iff in H. destruct H as [[_ H1%str_mem_spec] H2%str_mem_spec].
  split; [by apply candidate_rows_names|]. split; [by apply candidate_rows_names|]. by exists r.
Qed.

Lemma supports_of_elem supports x s : s ∈ supports_of supports x <-> (s, x) ∈ supports.
Proof.
  unfold supports_of, sort_str. rewrite py_sort_elem, list_elem_of_fmap. split.
  - intros ([a b] & -> & H). apply list_elem_of_In, filter_In in H as [H E%String.eqb_eq]. cbn in E. subst. by apply list_elem_of_In.
  - intros H. exists (s, x). split; [done|]. apply list_elem_of_In, filter_In. split; [by apply list_elem_of_In | cbn; apply String.eqb_refl].
Qed.

Lemma supports_of_NoDup supports x : NoDup supports -> NoDup (supports_of supports x).
Proof.
  intros H. unfold supports_of, sort_str. rewrite py_sort_perm. apply NoDup_fmap_2_strong; [|by apply NoDup_filtered].
  intros [a b] [c e] H1 H2 E. apply list_elem_of_In, filter_In in H1 as [_ E1%String.eqb_eq], H2 as [_ E2%String.eqb_eq].
  cbn in *. congruence.
Qed.

Lemma conflict_pairs_elem shown conflicts e : e ∈ conflict_pairs shown conflicts <->
  exists f, f ∈ conflicts /\ f.1 ∈ shown /\ f.2 ∈ shown /\ conflict_pair f = e.
Proof.
  unfold conflict_pairs. rewrite py_sort_elem, elem_of_elements, elem_of_list_to_set, list_elem_of_fmap. split.
  - intros (f & -> & Hf). apply list_elem_of_In, filter_In in Hf as [Hf [H1%str_mem_spec H2%str_mem_spec]%andb_true_iff].
    exists f. split; [by apply list_elem_of_In | done].
  - intros (f & Hf & H1 & H2 & <-). exists f. split; [done|]. apply list_elem_of_In, filter_In. split; [by apply list_elem_of_In|].
    apply andb_true_iff. by split; apply str_mem_spec.
Qed.

(** The display rules of the snapshot contract: approved candidates in strict order, their
    supports distinct and displayed, and displayed conflicts with their sides in order. *)
Record displays (page : recall_page) : Prop := {
  displays_sorted : StronglySorted (fun x y => str_ltb x y = true) (map ve_candidate (rp_rows page));
  displays_approved : forall v, v ∈ rp_rows page -> ve_state v = "APPROVED";
  displays_cited : forall c, c ∈ rp_citations page -> is_Some c;
  displays_supports : forall v, v ∈ rp_rows page -> NoDup (supports_of (rp_supports page) (ve_candidate v)) /\
    forall s, s ∈ supports_of (rp_supports page) (ve_candidate v) -> s ∈ map ve_candidate (rp_rows page);
  displays_conflicts : forall l r, (l, r) ∈ conflict_pairs (map ve_candidate (rp_rows page)) (rp_conflicts page) ->
    str_ltb l r = true /\ l ∈ map ve_candidate (rp_rows page) /\ r ∈ map ve_candidate (rp_rows page);
  displays_order : ordered pair_leb (conflict_pairs (map ve_candidate (rp_rows page)) (rp_conflicts page)) /\
    NoDup (conflict_pairs (map ve_candidate (rp_rows page)) (rp_conflicts page));
}.

(** What a page is selected from. *)
Definition rows_of (d : ledger_db) (q : binding) (allowed : bool) : list version_row := if allowed then candidate_rows d q else [].
Definition supports_at (d : ledger_db) (q : binding) (allowed : bool) : list edge := if allowed then support_rows d q else [].
Definition conflicts_at (d : ledger_db) (q : binding) (allowed : bool) : list edge := if allowed then conflict_rows d q else [].

Record selected (page_size : nat) (q : binding) (allowed : bool) (resume : string) (d : ledger_db) (out : recall_page) (p : page) : Prop := {
  selected_page : _page_components (map ve_candidate (rows_of d q allowed)) (supports_at d q allowed) (conflicts_at d q allowed)
                    resume page_size = Some p;
  selected_rows : rp_rows out = List.filter (fun v => str_mem (ve_candidate v) (displayed p)) (rows_of d q allowed);
  selected_citations : rp_citations out = map (citation_row_of d) (rp_rows out);
  selected_supports : rp_supports out = supports_at d q allowed;
  selected_conflicts : rp_conflicts out = conflicts_at d q allowed;
  selected_more : rp_more out = has_more p;
}.

Lemma select_page_spec page_size q allowed resume (M : machine) :
  okp (select_page page_size q allowed resume) M (fun _ out => exists p, selected page_size (rq_binding q) allowed resume (database M) out p).
Proof.
  apply okp_bind, okp_gets, okp_bind, okp_require. intros _. apply okp_bind, okp_require. intros _.
  apply okp_bind, okp_require. intros _. apply okp_bind, okp_lift. intros p Hp.
  apply okp_bind. intros M' cursor _. apply okp_ret. exists p. split; [|done..].
  unfold rows_of, supports_at, conflicts_at. by destruct (_page_components _ _ _ _ _); [injection Hp as ->|].
Qed.

Section Selected.
Context (page_size : nat) (q : binding) (resume : string) (d : ledger_db) (out : recall_page) (p : page) (allowed : bool).
Hypothesis Ho : orderly d.
Hypothesis Hs : selected page_size q allowed resume d out p.

Lemma selected_elem v : v ∈ rp_rows out <-> v ∈ rows_of d q allowed /\ ve_candidate v ∈ displayed p.
Proof.
  rewrite (selected_rows _ _ _ _ _ _ _ Hs), list_elem_of_In, filter_In, str_mem_spec. by rewrite <- list_elem_of_In.
Qed.

Lemma rows_of_visible v : v ∈ rows_of d q allowed -> v ∈ ledger_candidate_version d /\ visible_version d q v = true.
Proof. unfold rows_of. destruct allowed; [apply candidate_rows_elem | by intros ?%elem_of_nil]. Qed.

(** A candidate of the page's components is on the page. *)
Lemma selected_name x : x ∈ map ve_candidate (rows_of d q allowed) -> x ∈ displayed p -> x ∈ map ve_candidate (rp_rows out).
Proof.
  intros (v & -> & Hv)%list_elem_of_fmap Hx. apply list_elem_of_fmap. exists v. split; [done|]. by apply selected_elem.
Qed.

Lemma selected_support s x : (s, x) ∈ supports_at d q allowed -> x ∈ displayed p -> s ∈ map ve_candidate (rp_rows out).
Proof.
  intros Hin Hx. assert (He : allowed = true) by (unfold supports_at in Hin; destruct allowed; [done | by apply elem_of_nil in Hin]).
  destruct (page_components_whole _ _ _ _ _ _ (selected_page _ _ _ _ _ _ _ Hs)) as [_ Hw].
  assert (Hends : s ∈ map ve_candidate (rows_of d q allowed) /\ x ∈ map ve_candidate (rows_of d q allowed)).
  { unfold supports_at, rows_of in *. rewrite He in *. by destruct (visible_edge_ends d q "SUPPORT" _ Hin) as (H1 & H2 & _). }
  destruct Hends as [H1 H2]. apply selected_name; [done|]. apply (Hw x s Hx H1). symmetry.
  apply joined_edge; [apply elem_of_app; by left | by apply node_set_elem | by apply node_set_elem].
Qed.

Lemma selected_conflict l r : (l, r) ∈ conflict_pairs (map ve_candidate (rp_rows out)) (rp_conflicts out) ->
  str_ltb l r = true /\ l ∈ map ve_candidate (rp_rows out) /\ r ∈ map ve_candidate (rp_rows out).
Proof.
  rewrite (selected_conflicts _ _ _ _ _ _ _ Hs). intros ([a b] & Hin & Ha & Hb & E)%conflict_pairs_elem.
  assert (Hne : a <> b).
  { unfold conflicts_at in Hin. destruct allowed; [|by apply elem_of_nil in Hin]. unfold conflict_rows in Hin. rewrite py_sort_elem in Hin.
    destruct (visible_edge_ends d q "CONTRADICTION" _ Hin) as (_ & _ & e & He & Ee). injection Ee as <- <-. by apply (orderly_ends _ Ho e). }
  unfold conflict_pair in E. cbn [fst snd] in *. destruct (str_leb a b) eqn:Hle; injection E as <- <-; (split; [|done]);
    unfold str_ltb; apply negb_true_iff, not_true_iff_false; intros Hle'.
  - by apply Hne, str_leb_antisym.
  - unfold str_leb in Hle. congruence.
Qed.

Lemma selected_displays : displays out.
Proof.
  split.
  - assert (H : StronglySorted (fun v w => str_ltb (ve_candidate v) (ve_candidate w) = true) (rp_rows out)).
    { rewrite (selected_rows _ _ _ _ _ _ _ Hs). apply filter_keeps_sorted. unfold rows_of. destruct allowed; [by apply candidate_rows_sorted | constructor]. }
    induction H as [|v l Hl IH Hv]; cbn; [constructor|]. constructor; [done|]. apply list.Forall_forall.
    intros x (w & -> & Hw)%list_elem_of_fmap. by apply (proj1 (list.Forall_forall _ _) Hv).
  - intros v [Hv _]%selected_elem. apply rows_of_visible in Hv as [_ Hv]. by apply visible_version_parts in Hv as (_ & _ & ? & _).
  - intros c. rewrite (selected_citations _ _ _ _ _ _ _ Hs). intros (v & -> & Hv)%list_elem_of_fmap.
    apply selected_elem in Hv as [Hv _]. apply rows_of_visible in Hv as [_ Hv]. by apply visible_version_parts in Hv as (? & _).
  - intros v [Hv Hshown]%selected_elem. rewrite (selected_supports _ _ _ _ _ _ _ Hs). split.
    + apply supports_of_NoDup. unfold supports_at. destruct allowed; [by apply support_rows_NoDup | constructor].
    + intros s0 Hin%supports_of_elem. by eapply selected_support.
  - apply selected_conflict.
  - unfold conflict_pairs. split.
    + apply py_sort_ordered; [apply pair_leb_total | apply pair_leb_trans].
    + rewrite py_sort_perm. apply NoDup_elements.
Qed.
End Selected.

(** ** The theorems *)

(** C7: once a cut is committed, what a recall at that cut and those instants reads never
    changes: later transactions of any workspace leave the candidate, support and conflict
    rows visible at it, and their citations, as they are. *)
Theorem committed_cut_never_changes d d' q : orderly d -> rtc transaction d d' -> cut_available d q = true ->
  candidate_rows d' q = candidate_rows d q /\ support_rows d' q = support_rows d q /\ conflict_rows d' q = conflict_rows d q /\
  map (citation_row_of d') (candidate_rows d q) = map (citation_row_of d) (candidate_rows d q).
Proof.
  intros Ho Htx Hc. eapply transactions_rows; [exact Ho | exact Htx|]. apply cut_available_reached; [apply Ho | exact Hc].
Qed.

(** C0: whatever transactions have run, a cut and two instants show one version of a
    candidate at most. *)
Theorem one_version_at_a_cut d0 d q v w : orderly d0 -> rtc transaction d0 d ->
  v ∈ ledger_candidate_version d -> w ∈ ledger_candidate_version d -> ve_candidate v = ve_candidate w ->
  visible_version d q v = true -> visible_version d q w = true -> v = w.
Proof.
  intros Ho Htx Hv Hw Hx Vv Vw. apply transactions_orderly in Htx; [|exact Ho]. by eapply (visible_unique d q).
Qed.

(** Every page that the transaction selects satisfies the display rules the snapshot
    contract checks, so a page is never refused for what it displays: approved candidates
    in strict order with their citations, supports distinct and displayed on the same page,
    conflicts between displayed candidates with their sides in order. *)
Theorem selected_page_is_displayable d0 page_size q allowed resume (M M' : machine) out :
  orderly d0 -> rtc transaction d0 (database M) -> select_page page_size q allowed resume M = (M', Ok out) -> displays out.
Proof.
  intros Ho Htx H. apply transactions_orderly in Htx; [|exact Ho]. apply select_page_spec in H as [p Hp].
  by eapply selected_displays.
Qed.

End Serving.

(** ** The theorems on the sample ledger *)

#[local] Existing Instance unicode_sample.
#[local] Existing Instance pad_digest.

(** The cut before the revocation. *)
Definition query6 : binding :=
  {| rb_workspace := ws1; rb_capability := capability; rb_epoch := "1"; rb_subject := "subject:" +:+ fill "1"; rb_action := "READ";
     rb_query := fill "7"; rb_scope := fill "8"; rb_valid_at := "2024-01-02T00:00:00Z"; rb_recorded_at := "2024-01-02T00:00:00Z";
     rb_cut := "6" |}.

Definition request6 : RecallSnapshotRequestV2 :=
  {| rq_binding := query6; rq_provenance_ref := "provenance:" +:+ fill "9"; rq_provenance_digest := fill "9"; continuation := None;
     request_digest_of := fill "9" |}.

Definition before_revoke : ledger_db := database (after 5).
Definition after_revoke : ledger_db := database (append_ledger_command revoke_a (after 5)).1.

Lemma revoke_reaches : rtc transaction before_revoke after_revoke.
Proof. exact (append_steps revoke_a (after 5) quiet_honest eq_refl). Qed.

Lemma script_orderly n : orderly (database (after n)).
Proof. exact (transactions_orderly _ _ (script_reaches n) orderly_empty). Qed.

Example rows6 : map ve_candidate (candidate_rows before_revoke query6) = [candidate_a; candidate_b] /\
  support_rows before_revoke query6 = [(candidate_a, candidate_b)].
Proof. split; vm_compute; reflexivity. Qed.

Lemma committed_cut_never_changes_witness : cut_available before_revoke query6 = true /\
  candidate_rows after_revoke query6 = candidate_rows before_revoke query6.
Proof.
  assert (Hc : cut_available before_revoke query6 = true) by (vm_compute; reflexivity).
  split; [exact Hc|]. exact (proj1 (committed_cut_never_changes before_revoke after_revoke query6 (script_orderly 5) revoke_reaches Hc)).
Defined.

Lemma one_version_at_a_cut_witness : exists v, visible_version before_revoke query6 v = true /\
  forall w, w ∈ ledger_candidate_version before_revoke -> ve_candidate v = ve_candidate w ->
    visible_version before_revoke query6 w = true -> v = w.
Proof.
  assert (Hrows : map ve_candidate (candidate_rows before_revoke query6) = [candidate_a; candidate_b]) by exact (proj1 rows6).
  destruct (candidate_rows before_revoke query6) as [|v l] eqn:E; [discriminate Hrows|].
  assert (Hv : v ∈ candidate_rows before_revoke query6) by (rewrite E; left).
  apply candidate_rows_elem in Hv as [Hv Vv]. exists v. split; [exact Vv|]. intros w Hw Hx Vw.
  exact (one_version_at_a_cut empty_db before_revoke query6 v w orderly_empty (script_reaches 5) Hv Hw Hx Vv Vw).
Defined.

Lemma selected_page_is_displayable_witness : exists out, (select_page 1 request6 true "" (after 5)).2 = Ok out /\
  rp_more out = false /\ displays out.
Proof.
  assert (Hok : (if (select_page 1 request6 true "" (after 5)).2 is Ok out then Some (rp_more out) else None) = Some false)
    by (vm_compute; reflexivity).
  destruct (select_page 1 request6 true "" (after 5)) as [M' [out|e]] eqn:E; [|discriminate Hok].
  exists out. split; [reflexivity|]. split; [by injection Hok|].
  exact (selected_page_is_displayable empty_db 1 request6 true "" (after 5) M' out orderly_empty (script_reaches 5) E).
Defined.
