(* ===== verification/LedgerPaging.v ===== *)
(** * The pages of a continued recall (infrastructure/second_brain_ledger.py)

    Recalls of one request, each carrying on from the page before with the continuation it
    was given, while other connections commit in between: what is resumed, when it is
    refused, and what the pages add up to. *)
From S2P Require Import Prelude Digest Json Canonical Text Contracts Timestamps RuntimeContracts Decimals LedgerContracts LedgerGraph Ledger LedgerHistory LedgerInvariants LedgerTimeline LedgerRecall LedgerServing LedgerSample.
Open Scope string_scope.

Definition TTL : Z := (_CONTINUATION_TTL_SECONDS * SECOND)%Z.

(** A cursor expires 300 seconds after it was recorded. *)
Definition window (r : cursor_row) (issued : Z) : Prop :=
  parse_instant (cu_recorded r) = Some issued /\ parse_instant (cu_expires r) = Some (issued + TTL)%Z.

Definition windowed (d : ledger_db) : Prop :=
  forall h r, ledger_recall_cursor d !! h = Some r -> exists issued, window r issued.

Section Paging.
Context {U : Unicode} {D : Digest} {T : TrustVerifier} {W : Type} {S : Surroundings (W := W)}.

Notation machine := (machine (W := W)).
Notation method := (st machine ledger_error).

(** ** What happens between two pages *)

(** Transactions of any kind, which keep the cursors there are: their rows cannot be updated
    and are deleted by the purge of expired ones alone. *)
Record meanwhile (d d' : ledger_db) : Prop := {
  meanwhile_transactions : rtc transaction d d';
  meanwhile_cursors : ledger_recall_cursor d ⊆ ledger_recall_cursor d';
  meanwhile_windows : windowed d -> windowed d';
}.

#[export] Instance meanwhile_preorder : PreOrder meanwhile.
Proof. split; [by intros d; split | intros d1 d2 d3 [] []; split; [by etrans | by etrans | auto]]. Qed.

Definition steady : Prop := forall M : machine, meanwhile (database M) (database (others M)).

Lemma meanwhile_transaction d d' : transaction d d' -> ledger_recall_cursor d' = ledger_recall_cursor d -> meanwhile d d'.
Proof. intros Ht E. split; [by apply rtc_once | by rewrite E | unfold windowed; by rewrite E]. Qed.

(** ** The clock *)

(** What the clock reads, and the machine after it was read. *)
Definition reads (M : machine) (t : Z) : Prop := parse_instant (clock (world M)).2 = Some t.
Definition tick (M : machine) : machine := {| database := database M; trust := trust M; world := (clock (world M)).1 |}.

Lemma timestamp_run (M : machine) t : reads M t -> _trusted_timestamp M = (tick M, Ok (micro_text t)).
Proof.
  unfold reads, _trusted_timestamp, tick. intros H. unfold mbind, st_bind, now_text.
  destruct (clock (world M)) as [w s]. cbn [fst snd] in *. unfold contract, st_lift, check_instant. by rewrite H.
Qed.

Lemma trusted_timestamp_ok (M M' : machine) now : _trusted_timestamp M = (M', Ok now) ->
  exists t, reads M t /\ in_range t /\ now = micro_text t /\ M' = tick M.
Proof.
  unfold reads, _trusted_timestamp, tick, mbind, st_bind, now_text. destruct (clock (world M)) as [w s]. cbn [fst snd].
  unfold contract, st_lift, check_instant. destruct (parse_instant s) as [t|] eqn:E; [|done]. cbn. intros [= <- <-].
  exists t. split; [done|]. split; [by eapply parse_instant_range | done].
Qed.

Lemma instant_value_run (M : machine) s t : parse_instant s = Some t -> _instant_value s M = (M, Ok t).
Proof. intros H. unfold _instant_value, mbind, st_bind, contract, st_lift, check_instant. by rewrite H. Qed.

Lemma okp_timestamp (M : machine) (Q : machine -> string -> Prop) :
  (forall t, reads M t -> in_range t -> Q (tick M) (micro_text t)) -> okp _trusted_timestamp M Q.
Proof. intros H M' now E. apply trusted_timestamp_ok in E as (t & Hr & Ht & -> & ->). by apply H. Qed.

Lemma window_run (M : machine) t : in_range t -> in_range (t + TTL) ->
  _continuation_window (micro_text t) M = (M, Ok (instant_text t, instant_text (t + TTL))).
Proof.
  intros Ht He. unfold _continuation_window. rewrite (st_bind_run _ _ _ _ _ (instant_value_run M _ _ (parse_micro_text t Ht))).
  unfold mbind, st_bind, st_lift, add_delta. by rewrite decide_True.
Qed.

Lemma window_ok (M M' : machine) t p : in_range t -> _continuation_window (micro_text t) M = (M', Ok p) ->
  M' = M /\ in_range (t + TTL) /\ p = (instant_text t, instant_text (t + TTL)).
Proof.
  intros Ht. unfold _continuation_window. rewrite (st_bind_run _ _ _ _ _ (instant_value_run M _ _ (parse_micro_text t Ht))).
  unfold mbind, st_bind, st_lift, add_delta. fold TTL. case_decide as He; [|done]. cbn. by intros [= <- <-].
Qed.
(** ** Cursors *)

(** The row says: the recall of [b] resumes after [m]; its state digest is [s]. *)
Record position (b : binding) (m s : string) (r : cursor_row) : Prop := {
  position_workspace : cu_workspace r = rb_workspace b;
  position_cut : cu_sequence r = rb_cut b;
  position_after : cu_after r = m;
  position_digest : cu_state_digest r = s;
  position_state : s = _cursor_state_digest (rb_workspace b) (rb_cut b) m;
}.

#[export] Instance position_dec b m s r : Decision (position b m s r).
Proof.
  refine (cast_if (decide (cu_workspace r = rb_workspace b /\ cu_sequence r = rb_cut b /\ cu_after r = m /\
    cu_state_digest r = s /\ s = _cursor_state_digest (rb_workspace b) (rb_cut b) m)));
    [destruct_and!; by split | intros []; tauto].
Defined.

Lemma position_eqb b m r : let s := _cursor_state_digest (rb_workspace b) (rb_cut b) m in
  String.eqb (cu_workspace r) (rb_workspace b) && String.eqb (cu_sequence r) (rb_cut b) && String.eqb (cu_state_digest r) s &&
  String.eqb (cu_after r) m = true <-> position b m s r.
Proof. intros s. rewrite !andb_true_iff, !String.eqb_eq. split; [by intros [[[]]]; split | by intros []]. Qed.

Definition recorded (b : binding) (m : string) (cursor : string * string) (d : ledger_db) : Prop :=
  exists r, ledger_recall_cursor d !! cursor.1 = Some r /\ position b m cursor.2 r.

Lemma meanwhile_recorded b m cursor d d' : meanwhile d d' -> recorded b m cursor d -> recorded b m cursor d'.
Proof. intros [_ H _] (r & Hr & Hp). exists r. split; [|done]. by eapply lookup_weaken. Qed.

Lemma meanwhile_insert d h r t : in_range t -> in_range (t + TTL) -> ledger_recall_cursor d !! h = None ->
  cu_recorded r = instant_text t -> cu_expires r = instant_text (t + TTL) ->
  meanwhile d (put_cursors (<[h := r]> (ledger_recall_cursor d)) d).
Proof.
  intros Ht He Hn Hr Hx. split; [apply rtc_once, tx_elsewhere; by split | by apply insert_subseteq|].
  intros Hw h' r' Hl. cbn in Hl. apply lookup_insert_Some in Hl as [[<- <-]|[_ Hl]]; [|by eapply Hw].
  exists t. unfold window. rewrite Hr, Hx. split; by apply parse_instant_text.
Qed.

Section Issue.
Context (q : RecallSnapshotRequestV2) (m : string).
Let b := rq_binding q.
Let s := _cursor_state_digest (rb_workspace b) (rb_cut b) m.
Let h := cursor_handle q (rb_cut b) s.

(** The cursor that is handed out is recorded with the position it was issued for. *)
Lemma okp_issue (M : machine) :
  okp (_issue_cursor q (rb_cut b) m) M (fun M' c => meanwhile (database M) (database M') /\ recorded b m c (database M')).
Proof.
  unfold _issue_cursor. fold b s h. apply okp_bind, okp_read. destruct (ledger_recall_cursor (database M) !! h) as [r|] eqn:Er.
  - apply okp_bind, okp_require. intros Hp%position_eqb. apply okp_ret. split; [done|]. by exists r.
  - apply okp_bind, okp_bind, okp_timestamp. intros t _ Ht. apply okp_bind. intros M1 [i e] Hw.
    apply window_ok in Hw as (-> & He & [= -> ->]); [|done]. apply okp_write, okp_ret. cbn [database with_db tick fst snd]. split.
    + by apply (meanwhile_insert _ _ _ t).
    + eexists. cbn. rewrite lookup_insert_eq. split; [done | by split].
Qed.

(** It is handed out unless its handle is taken by a row of another position. *)
Lemma issue_run (M : machine) t : reads M t -> in_range t -> in_range (t + TTL) ->
  (exists M' c, _issue_cursor q (rb_cut b) m M = (M', Ok c)) \/
  (exists r, ledger_recall_cursor (database M) !! h = Some r /\ ~ position b m s r).
Proof.
  intros Hr Ht He. unfold _issue_cursor. fold b s h. unfold mbind at 1, st_bind at 1, read.
  destruct (ledger_recall_cursor (database M) !! h) as [r|] eqn:Er.
  - destruct (decide (position b m s r)) as [Hp|Hp]; [left|right; by exists r].
    apply position_eqb in Hp. unfold require, mbind, st_bind, st_lift. subst s. rewrite Hp. by eexists _, _.
  - left. unfold mbind at 1, st_bind at 1. rewrite (st_bind_run _ _ _ _ _ (timestamp_run M t Hr)).
    rewrite (st_bind_run _ _ _ _ _ (window_run (tick M) t Ht He)). by eexists _, _.
Qed.
End Issue.

(** ** Carrying on *)

(** The request carries the continuation of the page before: sealing added members to it. *)
Definition carries_on (o : recall_outcome) (q : RecallSnapshotRequestV2) : Prop :=
  exists unsigned c, ro_continuation o = Some unsigned /\ continuation q = Some c /\ unsigned ⊆ continuation_to_mapping c.

(** The continuation points at the cursor. *)
Definition points_at (b : binding) (cursor : option (string * string)) (c : option (list (string * json))) : Prop :=
  match cursor with
  | None => c = None
  | Some (h, s) => exists unsigned, c = Some unsigned /\
      [("cursor_handle_ref", JStr h); ("cursor_state_digest", JStr s); ("transaction_cut", JStr (rb_cut b))] ⊆ unsigned
  end.

Lemma continuation_field c k v w : (k, v) ∈ continuation_to_mapping c -> assoc k (continuation_to_mapping c) = Some w -> v = w.
Proof.
  intros Hin Ha. apply elem_assoc in Hin; [congruence|]. destruct c as [? [] ? ? ? ? ? [] ? ? ? ? ? ? ?].
  apply (bool_decide_unpack (NoDup _)). vm_compute. exact I.
Qed.

Lemma carried b o q h s : carries_on o q -> points_at b (Some (h, s)) (ro_continuation o) ->
  exists c, continuation q = Some c /\ cursor_handle_ref c = h /\ cursor_state_digest c = s /\ rb_cut (ct_binding c) = rb_cut b.
Proof.
  intros (u & c & E & Hc & Hsub) (u' & E' & Hin). rewrite E in E'. injection E' as <-. exists c. split; [exact Hc|].
  assert (Hm : forall k v w, (k, v) ∈ u -> assoc k (continuation_to_mapping c) = Some w -> v = w)
    by (intros k v w Hk; eapply continuation_field; by apply Hsub).
  split; [|split].
  - assert (E1 : JStr h = JStr (cursor_handle_ref c)) by (apply (Hm "cursor_handle_ref"); [apply Hin; by left | done]). by injection E1.
  - assert (E1 : JStr s = JStr (cursor_state_digest c))
      by (apply (Hm "cursor_state_digest"); [apply Hin; right; by left | done]). by injection E1.
  - assert (E1 : JStr (rb_cut b) = JStr (rb_cut (ct_binding c)))
      by (apply (Hm "transaction_cut"); [apply Hin; right; right; by left | done]). by injection E1.
Qed.

Definition expired : ledger_error := LedgerAuthorityError "continuation cursor has expired and can no longer be resumed".

Section Resume.
Context (q : RecallSnapshotRequestV2) (c : RecallContinuationV2) (m : string) (r : cursor_row).
Let b := rq_binding q.
Hypothesis Hc : continuation q = Some c.
Hypothesis Hcut : rb_cut (ct_binding c) = rb_cut b.
Hypothesis Hp : position b m (cursor_state_digest c) r.

Lemma resume_found (M : machine) : ledger_recall_cursor (database M) !! cursor_handle_ref c = Some r ->
  _resume_after q (rb_cut b) M =
    (expires ← _instant_value (cu_expires r); now ← _trusted_timestamp; trusted ← _instant_value now;
     _ ← require (trusted <? expires)%Z "continuation cursor has expired and can no longer be resumed"; mret m) M.
Proof.
  intros Hr. destruct Hp as [Hw Hs Ha Hd Hst]. unfold _resume_after. rewrite Hc. fold b. unfold mbind at 1, st_bind at 1, read. rewrite Hr.
  cbn [mbind option_bind]. rewrite Hw, Hs, Hcut, Hd, !String.eqb_refl. cbn [andb of_option].
  unfold mbind at 1, st_bind at 1, st_lift at 1. by rewrite Ha, Hst, String.eqb_refl.
Qed.

Lemma resume_run (M : machine) issued t : ledger_recall_cursor (database M) !! cursor_handle_ref c = Some r ->
  window r issued -> reads M t -> in_range t ->
  _resume_after q (rb_cut b) M = (tick M, if (t <? issued + TTL)%Z then Ok m else Err expired).
Proof.
  intros Hr [_ He] Ht Hin. rewrite resume_found by done. rewrite (st_bind_run _ _ _ _ _ (instant_value_run M _ _ He)).
  rewrite (st_bind_run _ _ _ _ _ (timestamp_run M t Ht)).
  rewrite (st_bind_run _ _ _ _ _ (instant_value_run (tick M) _ _ (parse_micro_text t Hin))).
  unfold mbind, st_bind, require, st_lift. by destruct (t <? issued + TTL)%Z.
Qed.

Lemma okp_resume (M : machine) : ledger_recall_cursor (database M) !! cursor_handle_ref c = Some r ->
  okp (_resume_after q (rb_cut b)) M (fun M' after => after = m /\ database M' = database M).
Proof.
  intros Hr M' after. rewrite resume_found by done. revert M' after.
  change (okp (expires ← _instant_value (cu_expires r); now ← _trusted_timestamp; trusted ← _instant_value now;
     _ ← require (trusted <? expires)%Z "continuation cursor has expired and can no longer be resumed"; mret m) M
     (fun M' after => after = m /\ database M' = database M)).
  apply okp_bind, okp_bind, okp_lift. intros p _. apply okp_ret, okp_bind, okp_timestamp. intros t _ _.
  apply okp_bind, okp_bind, okp_lift. intros p' _. apply okp_ret, okp_bind, okp_require. intros _. apply okp_ret. done.
Qed.
End Resume.

(** A cursor is handed out again as it was recorded, with its old expiry: once it has
    expired, the continuations given with it are refused until the row is purged, however
    late they say they expire. *)
Lemma expired_cursor_reissued q q' c m r issued (M N : machine) t :
  let b := rq_binding q in let s := _cursor_state_digest (rb_workspace b) (rb_cut b) m in let h := cursor_handle q (rb_cut b) s in
  ledger_recall_cursor (database M) !! h = Some r -> position b m s r -> window r issued ->
  _issue_cursor q (rb_cut b) m M = (M, Ok (h, s)) /\
  (rq_binding q' = b -> continuation q' = Some c -> cursor_handle_ref c = h -> cursor_state_digest c = s ->
   rb_cut (ct_binding c) = rb_cut b -> ledger_recall_cursor (database N) !! h = Some r -> reads N t -> (issued + TTL <= t)%Z ->
   _resume_after q' (rb_cut b) N = (tick N, Err expired)).
Proof.
  intros b s h Hr Hp Hw. split.
  - unfold _issue_cursor. fold b s h. unfold mbind at 1, st_bind at 1, read. rewrite Hr. apply position_eqb in Hp.
    unfold require, mbind, st_bind, st_lift. fold s in Hp. by rewrite Hp.
  - intros Eb Ec Eh Es Ecut HrN Ht He. rewrite <- Eb in Hp, Ecut |- *. rewrite <- Es in Hp. rewrite <- Eh in HrN.
    rewrite (resume_run q' c m r Ec Ecut Hp N issued t HrN Hw Ht (parse_instant_range _ _ Ht)).
    by rewrite (proj2 (Z.ltb_ge _ _) He).
Qed.

(** ** The page of a transaction *)

(** The rows are within the cap that a recall fetches. *)
Definition fetchable (d : ledger_db) (b : binding) : bool :=
  within_cap (candidate_rows d b) && within_cap (support_rows d b) && within_cap (conflict_rows d b).

Definition page_at (page_size : nat) (d : ledger_db) (b : binding) (resume : string) : option page :=
  _page_components (map ve_candidate (candidate_rows d b)) (support_rows d b) (conflict_rows d b) resume page_size.

Lemma okp_select page_size q resume (M : machine) : let b := rq_binding q in
  okp (select_page page_size q true resume) M (fun M' out => exists p,
    selected page_size b true resume (database M) out p /\ fetchable (database M) b = true /\
    meanwhile (database M) (database M') /\
    if has_more p then exists c, rp_cursor out = Some c /\ recorded b (default "" (last_component_min p)) c (database M')
    else rp_cursor out = None).
Proof.
  intros b. apply okp_bind, okp_gets, okp_bind, okp_require. intros H1. apply okp_bind, okp_require. intros H2.
  apply okp_bind, okp_require. intros H3. apply okp_bind, okp_lift. intros p Hp%of_option_ok.
  assert (Hf : fetchable (database M) b = true) by (unfold fetchable; cbn beta iota in H1, H2, H3; fold b in H1, H2, H3; by rewrite H1, H2, H3).
  apply okp_bind. destruct (has_more p) eqn:Em.
  - apply okp_bind. eapply okp_mono; [apply okp_issue|]. intros M' c [Hw Hr]. apply okp_ret, okp_ret. exists p.
    split; [by split|]. split; [done|]. split; [done|]. rewrite Em. by exists c.
  - apply okp_ret, okp_ret. exists p. split; [by split|]. split; [done|]. split; [done|]. by rewrite Em.
Qed.

(** More rows than the cap are refused, before anything is recorded. *)
Lemma select_over_cap page_size q resume (M : machine) : fetchable (database M) (rq_binding q) = false ->
  select_page page_size q true resume M = (M, Err (LedgerAuthorityError "recall workspace exceeds bounded fetch cap")).
Proof.
  unfold fetchable, select_page. rewrite (st_bind_run _ _ M M (database M)) by done. cbn zeta beta iota.
  unfold mbind, st_bind, require, st_lift.
  destruct (within_cap (candidate_rows _ _)); [|done]. destruct (within_cap (support_rows _ _)); [|done].
  by destruct (within_cap (conflict_rows _ _)).
Qed.

(** ** A whole recall *)

Section Recall.
Context (page_size : nat) (reader_signer reader_key : string).
Notation acquire := (acquire_recall_snapshot page_size reader_signer reader_key).

Lemma okp_unit {A} (m : method A) (M : machine) Q : okp m (others M) Q -> okp (unit_of_work m) M Q.
Proof. unfold okp, unit_of_work. intros H M' a. destruct (m (others M)) as [M1 [x|e]] eqn:E; intros [= <- <-]. by apply H. Qed.

Lemma okp_classify ws (M : machine) : steady -> okp (_classify_legacy_workspace ws) M (fun M' _ => meanwhile (database M) (database M')).
Proof.
  intros Hs. apply okp_bind, okp_timestamp. intros t _ _. apply okp_unit. intros M' [] E. etrans; [apply (Hs (tick M))|].
  apply meanwhile_transaction; [by eapply tx_classify|]. apply classify_spec in E as [->|(m & -> & _)]; done.
Qed.

(** The outcomes of the authorization gate. *)
Lemma okp_verified q (M : machine) : okp (_verified_recall_provenance q) M (fun M' p =>
  database M' = database M /\ authorization_state p ∈ ["PASS"; "DENY"; "ABSTAIN"]).
Proof.
  apply okp_bind, okp_timestamp. intros t _ _. apply okp_bind. intros M1 u E.
  assert (E1 : database M1 = database M).
  { unfold _assert_recorded_at_within_skew, _instant_value, contract, require in E.
    repeat (apply st_bind_ok in E as (? & ? & Hx & E); unfold st_lift in Hx; try (apply st_bind_ok in Hx as (? & ? & [= <- _] & Hx));
            injection Hx as <- _). by injection E as <- _. }
  apply okp_bind, okp_gets, okp_bind, okp_lift. intros p _. apply okp_bind, okp_require. intros _.
  apply okp_bind, okp_require. intros Ha. apply okp_bind, okp_require. intros _. apply okp_ret. split; [done|].
  unfold authorizes_request in Ha. rewrite !andb_true_iff in Ha. destruct Ha as [[[[[[[[Hl _] _] _] _] _] _] _] Hg].
  apply str_mem_spec in Hg. unfold authorization_state. destruct (component_states p); [done | exact Hg].
Qed.

Lemma okp_reload p now (M : machine) : okp (_reload_verified_provenance p now) M (fun M' p' => database M' = database M /\ p' = p).
Proof.
  apply okp_bind, okp_read, okp_bind, okp_lift. intros payload _. apply okp_bind, okp_lift. intros p' _.
  apply okp_bind, okp_require. intros H. apply okp_ret. apply andb_true_iff in H as [H%bool_decide_eq_true _]. done.
Qed.

(** What a recall that was answered did: its transaction resumed, selected and recorded. *)
Record answered (q : RecallSnapshotRequestV2) (d : ledger_db) (M1 M2 : machine) (resume : string) (M3 : machine) (page : recall_page) : Prop := {
  answered_before : meanwhile d (database M1);
  answered_cut : rp_allowed page = true -> cut_available (database M1) (rq_binding q) = true;
  answered_resume : _resume_after q (rb_cut (rq_binding q)) M1 = (M2, Ok resume);
  answered_page : select_page page_size q (rp_allowed page) resume M2 = (M3, Ok page);
}.

Lemma select_allowed q allowed resume (M : machine) :
  okp (select_page page_size q allowed resume) M (fun _ out => rp_allowed out = allowed).
Proof.
  apply okp_bind, okp_gets, okp_bind, okp_require. intros _. apply okp_bind, okp_require. intros _.
  apply okp_bind, okp_require. intros _. apply okp_bind, okp_lift. intros p _.
  apply okp_bind. intros M' cursor _. by apply okp_ret.
Qed.

Lemma okp_recall q p (M : machine) : okp (recall_transaction page_size q p) M (fun M3 r =>
  r.1 = p /\ (rp_allowed r.2 = false -> authorization_state p <> "PASS") /\
  exists M1 M2 resume, answered q (database M) M1 M2 resume M3 r.2).
Proof.
  apply okp_bind, okp_timestamp. intros t _ _. apply okp_bind, okp_persist. intros Mp v Ev.
  apply okp_bind, okp_timestamp. intros t' _ _. apply okp_bind. eapply okp_mono; [apply okp_reload|].
  intros M1 p' [E1 ->]. apply okp_bind, okp_gets, okp_bind, okp_require. intros Ha. apply okp_bind, okp_require. intros Hcut.
  apply okp_bind. intros M2 resume Hr. apply okp_bind. intros M3 page Hp. apply okp_ret. cbn [fst snd].
  pose proof (select_allowed _ _ _ _ _ _ Hp) as Ea. split; [done|]. split.
  { intros E. rewrite Ea in E. rewrite E in Ha. cbn in Ha. rewrite orb_false_r in Ha. apply negb_true_iff, String.eqb_neq in Ha. done. }
  exists M1, M2, resume. split; [| | exact Hr | by rewrite Ea].
  - rewrite E1. cbn [tick database]. rewrite Ev. apply meanwhile_transaction; [by apply tx_elsewhere | done].
  - intros E. rewrite Ea in E. rewrite E in Hcut. exact Hcut.
Qed.
Lemma answered_after q d d' M1 M2 resume M3 page : meanwhile d d' -> answered q d' M1 M2 resume M3 page -> answered q d M1 M2 resume M3 page.
Proof. intros Hd []. split; [by etrans | done..]. Qed.

Lemma frame_available rows : frame (all_available rows).
Proof.
  induction rows as [|v rows IH]; intros M; [done|]. cbn. destruct (available (ve_content v) (world M)) as [w [[]|]]; [|done..].
  by rewrite IH.
Qed.

Lemma okp_outgoing q digest cursor (M : machine) :
  okp (_outgoing_continuation reader_signer reader_key q (rb_cut (rq_binding q)) digest cursor) M
    (fun M' c => database M' = database M /\ points_at (rq_binding q) cursor c).
Proof.
  destruct cursor as [[h s]|]; [|by apply okp_ret]. apply okp_bind, okp_timestamp. intros t _ Ht. apply okp_bind.
  intros M1 [i e] Hw. apply window_ok in Hw as (-> & _ & _); [|done]. apply okp_ret. split; [done|].
  eexists. split; [reflexivity|]. destruct (rq_binding q). cbn. set_solver.
Qed.

Lemma okp_acquire q (M : machine) : steady -> okp (acquire q) M (fun M' o => exists M1 M2 M3 resume page,
  answered q (database M) M1 M2 resume M3 page /\ database M' = database M3 /\
  (ro_decision o = "ALLOW" -> rp_allowed page = true) /\
  map oc_candidate (ro_candidates o) = map ve_candidate (rp_rows page) /\ ro_more o = rp_more page /\
  points_at (rq_binding q) (rp_cursor page) (ro_continuation o)).
Proof.
  intros Hs. apply okp_bind. eapply okp_mono; [apply okp_verified|]. intros Ma p [Ea Hp]. apply okp_bind.
  apply (okp_mono _ _ (fun Mb _ => meanwhile (database M) (database Mb))).
  { destruct (String.eqb _ _); [|apply okp_ret; by rewrite Ea]. rewrite <- Ea. by apply okp_classify. }
  intros Mb _ Hb. apply okp_bind, okp_unit. eapply okp_mono; [apply okp_recall|].
  intros M3 [p' page] (Ep & Hno & M1 & M2 & resume & Hans). cbn [fst snd] in *. subst p'.
  apply okp_bind. intros Mc u Ec. pose proof (frame_available (rp_rows page) M3) as Hc. rewrite Ec in Hc. cbn [fst] in Hc.
  apply okp_bind, okp_lift. intros citations _. apply okp_bind. eapply okp_mono; [apply okp_outgoing|].
  intros M' c [E' Hpt]. apply okp_ret. exists M1, M2, M3, resume, page. cbn [ro_decision ro_candidates ro_more ro_continuation].
  split; [|split; [congruence|split; [|split; [by rewrite map_map | by split]]]].
  - eapply answered_after; [|exact Hans]. etrans; [exact Hb | apply Hs].
  - destruct (rp_allowed page); [done|]. intros E. rewrite E in Hp. repeat (apply elem_of_cons in Hp as [Hp|Hp]; [discriminate Hp|]).
    by apply elem_of_nil in Hp.
Qed.
(** ** What one page takes from what is left *)

Definition names (d : ledger_db) (b : binding) : list string := map ve_candidate (candidate_rows d b).
Definition links (d : ledger_db) (b : binding) : list edge := (support_rows d b ++ conflict_rows d b)%list.
Definition shown (o : recall_outcome) : list string := map oc_candidate (ro_candidates o).

(** The candidates fall into whole components; more than the page size are one component. *)
Definition together (d : ledger_db) (b : binding) (l : list string) : Prop :=
  (forall x y, x ∈ l -> y ∈ names d b -> joined (node_set (names d b)) (links d b) x y -> y ∈ l) /\
  (length l <= page_size \/ forall x y, x ∈ l -> y ∈ l -> joined (node_set (names d b)) (links d b) x y).

#[local] Instance together_proper d b : Proper ((≡ₚ) ==> iff) (together d b).
Proof.
  intros l l' E. assert (H : forall x, x ∈ l <-> x ∈ l') by (intros x; by rewrite E). unfold together. rewrite E. by setoid_rewrite H.
Qed.

Lemma NoDup_concat_filter {A} (f : list A -> bool) cs : NoDup (concat cs) -> NoDup (concat (List.filter f cs)).
Proof.
  assert (Hsub : concat (List.filter f cs) `sublist_of` concat cs).
  { induction cs as [|c cs IH]; cbn; [done|]. destruct (f c); cbn; [by apply sublist_app | by apply sublist_inserts_l]. }
  intros H. exact (sublist_NoDup _ _ H Hsub).
Qed.

Lemma selected_names b resume d out p : orderly d -> selected page_size b true resume d out p -> NoDup (displayed p) ->
  (forall x, x ∈ displayed p -> x ∈ names d b) -> map ve_candidate (rp_rows out) ≡ₚ displayed p.
Proof.
  intros Ho Hs Hd Hsub. apply NoDup_Permutation; [| exact Hd |].
  - rewrite (selected_rows _ _ _ _ _ _ _ Hs). apply (NoDup_map_filter ve_candidate _ (fun _ => true)); [done|].
    unfold rows_of. rewrite filter_forall by (by apply list.Forall_forall). by apply candidate_rows_NoDup.
  - intros x. split.
    + intros (v & -> & Hv)%list_elem_of_fmap. by apply (selected_elem _ _ _ _ _ _ _ Hs) in Hv as [_ ?].
    + intros Hx. eapply selected_name; [exact Hs | by apply Hsub | done].
Qed.

(** A page shows the first components left, whole, and leaves the others. *)
Lemma page_takes b resume d out p cs : orderly d -> selected page_size b true resume d out p ->
  components (node_set (names d b)) (links d b) = Some cs -> partition (node_set (names d b)) (links d b) cs ->
  exists took left, remaining cs resume = (took ++ left)%list /\ map ve_candidate (rp_rows out) ≡ₚ concat took /\
    together d b (map ve_candidate (rp_rows out)) /\
    (has_more p = false -> left = []) /\
    (has_more p = true -> exists m, last_component_min p = Some m /\ remaining cs m = left /\ left <> [] /\
      length left < length (remaining cs resume)).
Proof.
  intros Ho Hs Hc Hp. pose proof (selected_page _ _ _ _ _ _ _ Hs) as Epage. unfold _page_components in Epage.
  cbn [rows_of supports_at conflicts_at] in Epage. fold (names d b) (links d b) in Epage. fold (node_set (names d b)) in Epage.
  rewrite Hc in Epage. cbn [mbind option_bind] in Epage. injection Epage as Epage.
  destruct (page_rest cs resume page_size (partition_heads _ _ _ Hp)) as (took & left & Hr & Hd & Hb & Hlast & Hmore).
  rewrite Epage in Hd, Hb, Hlast, Hmore. exists took, left.
  assert (Hin : forall c, c ∈ took -> c ∈ cs).
  { intros c Hin. assert (Hin' : c ∈ remaining cs resume) by (rewrite Hr; apply elem_of_app; by left).
    by apply list_elem_of_In, filter_In in Hin' as [Hin'%list_elem_of_In _]. }
  assert (Hn : NoDup (concat cs)) by (rewrite (partition_members _ _ _ Hp); unfold node_set; apply NoDup_elements).
  apply (NoDup_concat_filter (fun c => str_ltb resume (head_ref c))) in Hn. fold (remaining cs resume) in Hn.
  rewrite Hr, concat_app in Hn. apply list.NoDup_app in Hn as [Hn _].
  assert (Hnames : map ve_candidate (rp_rows out) ≡ₚ displayed p).
  { eapply selected_names; [done | done | by rewrite Hd|]. intros x Hx. rewrite Hd in Hx. apply node_set_elem.
    rewrite <- (partition_members _ _ _ Hp). apply list_elem_of_In, in_concat in Hx as (c & Hc'%list_elem_of_In & Hx).
    apply list_elem_of_In, in_concat. exists c. split; [apply list_elem_of_In; by apply Hin | done]. }
  split; [done|]. split; [by rewrite Hnames, Hd|]. split; [|by split].
  rewrite Hnames. apply (whole_page_joined _ _ _ _ _ Hp). exists took. done.
Qed.
(** ** Recalls that carry on, and what is left after them *)

(** Recalls of [b] that were allowed, from [M] on: each carries the continuation of the one
    before, and others run meanwhile.  The outcomes are listed latest first. *)
Inductive recalls (b : binding) (M : machine) : list recall_outcome -> machine -> Prop :=
| recalls_first q M' o : rq_binding q = b -> continuation q = None -> acquire q M = (M', Ok o) -> ro_decision o = "ALLOW" ->
    recalls b M [o] M'
| recalls_next q last os M1 M2 M' o : recalls b M (last :: os) M1 -> meanwhile (database M1) (database M2) ->
    rq_binding q = b -> carries_on last q -> acquire q M2 = (M', Ok o) -> ro_decision o = "ALLOW" ->
    recalls b M (o :: last :: os) M'.

(** What carrying on from [last] will find in [d]: the cursor's row, and the components left. *)
Definition resumable (b : binding) (last : recall_outcome) (d : ledger_db) (cs left : list (list string)) : Prop :=
  exists m c, points_at b (Some c) (ro_continuation last) /\ recorded b m c d /\ remaining cs m = left /\ left <> [].

Record progress (b : binding) (os : list recall_outcome) (last : recall_outcome) (d : ledger_db) (cs left : list (list string)) : Prop := {
  progress_orderly : orderly d;
  progress_windowed : windowed d;
  progress_reached : reached d b;
  progress_fetchable : fetchable d b = true;
  progress_components : components (node_set (names d b)) (links d b) = Some cs;
  progress_partition : partition (node_set (names d b)) (links d b) cs;
  progress_shown : (concat (map shown (last :: os)) ++ concat left)%list ≡ₚ names d b;
  progress_together : Forall (fun o => together d b (shown o)) (last :: os);
  progress_count : length (last :: os) + length left <= Datatypes.S (length cs);
  progress_more : if ro_more last then resumable b last d cs left else left = [] /\ ro_continuation last = None;
}.

(** The view at a reached cut stays. *)
Lemma meanwhile_view b d d' : meanwhile d d' -> orderly d -> reached d b ->
  orderly d' /\ reached d' b /\ names d' b = names d b /\ links d' b = links d b /\ fetchable d' b = fetchable d b.
Proof.
  intros [Ht _ _] Ho Hr. destruct (transactions_rows b d d' Ho Ht Hr) as (Hr' & E1 & E2 & E3 & _).
  split; [by eapply transactions_orderly|]. unfold names, links, fetchable. by rewrite E1, E2, E3.
Qed.

Lemma meanwhile_together b d d' l : names d' b = names d b -> links d' b = links d b -> together d b l -> together d' b l.
Proof. unfold together. by intros -> ->. Qed.

Lemma names_NoDup d b : orderly d -> node_set (names d b) ≡ₚ names d b.
Proof.
  intros Ho. apply NoDup_Permutation; [unfold node_set; apply NoDup_elements | by apply candidate_rows_NoDup|].
  intros x. apply node_set_elem.
Qed.

Lemma progress_meanwhile b os last d d' cs left : meanwhile d d' -> progress b os last d cs left -> progress b os last d' cs left.
Proof.
  intros Hm [Ho Hw Hr Hf Hc Hp Hs Ht Hn Hmore]. destruct (meanwhile_view b d d' Hm Ho Hr) as (Ho' & Hr' & E1 & E2 & Ef).
  split; [done | by apply (meanwhile_windows _ _ Hm) | done | by rewrite Ef | by rewrite E1, E2 | by rewrite E1, E2 | by rewrite E1 | | done |].
  - eapply list.Forall_impl; [exact Ht|]. intros o. by apply meanwhile_together.
  - destruct (ro_more last); [|done]. destruct Hmore as (m & c & Hpt & Hrec & Hrem & Hne). exists m, c.
    split; [done|]. split; [|done]. by eapply meanwhile_recorded.
Qed.

(** A page: what was left before it is what it shows and what is left after it. *)
Lemma progress_page b os o q resume (M2 M3 : machine) page cs : rq_binding q = b -> orderly (database M2) -> windowed (database M2) ->
  reached (database M2) b -> select_page page_size q true resume M2 = (M3, Ok page) ->
  components (node_set (names (database M2) b)) (links (database M2) b) = Some cs ->
  partition (node_set (names (database M2) b)) (links (database M2) b) cs ->
  shown o = map ve_candidate (rp_rows page) -> ro_more o = rp_more page -> points_at b (rp_cursor page) (ro_continuation o) ->
  (concat (map shown os) ++ concat (remaining cs resume))%list ≡ₚ names (database M2) b ->
  Forall (fun o => together (database M2) b (shown o)) os -> length os + length (remaining cs resume) <= Datatypes.S (length cs) ->
  (os = [] \/ remaining cs resume <> []) ->
  exists left, progress b os o (database M3) cs left.
Proof.
  intros <- Ho Hw Hr Hsel Hc Hp Es Em Hpt Hshown Hall Hn Hpos. apply okp_select in Hsel as (p & Hs & Hf & Hm & Hcur).
  destruct (page_takes _ _ _ _ _ _ Ho Hs Hc Hp) as (took & left & Hrem & Htook & Htog & Hlast & Hmore). exists left.
  assert (Emore : ro_more o = has_more p) by (rewrite Em; apply (selected_more _ _ _ _ _ _ _ Hs)).
  destruct (meanwhile_view (rq_binding q) _ _ Hm Ho Hr) as (Ho' & Hr' & E1 & E2 & Ef).
  split; [done | by apply (meanwhile_windows _ _ Hm) | done | by rewrite Ef | by rewrite E1, E2 | by rewrite E1, E2 | | | |].
  - cbn. rewrite Es, E1, <- Hshown, Hrem, concat_app, Htook. by rewrite <- !app_assoc, Permutation_app_swap_app.
  - constructor; [rewrite Es|]; [by eapply meanwhile_together|]. eapply list.Forall_impl; [exact Hall|]. intros o'. by apply meanwhile_together.
  - cbn [length]. destruct (has_more p).
    + destruct (Hmore eq_refl) as (m & _ & _ & _ & Hl). lia.
    + rewrite (Hlast eq_refl). cbn. destruct Hpos as [->|Hne]; [cbn; lia|]. destruct (remaining cs resume); [done|]. cbn in Hn. lia.
  - rewrite Emore. destruct (has_more p); [|split; [by apply Hlast | by rewrite Hcur in Hpt]]. destruct (Hmore eq_refl) as (m & Emin & Erem & Hne & _).
    destruct Hcur as (c & Ec & Hrec). rewrite Ec in Hpt. rewrite Emin in Hrec. by exists m, c.
Qed.
Lemma frame_instant s : frame (_instant_value s : method Z).
Proof. apply frame_bind; [apply frame_lift | intros p; apply frame_ret]. Qed.

Lemma frame_resume q cut : frame (_resume_after q cut : method string).
Proof.
  unfold _resume_after. destruct (continuation q) as [c|]; [|apply frame_ret].
  apply frame_bind; [apply frame_read | intros row]. apply frame_bind; [apply frame_lift | intros r].
  apply frame_bind; [apply frame_instant | intros e]. apply frame_bind; [apply frame_timestamp | intros now].
  apply frame_bind; [apply frame_instant | intros t]. apply frame_bind; [apply frame_lift | intros _].
  apply frame_bind; [apply frame_lift | intros _; apply frame_ret].
Qed.

(** An allowed recall, from where its transaction resumes. *)
Lemma acquire_allowed q (M M' : machine) o : steady -> orderly (database M) -> windowed (database M) ->
  acquire q M = (M', Ok o) -> ro_decision o = "ALLOW" ->
  exists M1 M2 M3 resume page, meanwhile (database M) (database M1) /\ reached (database M1) (rq_binding q) /\
    orderly (database M1) /\ windowed (database M1) /\
    _resume_after q (rb_cut (rq_binding q)) M1 = (M2, Ok resume) /\ database M2 = database M1 /\
    select_page page_size q true resume M2 = (M3, Ok page) /\ meanwhile (database M1) (database M3) /\ database M' = database M3 /\
    shown o = map ve_candidate (rp_rows page) /\ ro_more o = rp_more page /\ points_at (rq_binding q) (rp_cursor page) (ro_continuation o).
Proof.
  intros Hs Ho Hw H Hd. apply okp_acquire in H; [|exact Hs].
  destruct H as (M1 & M2 & M3 & resume & page & [Hb Hcut Hr Hp] & E & Hallow & Hrest). rewrite (Hallow Hd) in *.
  pose proof (frame_resume q (rb_cut (rq_binding q)) M1) as E2. rewrite Hr in E2. cbn [fst] in E2.
  assert (Ho1 : orderly (database M1)) by (eapply transactions_orderly; [apply Hb | exact Ho]).
  pose proof Hp as (p & _ & _ & Hm & _)%okp_select. rewrite E2 in Hm.
  exists M1, M2, M3, resume, page. split; [exact Hb|]. split; [by apply cut_available_reached; [apply Ho1 | apply Hcut]|].
  split; [exact Ho1|]. split; [by apply (meanwhile_windows _ _ Hb)|]. done.
Qed.

Lemma recalls_reached b M os M' : steady -> orderly (database M) -> windowed (database M) -> recalls b M os M' ->
  orderly (database M') /\ windowed (database M') /\ reached (database M') b.
Proof.
  intros Hs Ho Hw H. induction H as [q M' o Eb _ H Hd | q last os M1 M2 M' o _ IH Hm Eb _ H Hd].
  - destruct (acquire_allowed _ _ _ _ Hs Ho Hw H Hd) as (A1 & _ & A3 & _ & _ & _ & Hr & Ho1 & Hw1 & _ & _ & _ & Hm & E & _).
    rewrite Eb in Hr. destruct (meanwhile_view b _ _ Hm Ho1 Hr) as (Ho' & Hr' & _). rewrite E. split; [done|]. split; [|done].
    by apply (meanwhile_windows _ _ Hm).
  - destruct IH as (Ho1 & Hw1 & Hr1).
    assert (Hst : orderly (database M2) /\ windowed (database M2)) by
      (split; [eapply transactions_orderly; [apply Hm | exact Ho1] | by apply (meanwhile_windows _ _ Hm)]).
    destruct (acquire_allowed _ _ _ _ Hs (proj1 Hst) (proj2 Hst) H Hd) as (A1 & _ & A3 & _ & _ & _ & Hr & Ho2 & Hw2 & _ & _ & _ & Hm' & E & _).
    rewrite Eb in Hr. destruct (meanwhile_view b _ _ Hm' Ho2 Hr) as (Ho' & Hr' & _). rewrite E. split; [done|]. split; [|done].
    by apply (meanwhile_windows _ _ Hm').
Qed.

Lemma components_of d b : exists cs, components (node_set (names d b)) (links d b) = Some cs /\
  partition (node_set (names d b)) (links d b) cs.
Proof. apply components_spec. unfold node_set. apply NoDup_elements. Qed.

Lemma remaining_start d b cs : "" ∉ names d b -> partition (node_set (names d b)) (links d b) cs -> remaining cs "" = cs.
Proof.
  intros Hne Hp. apply remaining_all, list.Forall_forall. intros c Hc E. apply Hne, node_set_elem. rewrite <- E, <- (partition_members _ _ _ Hp).
  apply list_elem_of_In, in_concat. exists c. rewrite <- !list_elem_of_In. split; [done|]. apply head_ref_elem.
  pose proof (partition_nonempty _ _ _ Hp) as Hn. rewrite list.Forall_forall in Hn. by apply Hn.
Qed.

(** What any number of recalls that carry on have shown, and left. *)
Lemma recalls_progress b M os M' : steady -> orderly (database M) -> windowed (database M) -> recalls b M os M' ->
  "" ∉ names (database M') b -> exists last before cs left, os = last :: before /\ progress b before last (database M') cs left.
Proof.
  intros Hs Ho Hw H. induction H as [q M' o Eb Ec H Hd | q last os M1 M2 M' o Hrec IH Hm Eb Hcarry H Hd]; intros Hne.
  - destruct (acquire_allowed _ _ _ _ Hs Ho Hw H Hd)
      as (A1 & A2 & A3 & resume & page & _ & Hr & Ho1 & Hw1 & Hres & Ea & Hsel & Hm & E & Es & Em & Hpt).
    rewrite Eb in *. unfold _resume_after in Hres. rewrite Ec in Hres. injection Hres as <- <-.
    destruct (meanwhile_view b _ _ Hm Ho1 Hr) as (_ & _ & E1 & _). rewrite E, E1 in Hne.
    destruct (components_of (database A1) b) as (cs & Hc & Hp). pose proof (remaining_start _ _ _ Hne Hp) as Hstart.
    destruct (progress_page b [] o q "" A1 A3 page cs) as [left Hleft]; try done.
    { rewrite Hstart. cbn. by rewrite (partition_members _ _ _ Hp), names_NoDup. }
    { rewrite Hstart. cbn. lia. }
    { by left. }
    exists o, [], cs, left. split; [done|]. by rewrite E.
  - destruct (recalls_reached _ _ _ _ Hs Ho Hw Hrec) as (Ho1 & Hw1 & Hr1).
    assert (Ho2 : orderly (database M2)) by (eapply transactions_orderly; [apply Hm | exact Ho1]).
    destruct (acquire_allowed _ _ _ _ Hs Ho2 (meanwhile_windows _ _ Hm Hw1) H Hd)
      as (A1 & A2 & A3 & resume & page & Hm1 & Hr & Ho3 & Hw3 & Hres & Ea & Hsel & Hm3 & E & Es & Em & Hpt).
    rewrite Eb in *. assert (Hall : meanwhile (database M1) (database A1)) by (by etrans).
    destruct (meanwhile_view b _ _ Hm3 Ho3 Hr) as (_ & _ & E1 & _).
    destruct (meanwhile_view b _ _ Hall Ho1 Hr1) as (_ & _ & E2 & _).
    destruct IH as (l & before & cs & left & [= <- <-] & Hprog); [by rewrite <- E2, <- E1, <- E|].
    apply (progress_meanwhile _ _ _ _ _ _ _ Hall) in Hprog. pose proof (progress_more _ _ _ _ _ _ Hprog) as Hmore.
    destruct (ro_more last); [|destruct Hcarry as (u & c & Eu & _), Hmore; congruence].
    destruct Hmore as (m & [h s] & Hpt1 & (r & Hrow & Hpos) & Hrem & Hleft).
    rewrite <- Eb in Hpt1, Hpos, Hres. destruct (carried _ _ _ _ _ Hcarry Hpt1) as (c & Ec & Eh & Estate & Ecut).
    cbn [fst snd] in *. subst h s.
    destruct (okp_resume q c m r Ec Ecut Hpos A1 Hrow A2 resume Hres) as [-> _].
    destruct (progress_page b (last :: os) o q m A2 A3 page cs) as [left' Hleft']; try done; rewrite ?Ea; try done.
    { apply Hprog. } { apply Hprog. } { rewrite Hrem. apply Hprog. } { apply Hprog. }
    { rewrite Hrem. apply (progress_count _ _ _ _ _ _ Hprog). }
    { right. by rewrite Hrem. }
    exists o, (last :: os), cs, left'. split; [done|]. by rewrite E.
Qed.
(** ** The next page *)

(** The cursor that the page after [resume] needs is taken by a row of another position. *)
Definition handle_taken (q : RecallSnapshotRequestV2) (resume : string) (d : ledger_db) : Prop :=
  let b := rq_binding q in
  exists p m r, page_at page_size d b resume = Some p /\ has_more p = true /\ last_component_min p = Some m /\
    let s := _cursor_state_digest (rb_workspace b) (rb_cut b) m in
    ledger_recall_cursor d !! cursor_handle q (rb_cut b) s = Some r /\ ~ position b m s r.

Lemma select_run q resume (M : machine) t p : let b := rq_binding q in fetchable (database M) b = true ->
  page_at page_size (database M) b resume = Some p -> (has_more p = true -> is_Some (last_component_min p)) ->
  reads M t -> in_range t -> in_range (t + TTL) ->
  (exists M' page, select_page page_size q true resume M = (M', Ok page)) \/ handle_taken q resume (database M).
Proof.
  intros b Hf Hp Hlast Ht Hin He. unfold fetchable in Hf. rewrite !andb_true_iff in Hf. destruct Hf as [[H1 H2] H3].
  unfold select_page. fold b. rewrite (st_bind_run _ _ M M (database M)) by done. cbn zeta beta iota.
  assert (Hreq : forall c s, c = true -> require c s M = (M, Ok tt)) by (intros c s ->; done).
  rewrite (st_bind_run _ _ _ _ _ (Hreq _ _ H1)), (st_bind_run _ _ _ _ _ (Hreq _ _ H2)), (st_bind_run _ _ _ _ _ (Hreq _ _ H3)).
  rewrite (st_bind_run _ _ M M p) by (unfold page_at in Hp; unfold st_lift; by rewrite Hp).
  destruct (has_more p) eqn:Em; [|left; by eexists _, _]. destruct (Hlast eq_refl) as [m Hm]. rewrite Hm. cbn [default].
  destruct (issue_run q m M t Ht Hin He) as [(M' & c & E)|(r & Hr & Hno)].
  - left. exists M'. eexists. apply st_bind_ok. exists M', (Some c). split; [|done].
    apply st_bind_ok. by exists M', c.
  - right. by exists p, m, r.
Qed.

(** What a request that carries on from [last] is answered, whatever has run meanwhile: until
    the cursor's row expires, a further page that is not empty - unless the handle it needs
    is taken - and from then on a refusal. *)
Definition next_page (b : binding) (last : recall_outcome) (d : ledger_db) : Prop :=
  exists c r issued, points_at b (Some c) (ro_continuation last) /\ ledger_recall_cursor d !! c.1 = Some r /\ window r issued /\
  forall q (M : machine) t t', rq_binding q = b -> carries_on last q -> meanwhile d (database M) ->
    reads M t -> reads (tick M) t' -> in_range (t' + TTL) ->
    if (t <? issued + TTL)%Z
    then (exists M' page, ((resume ← _resume_after q (rb_cut b); select_page page_size q true resume) : method recall_page) M =
                            (M', Ok page) /\ rp_rows page <> []) \/
         handle_taken q (cu_after r) (database M)
    else _resume_after q (rb_cut b) M = (tick M, Err expired).

Lemma progress_next b before last d cs left : progress b before last d cs left -> ro_more last = true -> next_page b last d.
Proof.
  intros Hprog Em. pose proof (progress_more _ _ _ _ _ _ Hprog) as Hmore. rewrite Em in Hmore.
  destruct Hmore as (m & [h s] & Hpt & (r & Hrow & Hpos) & Hrem & Hleft). cbn [fst snd] in *.
  destruct (progress_windowed _ _ _ _ _ _ Hprog h r Hrow) as [issued Hw]. exists (h, s), r, issued.
  split; [done|]. split; [done|]. split; [done|]. intros q M t t' <- Hcarry Hm Ht Ht' He.
  destruct (carried _ _ _ _ _ Hcarry Hpt) as (c & Ec & <- & <- & Ecut).
  apply (progress_meanwhile _ _ _ _ _ _ _ Hm) in Hprog. destruct Hprog as [Ho _ _ Hf Hc Hp _ _ _ _].
  assert (Hrun := resume_run q c m r Ec Ecut Hpos M issued t (lookup_weaken _ _ _ _ Hrow (meanwhile_cursors _ _ Hm)) Hw Ht
    (parse_instant_range _ _ Ht)).
  destruct (t <? issued + TTL)%Z; [|exact Hrun]. rewrite (position_after _ _ _ _ Hpos).
  assert (Hpage : exists p, page_at page_size (database M) (rq_binding q) m = Some p).
  { unfold page_at, _page_components. fold (names (database M) (rq_binding q)) (links (database M) (rq_binding q)).
    fold (node_set (names (database M) (rq_binding q))). rewrite Hc. by eexists. }
  destruct Hpage as [p Hpage].
  assert (Hlast : has_more p = true -> is_Some (last_component_min p)).
  { intros Hh. unfold page_at, _page_components in Hpage. fold (names (database M) (rq_binding q)) (links (database M) (rq_binding q)) in Hpage.
    fold (node_set (names (database M) (rq_binding q))) in Hpage. rewrite Hc in Hpage. injection Hpage as <-.
    destruct (page_rest cs m page_size (partition_heads _ _ _ Hp)) as (? & ? & _ & _ & _ & _ & Hmore).
    destruct (Hmore Hh) as (k & -> & _). done. }
  destruct (select_run q m (tick M) t' p Hf Hpage Hlast Ht' (parse_instant_range _ _ Ht') He) as [(M' & page & E)|Htaken]; [left|by right].
  exists M', page. split; [by rewrite (st_bind_run _ _ _ _ _ Hrun)|].
  apply okp_select in E as (p' & Hs & _). destruct (page_takes _ _ _ _ _ _ Ho Hs Hc Hp) as (took & rest & Hrest & Hnames & _ & Hend & Hmore').
  intros En. rewrite En in Hnames. cbn in Hnames. apply Permutation_nil in Hnames.
  destruct took as [|c0 took].
  - rewrite Hrem in Hrest. cbn in Hrest. destruct (has_more p').
    + destruct (Hmore' eq_refl) as (k & _ & _ & _ & Hl). rewrite Hrem, Hrest in Hl. lia.
    + by rewrite (Hend eq_refl) in Hrest.
  - cbn in Hnames. apply app_eq_nil in Hnames as [-> _]. pose proof (partition_nonempty _ _ _ Hp) as Hn. rewrite list.Forall_forall in Hn.
    apply (Hn []); [|done]. assert (Hin : [] ∈ remaining cs m) by (rewrite Hrest; by left).
    by apply list_elem_of_In, filter_In in Hin as [Hin%list_elem_of_In _].
Qed.

(** ** The theorem *)

(** C6: allowed recalls of one request that carry on from page to page, while other
    connections commit any transactions in between, show every candidate visible at its cut
    exactly once: the candidates shown so far and the ones left are the visible ones, none
    twice, and when a recall says that there is no more, none is left.  They end: there is
    at most one page more than candidates.  No page separates two candidates that edges
    between visible candidates join, and a page is larger than the page size only when it
    shows one component.  As long as there is more, a request with the last continuation
    resumes at the recorded position: its transaction selects a further page while the 300
    seconds from the recording of the cursor last - unless the handle of the next cursor
    holds another position - and is refused as expired afterwards.  A cursor without a row
    is refused, and so are more rows than the cap.  Cursors are kept meanwhile (only expired
    ones are ever purged, and they are refused either way) and are all recorded with that
    window; no visible candidate has an empty reference. *)
Theorem pages_survive_commits b (M M' : machine) last before : steady -> orderly (database M) -> windowed (database M) ->
  recalls b M (last :: before) M' -> let d := database M' in "" ∉ names d b ->
  (let so_far := concat (map shown (last :: before)) in
   if ro_more last then exists left, left <> [] /\ (so_far ++ left)%list ≡ₚ names d b /\ NoDup (so_far ++ left)%list
   else so_far ≡ₚ names d b /\ NoDup so_far) /\
  length (last :: before) <= Datatypes.S (length (names d b)) /\
  Forall (fun o => together d b (shown o)) (last :: before) /\
  (ro_more last = true -> next_page b last d) /\
  (forall q c (N : machine), continuation q = Some c -> ledger_recall_cursor (database N) !! cursor_handle_ref c = None ->
     _resume_after q (rb_cut b) N = (N, Err (LedgerAuthorityError "continuation cursor is not durably resolvable"))) /\
  (forall q resume (N : machine), rq_binding q = b -> fetchable (database N) b = false ->
     select_page page_size q true resume N = (N, Err (LedgerAuthorityError "recall workspace exceeds bounded fetch cap"))).
Proof.
  intros Hs Ho Hw Hrec d Hne. destruct (recalls_progress _ _ _ _ Hs Ho Hw Hrec Hne) as (l & bf & cs & left & [= <- <-] & Hp).
  fold d in Hp. pose proof (candidate_rows_NoDup d b (progress_orderly _ _ _ _ _ _ Hp)) as Hnd. fold (names d b) in Hnd.
  pose proof (progress_shown _ _ _ _ _ _ Hp) as Hshown. pose proof (progress_partition _ _ _ _ _ _ Hp) as Hpart.
  split; [|split; [|split; [|split; [|split]]]].
  - pose proof (progress_more _ _ _ _ _ _ Hp) as Hmore. destruct (ro_more last).
    + exists (concat left). split; [|by rewrite Hshown]. destruct Hmore as (m & c & _ & _ & Hrem & Hleft).
      destruct left as [|c0 left]; [done|]. cbn. intros [E _]%app_eq_nil. pose proof (partition_nonempty _ _ _ Hpart) as Hn.
      rewrite list.Forall_forall in Hn. apply (Hn c0); [|exact E]. assert (Hin : c0 ∈ remaining cs m) by (rewrite Hrem; by left).
      by apply list_elem_of_In, filter_In in Hin as [Hin%list_elem_of_In _].
    + destruct Hmore as [-> _]. cbn in Hshown. rewrite app_nil_r in Hshown. cbn. by rewrite Hshown.
  - pose proof (progress_count _ _ _ _ _ _ Hp) as Hc. pose proof (concat_length cs (partition_nonempty _ _ _ Hpart)) as Hl.
    rewrite (partition_members _ _ _ Hpart), (names_NoDup d b (progress_orderly _ _ _ _ _ _ Hp)) in Hl. lia.
  - apply Hp.
  - by eapply progress_next.
  - intros q c N Hc Hnone. unfold _resume_after. rewrite Hc. unfold mbind at 1, st_bind at 1, read. by rewrite Hnone.
  - intros q resume N <-. apply select_over_cap.
Qed.
End Recall.
End Paging.

(** ** Two pages of the sample ledger *)

#[local] Existing Instance unicode_sample.
#[local] Existing Instance pad_digest.

(** Both candidates are approved at this cut; no edge joins them yet. *)
Definition query5 : binding :=
  {| rb_workspace := ws1; rb_capability := capability; rb_epoch := "1"; rb_subject := "subject:" +:+ fill "1"; rb_action := "READ";
     rb_query := fill "7"; rb_scope := fill "8"; rb_valid_at := NOW; rb_recorded_at := NOW; rb_cut := "5" |}.

Definition gate (n : ascii) : GateStateV2 := {| gate_state := "PASS"; gate_epoch := "1"; gate_digest := fill n |}.

(** The provenance of a request, sealed with its digest. *)
Definition reader_provenance (n : ascii) (binds : list (string * json)) : AuthorityProvenanceV2 :=
  let sealed d := {| provenance_ref := "provenance:" +:+ fill n; provenance_digest := d; signer_ref := "signer:" +:+ fill "5";
     key_id := "key:" +:+ fill "6"; signature := "sig"; component_states := map gate ["1"; "2"; "3"; "4"; "5"; "6"; "7"; "8"]%char;
     transaction_cut := "5"; issued_at := NOW; expires_at := "2025-01-01T00:00:00Z"; pv_workspace_ref := ws1;
     pv_capability_ref := capability; pv_authority_epoch := "1"; pv_subject_ref := rb_subject query5; pv_action := rb_action query5;
     query_digest := None; pv_scope_digest := Some (rb_scope query5);
     request_digest := Some (canonical_ledger_digest "request-provenance-binding-v2" binds); command_payload_digest := None |} in
  sealed (canonical_ledger_digest "authority-provenance-v2" (signing_body (sealed ""))).

Definition request (n : ascii) (c : option RecallContinuationV2) : RecallSnapshotRequestV2 :=
  let q p := {| rq_binding := query5; rq_provenance_ref := "provenance:" +:+ fill n; rq_provenance_digest := p; continuation := c;
                request_digest_of := fill n |} in
  q (provenance_digest (reader_provenance n (request_binding (q "")))).

Definition request1 : RecallSnapshotRequestV2 := request "a" None.

(** The continuation of the first page, sealed. *)
Definition continuation1 : RecallContinuationV2 :=
  let s := _cursor_state_digest ws1 "5" candidate_a in
  let h := cursor_handle request1 "5" s in
  let d := sha256_hex (ws1 +:+ "5") in
  {| continuation_ref := "continuation:" +:+ canonical_ledger_digest "continuation-ref-v2" [("cursor_handle_ref", JStr h); ("issued_at", JStr NOW)];
     ct_binding := query5; ct_provenance_ref := rq_provenance_ref request1; ct_provenance_digest := rq_provenance_digest request1;
     ct_signer_ref := "signer:" +:+ fill "5"; ct_key_id := "key:" +:+ fill "6"; ct_signature := "sig";
     ct_authority := {| generation_ref := "generation:" +:+ d; generation_digest := d; checkpoint_ref := "checkpoint:" +:+ d;
       checkpoint_digest := d; freshness_digest := d; authority_checkpoint_digest := d |};
     authority_commitment_digest := fill "0"; base_snapshot_digest := fill "0"; cursor_handle_ref := h; cursor_state_digest := s;
     ct_issued_at := NOW; ct_expires_at := "2024-01-01T00:05:00Z"; continuation_digest := fill "0" |}.

Definition request2 : RecallSnapshotRequestV2 := request "b" (Some continuation1).

Definition readers : registry :=
  list_to_map (map (fun e => (provenance_ref e, e))
    [reader_provenance "a" (request_binding request1); reader_provenance "b" (request_binding request2)]).

Definition with_readers (M : machine (W := unit)) : machine (W := unit) :=
  {| database := database M; trust := trust M ∪ readers; world := world M |}.

Notation before_pages := (with_readers (after 4)).

Notation sample_recall := (acquire_recall_snapshot 1 ("signer:" +:+ fill "5") ("key:" +:+ fill "6")).

Definition first_page := sample_recall request1 before_pages.
(** Between the pages the second candidate is corrected on the support of the first. *)
Definition between_pages : machine := (append_ledger_command correct_b first_page.1).1.
Definition second_page := sample_recall request2 between_pages.

Definition summary (r : machine (W := unit) * result ledger_error recall_outcome) : option (string * bool * list string) :=
  match r.2 with Ok o => Some (ro_decision o, ro_more o, shown o) | Err _ => None end.

Lemma quiet_steady : steady.
Proof. by intros M. Qed.

Lemma readers_orderly M : orderly (database M) -> orderly (database (with_readers M)).
Proof. done. Qed.

Lemma pages_orderly : orderly (database before_pages).
Proof. exact (readers_orderly (after 4) (script_orderly 4)). Qed.

Lemma pages_windowed : windowed (database before_pages).
Proof.
  intros h r Hr. assert (E : ledger_recall_cursor (database before_pages) = ∅) by (vm_compute; reflexivity).
  rewrite E, lookup_empty in Hr. discriminate Hr.
Qed.

(** The second request carries every member of the first page's continuation. *)
Definition carries (r : machine (W := unit) * result ledger_error recall_outcome) : bool :=
  match r.2 with
  | Ok o => if ro_continuation o is Some u
            then forallb (fun m => if assoc m.1 (continuation_to_mapping continuation1) is Some v then json_eqb m.2 v else false) u
            else false
  | Err _ => false
  end.

(** The two pages, what the first one's continuation carries, and that the correction
    between them leaves the cursors alone. *)
Example pages_run :
  (summary first_page, summary second_page, carries first_page, str_mem "" (names (database second_page.1) query5),
   ledger_recall_cursor (database between_pages)) =
  (Some ("ALLOW", true, [candidate_a]), Some ("ALLOW", false, [candidate_b]), true, false,
   ledger_recall_cursor (database first_page.1)).
Proof. vm_compute. reflexivity. Qed.

Lemma between_meanwhile : meanwhile (database first_page.1) (database between_pages).
Proof.
  pose proof (proj2 (proj1 (pair_equal_spec _ _ _ _) pages_run)) as E.
  split; [exact (append_steps correct_b first_page.1 quiet_honest eq_refl) | by rewrite E | unfold windowed; by rewrite E].
Qed.

Lemma carries_spec (r : machine (W := unit) * result ledger_error recall_outcome) o : r.2 = Ok o -> carries r = true -> carries_on o request2.
Proof.
  unfold carries. intros -> H. destruct (ro_continuation o) as [u|] eqn:E; [|done]. exists u, continuation1.
  split; [done|]. split; [reflexivity|]. intros [k v] Hin. rewrite forallb_forall in H. specialize (H (k, v)).
  rewrite <- list_elem_of_In in H. specialize (H Hin). cbn [fst snd] in H.
  destruct (assoc k (continuation_to_mapping continuation1)) as [w|] eqn:Ea; [|done]. apply json_eqb_eq in H as ->. by apply assoc_Some_elem.
Qed.

Lemma pages_survive_commits_witness : exists o1 o2 M', shown o1 = [candidate_a] /\ shown o2 = [candidate_b] /\
  recalls 1 ("signer:" +:+ fill "5") ("key:" +:+ fill "6") query5 before_pages [o2; o1] M' /\
  concat (map shown [o2; o1]) ≡ₚ names (database M') query5.
Proof.
  pose proof pages_run as H. apply pair_equal_spec in H as [H _]. apply pair_equal_spec in H as [H Hn].
  apply pair_equal_spec in H as [H Hcarry]. apply pair_equal_spec in H as [H1 H2].
  pose proof between_meanwhile as Hm.
  unfold summary in H1, H2. destruct first_page as [M1 [o1|e]] eqn:E1; [|discriminate H1].
  destruct second_page as [M3 [o2|e]] eqn:E2; [|discriminate H2]. cbn [fst snd] in *.
  injection H1 as Hd1 Hmore1 Hs1. injection H2 as Hd2 Hmore2 Hs2.
  assert (Hrec : recalls 1 ("signer:" +:+ fill "5") ("key:" +:+ fill "6") query5 before_pages [o2; o1] M3).
  { eapply (recalls_next _ _ _ _ _ request2 o1 [] M1 between_pages); [eapply (recalls_first _ _ _ _ _ request1)| | | | |];
      [reflexivity | reflexivity | exact E1 | exact Hd1 | exact Hm | reflexivity | exact (carries_spec (M1, Ok o1) o1 eq_refl Hcarry) | exact E2 | exact Hd2]. }
  exists o1, o2, M3. split; [exact Hs1|]. split; [exact Hs2|]. split; [exact Hrec|].
  assert (Hne : "" ∉ names (database M3) query5).
  { intros Hin. apply str_mem_spec in Hin. rewrite Hin in Hn. discriminate Hn. }
  pose proof (proj1 (pages_survive_commits 1 ("signer:" +:+ fill "5") ("key:" +:+ fill "6") query5 before_pages M3 o2 [o1]
    quiet_steady pages_orderly pages_windowed Hrec Hne)) as H.
  rewrite Hmore2 in H. exact (proj1 H).
Defined.
